(* ===== verification/_CoqProject ===== *)
-Q . S2P
Prelude.v
Errors.v
Effects.v
Varint.v
OnDisk.v
Intervals.v
Page.v
Cells.v
FreeSpace.v
FreeSpaceSpec.v
PageLayout.v
PageCells.v
PageOps.v
CellFormat.v
PageSpec.v
FreeSpaceContract.v
Overflow.v
OverflowRead.v
Freelist.v
FreelistSpec.v
FreelistRefines.v
OverflowFree.v
WalFormat.v
WalLock.v
WalShared.v
WalRecovery.v
WalIndex.v
Threads.v
WalCoordination.v
WalConnection.v
WalInvariant.v
WalSteps.v
WalActions.v
WalPrograms.v
WalCommit.v
WalCheckpoint.v
WalIsolation.v
WalDurability.v
Morton.v
Numeric.v
Values.v
ValueOrder.v
Mvcc.v
MvccWords.v
MvccSession.v
MvccCounters.v
MvccGhost.v
MvccEvolve.v
MvccScan.v
MvccRead.v
MvccWrite.v
MvccStatements.v
MvccFinish.v
MvccChains.v
MvccValidate.v
MvccClock.v
MvccCollect.v
MvccRun.v
MvccPrograms.v
MvccCommit.v
MvccIsolation.v
MvccProgress.v
MvccSchedules.v
