(* ===== verification/Prelude.v ===== *)
(** * Verification of the FastDB storage engine

    FastDB is a document and SQL database on a fork of the Turso engine.  Its
    crates are the engine ([src/core]), the SQL parser ([src/sqlite/parser]), the FastDB
    front end, service and command line ([src/fastdb]) and language bindings.
    This library models parts of the engine that decide whether data survives:
    the file formats, the B-tree page, overflow chains, the free list of pages, the
    write-ahead log with its recovery, its locks and its concurrent connections, and
    the multi-version store with its transactions; the order and the hash of keys; and,
    of the front end, the keys of the spatial index.

    ** How code is modelled

    Machine integers are [Z]; where the code wraps, truncates or panics on
    overflow the definition says so ([wrap], [checked] operations, [assert_that]).
    Bytes are [Z] in [list Z].  A function that returns [Result] and may panic is
    a function into [res]: [Ok], [Err] with a [LimboError], or [Panic].  Code on
    page buffers runs in a state monad ([Page.PM]) that keeps the buffer when it
    fails.  Code that may also wait and is repeated is an [Effects.SM].  Code of
    concurrent connections is a [Threads.prog]: a sequence of atomic actions, between
    which other connections run.

    ** Files

    - [Prelude], [Errors], [Effects]: outcomes, integer and list lemmas;
      [core/error.rs]; code that waits, and rules for it.
    - [Varint]: the variable-length integers of [core/storage/sqlite3_ondisk.rs].
    - [OnDisk]: page sizes, the database header, page types, payload limits.
    - [Page], [Cells]: the accessors of [PageInner] ([core/storage/pager.rs]) and
      every decoder of a cell.
    - [FreeSpace]: freeblocks, fragments, defragmentation, insertion and removal
      of cells ([core/storage/btree.rs]).  [Intervals], [PageLayout], [PageCells],
      [PageOps], [CellFormat] prove it; [FreeSpaceSpec], [FreeSpaceContract] and
      [PageSpec] state what it promises.
    - [Overflow], [OverflowRead]: [fill_cell_payload] and [process_overflow_read]
      as resumable state machines over a page allocator and a page cache that are
      interfaces.
    - [Freelist]: [allocate_page], [free_page] and [clear_overflow_pages] with the
      pins, keys, dirty pages and running reads of the cache.  [FreelistSpec],
      [FreelistRefines]: the heap of pages they implement; [OverflowFree]: they serve
      as the allocator of the overflow chains.
    - [WalFormat]: log header, frames, checksum, for hosts of either byte order.
    - [WalLock]: the reader-writer lock word [TursoRwLock] ([core/storage/wal.rs]).
    - [WalShared], [WalRecovery]: the shared state of the log and how
      [build_shared_wal] rebuilds it from a file.
    - [WalIndex]: the index of frames by page.
    - [Threads]: interleavings of programs, thread-modular proofs of invariants
      with ghost state, and schedules that can be replayed.
    - [WalCoordination]: [InProcessWalCoordination], the operations on read marks,
      locks and metadata.  [WalConnection]: [WalFile] and its callers in the pager:
      transactions, commit, spill, rollback, checkpoint.
    - [WalInvariant], [WalSteps], [WalActions], [WalPrograms], [WalCommit],
      [WalCheckpoint]: the invariant of the shared log, that every action keeps
      it, and that every program does.
    - [WalIsolation], [WalDurability]: what follows for the connections.
    - [Mvcc]: the multi-version store of [core/mvcc/database/mod.rs]: row versions,
      visibility, commit dependencies, validation, commit and rollback, garbage
      collection, one definition per action on the store.  [MvccWords]: the words of
      times and states.  [MvccSession]: the programs of connections over these
      actions, from [core/mvcc/cursor.rs], the
      states of [CommitStateMachine::step], [rollback_tx_inner] and
      [cleanup_dropped_commit]; and [snapshot_isolated], of the journal of what the
      committed transactions have read and written.  [MvccCounters]: the clock and the
      ids only grow.
    - [MvccGhost]: the invariant [store_ok]; the history of each transaction is ghost
      state, and what was read is stated for every set of transactions that may still
      turn out to be the committed ones.  [MvccEvolve]: how the invariant survives a
      step; [MvccScan], [MvccRead], [MvccWrite], [MvccStatements], [MvccValidate],
      [MvccClock], [MvccFinish], [MvccChains], [MvccCollect]: that each action keeps
      it; [MvccRun], [MvccPrograms], [MvccCommit]: that each program does.
    - [MvccIsolation], [MvccProgress], [MvccSchedules]: what follows; that waiting
      commits end; schedules that fail an assertion.
    - [Numeric], [Values], [ValueOrder]: numbers with their bit patterns, values,
      collations, the comparison of index keys and the hash of join keys
      ([core/numeric], [types.rs], [collate.rs], [hash_table.rs]); that keys are ordered
      and that equal keys hash alike.
    - [Morton]: keys and covers of the spatial index
      ([fastdb/frontend/src/spatial/morton.rs]).

    ** What the theorems show

    - Formats: varints, frames, cells and overflow chains are read back as they were
      written; readers with fast paths agree with the general ones; readers of
      arbitrary bytes end with an error or a value; the split of a payload is that
      of the file format.
    - Pages: any sequence of insertions, deletions and defragmentations is the
      same sequence on a list of cells, the free-space count is exact, and an
      insertion finds room whenever the free bytes suffice.
    - Lock word: in every interleaving of its users the word has the exact number of
      readers and the writer, a writer excludes the others, and only the writer's
      store changes the value.
    - Recovery: a log cut at any byte after its header, or followed by anything that
      does not
      continue it, recovers to the last transaction that is completely in it.
    - Isolation: all interleavings of connections have the requests, with the pages
      they write, and the replies of a database that serves one request at a time
      ([WalIsolation.db_trace]); reads repeat; no assertion fails; a crash at any
      moment leaves the committed contents in the two files.
    - Free list: allocation and release of pages implement a heap and end, and give
      back every pin when they succeed; the pages of an overflow chain return to
      the list; the pages a file grows over are written as the buffer pool has them.
    - Multi-version store: all interleavings of transactions, speculative reads,
      commits, dropped commits, rollbacks and garbage collections are snapshot
      isolated, no assertion of the store fails while times and ids fit 62 bits, and
      commits that wait for others do not deadlock; the assertion of the cursor's
      insert and, for an abandoned waiter of
      a group commit, that of [remove_tx] can fail.
    - Keys: index keys are totally ordered, also across integers and floats, which
      compare by their exact values; equal join keys have the same hash.
    - Spatial keys: covers of windows are complete, ordered and within their budget.

    ** Bounds and fuel

    Loops that are not structural take fuel.  Walks over a page have a step per
    byte, and the theorems show they end before; recovery takes a number of polls
    that is linear in the frames of the file, and the theorems state it; chains
    of overflow pages are bounded by the counter the code itself has.

    ** Assumptions and what is left out

    I/O is modelled by its outcome: a request succeeds, or fails after any prefix
    of its effects.  A file read is a parameter that returns the bytes of the
    file.  The page data of the interleavings is abstract, and so is the checksum
    there.  The number of frames and of transactions stays in its type
    ([WalIsolation.pages_fit]).  Memory accesses are sequentially consistent, and a
    failed sync is an error (with [data_sync_retry] off the pager stops the
    process instead).  A checkpoint reads the frames it copies, never a page of the
    cache that is tagged with the frame; of the cut of the database file and of the
    proof of the backfill only the failure is modelled.  An operation on the free
    list that waited for a read is repeated when the read is over; a read that failed
    ends the operation.  Page 1 is on disk: the page that a new database keeps in
    memory ([init_page_1]) is left out.

    In the multi-version store what the source does under one lock is one action: the
    scan or change of one chain with the lookups of transaction states it makes, and
    the code that runs under the clock's lock.  So a commit dependency is registered
    in the state that the scan has seen, while in the source the other transaction
    may have moved on.  [remove_tx] is two actions, as its two tables have no common
    lock.  No checkpoint runs, so that the
    B-trees are constant ([btree]) and no version is materialized; the assertion of
    [PackedTs::pack]
    on a transaction id is made when the id is drawn; rows are those of tables, and
    statements look up, insert or delete one row.

    Not modelled: the multi-process coordination of the log ([ShmWalCoordination]),
    the blocking transaction of VACUUM, positions of savepoints in the
    interleavings and raw frame access; splitting and merging of B-tree nodes and
    the eviction of the page cache; of the multi-version store the checkpoint, the
    logical log and its recovery, group commit and the hand-over of dropped commits to
    it, the chains a cursor caches, index rows, savepoints, range scans
    and header writes; the encoding of records, arithmetic on values and the hash
    table; the SQL parser, planner and virtual machine; the rest of the FastDB front
    end and the service; encryption, extensions, bindings and tools. *)

From stdpp Require Export base list numbers.
From Stdlib Require Export ZArith Lia.

#[global] Open Scope Z_scope.

(** ** Outcomes of Rust functions

    A Rust function that returns [Result<A, E>] and may also panic (an index out
    of bounds, [unwrap] on [None], a failed [turso_assert!]) has three kinds of
    outcome.  [Panic] is kept apart from [Err] because the callers see an error
    value only in the second case. *)
Inductive res (E A : Type) : Type :=
| Ok (a : A)
| Err (e : E)
| Panic.
Arguments Ok {E A} a.
Arguments Err {E A} e.
Arguments Panic {E A}.

#[export] Instance res_ret E : MRet (res E) := fun _ a => Ok a.
#[export] Instance res_bind E : MBind (res E) :=
  fun _ _ k m =>
    match m with
    | Ok a => k a
    | Err e => Err e
    | Panic => Panic
    end.
#[export] Instance res_fmap E : FMap (res E) :=
  fun _ _ f m =>
    match m with
    | Ok a => Ok (f a)
    | Err e => Err e
    | Panic => Panic
    end.

(** [opt.ok_or(e)] *)
Definition ok_or {E A} (o : option A) (e : E) : res E A :=
  match o with Some a => Ok a | None => Err e end.

(** [opt.unwrap()], and every indexing expression [buf[i]] *)
Definition or_panic {E A} (o : option A) : res E A :=
  match o with Some a => Ok a | None => Panic end.

(** [if cond { bail!(e) }] and [turso_assert!(cond)] *)
Definition bail_if {E} (b : bool) (e : E) : res E () :=
  if b then Err e else Ok ().
Definition assert_that {E} (b : bool) : res E () :=
  if b then Ok () else Panic.

Definition is_ok {E A} (r : res E A) : bool :=
  match r with Ok _ => true | _ => false end.

Lemma bind_Ok_inv {E A B} (m : res E A) (k : A -> res E B) (b : B) :
  (m ≫= k) = Ok b -> exists a, m = Ok a /\ k a = Ok b.
Proof. destruct m; simpl; try discriminate. eauto. Qed.

(** Split a successful monadic computation into its steps. *)
Ltac res_inv :=
  repeat match goal with
  | H : (_ ≫= _) = Ok _ |- _ =>
      let a := fresh "a" in let H1 := fresh H in
      apply bind_Ok_inv in H as (a & H1 & H)
  | H : bail_if ?b _ = Ok _ |- _ =>
      let E := fresh "E" in
      unfold bail_if in H; destruct b eqn:E; [discriminate H | clear H]
  | H : assert_that ?b = Ok _ |- _ =>
      let E := fresh "E" in
      unfold assert_that in H; destruct b eqn:E; [clear H | discriminate H]
  | H : Ok _ = Ok _ |- _ => injection H as H
  | H : mret _ = Ok _ |- _ => unfold mret, res_ret in H
  end.

(** ** Machine integers

    An unsigned [w]-bit integer is a [Z] in [0, 2^w); [wrap w] is the reduction
    that every wrapping operation performs, [as_signed w] the cast [x as i<w>]
    of an unsigned value, [as_unsigned w] the cast back. *)
Definition in_u (w x : Z) : Prop := 0 <= x < 2 ^ w.
Definition in_i (w x : Z) : Prop := - 2 ^ (w - 1) <= x < 2 ^ (w - 1).
Definition wrap (w x : Z) : Z := x mod 2 ^ w.
Definition as_signed (w x : Z) : Z :=
  let y := wrap w x in if y <? 2 ^ (w - 1) then y else y - 2 ^ w.
Definition as_unsigned (w x : Z) : Z := wrap w x.
Definition shl (w x n : Z) : Z := wrap w (Z.shiftl x n).
Definition shr (x n : Z) : Z := Z.shiftr x n.
Definition saturating_sub (x y : Z) : Z := Z.max 0 (x - y).

#[export] Instance in_u_dec w x : Decision (in_u w x).
Proof. unfold in_u. apply _. Defined.

Lemma wrap_small w x : in_u w x -> wrap w x = x.
Proof. intros H. apply Z.mod_small, H. Qed.

Lemma wrap_in_u w x : 0 <= w -> in_u w (wrap w x).
Proof. intros Hw. apply Z.mod_pos_bound, Z.pow_pos_nonneg; lia. Qed.

Lemma as_signed_unsigned w x :
  0 < w -> in_i w x -> as_signed w (as_unsigned w x) = x.
Proof.
  intros Hw Hx. unfold as_signed, as_unsigned, wrap, in_i in *.
  rewrite Z.mod_mod by (apply Z.pow_nonzero; lia).
  assert (2 ^ w = 2 * 2 ^ (w - 1)) as Hp.
  { rewrite <- Z.pow_succ_r by lia. f_equal. lia. }
  assert (0 < 2 ^ (w - 1)) by (apply Z.pow_pos_nonneg; lia).
  rewrite Hp. destruct (Z_lt_le_dec x 0) as [Hn|Hn].
  - replace (x mod (2 * 2 ^ (w - 1))) with (x + 2 * 2 ^ (w - 1)).
    + destruct (Z.ltb_spec (x + 2 * 2 ^ (w - 1)) (2 ^ (w - 1))); lia.
    + apply Z.mod_unique with (-1); lia.
  - rewrite Z.mod_small by lia.
    destruct (Z.ltb_spec x (2 ^ (w - 1))); lia.
Qed.

Lemma as_unsigned_signed w x :
  0 < w -> in_u w x -> as_unsigned w (as_signed w x) = x.
Proof.
  intros Hw Hx. unfold as_signed, as_unsigned, wrap, in_u in *.
  rewrite (Z.mod_small x) by lia.
  destruct (Z.ltb_spec x (2 ^ (w - 1))).
  - apply Z.mod_small; lia.
  - symmetry. apply Z.mod_unique with (-1); lia.
Qed.

(** ** Bit operations as arithmetic *)
Lemma land_low (x n : Z) : 0 <= n -> Z.land x (Z.ones n) = x mod 2 ^ n.
Proof. apply Z.land_ones. Qed.

Lemma land_7f x : Z.land x 127 = x mod 128.
Proof. exact (Z.land_ones x 7 ltac:(lia)). Qed.

Lemma land_ff x : Z.land x 255 = x mod 256.
Proof. exact (Z.land_ones x 8 ltac:(lia)). Qed.

Lemma shr_div x n : 0 <= n -> shr x n = x / 2 ^ n.
Proof. intros. apply Z.shiftr_div_pow2. lia. Qed.

Lemma shl_small w x n :
  0 <= n -> 0 <= x * 2 ^ n < 2 ^ w -> shl w x n = x * 2 ^ n.
Proof.
  intros Hn Hr. unfold shl. rewrite Z.shiftl_mul_pow2 by lia.
  by apply wrap_small.
Qed.

Lemma testbit_high b n i : 0 <= n <= i -> 0 <= b < 2 ^ n -> Z.testbit b i = false.
Proof.
  intros Hn Hb. rewrite <- (Z.mod_small b (2 ^ n)) by lia.
  apply Z.mod_pow2_bits_high. lia.
Qed.

(** A value below [2^n] and a multiple of [2^n] have no common bit. *)
Lemma lor_disjoint_add a b n :
  0 <= n -> 0 <= b < 2 ^ n -> Z.lor (a * 2 ^ n) b = a * 2 ^ n + b.
Proof.
  intros Hn Hb. symmetry. apply Z.add_nocarry_lor.
  apply Z.bits_inj'. intros i Hi. rewrite Z.land_spec, Z.bits_0.
  destruct (Z_lt_le_dec i n).
  - rewrite Z.mul_pow2_bits_low by lia. reflexivity.
  - rewrite (testbit_high b n i) by lia. apply andb_false_r.
Qed.

(** ** Byte buffers

    A [&[u8]] is a list of [Z], each in [0, 256) ([bytes_ok]).  Positions are
    [usize], hence [Z].  [zget] is [buf.get(i)], [zslice] the range index
    [&buf[lo..hi]] ([None] where Rust panics), [zput] is
    [buf[pos..pos + n].copy_from_slice(bs)], and [rd]/[splice] are their total
    versions, used in the specifications. *)
Definition byte_ok (b : Z) : Prop := 0 <= b < 256.
Definition bytes_ok (l : list Z) : Prop := Forall byte_ok l.

#[export] Instance bytes_ok_dec l : Decision (bytes_ok l).
Proof. unfold bytes_ok, byte_ok. apply _. Defined.

Definition zlen {A} (l : list A) : Z := Z.of_nat (length l).

Definition zget {A} (l : list A) (i : Z) : option A :=
  if i <? 0 then None else l !! Z.to_nat i.

Definition ztake {A} (n : Z) (l : list A) : list A := take (Z.to_nat n) l.
Definition zdrop {A} (n : Z) (l : list A) : list A := drop (Z.to_nat n) l.

Definition zslice {A} (l : list A) (lo hi : Z) : option (list A) :=
  if (0 <=? lo) && (lo <=? hi) && (hi <=? zlen l)
  then Some (ztake (hi - lo) (zdrop lo l)) else None.

Definition splice {A} (l : list A) (pos : Z) (bs : list A) : list A :=
  ztake pos l ++ bs ++ zdrop (pos + zlen bs) l.

Definition zput {A} (l : list A) (pos : Z) (bs : list A) : option (list A) :=
  if (0 <=? pos) && (pos + zlen bs <=? zlen l) then Some (splice l pos bs) else None.

Definition rd (l : list Z) (i : Z) : Z := default 0 (zget l i).

(** [buf.copy_within(lo..hi, dst)] *)
Definition copy_within {A} (l : list A) (lo hi dst : Z) : option (list A) :=
  src ← zslice l lo hi; zput l dst src.

Lemma zlen_nonneg {A} (l : list A) : 0 <= zlen l.
Proof. unfold zlen. lia. Qed.

Lemma zlen_app {A} (l k : list A) : zlen (l ++ k) = zlen l + zlen k.
Proof. unfold zlen. rewrite length_app. lia. Qed.

Lemma zlen_cons {A} (x : A) l : zlen (x :: l) = 1 + zlen l.
Proof. unfold zlen. simpl. lia. Qed.

Lemma zlen_nil {A} : zlen (@nil A) = 0.
Proof. reflexivity. Qed.

Lemma zlen_ztake {A} n (l : list A) : zlen (ztake n l) = Z.min (Z.max 0 n) (zlen l).
Proof. unfold zlen, ztake. rewrite length_take. lia. Qed.

Lemma zlen_zdrop {A} n (l : list A) : zlen (zdrop n l) = Z.max 0 (zlen l - Z.max 0 n).
Proof. unfold zlen, zdrop. rewrite length_drop. lia. Qed.

(** The lengths of composed lists, for [zlen_lia]. *)
Create Rewrite HintDb zlen.
#[export] Hint Rewrite @zlen_app @zlen_cons @zlen_nil @zlen_ztake @zlen_zdrop : zlen.
Ltac zlen_lia := autorewrite with zlen in *; lia.

Lemma zget_Some_range {A} (l : list A) i x : zget l i = Some x -> 0 <= i < zlen l.
Proof.
  unfold zget, zlen. destruct (Z.ltb_spec i 0); [discriminate|].
  intros H1%lookup_lt_Some. lia.
Qed.

Lemma zget_range {A} (l : list A) i : 0 <= i < zlen l -> exists x, zget l i = Some x.
Proof.
  unfold zget, zlen. intros H. destruct (Z.ltb_spec i 0); [lia|].
  destruct (lookup_lt_is_Some_2 l (Z.to_nat i)) as [x Hx]; [lia|eauto].
Qed.

Lemma zget_None {A} (l : list A) i : i < 0 \/ zlen l <= i -> zget l i = None.
Proof.
  unfold zget, zlen. intros H. destruct (Z.ltb_spec i 0); [done|].
  apply lookup_ge_None. lia.
Qed.

Lemma zget_rd (l : list Z) i : 0 <= i < zlen l -> zget l i = Some (rd l i).
Proof. intros H. unfold rd. destruct (zget_range l i H) as [x ->]. done. Qed.

Lemma zget_app {A} (l k : list A) i :
  zget (l ++ k) i = if i <? zlen l then zget l i else zget k (i - zlen l).
Proof.
  unfold zget, zlen. destruct (Z.ltb_spec i 0).
  - rewrite (proj2 (Z.ltb_lt (i) _)) by lia. done.
  - destruct (Z.ltb_spec i (Z.of_nat (length l))).
    + apply lookup_app_l. lia.
    + rewrite (proj2 (Z.ltb_ge (i - _) 0)) by lia.
      rewrite lookup_app_r by lia. f_equal. lia.
Qed.

Lemma zget_ztake {A} n (l : list A) i :
  zget (ztake n l) i = if i <? n then zget l i else None.
Proof.
  unfold zget, ztake. destruct (Z.ltb_spec i 0).
  - by destruct (i <? n).
  - destruct (Z.ltb_spec i n).
    + apply lookup_take_lt. lia.
    + apply lookup_take_ge. lia.
Qed.

Lemma zget_zdrop {A} n (l : list A) i :
  0 <= n -> zget (zdrop n l) i = if i <? 0 then None else zget l (n + i).
Proof.
  intros Hn. unfold zget, zdrop. destruct (Z.ltb_spec i 0); [done|].
  rewrite (proj2 (Z.ltb_ge _ 0)) by lia.
  rewrite lookup_drop. f_equal. lia.
Qed.

Lemma zget_ext {A} (l k : list A) :
  zlen l = zlen k -> (forall i, 0 <= i < zlen l -> zget l i = zget k i) -> l = k.
Proof.
  intros Hl Hi. apply list_eq. intros n.
  destruct (decide (n < length l)%nat) as [Hn|Hn].
  - specialize (Hi (Z.of_nat n)). unfold zget, zlen in *.
    rewrite (proj2 (Z.ltb_ge _ 0)) in Hi by lia.
    rewrite Nat2Z.id in Hi. apply Hi. lia.
  - unfold zlen in Hl. rewrite !lookup_ge_None_2 by lia. done.
Qed.

Lemma zlen_splice {A} (l : list A) pos bs :
  0 <= pos -> pos + zlen bs <= zlen l -> zlen (splice l pos bs) = zlen l.
Proof.
  intros. unfold splice. pose proof (zlen_nonneg bs).
  rewrite !zlen_app, zlen_ztake, zlen_zdrop. lia.
Qed.

Lemma zget_splice {A} (l : list A) pos bs i :
  0 <= pos -> pos + zlen bs <= zlen l ->
  zget (splice l pos bs) i =
    if (pos <=? i) && (i <? pos + zlen bs) then zget bs (i - pos) else zget l i.
Proof.
  intros Hp Hl. unfold splice. pose proof (zlen_nonneg bs).
  rewrite zget_app, zlen_ztake, zget_ztake, zget_app, zget_zdrop by lia.
  replace (Z.min (Z.max 0 pos) (zlen l)) with pos by lia.
  destruct (Z.ltb_spec i pos), (Z.leb_spec pos i); try lia; simpl; [done|].
  destruct (Z.ltb_spec (i - pos) (zlen bs)), (Z.ltb_spec i (pos + zlen bs)); try lia; [done|].
  destruct (Z.ltb_spec (i - pos - zlen bs) 0); [lia|]. f_equal. lia.
Qed.

Lemma rd_splice (l : list Z) pos bs i :
  0 <= pos -> pos + zlen bs <= zlen l ->
  rd (splice l pos bs) i =
    if (pos <=? i) && (i <? pos + zlen bs) then rd bs (i - pos) else rd l i.
Proof.
  intros. unfold rd. rewrite zget_splice by done. by destruct (_ && _).
Qed.

Lemma zslice_Some {A} (l : list A) lo hi :
  0 <= lo <= hi -> hi <= zlen l -> zslice l lo hi = Some (ztake (hi - lo) (zdrop lo l)).
Proof.
  intros H1 H2. unfold zslice.
  rewrite !(proj2 (Z.leb_le _ _)) by lia. done.
Qed.

Lemma zput_Some {A} (l : list A) pos bs :
  0 <= pos -> pos + zlen bs <= zlen l -> zput l pos bs = Some (splice l pos bs).
Proof.
  intros H1 H2. unfold zput. rewrite !(proj2 (Z.leb_le _ _)) by lia. done.
Qed.

Lemma bytes_ok_app l k : bytes_ok (l ++ k) <-> bytes_ok l /\ bytes_ok k.
Proof. apply Forall_app. Qed.

Lemma bytes_ok_ztake n l : bytes_ok l -> bytes_ok (ztake n l).
Proof. apply Forall_take. Qed.

Lemma bytes_ok_zdrop n l : bytes_ok l -> bytes_ok (zdrop n l).
Proof. apply Forall_drop. Qed.

Lemma bytes_ok_splice l pos bs : bytes_ok l -> bytes_ok bs -> bytes_ok (splice l pos bs).
Proof.
  intros. unfold splice. rewrite !bytes_ok_app.
  auto using bytes_ok_ztake, bytes_ok_zdrop.
Qed.

Lemma zget_byte_ok l i b : bytes_ok l -> zget l i = Some b -> byte_ok b.
Proof.
  unfold zget. destruct (i <? 0); [discriminate|].
  intros Hl Hi. by eapply Forall_lookup_1 in Hl.
Qed.

Lemma rd_byte_ok l i : bytes_ok l -> byte_ok (rd l i).
Proof.
  intros Hl. unfold rd. destruct (zget l i) eqn:E; simpl.
  - by eapply zget_byte_ok.
  - unfold byte_ok. lia.
Qed.

(** ** Big-endian integers *)
Fixpoint be_decode (bs : list Z) : Z :=
  match bs with
  | [] => 0
  | b :: bs => b * 256 ^ zlen bs + be_decode bs
  end.

Fixpoint be_encode (n : nat) (v : Z) : list Z :=
  match n with
  | O => []
  | S n => (v / 256 ^ Z.of_nat n) mod 256 :: be_encode n v
  end.

Lemma length_be_encode n v : length (be_encode n v) = n.
Proof. induction n; simpl; auto. Qed.

Lemma zlen_be_encode n v : zlen (be_encode n v) = Z.of_nat n.
Proof. unfold zlen. by rewrite length_be_encode. Qed.

Lemma be_encode_ok n v : bytes_ok (be_encode n v).
Proof.
  induction n; simpl; constructor; [|done]. apply Z.mod_pos_bound. lia.
Qed.

Lemma pow256_pos (n : Z) : 0 <= n -> 0 < 256 ^ n.
Proof. intros. apply Z.pow_pos_nonneg; lia. Qed.

Lemma be_decode_bound bs : bytes_ok bs -> 0 <= be_decode bs < 256 ^ zlen bs.
Proof.
  induction 1 as [|b bs Hb _ IH]; simpl.
  - unfold zlen. simpl. lia.
  - rewrite zlen_cons, Z.add_comm, Z.pow_add_r by (pose proof (zlen_nonneg bs); lia).
    pose proof (pow256_pos (zlen bs) (zlen_nonneg bs)). unfold byte_ok in Hb.
    change (256 ^ 1) with 256. nia.
Qed.

Lemma be_decode_encode_mod n v : be_decode (be_encode n v) = v mod 256 ^ Z.of_nat n.
Proof.
  induction n as [|n IH]; simpl be_encode; simpl be_decode.
  - simpl. by rewrite Z.mod_1_r.
  - rewrite IH, zlen_be_encode, Nat2Z.inj_succ, Z.pow_succ_r by lia.
    rewrite (Z.mul_comm 256), Z.rem_mul_r by (pose proof (pow256_pos (Z.of_nat n)); lia).
    lia.
Qed.

Lemma be_decode_encode n v : 0 <= v < 256 ^ Z.of_nat n -> be_decode (be_encode n v) = v.
Proof. intros H. rewrite be_decode_encode_mod. by apply Z.mod_small. Qed.

Lemma be_encode_mod n v k :
  0 <= k -> be_encode n (v + k * 256 ^ Z.of_nat n) = be_encode n v.
Proof.
  revert k. induction n as [|n IH]; intros k Hk; simpl; [done|].
  rewrite Nat2Z.inj_succ, Z.pow_succ_r by lia.
  replace (v + k * (256 * 256 ^ Z.of_nat n)) with (v + (k * 256) * 256 ^ Z.of_nat n) by lia.
  rewrite IH by lia. f_equal.
  rewrite Z.div_add by (pose proof (pow256_pos (Z.of_nat n)); lia).
  by rewrite Z.mod_add by lia.
Qed.

Lemma be_encode_decode bs : bytes_ok bs -> be_encode (length bs) (be_decode bs) = bs.
Proof.
  induction 1 as [|b bs Hb Hbs IH]; simpl; [done|].
  pose proof (be_decode_bound bs Hbs) as HB. unfold zlen in *. unfold byte_ok in Hb.
  f_equal.
  - rewrite Z.div_add_l by lia. rewrite (Z.div_small (be_decode bs)) by lia.
    rewrite Z.add_0_r. apply Z.mod_small. lia.
  - rewrite Z.add_comm, be_encode_mod by lia. done.
Qed.

(** ** Consecutive writes *)
Lemma splice_nil {A} (l : list A) pos : splice l pos [] = l.
Proof.
  unfold splice, ztake, zdrop. simpl. rewrite zlen_nil, Z.add_0_r. apply take_drop.
Qed.

(** A write followed by a write right after it is one write ... *)
Lemma splice_after {A} (l : list A) pos a b :
  0 <= pos -> pos + zlen a + zlen b <= zlen l ->
  splice (splice l pos a) (pos + zlen a) b = splice l pos (a ++ b).
Proof.
  intros H1 H2. pose proof (zlen_nonneg a). pose proof (zlen_nonneg b).
  assert (zlen (splice l pos a) = zlen l) by (apply zlen_splice; lia).
  assert (zlen (a ++ b) = zlen a + zlen b) by apply zlen_app.
  apply zget_ext; [rewrite !zlen_splice; lia|]. intros i Hi.
  rewrite !zget_splice by lia. rewrite zget_app.
  repeat (case_match; try lia); try done; f_equal; lia.
Qed.

(** ... and so is a write followed by a write right before it. *)
Lemma splice_before {A} (l : list A) pos a b :
  0 <= pos -> pos + zlen a + zlen b <= zlen l ->
  splice (splice l (pos + zlen a) b) pos a = splice l pos (a ++ b).
Proof.
  intros H1 H2. pose proof (zlen_nonneg a). pose proof (zlen_nonneg b).
  assert (zlen (splice l (pos + zlen a) b) = zlen l) by (apply zlen_splice; lia).
  assert (zlen (a ++ b) = zlen a + zlen b) by apply zlen_app.
  apply zget_ext; [rewrite !zlen_splice; lia|]. intros i Hi.
  rewrite !zget_splice by lia. rewrite zget_app.
  repeat (case_match; try lia); try done; f_equal; lia.
Qed.

(** A write over an earlier write of the same length replaces it. *)
Lemma splice_over {A} (l : list A) pos a b :
  0 <= pos -> pos + zlen a <= zlen l -> zlen a = zlen b ->
  splice (splice l pos a) pos b = splice l pos b.
Proof.
  intros H1 H2 H3. pose proof (zlen_nonneg a).
  assert (zlen (splice l pos a) = zlen l) by (apply zlen_splice; lia).
  apply zget_ext; [rewrite !zlen_splice; lia|]. intros i Hi.
  rewrite !zget_splice by lia. repeat (case_match; try lia); done.
Qed.

Lemma ztake_splice_0 {A} (l bs : list A) :
  zlen bs <= zlen l -> ztake (zlen bs) (splice l 0 bs) = bs.
Proof.
  intros H. unfold splice, ztake. change (take (Z.to_nat 0) l) with (@nil A).
  rewrite app_nil_l, take_app_le by (unfold zlen; lia).
  unfold zlen. by rewrite Nat2Z.id, firstn_all.
Qed.

(** ** Big-endian fields at an offset of a buffer *)
Definition be_at (n : nat) (l : list Z) (pos : Z) : Z :=
  be_decode (ztake (Z.of_nat n) (zdrop pos l)).

Lemma zdrop_0 {A} (l : list A) : zdrop 0 l = l.
Proof. reflexivity. Qed.

Lemma zdrop_app_ge {A} (a b : list A) p :
  zlen a <= p -> zdrop p (a ++ b) = zdrop (p - zlen a) b.
Proof.
  intros Hp. unfold zdrop, zlen in *. rewrite drop_app_ge by lia.
  f_equal. lia.
Qed.

Lemma ztake_app_eq {A} (a b : list A) p : p = zlen a -> ztake p (a ++ b) = a.
Proof. intros ->. unfold ztake, zlen. rewrite Nat2Z.id. apply take_app_length. Qed.

Lemma be_at_skip n (a b : list Z) p :
  zlen a <= p -> be_at n (a ++ b) p = be_at n b (p - zlen a).
Proof. intros Hp. unfold be_at. by rewrite zdrop_app_ge. Qed.

Lemma be_at_here n v (b : list Z) p :
  p = 0 -> 0 <= v < 256 ^ Z.of_nat n -> be_at n (be_encode n v ++ b) p = v.
Proof.
  intros -> Hv. unfold be_at. rewrite zdrop_0, ztake_app_eq by (by rewrite zlen_be_encode).
  by apply be_decode_encode.
Qed.

Lemma rd_skip (a b : list Z) p : zlen a <= p -> rd (a ++ b) p = rd b (p - zlen a).
Proof.
  intros Hp. unfold rd. rewrite zget_app.
  by rewrite (proj2 (Z.ltb_ge p (zlen a))) by lia.
Qed.

Lemma zdrop_zdrop {B} (l : list B) m n : 0 <= m -> 0 <= n -> zdrop n (zdrop m l) = zdrop (m + n) l.
Proof. intros. unfold zdrop. rewrite drop_drop. f_equal. lia. Qed.

Lemma ztake_all {B} (l : list B) m : zlen l <= m -> ztake m l = l.
Proof. intros. unfold ztake, zlen in *. apply take_ge. lia. Qed.

Lemma ztake_zdrop {A} (l : list A) m : ztake m l ++ zdrop m l = l.
Proof. unfold ztake, zdrop. apply take_drop. Qed.


Lemma ztake_app_le {A} (a b : list A) p : p <= zlen a -> ztake p (a ++ b) = ztake p a.
Proof. intros. unfold ztake, zlen in *. apply take_app_le. lia. Qed.

(** A slice that starts after [a] and takes [b]. *)
Lemma zslice_mid {A} (a b c : list A) lo hi :
  lo = zlen a -> hi = lo + zlen b -> zslice (a ++ b ++ c) lo hi = Some b.
Proof.
  intros -> ->. pose proof (zlen_nonneg a). pose proof (zlen_nonneg b). pose proof (zlen_nonneg c).
  rewrite zslice_Some by (rewrite ?zlen_app; lia). f_equal.
  rewrite zdrop_app_ge by lia. rewrite Z.sub_diag, zdrop_0. apply ztake_app_eq. lia.
Qed.

Lemma ztake_min_len {B} (l : list B) m : 0 <= m -> ztake (Z.min m (zlen l)) l = ztake m l.
Proof.
  intros Hm. unfold ztake, zlen. destruct (Z.min_spec m (Z.of_nat (length l))) as [[_ ->]|[Hle ->]]; [done|].
  rewrite Nat2Z.id, !take_ge by lia. done.
Qed.

Lemma ztake_app_add {A} (a b : list A) m : 0 <= m -> ztake (zlen a + m) (a ++ b) = a ++ ztake m b.
Proof.
  intros Hm. unfold ztake, zlen. rewrite Z2Nat.inj_add, Nat2Z.id by lia. apply take_app_add.
Qed.

(** ** Counting *)
Definition tally {A} (f : A -> bool) (ts : list A) : Z :=
  foldr (fun p n => (if f p then 1 else 0) + n) 0 ts.

Lemma tally_insert {A} (f : A -> bool) (ts : list A) i p p' :
  ts !! i = Some p ->
  tally f (<[i := p']> ts) = tally f ts - (if f p then 1 else 0) + (if f p' then 1 else 0).
Proof.
  revert i. induction ts as [|q ts IH]; intros [|i] Hi; simpl in *; try done.
  - injection Hi as ->. lia.
  - rewrite (IH i Hi). lia.
Qed.

Lemma tally_range {A} (f : A -> bool) (ts : list A) : 0 <= tally f ts <= zlen ts.
Proof.
  induction ts as [|p ts IH]; [done|]. rewrite zlen_cons. simpl. destruct (f p); lia.
Qed.

Lemma tally_pos {A} (f : A -> bool) (ts : list A) i p : ts !! i = Some p -> f p = true -> 1 <= tally f ts.
Proof.
  revert i. induction ts as [|q ts IH]; intros [|i] Hi Hf; simpl in *; try done.
  - injection Hi as ->. rewrite Hf. pose proof (tally_range f ts). lia.
  - specialize (IH i Hi Hf). destruct (f q); lia.
Qed.

Lemma tally_lt {A} (f : A -> bool) (ts : list A) i p : ts !! i = Some p -> f p = false -> tally f ts < zlen ts.
Proof.
  revert i. induction ts as [|q ts IH]; intros [|i] Hi Hf; simpl in *; try done; rewrite zlen_cons.
  - injection Hi as ->. rewrite Hf. pose proof (tally_range f ts). lia.
  - specialize (IH i Hi Hf). destruct (f q); lia.
Qed.

Lemma tally_two {A} (f : A -> bool) (ts : list A) i j p q :
  i <> j -> ts !! i = Some p -> ts !! j = Some q -> f p = true -> f q = true -> 2 <= tally f ts.
Proof.
  revert i j. induction ts as [|x ts IH]; intros [|i] [|j] Hij Hi Hj Hp Hq; simpl in *; try done.
  - injection Hi as ->. rewrite Hp. pose proof (tally_pos f ts j q Hj Hq). lia.
  - injection Hj as ->. rewrite Hq. pose proof (tally_pos f ts i p Hi Hp). lia.
  - specialize (IH i j ltac:(lia) Hi Hj Hp Hq). destruct (f x); lia.
Qed.
