(* ===== verification/Errors.v ===== *)
(** * Error values of the engine ([src/core/error.rs])

    [LimboError] with the source's constructors.  Message strings and nested
    error payloads are erased: no control flow of the modelled code depends on
    them. *)
From S2P Require Import Prelude.

Inductive LimboError : Type :=
| Corrupt | NotADB | InternalError | IoBackendUnavailable | SqlError
| CacheErr | DatabaseFull | SequenceExhausted | ParseError | LexerError
| ConversionError | EnvVarError | TxError | CompletionErr | LockingError
| ParseIntError | ParseFloatError | InvalidDate | InvalidTime | InvalidModifier
| InvalidArgument | InvalidFormatter | Constraint | ForeignKeyConstraint | Raise
| RaiseIgnore | ExtensionError | IntegerOverflow | TooBig | TableLocked
| ReadOnly | Busy | StatementsInProgress | Interrupt | BusySnapshot
| Conflict | SchemaUpdated | SchemaConflict | Page1NotAlloc | TxTerminated
| WriteWriteConflict | CommitDependencyAborted | NoSuchTransactionID | NullValue
| InvalidColumnType | InvalidBlobSize | BlobHandleExpired | PlanningError
| CheckpointFailed | UnsupportedEncoding | OutOfMemory.

#[export] Instance LimboError_eq_dec : EqDecision LimboError.
Proof. solve_decision. Defined.

(** [LimboError::sqlite_result_code] *)
Definition sqlite_result_code (e : LimboError) : Z :=
  match e with
  | Constraint | ForeignKeyConstraint | Raise => 19
  | Busy | BusySnapshot | StatementsInProgress => 5
  | TableLocked => 6
  | ReadOnly => 8
  | Interrupt => 9
  | Corrupt => 11
  | DatabaseFull | SequenceExhausted => 13
  | SchemaUpdated | SchemaConflict => 17
  | TooBig => 18
  | NotADB => 26
  | BlobHandleExpired => 4
  | _ => 1
  end.

(** The [Result] of the engine crate. *)
Abbreviation result := (res LimboError).
