(* ===== verification/Effects.v ===== *)
(** * Code that may wait or fail

    [IOResultOr<T>] and [TransitionResult<T>] of the source: a call returns a value, waits for
    an I/O completion and is repeated later, or fails; a failed assertion ends the thread.  [SM S]
    is such code over the state [S], which it keeps in each case, and [wpg] its weakest
    precondition. *)
From stdpp Require Import base.
From S2P Require Import Prelude Errors.

Inductive poll (T : Type) :=
| Ready (x : T)
| Waits
| Fails (e : LimboError)
| Crashes.
Arguments Ready {T}.
Arguments Waits {T}.
Arguments Fails {T}.
Arguments Crashes {T}.

Definition SM (S T : Type) : Type := S -> poll T * S.

#[export] Instance sm_ret {S} : MRet (SM S) := fun _ x w => (Ready x, w).
#[export] Instance sm_bind {S} : MBind (SM S) := fun _ _ k m w =>
  match m w with
  | (Ready x, w) => k x w
  | (Waits, w) => (Waits, w)
  | (Fails e, w) => (Fails e, w)
  | (Crashes, w) => (Crashes, w)
  end.

Definition waits {S T} : SM S T := fun w => (Waits, w).
Definition fails {S T} (e : LimboError) : SM S T := fun w => (Fails e, w).
Definition crashes {S T} : SM S T := fun w => (Crashes, w).
Definition gets {S T} (f : S -> T) : SM S T := fun w => (Ready (f w), w).
Definition modifies {S} (f : S -> S) : SM S () := fun w => (Ready (), f w).
Definition turso_assert {S} (b : bool) : SM S () := if b then mret () else crashes.
Definition unwrap {S T} (o : option T) : SM S T := match o with Some x => mret x | None => crashes end.

(** ** Rules *)
Definition wpg {S T} (m : SM S T) (Q : T -> S -> Prop) (W : S -> Prop) (E : LimboError -> Prop) (w : S) : Prop :=
  match m w with
  | (Ready x, w') => Q x w'
  | (Waits, w') => W w'
  | (Fails e, _) => E e
  | (Crashes, _) => False
  end.

Section Rules.
Context {S T U : Type} (W : S -> Prop) (E : LimboError -> Prop).

Lemma wpg_bind (m : SM S T) (k : T -> SM S U) Q w :
  wpg m (fun x w => wpg (k x) Q W E w) W E w -> wpg (m ≫= k) Q W E w.
Proof. unfold wpg, mbind, sm_bind. destruct (m w) as [[x| |e|] w']; auto. Qed.

Lemma wpg_ret (x : T) (Q : T -> S -> Prop) w : Q x w -> wpg (mret x) Q W E w.
Proof. done. Qed.

Lemma wpg_gets (f : S -> T) (Q : T -> S -> Prop) w : Q (f w) w -> wpg (gets f) Q W E w.
Proof. done. Qed.

Lemma wpg_modifies (f : S -> S) (Q : () -> S -> Prop) w : Q () (f w) -> wpg (modifies f) Q W E w.
Proof. done. Qed.

Lemma wpg_waits (Q : T -> S -> Prop) (w : S) : W w -> wpg waits Q W E w.
Proof. done. Qed.

Lemma wpg_fails (Q : T -> S -> Prop) (e : LimboError) w : E e -> wpg (fails e) Q W E w.
Proof. done. Qed.

Lemma wpg_mono (m : SM S T) (Q Q' : T -> S -> Prop) w :
  wpg m Q' W E w -> (forall x w', Q' x w' -> Q x w') -> wpg m Q W E w.
Proof. unfold wpg. destruct (m w) as [[x| |e|] w']; auto. Qed.

Lemma wpg_and (m : SM S T) (Q Q' : T -> S -> Prop) w :
  wpg m Q W E w -> wpg m Q' W E w -> wpg m (fun x w' => Q x w' /\ Q' x w') W E w.
Proof. unfold wpg. destruct (m w) as [[x| |e|] w']; auto. Qed.

(** The outcome besides its postcondition. *)
Lemma wpg_eq (m : SM S T) (Q : T -> S -> Prop) w :
  wpg m Q W E w -> wpg m (fun x w' => Q x w' /\ m w = (Ready x, w')) W E w.
Proof. unfold wpg. by destruct (m w) as [[x| |e|] w']. Qed.

Lemma wpg_assert b (Q : () -> S -> Prop) w : b = true -> Q () w -> wpg (turso_assert b) Q W E w.
Proof. intros -> HQ. exact HQ. Qed.
End Rules.

(** The code returns. *)
Abbreviation does m Q := (wpg m Q (fun _ => False) (fun _ => False)).

(** ** Postconditions of every outcome *)
Definition wpp {S T} (m : SM S T) (Q : poll T -> S -> Prop) (w : S) : Prop :=
  match m w with
  | (Crashes, _) => False
  | (r, w') => Q r w'
  end.

Section Outcomes.
Context {S T U : Type}.

Definition passes_on (k : T -> SM S U) (Q : poll U -> S -> Prop) (r : poll T) (w : S) : Prop :=
  match r with
  | Ready x => wpp (k x) Q w
  | Waits => Q Waits w
  | Fails e => Q (Fails e) w
  | Crashes => False
  end.

Lemma wpp_bind (m : SM S T) (k : T -> SM S U) Q w : wpp m (passes_on k Q) w -> wpp (m ≫= k) Q w.
Proof. unfold wpp, mbind, sm_bind. destruct (m w) as [[x| |e|] w']; auto. Qed.

Lemma wpp_does (m : SM S T) (Q : poll T -> S -> Prop) w : does m (fun x => Q (Ready x)) w -> wpp m Q w.
Proof. unfold wpg, wpp. by destruct (m w) as [[x| |e|] w']. Qed.

Lemma wpp_mono (m : SM S T) (Q Q' : poll T -> S -> Prop) w : wpp m Q' w -> (forall r w', Q' r w' -> Q r w') -> wpp m Q w.
Proof. unfold wpp. destruct (m w) as [[x| |e|] w']; auto. Qed.
End Outcomes.
