(* ===== verification/Varint.v ===== *)
(** * Variable-length integers ([src/core/storage/sqlite3_ondisk.rs])

    [read_varint], [split_varint], [read_varint_len], [read_varint_partial],
    [varint_len], [write_varint] and [write_varint_to_vec].  The fast paths of
    the source (one, two and three bytes) are kept as written; the theorems
    show that they agree with the general loop, that every [u64] is read back
    from what was written for it, and that the reader accepts no second
    encoding in nine bytes. *)
From S2P Require Import Prelude Errors.

(** ** Reading *)

(** The loop [for i in 0..8] shared by [read_varint] and [read_varint_partial]:
    [inl] is the early return out of the loop ([None] for the missing byte),
    [inr v] the accumulator after the eighth byte. *)
Fixpoint varint_loop (n : nat) (i v : Z) (buf : list Z) : option (Z * Z) + Z :=
  match n with
  | O => inr v
  | S n =>
      match zget buf i with
      | Some c =>
          let v := wrap 64 (shl 64 v 7 + Z.land c 127) in
          if Z.land c 128 =? 0 then inl (Some (v, i + 1))
          else varint_loop n (i + 1) v buf
      | None => inl None
      end
  end.

(** The general path of [read_varint] (after the three fast-path patterns). *)
Definition read_varint_slow (buf : list Z) : result (Z * Z) :=
  match varint_loop 8 0 0 buf with
  | inl (Some r) => Ok r
  | inl None => Err Corrupt
  | inr v =>
      match zget buf 8 with
      | Some c =>
          if shr v 48 =? 0 then Err Corrupt
          else Ok (wrap 64 (shl 64 v 8 + c), 9)
      | None => Err Corrupt
      end
  end.

Definition two_byte_value (b0 b1 : Z) : Z :=
  Z.lor (shl 64 (Z.land b0 127) 7) b1.

Definition three_byte_value (b0 b1 b2 : Z) : Z :=
  Z.lor (Z.lor (shl 64 (Z.land b0 127) 14) (shl 64 (Z.land b1 127) 7)) b2.

Definition read_varint (buf : list Z) : result (Z * Z) :=
  match buf with
  | b0 :: _ =>
      if b0 <? 128 then Ok (b0, 1)
      else
        match buf with
        | b0 :: b1 :: rest =>
            if b1 <? 128 then Ok (two_byte_value b0 b1, 2)
            else
              match rest with
              | b2 :: _ =>
                  if b2 <? 128 then Ok (three_byte_value b0 b1 b2, 3)
                  else read_varint_slow buf
              | [] => read_varint_slow buf
              end
        | _ => read_varint_slow buf
        end
  | [] => read_varint_slow buf
  end.

Definition split_varint (buf : list Z) : result (Z * list Z) :=
  let slow :=
    p ← read_varint buf;
    rest ← or_panic (zslice buf (p.2) (zlen buf));
    Ok (p.1, rest) in
  match buf with
  | b0 :: rest =>
      if b0 <? 128 then Ok (b0, rest)
      else
        match rest with
        | b1 :: rest =>
            if b1 <? 128 then Ok (two_byte_value b0 b1, rest) else slow
        | [] => slow
        end
  | [] => slow
  end.

Definition read_varint_len_long (buf : list Z) : result Z :=
  snd <$> read_varint buf.

Definition read_varint_len (buf : list Z) : result Z :=
  match buf with
  | b0 :: rest =>
      if b0 <? 128 then Ok 1
      else
        match rest with
        | b1 :: rest =>
            if b1 <? 128 then Ok 2
            else
              match rest with
              | b2 :: _ => if b2 <? 128 then Ok 3 else read_varint_len_long buf
              | [] => read_varint_len_long buf
              end
        | [] => read_varint_len_long buf
        end
  | [] => read_varint_len_long buf
  end.

Definition read_varint_partial (buf : list Z) : result (option (Z * Z)) :=
  match varint_loop 8 0 0 buf with
  | inl (Some r) => Ok (Some r)
  | inl None => Ok None
  | inr v =>
      match zget buf 8 with
      | None => Ok None
      | Some c =>
          if shr v 48 =? 0 then Err Corrupt
          else Ok (Some (wrap 64 (shl 64 v 8 + c), 9))
      end
  end.

(** ** Writing *)

(** [u64::leading_zeros] *)
Definition leading_zeros64 (x : Z) : Z := if x =? 0 then 64 else 63 - Z.log2 x.

Definition div_ceil (a b : Z) : Z := (a + b - 1) / b.

Definition varint_len (value : Z) : Z :=
  if value <=? 127 then 1
  else if shl 64 1 56 - 1 <? value then 9
  else div_ceil (64 - leading_zeros64 value) 7.

(** [buf[i] = b] *)
Definition set_byte (buf : list Z) (i b : Z) : result (list Z) :=
  or_panic (zput buf i [b]).

(** [for i in (0..n).rev() { buf[i] = (value & 0x7f) | 0x80; value >>= 7 }] *)
Fixpoint write_nine_loop (n : nat) (value : Z) (buf : list Z) : result (list Z) :=
  match n with
  | O => Ok buf
  | S n =>
      buf ← set_byte buf (Z.of_nat n) (Z.lor (Z.land value 127) 128);
      write_nine_loop n (shr value 7) buf
  end.

(** [while bytes != 0 { encoded[n] = 0x80 | (bytes & 0x7f); bytes >>= 7; n += 1 }].
    A [u64] has at most ten groups of seven bits, so ten rounds are enough
    ([encode_groups_spec]). *)
Fixpoint encode_groups (fuel : nat) (bytes n : Z) (encoded : list Z)
  : result (list Z * Z) :=
  match fuel with
  | O => Panic
  | S fuel =>
      if bytes =? 0 then Ok (encoded, n)
      else
        encoded ← set_byte encoded n (Z.lor 128 (Z.land bytes 127));
        encode_groups fuel (shr bytes 7) (n + 1) encoded
  end.

(** [for i in 0..n { buf[i] = encoded[n - 1 - i] }] *)
Fixpoint copy_reversed (k : nat) (i n : Z) (encoded buf : list Z) : result (list Z) :=
  match k with
  | O => Ok buf
  | S k =>
      e ← or_panic (zget encoded (n - 1 - i));
      buf ← set_byte buf i e;
      copy_reversed k (i + 1) n encoded buf
  end.

Definition write_varint (buf : list Z) (value : Z) : result (list Z * Z) :=
  if value <=? 127 then
    buf ← set_byte buf 0 (Z.land value 127);
    Ok (buf, 1)
  else if value <=? 16383 then
    buf ← set_byte buf 0 (Z.lor (Z.land (shr value 7) 127) 128);
    buf ← set_byte buf 1 (Z.land value 127);
    Ok (buf, 2)
  else if 0 <? Z.land value (shl 64 4278190080 32) then
    buf ← set_byte buf 8 (wrap 8 value);
    buf ← write_nine_loop 8 (shr value 8) buf;
    Ok (buf, 9)
  else
    p ← encode_groups 11 value 0 (replicate 9 0);
    e0 ← or_panic (zget (p.1) 0);
    encoded ← set_byte (p.1) 0 (Z.land e0 127);
    buf ← copy_reversed (Z.to_nat (p.2)) 0 (p.2) encoded buf;
    Ok (buf, p.2).

Definition write_varint_to_vec (value : Z) (payload : list Z) : result (list Z) :=
  p ← write_varint (replicate 9 0) value;
  bs ← or_panic (zslice (p.1) 0 (p.2));
  Ok (payload ++ bs).

(** ** The encoding the code is meant to produce

    [cont n v] is the big-endian list of the [n] low groups of seven bits of
    [v], each with the continuation bit; [varint_bytes v] is the minimal
    encoding: at most eight groups of seven bits, or eight groups and a full
    byte from [2^56] on. *)
Fixpoint cont (n : nat) (v : Z) : list Z :=
  match n with
  | O => []
  | S n => 128 + (v / 128 ^ Z.of_nat n) mod 128 :: cont n v
  end.

Definition ngroups (v : Z) : Z := Z.log2 v / 7 + 1.

Definition varint_bytes (v : Z) : list Z :=
  if v <? 2 ^ 56
  then cont (Z.to_nat (ngroups v - 1)) (v / 128) ++ [v mod 128]
  else cont 8 (v / 256) ++ [v mod 256].

Lemma length_cont n v : length (cont n v) = n.
Proof. induction n; simpl; auto. Qed.

Lemma zlen_cont n v : zlen (cont n v) = Z.of_nat n.
Proof. unfold zlen. by rewrite length_cont. Qed.

Lemma cont_ok n v : bytes_ok (cont n v).
Proof.
  induction n; simpl; constructor; [|done].
  unfold byte_ok. pose proof (Z.mod_pos_bound (v / 128 ^ Z.of_nat n) 128). lia.
Qed.

Lemma varint_bytes_ok v : bytes_ok (varint_bytes v).
Proof.
  unfold varint_bytes. destruct (v <? 2 ^ 56); apply bytes_ok_app;
    (split; [apply cont_ok|apply Forall_singleton; unfold byte_ok]);
    [pose proof (Z.mod_pos_bound v 128)|pose proof (Z.mod_pos_bound v 256)]; lia.
Qed.

Lemma lor_128 x : Z.lor 128 (Z.land x 127) = 128 + x mod 128.
Proof.
  rewrite land_7f. pose proof (Z.mod_pos_bound x 128).
  exact (lor_disjoint_add 1 (x mod 128) 7 ltac:(lia) ltac:(lia)).
Qed.

Lemma lor_128' x : Z.lor (Z.land x 127) 128 = 128 + x mod 128.
Proof. rewrite Z.lor_comm. apply lor_128. Qed.

(** The continuation bit of a byte. *)
Lemma land_80 b : byte_ok b -> (Z.land b 128 =? 0) = (b <? 128).
Proof.
  intros Hb. unfold byte_ok in Hb.
  assert (Z.land b 128 = if b <? 128 then 0 else 128) as ->.
  { destruct (Z.ltb_spec b 128) as [H|H].
    - apply Z.bits_inj'. intros i Hi. rewrite Z.land_spec, Z.bits_0.
      change 128 with (2 ^ 7). rewrite Z.pow2_bits_eqb by lia.
      destruct (Z.eqb_spec 7 i) as [<-|]; [|apply andb_false_r].
      rewrite (testbit_high b 7 7) by lia. done.
    - replace b with (1 * 2 ^ 7 + (b - 128)) by lia.
      rewrite <- lor_disjoint_add by lia. rewrite Z.land_lor_distr_l.
      replace (Z.land (b - 128) 128) with 0; [reflexivity|].
      symmetry. apply Z.bits_inj'. intros i Hi. rewrite Z.land_spec, Z.bits_0.
      change 128 with (2 ^ 7) at 2. rewrite Z.pow2_bits_eqb by lia.
      destruct (Z.eqb_spec 7 i) as [<-|]; [|apply andb_false_r].
      rewrite (testbit_high (b - 128) 7 7) by lia. done. }
  by destruct (b <? 128).
Qed.

(** One round of the reading loop. *)
Lemma varint_loop_step n i v buf c :
  0 <= v < 2 ^ 57 -> zget buf i = Some c -> byte_ok c ->
  varint_loop (S n) i v buf =
    if c <? 128 then inl (Some (v * 128 + c, i + 1))
    else varint_loop n (i + 1) (v * 128 + (c - 128)) buf.
Proof.
  intros Hv Hc Hb. simpl. rewrite Hc, land_80, land_7f by done.
  unfold byte_ok in Hb.
  rewrite shl_small by (change (2 ^ 7) with 128; lia). change (2 ^ 7) with 128.
  destruct (Z.ltb_spec c 128).
  - rewrite Z.mod_small by lia. rewrite wrap_small by (unfold in_u; lia). done.
  - replace (c mod 128) with (c - 128) by (apply Z.mod_unique with 1; lia).
    rewrite wrap_small by (unfold in_u; lia). done.
Qed.

Lemma pow128_pos n : 0 <= n -> 0 < 128 ^ n.
Proof. intros. apply Z.pow_pos_nonneg; lia. Qed.

(** Reading over continuation groups accumulates their value. *)
Lemma varint_loop_cont m : forall k i v w pre rest,
  i = zlen pre -> 0 <= v -> (v + 1) * 128 ^ Z.of_nat m <= 2 ^ 57 ->
  varint_loop (m + k) i v (pre ++ cont m w ++ rest) =
  varint_loop k (i + Z.of_nat m) (v * 128 ^ Z.of_nat m + w mod 128 ^ Z.of_nat m)
    (pre ++ cont m w ++ rest).
Proof.
  induction m as [|m IH]; intros k i v w pre rest Hi Hv Hb.
  - simpl. rewrite Z.mod_1_r. f_equal; lia.
  - simpl cont. set (c := 128 + (w / 128 ^ Z.of_nat m) mod 128).
    pose proof (Z.mod_pos_bound (w / 128 ^ Z.of_nat m) 128 ltac:(lia)) as Hm.
    pose proof (pow128_pos (Z.of_nat m) ltac:(lia)) as Hp.
    rewrite Nat2Z.inj_succ, Z.pow_succ_r in * by lia.
    change (S m + k)%nat with (S (m + k)).
    rewrite (varint_loop_step _ _ _ _ c).
    + unfold c. destruct (Z.ltb_spec (128 + (w / 128 ^ Z.of_nat m) mod 128) 128); [lia|].
      rewrite <- app_comm_cons.
      replace (pre ++ 128 + (w / 128 ^ Z.of_nat m) mod 128 :: cont m w ++ rest)
        with ((pre ++ [128 + (w / 128 ^ Z.of_nat m) mod 128]) ++ cont m w ++ rest)
        by (rewrite <- app_assoc; done).
      rewrite IH.
      * f_equal; [lia|].
        rewrite (Z.mul_comm 128), Z.rem_mul_r by lia. nia.
      * rewrite zlen_app, zlen_cons, zlen_nil. lia.
      * nia.
      * nia.
    + nia.
    + rewrite zget_app, (proj2 (Z.ltb_ge _ _)) by lia. subst i. rewrite Z.sub_diag. done.
    + unfold byte_ok, c. lia.
Qed.

Lemma varint_loop_cont_0 m k w rest :
  (m <= 8)%nat ->
  varint_loop (m + k) 0 0 (cont m w ++ rest) =
  varint_loop k (Z.of_nat m) (w mod 128 ^ Z.of_nat m) (cont m w ++ rest).
Proof.
  intros Hm. assert (128 ^ Z.of_nat m <= 128 ^ 8) by (apply Z.pow_le_mono_r; lia).
  exact (varint_loop_cont m k 0 0 w [] rest eq_refl ltac:(lia) ltac:(lia)).
Qed.

Lemma ngroups_pos v : 1 <= ngroups v.
Proof.
  unfold ngroups. pose proof (Z.log2_nonneg v).
  pose proof (Z.div_pos (Z.log2 v) 7). lia.
Qed.

Lemma pow128_2 k : 0 <= k -> 128 ^ k = 2 ^ (7 * k).
Proof. intros. change 128 with (2 ^ 7). by rewrite <- Z.pow_mul_r by lia. Qed.

Lemma ngroups_spec v :
  0 < v -> 128 ^ (ngroups v - 1) <= v < 128 ^ ngroups v.
Proof.
  intros Hv. pose proof (ngroups_pos v). pose proof (Z.log2_nonneg v).
  rewrite !pow128_2 by lia. unfold ngroups in *.
  destruct (Z.log2_spec v Hv) as [H1 H2].
  pose proof (Z.div_mod (Z.log2 v) 7 ltac:(lia)).
  pose proof (Z.mod_pos_bound (Z.log2 v) 7 ltac:(lia)). split.
  - apply Z.le_trans with (2 ^ Z.log2 v); [|lia]. apply Z.pow_le_mono_r; lia.
  - apply Z.lt_le_trans with (2 ^ Z.succ (Z.log2 v)); [lia|]. apply Z.pow_le_mono_r; lia.
Qed.

Lemma ngroups_le v n : 0 < n -> 0 <= v < 128 ^ n -> ngroups v <= n.
Proof.
  intros Hn Hv. destruct (decide (v = 0)) as [->|].
  - change (ngroups 0) with 1. lia.
  - destruct (ngroups_spec v ltac:(lia)) as [H _].
    assert (128 ^ (ngroups v - 1) < 128 ^ n) as H' by lia.
    apply Z.pow_lt_mono_r_iff in H'; lia.
Qed.

Lemma zlen_varint_bytes v :
  0 <= v -> zlen (varint_bytes v) = if v <? 2 ^ 56 then ngroups v else 9.
Proof.
  intros Hv. unfold varint_bytes. pose proof (ngroups_pos v).
  destruct (v <? 2 ^ 56); rewrite zlen_app, zlen_cont, zlen_cons, zlen_nil; lia.
Qed.

(** The top seven-bit group of a value of [n] groups is what is left after
    dividing: below [128^n] nothing is lost. *)
Lemma read_slow_short v rest :
  0 <= v < 2 ^ 56 ->
  read_varint_slow (varint_bytes v ++ rest) = Ok (v, ngroups v).
Proof.
  intros Hv. unfold read_varint_slow, varint_bytes.
  rewrite (proj2 (Z.ltb_lt v _)) by lia.
  pose proof (ngroups_pos v). pose proof (ngroups_le v 8 ltac:(lia) ltac:(lia)).
  set (m := Z.to_nat (ngroups v - 1)). rewrite <- app_assoc.
  replace 8%nat with (m + (8 - m))%nat by lia.
  assert (v / 128 < 128 ^ Z.of_nat m) as Hq.
  { destruct (decide (v = 0)) as [->|].
    - change (0 / 128) with 0. apply pow128_pos. lia.
    - apply Z.div_lt_upper_bound; [lia|]. rewrite <- Z.pow_succ_r by lia.
      destruct (ngroups_spec v); [lia|]. replace (Z.succ (Z.of_nat m)) with (ngroups v) by lia. lia. }
  assert (128 ^ Z.of_nat m <= 128 ^ 7) by (apply Z.pow_le_mono_r; lia).
  rewrite varint_loop_cont_0 by lia.
  replace (8 - m)%nat with (S (7 - m)) by lia.
  pose proof (Z.div_pos v 128 ltac:(lia) ltac:(lia)).
  pose proof (Z.mod_pos_bound v 128 ltac:(lia)).
  rewrite Z.mod_small by lia.
  rewrite (varint_loop_step _ _ _ _ (v mod 128)); [|lia| |unfold byte_ok; lia].
  - rewrite (proj2 (Z.ltb_lt _ 128)) by lia. repeat f_equal; [|lia].
    pose proof (Z.div_mod v 128 ltac:(lia)). lia.
  - rewrite zget_app, zlen_cont, (proj2 (Z.ltb_ge _ _)) by lia.
    rewrite Z.sub_diag. done.
Qed.

Lemma read_slow_long v rest :
  2 ^ 56 <= v < 2 ^ 64 ->
  read_varint_slow (varint_bytes v ++ rest) = Ok (v, 9).
Proof.
  intros Hv. unfold read_varint_slow, varint_bytes.
  rewrite (proj2 (Z.ltb_ge v _)) by lia. rewrite <- app_assoc.
  rewrite (varint_loop_cont_0 8 0) by lia. change (128 ^ Z.of_nat 8) with (2 ^ 56).
  assert (2 ^ 48 <= v / 256 < 2 ^ 56) as Hq.
  { split; [apply Z.div_le_lower_bound|apply Z.div_lt_upper_bound]; lia. }
  pose proof (Z.mod_pos_bound v 256 ltac:(lia)).
  cbn [varint_loop]. rewrite (Z.mod_small (v / 256)) by lia.
  rewrite zget_app, zlen_cont. change (8 <? Z.of_nat 8) with false.
  cbn iota. change (8 - Z.of_nat 8) with 0. cbn [app].
  change (zget (v mod 256 :: rest) 0) with (Some (v mod 256)). cbn iota.
  rewrite shr_div by lia.
  destruct (Z.eqb_spec (v / 256 / 2 ^ 48) 0) as [Hz|Hz].
  { apply Z.div_small_iff in Hz; lia. }
  rewrite shl_small by (change (2 ^ 8) with 256; lia). change (2 ^ 8) with 256.
  rewrite wrap_small by (unfold in_u; lia).
  repeat f_equal. pose proof (Z.div_mod v 256 ltac:(lia)). lia.
Qed.

(** ** The fast paths agree with the loop *)
Lemma two_byte_value_eq b0 b1 :
  byte_ok b0 -> 0 <= b1 < 128 -> two_byte_value b0 b1 = (b0 mod 128) * 128 + b1.
Proof.
  intros H0 H1. unfold two_byte_value, byte_ok in *.
  pose proof (Z.mod_pos_bound b0 128 ltac:(lia)).
  rewrite land_7f, shl_small by (change (2 ^ 7) with 128; lia).
  apply (lor_disjoint_add _ _ 7); lia.
Qed.

Lemma three_byte_value_eq b0 b1 b2 :
  byte_ok b0 -> byte_ok b1 -> 0 <= b2 < 128 ->
  three_byte_value b0 b1 b2 = ((b0 mod 128) * 128 + b1 mod 128) * 128 + b2.
Proof.
  intros H0 H1 H2. unfold three_byte_value, byte_ok in *.
  pose proof (Z.mod_pos_bound b0 128 ltac:(lia)).
  pose proof (Z.mod_pos_bound b1 128 ltac:(lia)).
  rewrite !land_7f, !shl_small by (change (2 ^ 7) with 128; change (2 ^ 14) with 16384; lia).
  rewrite (lor_disjoint_add _ (b1 mod 128 * 2 ^ 7) 14) by lia.
  replace (b0 mod 128 * 2 ^ 14 + b1 mod 128 * 2 ^ 7)
    with ((b0 mod 128 * 128 + b1 mod 128) * 2 ^ 7) by lia.
  rewrite (lor_disjoint_add _ b2 7) by lia. lia.
Qed.

Lemma mod128_high c : byte_ok c -> 128 <= c -> c mod 128 = c - 128.
Proof. intros Hc H. unfold byte_ok in Hc. symmetry. apply Z.mod_unique with 1; lia. Qed.

Lemma read_slow_one b0 rest :
  0 <= b0 < 128 -> read_varint_slow (b0 :: rest) = Ok (b0, 1).
Proof.
  intros H. unfold read_varint_slow.
  rewrite (varint_loop_step _ _ _ _ b0) by (done || (unfold byte_ok; lia)).
  rewrite (proj2 (Z.ltb_lt _ _)) by lia. done.
Qed.

Lemma read_slow_two b0 b1 rest :
  byte_ok b0 -> 128 <= b0 -> 0 <= b1 < 128 ->
  read_varint_slow (b0 :: b1 :: rest) = Ok (two_byte_value b0 b1, 2).
Proof.
  intros H0 H0' H1. rewrite two_byte_value_eq, mod128_high by done.
  unfold read_varint_slow. unfold byte_ok in H0.
  rewrite (varint_loop_step _ _ _ _ b0) by (done || (unfold byte_ok; lia)).
  rewrite (proj2 (Z.ltb_ge _ _)) by lia.
  rewrite (varint_loop_step _ _ _ _ b1) by (done || (unfold byte_ok; lia)).
  rewrite (proj2 (Z.ltb_lt _ _)) by lia. done.
Qed.

Lemma read_slow_three b0 b1 b2 rest :
  byte_ok b0 -> 128 <= b0 -> byte_ok b1 -> 128 <= b1 -> 0 <= b2 < 128 ->
  read_varint_slow (b0 :: b1 :: b2 :: rest) = Ok (three_byte_value b0 b1 b2, 3).
Proof.
  intros H0 H0' H1 H1' H2. rewrite three_byte_value_eq, !mod128_high by done.
  unfold read_varint_slow. unfold byte_ok in H0, H1.
  rewrite (varint_loop_step _ _ _ _ b0) by (done || (unfold byte_ok; lia)).
  rewrite (proj2 (Z.ltb_ge _ _)) by lia.
  rewrite (varint_loop_step _ _ _ _ b1) by (done || (unfold byte_ok; lia)).
  rewrite (proj2 (Z.ltb_ge _ _)) by lia.
  rewrite (varint_loop_step _ _ _ _ b2) by (done || (unfold byte_ok; lia)).
  rewrite (proj2 (Z.ltb_lt _ _)) by lia. done.
Qed.

(** The fast paths of [read_varint] compute what its loop computes. *)
Lemma read_varint_is_slow buf : bytes_ok buf -> read_varint buf = read_varint_slow buf.
Proof.
  intros Hb. unfold read_varint.
  destruct buf as [|b0 buf]; [done|]. inversion_clear Hb as [|? ? H0 Hb'].
  destruct (Z.ltb_spec b0 128) as [L0|L0].
  { symmetry. apply read_slow_one. unfold byte_ok in H0. lia. }
  destruct buf as [|b1 buf]; [done|]. inversion_clear Hb' as [|? ? H1 Hb].
  destruct (Z.ltb_spec b1 128) as [L1|L1].
  { symmetry. apply read_slow_two; try done. unfold byte_ok in H1. lia. }
  destruct buf as [|b2 buf]; [done|]. inversion_clear Hb as [|? ? H2 Hb'].
  destruct (Z.ltb_spec b2 128) as [L2|L2]; [|done].
  symmetry. apply read_slow_three; try done. unfold byte_ok in H2. lia.
Qed.

(** ** Writing *)
Lemma set_byte_ok buf i b : 0 <= i < zlen buf -> set_byte buf i b = Ok (splice buf i [b]).
Proof.
  intros H. unfold set_byte. rewrite zput_Some; [done|lia|].
  rewrite zlen_cons, zlen_nil. lia.
Qed.

Lemma cont_snoc n v : cont (S n) v = cont n (v / 128) ++ [128 + v mod 128].
Proof.
  induction n as [|n IH].
  - simpl. by rewrite Z.div_1_r.
  - change (cont (S (S n)) v) with
      (128 + (v / 128 ^ Z.of_nat (S n)) mod 128 :: cont (S n) v).
    rewrite IH. simpl cont. rewrite <- app_comm_cons. f_equal. f_equal. f_equal.
    rewrite Nat2Z.inj_succ, Z.pow_succ_r by lia.
    by rewrite Z.div_div by (pose proof (pow128_pos (Z.of_nat n)); lia).
Qed.

Lemma write_nine_loop_spec n : forall v buf,
  Z.of_nat n <= zlen buf -> write_nine_loop n v buf = Ok (splice buf 0 (cont n v)).
Proof.
  induction n as [|n IH]; intros v buf Hn.
  - simpl. by rewrite splice_nil.
  - cbn [write_nine_loop]. rewrite set_byte_ok by lia. simpl mbind.
    assert (zlen [128 + v mod 128] = 1) as H1 by reflexivity.
    rewrite lor_128', shr_div by lia. change (2 ^ 7) with 128.
    rewrite IH by (rewrite zlen_splice by lia; lia). f_equal.
    rewrite cont_snoc, <- (splice_before buf 0 (cont n (v / 128))) by (rewrite ?zlen_cont; lia).
    rewrite zlen_cont, Z.add_0_l. done.
Qed.

(** The groups of [v] in the order the encoding loop produces them. *)
Fixpoint le_groups (g : nat) (v : Z) : list Z :=
  match g with
  | O => []
  | S g => 128 + v mod 128 :: le_groups g (v / 128)
  end.

Lemma zlen_le_groups g v : zlen (le_groups g v) = Z.of_nat g.
Proof. revert v. induction g; intros v; [done|]. simpl. rewrite zlen_cons, IHg. lia. Qed.

Lemma reverse_le_groups g v : reverse (le_groups g v) = cont g v.
Proof.
  revert v. induction g as [|g IH]; intros v; [done|].
  change (le_groups (S g) v) with (128 + v mod 128 :: le_groups g (v / 128)).
  by rewrite reverse_cons, IH, cont_snoc.
Qed.

Definition has_groups (v : Z) (g : nat) : Prop :=
  match g with O => v = 0 | S g' => 128 ^ Z.of_nat g' <= v < 128 ^ Z.of_nat g end.

Lemma has_groups_pred v g : has_groups v (S g) -> has_groups (v / 128) g.
Proof.
  intros [H1 H2]. destruct g as [|g]; simpl.
  - apply Z.div_small. change (128 ^ Z.of_nat 1) with 128 in H2. simpl in H1. lia.
  - rewrite !Nat2Z.inj_succ, !Z.pow_succ_r in * by lia.
    split; [apply Z.div_le_lower_bound|apply Z.div_lt_upper_bound]; lia.
Qed.

Lemma encode_groups_spec g : forall fuel v n encoded,
  (g < fuel)%nat -> has_groups v g -> 0 <= n -> n + Z.of_nat g <= zlen encoded ->
  encode_groups fuel v n encoded =
    Ok (splice encoded n (le_groups g v), n + Z.of_nat g).
Proof.
  induction g as [|g IH]; intros fuel v n encoded Hf Hv Hn Hl;
    destruct fuel as [|fuel]; try lia; cbn [encode_groups].
  - simpl in Hv. subst v. simpl. rewrite splice_nil. by rewrite Z.add_0_r.
  - assert (0 < v) as Hp.
    { destruct Hv as [Hv _]. pose proof (pow128_pos (Z.of_nat g)). lia. }
    destruct (Z.eqb_spec v 0); [lia|].
    rewrite set_byte_ok by lia. simpl mbind. rewrite lor_128, shr_div by lia.
    change (2 ^ 7) with 128.
    assert (zlen [128 + v mod 128] = 1) as H1 by reflexivity.
    rewrite IH; [|lia|by apply has_groups_pred|lia|rewrite zlen_splice by lia; lia].
    f_equal. f_equal; [|lia].
    replace (n + 1) with (n + zlen [128 + v mod 128]) by lia.
    rewrite splice_after by (rewrite ?zlen_le_groups; lia). done.
Qed.

Lemma copy_reversed_spec k : forall i n encoded buf,
  0 <= i -> i + Z.of_nat k = n -> n <= zlen encoded -> n <= zlen buf ->
  copy_reversed k i n encoded buf =
    Ok (splice buf i (reverse (ztake (Z.of_nat k) encoded))).
Proof.
  induction k as [|k IH]; intros i n encoded buf Hi Hn He Hb.
  - change (ztake (Z.of_nat 0) encoded) with (@nil Z). by rewrite reverse_nil, splice_nil.
  - cbn [copy_reversed].
    destruct (zget_range encoded (Z.of_nat k)) as [e Hk]; [lia|].
    replace (n - 1 - i) with (Z.of_nat k) by lia. rewrite Hk. simpl mbind.
    rewrite set_byte_ok by lia. simpl mbind.
    assert (zlen [e] = 1) as H1 by reflexivity.
    rewrite IH by (rewrite ?zlen_splice by lia; lia). f_equal.
    assert (zlen (reverse (ztake (Z.of_nat k) encoded)) = Z.of_nat k) as H2.
    { unfold zlen. rewrite length_reverse. fold (zlen (ztake (Z.of_nat k) encoded)).
      rewrite zlen_ztake. lia. }
    replace (i + 1) with (i + zlen [e]) by lia.
    rewrite splice_after by lia. f_equal.
    unfold zget in Hk. destruct (Z.ltb_spec (Z.of_nat k) 0); [lia|].
    unfold ztake. rewrite !Nat2Z.id in *. erewrite take_S_r by exact Hk.
    by rewrite reverse_app.
Qed.

(** The mask test of [write_varint] selects exactly the values that need nine bytes. *)
Lemma high_mask v : 0 <= v < 2 ^ 64 -> (0 <? Z.land v (shl 64 4278190080 32)) = (2 ^ 56 <=? v).
Proof.
  intros Hv. change (shl 64 4278190080 32) with (Z.shiftl (Z.ones 8) 56).
  assert (Z.land v (Z.shiftl (Z.ones 8) 56) = (v / 2 ^ 56) * 2 ^ 56) as ->.
  { rewrite <- (Z.shiftl_mul_pow2 (v / 2 ^ 56)), <- Z.shiftr_div_pow2 by lia.
    apply Z.bits_inj'. intros i Hi. rewrite Z.land_spec.
    destruct (Z_lt_le_dec i 56).
    - rewrite !Z.shiftl_spec_low by lia. apply andb_false_r.
    - rewrite !Z.shiftl_spec_high, Z.shiftr_spec by lia.
      replace (i - 56 + 56) with i by lia.
      destruct (Z_lt_le_dec i 64).
      + rewrite Z.ones_spec_low by lia. apply andb_true_r.
      + rewrite (testbit_high v 64 i) by lia. done. }
  destruct (Z.leb_spec (2 ^ 56) v).
  - apply Z.ltb_lt. pose proof (Z.div_le_lower_bound v (2 ^ 56) 1). lia.
  - rewrite (Z.div_small v) by lia. done.
Qed.

Lemma has_groups_ngroups v : 0 < v -> has_groups v (Z.to_nat (ngroups v)).
Proof.
  intros Hv. pose proof (ngroups_pos v). pose proof (ngroups_spec v Hv).
  destruct (Z.to_nat (ngroups v)) as [|g] eqn:E; [lia|].
  unfold has_groups. replace (Z.of_nat g) with (ngroups v - 1) by lia.
  replace (Z.of_nat (S g)) with (ngroups v) by lia. done.
Qed.

(** Clearing the continuation bit of the first group gives the last byte. *)
Lemma clear_first_group g v l :
  Z.of_nat (S g) <= zlen l ->
  splice (splice l 0 (le_groups (S g) v)) 0 [Z.land (128 + v mod 128) 127] =
  splice l 0 (v mod 128 :: le_groups g (v / 128)).
Proof.
  intros Hl. rewrite land_7f.
  replace ((128 + v mod 128) mod 128) with (v mod 128).
  2:{ replace (128 + v mod 128) with (v mod 128 + 1 * 128) by lia.
      rewrite Z.mod_add, Z.mod_mod by lia. done. }
  assert (zlen [v mod 128] = 1) as H1 by reflexivity.
  pose proof (zlen_le_groups (S g) v) as H2.
  pose proof (zlen_le_groups g (v / 128)) as H3.
  assert (zlen (v mod 128 :: le_groups g (v / 128)) = Z.of_nat (S g)) as H4
    by (rewrite zlen_cons; lia).
  apply zget_ext; [rewrite !zlen_splice by (rewrite ?zlen_splice; lia); lia|].
  intros i Hi. rewrite !zget_splice by (rewrite ?zlen_splice; lia).
  repeat (case_match; try lia); try done.
  - replace (i - 0) with 0 by lia. done.
  - unfold zget. rewrite (proj2 (Z.ltb_ge _ 0)) by lia.
    destruct (Z.to_nat (i - 0)) eqn:E; [lia|]. done.
Qed.

Lemma ngroups_range v n :
  0 < n -> (n = 1 /\ 0 <= v < 128) \/ (128 ^ (n - 1) <= v < 128 ^ n) -> ngroups v = n.
Proof.
  intros Hn H. pose proof (ngroups_pos v). destruct H as [[-> H]|H].
  - pose proof (ngroups_le v 1 ltac:(lia) ltac:(lia)). lia.
  - pose proof (pow128_pos (n - 1) ltac:(lia)).
    pose proof (ngroups_le v n ltac:(lia) ltac:(lia)).
    destruct (ngroups_spec v ltac:(lia)) as [_ H3].
    assert (128 ^ (n - 1) < 128 ^ ngroups v) as H4 by lia.
    apply Z.pow_lt_mono_r_iff in H4; lia.
Qed.

Lemma write_varint_general v buf :
  16383 < v < 2 ^ 56 -> ngroups v <= zlen buf ->
  (p ← encode_groups 11 v 0 (replicate 9 0);
   e0 ← or_panic (zget (p.1) 0);
   encoded ← set_byte (p.1) 0 (Z.land e0 127);
   buf ← copy_reversed (Z.to_nat (p.2)) 0 (p.2) encoded buf;
   Ok (buf, p.2)) = Ok (splice buf 0 (varint_bytes v), ngroups v).
Proof.
  intros Hv Hb. pose proof (ngroups_pos v).
  pose proof (ngroups_le v 8 ltac:(lia) ltac:(lia)).
  unfold varint_bytes. rewrite (proj2 (Z.ltb_lt v _)) by lia.
  set (z9 := replicate 9 0). assert (zlen z9 = 9) as Hz by reflexivity.
  rewrite (encode_groups_spec (Z.to_nat (ngroups v))) by (try apply has_groups_ngroups; lia).
  destruct (Z.to_nat (ngroups v)) as [|g] eqn:Eg; [lia|].
  pose proof (zlen_le_groups (S g) v) as Hlg.
  pose proof (zlen_le_groups g (v / 128)) as Hlg'.
  assert (zlen (v mod 128 :: le_groups g (v / 128)) = Z.of_nat (S g)) as Hlc
    by (rewrite zlen_cons; lia).
  cbn [mbind res_bind fst snd]. rewrite zget_splice by lia.
  change ((0 <=? 0) && (0 <? 0 + zlen (le_groups (S g) v)))
    with (0 <? 0 + zlen (le_groups (S g) v)).
  rewrite (proj2 (Z.ltb_lt 0 _)) by lia. change (0 - 0) with 0.
  change (zget (le_groups (S g) v) 0) with (Some (128 + v mod 128)).
  cbn [or_panic mbind res_bind]. rewrite set_byte_ok by (rewrite zlen_splice by lia; lia).
  cbn [mbind res_bind]. rewrite clear_first_group by lia.
  rewrite copy_reversed_spec by (rewrite ?zlen_splice by lia; lia).
  cbn [mbind res_bind]. rewrite Z.add_0_l, Z2Nat.id by lia.
  f_equal. f_equal; [|lia]. f_equal.
  rewrite <- Hlc, ztake_splice_0 by lia.
  rewrite reverse_cons, reverse_le_groups.
  replace (Z.to_nat (ngroups v - 1)) with g by lia. done.
Qed.

(** [write_varint] writes the minimal encoding at the start of the buffer and
    returns its length. *)
Lemma write_varint_spec v buf :
  in_u 64 v -> zlen (varint_bytes v) <= zlen buf ->
  write_varint buf v = Ok (splice buf 0 (varint_bytes v), zlen (varint_bytes v)).
Proof.
  intros Hv Hb. unfold in_u in Hv. rewrite zlen_varint_bytes in * by lia.
  unfold write_varint. destruct (Z.leb_spec v 127).
  { rewrite (proj2 (Z.ltb_lt v (2 ^ 56))) in * by lia.
    assert (ngroups v = 1) as Hn by (apply ngroups_range; lia).
    rewrite Hn in *. rewrite set_byte_ok by lia. cbn [mbind res_bind].
    unfold varint_bytes. rewrite (proj2 (Z.ltb_lt v (2 ^ 56))) by lia.
    rewrite Hn, land_7f. done. }
  destruct (Z.leb_spec v 16383).
  { rewrite (proj2 (Z.ltb_lt v (2 ^ 56))) in * by lia.
    assert (ngroups v = 2) as Hn by (apply ngroups_range; lia).
    rewrite Hn in *. rewrite set_byte_ok by lia. cbn [mbind res_bind].
    rewrite lor_128', land_7f, shr_div by lia. change (2 ^ 7) with 128.
    set (a := [128 + v / 128 mod 128]). assert (zlen a = 1) as Ha by reflexivity.
    rewrite set_byte_ok by (rewrite zlen_splice by lia; lia). cbn [mbind res_bind].
    f_equal. f_equal. change 1 with (0 + zlen a).
    assert (zlen [v mod 128] = 1) by reflexivity.
    rewrite splice_after by lia. f_equal.
    unfold varint_bytes. rewrite (proj2 (Z.ltb_lt v (2 ^ 56))) by lia.
    rewrite Hn. simpl cont. by rewrite Z.div_1_r. }
  rewrite high_mask by lia. destruct (Z.leb_spec (2 ^ 56) v).
  - rewrite (proj2 (Z.ltb_ge v (2 ^ 56))) in * by lia.
    rewrite set_byte_ok by lia. cbn [mbind res_bind].
    set (a := [wrap 8 v]). assert (zlen a = 1) as Ha by reflexivity.
    rewrite write_nine_loop_spec by (rewrite zlen_splice by lia; lia).
    cbn [mbind res_bind]. f_equal. f_equal.
    rewrite shr_div by lia. change (2 ^ 8) with 256.
    pose proof (zlen_cont 8 (v / 256)).
    change 8 with (0 + Z.of_nat 8) at 1. rewrite <- (zlen_cont 8 (v / 256)).
    rewrite splice_before by lia. f_equal.
    unfold varint_bytes. rewrite (proj2 (Z.ltb_ge v (2 ^ 56))) by lia. done.
  - rewrite (proj2 (Z.ltb_lt v (2 ^ 56))) in * by lia.
    apply write_varint_general; lia.
Qed.

Lemma varint_len_spec v : in_u 64 v -> varint_len v = zlen (varint_bytes v).
Proof.
  intros Hv. unfold in_u in Hv. rewrite zlen_varint_bytes by lia.
  unfold varint_len. change (shl 64 1 56 - 1) with (2 ^ 56 - 1).
  destruct (Z.leb_spec v 127).
  - rewrite (proj2 (Z.ltb_lt v (2 ^ 56))) by lia. symmetry. apply ngroups_range; lia.
  - destruct (Z.ltb_spec (2 ^ 56 - 1) v).
    + rewrite (proj2 (Z.ltb_ge v (2 ^ 56))) by lia. done.
    + rewrite (proj2 (Z.ltb_lt v (2 ^ 56))) by lia.
      unfold leading_zeros64, div_ceil, ngroups.
      destruct (Z.eqb_spec v 0); [lia|].
      replace (64 - (63 - Z.log2 v) + 7 - 1) with (Z.log2 v + 1 * 7) by lia.
      by rewrite Z.div_add by lia.
Qed.

Lemma varint_len_bounds v : in_u 64 v -> 1 <= varint_len v <= 9.
Proof.
  intros Hv. rewrite varint_len_spec by done. unfold in_u in Hv.
  rewrite zlen_varint_bytes by lia. pose proof (ngroups_pos v).
  destruct (Z.ltb_spec v (2 ^ 56)); [|lia].
  pose proof (ngroups_le v 8 ltac:(lia) ltac:(lia)). lia.
Qed.

Lemma read_varint_bytes v rest :
  in_u 64 v -> bytes_ok rest ->
  read_varint (varint_bytes v ++ rest) = Ok (v, zlen (varint_bytes v)).
Proof.
  intros Hv Hr. unfold in_u in Hv.
  rewrite read_varint_is_slow by (apply bytes_ok_app; auto using varint_bytes_ok).
  rewrite zlen_varint_bytes by lia. destruct (Z.ltb_spec v (2 ^ 56)).
  - apply read_slow_short. lia.
  - apply read_slow_long. lia.
Qed.

Lemma write_varint_to_vec_spec v payload :
  in_u 64 v -> write_varint_to_vec v payload = Ok (payload ++ varint_bytes v).
Proof.
  intros Hv. pose proof (varint_len_bounds v Hv). rewrite varint_len_spec in * by done.
  unfold write_varint_to_vec. set (z9 := replicate 9 0).
  assert (zlen z9 = 9) by reflexivity.
  rewrite write_varint_spec by (done || lia). cbn [mbind res_bind fst snd].
  rewrite zslice_Some by (rewrite ?zlen_splice; lia).
  cbn [or_panic mbind res_bind]. rewrite Z.sub_0_r.
  change (zdrop 0 (splice z9 0 (varint_bytes v))) with (splice z9 0 (varint_bytes v)).
  by rewrite ztake_splice_0 by lia.
Qed.

(** ** What a successful read says about the buffer *)
Lemma ztake_zdrop_cons {A} (buf : list A) i n c :
  0 <= i -> zget buf i = Some c ->
  ztake (Z.of_nat (S n)) (zdrop i buf) = c :: ztake (Z.of_nat n) (zdrop (i + 1) buf).
Proof.
  intros Hi Hc. unfold zget in Hc. rewrite (proj2 (Z.ltb_ge i 0)) in Hc by lia.
  unfold ztake, zdrop. rewrite !Nat2Z.id.
  rewrite (drop_S _ _ _ Hc). simpl. f_equal. do 2 f_equal. lia.
Qed.

Lemma varint_loop_returns n : forall i v buf r k,
  bytes_ok buf -> 0 <= i -> 0 <= v < 128 ^ i -> i + Z.of_nat n <= 8 ->
  varint_loop n i v buf = inl (Some (r, k)) ->
  i < k <= i + Z.of_nat n /\ k <= zlen buf /\ 0 <= r < 128 ^ k.
Proof.
  induction n as [|n IH]; intros i v buf r k Hb Hi Hv Hn H; [discriminate H|].
  destruct (zget buf i) as [c|] eqn:Hc; [|simpl in H; by rewrite Hc in H].
  pose proof (zget_byte_ok _ _ _ Hb Hc) as Hok. pose proof (zget_Some_range _ _ _ Hc).
  assert (128 ^ i <= 128 ^ 8) by (apply Z.pow_le_mono_r; lia).
  assert (128 ^ (i + 1) = 128 ^ i * 128) as Hs by (rewrite Z.pow_add_r by lia; done).
  unfold byte_ok in Hok.
  rewrite (varint_loop_step _ _ _ _ c) in H by (done || lia).
  destruct (Z.ltb_spec c 128).
  - injection H as <- <-. rewrite Hs. lia.
  - apply IH in H; [lia|done|lia|rewrite Hs; lia|lia].
Qed.

Lemma varint_loop_exhausts n : forall i v buf w,
  bytes_ok buf -> 0 <= i -> 0 <= v < 128 ^ i -> i + Z.of_nat n <= 8 ->
  varint_loop n i v buf = inr w ->
  ztake (Z.of_nat n) (zdrop i buf) = cont n w /\ w / 128 ^ Z.of_nat n = v /\ 0 <= w.
Proof.
  induction n as [|n IH]; intros i v buf w Hb Hi Hv Hn H.
  { injection H as <-. simpl. rewrite Z.div_1_r. split; [done|lia]. }
  destruct (zget buf i) as [c|] eqn:Hc; [|simpl in H; by rewrite Hc in H].
  pose proof (zget_byte_ok _ _ _ Hb Hc) as Hok. pose proof (zget_Some_range _ _ _ Hc).
  assert (128 ^ i <= 128 ^ 8) by (apply Z.pow_le_mono_r; lia).
  assert (128 ^ (i + 1) = 128 ^ i * 128) as Hs by (rewrite Z.pow_add_r by lia; done).
  unfold byte_ok in Hok.
  rewrite (varint_loop_step _ _ _ _ c) in H by (done || lia).
  destruct (Z.ltb_spec c 128); [discriminate H|].
  apply IH in H as (Hl & Hq & Hw); [|done|lia|rewrite Hs; lia|lia].
  rewrite (ztake_zdrop_cons _ _ _ c) by (done || lia). rewrite Hl. simpl cont.
  pose proof (pow128_pos (Z.of_nat n) ltac:(lia)).
  rewrite Nat2Z.inj_succ, Z.pow_succ_r by lia.
  rewrite (Z.mul_comm 128), <- Z.div_div, Hq by lia.
  rewrite Z.div_add_l, (Z.div_small (c - 128)) by lia.
  split; [|lia]. f_equal.
  rewrite (Z.add_comm (v * 128)), Z.mod_add, Z.mod_small by lia. lia.
Qed.

Lemma varint_loop_missing n : forall i v buf,
  0 <= i -> varint_loop n i v buf = inl None -> zlen buf < i + Z.of_nat n.
Proof.
  induction n as [|n IH]; intros i v buf Hi H; [discriminate H|]. simpl in H.
  destruct (zget buf i) as [c|] eqn:Hc.
  - destruct (Z.land c 128 =? 0); [discriminate H|]. apply IH in H; lia.
  - destruct (Z_lt_le_dec (zlen buf) (i + Z.of_nat (S n))); [done|].
    destruct (zget_range buf i) as [x Hx]; [lia|congruence].
Qed.

Lemma wide_value_bound w c :
  0 <= w < 2 ^ 56 -> byte_ok c -> wrap 64 (shl 64 w 8 + c) = w * 256 + c.
Proof.
  intros Hw Hc. unfold byte_ok in Hc.
  rewrite shl_small by (change (2 ^ 8) with 256; lia).
  apply wrap_small. change (2 ^ 8) with 256. unfold in_u. lia.
Qed.

(** A nine-byte read starts with the minimal encoding of its value. *)
Lemma nine_byte_value buf w c :
  bytes_ok buf -> varint_loop 8 0 0 buf = inr w -> zget buf 8 = Some c ->
  (shr w 48 =? 0) = false ->
  in_u 64 (w * 256 + c) /\ ztake 9 buf = varint_bytes (w * 256 + c) /\ 0 <= w < 2 ^ 56.
Proof.
  intros Hb El Hc Hw. pose proof (zget_byte_ok _ _ _ Hb Hc) as Hok. unfold byte_ok in Hok.
  apply varint_loop_exhausts in El as (Hl & Hq & Hp); [|done|lia|simpl; lia|simpl; lia].
  change (128 ^ Z.of_nat 8) with (2 ^ 56) in Hq. apply Z.div_small_iff in Hq; [|lia].
  rewrite shr_div in Hw by lia. apply Z.eqb_neq in Hw.
  assert (2 ^ 48 <= w).
  { destruct (Z_lt_le_dec w (2 ^ 48)); [|done]. by rewrite Z.div_small in Hw by lia. }
  assert ((w * 256 + c) / 256 = w) as Hd.
  { rewrite Z.div_add_l, Z.div_small by lia. lia. }
  assert ((w * 256 + c) mod 256 = c) as Hm.
  { rewrite Z.add_comm, Z.mod_add, Z.mod_small by lia. lia. }
  unfold in_u. split_and!; try lia.
  unfold varint_bytes. rewrite (proj2 (Z.ltb_ge _ _)) by lia.
  rewrite Hd, Hm, <- Hl.
  unfold zget in Hc. simpl in Hc. unfold ztake, zdrop. simpl.
  apply (take_S_r buf 8 c Hc).
Qed.

Lemma read_varint_bounds buf v n :
  bytes_ok buf -> read_varint buf = Ok (v, n) ->
  in_u 64 v /\ 1 <= n <= 9 /\ n <= zlen buf /\ (n = 9 -> ztake 9 buf = varint_bytes v).
Proof.
  intros Hb H. rewrite read_varint_is_slow in H by done. unfold read_varint_slow in H.
  destruct (varint_loop 8 0 0 buf) as [[[r k]|]|w] eqn:El; [|done|].
  - apply varint_loop_returns in El; [|done|lia|simpl; lia|lia]. injection H as -> ->.
    assert (128 ^ n <= 128 ^ 8) by (apply Z.pow_le_mono_r; lia).
    unfold in_u. lia.
  - destruct (zget buf 8) as [c|] eqn:Hc; [|done].
    destruct (shr w 48 =? 0) eqn:Ew; [done|].
    pose proof (zget_Some_range _ _ _ Hc).
    destruct (nine_byte_value _ _ _ Hb El Hc Ew) as (H1 & H2 & H3).
    rewrite wide_value_bound in H by eauto using zget_byte_ok.
    injection H as <- <-. split_and!; [done|lia|lia|lia|done].
Qed.

(** ** Main theorems *)

(** C24: for every [u64] value and every buffer of at least nine bytes,
    [write_varint] succeeds, returns [varint_len value] (between one and nine),
    leaves the rest of the buffer alone, and [read_varint] on the written bytes
    returns the value and the same length. *)
Theorem varint_roundtrip v buf :
  in_u 64 v -> 9 <= zlen buf ->
  exists buf',
    write_varint buf v = Ok (buf', varint_len v) /\
    1 <= varint_len v <= 9 /\
    zlen buf' = zlen buf /\
    zdrop (varint_len v) buf' = zdrop (varint_len v) buf /\
    read_varint (ztake (varint_len v) buf') = Ok (v, varint_len v).
Proof.
  intros Hv Hb. pose proof (varint_len_bounds v Hv) as Hl.
  rewrite varint_len_spec in * by done.
  exists (splice buf 0 (varint_bytes v)). split_and!; try lia.
  - apply write_varint_spec; [done|lia].
  - apply zlen_splice; lia.
  - apply zget_ext; [rewrite !zlen_zdrop, zlen_splice; lia|]. intros i Hi.
    rewrite !zget_zdrop by lia. rewrite zget_splice by lia.
    repeat (case_match; try lia); done.
  - rewrite ztake_splice_0 by lia.
    rewrite <- (app_nil_r (varint_bytes v)) at 1.
    apply read_varint_bytes; [done|constructor].
Qed.

Lemma varint_roundtrip_witness :
  in_u 64 300 /\
  exists buf', write_varint (replicate 9 0) 300 = Ok (buf', varint_len 300) /\
    1 <= varint_len 300 <= 9 /\ zlen buf' = zlen (replicate 9 0) /\
    zdrop (varint_len 300) buf' = zdrop (varint_len 300) (replicate 9 0) /\
    read_varint (ztake (varint_len 300) buf') = Ok (300, varint_len 300).
Proof.
  split; [unfold in_u; lia|].
  apply (varint_roundtrip 300 (replicate 9 0)); [unfold in_u; lia|vm_compute; discriminate].
Defined.

Lemma split_varint_spec buf :
  bytes_ok buf ->
  split_varint buf = (fun p => (p.1, zdrop (p.2) buf)) <$> read_varint buf.
Proof.
  intros Hb.
  assert (forall r, read_varint buf = Ok r ->
            or_panic (E := LimboError) (zslice buf (r.2) (zlen buf)) = Ok (zdrop (r.2) buf)) as Hz.
  { intros [v k] (_ & Hk1 & Hk2 & _)%read_varint_bounds; [|done]. simpl.
    rewrite zslice_Some by lia. simpl. f_equal.
    unfold ztake. apply take_ge. unfold zdrop, zlen in *. rewrite length_drop. lia. }
  assert ((p ← read_varint buf;
           rest ← or_panic (E := LimboError) (zslice buf (p.2) (zlen buf));
           Ok (p.1, rest)) = (fun p => (p.1, zdrop (p.2) buf)) <$> read_varint buf) as Hslow.
  { destruct (read_varint buf) as [r| |]; [|done..].
    cbn [mbind res_bind fmap res_fmap]. by rewrite Hz. }
  unfold split_varint. rewrite Hslow. clear Hslow Hz.
  destruct buf as [|b0 [|b1 buf]]; [done|simpl; by destruct (b0 <? 128)|].
  destruct (b0 <? 128) eqn:E0; [simpl; by rewrite E0|].
  destruct (b1 <? 128) eqn:E1; [|done]. simpl. by rewrite E0, E1.
Qed.

(** C25: every reader of varints computes the same function of the buffer: the
    one-, two- and three-byte fast paths of [read_varint] agree with its loop,
    [read_varint_len] is its second component, [split_varint] returns the
    rest of the buffer behind the varint, and [read_varint_partial] answers
    the same value, [None] exactly where [read_varint] runs out of bytes. *)
Theorem varint_readers_agree buf :
  bytes_ok buf ->
  read_varint buf = read_varint_slow buf /\
  read_varint_len buf = snd <$> read_varint buf /\
  split_varint buf = (fun p => (p.1, zdrop (p.2) buf)) <$> read_varint buf /\
  match read_varint_partial buf with
  | Ok (Some r) => read_varint buf = Ok r
  | Ok None => read_varint buf = Err Corrupt /\ zlen buf < 9
  | Err e => read_varint buf = Err e
  | Panic => False
  end.
Proof.
  intros Hb. pose proof (read_varint_is_slow buf Hb) as Hs. split_and!.
  - done.
  - unfold read_varint_len, read_varint_len_long, read_varint.
    destruct buf as [|b0 [|b1 [|b2 buf]]]; [done|..]; destruct (b0 <? 128); try done;
      destruct (b1 <? 128); try done; by destruct (b2 <? 128).
  - by apply split_varint_spec.
  - rewrite Hs. unfold read_varint_partial, read_varint_slow.
    destruct (varint_loop 8 0 0 buf) as [[r|]|w] eqn:El; [done| |].
    + split; [done|]. apply varint_loop_missing in El; lia.
    + destruct (zget buf 8) eqn:E8; [by destruct (shr w 48 =? 0)|].
      split; [done|]. destruct (Z_lt_le_dec (zlen buf) 9); [done|].
      destruct (zget_range buf 8) as [x Hx]; [lia|congruence].
Qed.

Lemma varint_readers_agree_witness :
  bytes_ok [129; 200; 3; 7] /\
  read_varint [129; 200; 3; 7] = read_varint_slow [129; 200; 3; 7] /\
  read_varint_len [129; 200; 3; 7] = snd <$> read_varint [129; 200; 3; 7] /\
  split_varint [129; 200; 3; 7]
    = (fun p => (p.1, zdrop (p.2) [129; 200; 3; 7])) <$> read_varint [129; 200; 3; 7] /\
  match read_varint_partial [129; 200; 3; 7] with
  | Ok (Some r) => read_varint [129; 200; 3; 7] = Ok r
  | Ok None => read_varint [129; 200; 3; 7] = Err Corrupt /\ zlen [129; 200; 3; 7] < 9
  | Err e => read_varint [129; 200; 3; 7] = Err e
  | Panic => False
  end.
Proof.
  split; [by apply (bool_decide_unpack _)|].
  apply (varint_readers_agree [129; 200; 3; 7]). by apply (bool_decide_unpack _).
Defined.

(** A successful [read_varint] consumed between one and nine bytes that were
    in the buffer and its value fits [u64]; a nine-byte varint is the minimal
    encoding of its value, so an over-long nine-byte form is rejected as corrupt. *)
Theorem read_varint_sound buf v n :
  bytes_ok buf -> read_varint buf = Ok (v, n) ->
  in_u 64 v /\ 1 <= n <= 9 /\ n <= zlen buf /\ (n = 9 -> ztake 9 buf = varint_bytes v).
Proof. apply read_varint_bounds. Qed.

Lemma read_varint_sound_witness :
  in_u 64 18446744073709551615 /\ 1 <= 9 <= 9 /\ 9 <= zlen (replicate 9 255) /\
  (9 = 9 -> ztake 9 (replicate 9 255) = varint_bytes 18446744073709551615).
Proof.
  apply (read_varint_sound (replicate 9 255) 18446744073709551615 9).
  - by apply (bool_decide_unpack _).
  - vm_compute. reflexivity.
Defined.
