(* ===== verification/OnDisk.v ===== *)
(** * The on-disk header types ([src/core/storage/sqlite3_ondisk.rs])

    [PageSize], [CacheSize], [Version], [TextEncoding], [DatabaseHeader],
    [PageType], and the payload limits that decide how much of a record stays
    on its B-tree page ([payload_overflow_threshold_max]/[_min] of
    [src/core/storage/btree.rs], [payload_overflows]). *)
From S2P Require Import Prelude Errors.

(** ** Page size

    [PageSize] stores the raw [u16] of the header, where 1 stands for 65536. *)
Definition PAGE_SIZE_MIN : Z := 512.
Definition PAGE_SIZE_MAX : Z := 65536.
Definition PAGE_SIZE_DEFAULT : Z := 4096.
Definition MIN_USABLE_SPACE : Z := 480.

Record PageSize := mkPageSize { page_size_raw : Z }.

#[export] Instance PageSize_eq_dec : EqDecision PageSize.
Proof. solve_decision. Defined.

Definition PageSize_new (size : Z) : option PageSize :=
  if existsb (Z.eqb size) [512; 1024; 2048; 4096; 8192; 16384; 32768]
  then Some (mkPageSize (wrap 16 size))
  else if size =? PAGE_SIZE_MAX then Some (mkPageSize 1)
  else None.

Definition PageSize_new_from_header_u16 (value : Z) : result PageSize :=
  if value =? 1 then Ok (mkPageSize 1) else ok_or (PageSize_new value) Corrupt.

Definition PageSize_get (p : PageSize) : Z :=
  if page_size_raw p =? 1 then PAGE_SIZE_MAX else page_size_raw p.

Definition has_valid_reserved_space (p : PageSize) (reserved_space : Z) : bool :=
  MIN_USABLE_SPACE <=? saturating_sub (PageSize_get p) reserved_space.

Definition PageSize_get_raw (p : PageSize) : Z := page_size_raw p.

Definition PageSize_default : PageSize := mkPageSize PAGE_SIZE_DEFAULT.

(** ** Cache size: the raw value 0 stands for the default *)
Definition CACHE_SIZE_DEFAULT : Z := -2000.

Definition CacheSize_new (size : Z) : Z :=
  if size =? CACHE_SIZE_DEFAULT then 0 else size.

Definition CacheSize_get (raw : Z) : Z :=
  if raw =? 0 then CACHE_SIZE_DEFAULT else raw.

(** ** File format version *)
Inductive Version := Legacy | WalVersion | MvccVersion.

Definition Version_as_u8 (v : Version) : Z :=
  match v with Legacy => 1 | WalVersion => 2 | MvccVersion => 255 end.

(** [TryFrom<u8> for Version]; the error carries the byte. *)
Definition Version_try_from (value : Z) : res Z Version :=
  if value =? 1 then Ok Legacy
  else if value =? 2 then Ok WalVersion
  else if value =? 255 then Ok MvccVersion
  else Err value.

(** ** Text encoding *)
Definition Encoding_Unset : Z := 0.
Definition Encoding_Utf8 : Z := 1.
Definition Encoding_Utf16Le : Z := 2.
Definition Encoding_Utf16Be : Z := 3.

Definition is_utf8 (enc : Z) : bool := (enc =? Encoding_Utf8) || (enc =? Encoding_Unset).

(** ** Database header

    The hundred bytes of page 1, in field order ([repr(C, packed)], every
    multi-byte field big-endian). Signed fields hold their two's complement. *)
Record DatabaseHeader := mkDatabaseHeader {
  magic : list Z;
  page_size : PageSize;
  write_version : Z;
  read_version : Z;
  reserved_space : Z;
  max_embed_frac : Z;
  min_embed_frac : Z;
  leaf_frac : Z;
  change_counter : Z;
  database_size : Z;
  freelist_trunk_page : Z;
  freelist_pages : Z;
  schema_cookie : Z;
  schema_format : Z;
  default_page_cache_size : Z;
  vacuum_mode_largest_root_page : Z;
  text_encoding : Z;
  user_version : Z;
  incremental_vacuum_enabled : Z;
  application_id : Z;
  header_padding : list Z;
  version_valid_for : Z;
  version_number : Z
}.

Definition DATABASE_HEADER_SIZE : Z := 100.

(** The integer fields after the first 24 bytes, split by the padding. *)
Definition header_words (h : DatabaseHeader) : list Z :=
  [change_counter h; database_size h; freelist_trunk_page h; freelist_pages h;
   schema_cookie h; schema_format h; as_unsigned 32 (default_page_cache_size h);
   vacuum_mode_largest_root_page h; text_encoding h; as_unsigned 32 (user_version h);
   incremental_vacuum_enabled h; as_unsigned 32 (application_id h)].

(** The memory of the struct: it is [repr(C, packed)], so its fields follow each other in the order
    of the declaration, and the multi-byte ones are big-endian ([U32BE], [I32BE]). *)
Definition header_bytes (h : DatabaseHeader) : list Z :=
  magic h ++ be_encode 2 (page_size_raw (page_size h)) ++
  [write_version h; read_version h; reserved_space h; max_embed_frac h;
   min_embed_frac h; leaf_frac h] ++
  concat (map (be_encode 4) (header_words h)) ++
  header_padding h ++
  be_encode 4 (version_valid_for h) ++ be_encode 4 (version_number h).

(** The header as [&DatabaseHeader] over the first hundred bytes of page 1. *)
Definition header_of_bytes (l : list Z) : DatabaseHeader :=
  {| magic := ztake 16 l;
     page_size := mkPageSize (be_at 2 l 16);
     write_version := rd l 18;
     read_version := rd l 19;
     reserved_space := rd l 20;
     max_embed_frac := rd l 21;
     min_embed_frac := rd l 22;
     leaf_frac := rd l 23;
     change_counter := be_at 4 l 24;
     database_size := be_at 4 l 28;
     freelist_trunk_page := be_at 4 l 32;
     freelist_pages := be_at 4 l 36;
     schema_cookie := be_at 4 l 40;
     schema_format := be_at 4 l 44;
     default_page_cache_size := as_signed 32 (be_at 4 l 48);
     vacuum_mode_largest_root_page := be_at 4 l 52;
     text_encoding := be_at 4 l 56;
     user_version := as_signed 32 (be_at 4 l 60);
     incremental_vacuum_enabled := be_at 4 l 64;
     application_id := as_signed 32 (be_at 4 l 68);
     header_padding := ztake 20 (zdrop 72 l);
     version_valid_for := be_at 4 l 92;
     version_number := be_at 4 l 96 |}.

Definition usable_space (h : DatabaseHeader) : Z :=
  PageSize_get (page_size h) - reserved_space h.

Definition DatabaseHeader_default : DatabaseHeader :=
  {| magic := [83; 81; 76; 105; 116; 101; 32; 102; 111; 114; 109; 97; 116; 32; 51; 0];
     page_size := PageSize_default;
     write_version := Version_as_u8 WalVersion;
     read_version := Version_as_u8 WalVersion;
     reserved_space := 0;
     max_embed_frac := 64;
     min_embed_frac := 32;
     leaf_frac := 32;
     change_counter := 1;
     database_size := 0;
     freelist_trunk_page := 0;
     freelist_pages := 0;
     schema_cookie := 0;
     schema_format := 4;
     default_page_cache_size := CACHE_SIZE_DEFAULT;
     vacuum_mode_largest_root_page := 0;
     text_encoding := Encoding_Utf8;
     user_version := 0;
     incremental_vacuum_enabled := 0;
     application_id := 0;
     header_padding := replicate 20 0;
     version_valid_for := 3047000;
     version_number := 3047000 |}.

(** ** B-tree page types *)
Inductive PageType := IndexInterior | TableInterior | IndexLeaf | TableLeaf.

#[export] Instance PageType_eq_dec : EqDecision PageType.
Proof. solve_decision. Defined.

Definition PageType_as_u8 (t : PageType) : Z :=
  match t with IndexInterior => 2 | TableInterior => 5 | IndexLeaf => 10 | TableLeaf => 13 end.

Definition PageType_is_table (t : PageType) : bool :=
  match t with
  | IndexInterior | IndexLeaf => false
  | TableInterior | TableLeaf => true
  end.

Definition PageType_try_from (value : Z) : result PageType :=
  if value =? 2 then Ok IndexInterior
  else if value =? 5 then Ok TableInterior
  else if value =? 10 then Ok IndexLeaf
  else if value =? 13 then Ok TableLeaf
  else Err Corrupt.

(** ** Local payload limits ([usize] arithmetic, never negative for a usable
    space of at least [MIN_USABLE_SPACE]) *)
Definition payload_overflow_threshold_max (page_type : PageType) (usable_space : Z) : Z :=
  match page_type with
  | IndexInterior | IndexLeaf => (usable_space - 12) * 64 / 255 - 23
  | TableInterior | TableLeaf => usable_space - 35
  end.

Definition payload_overflow_threshold_min (page_type : PageType) (usable_space : Z) : Z :=
  (usable_space - 12) * 32 / 255 - 23.

Record PayloadLimits := mkPayloadLimits {
  usable_size : Z;
  max_local_table : Z;
  max_local_index : Z;
  min_local : Z
}.

Definition PayloadLimits_new (usable_size : Z) : PayloadLimits :=
  {| usable_size := usable_size;
     max_local_table := payload_overflow_threshold_max TableLeaf usable_size;
     max_local_index := payload_overflow_threshold_max IndexLeaf usable_size;
     min_local := payload_overflow_threshold_min TableLeaf usable_size |}.

Definition max_local (limits : PayloadLimits) (page_type : PageType) : Z :=
  match page_type with
  | IndexInterior | IndexLeaf => max_local_index limits
  | TableInterior | TableLeaf => max_local_table limits
  end.

Definition payload_overflows
    (payload_size max_local_bytes min_local_bytes usable_size : Z) : option Z :=
  if payload_size <=? max_local_bytes then None
  else
    let space_left :=
      min_local_bytes + (payload_size - min_local_bytes) mod (usable_size - 4) in
    let space_left :=
      if max_local_bytes <? space_left then min_local_bytes else space_left in
    Some (space_left + 4).

(** ** Properties *)

Lemma PageSize_new_Some size p :
  PageSize_new size = Some p ->
  In size [512; 1024; 2048; 4096; 8192; 16384; 32768; 65536] /\ PageSize_get p = size.
Proof.
  unfold PageSize_new. destruct (existsb _ _) eqn:E.
  - intros [= <-]. apply existsb_exists in E as (x & Hx & ->%Z.eqb_eq).
    split; [simpl in *; tauto|]. simpl in Hx.
    by repeat destruct Hx as [<-|Hx]; [reflexivity..|].
  - destruct (Z.eqb_spec size PAGE_SIZE_MAX) as [->|]; [|discriminate].
    intros [= <-]. split; [simpl; tauto|reflexivity].
Qed.

(** A page size is accepted exactly when it is a power of two from 512 to
    65536; what is stored in the header's two bytes decodes to the same size,
    and a reserved-space byte is valid exactly when 480 usable bytes remain. *)
Lemma page_size_valid size :
  in_u 32 size ->
  match PageSize_new size with
  | Some p =>
      (exists k, 9 <= k <= 16 /\ size = 2 ^ k) /\
      PageSize_get p = size /\
      PageSize_new_from_header_u16 (PageSize_get_raw p) = Ok p /\
      in_u 16 (PageSize_get_raw p) /\
      (forall r, in_u 8 r -> has_valid_reserved_space p r = true <-> 480 <= size - r)
  | None => forall k, 9 <= k <= 16 -> size <> 2 ^ k
  end.
Proof.
  intros Hs. destruct (PageSize_new size) as [p|] eqn:E.
  - destruct (PageSize_new_Some _ _ E) as [Hin Hget]. split_and!.
    + simpl in Hin.
      repeat destruct Hin as [<-|Hin]; [exists 9|exists 10|exists 11|exists 12|exists 13
        |exists 14|exists 15|exists 16|done]; split; (lia || reflexivity).
    + done.
    + simpl in Hin. repeat destruct Hin as [<-|Hin]; try done;
        vm_compute in E; injection E as <-; reflexivity.
    + simpl in Hin. repeat destruct Hin as [<-|Hin]; try done;
        vm_compute in E; injection E as <-; split; vm_compute; congruence.
    + intros r Hr. unfold has_valid_reserved_space, saturating_sub, MIN_USABLE_SPACE.
      rewrite Hget, Z.leb_le. lia.
  - intros k Hk ->. assert (k = 9 \/ k = 10 \/ k = 11 \/ k = 12 \/ k = 13 \/ k = 14 \/
                            k = 15 \/ k = 16) as H by lia.
    repeat destruct H as [->|H]; try (vm_compute in E; discriminate E).
    subst. vm_compute in E. discriminate E.
Qed.

Lemma CacheSize_get_new size : size <> 0 -> CacheSize_get (CacheSize_new size) = size.
Proof.
  intros Hs. unfold CacheSize_get, CacheSize_new.
  destruct (Z.eqb_spec size CACHE_SIZE_DEFAULT) as [->|]; [reflexivity|].
  by destruct (Z.eqb_spec size 0).
Qed.

Lemma Version_roundtrip v : Version_try_from (Version_as_u8 v) = Ok v.
Proof. by destruct v. Qed.

Lemma PageType_roundtrip t : PageType_try_from (PageType_as_u8 t) = Ok t.
Proof. by destruct t. Qed.

Lemma PageType_try_from_inv b t : PageType_try_from b = Ok t -> b = PageType_as_u8 t.
Proof.
  unfold PageType_try_from. repeat case_match; intros [=]; subst; simpl; lia.
Qed.

(** ** Local payload: what stays on the page *)
Section PayloadBounds.
Context (usable : Z) (Husable : MIN_USABLE_SPACE <= usable <= PAGE_SIZE_MAX).

Lemma threshold_bounds t :
  35 <= payload_overflow_threshold_min t usable
  <= payload_overflow_threshold_max t usable - 59 /\
  payload_overflow_threshold_max t usable <= usable - 35.
Proof.
  unfold payload_overflow_threshold_min, payload_overflow_threshold_max,
    MIN_USABLE_SPACE, PAGE_SIZE_MAX in *.
  destruct t; Z.to_euclidean_division_equations; lia.
Qed.

Lemma payload_overflows_Some t p local :
  0 <= p ->
  payload_overflows p (payload_overflow_threshold_max t usable)
    (payload_overflow_threshold_min t usable) usable = Some local ->
  payload_overflow_threshold_max t usable < p /\
  payload_overflow_threshold_min t usable <= local - 4
  <= payload_overflow_threshold_max t usable /\
  let k := payload_overflow_threshold_min t usable +
    (p - payload_overflow_threshold_min t usable) mod (usable - 4) in
  local - 4 = (if k <=? payload_overflow_threshold_max t usable then k else payload_overflow_threshold_min t usable) /\
  ((p - (local - 4)) mod (usable - 4) = 0 \/ payload_overflow_threshold_max t usable < k).
Proof.
  intros Hp. unfold payload_overflows. pose proof (threshold_bounds t).
  set (mx := payload_overflow_threshold_max t usable) in *.
  set (mn := payload_overflow_threshold_min t usable) in *.
  unfold MIN_USABLE_SPACE, PAGE_SIZE_MAX in *.
  pose proof (Z.mod_pos_bound (p - mn) (usable - 4)).
  destruct (Z.leb_spec p mx); [discriminate|].
  destruct (Z.ltb_spec mx (mn + (p - mn) mod (usable - 4))); intros [= <-].
  - split; [lia|]. split; [lia|]. cbv zeta. rewrite (proj2 (Z.leb_gt _ _)) by lia. split; [lia|]. right. lia.
  - split; [lia|]. split; [lia|]. cbv zeta. rewrite (proj2 (Z.leb_le _ _)) by lia. split; [lia|]. left.
    replace (p - (mn + (p - mn) mod (usable - 4) + 4 - 4))
      with ((p - mn) - (p - mn) mod (usable - 4)) by lia.
    apply Z.mod_divide; [lia|]. exists ((p - mn) / (usable - 4)).
    rewrite (Z.div_mod (p - mn) (usable - 4)) at 1 by lia. lia.
Qed.

Lemma payload_overflows_None t p :
  payload_overflows p (payload_overflow_threshold_max t usable)
    (payload_overflow_threshold_min t usable) usable = None <->
  p <= payload_overflow_threshold_max t usable.
Proof. unfold payload_overflows. destruct (Z.leb_spec p (payload_overflow_threshold_max t usable)); split; (lia || done). Qed.
End PayloadBounds.

(** C23: for every valid usable space [U] and page type, the thresholds are those of the file format:
    at most U-35 bytes of a payload stay on a table page and (U-12)*64/255-23 on an index page, and
    at least (U-12)*32/255-23 of one that spills.  A payload of P bytes spills exactly when it is
    larger than the maximum X; then K = M + (P-M) mod (U-4) bytes stay, or M when K is larger than
    X.  What stays is between M and X and less than the payload; the rest fills its overflow pages
    exactly unless only M is kept; and three index cells of the largest size with their pointers
    always fit a page (fan-out of four). *)
Theorem local_payload_bounds t usable p :
  MIN_USABLE_SPACE <= usable <= PAGE_SIZE_MAX -> 0 <= p ->
  let mx := if PageType_is_table t then usable - 35 else (usable - 12) * 64 / 255 - 23 in
  let mn := (usable - 12) * 32 / 255 - 23 in
  let k := mn + (p - mn) mod (usable - 4) in
  payload_overflow_threshold_max t usable = mx /\ payload_overflow_threshold_min t usable = mn /\
  max_local (PayloadLimits_new usable) t = mx /\ min_local (PayloadLimits_new usable) = mn /\
  0 < mn < mx /\ mx <= usable - 35 /\
  (PageType_is_table t = false -> 12 + 3 * (2 + 4 + 9 + mx + 4) <= usable) /\
  match payload_overflows p mx mn usable with
  | None => p <= mx
  | Some local =>
      mx < p /\ local - 4 = (if k <=? mx then k else mn) /\ mn <= local - 4 <= mx /\
      ((p - (local - 4)) mod (usable - 4) = 0 \/ mx < k)
  end.
Proof.
  intros Hu Hp mx mn k. pose proof (threshold_bounds usable Hu t) as Hb.
  assert (payload_overflow_threshold_max t usable = mx) as Hmx by by destruct t.
  assert (payload_overflow_threshold_min t usable = mn) as Hmn by done. rewrite Hmx, Hmn in Hb.
  split; [done|]. split; [done|]. split; [by destruct t|]. split; [done|]. split; [lia|]. split; [lia|]. split.
  - subst mx mn. unfold MIN_USABLE_SPACE, PAGE_SIZE_MAX in *.
    destruct t; intros [=]; simpl; Z.to_euclidean_division_equations; lia.
  - destruct (payload_overflows p mx mn usable) as [local|] eqn:E; rewrite <- Hmx, <- Hmn in E.
    + destruct (payload_overflows_Some usable Hu t p local Hp E) as (? & ? & ? & ?). rewrite Hmx, Hmn in *. split_and!; (done || lia).
    + rewrite <- Hmx. by apply (payload_overflows_None usable t p).
Qed.

Lemma local_payload_bounds_witness :
  payload_overflows 10000 (payload_overflow_threshold_max TableLeaf 4096)
    (payload_overflow_threshold_min TableLeaf 4096) 4096 = Some (1816 + 4) /\
  (10000 - 1816) mod 4092 = 0.
Proof.
  assert (H : MIN_USABLE_SPACE <= 4096 <= PAGE_SIZE_MAX) by (vm_compute; intuition discriminate).
  pose proof (local_payload_bounds TableLeaf 4096 10000 H ltac:(lia)) as Hb.
  split; [reflexivity|]. vm_compute in Hb. decompose [and] Hb. vm_compute. intuition discriminate.
Defined.
