(* ===== verification/Intervals.v ===== *)
(** * Disjoint intervals of a page

    Cells and freeblocks are half-open byte ranges [(start, length)] of the
    content area.  This file has the interval arithmetic the page invariants
    rest on: pairwise disjointness up to permutation, splitting and shrinking a
    member, and that disjoint intervals inside a range are together no longer
    than the range. *)
From S2P Require Import Prelude.

Definition ivl : Type := Z * Z.

Definition inside (x : Z) (i : ivl) : Prop := i.1 <= x < i.1 + i.2.
Definition within (lo hi : Z) (i : ivl) : Prop := lo <= i.1 /\ i.1 + i.2 <= hi.
Definition apart (i j : ivl) : Prop := i.1 + i.2 <= j.1 \/ j.1 + j.2 <= i.1.

Fixpoint disjoint_all (l : list ivl) : Prop :=
  match l with
  | [] => True
  | i :: l => Forall (apart i) l /\ disjoint_all l
  end.

Definition total (l : list ivl) : Z := foldr (fun i n => i.2 + n) 0 l.

Lemma apart_sym i j : apart i j -> apart j i.
Proof. unfold apart. lia. Qed.

Lemma total_app l k : total (l ++ k) = total l + total k.
Proof. induction l as [|i l IH]; simpl; [done|]. lia. Qed.

Lemma total_cons i l : total (i :: l) = i.2 + total l.
Proof. done. Qed.

Lemma total_nonneg l : Forall (fun i => 0 <= i.2) l -> 0 <= total l.
Proof. induction 1; simpl; lia. Qed.

#[export] Instance total_perm : Proper (Permutation ==> eq) total.
Proof. induction 1; simpl; lia. Qed.

Lemma disjoint_all_app l k :
  disjoint_all (l ++ k) <->
  disjoint_all l /\ disjoint_all k /\ Forall (fun i => Forall (apart i) k) l.
Proof.
  induction l as [|i l IH]; simpl.
  - split; [|tauto]. intros H. split_and!; [done|done|constructor].
  - rewrite Forall_app, IH, Forall_cons_iff. tauto.
Qed.

#[export] Instance disjoint_all_perm : Proper (Permutation ==> iff) disjoint_all.
Proof.
  assert (forall l k, l ≡ₚ k -> disjoint_all l -> disjoint_all k) as H.
  { induction 1 as [|i l k Hp IH|i j l|]; simpl; [done|..].
    - intros [H1 H2]. split; [by rewrite <- Hp|auto].
    - rewrite !Forall_cons_iff. pose proof (apart_sym i j). pose proof (apart_sym j i). tauto.
    - auto. }
  intros l k Hp. split; apply H; [done|by symmetry].
Qed.

Lemma disjoint_all_cons_perm i l k :
  disjoint_all (l ++ i :: k) <-> Forall (apart i) (l ++ k) /\ disjoint_all (l ++ k).
Proof. by rewrite <- Permutation_middle. Qed.

Lemma Forall_apart_sub i i' l :
  i.1 <= i'.1 -> i'.1 + i'.2 <= i.1 + i.2 -> Forall (apart i) l -> Forall (apart i') l.
Proof. intros H1 H2. apply Forall_impl. unfold apart. lia. Qed.

(** ** The measure of disjoint intervals *)
Definition hit (i : ivl) (x : Z) : Z := if (i.1 <=? x) && (x <? i.1 + i.2) then 1 else 0.
Definition sum_over (f : Z -> Z) (lo : Z) (n : nat) : Z :=
  foldr (fun k s => f (lo + Z.of_nat k) + s) 0 (seq 0 n).

Lemma sum_over_S f lo n : sum_over f lo (S n) = sum_over f lo n + f (lo + Z.of_nat n).
Proof.
  unfold sum_over. rewrite seq_S, foldr_app. simpl.
  generalize (seq 0 n) as l. induction l; simpl; lia.
Qed.

Lemma sum_over_hit i lo n :
  0 <= i.2 ->
  sum_over (hit i) lo n =
    Z.max 0 (Z.min (i.1 + i.2) (lo + Z.of_nat n) - Z.max i.1 lo).
Proof.
  intros Hi. induction n as [|n IH]; [cbn; lia|].
  rewrite sum_over_S, IH. unfold hit.
  destruct (Z.leb_spec i.1 (lo + Z.of_nat n)), (Z.ltb_spec (lo + Z.of_nat n) (i.1 + i.2));
    simpl; lia.
Qed.

Lemma sum_over_add f g lo n :
  sum_over (fun x => f x + g x) lo n = sum_over f lo n + sum_over g lo n.
Proof. induction n as [|n IH]; [done|]. rewrite !sum_over_S. lia. Qed.

Lemma sum_over_le f lo n : (forall x, f x <= 1) -> sum_over f lo n <= Z.of_nat n.
Proof.
  intros H. induction n as [|n IH]; [done|]. rewrite sum_over_S.
  specialize (H (lo + Z.of_nat n)). lia.
Qed.

Lemma sum_over_0 lo n : sum_over (fun _ => 0) lo n = 0.
Proof. induction n as [|n IH]; [done|]. rewrite sum_over_S. lia. Qed.

Definition hits (l : list ivl) (x : Z) : Z := foldr (fun i s => hit i x + s) 0 l.

Lemma hit_apart i j x : apart i j -> hit i x = 1 -> hit j x = 0.
Proof.
  unfold apart, hit. destruct (Z.leb_spec i.1 x), (Z.ltb_spec x (i.1 + i.2)); simpl; try lia.
  destruct (Z.leb_spec j.1 x), (Z.ltb_spec x (j.1 + j.2)); simpl; lia.
Qed.

Lemma hit_01 i x : hit i x = 0 \/ hit i x = 1.
Proof. unfold hit. destruct (_ && _); auto. Qed.

Lemma hits_apart i l x : Forall (apart i) l -> hit i x = 1 -> hits l x = 0.
Proof.
  induction 1 as [|j l Hj _ IH]; simpl; [done|]. intros Hi.
  rewrite (hit_apart i j x Hj Hi). auto.
Qed.

Lemma hits_le l x : disjoint_all l -> hits l x <= 1.
Proof.
  induction l as [|i l IH]; simpl; [lia|]. intros [H1 H2].
  destruct (hit_01 i x) as [E|E]; rewrite E; [by apply IH|].
  rewrite (hits_apart i l x H1 E). lia.
Qed.

Lemma total_le l lo hi :
  lo <= hi -> disjoint_all l -> Forall (fun i => within lo hi i /\ 0 <= i.2) l ->
  total l <= hi - lo.
Proof.
  intros Hlo Hd Hw.
  assert (sum_over (hits l) lo (Z.to_nat (hi - lo)) = total l) as <-.
  { clear Hd. induction Hw as [|i l [Hi Hi0] _ IH]; [apply sum_over_0|]. simpl.
    change (hits (i :: l)) with (fun x => hit i x + hits l x).
    rewrite sum_over_add, IH, sum_over_hit by done. unfold within in Hi. lia. }
  pose proof (sum_over_le (hits l) lo (Z.to_nat (hi - lo)) (fun x => hits_le l x Hd)). lia.
Qed.
