(* ===== verification/Page.v ===== *)
(** * B-tree page buffers ([PageInner] of [src/core/storage/pager.rs])

    A page is its id, its byte buffer and its pending overflow cells.  The
    operations run in a state monad that keeps the buffer also on an error or a
    panic, as the mutated buffer of the code does.  Arithmetic on [usize] that
    would go below zero panics (the [fastdb-production] profile builds with
    overflow checks and debug assertions). *)
From S2P Require Import Prelude Errors Varint OnDisk.

Record OverflowCell := mkOverflowCell { oc_index : Z; oc_payload : list Z }.

Record page := mkPage {
  page_id : Z;
  buf : list Z;
  overflow_cells : list OverflowCell
}.

Definition with_buf (p : page) (b : list Z) : page :=
  mkPage (page_id p) b (overflow_cells p).
Definition with_overflow (p : page) (o : list OverflowCell) : page :=
  mkPage (page_id p) (buf p) o.

(** ** The page monad *)
Definition PM (A : Type) : Type := page -> result A * page.

#[export] Instance PM_ret : MRet PM := fun _ a p => (Ok a, p).
#[export] Instance PM_bind : MBind PM :=
  fun _ _ k m p =>
    match m p with
    | (Ok a, p') => k a p'
    | (Err e, p') => (Err e, p')
    | (Panic, p') => (Panic, p')
    end.

Definition lift {A} (r : result A) : PM A := fun p => (r, p).
Definition gets {A} (f : page -> result A) : PM A := fun p => (f p, p).
Definition panic {A} : PM A := fun p => (Panic, p).
Definition corrupt {A} : PM A := fun p => (Err Corrupt, p).
Definition corrupt_if (b : bool) : PM () := if b then corrupt else mret ().
Definition passert (b : bool) : PM () := if b then mret () else panic.

(** [a - b] on [usize], and [x.try_into().unwrap_or_else(panic)] to [u16]. *)
Definition usub (a b : Z) : PM Z := if b <=? a then mret (a - b) else panic.
Definition to_u16 (x : Z) : PM Z := if x <? 65536 then mret x else panic.

Fixpoint for_each {A} (f : A -> PM ()) (l : list A) : PM () :=
  match l with
  | [] => mret ()
  | x :: l => f x ;; for_each f l
  end.

(** ** Offsets of the B-tree page header *)
Definition BTREE_PAGE_TYPE : Z := 0.
Definition BTREE_FIRST_FREEBLOCK : Z := 1.
Definition BTREE_CELL_COUNT : Z := 3.
Definition BTREE_CELL_CONTENT_AREA : Z := 5.
Definition BTREE_FRAGMENTED_BYTES_COUNT : Z := 7.
Definition BTREE_RIGHTMOST_PTR : Z := 8.

Definition MINIMUM_CELL_SIZE : Z := 4.
Definition CELL_PTR_SIZE_BYTES : Z := 2.
Definition INTERIOR_PAGE_HEADER_SIZE_BYTES : Z := 12.
Definition LEAF_PAGE_HEADER_SIZE_BYTES : Z := 8.

Definition header_offset_of (id : Z) : Z := if id =? 1 then DATABASE_HEADER_SIZE else 0.

Definition offset (p : page) : Z := header_offset_of (page_id p).

Definition set_id (p : page) (id : Z) : page := mkPage id (buf p) (overflow_cells p).

(** ** Byte accessors *)
Definition read_be (n : nat) (pos : Z) : PM Z := fun p =>
  (b ← or_panic (zslice (buf p) pos (pos + Z.of_nat n)); mret (be_decode b), p).

Definition write_bytes (pos : Z) (v : list Z) : PM () := fun p =>
  match zput (buf p) pos v with
  | Some b => (Ok (), with_buf p b)
  | None => (Panic, p)
  end.

Definition read_u8 (pos : Z) : PM Z := fun p =>
  (or_panic (zget (buf p) (offset p + pos)), p).
Definition read_u16 (pos : Z) : PM Z := fun p => read_be 2 (offset p + pos) p.
Definition read_u32 (pos : Z) : PM Z := fun p => read_be 4 (offset p + pos) p.
Definition write_u8 (pos value : Z) : PM () := fun p =>
  write_bytes (offset p + pos) [value] p.
Definition write_u16 (pos value : Z) : PM () := fun p =>
  write_bytes (offset p + pos) (be_encode 2 value) p.
Definition write_u32 (pos value : Z) : PM () := fun p =>
  write_bytes (offset p + pos) (be_encode 4 value) p.

Definition page_type : PM PageType := b ← read_u8 BTREE_PAGE_TYPE; lift (PageType_try_from b).

Definition read_u16_no_offset (pos : Z) : PM Z := read_be 2 pos.
Definition read_u32_no_offset (pos : Z) : PM Z := read_be 4 pos.
Definition write_u16_no_offset (pos value : Z) : PM () := write_bytes pos (be_encode 2 value).
Definition write_u32_no_offset (pos value : Z) : PM () := write_bytes pos (be_encode 4 value).

Definition write_page_type (value : Z) : PM () := write_u8 BTREE_PAGE_TYPE value.
Definition write_rightmost_ptr (value : Z) : PM () := write_u32 BTREE_RIGHTMOST_PTR value.
Definition write_first_freeblock (value : Z) : PM () := write_u16 BTREE_FIRST_FREEBLOCK value.
Definition write_freeblock_size (offset size : Z) : PM () :=
  write_u16_no_offset (offset + 2) size.
Definition write_freeblock_next_ptr (offset next_block : Z) : PM () :=
  write_u16_no_offset offset next_block.
Definition write_freeblock (offset size : Z) (next_block : option Z) : PM () :=
  write_freeblock_next_ptr offset (default 0 next_block) ;;
  write_freeblock_size offset size.
Definition read_freeblock (offset : Z) : PM (Z * Z) :=
  next ← read_u16_no_offset offset;
  size ← read_u16_no_offset (offset + 2);
  mret (next, size).
Definition write_cell_count (value : Z) : PM () := write_u16 BTREE_CELL_COUNT value.
Definition write_cell_content_area (value : Z) : PM () :=
  passert (value <=? PAGE_SIZE_MAX) ;;
  write_u16 BTREE_CELL_CONTENT_AREA (wrap 16 value).
Definition write_fragmented_bytes_count (value : Z) : PM () :=
  write_u8 BTREE_FRAGMENTED_BYTES_COUNT value.

Definition first_freeblock : PM Z := read_u16 BTREE_FIRST_FREEBLOCK.
Definition cell_count : PM Z := read_u16 BTREE_CELL_COUNT.
Definition cell_content_area : PM Z :=
  offset ← read_u16 BTREE_CELL_CONTENT_AREA;
  mret (if offset =? 0 then PAGE_SIZE_MAX else offset).
Definition header_size_of (type_byte : Z) : Z :=
  if type_byte <=? PageType_as_u8 TableInterior
  then INTERIOR_PAGE_HEADER_SIZE_BYTES else LEAF_PAGE_HEADER_SIZE_BYTES.
Definition header_size : PM Z := b ← read_u8 BTREE_PAGE_TYPE; mret (header_size_of b).
Definition num_frag_free_bytes : PM Z := read_u8 BTREE_FRAGMENTED_BYTES_COUNT.

Definition cell_pointer_array_size : PM Z :=
  n ← cell_count; mret (n * CELL_PTR_SIZE_BYTES).
Definition cell_pointer_array_offset : PM Z := fun p =>
  (h ← header_size; mret (offset p + h)) p.
Definition cell_pointer_array_offset_and_size : PM (Z * Z) :=
  o ← cell_pointer_array_offset; s ← cell_pointer_array_size; mret (o, s).
Definition unallocated_region_start : PM Z :=
  os ← cell_pointer_array_offset_and_size; mret (os.1 + os.2).
Definition unallocated_region_size : PM Z :=
  a ← cell_content_area; b ← unallocated_region_start; usub a b.

Record BtreeFreeSpaceFields := mkFields {
  f_header_size : Z;
  f_cell_count : Z;
  f_first_freeblock : Z;
  f_cell_content_area : Z;
  f_num_frag_free_bytes : Z
}.

(** One bounds check for the eight bytes of the leaf header. *)
Definition btree_free_space_fields : PM BtreeFreeSpaceFields := fun p =>
  (window ← or_panic (zslice (buf p) (offset p) (offset p + LEAF_PAGE_HEADER_SIZE_BYTES));
   let cca := be_at 2 window BTREE_CELL_CONTENT_AREA in
   mret {| f_header_size := header_size_of (rd window BTREE_PAGE_TYPE);
           f_cell_count := be_at 2 window BTREE_CELL_COUNT;
           f_first_freeblock := be_at 2 window BTREE_FIRST_FREEBLOCK;
           f_cell_content_area := if cca =? 0 then PAGE_SIZE_MAX else cca;
           f_num_frag_free_bytes := rd window BTREE_FRAGMENTED_BYTES_COUNT |}, p).

Definition rightmost_pointer : PM (option Z) :=
  t ← page_type;
  match t with
  | IndexInterior | TableInterior => r ← read_u32 BTREE_RIGHTMOST_PTR; mret (Some r)
  | IndexLeaf | TableLeaf => mret None
  end.

(** ** Weakest preconditions

    [wp E m Q p]: from page [p], [m] returns a value and a page that satisfy
    [Q], never panics, and returns an error only if [E] holds.  With [E := False]
    this is total correctness; with [E := True] it is the absence of panics. *)
Definition wp {A} (E : Prop) (m : PM A) (Q : A -> page -> Prop) (p : page) : Prop :=
  match m p with
  | (Ok a, p') => Q a p'
  | (Err _, _) => E
  | (Panic, _) => False
  end.

Section WpRules.
Context {A B : Type} (E : Prop).
Implicit Types (p : page).

Lemma wp_ret (a : A) Q p : Q a p -> wp E (mret a) Q p.
Proof. done. Qed.

Lemma wp_bind (m : PM A) (k : A -> PM B) Q p :
  wp E m (fun a => wp E (k a) Q) p -> wp E (m ≫= k) Q p.
Proof. unfold wp, mbind, PM_bind. by destruct (m p) as [[a|e|] p']. Qed.

Lemma wp_mono (m : PM A) (Q Q' : A -> page -> Prop) p :
  wp E m Q p -> (forall a p', Q a p' -> Q' a p') -> wp E m Q' p.
Proof. unfold wp. destruct (m p) as [[a|e|] p']; auto. Qed.

Lemma wp_panic_free (m : PM A) Q p : wp E m Q p -> (m p).1 <> Panic.
Proof. unfold wp. by destruct (m p) as [[]]. Qed.

Lemma wp_lift (r : result A) Q p a : r = Ok a -> Q a p -> wp E (lift r) Q p.
Proof. by intros ->. Qed.

Lemma wp_corrupt (Q : A -> page -> Prop) p : E -> wp E corrupt Q p.
Proof. done. Qed.

Lemma wp_if (b : bool) (m1 m2 : PM A) Q p :
  (b = true -> wp E m1 Q p) -> (b = false -> wp E m2 Q p) ->
  wp E (if b then m1 else m2) Q p.
Proof. destruct b; auto. Qed.
End WpRules.

Section WpOps.
Context (E : Prop).
Implicit Types (p : page).

Lemma wp_corrupt_if b Q p :
  (b = true -> E) -> (b = false -> Q () p) -> wp E (corrupt_if b) Q p.
Proof. destruct b; [intros H _; exact (H eq_refl)|intros _ H; exact (H eq_refl)]. Qed.

Lemma wp_passert b Q p : b = true -> Q () p -> wp E (passert b) Q p.
Proof. by intros ->. Qed.

Lemma wp_usub a b Q p : b <= a -> Q (a - b) p -> wp E (usub a b) Q p.
Proof. intros H HQ. unfold usub. by rewrite (proj2 (Z.leb_le b a) H). Qed.

Lemma wp_to_u16 x Q p : x < 65536 -> Q x p -> wp E (to_u16 x) Q p.
Proof. intros H HQ. unfold to_u16. by rewrite (proj2 (Z.ltb_lt x 65536) H). Qed.

Lemma wp_read_be n pos Q p :
  0 <= pos -> pos + Z.of_nat n <= zlen (buf p) ->
  Q (be_at n (buf p) pos) p -> wp E (read_be n pos) Q p.
Proof.
  intros H1 H2 HQ. unfold wp, read_be. rewrite zslice_Some by lia.
  simpl. replace (pos + Z.of_nat n - pos) with (Z.of_nat n) by lia. exact HQ.
Qed.

Lemma wp_write_bytes pos v Q p :
  0 <= pos -> pos + zlen v <= zlen (buf p) ->
  Q () (with_buf p (splice (buf p) pos v)) -> wp E (write_bytes pos v) Q p.
Proof. intros H1 H2 HQ. unfold wp, write_bytes. by rewrite zput_Some. Qed.
End WpOps.

(** ** Big-endian 16-bit fields, byte by byte *)
Definition u16 (b : list Z) (pos : Z) : Z := 256 * rd b pos + rd b (pos + 1).
Definition u32 (b : list Z) (pos : Z) : Z :=
  2 ^ 24 * rd b pos + 2 ^ 16 * rd b (pos + 1) + 2 ^ 8 * rd b (pos + 2) + rd b (pos + 3).

Lemma rd_ztake_zdrop b pos n i :
  0 <= pos -> 0 <= i < n -> rd (ztake n (zdrop pos b)) i = rd b (pos + i).
Proof.
  intros Hp Hi. unfold rd. rewrite zget_ztake, zget_zdrop by lia.
  by rewrite (proj2 (Z.ltb_lt i n)), (proj2 (Z.ltb_ge i 0)) by lia.
Qed.

Lemma list_2_rd (l : list Z) : zlen l = 2 -> l = [rd l 0; rd l 1].
Proof.
  unfold zlen. destruct l as [|a [|b [|c l]]]; simpl; try lia. done.
Qed.

Lemma list_4_rd (l : list Z) : zlen l = 4 -> l = [rd l 0; rd l 1; rd l 2; rd l 3].
Proof.
  unfold zlen. destruct l as [|a [|b [|c [|d [|e l]]]]]; simpl; try lia. done.
Qed.

Lemma be_decode_2 a b : be_decode [a; b] = 256 * a + b.
Proof. cbn. change (256 ^ zlen [b]) with 256. change (256 ^ zlen []) with 1. lia. Qed.

Lemma be_decode_4 a b c d :
  be_decode [a; b; c; d] = 2 ^ 24 * a + 2 ^ 16 * b + 2 ^ 8 * c + d.
Proof.
  cbn. change (256 ^ zlen [b; c; d]) with (2 ^ 24). change (256 ^ zlen [c; d]) with (2 ^ 16).
  change (256 ^ zlen [d]) with (2 ^ 8). change (256 ^ zlen []) with 1. lia.
Qed.

Lemma be_at_u16 b pos : 0 <= pos -> pos + 2 <= zlen b -> be_at 2 b pos = u16 b pos.
Proof.
  intros H1 H2. unfold be_at, u16.
  rewrite (list_2_rd (ztake _ _)) by (rewrite zlen_ztake, zlen_zdrop; lia).
  rewrite !rd_ztake_zdrop by lia. rewrite Z.add_0_r. apply be_decode_2.
Qed.

Lemma be_at_u32 b pos : 0 <= pos -> pos + 4 <= zlen b -> be_at 4 b pos = u32 b pos.
Proof.
  intros H1 H2. unfold be_at, u32.
  rewrite (list_4_rd (ztake _ _)) by (rewrite zlen_ztake, zlen_zdrop; lia).
  rewrite !rd_ztake_zdrop by lia. rewrite Z.add_0_r. apply be_decode_4.
Qed.

Lemma rd_range b i : bytes_ok b -> 0 <= rd b i < 256.
Proof. intros Hb. exact (rd_byte_ok b i Hb). Qed.

Lemma u16_range b pos : bytes_ok b -> 0 <= u16 b pos < 65536.
Proof.
  intros Hb. unfold u16. pose proof (rd_range b pos Hb).
  pose proof (rd_range b (pos + 1) Hb). lia.
Qed.

(** Buffers that agree on a range of positions. *)
Definition agree (b b' : list Z) (lo hi : Z) : Prop :=
  forall x, lo <= x < hi -> rd b' x = rd b x.

Lemma agree_refl b lo hi : agree b b lo hi.
Proof. done. Qed.

Lemma agree_trans b1 b2 b3 lo hi : agree b1 b2 lo hi -> agree b2 b3 lo hi -> agree b1 b3 lo hi.
Proof. intros H1 H2 x Hx. by rewrite H2, H1. Qed.

Lemma agree_sub b b' lo hi lo' hi' :
  agree b b' lo hi -> lo <= lo' -> hi' <= hi -> agree b b' lo' hi'.
Proof. intros H ?? x Hx. apply H. lia. Qed.

Lemma agree_splice b pos v lo hi :
  0 <= pos -> pos + zlen v <= zlen b -> hi <= pos \/ pos + zlen v <= lo ->
  agree b (splice b pos v) lo hi.
Proof.
  intros H1 H2 H3 x Hx. rewrite rd_splice by done.
  destruct (Z.leb_spec pos x), (Z.ltb_spec x (pos + zlen v)); simpl; (done || lia).
Qed.

Lemma agree_u16 b b' lo hi pos :
  agree b b' lo hi -> lo <= pos -> pos + 2 <= hi -> u16 b' pos = u16 b pos.
Proof. intros H ??. unfold u16. rewrite !H by lia. done. Qed.

Lemma u16_splice_other b pos v q :
  0 <= pos -> pos + zlen v <= zlen b -> q + 2 <= pos \/ pos + zlen v <= q ->
  u16 (splice b pos v) q = u16 b q.
Proof. intros. apply (agree_u16 b _ q (q + 2)); [apply agree_splice|..]; lia. Qed.

Lemma rd_splice_in b pos v q :
  0 <= pos -> pos + zlen v <= zlen b -> pos <= q < pos + zlen v ->
  rd (splice b pos v) q = rd v (q - pos).
Proof.
  intros. rewrite rd_splice by done.
  by rewrite (proj2 (Z.leb_le pos q)), (proj2 (Z.ltb_lt q (pos + zlen v))) by lia.
Qed.

Lemma rd_splice_out b pos v q :
  0 <= pos -> pos + zlen v <= zlen b -> q < pos \/ pos + zlen v <= q ->
  rd (splice b pos v) q = rd b q.
Proof. intros. apply (agree_splice b pos v q (q + 1)); lia. Qed.

Lemma be_encode_2 v : be_encode 2 v = [(v / 256) mod 256; v mod 256].
Proof. simpl. by rewrite ?Z.div_1_r. Qed.

Lemma u16_splice_same b pos v :
  0 <= pos -> pos + 2 <= zlen b -> 0 <= v < 65536 ->
  u16 (splice b pos (be_encode 2 v)) pos = v.
Proof.
  intros H1 H2 Hv. unfold u16. rewrite !rd_splice_in by (rewrite ?zlen_be_encode; lia).
  rewrite be_encode_2. replace (pos - pos) with 0 by lia. replace (pos + 1 - pos) with 1 by lia.
  cbn [rd zget]. change (256 * ((v / 256) mod 256) + v mod 256 = v).
  rewrite (Z.mod_small (v / 256)) by (Z.to_euclidean_division_equations; lia).
  pose proof (Z.div_mod v 256). lia.
Qed.

(** ** Pages of a given usable space, and their header fields as values *)
Record sized (p : page) (u : Z) : Prop := mkSized {
  sized_bytes : bytes_ok (buf p);
  sized_len : u <= zlen (buf p);
  sized_usable : MIN_USABLE_SPACE <= u <= PAGE_SIZE_MAX
}.

Lemma offset_range p : offset p = 0 \/ offset p = 100.
Proof. unfold offset, header_offset_of, DATABASE_HEADER_SIZE. destruct (_ =? _); auto. Qed.

Definition h_type (p : page) : Z := rd (buf p) (offset p).
Definition h_fb (p : page) : Z := u16 (buf p) (offset p + 1).
Definition h_ncell (p : page) : Z := u16 (buf p) (offset p + 3).
Definition h_cca (p : page) : Z :=
  let c := u16 (buf p) (offset p + 5) in if c =? 0 then PAGE_SIZE_MAX else c.
Definition h_frag (p : page) : Z := rd (buf p) (offset p + 7).
Definition h_ptrs (p : page) : Z := offset p + header_size_of (h_type p).
Definition h_first_cell (p : page) : Z := h_ptrs p + 2 * h_ncell p.

(** The writers as total functions. *)
Definition set_u16 (p : page) (pos v : Z) : page :=
  with_buf p (splice (buf p) pos (be_encode 2 v)).
Definition set_fb (p : page) (v : Z) : page := set_u16 p (offset p + 1) v.
Definition set_ncell (p : page) (v : Z) : page := set_u16 p (offset p + 3) v.
Definition set_cca (p : page) (v : Z) : page := set_u16 p (offset p + 5) (wrap 16 v).
Definition set_frag (p : page) (v : Z) : page :=
  with_buf p (splice (buf p) (offset p + 7) [v]).

Section Accessors.
Context (E : Prop) (u : Z).
Implicit Types (p : page).

Lemma sized_bounds p : sized p u -> 480 <= u <= 65536 /\ u <= zlen (buf p).
Proof. intros [_ H1 H2]. unfold MIN_USABLE_SPACE, PAGE_SIZE_MAX in H2. lia. Qed.

Lemma header_size_of_range b : 8 <= header_size_of b <= 12.
Proof.
  unfold header_size_of, INTERIOR_PAGE_HEADER_SIZE_BYTES, LEAF_PAGE_HEADER_SIZE_BYTES.
  destruct (_ <=? _); lia.
Qed.

Ltac acc_start p H :=
  pose proof (sized_bounds p H); pose proof (offset_range p).

Lemma wp_read_u16_at pos Q p :
  0 <= pos -> pos + 2 <= zlen (buf p) -> Q (u16 (buf p) pos) p ->
  wp E (read_u16_no_offset pos) Q p.
Proof. intros ?? HQ. apply wp_read_be; [lia..|]. by rewrite be_at_u16. Qed.

Lemma wp_write_u16_at pos v Q p :
  0 <= pos -> pos + 2 <= zlen (buf p) -> Q () (set_u16 p pos v) ->
  wp E (write_u16_no_offset pos v) Q p.
Proof. intros ?? HQ. apply wp_write_bytes; rewrite ?zlen_be_encode; (lia || exact HQ). Qed.

Lemma wp_first_freeblock Q p : sized p u -> Q (h_fb p) p -> wp E first_freeblock Q p.
Proof.
  intros H HQ. acc_start p H. unfold first_freeblock, read_u16, BTREE_FIRST_FREEBLOCK.
  apply wp_read_u16_at; (lia || done).
Qed.

Lemma wp_cell_count Q p : sized p u -> Q (h_ncell p) p -> wp E cell_count Q p.
Proof.
  intros H HQ. acc_start p H. unfold cell_count, read_u16, BTREE_CELL_COUNT.
  apply wp_read_u16_at; (lia || done).
Qed.

Lemma wp_cell_content_area Q p : sized p u -> Q (h_cca p) p -> wp E cell_content_area Q p.
Proof.
  intros H HQ. acc_start p H. unfold cell_content_area, read_u16, BTREE_CELL_CONTENT_AREA.
  apply wp_bind, wp_read_u16_at; [lia..|]. exact HQ.
Qed.

Lemma wp_num_frag Q p : sized p u -> Q (h_frag p) p -> wp E num_frag_free_bytes Q p.
Proof.
  intros H HQ. acc_start p H. unfold wp, num_frag_free_bytes, read_u8,
    BTREE_FRAGMENTED_BYTES_COUNT. rewrite zget_rd by lia. exact HQ.
Qed.

Lemma wp_header_size Q p :
  sized p u -> Q (header_size_of (h_type p)) p -> wp E header_size Q p.
Proof.
  intros H HQ. acc_start p H. unfold wp, header_size, mbind, PM_bind, read_u8, BTREE_PAGE_TYPE.
  rewrite Z.add_0_r, zget_rd by lia. exact HQ.
Qed.

Lemma wp_page_type t Q p :
  sized p u -> PageType_try_from (h_type p) = Ok t -> Q t p -> wp E page_type Q p.
Proof.
  intros H Ht HQ. acc_start p H. unfold wp, page_type, mbind, PM_bind, read_u8, BTREE_PAGE_TYPE.
  rewrite Z.add_0_r, zget_rd by lia. simpl. unfold lift. fold (h_type p). by rewrite Ht.
Qed.

Lemma wp_ptrs Q p : sized p u -> Q (h_ptrs p) p -> wp E cell_pointer_array_offset Q p.
Proof.
  intros H HQ. unfold cell_pointer_array_offset, wp.
  apply wp_bind, wp_header_size; done.
Qed.

Lemma wp_ptrs_and_size Q p :
  sized p u -> Q (h_ptrs p, h_ncell p * 2) p ->
  wp E cell_pointer_array_offset_and_size Q p.
Proof.
  intros H HQ. unfold cell_pointer_array_offset_and_size, cell_pointer_array_size.
  apply wp_bind, wp_ptrs; [done|]. apply wp_bind, wp_bind, wp_cell_count; [done|]. exact HQ.
Qed.

Lemma wp_unallocated_region_start Q p :
  sized p u -> Q (h_first_cell p) p -> wp E unallocated_region_start Q p.
Proof.
  intros H HQ. apply wp_bind, wp_ptrs_and_size; [done|]. apply wp_ret. simpl.
  unfold h_first_cell in HQ. by replace (h_ptrs p + h_ncell p * 2)
    with (h_ptrs p + 2 * h_ncell p) by lia.
Qed.

Lemma wp_fields Q p :
  sized p u ->
  Q (mkFields (header_size_of (h_type p)) (h_ncell p) (h_fb p) (h_cca p) (h_frag p)) p ->
  wp E btree_free_space_fields Q p.
Proof.
  intros H HQ. acc_start p H.
  unfold wp, btree_free_space_fields, LEAF_PAGE_HEADER_SIZE_BYTES.
  rewrite zslice_Some by lia. replace (offset p + 8 - offset p) with 8 by lia.
  cbn -[be_at rd]. unfold BTREE_PAGE_TYPE, BTREE_FIRST_FREEBLOCK, BTREE_CELL_COUNT,
    BTREE_CELL_CONTENT_AREA, BTREE_FRAGMENTED_BYTES_COUNT.
  rewrite !be_at_u16 by (rewrite ?zlen_ztake, ?zlen_zdrop; lia).
  unfold h_fb, h_ncell, h_cca, h_frag, h_type, u16 in *.
  rewrite !rd_ztake_zdrop by lia. rewrite Z.add_0_r, !Z.add_assoc. exact HQ.
Qed.

Lemma wp_write_first_freeblock v Q p :
  sized p u -> Q () (set_fb p v) -> wp E (write_first_freeblock v) Q p.
Proof.
  intros H HQ. acc_start p H. unfold write_first_freeblock, write_u16, BTREE_FIRST_FREEBLOCK.
  apply wp_write_u16_at; (lia || done).
Qed.

Lemma wp_write_cell_count v Q p :
  sized p u -> Q () (set_ncell p v) -> wp E (write_cell_count v) Q p.
Proof.
  intros H HQ. acc_start p H. unfold write_cell_count, write_u16, BTREE_CELL_COUNT.
  apply wp_write_u16_at; (lia || done).
Qed.

Lemma wp_write_cell_content_area v Q p :
  sized p u -> v <= 65536 -> Q () (set_cca p v) -> wp E (write_cell_content_area v) Q p.
Proof.
  intros H Hv HQ. acc_start p H. unfold write_cell_content_area, write_u16,
    BTREE_CELL_CONTENT_AREA.
  apply wp_bind, wp_passert; [by apply Z.leb_le|].
  apply wp_write_u16_at; (lia || done).
Qed.

Lemma wp_write_frag v Q p :
  sized p u -> Q () (set_frag p v) -> wp E (write_fragmented_bytes_count v) Q p.
Proof.
  intros H HQ. acc_start p H. unfold write_fragmented_bytes_count, write_u8,
    BTREE_FRAGMENTED_BYTES_COUNT.
  apply wp_write_bytes; rewrite ?zlen_cons, ?zlen_nil; (lia || done).
Qed.

Lemma wp_read_freeblock pos Q p :
  0 <= pos -> pos + 4 <= zlen (buf p) ->
  Q (u16 (buf p) pos, u16 (buf p) (pos + 2)) p -> wp E (read_freeblock pos) Q p.
Proof.
  intros ?? HQ. apply wp_bind, wp_read_u16_at; [lia..|].
  apply wp_bind, wp_read_u16_at; [lia..|]. exact HQ.
Qed.

Definition set_block (p : page) (pos size next : Z) : page :=
  set_u16 (set_u16 p pos next) (pos + 2) size.

Lemma zlen_set_u16 p pos v :
  0 <= pos -> pos + 2 <= zlen (buf p) -> zlen (buf (set_u16 p pos v)) = zlen (buf p).
Proof. intros. cbn [buf set_u16 with_buf]. rewrite zlen_splice; rewrite ?zlen_be_encode; lia. Qed.

Lemma wp_write_freeblock pos size next Q p :
  0 <= pos -> pos + 4 <= zlen (buf p) ->
  Q () (set_block p pos size (default 0 next)) -> wp E (write_freeblock pos size next) Q p.
Proof.
  intros ?? HQ. apply wp_bind, wp_write_u16_at; [lia..|].
  apply wp_write_u16_at; rewrite ?zlen_set_u16 by lia; (lia || exact HQ).
Qed.

(** *** What a write changes and what it leaves *)
Lemma sized_with_buf p b :
  bytes_ok b -> zlen b = zlen (buf p) -> sized p u -> sized (with_buf p b) u.
Proof. intros Hb Hl [_ ??]. split; simpl; (done || lia). Qed.

Lemma sized_set_bytes p pos v :
  sized p u -> 0 <= pos -> pos + zlen v <= u -> bytes_ok v ->
  sized (with_buf p (splice (buf p) pos v)) u.
Proof.
  intros H ???. acc_start p H. apply sized_with_buf; [|apply zlen_splice; lia|done].
  apply bytes_ok_splice; [apply H|done].
Qed.

Lemma sized_set_u16 p pos v : sized p u -> 0 <= pos -> pos + 2 <= u -> sized (set_u16 p pos v) u.
Proof.
  intros. apply sized_set_bytes; rewrite ?zlen_be_encode; try done. apply be_encode_ok.
Qed.
Lemma sized_set_fb p v : sized p u -> sized (set_fb p v) u.
Proof. intros H. acc_start p H. apply sized_set_u16; (lia || done). Qed.
Lemma sized_set_ncell p v : sized p u -> sized (set_ncell p v) u.
Proof. intros H. acc_start p H. apply sized_set_u16; (lia || done). Qed.
Lemma sized_set_cca p v : sized p u -> sized (set_cca p v) u.
Proof. intros H. acc_start p H. apply sized_set_u16; (lia || done). Qed.
Lemma sized_set_frag p v : sized p u -> 0 <= v < 256 -> sized (set_frag p v) u.
Proof.
  intros H Hv. acc_start p H. apply sized_set_bytes; rewrite ?zlen_cons, ?zlen_nil; try lia; [done|].
  apply Forall_singleton. exact Hv.
Qed.
Lemma sized_set_block p pos size next :
  sized p u -> 0 <= pos -> pos + 4 <= u -> sized (set_block p pos size next) u.
Proof. intros. repeat apply sized_set_u16; (lia || done). Qed.
End Accessors.

(** ** Updates of a page

    [upd u p p' h W]: page [p'] is [p] after an update that leaves the header
    fields [h] and writes, behind the eight header bytes, only inside [W]. *)
Record hdr := mkHdr {
  hd_type : Z; hd_fb : Z; hd_ncell : Z; hd_cca : Z; hd_frag : Z
}.

Definition hdr_of (p : page) : hdr :=
  mkHdr (h_type p) (h_fb p) (h_ncell p) (h_cca p) (h_frag p).

Definition hd_set_fb (h : hdr) v := mkHdr (hd_type h) v (hd_ncell h) (hd_cca h) (hd_frag h).
Definition hd_set_ncell (h : hdr) v := mkHdr (hd_type h) (hd_fb h) v (hd_cca h) (hd_frag h).
Definition hd_set_cca (h : hdr) v := mkHdr (hd_type h) (hd_fb h) (hd_ncell h) v (hd_frag h).
Definition hd_set_frag (h : hdr) v := mkHdr (hd_type h) (hd_fb h) (hd_ncell h) (hd_cca h) v.

Definition nowhere (x : Z) : Prop := False.
Definition span (lo hi : Z) (x : Z) : Prop := lo <= x < hi.
Definition either (W1 W2 : Z -> Prop) (x : Z) : Prop := W1 x \/ W2 x.

Record upd (u : Z) (p p' : page) (h : hdr) (W : Z -> Prop) : Prop := mkUpd {
  upd_sized : sized p' u;
  upd_id : page_id p' = page_id p;
  upd_ovf : overflow_cells p' = overflow_cells p;
  upd_len : zlen (buf p') = zlen (buf p);
  upd_hdr : hdr_of p' = h;
  upd_frame : forall x, offset p + 8 <= x -> ~ W x -> rd (buf p') x = rd (buf p) x
}.

Lemma upd_offset u p p' h W : upd u p p' h W -> offset p' = offset p.
Proof. intros H. unfold offset. by rewrite (upd_id _ _ _ _ _ H). Qed.

Lemma upd_refl u p : sized p u -> upd u p p (hdr_of p) nowhere.
Proof. by split. Qed.

Lemma upd_trans u p1 p2 p3 h2 h3 W1 W2 :
  upd u p1 p2 h2 W1 -> upd u p2 p3 h3 W2 -> upd u p1 p3 h3 (either W1 W2).
Proof.
  intros H1 H2. pose proof (upd_offset _ _ _ _ _ H1) as Ho.
  destruct H1 as [S1 I1 O1 L1 E1 F1], H2 as [S2 I2 O2 L2 E2 F2]. split; try congruence.
  intros x Hx HW. rewrite F2, F1; [done|lia|..]; [|lia|]; intros ?; apply HW; [left|right]; done.
Qed.

Lemma upd_weaken u p p' h W W' :
  upd u p p' h W -> (forall x, W x -> W' x) -> upd u p p' h W'.
Proof. intros [] HW. split; auto. Qed.

Lemma upd_u16 u p p' h W pos :
  upd u p p' h W -> offset p + 8 <= pos -> ~ W pos -> ~ W (pos + 1) ->
  u16 (buf p') pos = u16 (buf p) pos.
Proof. intros H ???. unfold u16. rewrite !(upd_frame _ _ _ _ _ H) by (done || lia). done. Qed.

Section Updates.
Context (E : Prop) (u : Z).
Implicit Types (p : page) (Q : () -> page -> Prop).

Ltac upd_start p H :=
  pose proof (sized_bounds u p H); pose proof (offset_range p).
Ltac upd_hdr_solve :=
  unfold hdr_of, hd_set_fb, hd_set_ncell, hd_set_cca, hd_set_frag, h_type, h_fb, h_ncell, h_cca,
    h_frag, set_fb, set_ncell, set_cca, set_frag, set_u16, with_buf, offset in *;
  cbn [buf page_id hd_type hd_fb hd_ncell hd_cca hd_frag];
  rewrite ?u16_splice_same, ?u16_splice_other, ?rd_splice_out
    by (rewrite ?zlen_be_encode, ?zlen_cons, ?zlen_nil; lia).

Lemma upd_set_fb p v :
  sized p u -> 0 <= v < 65536 -> upd u p (set_fb p v) (hd_set_fb (hdr_of p) v) nowhere.
Proof.
  intros H Hv. upd_start p H. split; try done.
  - by apply sized_set_fb.
  - apply zlen_set_u16; lia.
  - upd_hdr_solve. done.
  - intros x Hx _. apply rd_splice_out; rewrite ?zlen_be_encode; lia.
Qed.

Lemma upd_set_ncell p v :
  sized p u -> 0 <= v < 65536 -> upd u p (set_ncell p v) (hd_set_ncell (hdr_of p) v) nowhere.
Proof.
  intros H Hv. upd_start p H. split; try done.
  - by apply sized_set_ncell.
  - apply zlen_set_u16; lia.
  - upd_hdr_solve. done.
  - intros x Hx _. apply rd_splice_out; rewrite ?zlen_be_encode; lia.
Qed.

Lemma upd_set_cca p v :
  sized p u -> 0 < v <= 65536 -> upd u p (set_cca p v) (hd_set_cca (hdr_of p) v) nowhere.
Proof.
  intros H Hv. upd_start p H.
  assert (0 <= wrap 16 v < 65536) by (apply (wrap_in_u 16); lia).
  split; try done.
  - by apply sized_set_cca.
  - apply zlen_set_u16; lia.
  - upd_hdr_solve. f_equal. unfold wrap, PAGE_SIZE_MAX. change (2 ^ 16) with 65536.
    destruct (decide (v = 65536)) as [->|]; [done|].
    rewrite Z.mod_small by lia. by rewrite (proj2 (Z.eqb_neq v 0)) by lia.
  - intros x Hx _. apply rd_splice_out; rewrite ?zlen_be_encode; lia.
Qed.

Lemma upd_set_frag p v :
  sized p u -> 0 <= v < 256 -> upd u p (set_frag p v) (hd_set_frag (hdr_of p) v) nowhere.
Proof.
  intros H Hv. upd_start p H. split; try done.
  - by apply sized_set_frag.
  - cbn [buf set_frag with_buf]. rewrite zlen_splice; rewrite ?zlen_cons, ?zlen_nil; lia.
  - upd_hdr_solve. rewrite rd_splice_in by (rewrite ?zlen_cons, ?zlen_nil; lia).
    by rewrite Z.sub_diag.
  - intros x Hx _. apply rd_splice_out; rewrite ?zlen_cons, ?zlen_nil; lia.
Qed.

Lemma upd_set_u16 p pos v :
  sized p u -> offset p + 8 <= pos -> pos + 2 <= u -> 0 <= v < 65536 ->
  upd u p (set_u16 p pos v) (hdr_of p) (span pos (pos + 2)) /\
  u16 (buf (set_u16 p pos v)) pos = v.
Proof.
  intros H Hp Hpu Hv. upd_start p H. split; [split|]; try done.
  - apply sized_set_u16; (lia || done).
  - apply zlen_set_u16; lia.
  - upd_hdr_solve. done.
  - intros x Hx Hs. unfold span in Hs. apply rd_splice_out; rewrite ?zlen_be_encode; lia.
  - apply u16_splice_same; lia.
Qed.

Lemma upd_set_block p pos size next :
  sized p u -> offset p + 8 <= pos -> pos + 4 <= u -> 0 <= size < 65536 -> 0 <= next < 65536 ->
  let p' := set_block p pos size next in
  upd u p p' (hdr_of p) (span pos (pos + 4)) /\
  u16 (buf p') pos = next /\ u16 (buf p') (pos + 2) = size.
Proof.
  intros H Hp Hpu Hs Hn.
  destruct (upd_set_u16 p pos next) as [U1 V1]; try (done || lia).
  pose proof (upd_offset _ _ _ _ _ U1) as Ho.
  destruct (upd_set_u16 (set_u16 p pos next) (pos + 2) size) as [U2 V2];
    try (apply U1 || lia).
  split_and!.
  - rewrite (upd_hdr _ _ _ _ _ U1) in U2.
    eapply upd_weaken; [apply (upd_trans _ _ _ _ _ _ _ _ U1 U2)|].
    unfold either, span. intros x. lia.
  - fold (set_block p pos size next) in *. etransitivity; [|exact V1].
    apply (upd_u16 _ _ _ _ _ _ U2); unfold span; lia.
  - exact V2.
Qed.
End Updates.

(** ** Automation: one step of a page computation *)
Ltac wbeta := cbn beta iota.
Ltac zbool :=
  repeat match goal with
  | H : (_ <? _) = true |- _ => apply Z.ltb_lt in H
  | H : (_ <? _) = false |- _ => apply Z.ltb_ge in H
  | H : (_ <=? _) = true |- _ => apply Z.leb_le in H
  | H : (_ <=? _) = false |- _ => apply Z.leb_gt in H
  | H : (_ =? _) = true |- _ => apply Z.eqb_eq in H
  | H : (_ =? _) = false |- _ => apply Z.eqb_neq in H
  | H : negb _ = true |- _ => apply negb_true_iff in H
  | H : negb _ = false |- _ => apply negb_false_iff in H
  | H : (_ && _) = true |- _ => apply andb_true_iff in H as [? ?]
  end.

Ltac wbind := lazymatch goal with |- wp _ (mbind _ _) _ _ => apply wp_bind end.
Ltac wif := lazymatch goal with |- wp _ (if _ then _ else _) _ _ => apply wp_if; intros ? end.
(** [corrupt_if]: the error branch is discharged, or allowed by [E]. *)
Ltac wcor :=
  first [apply wp_bind|idtac]; apply wp_corrupt_if;
    [intros ?; zbool; first [exact I | exfalso; lia] | intros ?; zbool; wbeta].
Ltac wread u :=
  first [apply wp_bind|idtac];
  lazymatch goal with
  | |- wp _ (read_u16_no_offset _) _ _ => apply wp_read_u16_at; [try lia|try lia|]
  | |- wp _ (read_freeblock _) _ _ => apply wp_read_freeblock; [try lia|try lia|]
  | |- wp _ num_frag_free_bytes _ _ => apply (wp_num_frag _ u); [done|]
  | |- wp _ first_freeblock _ _ => apply (wp_first_freeblock _ u); [done|]
  | |- wp _ cell_content_area _ _ => apply (wp_cell_content_area _ u); [done|]
  | |- wp _ cell_count _ _ => apply (wp_cell_count _ u); [done|]
  | |- wp _ cell_pointer_array_offset _ _ => apply (wp_ptrs _ u); [done|]
  | |- wp _ cell_pointer_array_offset_and_size _ _ => apply (wp_ptrs_and_size _ u); [done|]
  | |- wp _ unallocated_region_start _ _ => apply (wp_unallocated_region_start _ u); [done|]
  | |- wp _ btree_free_space_fields _ _ => apply (wp_fields _ u); [done|]
  | |- wp _ (to_u16 _) _ _ => apply wp_to_u16; [try lia|]
  | |- wp _ (usub _ _) _ _ => apply wp_usub; [try lia|]
  | |- wp _ (passert _) _ _ =>
      apply wp_passert; [try (apply Z.ltb_lt; lia); try (apply Z.leb_le; lia)|]
  end; wbeta.
