(* ===== verification/Cells.v ===== *)
(** * Reading the cells of a B-tree page

    [BTreeCell] and [read_btree_cell] of [src/core/storage/sqlite3_ondisk.rs],
    and the cell accessors of [PageInner] in [src/core/storage/pager.rs]:
    the region of a cell on its page, the optimistic leaf decoder and the
    record-payload reader that bypasses [read_btree_cell]. *)
From S2P Require Import Prelude Errors Varint OnDisk Page.

Inductive BTreeCell :=
| TableInteriorCell (left_child_page rowid : Z)
| TableLeafCell (rowid : Z) (payload : list Z) (payload_size : Z) (first_overflow_page : option Z)
| IndexInteriorCell (left_child_page : Z) (payload : list Z) (payload_size : Z)
    (first_overflow_page : option Z)
| IndexLeafCell (payload : list Z) (payload_size : Z) (first_overflow_page : option Z).

Definition first_overflow_page (c : BTreeCell) : option Z :=
  match c with
  | TableLeafCell _ _ _ o | IndexLeafCell _ _ o | IndexInteriorCell _ _ _ o => o
  | TableInteriorCell _ _ => None
  end.

(** [slice_in_bounds_or_corrupt!(buf, lo..)], [(.., lo..hi)] and
    [assert_or_bail_corrupt!] *)
Definition from_or_corrupt (b : list Z) (lo : Z) : result (list Z) :=
  ok_or (zslice b lo (zlen b)) Corrupt.
Definition assert_or_bail_corrupt (c : bool) : result () :=
  if c then Ok () else Err Corrupt.

(** [u32::from_be_bytes] of four bytes at [pos]; panics out of bounds. *)
Definition be_u32 (b : list Z) (pos : Z) : result Z :=
  w ← or_panic (zslice b pos (pos + 4)); mret (be_decode w).

Definition read_payload (unread : list Z) (payload_size : Z) : result (list Z * option Z) :=
  let cell_len := zlen unread in
  if payload_size <=? cell_len then
    local ← or_panic (zslice unread 0 payload_size);
    Ok (local, None)
  else
    bail_if (cell_len <? 4) Corrupt ;;
    first_overflow_page ← be_u32 unread (cell_len - 4);
    local ← or_panic (zslice unread 0 (cell_len - 4));
    Ok (local, Some first_overflow_page).

(** The shared tail of the three arms that carry a payload: from the position
    after the cell's varints. *)
Definition read_cell_payload (page : list Z) (pos payload_size max_local min_local usable_size : Z)
    : result (list Z * option Z) :=
  to_read ← (match payload_overflows payload_size max_local min_local usable_size with
             | Some local_size => Ok local_size
             | None => if pos <=? zlen page then Ok (zlen page - pos) else Panic
             end);
  assert_or_bail_corrupt (pos + to_read <=? zlen page) ;;
  unread ← or_panic (zslice page pos (pos + to_read));
  read_payload unread payload_size.

Definition read_btree_cell (page : list Z) (page_type : PageType) (pos usable_size : Z)
    : result BTreeCell :=
  let max_local := payload_overflow_threshold_max page_type usable_size in
  let min_local := payload_overflow_threshold_min page_type usable_size in
  match page_type with
  | IndexInterior =>
      assert_or_bail_corrupt (pos + 4 <=? zlen page) ;;
      left_child_page ← be_u32 page pos;
      let pos := pos + 4 in
      s ← from_or_corrupt page pos;
      '(payload_size, nr) ← read_varint s;
      let pos := pos + nr in
      '(payload, first_overflow_page) ←
        read_cell_payload page pos payload_size max_local min_local usable_size;
      Ok (IndexInteriorCell left_child_page payload payload_size first_overflow_page)
  | TableInterior =>
      assert_or_bail_corrupt (pos + 4 <=? zlen page) ;;
      left_child_page ← be_u32 page pos;
      let pos := pos + 4 in
      s ← from_or_corrupt page pos;
      '(rowid, _) ← read_varint s;
      Ok (TableInteriorCell left_child_page (as_signed 64 rowid))
  | IndexLeaf =>
      s ← from_or_corrupt page pos;
      '(payload_size, nr) ← read_varint s;
      let pos := pos + nr in
      '(payload, first_overflow_page) ←
        read_cell_payload page pos payload_size max_local min_local usable_size;
      Ok (IndexLeafCell payload payload_size first_overflow_page)
  | TableLeaf =>
      s ← from_or_corrupt page pos;
      '(payload_size, nr) ← read_varint s;
      let pos := pos + nr in
      s ← from_or_corrupt page pos;
      '(rowid, nr) ← read_varint s;
      let pos := pos + nr in
      '(payload, first_overflow_page) ←
        read_cell_payload page pos payload_size max_local min_local usable_size;
      Ok (TableLeafCell (as_signed 64 rowid) payload payload_size first_overflow_page)
  end.

(** ** Cell accessors of [PageInner] *)
Definition get_buf : PM (list Z) := fun p => (Ok (buf p), p).
Definition get_offset : PM Z := fun p => (Ok (offset p), p).

Definition cell_get (idx usable_size : Z) : PM BTreeCell :=
  b ← get_buf;
  ncells ← cell_count;
  passert (idx <? ncells) ;;
  cell_pointer_array_start ← header_size;
  cell_pointer ← read_u16 (cell_pointer_array_start + idx * CELL_PTR_SIZE_BYTES);
  t ← page_type;
  lift (read_btree_cell b t cell_pointer usable_size).

(** [turso_debug_assert!(matches!(self.page_type(), ..))] *)
Definition assert_page_type (ok : PageType -> bool) : PM () := fun p =>
  match page_type p with
  | (Ok t, p') => passert (ok t) p'
  | (_, p') => (Panic, p')
  end.

Definition cell_table_interior_read_rowid (idx : Z) : PM Z :=
  assert_page_type (fun t => bool_decide (t = TableInterior)) ;;
  b ← get_buf;
  cell_pointer_array_start ← header_size;
  cell_pointer ← read_u16 (cell_pointer_array_start + idx * CELL_PTR_SIZE_BYTES);
  lift (s ← from_or_corrupt b (cell_pointer + 4);
        '(rowid, _) ← read_varint s;
        Ok (as_signed 64 rowid)).

Definition cell_interior_read_left_child_page (idx : Z) : PM Z :=
  assert_page_type (fun t => bool_decide (t = TableInterior \/ t = IndexInterior)) ;;
  b ← get_buf;
  cell_pointer_array_start ← header_size;
  cell_pointer ← read_u16 (cell_pointer_array_start + idx * CELL_PTR_SIZE_BYTES);
  lift (assert_or_bail_corrupt (cell_pointer + 4 <=? zlen b) ;; be_u32 b cell_pointer).

Definition payload_on_page (b : list Z) (start size : Z) : option (list Z) :=
  zslice b start (start + size).

(** The optimistic decoder: [None] for interior pages, overflowing cells and
    corrupt cells. *)
Definition res_ok {E A} (r : res E A) : option A :=
  match r with Ok a => Some a | _ => None end.

Definition decode_leaf_cell_without_overflow (p : page) (cell_index : Z) (limits : PayloadLimits)
    : option (list Z * Z) :=
  let b := buf p in
  let header := offset p in
  page_type ← zget b (header + BTREE_PAGE_TYPE);
  let is_table := page_type =? PageType_as_u8 TableLeaf in
  if negb is_table && negb (page_type =? PageType_as_u8 IndexLeaf) then None
  else
    let cell_pointer := header + LEAF_PAGE_HEADER_SIZE_BYTES + cell_index * CELL_PTR_SIZE_BYTES in
    cell_offset ← be_decode <$> zslice b cell_pointer (cell_pointer + CELL_PTR_SIZE_BYTES);
    s ← zslice b cell_offset (zlen b);
    '(size, len) ← res_ok (read_varint s);
    let start := cell_offset + len in
    start ← (if is_table then
               s ← zslice b start (zlen b);
               n ← res_ok (read_varint_len s);
               Some (start + n)
             else Some start);
    let max_local := if is_table then max_local_table limits else max_local_index limits in
    if max_local <? size then None
    else
      payload ← zslice b start (start + size);
      Some (payload, start).

Record TableLeafCellHeader := mkTableLeafCellHeader {
  tlh_rowid : Z; tlh_payload_start : Z; tlh_payload_size : Z
}.

Definition cell_table_leaf_read_header (idx : Z) : PM TableLeafCellHeader :=
  assert_page_type (fun t => bool_decide (t = TableLeaf)) ;;
  b ← get_buf;
  o ← get_offset;
  let pointer_slot := o + LEAF_PAGE_HEADER_SIZE_BYTES + idx * CELL_PTR_SIZE_BYTES in
  lift (assert_or_bail_corrupt (pointer_slot + CELL_PTR_SIZE_BYTES <=? zlen b)) ;;
  cell_start ← read_u16_no_offset pointer_slot;
  lift (cell ← from_or_corrupt b cell_start;
        '(payload_size, cell) ← split_varint cell;
        '(rowid, cell) ← split_varint cell;
        Ok {| tlh_rowid := as_signed 64 rowid;
              tlh_payload_start := zlen b - zlen cell;
              tlh_payload_size := payload_size |}).

Definition cell_table_leaf_read_rowid (idx : Z) : PM Z :=
  h ← cell_table_leaf_read_header idx; mret (tlh_rowid h).

(** [cell_read_payload_at]: payload on the page, its offset, its full size and
    its first overflow page.  The first half finds the payload. *)
Definition payload_size_and_start (b : list Z) (t : PageType) (cell_offset : Z)
    : result (Z * Z) :=
  match t with
  | IndexInterior =>
      s ← from_or_corrupt b (cell_offset + 4);
      '(size, len) ← read_varint s;
      Ok (size, cell_offset + 4 + len)
  | IndexLeaf =>
      s ← from_or_corrupt b cell_offset;
      '(size, len) ← read_varint s;
      Ok (size, cell_offset + len)
  | TableLeaf =>
      s ← from_or_corrupt b cell_offset;
      '(size, payload_size_len) ← read_varint s;
      let rowid_start := cell_offset + payload_size_len in
      s ← from_or_corrupt b rowid_start;
      '(_, rowid_len) ← read_varint s;
      Ok (size, rowid_start + rowid_len)
  | TableInterior => Panic
  end.

Definition payload_slice (b : list Z) (t : PageType) (payload_size payload_start : Z)
    (limits : PayloadLimits) : result (list Z * option Z) :=
  match payload_overflows payload_size (max_local limits t) (min_local limits)
          (usable_size limits) with
  | Some local_size =>
      let overflow_ptr_offset := payload_start + local_size - 4 in
      assert_or_bail_corrupt (overflow_ptr_offset + 4 <=? zlen b) ;;
      first_overflow_page ← be_u32 b overflow_ptr_offset;
      let payload_end := payload_start + local_size - 4 in
      assert_or_bail_corrupt ((payload_start <? payload_end) && (payload_end <=? zlen b)) ;;
      s ← or_panic (zslice b payload_start payload_end);
      Ok (s, Some first_overflow_page)
  | None =>
      let payload_end := payload_start + payload_size in
      assert_or_bail_corrupt (payload_end <=? zlen b) ;;
      s ← or_panic (zslice b payload_start payload_end);
      Ok (s, None)
  end.

Definition cell_read_payload_at (cell_idx : Z) (limits : PayloadLimits)
    : PM (list Z * Z * Z * option Z) :=
  b ← get_buf;
  cell_pointer_array_start ← header_size;
  cell_offset ← read_u16 (cell_pointer_array_start + cell_idx * CELL_PTR_SIZE_BYTES);
  t ← page_type;
  lift ('(payload_size, payload_start) ← payload_size_and_start b t cell_offset;
        '(s, first_overflow) ← payload_slice b t payload_size payload_start limits;
        Ok (s, payload_start, payload_size, first_overflow)).

Definition cell_read_payload_ptr (idx : Z) (limits : PayloadLimits)
    : PM (list Z * Z * option Z) :=
  '(payload, _, payload_size, first_overflow) ← cell_read_payload_at idx limits;
  mret (payload, payload_size, first_overflow).

Definition cell_get_raw_start_offset (idx : Z) : PM Z :=
  cell_pointer_array_start ← cell_pointer_array_offset;
  read_u16_no_offset (cell_pointer_array_start + idx * CELL_PTR_SIZE_BYTES).

(** The length of the cell at [start] and whether it overflows. *)
Definition raw_cell_len (b : list Z) (start usable_size max_local min_local : Z)
    (page_type : PageType) : result (Z * bool) :=
  match page_type with
  | IndexInterior =>
      s ← from_or_corrupt b (start + 4);
      '(len_payload, n_payload) ← read_varint s;
      match payload_overflows len_payload max_local min_local usable_size with
      | Some local_size => Ok (4 + local_size + n_payload, true)
      | None => Ok (4 + len_payload + n_payload, false)
      end
  | TableInterior =>
      s ← from_or_corrupt b (start + 4);
      '(_, n_rowid) ← read_varint s;
      Ok (4 + n_rowid, false)
  | IndexLeaf =>
      s ← from_or_corrupt b start;
      '(len_payload, n_payload) ← read_varint s;
      match payload_overflows len_payload max_local min_local usable_size with
      | Some local_size => Ok (local_size + n_payload, true)
      | None =>
          let size := len_payload + n_payload in
          Ok (if size <? MINIMUM_CELL_SIZE then MINIMUM_CELL_SIZE else size, false)
      end
  | TableLeaf =>
      s ← from_or_corrupt b start;
      '(len_payload, n_payload) ← read_varint s;
      s ← from_or_corrupt b (start + n_payload);
      '(_, n_rowid) ← read_varint s;
      match payload_overflows len_payload max_local min_local usable_size with
      | Some local_size => Ok (local_size + n_payload + n_rowid, true)
      | None =>
          let size := len_payload + n_payload + n_rowid in
          Ok (if size <? MINIMUM_CELL_SIZE then MINIMUM_CELL_SIZE else size, false)
      end
  end.

Definition _cell_get_raw_region_faster
    (idx usable_size cell_count max_local min_local : Z) (page_type : PageType)
    : PM (Z * Z * option Z) :=
  b ← get_buf;
  passert (idx <? cell_count) ;;
  start ← cell_get_raw_start_offset idx;
  '(len, overflows) ← lift (raw_cell_len b start usable_size max_local min_local page_type);
  lift (assert_or_bail_corrupt (start + len <=? zlen b)) ;;
  first_overflow_page ←
    (if (overflows : bool) then
       at' ← usub (start + len) 4; w ← lift (be_u32 b at'); mret (Some w)
     else mret None);
  mret (start, len, first_overflow_page).

Definition cell_get_raw_region_and_overflow (idx usable_size : Z) : PM (Z * Z * option Z) :=
  t ← page_type;
  let max_local := payload_overflow_threshold_max t usable_size in
  let min_local := payload_overflow_threshold_min t usable_size in
  n ← cell_count;
  _cell_get_raw_region_faster idx usable_size n max_local min_local t.

Definition cell_get_raw_region (idx usable_size : Z) : PM (Z * Z) :=
  '(start, len, _) ← cell_get_raw_region_and_overflow idx usable_size;
  mret (start, len).

Definition is_leaf : PM bool :=
  b ← read_u8 BTREE_PAGE_TYPE; mret (PageType_as_u8 TableInterior <? b).

Definition leaf_and_cell_count : PM (bool * Z) := fun p =>
  (header ← or_panic (zslice (buf p) (offset p) (offset p + (BTREE_CELL_COUNT + 2)));
   Ok (PageType_as_u8 TableInterior <? rd header BTREE_PAGE_TYPE,
       be_at 2 header BTREE_CELL_COUNT), p).

Definition is_table : PM bool :=
  b ← read_u8 BTREE_PAGE_TYPE;
  mret ((b =? PageType_as_u8 TableLeaf) || (b =? PageType_as_u8 TableInterior)).

(** [write_database_header]: the header bytes at the start of page 1. *)
Definition write_database_header (h : DatabaseHeader) : PM () :=
  write_bytes 0 (header_bytes h).
