(* ===== verification/FreeSpace.v ===== *)
(** * Free space inside a B-tree page ([src/core/storage/btree.rs])

    The freeblock list of a page and the operations on it: [find_free_slot],
    [free_cell_range], [compute_free_space], [allocate_cell_space], the two
    defragmentation algorithms, and the cell operations built on them,
    [insert_into_cell] and [drop_cell].

    The [while] loops over the freeblock list take a fuel of one step per byte of
    usable space; the list is checked to be strictly ascending, so the fuel is
    never used up ([freeblock_walks_never_panic]). *)
From stdpp Require Import sorting.
From S2P Require Import Prelude Errors Varint OnDisk Page Cells.

Definition CELL_SIZE_MIN : Z := 4.

(** ** [find_free_slot] *)
Fixpoint find_free_slot_loop (fuel : nat) (usable_space amount max_start_offset : Z)
    (prev_block : option Z) (cur : Z) : PM (option Z) :=
  match fuel with
  | O => panic
  | S fuel =>
      corrupt_if (usable_space <? cur + CELL_SIZE_MIN) ;;
      cur_u16 ← to_u16 cur;
      '(next, size) ← read_freeblock cur_u16;
      if size <? amount then
        if next =? 0 then mret None
        else
          corrupt_if (next <=? cur) ;;
          find_free_slot_loop fuel usable_space amount max_start_offset (Some cur) next
      else
        let new_size := size - amount in
        if new_size <? CELL_SIZE_MIN then
          frag ← num_frag_free_bytes;
          if 57 <? frag then mret None
          else
            (match prev_block with
             | Some prev =>
                 prev_u16 ← to_u16 prev;
                 next_u16 ← to_u16 next;
                 write_freeblock_next_ptr prev_u16 next_u16
             | None =>
                 next_u16 ← to_u16 next;
                 write_first_freeblock next_u16
             end) ;;
            frag ← num_frag_free_bytes;
            passert (frag + new_size <? 256) ;;
            write_fragmented_bytes_count (frag + new_size) ;;
            mret (Some cur)
        else if max_start_offset <? new_size + cur then corrupt
        else
          cur_u16 ← to_u16 cur;
          new_size_u16 ← to_u16 new_size;
          write_freeblock_size cur_u16 new_size_u16 ;;
          mret (Some (cur + new_size))
  end.

Definition find_free_slot (usable_space amount : Z) : PM (option Z) :=
  first_block ← first_freeblock;
  max_start_offset ← usub usable_space amount;
  if first_block =? 0 then mret None
  else find_free_slot_loop (S (Z.to_nat usable_space)) usable_space amount max_start_offset
         None first_block.

(** ** [btree_init_page] *)
Definition btree_init_page (page_type : PageType) (offset_arg usable_space : Z) : PM () :=
  (fun p => (Ok (), with_overflow p [])) ;;
  o ← get_offset;
  passert (offset_arg =? o) ;;
  write_page_type (PageType_as_u8 page_type) ;;
  write_first_freeblock 0 ;;
  write_cell_count 0 ;;
  write_cell_content_area usable_space ;;
  write_fragmented_bytes_count 0 ;;
  write_rightmost_ptr 0 ;;
  b ← get_buf;
  passert (usable_space <=? zlen b) ;;
  write_bytes usable_space (replicate (Z.to_nat (zlen b - usable_space)) 0).

(** ** [free_cell_range] *)

(** The walk to the neighbours of [offset] in the freeblock list. *)
Fixpoint free_search (fuel : nat) (offset : Z) (prev_block next_block : option Z)
    : PM (option Z * option Z) :=
  match fuel with
  | O => panic
  | S fuel =>
      match next_block with
      | None => mret (prev_block, None)
      | Some next =>
          corrupt_if (match prev_block with Some prev => next <=? prev | None => false end) ;;
          if offset <=? next then mret (prev_block, next_block)
          else
            n ← read_u16_no_offset next;
            free_search fuel offset (Some next) (if n =? 0 then None else Some n)
      end
  end.

Definition SINGLE_FRAGMENT_SIZE_MAX : Z := CELL_SIZE_MIN - 1.

(** Merging with the next freeblock: new [end], [size], [next_block] and the
    fragment bytes that disappear. *)
Definition merge_next (offset end_ size usable_space : Z) (next_block : option Z)
    : PM (Z * Z * option Z * Z) :=
  match next_block with
  | Some next =>
      if next <=? end_ + SINGLE_FRAGMENT_SIZE_MAX then
        corrupt_if (next <? end_) ;;
        let removed := wrap 8 (next - end_) in
        next_size ← read_u16_no_offset (next + 2);
        let end_ := next + next_size in
        corrupt_if (usable_space <? end_) ;;
        size ← usub end_ offset;
        n ← read_u16_no_offset next;
        mret (end_, size, if n =? 0 then None else Some n, removed)
      else mret (end_, size, next_block, 0)
  | None => mret (end_, size, None, 0)
  end.

(** Merging with the previous freeblock: new [offset], [size] and removed
    fragment bytes. *)
Definition merge_prev (offset end_ size removed : Z) (prev_block : option Z)
    : PM (Z * Z * Z) :=
  match prev_block with
  | Some prev =>
      prev_size ← read_u16_no_offset (prev + 2);
      let prev_end := prev + prev_size in
      corrupt_if (offset <? prev_end) ;;
      if offset <=? prev_end + SINGLE_FRAGMENT_SIZE_MAX then
        passert (removed + wrap 8 (offset - prev_end) <? 256) ;;
        size ← usub end_ prev;
        mret (prev, size, removed + wrap 8 (offset - prev_end))
      else mret (offset, size, removed)
  | None => mret (offset, size, removed)
  end.

Definition opt_to_u16 (o : option Z) : PM (option Z) :=
  match o with
  | Some b => b ← to_u16 b; mret (Some b)
  | None => mret None
  end.

(** The two ends of [free_cell_range] once the freed range is merged: growing
    the unallocated region, or linking a new freeblock. *)
Definition free_into_unallocated (end_ first_block : Z) (prev_block next_block : option Z)
    : PM () :=
  corrupt_if (match prev_block with Some prev => negb (prev =? first_block) | None => false end) ;;
  (match next_block with
   | Some next =>
       corrupt_if (next <=? end_) ;;
       next_u16 ← to_u16 next;
       write_first_freeblock next_u16
   | None => write_first_freeblock 0
   end) ;;
  write_cell_content_area end_.

Definition free_into_block (offset size : Z) (prev_block next_block : option Z) : PM () :=
  offset_u16 ← to_u16 offset;
  (match prev_block with
   | Some prev => write_u16_no_offset prev offset_u16
   | None => write_first_freeblock offset_u16
   end) ;;
  size_u16 ← to_u16 size;
  next_block_u16 ← opt_to_u16 next_block;
  write_freeblock offset_u16 size_u16 next_block_u16.

Definition free_cell_range (offset len usable_space : Z) : PM () :=
  corrupt_if (len <? CELL_SIZE_MIN) ;;
  corrupt_if (saturating_sub usable_space CELL_SIZE_MIN <? offset) ;;
  let size := len in
  let end_ := offset + len in
  corrupt_if (usable_space <? end_) ;;
  cur_content_area ← cell_content_area;
  first_block ← first_freeblock;
  if first_block =? 0 then
    corrupt_if (offset <? cur_content_area) ;;
    if offset =? cur_content_area then write_cell_content_area end_
    else
      offset_u16 ← to_u16 offset;
      write_first_freeblock offset_u16 ;;
      size_u16 ← to_u16 size;
      write_freeblock offset_u16 size_u16 None
  else
    '(prev_block, next_block) ←
      free_search (S (Z.to_nat usable_space)) offset None (Some first_block);
    corrupt_if (match next_block with
                | Some next => usable_space <? next + CELL_SIZE_MIN
                | None => false
                end) ;;
    '(end_, size, next_block, removed) ← merge_next offset end_ size usable_space next_block;
    '(offset, size, removed) ← merge_prev offset end_ size removed prev_block;
    cur_frag_free_bytes ← num_frag_free_bytes;
    corrupt_if (cur_frag_free_bytes <? removed) ;;
    write_fragmented_bytes_count (cur_frag_free_bytes - removed) ;;
    corrupt_if (offset <? cur_content_area) ;;
    if offset =? cur_content_area
    then free_into_unallocated end_ first_block prev_block next_block
    else free_into_block offset size prev_block next_block.

(** ** [compute_free_space] *)
Fixpoint sum_freeblocks (fuel : nat) (usable_space cur free_space_bytes : Z) : PM Z :=
  match fuel with
  | O => panic
  | S fuel =>
      corrupt_if (usable_space <? cur + 4) ;;
      next ← read_u16_no_offset cur;
      size ← read_u16_no_offset (cur + 2);
      corrupt_if (size <? 4) ;;
      corrupt_if (usable_space <? cur + size) ;;
      let free_space_bytes := free_space_bytes + size in
      if next =? 0 then mret free_space_bytes
      else
        corrupt_if (next <=? cur + size + 3) ;;
        sum_freeblocks fuel usable_space next free_space_bytes
  end.

Definition compute_free_space (usable_space : Z) : PM Z :=
  header ← btree_free_space_fields;
  o ← get_offset;
  let first_cell := o + f_header_size header + 2 * f_cell_count header in
  corrupt_if (usable_space <? first_cell) ;;
  let cell_content_area_start := f_cell_content_area header in
  corrupt_if (usable_space <? cell_content_area_start) ;;
  let free_space_bytes := cell_content_area_start + f_num_frag_free_bytes header in
  let cur := f_first_freeblock header in
  free_space_bytes ←
    (if 0 <? cur then
       corrupt_if (cur <? cell_content_area_start) ;;
       sum_freeblocks (S (Z.to_nat usable_space)) usable_space cur free_space_bytes
     else mret free_space_bytes);
  corrupt_if (usable_space <? free_space_bytes) ;;
  corrupt_if (free_space_bytes <? first_cell) ;;
  mret (free_space_bytes - first_cell).

(** ** Defragmentation *)
Definition buf_copy_within (lo hi dst : Z) : PM () := fun p =>
  match copy_within (buf p) lo hi dst with
  | Some b => (Ok (), with_buf p b)
  | None => (Panic, p)
  end.

(** [0..n] *)
Definition range (n : Z) : list Z := seqZ 0 n.

(** [debug_validate_cells_core], run in builds with debug assertions *)
Definition debug_validate_cells (usable_space : Z) : PM () :=
  pointer_array_end ← unallocated_region_start;
  cca ← cell_content_area;
  passert (pointer_array_end <=? cca) ;;
  n ← cell_count;
  for_each (fun i =>
    '(offset, size) ← (fun p => match cell_get_raw_region i usable_space p with
                                | (Ok r, p') => (Ok r, p')
                                | (_, p') => (Panic, p')
                                end);
    passert (pointer_array_end <=? offset) ;;
    b ← get_buf;
    _ ← lift (or_panic (zslice b offset (offset + size)));
    passert (2 <=? size) ;;
    leaf ← is_leaf;
    (if (leaf : bool) then
       b ← get_buf;
       x ← lift (or_panic (zget b offset));
       passert (negb (x =? 0))
     else mret ()) ;;
    passert (offset + size <=? usable_space)) (range n).

(** Moving a cell pointer that lies left of the first freeblock by both sizes,
    one between the two freeblocks by the second size. *)
Definition shift_cell_pointer (ptr_offset usable_space freeblock_1st freeblock_2nd
    freeblocks_total_size freeblock_2nd_size : Z) : PM () :=
  cell_ptr ← read_u16_no_offset ptr_offset;
  if cell_ptr <? freeblock_1st then
    let new_offset := cell_ptr + freeblocks_total_size in
    corrupt_if (usable_space <? new_offset) ;;
    write_u16_no_offset ptr_offset (wrap 16 new_offset)
  else if (0 <? freeblock_2nd) && (cell_ptr <? freeblock_2nd) then
    let new_offset := cell_ptr + freeblock_2nd_size in
    corrupt_if (usable_space <? new_offset) ;;
    write_u16_no_offset ptr_offset (wrap 16 new_offset)
  else mret ().

Definition defragment_page_fast (usable_space freeblock_1st freeblock_2nd : Z) : PM () :=
  corrupt_if (freeblock_1st =? 0) ;;
  corrupt_if ((0 <? freeblock_2nd) && (freeblock_2nd <=? freeblock_1st)) ;;
  lim ← usub usable_space 4;
  corrupt_if (lim <? freeblock_1st) ;;
  corrupt_if (lim <? freeblock_2nd) ;;
  freeblock_1st_size ← read_u16_no_offset (freeblock_1st + 2);
  freeblock_2nd_size ←
    (if 0 <? freeblock_2nd then read_u16_no_offset (freeblock_2nd + 2) else mret 0);
  let freeblocks_total_size := freeblock_1st_size + freeblock_2nd_size in
  cca ← cell_content_area;
  (if 0 <? freeblock_2nd then
     corrupt_if (freeblock_2nd <? freeblock_1st + freeblock_1st_size) ;;
     corrupt_if (usable_space <? freeblock_2nd + freeblock_2nd_size) ;;
     let after_first_freeblock := freeblock_1st + freeblock_1st_size in
     copy_amount ← usub freeblock_2nd after_first_freeblock;
     buf_copy_within after_first_freeblock (after_first_freeblock + copy_amount)
       (freeblock_1st + freeblocks_total_size)
   else corrupt_if (usable_space <? freeblock_1st + freeblock_1st_size)) ;;
  let new_cell_content_area := cca + freeblocks_total_size in
  copy_amount ← usub freeblock_1st cca;
  corrupt_if (usable_space <? new_cell_content_area + copy_amount) ;;
  buf_copy_within cca (cca + copy_amount) new_cell_content_area ;;
  n ← cell_count;
  '(cell_pointer_array_offset, _) ← cell_pointer_array_offset_and_size;
  for_each (fun i => shift_cell_pointer (cell_pointer_array_offset + i * CELL_PTR_SIZE_BYTES)
                       usable_space freeblock_1st freeblock_2nd freeblocks_total_size
                       freeblock_2nd_size) (range n) ;;
  write_cell_content_area new_cell_content_area ;;
  write_first_freeblock 0 ;;
  debug_validate_cells usable_space.

Record CellInfo := mkCellInfo { old_offset : Z; ci_size : Z; pointer_index : Z }.

(** Cells in descending order of their offset ([sort_unstable_by]; equal offsets
    are refused by the overlap check that follows the sort). *)
Definition desc (a b : CellInfo) : Prop := old_offset b <= old_offset a.
#[export] Instance desc_dec a b : Decision (desc a b).
Proof. unfold desc. apply _. Defined.

(** One iteration of [process_cells]: move a cell to end at [cbrk], and its
    pointer with it. *)
Definition move_cell (usable_space cell_pointer_area_offset first_cell_content_byte cbrk : Z)
    (cell : CellInfo) : PM Z :=
  new_offset ← usub cbrk (ci_size cell);
  passert ((first_cell_content_byte <=? new_offset) &&
           (old_offset cell + ci_size cell <=? usable_space)) ;;
  (if negb (new_offset =? old_offset cell) then
     buf_copy_within (old_offset cell) (old_offset cell + ci_size cell) new_offset
   else mret ()) ;;
  let pointer_location := cell_pointer_area_offset + pointer_index cell * 2 in
  passert (new_offset <? PAGE_SIZE_MAX) ;;
  write_u16_no_offset pointer_location (wrap 16 new_offset) ;;
  mret new_offset.

Fixpoint move_cells (usable_space area first_byte cbrk : Z) (cells : list CellInfo) : PM Z :=
  match cells with
  | [] => mret cbrk
  | c :: cells =>
      cbrk ← move_cell usable_space area first_byte cbrk c;
      move_cells usable_space area first_byte cbrk cells
  end.

Definition process_cells (usable_space : Z) (cells : list CellInfo) : PM () :=
  cell_pointer_area_offset ← cell_pointer_array_offset;
  first_cell_content_byte ← unallocated_region_start;
  cbrk ← move_cells usable_space cell_pointer_area_offset first_cell_content_byte
           usable_space cells;
  write_cell_content_area cbrk ;;
  write_first_freeblock 0 ;;
  write_fragmented_bytes_count 0.

(** The gathering loop: the cells in pointer order, and whether their offsets
    never increase. *)
Fixpoint gather_cells (usable_space cell_count max_local min_local cell_offset : Z)
    (t : PageType) (idxs : list Z) (last_offset : Z) (sorted : bool) (cells : list CellInfo)
    : PM (list CellInfo * bool) :=
  match idxs with
  | [] => mret (cells, sorted)
  | i :: idxs =>
      pc ← read_u16_no_offset (cell_offset + i * 2);
      '(_, size, _) ←
        _cell_get_raw_region_faster i usable_space cell_count max_local min_local t;
      gather_cells usable_space cell_count max_local min_local cell_offset t idxs pc
        (if last_offset <? pc then false else sorted)
        (cells ++ [mkCellInfo pc (wrap 16 size) i])
  end.

Fixpoint check_overlaps (previous_end : Z) (cells : list CellInfo) : PM () :=
  match cells with
  | [] => mret ()
  | c :: cells =>
      corrupt_if (old_offset c <? previous_end) ;;
      check_overlaps (old_offset c + ci_size c) cells
  end.

Definition defragment_page_slow (usable_space cell_count : Z) : PM () :=
  cell_offset ← cell_pointer_array_offset;
  t ← page_type;
  let max_local := payload_overflow_threshold_max t usable_space in
  let min_local := payload_overflow_threshold_min t usable_space in
  '(cells, is_physically_sorted) ←
    gather_cells usable_space cell_count max_local min_local cell_offset t
      (range cell_count) 65535 true [];
  let cells := if (is_physically_sorted : bool) then cells else merge_sort desc cells in
  let first_allowed_cell_offset := cell_offset + 2 * cell_count in
  check_overlaps first_allowed_cell_offset (reverse cells) ;;
  process_cells usable_space cells ;;
  debug_validate_cells usable_space.

Definition defragment_page (usable_space max_frag_bytes : Z) : PM () :=
  debug_validate_cells usable_space ;;
  n ← cell_count;
  if n =? 0 then
    write_cell_content_area usable_space ;;
    write_first_freeblock 0 ;;
    write_fragmented_bytes_count 0 ;;
    debug_validate_cells usable_space
  else
    frag ← num_frag_free_bytes;
    if frag <=? max_frag_bytes then
      freeblock_1st ← first_freeblock;
      if freeblock_1st =? 0 then mret ()
      else
        freeblock_2nd ← read_u16_no_offset freeblock_1st;
        if freeblock_2nd =? 0 then defragment_page_fast usable_space freeblock_1st 0
        else
          freeblock_3rd ← read_u16_no_offset freeblock_2nd;
          if freeblock_3rd =? 0
          then defragment_page_fast usable_space freeblock_1st freeblock_2nd
          else defragment_page_slow usable_space n
    else defragment_page_slow usable_space n.

Definition defragment_page_full (usable_space : Z) : PM () := defragment_page usable_space (-1).

(** ** Allocation, insertion and removal of cells *)
Definition allocate_cell_space (amount usable_space free_space : Z) : PM Z :=
  let amount := if amount <? MINIMUM_CELL_SIZE then MINIMUM_CELL_SIZE else amount in
  region_start ← unallocated_region_start;
  cca ← cell_content_area;
  first_block ← first_freeblock;
  slot ←
    (if negb (first_block =? 0) && (region_start + CELL_PTR_SIZE_BYTES <=? cca)
     then find_free_slot usable_space amount else mret None);
  match slot with
  | Some pc => mret (wrap 16 pc)
  | None =>
      cca ←
        (if cca <? region_start + CELL_PTR_SIZE_BYTES + amount then
           let max_frag_bytes := Z.min 4 (free_space - (CELL_PTR_SIZE_BYTES + amount)) in
           defragment_page usable_space max_frag_bytes ;;
           cell_content_area
         else mret cca);
      cca ← usub cca amount;
      write_cell_content_area cca ;;
      passert (cca + amount <=? usable_space) ;;
      mret (wrap 16 cca)
  end.

(** [ensure_min_cell_size] *)
Definition ensure_min_cell_size (b : list Z) (cell_start : Z) : list Z :=
  b ++ replicate (Z.to_nat (saturating_sub (cell_start + MINIMUM_CELL_SIZE) (zlen b))) 0.

Definition get_overflow : PM (list OverflowCell) := fun p => (Ok (overflow_cells p), p).
Definition push_overflow (c : OverflowCell) : PM () := fun p =>
  (Ok (), with_overflow p (overflow_cells p ++ [c])).

Definition insert_as_overflow (payload : list Z) (cell_idx : Z) : PM () :=
  ovf ← get_overflow;
  passert (match head (reverse ovf) with
           | Some oc => oc_index oc + 1 =? cell_idx
           | None => true
           end) ;;
  t ← page_type;
  push_overflow (mkOverflowCell cell_idx
    (if bool_decide (t = IndexLeaf) then ensure_min_cell_size payload 0 else payload)).

Definition _insert_into_cell (payload : list Z) (cell_idx usable_space : Z)
    (allow_regular_insert_despite_overflow : bool) : PM () :=
  n ← cell_count;
  ovf ← get_overflow;
  passert (cell_idx <=? n + zlen ovf) ;;
  let already_has_overflow := negb (bool_decide (ovf = [])) in
  free ← compute_free_space usable_space;
  let enough_space :=
    if already_has_overflow && negb allow_regular_insert_despite_overflow then false
    else Z.max (zlen payload) MINIMUM_CELL_SIZE + CELL_PTR_SIZE_BYTES <=? free in
  if negb enough_space then insert_as_overflow payload cell_idx
  else
    passert (cell_idx <=? n) ;;
    new_cell_data_pointer ← allocate_cell_space (zlen payload) usable_space free;
    passert (new_cell_data_pointer + zlen payload <=? usable_space) ;;
    write_bytes new_cell_data_pointer payload ;;
    '(cell_pointer_array_start, _) ← cell_pointer_array_offset_and_size;
    let cell_pointer_cur_idx := cell_pointer_array_start + CELL_PTR_SIZE_BYTES * cell_idx in
    n ← cell_count;
    n_cells_forward ← usub n cell_idx;
    let n_bytes_forward := CELL_PTR_SIZE_BYTES * n_cells_forward in
    (if 0 <? n_bytes_forward then
       buf_copy_within cell_pointer_cur_idx (cell_pointer_cur_idx + n_bytes_forward)
         (cell_pointer_cur_idx + CELL_PTR_SIZE_BYTES)
     else mret ()) ;;
    write_u16_no_offset cell_pointer_cur_idx new_cell_data_pointer ;;
    n ← cell_count;
    write_cell_count (wrap 16 (n + 1)) ;;
    debug_validate_cells usable_space.

Definition insert_into_cell (payload : list Z) (cell_idx usable_space : Z) : PM () :=
  _insert_into_cell payload cell_idx usable_space false.

Definition shift_pointers_left (cell_idx : Z) : PM () :=
  n ← cell_count;
  passert (0 <? n) ;;
  '(start, _) ← cell_pointer_array_offset_and_size;
  let start := start + cell_idx * 2 + 2 in
  n ← cell_count;
  m ← usub n cell_idx;
  right_cells ← usub m 1;
  let amount_to_shift := right_cells * 2 in
  buf_copy_within start (start + amount_to_shift) (start - 2).

Definition drop_cell (cell_idx usable_space : Z) : PM () :=
  '(cell_start, cell_len) ← cell_get_raw_region cell_idx usable_space;
  free_cell_range cell_start cell_len usable_space ;;
  n ← cell_count;
  (if 1 <? n then shift_pointers_left cell_idx
   else
     write_cell_content_area usable_space ;;
     write_first_freeblock 0 ;;
     write_fragmented_bytes_count 0) ;;
  n ← cell_count;
  n1 ← usub n 1;
  write_cell_count n1 ;;
  ovf ← get_overflow;
  passert (forallb (fun oc => oc_index oc <=? cell_idx) ovf) ;;
  debug_validate_cells usable_space.
