(* ===== verification/FreeSpaceSpec.v ===== *)
(** * Robustness of the freeblock walks

    The freeblock walks terminate and never panic, on any page content: a
    corrupt freeblock list is reported as an error. *)
From S2P Require Import Prelude Errors Varint OnDisk Page Cells FreeSpace.

(** ** No page content makes the freeblock walks panic *)
Section Safety.
Context (u : Z).

Lemma h_cca_range p : sized p u -> 0 < h_cca p <= 65536.
Proof.
  intros H. unfold h_cca. pose proof (u16_range (buf p) (offset p + 5) (sized_bytes _ _ H)).
  unfold PAGE_SIZE_MAX. destruct (Z.eqb_spec (u16 (buf p) (offset p + 5)) 0); lia.
Qed.

Lemma sum_freeblocks_safe fuel cur acc p :
  sized p u -> 0 <= cur -> u - cur < Z.of_nat fuel -> 0 < Z.of_nat fuel ->
  wp True (sum_freeblocks fuel u cur acc) (fun _ p' => p' = p) p.
Proof.
  intros H. pose proof (sized_bounds u p H).
  revert cur acc. induction fuel as [|fuel IH]; intros cur acc Hc Hf Hf0; [lia|].
  simpl. wcor. wread u. wread u. wcor. wcor. wif; [by apply wp_ret|]. wcor.
  pose proof (u16_range (buf p) cur (sized_bytes _ _ H)).
  apply IH; lia.
Qed.

Lemma compute_free_space_safe p :
  sized p u -> wp True (compute_free_space u) (fun _ p' => p' = p) p.
Proof.
  intros H. pose proof (sized_bounds u p H). unfold compute_free_space.
  wread u. apply wp_bind. unfold get_offset, wp at 1. cbn [f_header_size f_cell_count
    f_first_freeblock f_cell_content_area f_num_frag_free_bytes].
  wcor. wcor. apply wp_bind. eapply (wp_mono _ _ (fun _ p' => p' = p)).
  - wif; [|by apply wp_ret]. wcor. apply sum_freeblocks_safe; try done; lia.
  - intros a p' ->. wcor. wcor. by apply wp_ret.
Qed.

Lemma find_free_slot_loop_safe fuel amount prev cur p :
  sized p u -> 0 <= amount <= u -> offset p + 8 <= cur < 65536 -> u - cur < Z.of_nat fuel ->
  0 < Z.of_nat fuel -> match prev with Some q => offset p + 8 <= q < cur | None => True end ->
  wp True (find_free_slot_loop fuel u amount (u - amount) prev cur) (fun _ p' => sized p' u) p.
Proof.
  intros H Ha. pose proof (sized_bounds u p H). pose proof (offset_range p).
  revert prev cur. induction fuel as [|fuel IH]; intros prev cur Hc Hf Hf0 Hp; [lia|].
  simpl. unfold CELL_SIZE_MIN. wcor. wread u. wread u.
  pose proof (u16_range (buf p) cur (sized_bytes _ _ H)).
  pose proof (u16_range (buf p) (cur + 2) (sized_bytes _ _ H)).
  wif; zbool; [wif; [by apply wp_ret|]; wcor; apply IH; (done || lia)|].
  wif; zbool.
  - wread u. wif; zbool; [by apply wp_ret|]. apply wp_bind.
    pose proof (rd_range (buf p) (offset p + 7) (sized_bytes _ _ H)).
    fold (h_frag p) in *.
    apply (wp_mono _ _ (fun _ p' => sized p' u /\ h_frag p' = h_frag p)).
    + destruct prev as [q|]; wread u.
      * wread u. apply wp_write_u16_at; [lia..|].
        destruct (upd_set_u16 u p q (u16 (buf p) cur)) as [[? ? ? ? Hh ?] _]; try (done || lia).
        split; [done|]. by injection Hh.
      * apply (wp_write_first_freeblock _ u); [done|].
        destruct (upd_set_fb u p (u16 (buf p) cur)) as [? ? ? ? Hh ?]; try (done || lia).
        split; [done|]. by injection Hh.
    + intros _ p' [Hp' Hfr]. wread u. rewrite Hfr. wread u.
      apply wp_bind, (wp_write_frag _ u); [done|]. apply wp_ret, sized_set_frag; (done || lia).
  - wif; [by apply wp_corrupt|]. wread u. wread u. zbool.
    apply wp_bind, wp_write_u16_at; [lia..|]. apply wp_ret, sized_set_u16; (done || lia).
Qed.

Lemma find_free_slot_safe amount p :
  sized p u -> 0 <= amount <= u -> h_fb p = 0 \/ offset p + 8 <= h_fb p ->
  wp True (find_free_slot u amount) (fun _ p' => sized p' u) p.
Proof.
  intros H Ha Hfb. unfold find_free_slot. wread u. wread u.
  pose proof (u16_range (buf p) (offset p + 1) (sized_bytes _ _ H)).
  fold (h_fb p) in *. pose proof (offset_range p).
  wif; zbool; [by apply wp_ret|].
  apply find_free_slot_loop_safe; (done || lia).
Qed.

Lemma free_search_safe fuel off prev next p :
  sized p u -> 0 <= off <= u - 4 ->
  match prev with Some q => 0 <= q < off | None => True end ->
  match next with
  | Some n => 0 <= n < 65536 /\ (Z.of_nat fuel > 0 /\
              (off - match prev with Some q => q | None => -1 end < Z.of_nat fuel))
  | None => Z.of_nat fuel > 0
  end ->
  wp True (free_search fuel off prev next) (fun r p' => p' = p /\
    match r.1 with Some q => 0 <= q < off | None => True end /\
    match r.2 with Some n => off <= n < 65536 | None => True end) p.
Proof.
  intros H Ho. pose proof (sized_bounds u p H).
  revert prev next. induction fuel as [|fuel IH]; intros prev next Hp Hn; [destruct next; lia|].
  simpl. destruct next as [n|]; [|by apply wp_ret].
  apply wp_bind, wp_corrupt_if; [done|]. intros Hlt.
  wif; zbool; [apply wp_ret; simpl; split_and!; (done || lia)|].
  wread u. pose proof (u16_range (buf p) n (sized_bytes _ _ H)).
  apply IH; [lia|]. destruct (_ =? 0); destruct prev; zbool; lia.
Qed.

Lemma merge_next_safe off end_ next p :
  sized p u -> 0 <= off < end_ -> end_ <= u ->
  match next with Some n => off <= n /\ n + 4 <= u | None => True end ->
  wp True (merge_next off end_ (end_ - off) u next) (fun r p' => p' = p /\
    let '(e, s, n, rm) := r in
    off < e <= u /\ s = e - off /\ 0 <= rm <= 3 /\
    match n with Some n => 0 <= n < 65536 | None => True end) p.
Proof.
  intros H Ho Hu Hn. pose proof (sized_bounds u p H).
  unfold merge_next, SINGLE_FRAGMENT_SIZE_MAX, CELL_SIZE_MIN.
  destruct next as [n|]; [|apply wp_ret; split_and!; (done || lia)].
  wif; zbool; [|apply wp_ret; split_and!; (done || lia)]. wcor. wread u. wcor.
  pose proof (u16_range (buf p) n (sized_bytes _ _ H)).
  pose proof (u16_range (buf p) (n + 2) (sized_bytes _ _ H)).
  wread u. wread u. apply wp_ret. rewrite wrap_small by (unfold in_u; lia).
  split_and!; try (done || lia). by destruct (_ =? 0).
Qed.

Lemma merge_prev_safe off end_ rm prev p :
  sized p u -> 0 <= off < end_ -> end_ <= u -> off <= u - 4 -> 0 <= rm <= 3 ->
  match prev with Some q => 0 <= q < off | None => True end ->
  wp True (merge_prev off end_ (end_ - off) rm prev) (fun r p' => p' = p /\
    let '(o, s, rm) := r in 0 <= o <= off /\ s = end_ - o /\ 0 <= rm <= 6) p.
Proof.
  intros H Ho Hu Hu4 Hr Hp. pose proof (sized_bounds u p H).
  unfold merge_prev, SINGLE_FRAGMENT_SIZE_MAX, CELL_SIZE_MIN.
  destruct prev as [q|]; [|apply wp_ret; split_and!; (done || lia)].
  wread u. wcor. wif; zbool; [|apply wp_ret; split_and!; (done || lia)].
  pose proof (u16_range (buf p) (q + 2) (sized_bytes _ _ H)).
  rewrite wrap_small by (unfold in_u; lia).
  wread u. wread u. apply wp_ret. split_and!; (done || lia).
Qed.

Lemma free_into_safe off end_ first prev next p :
  sized p u -> 0 < off < end_ -> end_ <= u -> off + 4 <= u ->
  match prev with Some q => 0 <= q <= u - 4 | None => True end ->
  match next with Some n => 0 <= n < 65536 | None => True end ->
  wp True (free_into_unallocated end_ first prev next) (fun _ p' => sized p' u) p /\
  wp True (free_into_block off (end_ - off) prev next) (fun _ p' => sized p' u) p.
Proof.
  intros H Ho He Ho4 Hp Hn. pose proof (sized_bounds u p H). split.
  - unfold free_into_unallocated. apply wp_bind, wp_corrupt_if; [done|]. intros _.
    apply wp_bind. apply (wp_mono _ _ (fun _ p' => sized p' u)).
    + destruct next as [n|]; [wcor; wread u|];
        (apply (wp_write_first_freeblock _ u); [done|by apply sized_set_fb]).
    + intros _ p' H'. apply (wp_write_cell_content_area _ u); [done|lia|].
      by apply sized_set_cca.
  - unfold free_into_block. wread u. apply wp_bind.
    apply (wp_mono _ _ (fun _ p' => sized p' u)).
    + destruct prev as [q|].
      * apply wp_write_u16_at; [lia..|]. apply sized_set_u16; (done || lia).
      * apply (wp_write_first_freeblock _ u); [done|by apply sized_set_fb].
    + intros _ p' H'. wread u. apply wp_bind. pose proof (sized_bounds u p' H').
      apply (wp_mono _ _ (fun _ p'' => p'' = p')).
      * destruct next; unfold opt_to_u16; [wread u|]; by apply wp_ret.
      * intros a p'' ->. apply wp_write_freeblock; [lia..|].
        apply sized_set_block; (done || lia).
Qed.

Lemma free_cell_range_safe off len p :
  sized p u -> 0 <= off -> 0 <= len ->
  wp True (free_cell_range off len u) (fun _ p' => sized p' u) p.
Proof.
  intros H Ho Hl. pose proof (sized_bounds u p H). unfold free_cell_range, CELL_SIZE_MIN.
  wcor. unfold saturating_sub. wcor. wcor. wread u. wread u.
  pose proof (h_cca_range p H). pose proof (offset_range p).
  pose proof (u16_range (buf p) (offset p + 1) (sized_bytes _ _ H)). fold (h_fb p) in *.
  wif; zbool.
  - wcor. wif; zbool.
    + apply (wp_write_cell_content_area _ u); [done|lia|]. by apply sized_set_cca.
    + wread u. apply wp_bind, (wp_write_first_freeblock _ u); [done|].
      wread u. pose proof (sized_set_fb u p off H) as H'.
      pose proof (sized_bounds u _ H').
      apply wp_write_freeblock; [lia..|]. apply sized_set_block; (done || lia).
  - apply wp_bind. eapply wp_mono; [apply free_search_safe; try done; lia|].
    intros [prev next] p' (-> & Hp & Hn). simpl in Hp, Hn. wbeta.
    apply wp_bind, wp_corrupt_if; [done|]. intros Hn4.
    apply wp_bind. replace len with (off + len - off) at 2 by lia.
    eapply wp_mono; [apply merge_next_safe; try (done || lia); destruct next; zbool; (done || lia)|].
    intros [[[e s] n'] rm] p' (-> & He & -> & Hrm & Hn'). wbeta. apply wp_bind.
    eapply wp_mono; [apply merge_prev_safe; (done || lia)|].
    intros [[o s] rm'] p' (-> & Ho' & -> & Hrm'). wbeta. wread u. wcor.
    pose proof (rd_range (buf p) (offset p + 7) (sized_bytes _ _ H)). fold (h_frag p) in *.
    apply wp_bind, (wp_write_frag _ u); [done|]. wcor.
    assert (sized (set_frag p (h_frag p - rm')) u) as H' by (apply sized_set_frag; (done || lia)).
    destruct (free_into_safe o e (h_fb p) prev n' (set_frag p (h_frag p - rm'))) as [Hu Hb];
      try (done || lia); [destruct prev; (done || lia)|].
    wif; zbool; [exact Hu|exact Hb].
Qed.
(** What [compute_free_space] has found out about the list when it returns. *)
Lemma compute_free_space_first p free :
  sized p u -> (compute_free_space u p).1 = Ok free -> h_fb p = 0 \/ h_cca p <= h_fb p.
Proof.
  intros H Hr. assert (wp True (compute_free_space u) (fun _ _ => h_fb p = 0 \/ h_cca p <= h_fb p) p) as Hw.
  { pose proof (sized_bounds u p H). unfold compute_free_space.
    wread u. apply wp_bind. unfold get_offset, wp at 1. cbn [f_header_size f_cell_count
      f_first_freeblock f_cell_content_area f_num_frag_free_bytes].
    wcor. wcor. apply wp_bind. eapply (wp_mono _ _ (fun _ p' => p' = p /\ (h_fb p = 0 \/ h_cca p <= h_fb p))).
    - wif; zbool.
      + wcor. eapply wp_mono; [apply sum_freeblocks_safe; try done; lia|]. intros a p' ->. split; [done|lia].
      + apply wp_ret. split; [done|]. pose proof (u16_range (buf p) (offset p + 1) (sized_bytes _ _ H)). fold (h_fb p) in *. lia.
    - intros a p' [-> Hfb]. wcor. wcor. by apply wp_ret. }
  unfold wp in Hw. destruct (compute_free_space u p) as [r p']. simpl in Hr. by subst r.
Qed.
End Safety.

(** A page whose freeblock list starts inside the page header: the first block is at byte 6, and
    taking the second block puts 255 into the count of fragmented bytes, at byte 7. *)
Definition list_in_header : page :=
  mkPage 2 ([10; 0; 6; 0; 0; 1; 1; 0; 0; 0] ++ replicate 246 0 ++ [1; 255; 0; 7] ++ replicate 252 0) [].

(** C19: on any page bytes whatsoever, a corrupt page included, the walks over the freeblock list
    end without a panic, the way the code calls them.  [compute_free_space] and [free_cell_range]
    return a value or a corruption error.  So does [find_free_slot] where [allocate_cell_space]
    calls it: when [compute_free_space] has returned a value and there is room for a cell pointer
    before the content area, so that the list starts behind the page header.  Without these checks
    it may panic: on [list_in_header] the count of fragmented bytes overflows. *)
Theorem freeblock_walks_never_panic u p off len amount :
  sized p u -> 0 <= off -> 0 <= len -> 0 <= amount <= u ->
  (compute_free_space u p).1 <> Panic /\
  (free_cell_range off len u p).1 <> Panic /\
  (forall free, (compute_free_space u p).1 = Ok free -> h_first_cell p + CELL_PTR_SIZE_BYTES <= h_cca p ->
    (find_free_slot u amount p).1 <> Panic) /\
  (find_free_slot 512 4 list_in_header).1 = Panic.
Proof.
  intros H Ho Hl Ha. split_and!; [..|by vm_compute].
  - exact (wp_panic_free _ _ _ _ (compute_free_space_safe u p H)).
  - exact (wp_panic_free _ _ _ _ (free_cell_range_safe u off len p H Ho Hl)).
  - intros free Hf Hr. refine (wp_panic_free _ _ _ _ (find_free_slot_safe u amount p H Ha _)).
    destruct (compute_free_space_first u p free H Hf) as [?|Hc]; [by left|right].
    assert (offset p + 8 <= h_first_cell p); [|unfold CELL_PTR_SIZE_BYTES in Hr; lia].
    unfold h_first_cell, h_ptrs. pose proof (header_size_of_range (h_type p)). pose proof (u16_range (buf p) (offset p + 3) (sized_bytes _ _ H)). fold (h_ncell p) in *. lia.
Qed.

(** A page of bytes 7: every field is garbage. *)
Definition garbage_page : page := mkPage 2 (replicate 512 7) [].

Lemma freeblock_walks_never_panic_witness :
  sized garbage_page 512 /\
  (compute_free_space 512 garbage_page).1 <> Panic /\
  (free_cell_range 200 40 512 garbage_page).1 <> Panic /\
  (forall free, (compute_free_space 512 garbage_page).1 = Ok free -> h_first_cell garbage_page + CELL_PTR_SIZE_BYTES <= h_cca garbage_page ->
    (find_free_slot 512 40 garbage_page).1 <> Panic) /\
  (find_free_slot 512 4 list_in_header).1 = Panic.
Proof.
  assert (sized garbage_page 512) as H.
  { split; [by apply (bool_decide_unpack _)|by vm_compute|by vm_compute]. }
  split; [exact H|]. apply (freeblock_walks_never_panic 512 garbage_page 200 40 40 H); lia.
Defined.
