(* ===== verification/PageLayout.v ===== *)
(** * Layout of a well-formed B-tree page

    The content area of a page holds its cells and its freeblocks, pairwise
    disjoint, and the header counts the bytes left over as fragments.  The
    freeblocks form a linked list through their first two bytes, in ascending
    order and at least four bytes apart.  Over this layout [compute_free_space]
    is exact, [find_free_slot] turns part of a freeblock into a cell, and
    [free_cell_range] turns a cell into free space, merging it with its
    neighbours. *)
From S2P Require Import Prelude Errors Varint OnDisk Intervals Page Cells FreeSpace.
From S2P Require Import FreeSpaceSpec.

(** ** The freeblock list in the bytes of a page *)
Fixpoint seg (b : list Z) (cur : Z) (fbs : list ivl) (fin : Z) : Prop :=
  match fbs with
  | [] => cur = fin
  | (s, l) :: fbs => cur = s /\ u16 b (s + 2) = l /\ seg b (u16 b s) fbs fin
  end.

(** Blocks of at least four bytes, in ascending order from [lo] on, with at least
    four bytes between two of them, the last one ending at or before [hi]. *)
Fixpoint fb_sorted (lo hi : Z) (fbs : list ivl) : Prop :=
  match fbs with
  | [] => True
  | (s, l) :: fbs => lo <= s /\ 4 <= l /\ s + l <= hi /\ fb_sorted (s + l + 4) hi fbs
  end.

Lemma seg_app b cur a c fin :
  seg b cur (a ++ c) fin <-> exists mid, seg b cur a mid /\ seg b mid c fin.
Proof.
  revert cur. induction a as [|[s l] a IH]; intros cur; simpl.
  - split; [eauto|]. by intros (? & -> & ?).
  - rewrite IH. split.
    + intros (-> & H & mid & H1 & H2). eauto.
    + intros (mid & (-> & H & H1) & H2). eauto.
Qed.

Lemma fb_sorted_app lo hi a c :
  fb_sorted lo hi (a ++ c) <->
  fb_sorted lo hi a /\ fb_sorted lo hi c /\
  Forall (fun i => Forall (fun j => i.1 + i.2 + 4 <= j.1) c) a.
Proof.
  revert lo. induction a as [|[s l] a IH]; intros lo; simpl.
  - split; [|tauto]. intros H. split_and!; [done|done|constructor].
  - rewrite IH, Forall_cons_iff. simpl. split.
    + intros (H1 & H2 & H3 & H4 & H5 & H6). split_and!; try done.
      * destruct c as [|[s' l'] c]; [done|]. simpl in *. intuition lia.
      * clear -H5. revert H5. generalize (s + l + 4). induction c as [|[s' l'] c IH];
          intros z H; constructor; simpl in *; [lia|]. apply IH with (z := z).
        destruct c as [|[]]; [done|]. simpl in *. intuition lia.
    + intros ((H1 & H2 & H3 & H4) & H5 & H6 & H7). split_and!; try done.
      destruct c as [|[s' l'] c]; [done|]. simpl in *.
      apply Forall_cons_iff in H6 as [H6 _]. simpl in H6. intuition lia.
Qed.

Lemma fb_sorted_lower lo lo' hi l : fb_sorted lo hi l -> lo' <= lo -> fb_sorted lo' hi l.
Proof. destruct l as [|[s n] l]; simpl; [done|]. intuition lia. Qed.

Lemma fb_sorted_Forall lo hi l :
  fb_sorted lo hi l -> Forall (fun i => within lo hi i /\ 4 <= i.2) l.
Proof.
  revert lo. induction l as [|[s n] l IH]; intros lo; simpl; [constructor|].
  intros (H1 & H2 & H3 & H4). constructor; [unfold within; simpl; lia|].
  apply Forall_impl with (2 := IH _ H4). unfold within. intros i. lia.
Qed.

Lemma fb_sorted_raise lo lo' hi l :
  fb_sorted lo hi l -> Forall (fun i => lo' <= i.1) l -> fb_sorted lo' hi l.
Proof.
  destruct l as [|[s n] l]; simpl; [done|]. intros H H'.
  apply Forall_cons_iff in H' as [H' _]. simpl in H'. intuition lia.
Qed.

(** A list of blocks stays threaded when the bytes of its block headers do. *)
Lemma seg_frame b b' cur fbs fin :
  Forall (fun i => u16 b' i.1 = u16 b i.1 /\ u16 b' (i.1 + 2) = u16 b (i.1 + 2)) fbs ->
  seg b cur fbs fin -> seg b' cur fbs fin.
Proof.
  intros H. revert cur. induction H as [|[s l] fbs [H1 H2] _ IH]; intros cur; simpl; [done|].
  simpl in H1, H2. intros (-> & Hl & Hs). rewrite H1, H2. auto.
Qed.

(** Redirecting the last block of a threaded list. *)
Lemma seg_retarget b b' cur pre s l mid :
  Forall (fun i => u16 b' i.1 = u16 b i.1 /\ u16 b' (i.1 + 2) = u16 b (i.1 + 2)) pre ->
  u16 b' (s + 2) = u16 b (s + 2) ->
  seg b cur (pre ++ [(s, l)]) mid -> seg b' cur (pre ++ [(s, l)]) (u16 b' s).
Proof.
  intros H Hl. rewrite !seg_app. intros (m & H1 & H2). exists m. split; [by eapply seg_frame|].
  simpl in *. destruct H2 as (-> & H2 & _). by rewrite Hl.
Qed.

(** ** Well-formed layouts *)
Record layout (u : Z) (p : page) (cells fbs : list ivl) : Prop := mkLayout {
  lay_sized : sized p u;
  lay_area : h_first_cell p <= h_cca p <= u;
  lay_cells : Forall (fun c => within (h_cca p) u c /\ 4 <= c.2) cells;
  lay_fbs : fb_sorted (h_cca p) u fbs;
  lay_chain : seg (buf p) (h_fb p) fbs 0;
  lay_disj : disjoint_all (cells ++ fbs);
  lay_sum : total cells + total fbs + h_frag p = u - h_cca p
}.

#[export] Instance layout_perm u p : Proper (Permutation ==> eq ==> iff) (layout u p).
Proof.
  assert (forall c c' fbs, c ≡ₚ c' -> layout u p c fbs -> layout u p c' fbs) as H.
  { intros c c' fbs Hp []. split; try done; by rewrite <- Hp. }
  intros c c' Hp fbs ? <-. split; apply H; [done|by symmetry].
Qed.

Section Layout.
Context (u : Z).

Lemma h_ptrs_range p : offset p + 8 <= h_ptrs p <= offset p + 12.
Proof. unfold h_ptrs. pose proof (header_size_of_range (h_type p)). lia. Qed.

Lemma h_first_cell_ge p : sized p u -> offset p + 8 <= h_first_cell p.
Proof.
  intros H. unfold h_first_cell. pose proof (h_ptrs_range p).
  pose proof (u16_range (buf p) (offset p + 3) (sized_bytes _ _ H)). unfold h_ncell. lia.
Qed.

Lemma lay_cca_ge p cells fbs : layout u p cells fbs -> offset p + 8 <= h_cca p.
Proof.
  intros H. pose proof (h_first_cell_ge p (lay_sized _ _ _ _ H)).
  pose proof (lay_area _ _ _ _ H). lia.
Qed.

(** [compute_free_space] *)
Lemma sum_freeblocks_exact fuel acc p fbs cur lo :
  sized p u -> 0 <= lo -> fb_sorted lo u fbs -> seg (buf p) cur fbs 0 -> cur <> 0 ->
  u - cur < Z.of_nat fuel ->
  wp False (sum_freeblocks fuel u cur acc) (fun r p' => r = acc + total fbs /\ p' = p) p.
Proof.
  intros H. pose proof (sized_bounds u p H).
  revert acc fbs cur lo. induction fuel as [|fuel IH]; intros acc fbs cur lo Hlo Hs Hc Hcur Hf.
  { destruct fbs as [|[s l] fbs]; simpl in *; [done|]. destruct Hc as (-> & _), Hs as (? & ? & ? & _). lia. }
  destruct fbs as [|[s l] fbs]; [done|]. simpl in Hs, Hc. destruct Hc as (-> & Hl & Hc).
  simpl. wcor. wread u. wread u. rewrite Hl. wcor. wcor.
  destruct fbs as [|[s' l'] fbs].
  - simpl in Hc. rewrite Hc. simpl. apply wp_ret. split; [lia|done].
  - pose proof Hc as Hc'. simpl in Hc. destruct Hc as (Hs' & _). rewrite Hs' in *.
    simpl in Hs. destruct Hs as (? & ? & ? & Hs). destruct (Z.eqb_spec s' 0); [simpl in Hs; lia|]. wcor.
    pose proof (proj1 Hs). eapply wp_mono;
      [eapply (IH _ ((s', l') :: fbs) s' (s + l + 4)); [lia|exact Hs|exact Hc'|lia|lia]|].
    intros r p' [-> ->]. split; [simpl; lia|done].
Qed.

Lemma h_fb_head p cells fbs : layout u p cells fbs ->
  match fbs with [] => h_fb p = 0 | (s, _) :: _ => h_fb p = s /\ h_cca p <= s end.
Proof.
  intros H. pose proof (lay_chain _ _ _ _ H) as Hc. pose proof (lay_fbs _ _ _ _ H) as Hs.
  destruct fbs as [|[s l] fbs]; simpl in *; [done|]. intuition lia.
Qed.

Lemma lay_totals p cells fbs :
  layout u p cells fbs -> 0 <= total cells /\ 0 <= total fbs /\ 0 <= h_frag p < 256.
Proof.
  intros H. split_and!.
  - apply total_nonneg. eapply Forall_impl; [|exact (lay_cells _ _ _ _ H)]. simpl. intros i [_ ?]. lia.
  - apply total_nonneg. eapply Forall_impl; [|exact (fb_sorted_Forall _ _ _ (lay_fbs _ _ _ _ H))].
    simpl. intros i [_ ?]. lia.
  - apply (rd_range (buf p) _ (sized_bytes _ _ (lay_sized _ _ _ _ H))).
  - apply (rd_range (buf p) _ (sized_bytes _ _ (lay_sized _ _ _ _ H))).
Qed.

Lemma compute_free_space_exact p cells fbs :
  layout u p cells fbs ->
  compute_free_space u p = (Ok (u - h_first_cell p - total cells), p).
Proof.
  intros HL. pose proof (lay_sized _ _ _ _ HL) as H. pose proof (sized_bounds u p H).
  enough (wp False (compute_free_space u)
            (fun r p' => r = u - h_first_cell p - total cells /\ p' = p) p) as Hw.
  { unfold wp in Hw. destruct (compute_free_space u p) as [[r|e|] p']; [|done|done].
    destruct Hw as [-> ->]. done. }
  pose proof (lay_area _ _ _ _ HL). pose proof (h_first_cell_ge p H).
  pose proof (offset_range p). pose proof (lay_totals _ _ _ HL). pose proof (lay_sum _ _ _ _ HL).
  unfold compute_free_space. wread u. apply wp_bind. unfold get_offset, wp at 1.
  cbn [f_header_size f_cell_count f_first_freeblock f_cell_content_area f_num_frag_free_bytes].
  fold (h_ptrs p). fold (h_first_cell p). wcor. wcor.
  apply wp_bind, (wp_mono _ _ (fun r p' => r = h_cca p + h_frag p + total fbs /\ p' = p)).
  - pose proof (h_fb_head _ _ _ HL) as Hh. destruct fbs as [|[s l] fbs].
    + rewrite Hh. simpl. apply wp_ret. split; [lia|done].
    + destruct Hh as [Hh Hs]. wif; zbool; [|lia]. wcor.
      apply sum_freeblocks_exact with (lo := h_cca p); try (done || lia); apply HL.
  - intros r p' [-> ->]. wcor. wcor. apply wp_ret. split; [lia|done].
Qed.

(** ** Updates that respect a layout *)
Definition in_any (l : list ivl) (x : Z) : Prop := Exists (inside x) l.

Lemma seg_upd p p' h W cur l fin :
  upd u p p' h W ->
  Forall (fun i => offset p + 8 <= i.1 /\ forall x, i.1 <= x < i.1 + 4 -> ~ W x) l ->
  seg (buf p) cur l fin -> seg (buf p') cur l fin.
Proof.
  intros U Hl. apply seg_frame. eapply Forall_impl; [|exact Hl].
  intros i [Ho HW]. split; apply (upd_u16 _ _ _ _ _ _ U); try lia; apply HW; lia.
Qed.

(** The block before a position of the list, and making the list up to there
    continue at [v]. *)
Definition prev_of (pre : list ivl) : option Z :=
  match reverse pre with [] => None | (q, _) :: _ => Some q end.

Definition relink (p : page) (pre : list ivl) (v : Z) : page :=
  match prev_of pre with None => set_fb p v | Some q => set_u16 p q v end.

Definition next_fields (pre : list ivl) (x : Z) : Prop :=
  Exists (fun i => i.1 <= x < i.1 + 2) pre.

Lemma prev_of_snoc pre q l : prev_of (pre ++ [(q, l)]) = Some q.
Proof. unfold prev_of. by rewrite reverse_snoc. Qed.

Lemma prev_of_Some lo hi pre q :
  fb_sorted lo hi pre -> prev_of pre = Some q -> lo <= q /\ q + 4 <= hi.
Proof.
  intros Hs. destruct pre as [|[q' l] pre _] using rev_ind; [done|].
  rewrite prev_of_snoc. intros [= ->]. apply fb_sorted_app in Hs as (_ & (? & ? & ? & _) & _). lia.
Qed.

Lemma relink_spec p pre v mid lo :
  sized p u -> offset p + 8 <= lo -> fb_sorted lo u pre -> seg (buf p) (h_fb p) pre mid ->
  0 <= v < 65536 ->
  exists fb, upd u p (relink p pre v) (hd_set_fb (hdr_of p) fb) (next_fields pre) /\
             seg (buf (relink p pre v)) fb pre v.
Proof.
  intros H Hlo Hs Hc Hv. unfold relink. destruct pre as [|[q l] pre _] using rev_ind.
  - exists v. simpl. split; [|done].
    eapply upd_weaken; [by apply upd_set_fb|]. done.
  - rewrite prev_of_snoc. exists (h_fb p).
    apply fb_sorted_app in Hs as (Hs1 & Hs2 & Hs3). pose proof (proj1 Hs2). pose proof (proj1 (proj2 Hs2)).
    pose proof (proj1 (proj2 (proj2 Hs2))).
    destruct (upd_set_u16 u p q v) as [U V]; try (done || lia). split.
    + eapply upd_weaken; [exact U|]. unfold span, next_fields. intros x Hx.
      apply Exists_app. right. by constructor.
    + rewrite <- V at 2. eapply seg_retarget; [| |exact Hc].
      * apply Forall_forall. intros i Hi. rewrite Forall_forall in Hs3.
        specialize (Hs3 i Hi). apply Forall_cons_iff in Hs3 as [Hs3 _]. simpl in Hs3.
        apply fb_sorted_Forall in Hs1. rewrite Forall_forall in Hs1.
        destruct (Hs1 i Hi) as [[? ?] ?].
        split; apply (upd_u16 _ _ _ _ _ _ U); unfold span; lia.
      * apply (upd_u16 _ _ _ _ _ _ U); unfold span; lia.
Qed.

Lemma upd_fields p p' h W :
  upd u p p' h W ->
  h_type p' = hd_type h /\ h_fb p' = hd_fb h /\ h_ncell p' = hd_ncell h /\
  h_cca p' = hd_cca h /\ h_frag p' = hd_frag h /\
  h_first_cell p' = offset p + header_size_of (hd_type h) + 2 * hd_ncell h.
Proof.
  intros U. pose proof (upd_offset _ _ _ _ _ U) as Ho. destruct U as [_ _ _ _ <- _].
  simpl. split_and!; try done. unfold h_first_cell, h_ptrs. by rewrite Ho.
Qed.

(** The cells and blocks a block is apart from, whatever its place in the list. *)
Lemma lay_block p cells pre i suf :
  layout u p cells (pre ++ i :: suf) ->
  Forall (apart i) (cells ++ pre ++ suf) /\ disjoint_all (cells ++ pre ++ suf) /\
  h_cca p <= i.1 /\ 4 <= i.2 /\ i.1 + i.2 <= u /\
  fb_sorted (h_cca p) u (pre ++ suf) /\
  Forall (fun j => j.1 + j.2 + 4 <= i.1) pre /\
  Forall (fun j => i.1 + i.2 + 4 <= j.1) suf.
Proof.
  intros H. pose proof (lay_disj _ _ _ _ H) as Hd. pose proof (lay_fbs _ _ _ _ H) as Hs.
  rewrite (assoc_L (++)) in Hd. apply disjoint_all_cons_perm in Hd as [H1 H2].
  rewrite <- (assoc_L (++)) in H1, H2.
  destruct i as [s l]. apply fb_sorted_app in Hs as (Hs1 & (Hs2 & Hs3 & Hs4 & Hs5) & Hs6).
  split_and!; try done; simpl.
  - apply fb_sorted_app. split_and!; [done|eapply fb_sorted_lower; [done|lia]|].
    eapply Forall_impl; [|exact Hs6]. intros j Hj. by apply Forall_cons_iff in Hj as [_ Hj].
  - eapply Forall_impl; [|exact Hs6]. intros j Hj. by apply Forall_cons_iff in Hj as [Hj _].
  - eapply Forall_impl; [|exact (fb_sorted_Forall _ _ _ Hs5)]. unfold within. intros j. lia.
Qed.

(** Taking the first [amount] bytes of a block as a cell, the rest of it becoming
    fragments. *)
Lemma layout_take_block p cells pre s l suf amount :
  layout u p cells (pre ++ (s, l) :: suf) ->
  4 <= amount <= l -> l - amount < 4 -> h_frag p <= 57 ->
  let p1 := relink p pre (u16 (buf p) s) in
  let p2 := set_frag p1 (h_frag p + (l - amount)) in
  layout u p2 ((s, amount) :: cells) (pre ++ suf) /\ sized p1 u /\ h_frag p1 = h_frag p /\
  exists fb, upd u p p2 (mkHdr (h_type p) fb (h_ncell p) (h_cca p) (h_frag p + (l - amount)))
               (next_fields pre).
Proof.
  intros HL Ha Hl4 Hfr p1 p2. pose proof (lay_sized _ _ _ _ HL) as H.
  destruct (lay_block _ _ _ _ _ HL) as (Hap & Hd & Hi1 & Hi2 & Hi3 & Hs & Hpre & Hsuf).
  pose proof (lay_totals _ _ _ HL) as (_ & _ & Hf). pose proof (lay_cca_ge _ _ _ HL).
  pose proof (lay_chain _ _ _ _ HL) as Hc. apply seg_app in Hc as (mid & Hc1 & Hc2).
  simpl in Hi1, Hi2, Hi3, Hc2. destruct Hc2 as (-> & Hl & Hc2).
  destruct (relink_spec p pre (u16 (buf p) s) s (h_cca p)) as (fb & U1 & S1); try done.
  { by apply fb_sorted_app in Hs as (? & ? & ?). }
  { apply u16_range, H. }
  fold p1 in U1, S1.
  assert (upd u p1 p2 (hd_set_frag (hdr_of p1) (h_frag p + (l - amount))) nowhere) as U2.
  { apply upd_set_frag; [apply U1|lia]. }
  rewrite (upd_hdr _ _ _ _ _ U1) in U2.
  pose proof (upd_trans _ _ _ _ _ _ _ _ U1 U2) as U.
  pose proof (upd_offset _ _ _ _ _ U1) as Ho1.
  assert (upd u p p2 (mkHdr (h_type p) fb (h_ncell p) (h_cca p) (h_frag p + (l - amount)))
            (next_fields pre)) as U'.
  { eapply upd_weaken; [exact U|]. unfold either, nowhere. tauto. }
  destruct (upd_fields _ _ _ _ U') as (F1 & F2 & F3 & F4 & F5 & F6); simpl in *.
  destruct (upd_fields _ _ _ _ U1) as (_ & _ & _ & _ & F5' & _); simpl in *.
  split_and!; [|apply U1|done|by exists fb].
  pose proof (lay_sum _ _ _ _ HL) as Hsum. rewrite !total_app, !total_cons in Hsum. simpl in Hsum.
  split; rewrite ?F2, ?F4, ?F5, ?F6.
  - apply U'.
  - pose proof (lay_area _ _ _ _ HL) as Har. unfold h_first_cell, h_ptrs in Har. lia.
  - constructor; [unfold within; simpl; lia|apply HL].
  - done.
  - apply seg_app. exists (u16 (buf p) s). split.
    + eapply seg_upd; [exact U2| |exact S1]. rewrite Ho1.
      apply fb_sorted_app in Hs as (Hs & _ & _).
      eapply Forall_impl; [|exact (fb_sorted_Forall _ _ _ Hs)]. unfold within. intros i [? ?].
      split; [lia|by intros x _ []].
    + eapply seg_upd; [exact U'| |exact Hc2].
      eapply Forall_impl; [|exact Hsuf]. simpl. intros i Hi. split; [lia|].
      intros x Hx [j [Hj Hxj]]%Exists_exists. rewrite Forall_forall in Hpre.
      specialize (Hpre j Hj). simpl in Hpre.
      apply fb_sorted_app in Hs as (Hs & _ & _). apply fb_sorted_Forall in Hs.
      rewrite Forall_forall in Hs. destruct (Hs j Hj). lia.
  - simpl. split; [|done]. eapply Forall_apart_sub; [| |exact Hap]; simpl; lia.
  - rewrite total_cons, total_app. simpl. lia.
Qed.

(** Taking the last [amount] bytes of a block as a cell, the block shrinking. *)
Lemma layout_shrink_block p cells pre s l suf amount :
  layout u p cells (pre ++ (s, l) :: suf) ->
  4 <= amount -> 4 <= l - amount ->
  let p' := set_u16 p (s + 2) (l - amount) in
  layout u p' ((s + (l - amount), amount) :: cells) (pre ++ (s, l - amount) :: suf) /\
  upd u p p' (hdr_of p) (span (s + 2) (s + 4)).
Proof.
  intros HL Ha Hl4 p'. pose proof (lay_sized _ _ _ _ HL) as H. pose proof (sized_bounds u p H).
  destruct (lay_block _ _ _ _ _ HL) as (Hap & Hd & Hi1 & Hi2 & Hi3 & Hs & Hpre & Hsuf).
  pose proof (lay_cca_ge _ _ _ HL). pose proof (offset_range p). simpl in Hi1, Hi2, Hi3.
  destruct (upd_set_u16 u p (s + 2) (l - amount)) as [U V]; [done|lia..|].
  replace (s + 2 + 2) with (s + 4) in U by lia.
  destruct (upd_fields _ _ _ _ U) as (F1 & F2 & F3 & F4 & F5 & F6); simpl in F1, F2, F3, F4, F5, F6.
  split; [|exact U].
  apply fb_sorted_app in Hs as (Hs1 & Hs2 & Hs3).
  pose proof (lay_sum _ _ _ _ HL) as Hsum. rewrite !total_app, !total_cons in Hsum. simpl in Hsum.
  pose proof (lay_chain _ _ _ _ HL) as Hc. apply seg_app in Hc as (mid & Hc1 & Hc2).
  simpl in Hc2. destruct Hc2 as (-> & Hl & Hc2).
  split; fold p' in F1, F2, F3, F4, F5, F6; rewrite ?F2, ?F4, ?F5, ?F6.
  - apply U.
  - apply (lay_area _ _ _ _ HL).
  - constructor; [unfold within; simpl; lia|apply HL].
  - apply fb_sorted_app. split_and!; [done| |].
    + simpl. split_and!; try lia. eapply fb_sorted_raise; [exact Hs2|].
      eapply Forall_impl; [|exact Hsuf]. simpl. lia.
    + rewrite Forall_forall in Hs3, Hpre |- *. intros j Hj. constructor; [exact (Hpre j Hj)|auto].
  - apply seg_app. exists s. split.
    + eapply seg_upd; [exact U| |exact Hc1]. rewrite Forall_forall in Hpre |- *.
      intros j Hj. pose proof (fb_sorted_Forall _ _ _ Hs1) as Hf. rewrite Forall_forall in Hf.
      destruct (Hf j Hj) as [[? ?] ?]. specialize (Hpre j Hj). simpl in Hpre.
      unfold span. split; [lia|]. intros x ?. lia.
    + cbn [seg]. split; [done|]. split; [exact V|].
      assert (u16 (buf p') s = u16 (buf p) s) as ->
        by (apply (upd_u16 _ _ _ _ _ s U); unfold span; lia).
      eapply seg_upd; [exact U| |exact Hc2]. eapply Forall_impl; [|exact Hsuf]. simpl.
      unfold span. intros j ?. split; [lia|]. intros x ?. lia.
  - rewrite (assoc_L (++)). apply disjoint_all_cons_perm. rewrite <- (assoc_L (++)). simpl.
    split; [constructor|split].
    + unfold apart. simpl. lia.
    + eapply Forall_apart_sub; [| |exact Hap]; simpl; lia.
    + eapply Forall_apart_sub; [| |exact Hap]; simpl; lia.
    + done.
  - rewrite total_cons, total_app, total_cons. simpl. lia.
Qed.

(** What [find_free_slot] leaves behind: either nothing changed, or a new cell
    inside the free space and a page that differs from the old one in free bytes
    only. *)
Definition slot_taken (p : page) (cells fbs : list ivl) (amount : Z)
    (r : option Z) (p' : page) : Prop :=
  match r with
  | None => p' = p
  | Some pc =>
      exists fbs' fb frag,
        layout u p' ((pc, amount) :: cells) fbs' /\
        upd u p p' (mkHdr (h_type p) fb (h_ncell p) (h_cca p) frag) (in_any fbs) /\
        Exists (fun i => i.1 <= pc /\ pc + amount <= i.1 + i.2) fbs /\
        (frag = h_frag p \/ frag <= 60)
  end.

Lemma find_free_slot_loop_spec fuel p cells pre s l suf amount :
  layout u p cells (pre ++ (s, l) :: suf) -> 4 <= amount <= u -> u - s < Z.of_nat fuel ->
  wp False (find_free_slot_loop fuel u amount (u - amount) (prev_of pre) s)
    (slot_taken p cells (pre ++ (s, l) :: suf) amount) p.
Proof.
  intros HL Ha. pose proof (lay_sized _ _ _ _ HL) as H. pose proof (sized_bounds u p H).
  pose proof (lay_cca_ge _ _ _ HL). pose proof (offset_range p).
  remember (pre ++ (s, l) :: suf) as fbs eqn:Efbs.
  revert pre s l suf Efbs. induction fuel as [|fuel IH]; intros pre s l suf -> Hf.
  { destruct (lay_block _ _ _ _ _ HL) as (_ & _ & ? & ? & ? & _). simpl in *. lia. }
  destruct (lay_block _ _ _ _ _ HL) as (_ & _ & Hi1 & Hi2 & Hi3 & Hss & Hpre & Hsuf). simpl in Hi1, Hi2, Hi3.
  pose proof (lay_chain _ _ _ _ HL) as Hc. apply seg_app in Hc as (mid & _ & Hc).
  simpl in Hc. destruct Hc as (-> & Hl & Hc).
  simpl. unfold CELL_SIZE_MIN. wcor. wread u. wread u. rewrite Hl. wif; zbool.
  - destruct suf as [|[s' l'] suf].
    + simpl in Hc. rewrite Hc. simpl. by apply wp_ret.
    + simpl in Hc. destruct Hc as (-> & _). apply Forall_cons_iff in Hsuf as [Hs' _]. simpl in Hs'.
      wif; zbool; [lia|]. wcor. rewrite <- (prev_of_snoc pre s l).
      apply (IH (pre ++ [(s, l)]) s' l' suf); [by rewrite <- (assoc_L (++))|lia].
  - pose proof (u16_range (buf p) s (sized_bytes _ _ H)).
    pose proof (u16_range (buf p) (s + 2) (sized_bytes _ _ H)). wif; zbool.
    + wread u. wif; zbool; [by apply wp_ret|].
      destruct (layout_take_block p cells pre s l suf amount HL) as (L & S1 & F1 & fb & U);
        [lia..|].
      apply wp_bind, (wp_mono _ _ (fun _ p' => p' = relink p pre (u16 (buf p) s))).
      * unfold relink. destruct (prev_of pre) as [q|] eqn:Eq; wbeta.
        -- apply fb_sorted_app in Hss as (Hss & _ & _).
           pose proof (prev_of_Some _ _ _ _ Hss Eq).
           wread u. wread u. by apply wp_write_u16_at; [lia..|].
        -- wread u. by apply (wp_write_first_freeblock _ u).
      * intros _ p' ->. wread u. rewrite F1. wread u.
        apply wp_bind, (wp_write_frag _ u); [done|]. apply wp_ret.
        exists (pre ++ suf), fb, (h_frag p + (l - amount)). split_and!; [done| | |lia].
        -- eapply upd_weaken; [exact U|]. intros x Hx. unfold in_any.
           apply Exists_app. left. apply Exists_exists in Hx as (i & Hi & Hx).
           apply Exists_exists. exists i. split; [done|]. unfold inside.
           apply fb_sorted_app in Hss as (Hss & _ & _). apply fb_sorted_Forall in Hss.
           rewrite Forall_forall in Hss. destruct (Hss i Hi). lia.
        -- apply Exists_app. right. constructor. simpl. lia.
    + wif; zbool; [lia|]. wread u. wread u.
      destruct (layout_shrink_block p cells pre s l suf amount HL) as (L & U); [lia..|].
      apply wp_bind, wp_write_u16_at; [lia..|]. apply wp_ret.
      exists (pre ++ (s, l - amount) :: suf), (h_fb p), (h_frag p).
      split_and!; [done| | |by left].
      * eapply upd_weaken; [exact U|]. intros x Hx. unfold span in Hx.
        apply Exists_app. right. constructor. unfold inside. simpl. lia.
      * apply Exists_app. right. constructor. simpl. lia.
Qed.

Lemma find_free_slot_spec p cells fbs amount :
  layout u p cells fbs -> 4 <= amount <= u ->
  wp False (find_free_slot u amount) (slot_taken p cells fbs amount) p.
Proof.
  intros HL Ha. pose proof (lay_sized _ _ _ _ HL) as H. unfold find_free_slot.
  wread u. wread u. pose proof (h_fb_head _ _ _ HL) as Hh.
  pose proof (lay_cca_ge _ _ _ HL). pose proof (offset_range p).
  destruct fbs as [|[s l] fbs]; [rewrite Hh; by apply wp_ret|].
  destruct Hh as [Hh Hs]. wif; zbool; [lia|]. rewrite Hh.
  apply (find_free_slot_loop_spec _ p cells [] s l fbs); (done || lia).
Qed.

(** ** Freeing a cell *)
Definition next_of (suf : list ivl) : option Z :=
  match suf with [] => None | (s, _) :: _ => Some s end.
Definition next0 (suf : list ivl) : Z := default 0 (next_of suf).

Lemma seg_next0 b cur suf : seg b cur suf 0 -> cur = next0 suf.
Proof. destruct suf as [|[s l] suf]; simpl; tauto. Qed.

Lemma next_of_read lo hi suf :
  0 < lo -> fb_sorted lo hi suf ->
  (if next0 suf =? 0 then None else Some (next0 suf)) = next_of suf.
Proof.
  intros Hlo. destruct suf as [|[s l] suf]; [done|]. intros [Hs _]. unfold next0. simpl.
  by rewrite (proj2 (Z.eqb_neq s 0)) by lia.
Qed.

Lemma free_search_spec fuel p cells fbs pre suf off :
  layout u p cells fbs -> fbs = pre ++ suf -> 0 <= off -> off + 4 <= u ->
  Forall (fun i => i.1 < off) pre ->
  off - default 0 (prev_of pre) < Z.of_nat fuel -> 0 < Z.of_nat fuel ->
  wp False (free_search fuel off (prev_of pre) (next_of suf)) (fun r p' => p' = p /\
    exists pre' suf', fbs = pre' ++ suf' /\ r = (prev_of pre', next_of suf') /\
      Forall (fun i => i.1 < off) pre' /\ Forall (fun i => off <= i.1) suf') p.
Proof.
  intros HL. pose proof (lay_sized _ _ _ _ HL) as H. pose proof (sized_bounds u p H).
  pose proof (lay_cca_ge _ _ _ HL). pose proof (offset_range p).
  revert pre suf. induction fuel as [|fuel IH]; intros pre suf -> Ho Hu Hpre Hf Hf0; [lia|].
  simpl. destruct suf as [|[s l] suf].
  { simpl. apply wp_ret. split; [done|]. by exists pre, []. }
  destruct (lay_block _ _ _ _ _ HL) as (_ & _ & Hi1 & Hi2 & Hi3 & Hss & Hpre' & Hsuf).
  simpl in Hi1, Hi2, Hi3. cbn [next_of].
  assert (default 0 (prev_of pre) < s) as Hq.
  { destruct pre as [|[q lq] pre _] using rev_ind; [simpl; lia|]. rewrite prev_of_snoc. simpl.
    apply Forall_app in Hpre' as [_ Hq]. apply Forall_cons_iff in Hq as [Hq _]. simpl in Hq.
    apply fb_sorted_app in Hss as (Hss & _ & _).
    apply fb_sorted_app in Hss as (_ & (_ & ? & _) & _). lia. }
  assert (match prev_of pre with Some prev => s <=? prev | None => false end = false) as ->.
  { destruct (prev_of pre); simpl in Hq; [apply Z.leb_gt; lia|done]. }
  apply wp_bind, wp_ret. wif; zbool.
  - apply wp_ret. split; [done|]. exists pre, ((s, l) :: suf). split_and!; try done.
    constructor; [done|]. eapply Forall_impl; [|exact Hsuf]. simpl. lia.
  - wread u. pose proof (lay_chain _ _ _ _ HL) as Hc. apply seg_app in Hc as (mid & _ & Hc).
    simpl in Hc. destruct Hc as (-> & Hl & Hc). rewrite (seg_next0 _ _ _ Hc).
    apply fb_sorted_app in Hss as (_ & Hss & _).
    rewrite (next_of_read (h_cca p) u) by (done || lia). rewrite <- (prev_of_snoc pre s l).
    apply IH; try (done || lia).
    + by rewrite <- (assoc_L (++)).
    + apply Forall_app. split; [done|]. by repeat constructor.
    + rewrite prev_of_snoc. simpl. lia.
Qed.

Section Freeing.
Context (p : page) (cells pre suf : list ivl) (off len : Z).
Context (HL : layout u p ((off, len) :: cells) (pre ++ suf)).
Context (Hpre : Forall (fun i => i.1 < off) pre) (Hsuf : Forall (fun i => off <= i.1) suf).

Lemma freed_bounds : h_cca p <= off /\ 4 <= len /\ off + len <= u.
Proof.
  pose proof (lay_cells _ _ _ _ HL) as Hc. apply Forall_cons_iff in Hc as [[[? ?] ?] _].
  simpl in *. lia.
Qed.

Lemma freed_parts :
  Forall (apart (off, len)) cells /\ Forall (fun c => within (h_cca p) u c /\ 4 <= c.2) cells /\
  Forall (fun i => i.1 + i.2 <= off) pre /\ Forall (fun i => off + len <= i.1) suf /\
  disjoint_all (cells ++ pre ++ suf) /\
  Forall (fun c => Forall (apart c) (pre ++ suf)) cells /\
  fb_sorted (h_cca p) u pre /\ fb_sorted (h_cca p) u suf /\
  Forall (fun i => Forall (fun j => i.1 + i.2 + 4 <= j.1) suf) pre.
Proof.
  pose proof freed_bounds. pose proof (lay_fbs _ _ _ _ HL) as Hs.
  pose proof (lay_disj _ _ _ _ HL) as [Ha Hd]. fold disjoint_all in Hd.
  apply Forall_app in Ha as [Ha1 Ha2]. apply Forall_app in Ha2 as [Ha2 Ha3].
  apply fb_sorted_app in Hs as (Hs1 & Hs2 & Hs3). pose proof Hd as Hd'.
  apply disjoint_all_app in Hd' as (_ & _ & Hcf).
  split_and!; try done.
  - pose proof (lay_cells _ _ _ _ HL) as Hc. by apply Forall_cons_iff in Hc as [_ Hc].
  - rewrite Forall_forall in Hpre, Ha2 |- *. intros i Hi. specialize (Hpre i Hi).
    specialize (Ha2 i Hi). unfold apart in Ha2. simpl in Ha2. lia.
  - pose proof (fb_sorted_Forall _ _ _ Hs2) as Hf. rewrite Forall_forall in Hsuf, Ha3, Hf |- *.
    intros i Hi. specialize (Hsuf i Hi). specialize (Ha3 i Hi). destruct (Hf i Hi).
    unfold apart in Ha3. simpl in Ha3. lia.
Qed.

Definition next_merged (r : Z * Z * option Z * Z) (p' : page) : Prop :=
  p' = p /\ exists e rm d suf',
    r = (e, e - off, next_of suf', rm) /\ suf = d ++ suf' /\
    off + len <= e <= u /\ 0 <= rm <= 3 /\ e - off = len + rm + total d /\
    Forall (fun j => e + 4 <= j.1) suf' /\
    Forall (apart (off, e - off)) cells /\ Forall (fun i => i.1 + i.2 <= off) pre.

Lemma merge_next_spec : wp False (merge_next off (off + len) len u (next_of suf)) next_merged p.
Proof.
  pose proof (lay_sized _ _ _ _ HL) as H. pose proof (sized_bounds u p H).
  pose proof freed_bounds as Hb. destruct freed_parts as (H1 & H2 & H3 & H4 & H5 & H6 & H7 & H8 & H9).
  pose proof (lay_cca_ge _ _ _ HL). pose proof (offset_range p).
  unfold merge_next, SINGLE_FRAGMENT_SIZE_MAX, CELL_SIZE_MIN.
  assert (forall x, x = next_of suf -> Forall (fun j => off + len + 4 <= j.1) suf ->
            next_merged (off + len, len, x, 0) p) as Hno.
  { intros x -> Hf. split; [done|]. exists (off + len), 0, [], suf.
    replace (off + len - off) with len by lia. split_and!; (done || simpl; lia). }
  destruct suf as [|[s l] suf'] eqn:Es; cbn [next_of].
  { apply wp_ret. apply Hno; [done|constructor]. }
  apply Forall_cons_iff in H4 as [H4 H4']. simpl in H4. destruct H8 as (H8 & Hl4 & Hlu & H8').
  pose proof (fb_sorted_Forall _ _ _ H8') as Hf'.
  wif; zbool.
  - wcor. wread u. pose proof (lay_chain _ _ _ _ HL) as Hc. apply seg_app in Hc as (mid & _ & Hc).
    simpl in Hc. destruct Hc as (-> & Hl & Hc). rewrite Hl. wcor. wread u. wread u.
    rewrite (seg_next0 _ _ _ Hc), (next_of_read (s + l + 4) u) by (done || lia).
    apply wp_ret. split; [done|]. exists (s + l), (s - (off + len)), [(s, l)], suf'.
    rewrite wrap_small by (unfold in_u; lia).
    split_and!; try (done || simpl; lia).
    + eapply Forall_impl; [|exact Hf']. unfold within. intros j. lia.
    + rewrite Forall_forall in H1, H2, H6 |- *. intros c Hc'. specialize (H1 c Hc').
      destruct (H2 c Hc'). specialize (H6 c Hc').
      apply Forall_app in H6 as [_ H6]. apply Forall_cons_iff in H6 as [H6 _].
      unfold apart in *. simpl in *. lia.
  - apply wp_ret. apply Hno; [done|].
    constructor; [simpl; lia|]. eapply Forall_impl; [|exact Hf']. unfold within. intros j. lia.
Qed.

Definition prev_merged (e rm : Z) (r : Z * Z * Z) (p' : page) : Prop :=
  p' = p /\ exists o rm' pre' d,
    r = (o, e - o, rm + rm') /\ pre = pre' ++ d /\ 0 <= rm' <= 3 /\
    off - o = rm' + total d /\ (d = [] /\ o = off \/ exists l, d = [(o, l)]) /\
    Forall (fun j => j.1 + j.2 + 4 <= o) pre' /\ Forall (apart (o, e - o)) cells.

Lemma merge_prev_spec e rm :
  0 <= rm <= 3 -> off + len <= e <= u -> Forall (apart (off, e - off)) cells ->
  wp False (merge_prev off e (e - off) rm (prev_of pre)) (prev_merged e rm) p.
Proof.
  intros Hrm He Hap. pose proof (lay_sized _ _ _ _ HL) as H. pose proof (sized_bounds u p H).
  pose proof freed_bounds as Hb. destruct freed_parts as (H1 & H2 & H3 & H4 & H5 & H6 & H7 & H8 & H9).
  pose proof (lay_cca_ge _ _ _ HL). pose proof (offset_range p).
  unfold merge_prev, SINGLE_FRAGMENT_SIZE_MAX, CELL_SIZE_MIN.
  assert (Forall (fun j => j.1 + j.2 + 4 <= off) pre ->
            prev_merged e rm (off, e - off, rm) p) as Hno.
  { intros Hf. split; [done|]. exists off, 0, pre, []. rewrite Z.add_0_r, app_nil_r.
    split_and!; try (done || simpl; lia). by left. }
  destruct pre as [|[q l] pre' _] eqn:Ep using rev_ind.
  { apply wp_ret, Hno. constructor. }
  rewrite prev_of_snoc. apply fb_sorted_app in H7 as (H71 & (Hq1 & Hq2 & Hq3 & _) & H73).
  apply Forall_app in H3 as [_ H3]. apply Forall_cons_iff in H3 as [H3 _]. simpl in H3.
  assert (Forall (fun j => j.1 + j.2 + 4 <= q) pre') as Hpq.
  { eapply Forall_impl; [|exact H73]. intros j Hj. by apply Forall_cons_iff in Hj as [Hj _]. }
  wread u. pose proof (lay_chain _ _ _ _ HL) as Hc. apply seg_app in Hc as (mid & Hc & _).
  apply seg_app in Hc as (mid' & _ & Hc). simpl in Hc. destruct Hc as (-> & Hl & _). rewrite Hl.
  wcor. wif; zbool.
  - rewrite wrap_small by (unfold in_u; lia). wread u. wread u. apply wp_ret.
    split; [done|]. exists q, (off - (q + l)), pre', [(q, l)].
    split_and!; try (done || simpl; lia); [right; by exists l|].
    rewrite Forall_forall in H2, H6, Hap |- *. intros c Hc'. destruct (H2 c Hc').
    specialize (H6 c Hc'). specialize (Hap c Hc').
    apply Forall_app in H6 as [H6 _]. apply Forall_app in H6 as [_ H6].
    apply Forall_cons_iff in H6 as [H6 _]. unfold apart in *. simpl in *. lia.
  - apply wp_ret, Hno. apply Forall_app. split; [|constructor; [simpl; lia|constructor]].
    eapply Forall_impl; [|exact Hpq]. simpl. lia.
Qed.
End Freeing.

(** The page just before the merged range [o, e) is linked: [pre] and [suf] are the
    freeblocks left and right of it. *)
Record freed (p : page) (cells pre suf : list ivl) (o e : Z) : Prop := mkFreed {
  fr_sized : sized p u;
  fr_area : h_first_cell p <= h_cca p;
  fr_cells : Forall (fun c => within (h_cca p) u c /\ 4 <= c.2) cells;
  fr_sorted : fb_sorted (h_cca p) u (pre ++ (o, e - o) :: suf);
  fr_disj : disjoint_all ((o, e - o) :: cells ++ pre ++ suf);
  fr_sum : total cells + total pre + total suf + (e - o) + h_frag p = u - h_cca p;
  fr_suf : seg (buf p) (next0 suf) suf 0
}.

Lemma freed_unallocated p cells pre suf e p1 :
  freed p cells pre suf (h_cca p) e ->
  upd u p p1 (hd_set_fb (hdr_of p) (next0 suf)) nowhere ->
  pre = [] /\ layout u (set_cca p1 e) cells suf /\
  upd u p (set_cca p1 e) (mkHdr (h_type p) (next0 suf) (h_ncell p) e (h_frag p)) nowhere.
Proof.
  intros F U1. destruct F as [H Har Hc Hs Hd Hsum Hseg].
  apply fb_sorted_app in Hs as (Hs1 & Hs2 & Hs3). destruct Hs2 as (_ & He4 & Heu & Hs2).
  pose proof (h_first_cell_ge p H). pose proof (sized_bounds u p H). pose proof (offset_range p).
  assert (pre = []) as ->.
  { destruct pre as [|i pre]; [done|]. exfalso.
    apply Forall_cons_iff in Hs3 as [Hs3 _]. apply Forall_cons_iff in Hs3 as [Hs3 _].
    apply fb_sorted_Forall, Forall_cons_iff in Hs1 as [[[? ?] ?] _]. simpl in *. lia. }
  split; [done|].
  assert (upd u p1 (set_cca p1 e) (hd_set_cca (hdr_of p1) e) nowhere) as U2.
  { apply upd_set_cca; [apply U1|lia]. }
  rewrite (upd_hdr _ _ _ _ _ U1) in U2. pose proof (upd_trans _ _ _ _ _ _ _ _ U1 U2) as U.
  assert (upd u p (set_cca p1 e) (mkHdr (h_type p) (next0 suf) (h_ncell p) e (h_frag p)) nowhere)
    as U' by (eapply upd_weaken; [exact U|]; unfold either, nowhere; tauto).
  split; [|exact U'].
  destruct (upd_fields _ _ _ _ U') as (F1 & F2 & F3 & F4 & F5 & F6); simpl in F1, F2, F3, F4, F5, F6.
  destruct Hd as [Hd1 Hd2]. fold disjoint_all in Hd2. simpl in Hd1, Hd2, Hsum.
  apply Forall_app in Hd1 as [Hd1 _].
  split; rewrite ?F2, ?F4, ?F5, ?F6.
  - apply U'.
  - unfold h_first_cell, h_ptrs in Har. lia.
  - rewrite Forall_forall in Hc, Hd1 |- *. intros c Hin. destruct (Hc c Hin) as [[? ?] ?].
    specialize (Hd1 c Hin). unfold apart, within in *. simpl in Hd1. lia.
  - eapply fb_sorted_lower; [exact Hs2|lia].
  - eapply seg_upd; [exact U'| |exact Hseg].
    eapply Forall_impl; [|exact (fb_sorted_Forall _ _ _ Hs2)]. unfold within.
    intros j Hj. split; [lia|]. by intros x _ [].
  - done.
  - lia.
Qed.

Lemma freed_block p cells pre suf o e p1 fb W :
  freed p cells pre suf o e -> h_cca p < o ->
  upd u p p1 (hd_set_fb (hdr_of p) fb) W -> (forall x, W x -> x < o + 2) ->
  seg (buf p1) fb pre o ->
  let p' := set_block p1 o (e - o) (next0 suf) in
  layout u p' cells (pre ++ (o, e - o) :: suf) /\
  upd u p p' (hd_set_fb (hdr_of p) fb) (either W (span o (o + 4))).
Proof.
  intros F Ho U1 HW Hseg1 p'. destruct F as [H Har Hc Hs Hd Hsum Hseg].
  pose proof Hs as Hs0. apply fb_sorted_app in Hs as (Hs1 & Hs2 & Hs3).
  destruct Hs2 as (_ & He4 & Heu & Hs2).
  pose proof (h_first_cell_ge p H). pose proof (sized_bounds u p H). pose proof (offset_range p).
  pose proof (upd_offset _ _ _ _ _ U1) as Ho1.
  assert (0 <= next0 suf < 65536) as Hn.
  { destruct suf as [|[s l] suf]; simpl in *; [done|]. unfold next0. simpl. lia. }
  destruct (upd_set_block u p1 o (e - o) (next0 suf)) as (U2 & V1 & V2); [apply U1|lia..|].
  fold p' in U2, V1, V2. rewrite (upd_hdr _ _ _ _ _ U1) in U2.
  pose proof (upd_trans _ _ _ _ _ _ _ _ U1 U2) as U. split; [|exact U].
  destruct (upd_fields _ _ _ _ U) as (F1 & F2 & F3 & F4 & F5 & F6); simpl in F1, F2, F3, F4, F5, F6.
  split; rewrite ?F2, ?F4, ?F5, ?F6.
  - apply U.
  - unfold h_first_cell, h_ptrs in Har. lia.
  - done.
  - done.
  - apply seg_app. exists o. split.
    + eapply seg_upd; [exact U2| |exact Hseg1]. rewrite Ho1.
      rewrite Forall_forall in Hs3 |- *. intros i Hi.
      pose proof (fb_sorted_Forall _ _ _ Hs1) as Hf. rewrite Forall_forall in Hf.
      destruct (Hf i Hi) as [[? ?] ?]. specialize (Hs3 i Hi).
      apply Forall_cons_iff in Hs3 as [Hs3 _]. simpl in Hs3. unfold span.
      split; [lia|]. intros x ? ?. lia.
    + cbn [seg]. split; [done|]. split; [exact V2|]. rewrite V1.
      eapply seg_upd; [exact U| |exact Hseg].
      eapply Forall_impl; [|exact (fb_sorted_Forall _ _ _ Hs2)]. unfold within, either, span.
      intros j Hj. split; [lia|]. intros x Hx [Hw|Hw]; [apply HW in Hw|]; lia.
  - rewrite (assoc_L (++)). apply disjoint_all_cons_perm. rewrite <- (assoc_L (++)). exact Hd.
  - rewrite total_app, total_cons. simpl. lia.
Qed.

(** Running the two ends of [free_cell_range]. *)
Lemma free_into_unallocated_spec p cells pre d suf e first :
  freed p cells pre suf (h_cca p) e ->
  match prev_of (pre ++ d) with Some q => pre = [] -> q = first | None => True end ->
  wp False (free_into_unallocated e first (prev_of (pre ++ d)) (next_of suf))
    (fun _ p' => layout u p' cells suf /\
       upd u p p' (mkHdr (h_type p) (next0 suf) (h_ncell p) e (h_frag p)) nowhere) p.
Proof.
  intros F Hq. pose proof F as [H Har Hc Hs Hd Hsum Hseg]. pose proof (sized_bounds u p H).
  pose proof (h_first_cell_ge p H). pose proof (offset_range p).
  apply fb_sorted_app in Hs as (_ & (_ & He4 & Heu & Hs) & _).
  assert (0 <= next0 suf < 65536) as Hn.
  { destruct suf as [|[s l] suf]; simpl in *; [done|]. unfold next0. simpl. lia. }
  destruct (freed_unallocated p cells pre suf e (set_fb p (next0 suf)) F) as (-> & L & U).
  { by apply upd_set_fb. }
  unfold free_into_unallocated. apply wp_bind, wp_corrupt_if.
  { destruct (prev_of ([] ++ d)); [|done]. rewrite Hq by done. by rewrite Z.eqb_refl. }
  intros _. apply wp_bind, (wp_mono _ _ (fun _ p' => p' = set_fb p (next0 suf))).
  - destruct suf as [|[s l] suf]; cbn [next_of]; [by apply (wp_write_first_freeblock _ u)|].
    simpl in Hs. wcor. wread u. by apply (wp_write_first_freeblock _ u).
  - intros _ p' ->. apply (wp_write_cell_content_area _ u); [by apply sized_set_fb|lia|done].
Qed.

Lemma free_into_block_spec p cells pre d suf o e mid :
  freed p cells pre suf o e -> h_cca p < o ->
  seg (buf p) (h_fb p) (pre ++ d) mid -> (d = [] \/ exists l, d = [(o, l)]) ->
  wp False (free_into_block o (e - o) (prev_of (pre ++ d)) (next_of suf))
    (fun _ p' => layout u p' cells (pre ++ (o, e - o) :: suf) /\
       exists fb, upd u p p' (hd_set_fb (hdr_of p) fb)
                    (either (next_fields (pre ++ d)) (span o (o + 4)))) p.
Proof.
  intros F Ho Hseg Hd. pose proof F as [H Har Hc Hs _ Hsum _]. pose proof (sized_bounds u p H).
  pose proof (h_first_cell_ge p H). pose proof (offset_range p).
  apply fb_sorted_app in Hs as (Hs1 & (_ & He4 & Heu & Hs2) & Hs3).
  assert (Forall (fun i => i.1 + i.2 + 4 <= o) pre) as Hpo.
  { eapply Forall_impl; [|exact Hs3]. intros j Hj. by apply Forall_cons_iff in Hj as [Hj _]. }
  assert (exists fb W, upd u p (relink p (pre ++ d) o) (hd_set_fb (hdr_of p) fb) W /\
            (forall x, W x -> next_fields (pre ++ d) x) /\ (forall x, W x -> x < o + 2) /\
            seg (buf (relink p (pre ++ d) o)) fb pre o) as (fb & W & U1 & HW1 & HW & S1).
  { pose proof (fb_sorted_Forall _ _ _ Hs1) as Hf. destruct Hd as [->|[l ->]].
    - rewrite app_nil_r in *. destruct (relink_spec p pre o mid (h_cca p)) as (fb & U & S); try (done || lia).
      exists fb, (next_fields pre). split_and!; try done.
      intros x (i & Hi & Hx)%Exists_exists. rewrite Forall_forall in Hpo, Hf.
      specialize (Hpo i Hi). destruct (Hf i Hi). lia.
    - unfold relink. rewrite prev_of_snoc. apply seg_app in Hseg as (m & Hseg & -> & _).
      destruct (upd_set_u16 u p o o) as [U _]; try (done || lia).
      exists (h_fb p), (span o (o + 2)). split_and!; [exact U| |unfold span; lia|].
      + intros x Hx. apply Exists_app. right. by constructor.
      + eapply seg_upd; [exact U| |exact Hseg]. rewrite Forall_forall in Hpo, Hf |- *.
        intros i Hi. specialize (Hpo i Hi). destruct (Hf i Hi) as [[? ?] ?].
        unfold span. split; [lia|]. intros x ? ?. lia. }
  destruct (freed_block p cells pre suf o e _ fb W F Ho U1 HW S1) as (L & U).
  unfold free_into_block. wread u.
  apply wp_bind, (wp_mono _ _ (fun _ p' => p' = relink p (pre ++ d) o)).
  - unfold relink. destruct (prev_of (pre ++ d)) as [q|] eqn:Eq; [|by apply (wp_write_first_freeblock _ u)].
    assert (h_cca p <= q <= o).
    { destruct Hd as [->|[l ->]].
      - rewrite app_nil_r in Eq. pose proof (prev_of_Some _ _ _ _ Hs1 Eq).
        destruct pre as [|[q' l'] pre0 _] using rev_ind; [done|]. rewrite prev_of_snoc in Eq.
        injection Eq as ->. apply Forall_app in Hpo as [_ Hpo].
        apply Forall_cons_iff in Hpo as [Hpo _]. simpl in Hpo.
        apply fb_sorted_app in Hs1 as (_ & (? & ? & _) & _). lia.
      - rewrite prev_of_snoc in Eq. injection Eq as ->. lia. }
    by apply wp_write_u16_at; [lia..|].
  - intros _ p1 ->. wread u. apply wp_bind, (wp_mono _ _ (fun r p' => r = next_of suf /\ p' = relink p (pre ++ d) o)).
    + destruct suf as [|[s l] suf]; unfold opt_to_u16; cbn [next_of]; [by apply wp_ret|].
      simpl in Hs2. wread u. by apply wp_ret.
    + pose proof (upd_len _ _ _ _ _ U1). intros r p1 [-> ->]. apply wp_write_freeblock; [lia..|].
      split; [exact L|]. exists fb. eapply upd_weaken; [exact U|].
      unfold either. intros x [Hx|Hx]; auto.
Qed.

Lemma disjoint_all_drop (cells pre d d' suf : list ivl) :
  disjoint_all (cells ++ (pre ++ d) ++ d' ++ suf) -> disjoint_all (cells ++ pre ++ suf).
Proof.
  rewrite !disjoint_all_app, !Forall_app. intros (H1 & ((H2 & H3 & H4) & (H5 & H6 & H7) & (H8 & H9)) & H10).
  split_and!; try done.
  - eapply Forall_impl; [|exact H8]. intros i Hi. by apply Forall_app in Hi as [_ Hi].
  - eapply Forall_impl; [|exact H10]. intros i Hi. rewrite !Forall_app in Hi.
    apply Forall_app. tauto.
Qed.

(** The merged range replaces the freed cell and the neighbours it absorbed; the
    fragment bytes it swallowed were counted. *)
Lemma freed_intro p cells pre d d' suf off len o e rm :
  layout u p ((off, len) :: cells) ((pre ++ d) ++ d' ++ suf) ->
  off + len <= e <= u -> o <= off -> h_cca p <= o ->
  e - o = len + rm + total d + total d' -> 0 <= rm ->
  Forall (apart (o, e - o)) cells -> Forall (fun j => j.1 + j.2 + 4 <= o) pre ->
  Forall (fun j => e + 4 <= j.1) suf ->
  rm <= h_frag p /\
  forall p1, upd u p p1 (hd_set_frag (hdr_of p) (h_frag p - rm)) nowhere ->
             freed p1 cells pre suf o e.
Proof.
  intros HL He Ho Hcca Hlen Hrm Hap Hpre Hsuf. pose proof (lay_sized _ _ _ _ HL) as H.
  pose proof (lay_cells _ _ _ _ HL) as Hc. apply Forall_cons_iff in Hc as [[[_ _] Hl4] Hc].
  simpl in Hl4. pose proof (lay_disj _ _ _ _ HL) as [_ Hd]. fold disjoint_all in Hd.
  apply disjoint_all_drop in Hd. pose proof (lay_sum _ _ _ _ HL) as Hsum.
  rewrite !total_app, total_cons in Hsum. simpl in Hsum.
  pose proof (lay_fbs _ _ _ _ HL) as Hs. rewrite !fb_sorted_app in Hs.
  destruct Hs as ((Hs1 & _) & (_ & Hs2 & _) & _).
  assert (0 <= total d) as Hd0 by (pose proof (lay_area _ _ _ _ HL);
    pose proof (fb_sorted_Forall _ _ _ (lay_fbs _ _ _ _ HL)) as Hf; rewrite !Forall_app in Hf;
    apply total_nonneg; eapply Forall_impl; [|apply Hf]; simpl; intros i [_ ?]; lia).
  assert (0 <= total d') as Hd0' by (
    pose proof (fb_sorted_Forall _ _ _ (lay_fbs _ _ _ _ HL)) as Hf; rewrite !Forall_app in Hf;
    apply total_nonneg; eapply Forall_impl; [|apply Hf]; simpl; intros i [_ ?]; lia).
  assert (disjoint_all ((o, e - o) :: cells ++ pre ++ suf)) as Hdis.
  { split; [|exact Hd]. rewrite !Forall_app. split_and!; [done|..].
    - eapply Forall_impl; [|exact Hpre]. unfold apart. simpl. lia.
    - eapply Forall_impl; [|exact Hsuf]. unfold apart. simpl. lia. }
  assert (rm <= h_frag p) as Hfr.
  { pose proof (total_le _ (h_cca p) u ltac:(pose proof (lay_area _ _ _ _ HL); lia) Hdis) as Ht.
    rewrite total_cons, !total_app in Ht. simpl in Ht. enough (Forall (fun i => within (h_cca p) u i /\ 0 <= i.2) ((o, e - o) :: cells ++ pre ++ suf)) by (specialize (Ht ltac:(done)); lia).
    constructor; [unfold within; simpl; lia|]. rewrite !Forall_app.
    split_and!; (eapply Forall_impl; [|first [exact Hc|exact (fb_sorted_Forall _ _ _ Hs1)|exact (fb_sorted_Forall _ _ _ Hs2)]]; simpl; intros i [? ?]; split; [done|lia]). }
  split; [done|]. intros p1 U.
  destruct (upd_fields _ _ _ _ U) as (F1 & F2 & F3 & F4 & F5 & F6); simpl in F1, F2, F3, F4, F5, F6.
  pose proof (lay_cca_ge _ _ _ HL) as Hcc.
  split; rewrite ?F2, ?F4, ?F5, ?F6.
  - apply U.
  - pose proof (lay_area _ _ _ _ HL) as Har. unfold h_first_cell, h_ptrs in Har. lia.
  - done.
  - apply fb_sorted_app. split_and!; [done| |].
    + cbn [fb_sorted]. split_and!; try lia. eapply fb_sorted_raise; [exact Hs2|].
      eapply Forall_impl; [|exact Hsuf]. simpl. lia.
    + rewrite Forall_forall in Hpre |- *. intros i Hi. specialize (Hpre i Hi).
      constructor; [done|]. eapply Forall_impl; [|exact Hsuf]. simpl. lia.
  - done.
  - lia.
  - eapply seg_upd; [exact U| |].
    + eapply Forall_impl; [|exact (fb_sorted_Forall _ _ _ Hs2)]. unfold within. intros j Hj.
      split; [lia|]. by intros x _ [].
    + pose proof (lay_chain _ _ _ _ HL) as Hch. apply seg_app in Hch as (m & _ & Hch).
      apply seg_app in Hch as (m' & _ & Hch). by rewrite <- (seg_next0 _ _ _ Hch).
Qed.

(** [free_cell_range] *)
Definition cell_freed (p : page) (cells fbs : list ivl) (off len : Z) (p' : page) : Prop :=
  exists fbs' h, layout u p' cells fbs' /\ upd u p p' h (in_any ((off, len) :: fbs)) /\
    hd_type h = h_type p /\ hd_ncell h = h_ncell p /\ hd_frag h <= h_frag p.

Lemma next_fields_in_any lo hi l x : fb_sorted lo hi l -> next_fields l x -> in_any l x.
Proof.
  intros Hs%fb_sorted_Forall (i & Hi & Hx)%Exists_exists. rewrite Forall_forall in Hs.
  destruct (Hs i Hi). apply Exists_exists. exists i. unfold inside. split; [done|lia].
Qed.

(** Both ends, from the page on which the fragment count is already updated. *)
Lemma free_link_spec p p1 cells pre d d' suf off len o e rm :
  layout u p ((off, len) :: cells) ((pre ++ d) ++ d' ++ suf) ->
  upd u p p1 (hd_set_frag (hdr_of p) (h_frag p - rm)) nowhere ->
  freed p1 cells pre suf o e -> 0 <= rm ->
  (d = [] /\ o = off \/ exists l, d = [(o, l)]) ->
  wp False (if o =? h_cca p
            then free_into_unallocated e (h_fb p) (prev_of (pre ++ d)) (next_of suf)
            else free_into_block o (e - o) (prev_of (pre ++ d)) (next_of suf))
    (fun _ => cell_freed p cells ((pre ++ d) ++ d' ++ suf) off len) p1.
Proof.
  intros HL U F Hrm Hd. pose proof (lay_cca_ge _ _ _ HL) as Hcc.
  destruct (upd_fields _ _ _ _ U) as (F1 & F2 & F3 & F4 & F5 & F6); simpl in F1, F2, F3, F4, F5, F6.
  pose proof (lay_fbs _ _ _ _ HL) as Hs. pose proof Hs as Hs'.
  apply fb_sorted_app in Hs' as (Hs1 & _ & _).
  pose proof (upd_offset _ _ _ _ _ U) as Ho.
  assert (seg (buf p1) (h_fb p1) (pre ++ d) (next0 (d' ++ suf))) as Hseg.
  { rewrite F2. eapply seg_upd; [exact U| |].
    - eapply Forall_impl; [|exact (fb_sorted_Forall _ _ _ Hs1)]. unfold within. intros j Hj.
      split; [lia|]. by intros x _ [].
    - pose proof (lay_chain _ _ _ _ HL) as Hch. apply seg_app in Hch as (m & Hch & Hch').
      by rewrite <- (seg_next0 _ _ _ Hch'). }
  wif; zbool.
  - subst o. rewrite <- F4 in F. eapply wp_mono.
    + apply free_into_unallocated_spec with (cells := cells); [exact F|].
      destruct Hd as [[-> Hoff]|[l ->]].
      * rewrite app_nil_r. destruct (prev_of pre) eqn:Eq; [|done]. intros ->. done.
      * rewrite prev_of_snoc. intros ->. simpl in Hseg. destruct Hseg as (Hq & _).
        by rewrite F2 in Hq.
    + intros _ p' (L & U'). eexists suf, _. split_and!; [exact L| |..].
      * eapply upd_weaken; [exact (upd_trans _ _ _ _ _ _ _ _ U U')|]. by intros x [[]|[]].
      * done.
      * done.
      * simpl. lia.
  - assert (h_cca p1 < o) as Ho'.
    { pose proof (fr_sorted _ _ _ _ _ _ F) as Hf. apply fb_sorted_app in Hf as (_ & (? & _) & _).
      lia. }
    eapply wp_mono.
    + eapply free_into_block_spec; [exact F|exact Ho'|exact Hseg|].
      destruct Hd as [[-> _]|?]; auto.
    + intros _ p' (L & fb & U'). eexists _, _. split_and!; [exact L| |..].
      * eapply upd_weaken; [exact (upd_trans _ _ _ _ _ _ _ _ U U')|].
        intros x [[]|[Hx|Hx]].
        -- constructor 2. apply Exists_app. left. eapply next_fields_in_any; [exact Hs1|done].
        -- pose proof (fr_sorted _ _ _ _ _ _ F) as Hf.
           apply fb_sorted_app in Hf as (_ & (_ & ? & _) & _). unfold span in Hx.
           destruct Hd as [[-> ->]|[l ->]].
           ++ constructor 1. unfold inside. simpl.
              pose proof (lay_cells _ _ _ _ HL) as Hc. apply Forall_cons_iff in Hc as [[_ ?] _].
              simpl in *. lia.
           ++ constructor 2. apply Exists_app. left. apply Exists_app. right. constructor 1.
              apply fb_sorted_app in Hs1 as (_ & (_ & ? & _) & _). unfold inside. simpl. lia.
      * done.
      * done.
      * simpl. lia.
Qed.

Lemma free_cell_range_spec p cells fbs off len :
  layout u p ((off, len) :: cells) fbs ->
  wp False (free_cell_range off len u) (fun _ => cell_freed p cells fbs off len) p.
Proof.
  intros HL. pose proof (lay_sized _ _ _ _ HL) as H. pose proof (sized_bounds u p H).
  pose proof (lay_cca_ge _ _ _ HL). pose proof (offset_range p).
  pose proof (lay_totals _ _ _ HL) as (_ & _ & Hf256).
  pose proof (lay_cells _ _ _ _ HL) as Hc. apply Forall_cons_iff in Hc as [[[Hc1 Hc2] Hl4] _].
  simpl in Hc1, Hc2, Hl4. unfold free_cell_range, CELL_SIZE_MIN.
  wcor. unfold saturating_sub. wcor. wcor. wread u. wread u.
  pose proof (h_fb_head _ _ _ HL) as Hh.
  destruct fbs as [|[s0 l0] fbs0] eqn:Efbs.
  - rewrite Hh. simpl. wcor.
    destruct (freed_intro p cells [] [] [] [] off len off (off + len) 0) as [_ F];
      try (done || simpl; lia).
    { replace (off + len - off) with len by lia. pose proof (lay_disj _ _ _ _ HL) as [Hd _].
      by apply Forall_app in Hd as [Hd _]. }
    assert (upd u p p (hd_set_frag (hdr_of p) (h_frag p - 0)) nowhere) as U.
    { rewrite Z.sub_0_r. by apply upd_refl. }
    specialize (F p U). wif; zbool.
    + subst off. destruct (freed_unallocated p cells [] [] _ p F) as (_ & L & U').
      { rewrite Z.sub_0_r in U. unfold hd_set_fb, hdr_of, next0 in *. simpl in *. by rewrite Hh in *. }
      apply (wp_write_cell_content_area _ u); [done|lia|].
      eexists [], _. split; [exact L|].
      split; [eapply upd_weaken; [exact U'|]; by intros x []|].
      split_and!; [done|done|simpl; lia].
    + wread u. apply wp_bind, (wp_write_first_freeblock _ u); [done|]. wread u.
      assert (upd u p (set_fb p off) (hd_set_fb (hdr_of p) off) nowhere) as U1
        by (apply upd_set_fb; (done || lia)).
      destruct (freed_block p cells [] [] off (off + len) _ off nowhere F ltac:(lia) U1)
        as (L & U'); [done|done|]. replace (off + len - off) with len in * by lia.
      pose proof (upd_len _ _ _ _ _ U1). apply wp_write_freeblock; [lia..|].
      eexists _, _. split; [exact L|]. split.
      * eapply upd_weaken; [exact U'|]. intros x [[]|Hx]. constructor.
        unfold inside, span in *. simpl. lia.
      * split_and!; [done|done|simpl; lia].
  - destruct Hh as [Hh Hh']. wif; zbool; [lia|]. rewrite <- Efbs in *.
    replace (Some (h_fb p)) with (next_of fbs) by (rewrite Efbs, Hh; done).
    apply wp_bind. eapply wp_mono.
    { apply (free_search_spec _ p _ fbs [] fbs off HL); try (done || simpl; lia). }
    intros [? ?] p' (-> & pre & suf & Epre & [= -> ->] & Hpre & Hsuf). wbeta. rewrite Epre in HL.
    apply wp_bind, wp_corrupt_if.
    { destruct suf as [|[s l] suf]; cbn [next_of]; [done|].
      pose proof (lay_fbs _ _ _ _ HL) as Hfs. apply fb_sorted_app in Hfs as (_ & (? & ? & ? & _) & _).
      intros ?. zbool. lia. }
    intros _. apply wp_bind. eapply wp_mono; [by eapply merge_next_spec|].
    intros r p' (-> & e & rm & d' & suf' & -> & -> & He & Hrm & Hlen & Hsuf' & Hap & Hpre1). wbeta.
    apply wp_bind. eapply wp_mono; [by eapply merge_prev_spec|].
    intros r p' (-> & o & rm' & pre' & d & -> & -> & Hrm' & Hlen' & Hd & Hpre' & Hap'). wbeta.
    assert (h_cca p <= o).
    { destruct Hd as [[_ ->]|[l ->]]; [lia|]. pose proof (lay_fbs _ _ _ _ HL) as Hfs.
      apply fb_sorted_app in Hfs as (Hfs & _ & _). by apply fb_sorted_app in Hfs as (_ & (? & _) & _). }
    assert (0 <= total d).
    { destruct Hd as [[-> _]|[l ->]]; simpl; [lia|]. pose proof (lay_fbs _ _ _ _ HL) as Hfs.
      apply fb_sorted_app in Hfs as (Hfs & _ & _). apply fb_sorted_app in Hfs as (_ & (_ & ? & _) & _). lia. }
    destruct (freed_intro p cells pre' d d' suf' off len o e (rm + rm')) as [Hfr F]; try (done || lia).
    wread u. wcor. apply wp_bind, (wp_write_frag _ u); [done|]. wcor.
    assert (upd u p (set_frag p (h_frag p - (rm + rm')))
              (hd_set_frag (hdr_of p) (h_frag p - (rm + rm'))) nowhere) as U
      by (apply upd_set_frag; (done || lia)).
    rewrite Epre.
    apply (free_link_spec p _ cells pre' d d' suf' off len o e (rm + rm')); (done || auto || lia).
Qed.
End Layout.
