(* ===== verification/PageCells.v ===== *)
(** * The cells of a page as a list

    A well-formed page represents the list of its cells, in pointer order.  Over
    this representation both defragmentation algorithms keep the list and gather
    the freeblocks into the unallocated region, and [allocate_cell_space] finds
    room whenever the free space suffices.  The debug assertions of the code
    ([debug_validate_cells]) are shown to hold wherever it runs them. *)
From stdpp Require Import sorting.
From S2P Require Import Prelude Errors Varint OnDisk Intervals Page Cells FreeSpace.
From S2P Require Import FreeSpaceSpec PageLayout.

(** ** Cell contents *)
Definition holds (b : list Z) (o : Z) (c : list Z) : Prop :=
  forall i, 0 <= i < zlen c -> rd b (o + i) = rd c i.

(** The bytes a cell takes on its page. *)
Definition csize (c : list Z) : Z := Z.max 4 (zlen c).

(** A cell that [raw_cell_len] measures correctly, wherever it is stored. *)
Record cell_ok (t : PageType) (u : Z) (c : list Z) : Prop := mkCellOk {
  ck_nonempty : 0 < zlen c;
  ck_bytes : bytes_ok c;
  ck_leaf : PageType_as_u8 TableInterior < PageType_as_u8 t -> rd c 0 <> 0;
  ck_len : forall b o, bytes_ok b -> 0 <= o -> o + csize c <= zlen b -> holds b o c ->
    exists ovf, raw_cell_len b o u (payload_overflow_threshold_max t u)
                  (payload_overflow_threshold_min t u) t = Ok (csize c, ovf)
}.

Definition region (oc : Z * list Z) : ivl := (oc.1, csize oc.2).

Record repr (u : Z) (t : PageType) (p : page) (cs : list (Z * list Z)) (extra fbs : list ivl)
    : Prop := mkRepr {
  rp_layout : layout u p (extra ++ map region cs) fbs;
  rp_type : h_type p = PageType_as_u8 t;
  rp_count : h_ncell p = zlen cs;
  rp_ptr : forall i oc, cs !! i = Some oc -> u16 (buf p) (h_ptrs p + 2 * Z.of_nat i) = oc.1;
  rp_holds : Forall (fun oc => holds (buf p) oc.1 oc.2) cs;
  rp_ok : Forall (fun oc => cell_ok t u oc.2) cs
}.

Lemma csize_ge c : 4 <= csize c /\ zlen c <= csize c.
Proof. unfold csize. lia. Qed.

Lemma holds_agree b b' o c :
  agree b b' o (o + zlen c) -> holds b o c -> holds b' o c.
Proof. intros Ha Hh i Hi. rewrite Ha by lia. by apply Hh. Qed.

(** ** Copies inside the page *)
Section Copies.
Context (E : Prop) (u : Z).

Lemma upd_write_bytes p pos v :
  sized p u -> offset p + 8 <= pos -> pos + zlen v <= u -> bytes_ok v ->
  upd u p (with_buf p (splice (buf p) pos v)) (hdr_of p) (span pos (pos + zlen v)) /\
  holds (splice (buf p) pos v) pos v.
Proof.
  intros H Hp Hu Hv. pose proof (sized_bounds u p H). pose proof (offset_range p).
  pose proof (zlen_nonneg v). split.
  - split; try done.
    + apply sized_set_bytes; (done || lia).
    + apply zlen_splice; lia.
    + unfold hdr_of, h_type, h_fb, h_ncell, h_cca, h_frag, offset in *. cbn [buf page_id with_buf].
      rewrite ?u16_splice_other, ?rd_splice_out by lia. done.
    + intros x Hx Hs. unfold span in Hs. apply rd_splice_out; lia.
  - intros i Hi. rewrite rd_splice_in by lia. f_equal. lia.
Qed.

Lemma copy_within_upd p lo hi dst Q :
  sized p u -> 0 <= lo <= hi -> hi <= u -> offset p + 8 <= dst -> dst + (hi - lo) <= u ->
  (forall p', upd u p p' (hdr_of p) (span dst (dst + (hi - lo))) ->
     (forall x, dst <= x < dst + (hi - lo) -> rd (buf p') x = rd (buf p) (x - dst + lo)) ->
     Q () p') ->
  wp E (buf_copy_within lo hi dst) Q p.
Proof.
  intros H Hlo Hhi Hd Hdu HQ. pose proof (sized_bounds u p H). pose proof (offset_range p).
  set (v := ztake (hi - lo) (zdrop lo (buf p))).
  assert (zlen v = hi - lo) as Hv by (unfold v; rewrite zlen_ztake, zlen_zdrop; lia).
  destruct (upd_write_bytes p dst v) as [U Hh]; [done|lia|lia| |].
  { apply bytes_ok_ztake, bytes_ok_zdrop, H. }
  unfold wp, buf_copy_within, copy_within. rewrite zslice_Some by lia. simpl. fold v.
  rewrite zput_Some by lia. rewrite Hv in U. apply HQ; [exact U|].
  intros x Hx. specialize (Hh (x - dst)). replace (dst + (x - dst)) with x in Hh by lia.
  cbn [buf with_buf]. rewrite Hh by lia. unfold v. rewrite rd_ztake_zdrop by lia. f_equal. lia.
Qed.
End Copies.

(** ** Reading the cells of a represented page *)
Section Repr.
Context (E : Prop) (u : Z) (t : PageType).

Lemma rp_sized p cs extra fbs : repr u t p cs extra fbs -> sized p u.
Proof. intros H. apply (lay_sized _ _ _ _ (rp_layout _ _ _ _ _ _ H)). Qed.

Lemma rp_region p cs extra fbs i oc :
  repr u t p cs extra fbs -> cs !! i = Some oc ->
  h_cca p <= oc.1 /\ oc.1 + csize oc.2 <= u /\ holds (buf p) oc.1 oc.2 /\ cell_ok t u oc.2 /\
  Z.of_nat i < h_ncell p.
Proof.
  intros H Hi. pose proof (lay_cells _ _ _ _ (rp_layout _ _ _ _ _ _ H)) as Hc.
  apply Forall_app in Hc as [_ Hc]. apply Forall_map in Hc.
  rewrite Forall_lookup in Hc. destruct (Hc i oc Hi) as [[? ?] _]. simpl in *.
  pose proof (rp_holds _ _ _ _ _ _ H) as Hh. rewrite Forall_lookup in Hh.
  pose proof (rp_ok _ _ _ _ _ _ H) as Ho. rewrite Forall_lookup in Ho.
  split_and!; [lia|lia|exact (Hh i oc Hi)|exact (Ho i oc Hi)|].
  rewrite (rp_count _ _ _ _ _ _ H). apply lookup_lt_Some in Hi. unfold zlen. lia.
Qed.

(** The pointer array lies between the header and the content area. *)
Lemma rp_ptr_slot p cs extra fbs (i : Z) :
  repr u t p cs extra fbs -> 0 <= i < h_ncell p ->
  offset p + 8 <= h_ptrs p + 2 * i /\ h_ptrs p + 2 * i + 2 <= h_cca p /\ h_cca p <= u.
Proof.
  intros H Hi. pose proof (lay_area _ _ _ _ (rp_layout _ _ _ _ _ _ H)) as Ha.
  pose proof (h_ptrs_range p). unfold h_first_cell in Ha. lia.
Qed.

Lemma rp_lookup p cs extra fbs (i : Z) :
  repr u t p cs extra fbs -> 0 <= i < h_ncell p -> exists oc, cs !! Z.to_nat i = Some oc.
Proof.
  intros H Hi. apply lookup_lt_is_Some_2. rewrite (rp_count _ _ _ _ _ _ H) in Hi.
  unfold zlen in Hi. lia.
Qed.

Lemma wp_raw_start p cs extra fbs i oc Q :
  repr u t p cs extra fbs -> 0 <= i -> cs !! Z.to_nat i = Some oc -> Q oc.1 p ->
  wp E (cell_get_raw_start_offset i) Q p.
Proof.
  intros H Hi Hoc HQ. pose proof (rp_sized _ _ _ _ H) as Hs. pose proof (sized_bounds u p Hs).
  destruct (rp_region _ _ _ _ _ _ H Hoc) as (? & ? & _ & _ & Hn). rewrite Z2Nat.id in Hn by lia.
  pose proof (rp_ptr_slot _ _ _ _ i H ltac:(lia)). pose proof (offset_range p).
  unfold cell_get_raw_start_offset, CELL_PTR_SIZE_BYTES. wread u.
  replace (h_ptrs p + i * 2) with (h_ptrs p + 2 * i) by lia. wread u.
  pose proof (rp_ptr _ _ _ _ _ _ H _ _ Hoc) as Hp. rewrite Z2Nat.id in Hp by lia. by rewrite Hp.
Qed.

Lemma wp_raw_region p cs extra fbs i oc Q :
  repr u t p cs extra fbs -> 0 <= i -> cs !! Z.to_nat i = Some oc ->
  (forall ovf, Q (oc.1, csize oc.2, ovf) p) ->
  wp E (_cell_get_raw_region_faster i u (h_ncell p) (payload_overflow_threshold_max t u)
          (payload_overflow_threshold_min t u) t) Q p.
Proof.
  intros H Hi Hoc HQ. pose proof (rp_sized _ _ _ _ H) as Hs. pose proof (sized_bounds u p Hs).
  destruct (rp_region _ _ _ _ _ _ H Hoc) as (? & ? & Hh & Hok & Hn).
  rewrite Z2Nat.id in Hn by lia. pose proof (csize_ge oc.2) as [? _].
  pose proof (lay_cca_ge _ _ _ _ (rp_layout _ _ _ _ _ _ H)). pose proof (offset_range p).
  destruct (ck_len _ _ _ Hok (buf p) oc.1) as [ovf Hl]; [apply Hs|lia|lia|done|].
  unfold _cell_get_raw_region_faster. apply wp_bind. unfold get_buf, wp at 1. wread u.
  apply wp_bind, (wp_raw_start p cs extra fbs i oc); [done..|].
  apply wp_bind. unfold lift, wp at 1. rewrite Hl. wbeta.
  apply wp_bind. unfold lift, wp at 1, assert_or_bail_corrupt.
  rewrite (proj2 (Z.leb_le _ _)) by lia. apply wp_bind. destruct ovf.
  - apply wp_bind, wp_usub; [lia|]. apply wp_bind. unfold lift, wp at 1, be_u32.
    rewrite zslice_Some by lia. simpl. apply HQ.
  - apply wp_ret, wp_ret, HQ.
Qed.

Lemma wp_for_each {A} (f : A -> PM ()) l (I : nat -> page -> Prop) p :
  (forall k x p, l !! k = Some x -> I k p -> wp E (f x) (fun _ p' => I (S k) p') p) ->
  I 0%nat p -> wp E (for_each f l) (fun _ p' => I (length l) p') p.
Proof.
  revert I p. induction l as [|x l IH]; intros I p Hf H0; [exact H0|].
  simpl. apply wp_bind. eapply wp_mono; [by apply (Hf 0%nat)|].
  intros [] p' H1. apply (IH (fun k => I (S k))); [|done].
  intros k y p'' Hk. by apply (Hf (S k)).
Qed.

(** A loop over [0..n] *)
Lemma wp_for_range (f : Z -> PM ()) n (I : Z -> page -> Prop) p Q :
  0 <= n ->
  (forall i p, 0 <= i < n -> I i p -> wp E (f i) (fun _ p' => I (i + 1) p') p) ->
  I 0 p -> (forall p', I n p' -> Q () p') -> wp E (for_each f (range n)) Q p.
Proof.
  intros Hn Hf H0 HQ. eapply wp_mono.
  - apply (wp_for_each f (range n) (fun k => I (Z.of_nat k)) p); [|exact H0].
    intros k x p' [Hx Hk]%lookup_seqZ Hi. subst x. rewrite Z.add_0_l, Nat2Z.inj_succ.
    apply Hf; [lia|done].
  - intros [] p'. unfold range. rewrite length_seqZ, Z2Nat.id by lia. apply HQ.
Qed.

Lemma wp_is_leaf p Q :
  sized p u -> Q (PageType_as_u8 TableInterior <? h_type p) p -> wp E is_leaf Q p.
Proof.
  intros H HQ. pose proof (sized_bounds u p H). pose proof (offset_range p).
  unfold is_leaf, wp, mbind, PM_bind, read_u8, BTREE_PAGE_TYPE.
  rewrite Z.add_0_r, zget_rd by lia. exact HQ.
Qed.

Lemma wp_cell_region p cs extra fbs i oc Q :
  repr u t p cs extra fbs -> 0 <= i -> cs !! Z.to_nat i = Some oc ->
  Q (oc.1, csize oc.2) p -> wp E (cell_get_raw_region i u) Q p.
Proof.
  intros H Hi Hoc HQ. pose proof (rp_sized _ _ _ _ H) as Hs.
  unfold cell_get_raw_region, cell_get_raw_region_and_overflow.
  apply wp_bind, wp_bind, (wp_page_type _ u t); [done|..].
  { rewrite (rp_type _ _ _ _ _ _ H). apply PageType_roundtrip. }
  wread u. eapply wp_raw_region; [done..|]. intros ovf. exact HQ.
Qed.

End Repr.

(** [unwrap] of a page computation that cannot fail. *)
Lemma wp_unwrap {A} E (m : PM A) (Q : A -> page -> Prop) p :
  wp False m Q p ->
  wp E (fun p => match m p with (Ok r, p') => (Ok r, p') | (_, p') => (Panic, p') end) Q p.
Proof. unfold wp. by destruct (m p) as [[a|e|] p']. Qed.

(** The debug assertions hold on every represented page. *)
Lemma wp_debug_validate E u t p cs extra fbs Q :
  repr u t p cs extra fbs -> Q () p -> wp E (debug_validate_cells u) Q p.
Proof.
  intros H HQ. pose proof (rp_sized _ _ _ _ _ _ H) as Hs. pose proof (sized_bounds u p Hs).
  pose proof (lay_area _ _ _ _ (rp_layout _ _ _ _ _ _ H)) as Har.
  pose proof (lay_cca_ge _ _ _ _ (rp_layout _ _ _ _ _ _ H)). pose proof (offset_range p).
  unfold debug_validate_cells. wread u. wread u. wread u. wread u.
  apply (wp_for_range _ _ (h_ncell p) (fun _ p' => p' = p)); [|  |done|by intros p' ->].
  { rewrite (rp_count _ _ _ _ _ _ H). apply zlen_nonneg. }
  intros i p' Hi ->. destruct (rp_lookup _ _ _ _ _ _ i H Hi) as [oc Hoc].
  destruct (rp_region _ _ _ _ _ _ _ _ H Hoc) as (? & ? & Hh & Hok & _).
  pose proof (csize_ge oc.2) as [? ?]. pose proof (ck_nonempty _ _ _ Hok).
  apply wp_bind, wp_unwrap. eapply wp_cell_region; [exact H|lia|exact Hoc|]. wbeta.
  wread u. apply wp_bind. unfold get_buf, wp at 1. apply wp_bind. unfold lift, wp at 1.
  rewrite zslice_Some by lia. cbn [or_panic]. wread u.
  apply wp_bind, (wp_is_leaf _ u); [done|]. apply wp_bind.
  apply (wp_mono _ _ (fun _ p' => p' = p)).
  - wif; [|by apply wp_ret]. apply wp_bind. unfold get_buf, wp at 1. apply wp_bind.
    unfold lift, wp at 1. rewrite zget_rd by lia. cbn [or_panic].
    apply wp_passert; [|done]. zbool. rewrite (rp_type _ _ _ _ _ _ H) in *.
    specialize (Hh 0 ltac:(lia)). rewrite Z.add_0_r in Hh. rewrite Hh.
    apply negb_true_iff, Z.eqb_neq. by apply (ck_leaf _ _ _ Hok).
  - intros _ p' ->. wread u. done.
Qed.

(** ** Fast defragmentation: one or two freeblocks *)
Definition old_ptr (p : page) (i : Z) : Z := u16 (buf p) (h_ptrs p + 2 * i).

Lemma disjoint_all_map (P : ivl -> Prop) (f : ivl -> ivl) l :
  (forall i j, P i -> P j -> apart i j -> apart (f i) (f j)) ->
  Forall P l -> disjoint_all l -> disjoint_all (map f l).
Proof.
  intros Hf HP. induction HP as [|i l Hi Hl IH]; simpl; [done|]. intros [H1 H2].
  split; [|auto]. apply Forall_map. rewrite Forall_forall in Hl, H1 |- *. auto.
Qed.

Section Fast.
Context (u f1 s1 g2 z2 : Z).

(** Where a cell pointer moves. *)
Definition sh (x : Z) : Z :=
  if x <? f1 then x + (s1 + z2) else if x <? g2 then x + z2 else x.

Lemma upd_ptr_slot p p1 i v n :
  upd u p p1 (hdr_of p) (span (h_ptrs p) (h_ptrs p + 2 * n)) ->
  0 <= i < n -> h_ptrs p + 2 * n <= u -> 0 <= v < 65536 ->
  let p2 := set_u16 p1 (h_ptrs p + 2 * i) v in
  upd u p p2 (hdr_of p) (span (h_ptrs p) (h_ptrs p + 2 * n)) /\
  (forall j, 0 <= j < n ->
     u16 (buf p2) (h_ptrs p + 2 * j) =
       if j =? i then v else u16 (buf p1) (h_ptrs p + 2 * j)).
Proof.
  intros U Hi Hu Hv p2. pose proof (h_ptrs_range p). pose proof (upd_offset _ _ _ _ _ U) as Ho.
  destruct (upd_set_u16 u p1 (h_ptrs p + 2 * i) v) as [U2 V]; [apply U|lia..|].
  rewrite (upd_hdr _ _ _ _ _ U) in U2. split.
  - eapply upd_weaken; [exact (upd_trans _ _ _ _ _ _ _ _ U U2)|].
    unfold either, span. intros x. lia.
  - intros j Hj. destruct (Z.eqb_spec j i) as [->|Hne]; [exact V|].
    apply (upd_u16 _ _ _ _ _ _ U2); unfold span; lia.
Qed.

(** The pointer loop. *)
Lemma shift_pointers_spec E p Q (f2 : Z) :
  sized p u -> h_first_cell p <= u -> 0 <= s1 -> 0 <= z2 -> g2 <= u ->
  (f2 = 0 /\ z2 = 0 \/ 0 < f2 /\ f2 = g2) ->
  (forall i, 0 <= i < h_ncell p -> 0 <= old_ptr p i /\ sh (old_ptr p i) < u) ->
  (forall p', upd u p p' (hdr_of p) (span (h_ptrs p) (h_first_cell p)) ->
     (forall i, 0 <= i < h_ncell p -> u16 (buf p') (h_ptrs p + 2 * i) = sh (old_ptr p i)) ->
     Q () p') ->
  wp E (for_each (fun i => shift_cell_pointer (h_ptrs p + i * CELL_PTR_SIZE_BYTES) u f1 f2
                             (s1 + z2) z2) (range (h_ncell p))) Q p.
Proof.
  intros H Hfc Hs1 Hz2 Hg2 Hf2 Hold HQ. pose proof (sized_bounds u p H).
  pose proof (h_ptrs_range p). pose proof (offset_range p).
  pose proof (u16_range (buf p) (offset p + 3) (sized_bytes _ _ H)). fold (h_ncell p) in *.
  unfold h_first_cell in *.
  apply (wp_for_range _ _ _ (fun k p' => upd u p p' (hdr_of p) (span (h_ptrs p) (h_ptrs p + 2 * h_ncell p)) /\
    forall j, 0 <= j < h_ncell p ->
      u16 (buf p') (h_ptrs p + 2 * j) = if j <? k then sh (old_ptr p j) else old_ptr p j)); [lia|..].
  - intros i p1 Hi [U Hptr]. pose proof (upd_len _ _ _ _ _ U). unfold shift_cell_pointer, CELL_PTR_SIZE_BYTES.
    replace (h_ptrs p + i * 2) with (h_ptrs p + 2 * i) by lia. wread u.
    pose proof (Hptr i Hi) as Hpi. rewrite Z.ltb_irrefl in Hpi. rewrite Hpi.
    destruct (Hold i Hi) as [Ho1 Ho2]. unfold sh in Ho2.
    assert (forall v p2, v = sh (old_ptr p i) -> p2 = set_u16 p1 (h_ptrs p + 2 * i) v \/ (p2 = p1 /\ v = old_ptr p i) ->
       upd u p p2 (hdr_of p) (span (h_ptrs p) (h_ptrs p + 2 * h_ncell p)) /\
       forall j, 0 <= j < h_ncell p ->
         u16 (buf p2) (h_ptrs p + 2 * j) = if j <? i + 1 then sh (old_ptr p j) else old_ptr p j) as Hdone.
    { intros v p2 Hv [->|[-> Hv']].
      - destruct (upd_ptr_slot p p1 i v (h_ncell p) U Hi Hfc) as [U2 Hp2].
        { subst v. unfold sh in *. destruct (old_ptr p i <? f1), (old_ptr p i <? g2); lia. }
        split; [exact U2|]. intros j Hj. rewrite Hp2, Hptr by done.
        destruct (Z.eqb_spec j i) as [Ej|].
        + subst j. by rewrite (proj2 (Z.ltb_lt i (i + 1))) by lia.
        + destruct (Z.ltb_spec j i), (Z.ltb_spec j (i + 1)); (done || lia).
      - split; [done|]. intros j Hj. rewrite Hptr by done.
        destruct (Z.ltb_spec j i), (Z.ltb_spec j (i + 1)); try (done || lia).
        replace j with i in * by lia. congruence. }
    wif; zbool.
    + rewrite (proj2 (Z.ltb_lt _ _)) in Ho2 by lia. wcor.
      rewrite wrap_small by (unfold in_u; lia). apply wp_write_u16_at; [lia..|].
      eapply Hdone; [|by left]. unfold sh. by rewrite (proj2 (Z.ltb_lt _ _)) by lia.
    + rewrite (proj2 (Z.ltb_ge _ f1)) in Ho2 by lia. wif; zbool.
      * assert (f2 = g2) as -> by lia. rewrite (proj2 (Z.ltb_lt _ g2)) in Ho2 by lia. wcor.
        rewrite wrap_small by (unfold in_u; lia). apply wp_write_u16_at; [lia..|].
        eapply Hdone; [|by left]. unfold sh.
        by rewrite (proj2 (Z.ltb_ge _ f1)), (proj2 (Z.ltb_lt _ g2)) by lia.
      * apply wp_ret. apply (Hdone (old_ptr p i)); [|by right]. unfold sh.
        rewrite (proj2 (Z.ltb_ge _ f1)) by lia.
        destruct (Z.ltb_spec (old_ptr p i) g2); [|done].
        match goal with Hb : (0 <? f2) && _ = false |- _ =>
          apply andb_false_iff in Hb as [Hb|Hb]; zbool; lia end.
  - split; [eapply upd_weaken; [by apply upd_refl|]; by intros x []|].
    intros j Hj. by rewrite (proj2 (Z.ltb_ge j 0)) by lia.
  - intros p' [U Hptr]. apply HQ; [exact U|]. intros i Hi. rewrite Hptr by done.
    by rewrite (proj2 (Z.ltb_lt i _)) by lia.
Qed.

(** The page has the blocks [(f1, s1)] and, if there are two, [(g2, z2)]; with a
    single block the second range is empty at the end of the usable space. *)
Definition blocks (fbs : list ivl) : Prop :=
  fbs = [(f1, s1)] /\ g2 = u /\ z2 = 0 \/ fbs = [(f1, s1); (g2, z2)].

Definition zone (i : ivl) : Prop :=
  i.1 + i.2 <= f1 \/ (f1 + s1 <= i.1 /\ i.1 + i.2 <= g2) \/ g2 + z2 <= i.1.

Definition shi (i : ivl) : ivl := (sh i.1, i.2).

Context (t : PageType) (p : page) (cs : list (Z * list Z)) (fbs : list ivl).
Context (HR : repr u t p cs [] fbs) (HB : blocks fbs).

Lemma fast_bounds :
  offset p + 8 <= h_first_cell p <= h_cca p /\ h_cca p <= f1 /\ 4 <= s1 /\ 0 <= z2 /\
  f1 + s1 <= g2 /\ g2 + z2 <= u /\ total fbs = s1 + z2 /\
  480 <= u <= 65536 /\ u <= zlen (buf p) /\ h_fb p = f1.
Proof.
  pose proof (rp_layout _ _ _ _ _ _ HR) as HL. pose proof (lay_sized _ _ _ _ HL) as H.
  pose proof (lay_area _ _ _ _ HL). pose proof (h_first_cell_ge u p H).
  pose proof (sized_bounds u p H). pose proof (lay_fbs _ _ _ _ HL) as Hs.
  pose proof (lay_chain _ _ _ _ HL) as Hc.
  destruct HB as [(-> & -> & ->)| ->]; simpl in Hs, Hc |- *; intuition lia.
Qed.

Lemma fast_zones :
  Forall (fun i => zone i /\ within (h_cca p) u i /\ 4 <= i.2) (map region cs).
Proof.
  pose proof (rp_layout _ _ _ _ _ _ HR) as HL. pose proof (lay_cells _ _ _ _ HL) as Hc.
  pose proof (lay_disj _ _ _ _ HL) as Hd. apply disjoint_all_app in Hd as (_ & _ & Hd).
  pose proof fast_bounds. simpl in Hc, Hd. rewrite Forall_forall in Hc, Hd |- *. intros i Hi.
  destruct (Hc i Hi) as [[? ?] ?]. specialize (Hd i Hi). split; [|done]. unfold zone.
  destruct HB as [(-> & -> & ->)| ->]; rewrite ?Forall_cons_iff in Hd;
    unfold apart in Hd; simpl in Hd; intuition lia.
Qed.

Lemma sh_zone i : zone i -> within (h_cca p) u i -> 4 <= i.2 ->
  h_cca p + (s1 + z2) <= sh i.1 /\ sh i.1 + i.2 <= u /\ i.1 <= sh i.1.
Proof.
  pose proof fast_bounds. unfold zone, within, sh. intros.
  destruct (Z.ltb_spec i.1 f1), (Z.ltb_spec i.1 g2); intuition lia.
Qed.

Lemma sh_apart i j :
  zone i /\ within (h_cca p) u i /\ 4 <= i.2 -> zone j /\ within (h_cca p) u j /\ 4 <= j.2 ->
  apart i j -> apart (shi i) (shi j).
Proof.
  pose proof fast_bounds. unfold zone, within, apart, shi, sh. simpl. intros.
  destruct (Z.ltb_spec i.1 f1), (Z.ltb_spec i.1 g2), (Z.ltb_spec j.1 f1), (Z.ltb_spec j.1 g2);
    intuition lia.
Qed.

Lemma fast_repr p' W :
  upd u p p' (mkHdr (h_type p) 0 (h_ncell p) (h_cca p + (s1 + z2)) (h_frag p)) W ->
  (forall i, 0 <= i < h_ncell p -> u16 (buf p') (h_ptrs p + 2 * i) = sh (old_ptr p i)) ->
  (forall i x, zone i -> within (h_cca p) u i -> 4 <= i.2 -> inside x i ->
     rd (buf p') (sh i.1 + (x - i.1)) = rd (buf p) x) ->
  repr u t p' (map (fun oc => (sh oc.1, oc.2)) cs) [] [].
Proof.
  intros U Hptr Hmv. pose proof fast_bounds. pose proof fast_zones as Hz.
  pose proof (rp_layout _ _ _ _ _ _ HR) as HL.
  destruct (upd_fields _ _ _ _ _ U) as (F1 & F2 & F3 & F4 & F5 & F6); simpl in F1, F2, F3, F4, F5, F6.
  assert (h_ptrs p' = h_ptrs p) as Hpp.
  { unfold h_ptrs. rewrite F1. by rewrite (upd_offset _ _ _ _ _ U). }
  assert (map region (map (fun oc => (sh oc.1, oc.2)) cs) = map shi (map region cs)) as Hmap.
  { rewrite !map_map. done. }
  assert (total (map shi (map region cs)) = total (map region cs)) as Htot.
  { generalize (map region cs). induction l as [|i l IH]; simpl; lia. }
  split.
  - simpl. rewrite Hmap. split; rewrite ?F2, ?F4, ?F5, ?F6.
    + apply U.
    + pose proof (lay_area _ _ _ _ HL) as Har. unfold h_first_cell, h_ptrs in Har |- *. lia.
    + apply Forall_map. eapply Forall_impl; [|exact Hz]. intros i (Hi & Hw & Hl).
      pose proof (sh_zone i Hi Hw Hl). unfold within. simpl. lia.
    + done.
    + done.
    + rewrite app_nil_r. eapply disjoint_all_map; [exact sh_apart|exact Hz|].
      pose proof (lay_disj _ _ _ _ HL) as Hd. by apply disjoint_all_app in Hd as (Hd & _).
    + rewrite Htot. pose proof (lay_sum _ _ _ _ HL) as Hsum. simpl in Hsum |- *. lia.
  - by rewrite F1, (rp_type _ _ _ _ _ _ HR).
  - rewrite F3, (rp_count _ _ _ _ _ _ HR). unfold zlen. by rewrite length_map.
  - intros i oc Hi. rewrite list_lookup_fmap in Hi. apply fmap_Some in Hi as (oc' & Hi & ->).
    rewrite Hpp. simpl. pose proof (rp_region _ _ _ _ _ _ _ _ HR Hi) as (_ & _ & _ & _ & Hn).
    rewrite Hptr by lia. unfold old_ptr. by rewrite (rp_ptr _ _ _ _ _ _ HR _ _ Hi).
  - apply Forall_map. apply Forall_lookup. intros i oc Hi. simpl.
    pose proof (rp_region _ _ _ _ _ _ _ _ HR Hi) as (? & ? & Hh & _ & _).
    pose proof (csize_ge oc.2). rewrite Forall_map in Hz. rewrite Forall_lookup in Hz.
    destruct (Hz i oc Hi) as (Hzo & Hw & Hl).
    intros k Hk. rewrite <- (Hh k Hk).
    specialize (Hmv (region oc) (oc.1 + k) Hzo Hw Hl). simpl in Hmv.
    replace (oc.1 + k - oc.1) with k in Hmv by lia. apply Hmv. unfold inside. simpl. lia.
  - apply Forall_map. apply (rp_ok _ _ _ _ _ _ HR).
Qed.

(** What is kept by a defragmentation: the cells (in their order), the page id and
    the overflow cells; and all freeblocks are gone. *)
Definition packed (p' : page) (frag : Z) : Prop :=
  exists cs', repr u t p' cs' [] [] /\ map snd cs' = map snd cs /\
    page_id p' = page_id p /\ overflow_cells p' = overflow_cells p /\ h_frag p' <= frag.

Definition mid_moved (p1 : page) : Prop :=
  upd u p p1 (hdr_of p) (span (f1 + (s1 + z2)) (g2 + z2)) /\
  forall x, f1 + s1 <= x < g2 -> rd (buf p1) (x + z2) = rd (buf p) x.

Lemma fast_mid E f2 :
  f2 = (if z2 =? 0 then 0 else g2) -> (z2 = 0 -> length fbs = 1%nat) ->
  wp E (if 0 <? f2 then
     corrupt_if (f2 <? f1 + s1) ;;
     corrupt_if (u <? f2 + z2) ;;
     let after_first_freeblock := f1 + s1 in
     copy_amount ← usub f2 after_first_freeblock;
     buf_copy_within after_first_freeblock (after_first_freeblock + copy_amount)
       (f1 + (s1 + z2))
   else corrupt_if (u <? f1 + s1)) (fun _ => mid_moved) p.
Proof.
  intros -> Hz. pose proof fast_bounds as Hb. pose proof (rp_sized _ _ _ _ _ _ HR) as H.
  pose proof (offset_range p). destruct (Z.eqb_spec z2 0) as [Ez|Ez].
  - simpl. wcor. split; [eapply upd_weaken; [by apply upd_refl|]; by intros x []|].
    intros x Hx. by rewrite Ez, Z.add_0_r.
  - wif; zbool; [|lia]. wcor. wcor. wread u.
    apply (copy_within_upd _ u); [done|lia..|]. intros p1 U Hc.
    replace (f1 + s1 + (g2 - (f1 + s1)) - (f1 + s1)) with (g2 - (f1 + s1)) in * by lia.
    split.
    + eapply upd_weaken; [exact U|]. unfold span. intros x. lia.
    + intros x Hx. rewrite Hc by lia. f_equal. lia.
Qed.

Lemma defragment_page_fast_spec E f2 :
  f2 = (if z2 =? 0 then 0 else g2) -> (z2 = 0 -> length fbs = 1%nat) ->
  u16 (buf p) (f1 + 2) = s1 -> (z2 <> 0 -> u16 (buf p) (g2 + 2) = z2 /\ 4 <= z2) ->
  wp E (defragment_page_fast u f1 f2) (fun _ p' => packed p' (h_frag p)) p.
Proof.
  intros Ef2 Hz Hsz1 Hsz2. pose proof fast_bounds as Hb. pose proof (rp_sized _ _ _ _ _ _ HR) as H.
  pose proof (offset_range p). assert (f2 <= u - 4 /\ 0 <= f2).
  { subst f2. destruct (Z.eqb_spec z2 0); [lia|]. lia. }
  unfold defragment_page_fast. wcor.
  apply wp_bind, wp_corrupt_if.
  { intros Hc. apply andb_true_iff in Hc as [? ?]. zbool. subst f2.
    destruct (Z.eqb_spec z2 0); lia. }
  intros _. wread u. wcor. wcor. wread u. rewrite Hsz1.
  apply wp_bind, (wp_mono _ _ (fun r p' => r = z2 /\ p' = p)).
  { subst f2. destruct (Z.eqb_spec z2 0); simpl; [by apply wp_ret|].
    destruct (Hsz2 ltac:(done)). wif; zbool; [|lia]. wread u. done. }
  intros r p0 [-> ->]. wread u. apply wp_bind.
  eapply wp_mono; [by apply fast_mid|]. intros _ p1 [U1 Hmid].
  pose proof (upd_len _ _ _ _ _ U1). pose proof (upd_offset _ _ _ _ _ U1) as Ho1.
  wread u. wcor. apply wp_bind, (copy_within_upd _ u); [apply U1|lia..|].
  intros p2 U2 Hleft. rewrite (upd_hdr _ _ _ _ _ U1) in U2.
  replace (h_cca p + (f1 - h_cca p) - h_cca p) with (f1 - h_cca p) in * by lia.
  pose proof (upd_trans _ _ _ _ _ _ _ _ U1 U2) as U12.
  destruct (upd_fields _ _ _ _ _ U12) as (F1 & F2 & F3 & F4 & F5 & F6); simpl in F1, F2, F3, F4, F5, F6.
  pose proof (upd_sized _ _ _ _ _ U12) as Hs2. pose proof (upd_offset _ _ _ _ _ U12) as Ho2.
  wread u. wread u.
  assert (h_ptrs p2 = h_ptrs p) as Hpp by (unfold h_ptrs; by rewrite F1, Ho2).
  assert (h_first_cell p2 = h_first_cell p) as Hfc by (unfold h_first_cell; by rewrite Hpp, F3).
  assert (forall i, 0 <= i < h_ncell p -> old_ptr p2 i = old_ptr p i) as Hold.
  { intros i Hi. unfold old_ptr. rewrite Hpp. pose proof (rp_ptr_slot _ _ _ _ _ _ i HR Hi).
    apply (upd_u16 _ _ _ _ _ _ U12); unfold either, span; lia. }
  apply wp_bind, shift_pointers_spec; rewrite ?Hfc; try (done || lia).
  { subst f2. destruct (Z.eqb_spec z2 0); [left; lia|right; lia]. }
  { rewrite F3. intros i Hi. rewrite Hold by done. destruct (rp_lookup _ _ _ _ _ _ i HR Hi) as [oc Hoc].
    pose proof (rp_ptr _ _ _ _ _ _ HR _ _ Hoc) as Hp. rewrite Z2Nat.id in Hp by lia.
    unfold old_ptr. rewrite Hp. pose proof fast_zones as Hzo. apply Forall_map in Hzo.
    rewrite Forall_lookup in Hzo. destruct (Hzo _ _ Hoc) as (Hz1 & Hw & Hl).
    pose proof (sh_zone _ Hz1 Hw Hl). unfold within in Hw. simpl in *. lia. }
  rewrite Hpp, F3, (upd_hdr _ _ _ _ _ U12). intros p3 U3 Hptr.
  pose proof (upd_trans _ _ _ _ _ _ _ _ U12 U3) as U13.
  apply wp_bind, (wp_write_cell_content_area _ u); [apply U13|lia|].
  pose proof (upd_set_cca u p3 (h_cca p + (s1 + z2)) (upd_sized _ _ _ _ _ U13) ltac:(lia)) as U4.
  rewrite (upd_hdr _ _ _ _ _ U13) in U4. pose proof (upd_trans _ _ _ _ _ _ _ _ U13 U4) as U14.
  apply wp_bind, (wp_write_first_freeblock _ u); [apply U14|].
  pose proof (upd_set_fb u _ 0 (upd_sized _ _ _ _ _ U14) ltac:(lia)) as U5.
  rewrite (upd_hdr _ _ _ _ _ U14) in U5. pose proof (upd_trans _ _ _ _ _ _ _ _ U14 U5) as U.
  set (p5 := set_fb (set_cca p3 (h_cca p + (s1 + z2))) 0) in *.
  assert (forall x, h_first_cell p <= x -> rd (buf p5) x = rd (buf p2) x) as R52.
  { intros x Hx. pose proof (upd_trans _ _ _ _ _ _ _ _ U3 (upd_trans _ _ _ _ _ _ _ _ U4 U5)) as U35.
    apply (upd_frame _ _ _ _ _ U35); [lia|]. unfold either, span, nowhere. lia. }
  assert (repr u t p5 (map (fun oc => (sh oc.1, oc.2)) cs) [] []) as R5.
  { eapply fast_repr; [exact U| |].
    - intros i Hi. rewrite <- (Hold i Hi), <- Hptr by done. pose proof (rp_ptr_slot _ _ _ _ _ _ i HR Hi).
      pose proof (upd_trans _ _ _ _ _ _ _ _ U4 U5) as U45. pose proof (upd_offset _ _ _ _ _ U13).
      apply (upd_u16 _ _ _ _ _ _ U45); unfold either, nowhere; (lia || tauto).
    - intros i x Hzo Hw Hl Hx. pose proof (sh_zone i Hzo Hw Hl) as Hshz.
      unfold inside, within in Hx, Hw. rewrite R52 by lia. unfold sh, zone in *.
      destruct (Z.ltb_spec i.1 f1).
      + rewrite Hleft by lia. replace (i.1 + (s1 + z2) + (x - i.1) - (h_cca p + (s1 + z2)) + h_cca p) with x by lia.
        apply (upd_frame _ _ _ _ _ U1); unfold span; lia.
      + destruct (Z.ltb_spec i.1 g2).
        * rewrite (upd_frame _ _ _ _ _ U2) by (unfold span; lia).
          replace (i.1 + z2 + (x - i.1)) with (x + z2) by lia. apply Hmid. lia.
        * replace (i.1 + (x - i.1)) with x by lia.
          apply (upd_frame _ _ _ _ _ U12); unfold either, span; lia. }
  eapply wp_debug_validate; [exact R5|]. exists (map (fun oc => (sh oc.1, oc.2)) cs).
  split_and!; [done|by rewrite map_map|apply U|apply U|].
  destruct (upd_fields _ _ _ _ _ U) as (_ & _ & _ & _ & -> & _). simpl. lia.
Qed.
End Fast.

(** ** Full defragmentation *)
Lemma ss_app {A} (R : A -> A -> Prop) l k :
  StronglySorted R (l ++ k) <->
  StronglySorted R l /\ StronglySorted R k /\ Forall (fun x => Forall (R x) k) l.
Proof.
  induction l as [|x l IH]; simpl.
  - split; [|tauto]. intros H. split_and!; [constructor|done|constructor].
  - rewrite Forall_cons_iff. split.
    + intros [H1 H2]%StronglySorted_inv. apply IH in H1 as (? & ? & ?).
      apply Forall_app in H2 as [? ?]. split_and!; try done. by constructor.
    + intros (H1 & H2 & H3 & H4). apply StronglySorted_inv in H1 as [H1 H1'].
      constructor; [by apply IH|]. by apply Forall_app.
Qed.

Lemma ss_reverse {A} (R : A -> A -> Prop) l :
  StronglySorted R l -> StronglySorted (flip R) (reverse l).
Proof.
  induction 1 as [|x l H IH Hx]; [constructor|]. rewrite reverse_cons. apply ss_app.
  split_and!; [done|repeat constructor|]. rewrite Forall_reverse.
  eapply Forall_impl; [|exact Hx]. intros y Hy. by repeat constructor.
Qed.

Definition info_of (i : nat) (oc : Z * list Z) : CellInfo :=
  mkCellInfo oc.1 (csize oc.2) (Z.of_nat i).

Definition before (a b : CellInfo) : Prop := old_offset b + ci_size b <= old_offset a.

Section Slow.
Context (u : Z) (t : PageType) (p : page) (cs : list (Z * list Z)) (fbs : list ivl).
Context (HR : repr u t p cs [] fbs).

Definition infos : list CellInfo := imap info_of cs.

Lemma slow_bounds :
  offset p + 8 <= h_ptrs p /\ h_ptrs p <= h_first_cell p /\ h_first_cell p <= h_cca p /\
  h_cca p <= u /\ 480 <= u <= 65536 /\ u <= zlen (buf p) /\ 0 <= h_ncell p < 65536 /\
  h_first_cell p = h_ptrs p + 2 * h_ncell p /\ h_ncell p = zlen cs.
Proof.
  pose proof (rp_layout _ _ _ _ _ _ HR) as HL. pose proof (lay_sized _ _ _ _ HL) as H.
  pose proof (lay_area _ _ _ _ HL). pose proof (h_ptrs_range p). pose proof (sized_bounds u p H).
  pose proof (u16_range (buf p) (offset p + 3) (sized_bytes _ _ H)) as Hn. fold (h_ncell p) in Hn.
  pose proof (rp_count _ _ _ _ _ _ HR). unfold h_first_cell in *. lia.
Qed.

Lemma gather_spec E k acc last sorted :
  (k <= length cs)%nat -> acc = take k infos -> 
  (sorted = true -> StronglySorted desc acc /\ Forall (fun c => last <= old_offset c) acc) ->
  wp E (gather_cells u (h_ncell p) (payload_overflow_threshold_max t u)
          (payload_overflow_threshold_min t u) (h_ptrs p) t
          (seqZ (Z.of_nat k) (h_ncell p - Z.of_nat k)) last sorted acc)
    (fun r p' => p' = p /\ r.1 = infos /\ (r.2 = true -> StronglySorted desc infos)) p.
Proof.
  pose proof slow_bounds as Hb. pose proof (offset_range p) as Hor.
  remember (length cs - k)%nat as m eqn:Em. revert k acc last sorted Em.
  induction m as [|m IH]; intros k acc last sorted Em Hk Hacc Hs.
  - rewrite (seqZ_nil (Z.of_nat k)) by (unfold zlen in Hb; lia). apply wp_ret.
    assert (acc = infos) as -> by (rewrite Hacc; apply take_ge; unfold infos; rewrite length_imap; lia).
    split_and!; [done|done|]. simpl. tauto.
  - rewrite seqZ_cons by (unfold zlen in Hb; lia). simpl.
    destruct (lookup_lt_is_Some_2 cs k) as [oc Hoc]; [lia|].
    pose proof (rp_region _ _ _ _ _ _ _ _ HR Hoc) as (Hr1 & Hr2 & Hh & Hok & Hkn).
    pose proof (rp_ptr_slot _ _ _ _ _ _ (Z.of_nat k) HR ltac:(lia)).
    pose proof (csize_ge oc.2).
    replace (h_ptrs p + Z.of_nat k * 2) with (h_ptrs p + 2 * Z.of_nat k) by lia.
    apply wp_bind, wp_read_u16_at; [lia..|]. rewrite (rp_ptr _ _ _ _ _ _ HR _ _ Hoc).
    apply wp_bind. eapply wp_raw_region; [exact HR|lia|by rewrite Nat2Z.id|]. intros ovf. wbeta.
    rewrite wrap_small by (unfold in_u; lia).
    replace (h_ncell p - Z.of_nat k - 1) with (h_ncell p - Z.of_nat (S k)) by lia.
    replace (Z.pred (h_ncell p - Z.of_nat k)) with (h_ncell p - Z.of_nat (S k)) by lia.
    replace (Z.succ (Z.of_nat k)) with (Z.of_nat (S k)) by lia.
    apply IH; [lia|lia|..].
    + rewrite Hacc, (take_S_r infos k (info_of k oc)); [done|].
      unfold infos. by rewrite list_lookup_imap, Hoc.
    + destruct (Z.ltb_spec last oc.1); [done|]. intros Hst. destruct (Hs Hst) as [Hs1 Hs2].
      split.
      * apply ss_app. split_and!; [done|repeat constructor|]. eapply Forall_impl; [|exact Hs2].
        simpl. intros c Hc. repeat constructor. unfold desc. simpl. lia.
      * apply Forall_app. split; [|by repeat constructor]. eapply Forall_impl; [|exact Hs2].
        simpl. intros c Hc. lia.
Qed.

(** The cells of a represented page, sorted, are apart from each other. *)
Lemma before_of_desc L : L ≡ₚ infos -> StronglySorted desc L -> StronglySorted before L.
Proof.
  intros HP Hs.
  assert (disjoint_all (map (fun c => (old_offset c, ci_size c)) L)) as Hd.
  { rewrite HP. unfold infos. 
    assert (map (fun c => (old_offset c, ci_size c)) (imap info_of cs) = map region cs) as ->.
    { apply list_eq. intros i. rewrite !list_lookup_fmap, list_lookup_imap. by destruct (cs !! i). }
    pose proof (lay_disj _ _ _ _ (rp_layout _ _ _ _ _ _ HR)) as Hd.
    by apply disjoint_all_app in Hd as (Hd & _). }
  assert (Forall (fun c => 4 <= ci_size c) L) as Hsz.
  { rewrite HP. apply Forall_lookup. intros i c. unfold infos. rewrite list_lookup_imap.
    intros (oc & _ & ->)%fmap_Some. simpl. apply csize_ge. }
  clear HP. induction Hs as [|x L Hs IH Hx]; [constructor|]. simpl in Hd. destruct Hd as [Hd1 Hd2].
  apply Forall_cons_iff in Hsz as [Hx4 Hsz]. constructor; [by apply IH|].
  rewrite Forall_map in Hd1. rewrite Forall_forall in Hx, Hd1, Hsz |- *. intros y Hy.
  specialize (Hx y Hy). specialize (Hd1 y Hy). specialize (Hsz y Hy).
  unfold desc, before, apart in *. simpl in Hd1. lia.
Qed.

Lemma check_overlaps_spec E prev l :
  StronglySorted (flip before) l -> Forall (fun c => prev <= old_offset c) l ->
  wp E (check_overlaps prev l) (fun _ p' => p' = p) p.
Proof.
  revert prev. induction l as [|c l IH]; intros prev Hs Hf; [by apply wp_ret|]. simpl.
  apply Forall_cons_iff in Hf as [Hc _]. wcor. apply StronglySorted_inv in Hs as [Hs Hc'].
  apply IH; [done|]. eapply Forall_impl; [|exact Hc']. unfold flip, before. done.
Qed.

Definition slot (c : CellInfo) : Z := h_ptrs p + 2 * pointer_index c.
Definition moved (q : page) (c : CellInfo) : ivl := (u16 (buf q) (slot c), ci_size c).

(** A cell of the page as the gathering loop sees it. *)
Definition info_ok (c : CellInfo) : Prop :=
  exists oc, 0 <= pointer_index c /\ cs !! Z.to_nat (pointer_index c) = Some oc /\
    old_offset c = oc.1 /\ ci_size c = csize oc.2.

Lemma infos_ok : Forall info_ok infos /\ NoDup (map pointer_index infos).
Proof.
  split.
  - apply Forall_lookup. intros i c. unfold infos. rewrite list_lookup_imap.
    intros (oc & Hoc & ->)%fmap_Some. exists oc. simpl. rewrite Nat2Z.id. split_and!; (done || lia).
  - apply NoDup_alt. intros i j x. unfold infos. rewrite !list_lookup_fmap, !list_lookup_imap.
    destruct (cs !! i), (cs !! j); simpl; intros [= <-] [= ?]; lia.
Qed.

(** The state of [process_cells] after the cells [P] have been moved. *)
Record moving (q : page) (cbrk : Z) (P R : list CellInfo) : Prop := mkMoving {
  mv_upd : upd u p q (hdr_of p) (either (span (h_ptrs p) (h_first_cell p)) (span cbrk u));
  mv_disj : disjoint_all (map (moved q) P);
  mv_within : Forall (fun i => within cbrk u i /\ 4 <= i.2) (map (moved q) P);
  mv_total : total (map (moved q) P) = u - cbrk;
  mv_holds : Forall (fun c => forall oc, cs !! Z.to_nat (pointer_index c) = Some oc ->
               holds (buf q) (moved q c).1 oc.2) P;
  mv_rest : Forall (fun c => old_offset c + ci_size c <= cbrk) R;
  mv_low : h_first_cell p <= cbrk <= u
}.

Lemma info_bounds c : info_ok c ->
  exists oc, 0 <= pointer_index c < h_ncell p /\ cs !! Z.to_nat (pointer_index c) = Some oc /\
    old_offset c = oc.1 /\ ci_size c = csize oc.2 /\ h_cca p <= old_offset c /\
    old_offset c + ci_size c <= u /\ 4 <= ci_size c /\ zlen oc.2 <= ci_size c /\
    holds (buf p) (old_offset c) oc.2.
Proof.
  intros (oc & Hi & Hoc & Ho & Hsz). exists oc.
  pose proof (rp_region _ _ _ _ _ _ _ _ HR Hoc) as (? & ? & ? & _ & ?).
  pose proof (csize_ge oc.2). rewrite Ho, Hsz. split_and!; (done || lia).
Qed.

Lemma move_cell_spec E q cbrk P c R :
  moving q cbrk P (c :: R) -> info_ok c -> Forall info_ok P ->
  Forall (fun d => pointer_index d <> pointer_index c) P -> Forall (before c) R ->
  wp E (move_cell u (h_ptrs p) (h_first_cell p) cbrk c)
    (fun cbrk' q' => moving q' cbrk' (P ++ [c]) R) q.
Proof.
  intros [U Hd Hw Ht Hh Hr Hlow] Hc HP Hnew Hbef. pose proof slow_bounds as Hb.
  pose proof (offset_range p) as Hor. pose proof (upd_offset _ _ _ _ _ U) as Ho.
  pose proof (upd_len _ _ _ _ _ U) as Hlen.
  destruct (info_bounds c Hc) as (oc & Hi & Hoc & Hold & Hsz & Hcca & Hend & H4 & Hz & Hhc).
  apply Forall_cons_iff in Hr as [Hrc Hr].
  unfold move_cell. set (new := cbrk - ci_size c). wread u. fold new.
  apply wp_bind, wp_passert; [apply andb_true_iff; rewrite !Z.leb_le; lia|].
  apply wp_bind, (wp_mono _ _ (fun _ q1 => upd u q q1 (hdr_of q) (span new cbrk) /\
    forall k, 0 <= k < ci_size c -> rd (buf q1) (new + k) = rd (buf p) (old_offset c + k))).
  { assert (forall k, 0 <= k < ci_size c -> rd (buf q) (old_offset c + k) = rd (buf p) (old_offset c + k)) as Hq.
    { intros k Hk. apply (upd_frame _ _ _ _ _ U); [lia|]. unfold either, span. lia. }
    wif; zbool.
    - apply (copy_within_upd _ u); [apply U|lia..|]. intros q1 U1 Hcp.
      replace (old_offset c + ci_size c - old_offset c) with (ci_size c) in * by lia.
      replace (new + ci_size c) with cbrk in * by lia. split; [exact U1|].
      intros k Hk. rewrite Hcp by lia. rewrite <- Hq by done. f_equal. lia.
    - apply wp_ret. split.
      + eapply upd_weaken; [apply upd_refl, U|]. by intros x [].
      + intros k Hk. rewrite <- Hq by done. f_equal. lia. }
  intros _ q1 [U1 Hcp]. rewrite (upd_hdr _ _ _ _ _ U) in U1.
  pose proof (upd_trans _ _ _ _ _ _ _ _ U U1) as U01. pose proof (upd_offset _ _ _ _ _ U1) as Ho1.
  pose proof (upd_len _ _ _ _ _ U1) as Hlen1.
  apply wp_bind, wp_passert; [apply Z.ltb_lt; unfold PAGE_SIZE_MAX; lia|].
  rewrite wrap_small by (unfold in_u; lia).
  replace (h_ptrs p + pointer_index c * 2) with (slot c) by (unfold slot; lia).
  assert (h_ptrs p <= slot c /\ slot c + 2 <= h_first_cell p) as Hslot by (unfold slot; lia).
  apply wp_bind, wp_write_u16_at; [lia..|]. apply wp_ret.
  destruct (upd_set_u16 u q1 (slot c) new) as [U2 V2]; [apply U01|lia..|].
  rewrite (upd_hdr _ _ _ _ _ U01) in U2. set (q2 := set_u16 q1 (slot c) new) in *.
  pose proof (upd_trans _ _ _ _ _ _ _ _ U1 U2) as U12.
  assert (Forall (fun d => moved q2 d = moved q d) P) as Hmv.
  { rewrite Forall_forall in HP, Hnew |- *. intros d Hd'. specialize (Hnew d Hd').
    destruct (info_bounds d (HP d Hd')) as (_ & Hid & _).
    unfold moved. f_equal.
    apply (upd_u16 _ _ _ _ _ _ U12); unfold either, span, slot in *; lia. }
  assert (map (moved q2) P = map (moved q) P) as Emv by (apply map_ext_Forall; exact Hmv).
  assert (moved q2 c = (new, ci_size c)) as Emc by (unfold moved; by rewrite V2).
  split.
  - eapply upd_weaken; [exact (upd_trans _ _ _ _ _ _ _ _ U U12)|].
    unfold either, span, slot in *. intros x. lia.
  - rewrite map_app, Emv. cbn [map]. rewrite Emc. apply disjoint_all_app.
    split_and!; [done|repeat constructor|]. eapply Forall_impl; [|exact Hw].
    intros i [[? ?] ?]. constructor; [|constructor]. unfold apart. simpl. lia.
  - rewrite map_app, Emv. cbn [map]. rewrite Emc. apply Forall_app. split.
    + eapply Forall_impl; [|exact Hw]. unfold within. intros i [[? ?] ?]. lia.
    + constructor; [|constructor]. unfold within. simpl. lia.
  - rewrite map_app, Emv, total_app. cbn [map]. rewrite Emc. simpl. lia.
  - apply Forall_app. split.
    + rewrite Forall_forall in Hh, HP, Hw, Hmv |- *. intros d Hd' oc' Hoc'. rewrite (Hmv d Hd').
      destruct (info_bounds d (HP d Hd')) as (oc'' & _ & Hoc'' & _ & Hsz'' & _ & _ & _ & Hz'' & _).
      rewrite Hoc' in Hoc''. injection Hoc'' as <-.
      destruct (Hw (moved q d)) as [[Hw1 Hw2] _]; [by apply in_map|]. simpl in Hw1, Hw2.
      eapply holds_agree; [|exact (Hh d Hd' oc' Hoc')]. intros x Hx. simpl in Hx.
      apply (upd_frame _ _ _ _ _ U12); unfold either, span; lia.
    + constructor; [|constructor]. intros oc' Hoc'. rewrite Hoc in Hoc'. injection Hoc' as <-.
      rewrite Emc. simpl. intros k Hk. rewrite <- (Hhc k Hk), <- Hcp by lia.
      apply (upd_frame _ _ _ _ _ U2); unfold span; lia.
  - eapply Forall_impl; [|exact Hbef]. unfold before. intros d. lia.
  - lia.
Qed.

Lemma move_cells_spec E q cbrk P R :
  moving q cbrk P R -> Forall info_ok (P ++ R) -> NoDup (map pointer_index (P ++ R)) ->
  StronglySorted before R ->
  wp E (move_cells u (h_ptrs p) (h_first_cell p) cbrk R)
    (fun cbrk' q' => moving q' cbrk' (P ++ R) []) q.
Proof.
  revert q cbrk P. induction R as [|c R IH]; intros q cbrk P M Hok Hnd Hss.
  { rewrite app_nil_r. by apply wp_ret. }
  simpl. apply StronglySorted_inv in Hss as [Hss Hc].
  pose proof Hok as Hok'. apply Forall_app in Hok' as [HokP HokR].
  apply Forall_cons_iff in HokR as [Hokc HokR].
  assert (Forall (fun d => pointer_index d <> pointer_index c) P) as Hne.
  { rewrite map_app in Hnd. apply list.NoDup_app in Hnd as (_ & Hnd & _).
    apply Forall_forall. intros d Hd Heq. apply (Hnd (pointer_index c)).
    - rewrite <- Heq. apply list_elem_of_In, in_map, Hd.
    - simpl. constructor. }
  apply wp_bind. eapply wp_mono; [by eapply move_cell_spec|]. intros cbrk' q' M'.
  replace (P ++ c :: R) with ((P ++ [c]) ++ R) in * by (by rewrite <- (assoc_L (++))).
  by apply IH.
Qed.

(** The list of cells with the offsets that the pointer array of [q] has. *)
Definition relocated (q : page) : list (Z * list Z) :=
  imap (fun i oc => (u16 (buf q) (h_ptrs p + 2 * Z.of_nat i), oc.2)) cs.

Lemma relocated_regions q : map region (relocated q) = map (moved q) infos.
Proof.
  apply list_eq. intros i. unfold relocated, infos.
  rewrite !list_lookup_fmap, !list_lookup_imap. by destruct (cs !! i) as [[]|].
Qed.

Lemma slow_repr q cbrk L q' :
  L ≡ₚ infos -> moving q cbrk L [] ->
  upd u q q' (mkHdr (h_type p) 0 (h_ncell p) cbrk 0) nowhere ->
  repr u t q' (relocated q) [] [].
Proof.
  intros HP [U Hd Hw Ht Hh _ Hlow] U'. pose proof slow_bounds as Hb.
  pose proof (rp_layout _ _ _ _ _ _ HR) as HL. pose proof (offset_range p) as Hor.
  pose proof (upd_trans _ _ _ _ _ _ _ _ U U') as U0. pose proof (upd_offset _ _ _ _ _ U) as Ho.
  destruct (upd_fields _ _ _ _ _ U0) as (F1 & F2 & F3 & F4 & F5 & F6); simpl in F1, F2, F3, F4, F5, F6.
  assert (h_ptrs q' = h_ptrs p) as Hpp.
  { unfold h_ptrs. rewrite F1. by rewrite (upd_offset _ _ _ _ _ U0). }
  split.
  - simpl. rewrite relocated_regions, <- HP. split; rewrite ?F2, ?F4, ?F5, ?F6; try done.
    + apply U0.
    + by rewrite app_nil_r.
    + simpl. lia.
  - by rewrite F1, (rp_type _ _ _ _ _ _ HR).
  - rewrite F3, (rp_count _ _ _ _ _ _ HR). unfold zlen, relocated. by rewrite length_imap.
  - intros i oc. unfold relocated. rewrite list_lookup_imap, Hpp.
    intros (oc' & Hoc & ->)%fmap_Some. simpl.
    pose proof (rp_region _ _ _ _ _ _ _ _ HR Hoc) as (_ & _ & _ & _ & Hn).
    apply (upd_u16 _ _ _ _ _ _ U'); unfold nowhere; (lia || tauto).
  - apply Forall_lookup. intros i oc. unfold relocated. rewrite list_lookup_imap.
    intros (oc' & Hoc & ->)%fmap_Some. simpl.
    rewrite HP in Hh. rewrite HP in Hw. rewrite Forall_lookup in Hh.
    assert (infos !! i = Some (info_of i oc')) as Hi.
    { unfold infos. by rewrite list_lookup_imap, Hoc. }
    specialize (Hh i _ Hi oc'). simpl in Hh. rewrite Nat2Z.id in Hh. specialize (Hh Hoc).
    rewrite Forall_map, Forall_lookup in Hw. destruct (Hw i _ Hi) as [[Hw1 Hw2] _].
    simpl in Hw1, Hw2. unfold slot in *. simpl in Hh, Hw1, Hw2.
    eapply holds_agree; [|exact Hh]. intros x Hx.
    apply (upd_frame _ _ _ _ _ U'); [lia|]. tauto.
  - apply Forall_lookup. intros i oc. unfold relocated. rewrite list_lookup_imap.
    intros (oc' & Hoc & ->)%fmap_Some. simpl. by pose proof (rp_region _ _ _ _ _ _ _ _ HR Hoc) as (_ & _ & _ & ? & _).
Qed.

Lemma relocated_contents q : map snd (relocated q) = map snd cs.
Proof.
  apply list_eq. intros i. unfold relocated. rewrite !list_lookup_fmap, list_lookup_imap.
  by destruct (cs !! i) as [[]|].
Qed.

Lemma process_cells_spec E L :
  L ≡ₚ infos -> StronglySorted before L ->
  wp E (process_cells u L) (fun _ q => exists q0, repr u t q (relocated q0) [] [] /\
    page_id q = page_id p /\ overflow_cells q = overflow_cells p /\ h_frag q = 0) p.
Proof.
  intros HP Hss. pose proof slow_bounds as Hb. pose proof (rp_sized _ _ _ _ _ _ HR) as H.
  pose proof (offset_range p) as Hor.
  destruct infos_ok as [Hok Hnd]. unfold process_cells. wread u. wread u. apply wp_bind.
  assert (Forall info_ok L) as HokL by (by rewrite HP).
  eapply wp_mono.
  { apply (move_cells_spec E p u [] L); simpl; [|done|by rewrite HP|done].
    split; simpl; try done; try lia.
    eapply Forall_impl; [|exact HokL]. intros c Hc.
    destruct (info_bounds c Hc) as (oc & ? & ? & ? & ? & ? & ? & ?). lia. }
  intros cbrk q M. simpl in M. pose proof M as [U _ _ _ _ _ Hlow].
  apply wp_bind, (wp_write_cell_content_area _ u); [apply U|lia|].
  pose proof (upd_set_cca u q cbrk (upd_sized _ _ _ _ _ U) ltac:(lia)) as U1.
  rewrite (upd_hdr _ _ _ _ _ U) in U1.
  apply wp_bind, (wp_write_first_freeblock _ u); [apply U1|].
  pose proof (upd_set_fb u _ 0 (upd_sized _ _ _ _ _ U1) ltac:(lia)) as U2.
  rewrite (upd_hdr _ _ _ _ _ U1) in U2.
  apply (wp_write_frag _ u); [apply U2|].
  pose proof (upd_set_frag u _ 0 (upd_sized _ _ _ _ _ U2) ltac:(lia)) as U3.
  rewrite (upd_hdr _ _ _ _ _ U2) in U3.
  pose proof (upd_trans _ _ _ _ _ _ _ _ U1 (upd_trans _ _ _ _ _ _ _ _ U2 U3)) as U13.
  pose proof (upd_trans _ _ _ _ _ _ _ _ U U13) as U03.
  exists q. split_and!.
  - eapply slow_repr; [exact HP|exact M|]. eapply upd_weaken; [exact U13|].
    unfold either, nowhere. tauto.
  - apply U03.
  - apply U03.
  - by destruct (upd_fields _ _ _ _ _ U03) as (_ & _ & _ & _ & -> & _).
Qed.

Lemma defragment_page_slow_spec E :
  wp E (defragment_page_slow u (h_ncell p)) (fun _ q => packed u t p cs q 0) p.
Proof.
  pose proof slow_bounds as Hb. pose proof (rp_sized _ _ _ _ _ _ HR) as H.
  unfold defragment_page_slow. wread u.
  apply wp_bind, (wp_page_type _ u t); [done|rewrite (rp_type _ _ _ _ _ _ HR); apply PageType_roundtrip|].
  apply wp_bind. eapply wp_mono.
  { unfold range. replace (seqZ 0 (h_ncell p)) with (seqZ (Z.of_nat 0) (h_ncell p - Z.of_nat 0)) by (f_equal; lia).
    apply gather_spec; [lia|done|]. intros _. split; constructor. }
  intros [l sorted] q (-> & Hl & Hsorted). simpl in Hl, Hsorted. subst l. wbeta.
  set (L := if sorted then infos else merge_sort desc infos).
  assert (L ≡ₚ infos /\ StronglySorted desc L) as [HP HS].
  { unfold L. destruct sorted; [by split; [|apply Hsorted]|]. split.
    - apply merge_sort_Permutation.
    - apply Sorted_StronglySorted; [unfold Transitive, desc; lia|].
      apply Sorted_merge_sort. intros a b. unfold desc. lia. }
  pose proof (before_of_desc _ HP HS) as HB. destruct infos_ok as [Hok _].
  apply wp_bind. eapply wp_mono.
  { apply (check_overlaps_spec E _ (reverse L)); [by apply ss_reverse|].
    rewrite Forall_reverse. assert (Forall info_ok L) as HokL by (by rewrite HP).
    eapply Forall_impl; [|exact HokL]. intros c Hc.
    destruct (info_bounds c Hc) as (oc & ? & ? & ? & ? & ? & ?). lia. }
  intros _ q ->. apply wp_bind. eapply wp_mono; [by apply process_cells_spec|].
  intros _ q (q0 & Rq & Hid & Hov & Hfr). eapply wp_debug_validate; [exact Rq|].
  exists (relocated q0). split_and!; [done|apply relocated_contents|done|done|lia].
Qed.
End Slow.

(** A page whose header says it is empty. *)
Lemma empty_repr u t p q W :
  sized p u -> h_type p = PageType_as_u8 t -> offset p + 12 <= u ->
  upd u p q (mkHdr (h_type p) 0 0 u 0) W -> repr u t q [] [] [].
Proof.
  intros H Ht Ho U. destruct (upd_fields _ _ _ _ _ U) as (F1 & F2 & F3 & F4 & F5 & F6); simpl in *.
  pose proof (header_size_of_range (h_type p)).
  split; try done.
  - split; rewrite ?F2, ?F4, ?F5, ?F6; simpl; try done; [apply U|lia|lia].
  - by rewrite F1.
Qed.

(** Resetting the three free-space fields. *)
Lemma wp_reset_fields E u p Q :
  sized p u ->
  (forall q, upd u p q (mkHdr (h_type p) 0 (h_ncell p) u 0) nowhere -> Q () q) ->
  wp E (write_cell_content_area u ;; write_first_freeblock 0 ;; write_fragmented_bytes_count 0)
    Q p.
Proof.
  intros H HQ. pose proof (sized_bounds u p H).
  apply wp_bind, (wp_write_cell_content_area _ u); [done|lia|].
  pose proof (upd_set_cca u p u H ltac:(lia)) as U1.
  apply wp_bind, (wp_write_first_freeblock _ u); [apply U1|].
  pose proof (upd_set_fb u _ 0 (upd_sized _ _ _ _ _ U1) ltac:(lia)) as U2.
  rewrite (upd_hdr _ _ _ _ _ U1) in U2. apply (wp_write_frag _ u); [apply U2|].
  pose proof (upd_set_frag u _ 0 (upd_sized _ _ _ _ _ U2) ltac:(lia)) as U3.
  rewrite (upd_hdr _ _ _ _ _ U2) in U3. apply HQ.
  eapply upd_weaken; [exact (upd_trans _ _ _ _ _ _ _ _ U1 (upd_trans _ _ _ _ _ _ _ _ U2 U3))|].
  unfold either, nowhere. tauto.
Qed.

Lemma wp_seq3 {A} E (a b c : PM ()) (k : PM A) Q p :
  wp E (a ;; b ;; c) (fun _ => wp E k Q) p -> wp E (a ;; b ;; c ;; k) Q p.
Proof.
  unfold wp, mbind, PM_bind. destruct (a p) as [[] p1]; try done.
  destruct (b p1) as [[] p2]; try done. by destruct (c p2) as [[] p3].
Qed.

(** ** [defragment_page] *)
Lemma defragment_page_spec E u t p cs fbs max_frag :
  repr u t p cs [] fbs ->
  wp E (defragment_page u max_frag) (fun _ q => packed u t p cs q (Z.max 0 max_frag)) p.
Proof.
  intros HR. pose proof (rp_layout _ _ _ _ _ _ HR) as HL. pose proof (lay_sized _ _ _ _ HL) as H.
  pose proof (slow_bounds _ _ _ _ _ HR) as Hb. pose proof (offset_range p) as Hor.
  unfold defragment_page. apply wp_bind. eapply wp_debug_validate; [exact HR|]. wread u.
  assert (forall q, packed u t p cs q 0 -> packed u t p cs q (Z.max 0 max_frag)) as Hw.
  { intros q (cs' & ? & ? & ? & ? & ?). exists cs'. split_and!; (done || lia). }
  wif; zbool.
  - assert (cs = []) as Ecs.
    { destruct cs; [done|]. unfold zlen in Hb. simpl in Hb. lia. }
    apply wp_seq3, wp_reset_fields; [done|]. intros q U. subst cs.
    assert (repr u t q [] [] []) as Rq.
    { eapply (empty_repr u t p); [done|apply (rp_type _ _ _ _ _ _ HR)|lia|].
      by match goal with Hn : h_ncell p = 0 |- _ => rewrite Hn in U end. }
    eapply wp_debug_validate; [exact Rq|]. exists []. split_and!; try done; [apply U|apply U|].
    destruct (upd_fields _ _ _ _ _ U) as (_ & _ & _ & _ & -> & _). simpl. lia.
  - wread u. wif; zbool; [|eapply wp_mono; [by eapply defragment_page_slow_spec|auto]].
    wread u. pose proof (h_fb_head _ _ _ _ HL) as Hh. pose proof (lay_fbs _ _ _ _ HL) as Hs.
    pose proof (lay_chain _ _ _ _ HL) as Hc.
    destruct fbs as [|[f1 s1] fbs]; simpl in Hs, Hc.
    { rewrite Hh. simpl. apply wp_ret. exists cs. split_and!; (done || lia). }
    destruct Hh as [Hh Hf1]. destruct Hc as (_ & Hs1 & Hc), Hs as (? & ? & ? & Hs).
    wif; zbool; [lia|]. rewrite Hh. wread u.
    destruct fbs as [|[f2 s2] fbs]; simpl in Hs, Hc.
    { rewrite Hc. simpl. eapply wp_mono.
      - apply (defragment_page_fast_spec u f1 s1 u 0 t p cs [(f1, s1)]); try done. by left.
      - intros _ q (cs' & ? & ? & ? & ? & ?). exists cs'. split_and!; (done || lia). }
    destruct Hc as (Hf2 & Hs2 & Hc), Hs as (? & ? & ? & Hs). rewrite Hf2.
    wif; zbool; [lia|]. wread u.
    destruct fbs as [|[f3 s3] fbs]; simpl in Hs, Hc.
    { rewrite Hc. simpl. eapply wp_mono.
      - apply (defragment_page_fast_spec u f1 s1 f2 s2 t p cs [(f1, s1); (f2, s2)]);
          try done; [by right|by rewrite (proj2 (Z.eqb_neq s2 0)) by lia|lia].
      - intros _ q (cs' & ? & ? & ? & ? & ?). exists cs'. split_and!; (done || lia). }
    destruct Hc as (Hf3 & _). rewrite Hf3. wif; zbool; [lia|].
    eapply wp_mono; [by eapply defragment_page_slow_spec|auto].
Qed.

(** ** Allocation *)

(** Writes inside [L], away from the cells and the pointer array. *)
Lemma repr_upd u t p q cs extra fbs extra' fbs' h L :
  repr u t p cs extra fbs -> upd u p q h (in_any L) ->
  hd_type h = h_type p -> hd_ncell h = h_ncell p ->
  Forall (fun i => h_first_cell p <= i.1) L ->
  Forall (fun c => Forall (apart c) L) (map region cs) ->
  layout u q (extra' ++ map region cs) fbs' -> repr u t q cs extra' fbs'.
Proof.
  intros HR U Ht Hn HL Hap Hlay.
  destruct (upd_fields _ _ _ _ _ U) as (F1 & _ & F3 & _). rewrite Ht in F1. rewrite Hn in F3.
  assert (h_ptrs q = h_ptrs p) as Hpp.
  { unfold h_ptrs. rewrite F1. by rewrite (upd_offset _ _ _ _ _ U). }
  pose proof (lay_area _ _ _ _ (rp_layout _ _ _ _ _ _ HR)) as Har.
  pose proof (h_first_cell_ge u p (rp_sized _ _ _ _ _ _ HR)) as Hfc. pose proof (h_ptrs_range p).
  split; [done|..].
  - by rewrite F1, (rp_type _ _ _ _ _ _ HR).
  - by rewrite F3, (rp_count _ _ _ _ _ _ HR).
  - intros i oc Hi. rewrite Hpp, <- (rp_ptr _ _ _ _ _ _ HR i oc Hi).
    pose proof (rp_region _ _ _ _ _ _ _ _ HR Hi) as (_ & _ & _ & _ & Hin).
    rewrite Forall_forall in HL. unfold h_first_cell in *.
    apply (upd_u16 _ _ _ _ _ _ U); [lia|..];
      intros (j & Hj & Hx)%Exists_exists; specialize (HL j Hj); unfold inside in Hx; lia.
  - apply Forall_lookup. intros i oc Hi.
    pose proof (rp_region _ _ _ _ _ _ _ _ HR Hi) as (Hc1 & Hc2 & Hh & _ & _).
    eapply holds_agree; [|exact Hh]. intros x Hx. apply (upd_frame _ _ _ _ _ U); [lia|].
    rewrite Forall_map, Forall_lookup in Hap. specialize (Hap i oc Hi). pose proof (csize_ge oc.2).
    intros (j & Hj & Hxj)%Exists_exists. rewrite Forall_forall in Hap. specialize (Hap j Hj).
    unfold inside, apart, region in *. simpl in Hap. lia.
  - apply (rp_ok _ _ _ _ _ _ HR).
Qed.

Lemma total_contents (cs cs' : list (Z * list Z)) :
  map snd cs' = map snd cs -> total (map region cs') = total (map region cs).
Proof.
  revert cs'. induction cs as [|oc cs IH]; intros [|oc' cs']; simpl; try done.
  intros [= H1 H2]. rewrite H1, (IH cs' H2). done.
Qed.

Definition allocated (u : Z) (t : PageType) (p : page) (cs : list (Z * list Z)) (amt : Z)
    (pc : Z) (q : page) : Prop :=
  exists cs' fbs', repr u t q cs' [(pc, amt)] fbs' /\ map snd cs' = map snd cs /\
    page_id q = page_id p /\ overflow_cells q = overflow_cells p /\
    h_first_cell q + 2 <= h_cca q.

(** Carving the cell off the unallocated region. *)
Lemma alloc_tail E u t p cs fbs amt :
  repr u t p cs [] fbs -> 4 <= amt -> h_first_cell p + 2 + amt <= h_cca p ->
  wp E (cca ← usub (h_cca p) amt;
        write_cell_content_area cca ;;
        passert (cca + amt <=? u) ;;
        mret (wrap 16 cca)) (fun pc q => allocated u t p cs amt pc q) p.
Proof.
  intros HR Ha Hfree. pose proof (slow_bounds u t p cs fbs HR) as Hb. pose proof (offset_range p) as Hor.
  pose proof (rp_sized _ _ _ _ _ _ HR) as H. pose proof (rp_layout _ _ _ _ _ _ HR) as HL.
  set (c := h_cca p - amt). wread u. fold c.
  apply wp_bind, (wp_write_cell_content_area _ u); [done|lia|]. wread u.
  apply wp_ret. rewrite wrap_small by (unfold in_u; lia).
  pose proof (upd_set_cca u p c H ltac:(lia)) as U.
  destruct (upd_fields _ _ _ _ _ U) as (F1 & F2 & F3 & F4 & F5 & F6); simpl in F1, F2, F3, F4, F5, F6.
  exists cs, fbs. split_and!; [|done|apply U|apply U|].
  2: { rewrite F4, F6. unfold h_first_cell, h_ptrs in Hfree. lia. }
  eapply (repr_upd u t p _ cs [] fbs _ _ _ []); [exact HR|eapply upd_weaken; [exact U|by intros x []]|done|done|constructor|..].
  { apply Forall_forall. intros. constructor. }
  pose proof (lay_cells _ _ _ _ HL) as Hc. pose proof (lay_fbs _ _ _ _ HL) as Hs.
  simpl in Hc. split; rewrite ?F2, ?F4, ?F5, ?F6.
  - apply U.
  - unfold h_first_cell, h_ptrs in Hfree. lia.
  - constructor; [unfold within; simpl; lia|]. eapply Forall_impl; [|exact Hc].
    unfold within. intros i. lia.
  - eapply fb_sorted_lower; [exact Hs|lia].
  - eapply seg_upd; [exact U| |apply (lay_chain _ _ _ _ HL)].
    eapply Forall_impl; [|exact (fb_sorted_Forall _ _ _ Hs)]. unfold within. intros i Hi.
    split; [lia|]. by intros x _ [].
  - pose proof (lay_disj _ _ _ _ HL) as Hd. simpl in Hd |- *. split; [|done].
    apply Forall_app. split; [eapply Forall_impl; [|exact Hc]|eapply Forall_impl; [|exact (fb_sorted_Forall _ _ _ Hs)]];
      unfold within, apart; simpl; lia.
  - pose proof (lay_sum _ _ _ _ HL) as Hsum. simpl in Hsum |- *. lia.
Qed.

Lemma packed_room u t p cs fbs q m amt free :
  repr u t p cs [] fbs -> free = u - h_first_cell p - total (map region cs) ->
  packed u t p cs q (Z.max 0 (Z.min 4 (free - (2 + amt)))) -> amt + 2 <= free -> m = h_cca q ->
  exists cs', repr u t q cs' [] [] /\ map snd cs' = map snd cs /\ page_id q = page_id p /\
    overflow_cells q = overflow_cells p /\ h_first_cell q + 2 + amt <= m.
Proof.
  intros HR Hfree (cs' & Rq & Hsnd & Hid & Hov & Hfr) Hroom ->. exists cs'.
  split_and!; try done. pose proof (lay_sum _ _ _ _ (rp_layout _ _ _ _ _ _ Rq)) as Hsum.
  simpl in Hsum. rewrite (total_contents _ _ Hsnd) in Hsum.
  assert (h_first_cell q = h_first_cell p) as ->; [|lia].
  unfold h_first_cell, h_ptrs, offset. rewrite Hid.
  rewrite (rp_type _ _ _ _ _ _ Rq), (rp_type _ _ _ _ _ _ HR).
  rewrite (rp_count _ _ _ _ _ _ Rq), (rp_count _ _ _ _ _ _ HR).
  unfold zlen. by rewrite <- (length_map snd cs'), Hsnd, length_map.
Qed.

Lemma allocate_cell_space_spec u t p cs fbs amount free :
  repr u t p cs [] fbs -> free = u - h_first_cell p - total (map region cs) ->
  0 <= amount -> Z.max 4 amount + 2 <= free ->
  wp False (allocate_cell_space amount u free)
    (fun pc q => allocated u t p cs (Z.max 4 amount) pc q) p.
Proof.
  intros HR Hfree Ha Hroom. pose proof (slow_bounds u t p cs fbs HR) as Hb.
  pose proof (offset_range p) as Hor. pose proof (rp_sized _ _ _ _ _ _ HR) as H.
  pose proof (rp_layout _ _ _ _ _ _ HR) as HL. unfold allocate_cell_space, MINIMUM_CELL_SIZE, CELL_PTR_SIZE_BYTES.
  set (amt := if amount <? 4 then 4 else amount).
  assert (amt = Z.max 4 amount) as Hamt by (unfold amt; destruct (Z.ltb_spec amount 4); lia).
  rewrite <- Hamt in *. clearbody amt. wread u. wread u. wread u.
  apply wp_bind, (wp_mono _ _ (fun r q => slot_taken u p (map region cs) fbs amt r q /\
    (is_Some r -> h_first_cell p + 2 <= h_cca p))).
  { wif; zbool; [|by apply wp_ret; split; [|intros [? ?]]].
    eapply wp_mono; [apply (find_free_slot_spec u p (map region cs) fbs); [done|]|].
    - pose proof (total_nonneg (map region cs)) as Ht.
      assert (0 <= total (map region cs)); [|lia]. apply Ht. apply Forall_map, Forall_forall.
      intros oc _. simpl. pose proof (csize_ge oc.2). lia.
    - intros r q Hr. split; [done|]. intros _. lia. }
  intros [pc|] q [Hslot Hc2].
  - destruct Hslot as (fbs' & fb & frag & L & U & Hin & _).
    destruct (upd_fields _ _ _ _ _ U) as (F1 & F2 & F3 & F4 & F5 & F6); simpl in F1, F2, F3, F4, F5, F6.
    pose proof (lay_fbs _ _ _ _ HL) as Hs. pose proof (fb_sorted_Forall _ _ _ Hs) as Hf.
    apply wp_ret. apply Exists_exists in Hin as (i & Hi & Hpc). rewrite Forall_forall in Hf.
    destruct (Hf i Hi) as [[? ?] ?]. rewrite wrap_small by (unfold in_u; lia).
    exists cs, fbs'. split_and!; [|done|apply U|apply U|].
    + eapply (repr_upd u t p q cs [] fbs _ _ _ fbs); [exact HR|exact U|done|done| | |exact L].
      * apply Forall_forall. intros j Hj. destruct (Hf j Hj) as [[? ?] ?]. lia.
      * pose proof (lay_disj _ _ _ _ HL) as Hd. by apply disjoint_all_app in Hd as (_ & _ & Hd).
    + rewrite F4, F6. specialize (Hc2 ltac:(done)). unfold h_first_cell, h_ptrs in Hc2. lia.
  - simpl in Hslot. subst q. apply wp_bind.
    eapply (wp_mono _ _ (fun m q => m = h_cca q /\ exists cs' fbs', repr u t q cs' [] fbs' /\
      map snd cs' = map snd cs /\ page_id q = page_id p /\ overflow_cells q = overflow_cells p /\
      h_first_cell q + 2 + amt <= m)).
    + wif; zbool.
      * apply wp_bind. eapply wp_mono; [by eapply defragment_page_spec|]. intros [] q Hq. simpl in Hq.
        destruct (packed_room u t p cs fbs q (h_cca q) amt free) as (cs' & Rq & ?); [done..|].
        apply (wp_cell_content_area _ u); [exact (rp_sized _ _ _ _ _ _ Rq)|]. split; [done|]. by exists cs', [].
      * apply wp_ret. split; [done|]. exists cs, fbs. split_and!; (done || lia).
    + intros m q (-> & cs' & fbs' & Rq & Hsnd & Hid & Hov & Hm).
      eapply wp_mono; [apply (alloc_tail _ u t q cs' fbs'); (done || lia)|].
      intros pc q' (cs'' & fbs'' & Rq' & Hsnd' & Hid' & Hov' & Hfc').
      exists cs'', fbs''. split_and!; try done; congruence.
Qed.
