(* ===== verification/PageOps.v ===== *)
(** * Insertion and deletion of cells refine list operations

    The abstract state of a B-tree page is the list of its cells, each a byte
    string.  [insert_into_cell] is insertion into that list, or, when the page
    has no room, a pending overflow cell and an untouched page; [drop_cell] is
    deletion.  The refinement covers freeblock reuse, both defragmentation
    algorithms and the coalescing of freed ranges. *)
From stdpp Require Import sorting.
From S2P Require Import Prelude Errors Varint OnDisk Intervals Page Cells FreeSpace.
From S2P Require Import FreeSpaceSpec PageLayout PageCells.

Definition insert_at {A} (i : nat) (x : A) (l : list A) : list A := take i l ++ x :: drop i l.

Lemma lookup_insert_at {A} (i : nat) (x : A) l j :
  (i <= length l)%nat ->
  insert_at i x l !! j =
    if (j <? i)%nat then l !! j else if (j =? i)%nat then Some x else l !! (j - 1)%nat.
Proof.
  intros Hi. unfold insert_at.
  destruct (Nat.ltb_spec j i).
  - rewrite lookup_app_l by (rewrite length_take; lia). by apply lookup_take_lt.
  - rewrite lookup_app_r by (rewrite length_take; lia). rewrite length_take.
    replace (i `min` length l)%nat with i by lia.
    destruct (Nat.eqb_spec j i) as [->|]; [by rewrite Nat.sub_diag|].
    destruct (j - i)%nat as [|k] eqn:Ek; [lia|]. simpl. rewrite lookup_drop. f_equal. lia.
Qed.

Lemma map_insert_at {A B} (f : A -> B) i x l : map f (insert_at i x l) = insert_at i (f x) (map f l).
Proof. unfold insert_at. by rewrite map_app, map_cons, firstn_map, skipn_map. Qed.

Lemma insert_at_perm {A} i (x : A) l : insert_at i x l ≡ₚ x :: l.
Proof.
  unfold insert_at. rewrite <- Permutation_middle. by rewrite take_drop.
Qed.

Definition page_repr (u : Z) (t : PageType) (p : page) (cells : list (list Z)) : Prop :=
  exists cs fbs, repr u t p cs [] fbs /\ map snd cs = cells.

Definition cells_size (cells : list (list Z)) : Z := foldr (fun c n => csize c + n) 0 cells.

(** The free bytes of a page with the given cells. *)
Definition page_free (u : Z) (p : page) (cells : list (list Z)) : Z :=
  u - (h_ptrs p + 2 * zlen cells) - cells_size cells.

Lemma total_regions cs : total (map region cs) = cells_size (map snd cs).
Proof. induction cs as [|oc cs IH]; simpl; [done|]. by rewrite IH. Qed.

Lemma page_free_eq u t p cs fbs :
  repr u t p cs [] fbs ->
  u - h_first_cell p - total (map region cs) = page_free u p (map snd cs).
Proof.
  intros HR. unfold page_free, h_first_cell. rewrite total_regions, (rp_count _ _ _ _ _ _ HR).
  unfold zlen. by rewrite length_map.
Qed.

Lemma layout_recount u q q' cells fbs n W :
  layout u q cells fbs -> upd u q q' (hd_set_ncell (hdr_of q) n) W ->
  (forall x, W x -> x < h_cca q \/ in_any cells x) -> h_ptrs q + 2 * n <= h_cca q ->
  layout u q' cells fbs.
Proof.
  intros HL U HW Hn. destruct (upd_fields _ _ _ _ _ U) as (F1 & F2 & F3 & F4 & F5 & F6).
  simpl in F1, F2, F3, F4, F5, F6. pose proof (lay_cca_ge _ _ _ _ HL) as Hcc.
  pose proof (lay_area _ _ _ _ HL) as Har0. pose proof (lay_fbs _ _ _ _ HL) as Hs.
  pose proof (lay_disj _ _ _ _ HL) as Hd. apply disjoint_all_app in Hd as (_ & _ & Hd).
  destruct HL as [H Har Hc _ Hch Hdis Hsum].
  split; rewrite ?F2, ?F4, ?F5, ?F6; try done.
  - apply U.
  - unfold h_ptrs in Hn. lia.
  - eapply seg_upd; [exact U| |exact Hch]. pose proof (fb_sorted_Forall _ _ _ Hs) as Hf.
    rewrite Forall_forall in Hf |- *. intros i Hi. destruct (Hf i Hi) as [[? ?] ?].
    split; [lia|]. intros x Hx Hw. destruct (HW x Hw) as [?|Hany]; [lia|].
    apply Exists_exists in Hany as (c & Hcin & Hxc). rewrite Forall_forall in Hd.
    specialize (Hd c Hcin). rewrite Forall_forall in Hd. specialize (Hd i Hi).
    unfold inside, apart in *. lia.
Qed.

(** Copying a slice of the pointer array. *)
Lemma u16_copied (b b' : list Z) lo dst n x :
  (forall y, dst <= y < dst + n -> rd b' y = rd b (y - dst + lo)) ->
  dst <= x -> x + 2 <= dst + n -> u16 b' x = u16 b (x - dst + lo).
Proof.
  intros H ??. unfold u16. rewrite !H by lia.
  by replace (x + 1 - dst + lo) with (x - dst + lo + 1) by lia.
Qed.

(** ** Insertion *)

(** The representation after a cell has been stored at [idx]. *)
Lemma insert_repr u t q q' cs fbs pc payload (idx : nat) W :
  repr u t q cs [(pc, csize payload)] fbs -> cell_ok t u payload -> (idx <= length cs)%nat ->
  h_ptrs q + 2 * h_ncell q + 2 <= h_cca q ->
  upd u q q' (hd_set_ncell (hdr_of q) (h_ncell q + 1)) W ->
  (forall x, W x -> x < h_ptrs q + 2 * h_ncell q + 2 \/ inside x (pc, zlen payload)) ->
  holds (buf q') pc payload ->
  (forall j oc, insert_at idx (pc, payload) cs !! j = Some oc ->
     u16 (buf q') (h_ptrs q + 2 * Z.of_nat j) = oc.1) ->
  repr u t q' (insert_at idx (pc, payload) cs) [] fbs.
Proof.
  intros HR Hok Hidx Hroom U HW Hpay Hptr. pose proof (rp_layout _ _ _ _ _ _ HR) as HL.
  destruct (upd_fields _ _ _ _ _ U) as (F1 & F2 & F3 & F4 & F5 & F6); simpl in F1, F2, F3, F4, F5, F6.
  pose proof (csize_ge payload) as [_ Hcs]. pose proof (lay_cca_ge _ _ _ _ HL) as Hcc.
  assert (h_ptrs q' = h_ptrs q) as Hpp by (unfold h_ptrs; by rewrite F1, (upd_offset _ _ _ _ _ U)).
  split.
  - simpl. rewrite map_insert_at, insert_at_perm. eapply layout_recount; [exact HL|exact U| |lia].
    intros x Hx. destruct (HW x Hx) as [?|Hin]; [left; lia|]. right. constructor.
    unfold inside in *. simpl in *. lia.
  - by rewrite F1, (rp_type _ _ _ _ _ _ HR).
  - rewrite F3, (rp_count _ _ _ _ _ _ HR). unfold zlen. rewrite insert_at_perm. simpl. lia.
  - intros i oc Hi. rewrite Hpp. by apply Hptr.
  - rewrite insert_at_perm. constructor; [done|]. apply Forall_lookup. intros i oc Hi.
    pose proof (rp_region _ _ _ _ _ _ _ _ HR Hi) as (Hc1 & Hc2 & Hh & _ & _).
    eapply holds_agree; [|exact Hh]. intros x Hx. apply (upd_frame _ _ _ _ _ U); [lia|].
    intros Hw. destruct (HW x Hw) as [?|Hin]; [lia|].
    pose proof (lay_disj _ _ _ _ HL) as [Hd _]. simpl in Hd. apply Forall_app in Hd as [Hd _].
    rewrite Forall_map, Forall_lookup in Hd. specialize (Hd i oc Hi).
    pose proof (csize_ge oc.2). unfold inside, apart, region in *. simpl in *. lia.
  - rewrite insert_at_perm. constructor; [done|]. apply (rp_ok _ _ _ _ _ _ HR).
Qed.

(** Storing an allocated cell: its bytes, its pointer and the count. *)
Lemma store_cell_spec u t q cs fbs pc payload (idx : nat) :
  repr u t q cs [(pc, csize payload)] fbs -> cell_ok t u payload -> (idx <= length cs)%nat ->
  h_first_cell q + 2 <= h_cca q ->
  wp False
    (passert (pc + zlen payload <=? u) ;;
     write_bytes pc payload ;;
     '(cell_pointer_array_start, _) ← cell_pointer_array_offset_and_size;
     let cell_pointer_cur_idx := cell_pointer_array_start + CELL_PTR_SIZE_BYTES * Z.of_nat idx in
     n ← cell_count;
     n_cells_forward ← usub n (Z.of_nat idx);
     let n_bytes_forward := CELL_PTR_SIZE_BYTES * n_cells_forward in
     (if 0 <? n_bytes_forward then
        buf_copy_within cell_pointer_cur_idx (cell_pointer_cur_idx + n_bytes_forward)
          (cell_pointer_cur_idx + CELL_PTR_SIZE_BYTES)
      else mret ()) ;;
     write_u16_no_offset cell_pointer_cur_idx pc ;;
     n ← cell_count;
     write_cell_count (wrap 16 (n + 1)) ;;
     debug_validate_cells u)
    (fun _ q' => repr u t q' (insert_at idx (pc, payload) cs) [] fbs /\
       page_id q' = page_id q /\ overflow_cells q' = overflow_cells q) q.
Proof.
  intros HR Hok Hidx Hroom. pose proof (rp_layout _ _ _ _ _ _ HR) as HL.
  pose proof (rp_sized _ _ _ _ _ _ HR) as H. pose proof (sized_bounds u q H) as Hb.
  pose proof (offset_range q) as Hor. pose proof (h_ptrs_range q) as Hpr.
  pose proof (lay_area _ _ _ _ HL) as Har. pose proof (rp_count _ _ _ _ _ _ HR) as Hn.
  pose proof (lay_cells _ _ _ _ HL) as Hcl. apply Forall_cons_iff in Hcl as [[[Hpc1 Hpc2] Hpc4] Hcl].
  simpl in Hpc1, Hpc2, Hpc4. pose proof (csize_ge payload) as [_ Hcs]. pose proof (zlen_nonneg payload).
  assert (0 <= h_ncell q < 65535) as Hnr.
  { pose proof (zlen_nonneg cs). unfold h_first_cell in *. lia. }
  unfold zlen in Hn. wread u. unfold h_first_cell in Hroom, Har.
  destruct (upd_write_bytes u q pc payload) as [U1 Hpay]; [done|lia|lia|apply Hok|].
  apply wp_bind, wp_write_bytes; [lia..|].
  set (q1 := with_buf q (splice (buf q) pc payload)) in *.
  pose proof (upd_sized _ _ _ _ _ U1) as S1. pose proof (upd_offset _ _ _ _ _ U1) as O1.
  destruct (upd_fields _ _ _ _ _ U1) as (F1 & F2 & F3 & F4 & F5 & F6); simpl in F1, F2, F3, F4, F5, F6.
  assert (h_ptrs q1 = h_ptrs q) as Hpp by (unfold h_ptrs; by rewrite F1, O1).
  wread u. wread u. unfold CELL_PTR_SIZE_BYTES. rewrite Hpp, F3. wread u.
  set (cur := h_ptrs q + 2 * Z.of_nat idx).
  apply wp_bind, (wp_mono _ _ (fun _ q2 => upd u q1 q2 (hdr_of q1) (span (cur + 2) (h_ptrs q + 2 * (h_ncell q + 1))) /\
    forall j, (idx <= j < length cs)%nat ->
      u16 (buf q2) (h_ptrs q + 2 * Z.of_nat (S j)) = u16 (buf q1) (h_ptrs q + 2 * Z.of_nat j))).
  { wif; zbool.
    - apply (copy_within_upd _ u); [done|lia..|]. intros q2 U2 Hc. split.
      + eapply upd_weaken; [exact U2|]. unfold span. intros x. lia.
      + intros j Hj. rewrite (u16_copied (buf q1) _ cur (cur + 2) (2 * (h_ncell q - Z.of_nat idx))).
        * f_equal. lia.
        * intros y Hy. rewrite Hc by lia. f_equal.
        * lia.
        * lia.
    - apply wp_ret. split; [eapply upd_weaken; [by apply upd_refl|]; by intros x []|].
      intros j Hj. lia. }
  intros _ q2 [U2 Hsh]. pose proof (upd_trans _ _ _ _ _ _ _ _ U1 U2) as U02.
  pose proof (upd_len _ _ _ _ _ U02) as L2. pose proof (upd_offset _ _ _ _ _ U02) as O2.
  apply wp_bind, wp_write_u16_at; [lia..|].
  destruct (upd_set_u16 u q2 cur pc) as [U3 V3]; [apply U02|lia..|].
  rewrite (upd_hdr _ _ _ _ _ U02) in U3. set (q3 := set_u16 q2 cur pc) in *.
  pose proof (upd_trans _ _ _ _ _ _ _ _ U2 U3) as U13.
  pose proof (upd_trans _ _ _ _ _ _ _ _ U1 U13) as U03.
  apply wp_bind, (wp_cell_count _ u); [apply U03|]. wbeta.
  destruct (upd_fields _ _ _ _ _ U03) as (_ & _ & -> & _); cbn [hd_ncell hdr_of]. rewrite F3.
  rewrite wrap_small by (unfold in_u; lia).
  apply wp_bind, (wp_write_cell_count _ u); [apply U03|].
  pose proof (upd_set_ncell u q3 (h_ncell q + 1) (upd_sized _ _ _ _ _ U03) ltac:(lia)) as U4.
  rewrite (upd_hdr _ _ _ _ _ U03) in U4. set (q4 := set_ncell q3 (h_ncell q + 1)) in *.
  pose proof (upd_trans _ _ _ _ _ _ _ _ U03 U4) as U04.
  rewrite (upd_hdr _ _ _ _ _ U1) in U04.
  assert (repr u t q4 (insert_at idx (pc, payload) cs) [] fbs) as Rq.
  { eapply (insert_repr u t q q4 cs fbs pc payload idx _ HR Hok Hidx Hroom U04).
    - unfold either, span, nowhere, inside, cur in *. simpl. intros x Hx. lia.
    - intros k Hk. rewrite (upd_frame _ _ _ _ _ (upd_trans _ _ _ _ _ _ _ _ U13 U4)); [by apply Hpay|lia|].
      unfold either, span, nowhere. lia.
    - intros j oc Hj. rewrite lookup_insert_at in Hj by done.
      assert (offset q3 = offset q) as O3 by apply (upd_offset _ _ _ _ _ U03).
      rewrite (upd_u16 _ _ _ _ _ _ U4) by (unfold nowhere; lia || tauto).
      destruct (Nat.ltb_spec j idx); [|destruct (Nat.eqb_spec j idx) as [->|]].
      + pose proof (rp_region _ _ _ _ _ _ _ _ HR Hj) as (_ & _ & _ & _ & Hjn).
        rewrite <- (rp_ptr _ _ _ _ _ _ HR _ _ Hj).
        apply (upd_u16 _ _ _ _ _ _ U03); unfold either, span, cur; lia.
      + injection Hj as <-. exact V3.
      + pose proof (rp_region _ _ _ _ _ _ _ _ HR Hj) as (_ & _ & _ & _ & Hjn).
        rewrite <- (rp_ptr _ _ _ _ _ _ HR _ _ Hj).
        rewrite (upd_u16 _ _ _ _ _ _ U3) by (unfold span, cur; lia).
        destruct j as [|j]; [lia|]. simpl in Hj, Hjn |- *. rewrite Nat.sub_0_r in *.
        rewrite Hsh by lia. apply (upd_u16 _ _ _ _ _ _ U1); unfold span; lia. }
  eapply wp_debug_validate; [exact Rq|]. split_and!; [exact Rq|apply U04|apply U04].
Qed.

Lemma wp_eq {A} E (m : PM A) a p p' Q : m p = (Ok a, p') -> Q a p' -> wp E m Q p.
Proof. unfold wp. by intros ->. Qed.

Lemma wp_run {A} (m : PM A) Q p : wp False m Q p -> exists a p', m p = (Ok a, p') /\ Q a p'.
Proof. unfold wp. destruct (m p) as [[a|e|] p']; [|done|done]. eauto. Qed.

Lemma insert_enough u t p cs fbs payload (idx : nat) :
  repr u t p cs [] fbs -> cell_ok t u payload -> overflow_cells p = [] ->
  (idx <= length cs)%nat ->
  csize payload + 2 <= page_free u p (map snd cs) ->
  wp False (insert_into_cell payload (Z.of_nat idx) u)
    (fun _ q => page_repr u t q (insert_at idx payload (map snd cs)) /\
       page_id q = page_id p /\ overflow_cells q = []) p.
Proof.
  intros HR Hok Hov Hidx Hroom. pose proof (slow_bounds u t p cs fbs HR) as Hb.
  pose proof (rp_sized _ _ _ _ _ _ HR) as H. unfold zlen in Hb.
  unfold insert_into_cell, _insert_into_cell. wread u. apply wp_bind.
  unfold get_overflow, wp at 1. rewrite Hov. wread u.
  { change (zlen []) with 0. apply Z.leb_le. lia. }
  apply wp_bind. eapply wp_eq; [exact (compute_free_space_exact u p _ _ (rp_layout _ _ _ _ _ _ HR))|].
  simpl app. rewrite (page_free_eq u t p cs fbs HR). unfold MINIMUM_CELL_SIZE, CELL_PTR_SIZE_BYTES at 1.
  rewrite bool_decide_true by done. cbn [negb andb].
  rewrite (proj2 (Z.leb_le _ _)) by (unfold csize in Hroom; lia). cbn [negb].
  wread u. apply wp_bind. eapply wp_mono.
  { eapply (allocate_cell_space_spec u t p cs fbs); [done| |apply zlen_nonneg|].
    - symmetry. by eapply page_free_eq.
    - unfold csize in Hroom. lia. }
  intros pc q (cs' & fbs' & Rq & Hsnd & Hid & Hovq & Hfc).
  assert (length cs' = length cs) as Hlen by (by rewrite <- (length_map snd cs'), Hsnd, length_map).
  eapply wp_mono; [apply (store_cell_spec u t q cs' fbs' pc payload idx); [exact Rq|done|lia|done]|].
  intros _ q' (Rq' & Hid' & Hov'). split_and!; [|congruence|congruence].
  eexists _, _. split; [exact Rq'|]. rewrite map_insert_at. simpl. by rewrite Hsnd.
Qed.

(** ** Deletion *)
Lemma in_any_ge lo l x : in_any l x -> Forall (fun i => lo <= i.1) l -> lo <= x.
Proof.
  intros (i & Hi & Hx)%Exists_exists Hf. rewrite Forall_forall in Hf. specialize (Hf i Hi).
  unfold inside in Hx. lia.
Qed.

Lemma map_delete {A B} (f : A -> B) (l : list A) i : map f (delete i l) = delete i (map f l).
Proof. revert i. induction l as [|x l IH]; intros [|i]; simpl; [done..|]. by rewrite IH. Qed.

Lemma delete_perm {A} (l : list A) i x : l !! i = Some x -> l ≡ₚ x :: delete i l.
Proof. apply delete_Permutation. Qed.

(** The representation once the cell's range is free, its pointer removed and the
    count lowered. *)
Lemma delete_repr u t p q q' cs fbs fbs' oc h (idx : nat) W :
  repr u t p cs [] fbs -> cs !! idx = Some oc ->
  layout u q (map region (delete idx cs)) fbs' ->
  upd u p q h (in_any (region oc :: fbs)) -> hd_type h = h_type p -> hd_ncell h = h_ncell p ->
  upd u q q' (hd_set_ncell (hdr_of q) (h_ncell p - 1)) W ->
  (forall x, W x -> x < h_first_cell p) -> h_first_cell p <= h_cca q ->
  (forall j, (j < length cs - 1)%nat ->
     u16 (buf q') (h_ptrs p + 2 * Z.of_nat j) =
       u16 (buf q) (h_ptrs p + 2 * Z.of_nat (if (j <? idx)%nat then j else S j))) ->
  repr u t q' (delete idx cs) [] fbs'.
Proof.
  intros HR Hoc HL U Ht Hn U' HW Hfc Hptr. pose proof (slow_bounds u t p cs fbs HR) as Hb.
  pose proof (offset_range p) as Hor.
  destruct (upd_fields _ _ _ _ _ U) as (F1 & F2 & F3 & F4 & F5 & F6). rewrite Ht in F1, F6. rewrite Hn in F3, F6.
  destruct (upd_fields _ _ _ _ _ U') as (G1 & G2 & G3 & G4 & G5 & G6); simpl in G1, G2, G3, G4, G5, G6.
  pose proof (upd_offset _ _ _ _ _ U) as O1. pose proof (upd_offset _ _ _ _ _ U') as O2.
  assert (h_ptrs q = h_ptrs p) as Hp1 by (unfold h_ptrs; by rewrite F1, O1).
  assert (h_ptrs q' = h_ptrs p) as Hp2 by (unfold h_ptrs; by rewrite G1, F1, O2, O1).
  pose proof (lookup_lt_Some _ _ _ Hoc) as Hlt.
  pose proof (lay_disj _ _ _ _ (rp_layout _ _ _ _ _ _ HR)) as Hd. simpl in Hd.
  pose proof (lay_fbs _ _ _ _ (rp_layout _ _ _ _ _ _ HR)) as Hs.
  pose proof (rp_region _ _ _ _ _ _ _ _ HR Hoc) as (Ho1 & Ho2 & _ & _ & Hin).
  (* the surviving cells are untouched by the freeing *)
  assert (forall i oc', delete idx cs !! i = Some oc' -> holds (buf q) oc'.1 oc'.2 /\
            h_cca p <= oc'.1 /\ cell_ok t u oc'.2) as Hkeep.
  { intros i oc' Hi.
    assert (exists k, cs !! k = Some oc' /\ k <> idx) as (k & Hk & Hne).
    { destruct (decide (i < idx)%nat).
      - rewrite list_lookup_delete_lt in Hi by done. exists i. split; [done|lia].
      - rewrite list_lookup_delete_ge in Hi by lia. exists (S i). split; [done|lia]. }
    pose proof (rp_region _ _ _ _ _ _ _ _ HR Hk) as (Hc1 & Hc2 & Hh & Hok & _).
    split_and!; [|done|done]. eapply holds_agree; [|exact Hh]. intros x Hx.
    apply (upd_frame _ _ _ _ _ U); [lia|]. pose proof (csize_ge oc'.2).
    intros Hany. apply Exists_cons in Hany as [Hany|Hany].
    - rewrite (delete_perm cs idx oc Hoc) in Hd. simpl in Hd. destruct Hd as [Hd _].
      apply Forall_app in Hd as [Hd _]. rewrite Forall_map, Forall_lookup in Hd.
      specialize (Hd i oc' Hi). unfold inside, apart, region in *. simpl in *. lia.
    - apply disjoint_all_app in Hd as (_ & _ & Hd). rewrite Forall_map, Forall_lookup in Hd.
      specialize (Hd k oc' Hk). apply Exists_exists in Hany as (b & Hb' & Hxb).
      rewrite Forall_forall in Hd. specialize (Hd b Hb'). unfold inside, apart, region in *.
      simpl in *. lia. }
  split.
  - simpl. eapply layout_recount; [exact HL|exact U'| |unfold h_first_cell in *; lia].
    intros x Hx. left. specialize (HW x Hx). lia.
  - by rewrite G1, F1, (rp_type _ _ _ _ _ _ HR).
  - rewrite G3, (rp_count _ _ _ _ _ _ HR). unfold zlen. rewrite length_delete by eauto. lia.
  - intros j oc' Hj. pose proof (lookup_lt_Some _ _ _ Hj) as Hjl. rewrite length_delete in Hjl by eauto.
    rewrite Hp2, Hptr by lia. destruct (Nat.ltb_spec j idx).
    + rewrite list_lookup_delete_lt in Hj by done. rewrite <- (rp_ptr _ _ _ _ _ _ HR _ _ Hj).
      pose proof (rp_region _ _ _ _ _ _ _ _ HR Hj) as (_ & _ & _ & _ & Hjn).
      apply (upd_u16 _ _ _ _ _ _ U); [lia|..]; intros Hany;
        apply (in_any_ge (h_cca p)) in Hany; try lia; constructor; simpl; try lia;
        (eapply Forall_impl; [|exact (fb_sorted_Forall _ _ _ Hs)]; unfold within; intros ? ?; lia).
    + rewrite list_lookup_delete_ge in Hj by lia. rewrite <- (rp_ptr _ _ _ _ _ _ HR _ _ Hj).
      pose proof (rp_region _ _ _ _ _ _ _ _ HR Hj) as (_ & _ & _ & _ & Hjn).
      apply (upd_u16 _ _ _ _ _ _ U); [lia|..]; intros Hany;
        apply (in_any_ge (h_cca p)) in Hany; try lia; constructor; simpl; try lia;
        (eapply Forall_impl; [|exact (fb_sorted_Forall _ _ _ Hs)]; unfold within; intros ? ?; lia).
  - apply Forall_lookup. intros i oc' Hi. destruct (Hkeep i oc' Hi) as (Hh & Hc1 & _).
    eapply holds_agree; [|exact Hh]. intros x Hx. apply (upd_frame _ _ _ _ _ U'); [lia|].
    intros Hw. specialize (HW x Hw). lia.
  - apply Forall_lookup. intros i oc' Hi. by destruct (Hkeep i oc' Hi) as (_ & _ & ?).
Qed.

(** Closing the gap in the pointer array. *)
Lemma shift_pointers_left_spec u q (n idx : nat) Q :
  sized q u -> h_ncell q = Z.of_nat n -> (idx < n)%nat -> h_first_cell q <= u ->
  (forall q', upd u q q' (hdr_of q) (span (h_ptrs q) (h_first_cell q)) ->
     (forall j, (j < n - 1)%nat ->
        u16 (buf q') (h_ptrs q + 2 * Z.of_nat j) =
          u16 (buf q) (h_ptrs q + 2 * Z.of_nat (if (j <? idx)%nat then j else S j))) ->
     Q () q') ->
  wp False (shift_pointers_left (Z.of_nat idx)) Q q.
Proof.
  intros H Hn Hidx Hfc HQ. pose proof (sized_bounds u q H). pose proof (offset_range q).
  pose proof (h_ptrs_range q). unfold h_first_cell in *.
  unfold shift_pointers_left. wread u. wread u. wread u. wread u. wread u. wread u.
  rewrite Hn. apply (copy_within_upd _ u); [done|lia..|]. intros q' U Hc. apply HQ.
  - eapply upd_weaken; [exact U|]. unfold span. intros x. lia.
  - intros j Hj. destruct (Nat.ltb_spec j idx).
    + apply (upd_u16 _ _ _ _ _ _ U); unfold span; lia.
    + rewrite (u16_copied (buf q) _ (h_ptrs q + Z.of_nat idx * 2 + 2)
        (h_ptrs q + Z.of_nat idx * 2 + 2 - 2) ((Z.of_nat n - Z.of_nat idx - 1) * 2)).
      * f_equal. lia.
      * intros y Hy. rewrite Hc by lia. done.
      * lia.
      * lia.
Qed.

Lemma drop_cell_run u t p cs fbs (idx : nat) :
  repr u t p cs [] fbs -> (idx < length cs)%nat ->
  Forall (fun oc => oc_index oc <= Z.of_nat idx) (overflow_cells p) ->
  wp False (drop_cell (Z.of_nat idx) u)
    (fun _ q => page_repr u t q (delete idx (map snd cs)) /\
       page_id q = page_id p /\ overflow_cells q = overflow_cells p) p.
Proof.
  intros HR Hidx Hov. pose proof (slow_bounds u t p cs fbs HR) as Hb. unfold zlen in Hb.
  pose proof (offset_range p) as Hor.
  pose proof (rp_sized _ _ _ _ _ _ HR) as H. destruct (lookup_lt_is_Some_2 cs idx Hidx) as [oc Hoc].
  pose proof (rp_layout _ _ _ _ _ _ HR) as HL. simpl in HL.
  rewrite (delete_perm cs idx oc Hoc) in HL. simpl in HL.
  unfold drop_cell. apply wp_bind. eapply wp_cell_region; [exact HR|lia|by rewrite Nat2Z.id|]. wbeta.
  apply wp_bind. eapply wp_mono; [exact (free_cell_range_spec u p _ fbs _ _ HL)|].
  intros [] q (fbs' & h & HLq & U & Ht & Hn & _). fold (region oc) in U.
  destruct (upd_fields _ _ _ _ _ U) as (F1 & F2 & F3 & F4 & F5 & F6). rewrite Ht in F1, F6. rewrite Hn in F3, F6.
  pose proof (upd_offset _ _ _ _ _ U) as O1. pose proof (upd_sized _ _ _ _ _ U) as Sq.
  assert (h_ptrs q = h_ptrs p) as Hp1 by (unfold h_ptrs; by rewrite F1, O1).
  assert (h_first_cell q = h_first_cell p) as Hfc by (unfold h_first_cell; by rewrite Hp1, F3).
  pose proof (lay_area _ _ _ _ HLq) as Harq. rewrite Hfc in Harq.
  wread u. apply wp_bind.
  apply (wp_mono _ _ (fun _ q1 => overflow_cells q1 = overflow_cells p /\ page_id q1 = page_id p /\
    sized q1 u /\ h_ncell q1 = h_ncell p /\
    exists fbs1, repr u t (set_ncell q1 (h_ncell p - 1)) (delete idx cs) [] fbs1)).
  { wif; zbool.
    - eapply (shift_pointers_left_spec u q (length cs) idx); [done|lia|done|lia|].
      rewrite Hp1, Hfc. intros q1 U1 Hptr.
      pose proof (upd_set_ncell u q1 (h_ncell p - 1) (upd_sized _ _ _ _ _ U1) ltac:(lia)) as U2.
      rewrite (upd_hdr _ _ _ _ _ U1) in U2.
      split_and!; [by rewrite (upd_ovf _ _ _ _ _ U1), (upd_ovf _ _ _ _ _ U)
        |by rewrite (upd_id _ _ _ _ _ U1), (upd_id _ _ _ _ _ U)|apply U1| |].
      { destruct (upd_fields _ _ _ _ _ U1) as (_ & _ & -> & _). exact F3. }
      exists fbs'. eapply (delete_repr u t p q); [exact HR|exact Hoc|exact HLq|exact U|done|done| | |lia|].
      + exact (upd_trans _ _ _ _ _ _ _ _ U1 U2).
      + unfold either, span, nowhere. intros x. lia.
      + intros j Hj. rewrite <- Hptr by done. pose proof (upd_offset _ _ _ _ _ U1).
        apply (upd_u16 _ _ _ _ _ _ U2); unfold nowhere; (lia || tauto).
    - assert (length cs = 1%nat) as Hl1 by lia. apply wp_reset_fields; [done|]. intros q1 U1.
      pose proof (upd_set_ncell u q1 (h_ncell p - 1) (upd_sized _ _ _ _ _ U1) ltac:(lia)) as U2.
      rewrite (upd_hdr _ _ _ _ _ U1) in U2.
      split_and!; [by rewrite (upd_ovf _ _ _ _ _ U1), (upd_ovf _ _ _ _ _ U)
        |by rewrite (upd_id _ _ _ _ _ U1), (upd_id _ _ _ _ _ U)|apply U1| |].
      { destruct (upd_fields _ _ _ _ _ U1) as (_ & _ & -> & _). exact F3. }
      exists []. assert (delete idx cs = []) as ->.
      { destruct cs as [|? [|]]; simpl in *; try lia. by destruct idx; [|lia]. }
      eapply (empty_repr u t q); [done|by rewrite F1, (rp_type _ _ _ _ _ _ HR)|lia|].
      pose proof (upd_trans _ _ _ _ _ _ _ _ U1 U2) as U12.
      replace (h_ncell p - 1) with 0 in U12 |- * by lia. exact U12. }
  intros _ q1 (Hov1 & Hid1 & S1 & Hn1 & fbs1 & R1). wread u. rewrite Hn1. wread u.
  apply wp_bind, (wp_write_cell_count _ u); [done|]. apply wp_bind. unfold get_overflow, wp at 1.
  apply wp_bind, wp_passert.
  { cbn [overflow_cells set_ncell set_u16 with_buf]. rewrite Hov1. apply forallb_forall.
    rewrite Forall_forall in Hov. intros x Hx. apply Z.leb_le. auto. }
  eapply wp_debug_validate; [exact R1|]. split_and!; [|done|done].
  exists (delete idx cs), fbs1. split; [done|]. apply map_delete.
Qed.
