(* ===== verification/CellFormat.v ===== *)
(** * The cell format

    The bytes of a cell as [fill_cell_payload] lays them out, and that every
    reader of the page agrees on them: [raw_cell_len] measures the cell,
    [read_btree_cell] and [cell_read_payload_at] return its local payload, its
    payload size and its first overflow page. *)
From S2P Require Import Prelude Errors Varint OnDisk Intervals Page Cells FreeSpace.
From S2P Require Import FreeSpaceSpec PageLayout PageCells.

(** Decides the closed page-type tests of goal and hypotheses. *)
Ltac page_type_tests :=
  repeat match goal with
  | |- context [bool_decide (?a = ?b)] =>
      let r := eval vm_compute in (bool_decide (a = b)) in change (bool_decide (a = b)) with r
  | H : context [bool_decide (?a = ?b)] |- _ =>
      let r := eval vm_compute in (bool_decide (a = b)) in
      change (bool_decide (a = b)) with r in H
  end; cbn match in *.

(** The bytes before the payload. *)
Definition cell_prefix (t : PageType) (left_child key n : Z) : list Z :=
  (if bool_decide (t = IndexInterior) then be_encode 4 left_child else []) ++
  varint_bytes n ++
  (if bool_decide (t = TableLeaf) then varint_bytes (as_unsigned 64 key) else []).

Definition spill (t : PageType) (u n : Z) : option Z :=
  payload_overflows n (payload_overflow_threshold_max t u) (payload_overflow_threshold_min t u) u.

(** The payload bytes on the page. *)
Definition local_size (t : PageType) (u n : Z) : Z :=
  match spill t u n with None => n | Some l => l - 4 end.

Definition cell_bytes (t : PageType) (left_child key u : Z) (record : list Z) (first : Z) : list Z :=
  cell_prefix t left_child key (zlen record) ++
  ztake (local_size t u (zlen record)) record ++
  (match spill t u (zlen record) with None => [] | Some _ => be_encode 4 first end).

Definition table_interior_bytes (left_child key : Z) : list Z :=
  be_encode 4 left_child ++ varint_bytes (as_unsigned 64 key).

(** ** Reading back from a buffer that holds the bytes *)
Lemma holds_zdrop b o c :
  holds b o c -> 0 <= o -> o + zlen c <= zlen b -> zdrop o b = c ++ zdrop (o + zlen c) b.
Proof.
  intros Hh Ho Hl. pose proof (zlen_nonneg c). apply zget_ext.
  - rewrite zlen_app, !zlen_zdrop. lia.
  - intros i Hi. rewrite zlen_zdrop in Hi.
    rewrite zget_zdrop, zget_app by lia. rewrite (proj2 (Z.ltb_ge i 0)) by lia.
    destruct (Z.ltb_spec i (zlen c)).
    + rewrite !zget_rd by lia. f_equal. apply Hh. lia.
    + rewrite zget_zdrop by lia. rewrite (proj2 (Z.ltb_ge (i - zlen c) 0)) by lia. f_equal. lia.
Qed.

Lemma rd_app_l (a c : list Z) i : i < zlen a -> rd (a ++ c) i = rd a i.
Proof. intros Hi. unfold rd. rewrite zget_app. by rewrite (proj2 (Z.ltb_lt i (zlen a)) Hi). Qed.

Lemma holds_app b o a c : holds b o (a ++ c) -> holds b o a /\ holds b (o + zlen a) c.
Proof.
  intros Hh. pose proof (zlen_nonneg a). pose proof (zlen_nonneg c). split; intros i Hi.
  - rewrite Hh by (rewrite zlen_app; lia). apply rd_app_l. lia.
  - specialize (Hh (zlen a + i)). rewrite zlen_app, Z.add_assoc in Hh. rewrite Hh by lia.
    rewrite rd_skip by lia. f_equal. lia.
Qed.

Lemma read_varint_held b o v :
  bytes_ok b -> holds b o (varint_bytes v) -> 0 <= o -> o + zlen (varint_bytes v) <= zlen b ->
  in_u 64 v ->
  from_or_corrupt b o = Ok (zdrop o b) /\
  read_varint (zdrop o b) = Ok (v, zlen (varint_bytes v)).
Proof.
  intros Hb Hh Ho Hl Hv. pose proof (zlen_nonneg (varint_bytes v)). split.
  2: { rewrite (holds_zdrop b o (varint_bytes v)) by done.
       apply read_varint_bytes; [done|]. by apply bytes_ok_zdrop. }
  unfold from_or_corrupt. rewrite zslice_Some by lia. cbn [ok_or]. f_equal.
  unfold ztake. apply take_ge. unfold zdrop, zlen in *. rewrite length_drop. lia.
Qed.

Lemma zslice_held b o c :
  holds b o c -> 0 <= o -> o + zlen c <= zlen b -> zslice b o (o + zlen c) = Some c.
Proof.
  intros Hh Ho Hl. pose proof (zlen_nonneg c). rewrite zslice_Some by lia.
  rewrite (holds_zdrop b o c) by done. f_equal. apply ztake_app_eq. lia.
Qed.

Lemma be_u32_held b o v :
  holds b o (be_encode 4 v) -> 0 <= o -> o + 4 <= zlen b -> in_u 32 v -> be_u32 b o = Ok v.
Proof.
  intros Hh Ho Hl Hv. unfold be_u32.
  replace (o + 4) with (o + zlen (be_encode 4 v)) by (by rewrite zlen_be_encode).
  rewrite zslice_held by (rewrite ?zlen_be_encode; done || lia).
  cbn [or_panic mbind res_bind mret res_ret]. by rewrite be_decode_encode by exact Hv.
Qed.

(** ** The local size of a payload *)
Section Sizes.
Context (u : Z) (Hu : MIN_USABLE_SPACE <= u <= PAGE_SIZE_MAX).

(** A spilled payload is longer than its local part by more than a page number,
    so [read_payload] never takes it for one that fits. *)
Lemma spill_Some t n l :
  0 <= n -> spill t u n = Some l -> 35 <= l - 4 <= u - 35 /\ l < n.
Proof.
  intros Hn Hs. destruct (payload_overflows_Some u Hu t n l Hn Hs) as (Hmx & Hl & Hk0 & Hd).
  pose proof (threshold_bounds u Hu t) as Ht. split; [lia|].
  destruct Hd as [Hd|Hd]; [|rewrite (proj2 (Z.leb_gt _ _) Hd) in Hk0; lia].
  unfold MIN_USABLE_SPACE in Hu. apply Z.mod_divide in Hd as [k Hk]; [|lia].
  assert (1 <= k) by nia. nia.
Qed.

Lemma local_size_bounds t n :
  0 <= n -> 0 <= local_size t u n <= n /\ local_size t u n <= u - 35.
Proof.
  intros Hn. unfold local_size. destruct (spill t u n) as [l|] eqn:E.
  - destruct (spill_Some t n l Hn E). lia.
  - apply payload_overflows_None in E. pose proof (threshold_bounds u Hu t). lia.
Qed.
End Sizes.

Lemma varint_first_nonzero v : 0 < v < 2 ^ 64 -> rd (varint_bytes v) 0 <> 0.
Proof.
  intros Hv. unfold varint_bytes. destruct (Z.ltb_spec v (2 ^ 56)).
  - pose proof (ngroups_pos v). destruct (Z.to_nat (ngroups v - 1)) as [|n] eqn:En.
    + change (v mod 128 <> 0). pose proof (ngroups_spec v ltac:(lia)) as Hg.
      replace (ngroups v) with 1 in Hg by lia. rewrite Z.mod_small; lia.
    + change (128 + (v / 128 / 128 ^ Z.of_nat n) mod 128 <> 0).
      pose proof (Z.mod_pos_bound (v / 128 / 128 ^ Z.of_nat n) 128). lia.
  - change (128 + (v / 256 / 128 ^ Z.of_nat 7) mod 128 <> 0).
    pose proof (Z.mod_pos_bound (v / 256 / 128 ^ Z.of_nat 7) 128). lia.
Qed.

(** ** The readers on a buffer that holds a cell *)
Section Readers.
Context (t : PageType) (left_child key u : Z) (record : list Z) (first : Z).
Context (Hu : MIN_USABLE_SPACE <= u <= PAGE_SIZE_MAX).
Context (Hleft : in_u 32 left_child) (Hkey : in_i 64 key) (Hfirst : in_u 32 first).
Context (Hrec : bytes_ok record) (Hlen : 0 < zlen record < 2 ^ 63) (Ht : t <> TableInterior).

#[local] Abbreviation n := (zlen record).
#[local] Abbreviation c := (cell_bytes t left_child key u record first).
#[local] Abbreviation lsz := (local_size t u n).

Definition prefix_len : Z := zlen (cell_prefix t left_child key n).

Lemma n_u64 : in_u 64 n.
Proof. unfold in_u. lia. Qed.

Lemma key_u64 : in_u 64 (as_unsigned 64 key).
Proof. apply wrap_in_u. lia. Qed.

Lemma varint_len_pos v : in_u 64 v -> 1 <= zlen (varint_bytes v) <= 9.
Proof. intros Hv. rewrite <- varint_len_spec by done. by apply varint_len_bounds. Qed.

Lemma prefix_len_eq :
  prefix_len = (if bool_decide (t = IndexInterior) then 4 else 0) + zlen (varint_bytes n) +
    (if bool_decide (t = TableLeaf) then zlen (varint_bytes (as_unsigned 64 key)) else 0).
Proof.
  unfold prefix_len, cell_prefix. rewrite !zlen_app.
  do 2 destruct (bool_decide _); rewrite ?zlen_be_encode, ?zlen_nil; lia.
Qed.

Lemma zlen_cell_bytes :
  zlen c = prefix_len + lsz + match spill t u n with None => 0 | Some _ => 4 end.
Proof.
  unfold cell_bytes, prefix_len. rewrite !zlen_app, zlen_ztake.
  pose proof (local_size_bounds u Hu t (zlen record) ltac:(lia)).
  destruct (spill t u (zlen record)); [rewrite zlen_be_encode; lia|].
  change (zlen []) with 0. lia.
Qed.

Lemma cell_bytes_bytes_ok : bytes_ok c.
Proof.
  unfold cell_bytes, cell_prefix. rewrite !bytes_ok_app. split_and!.
  - destruct (bool_decide _); [apply be_encode_ok|constructor].
  - apply varint_bytes_ok.
  - destruct (bool_decide _); [apply varint_bytes_ok|constructor].
  - by apply bytes_ok_ztake.
  - destruct (spill _ _ _); [apply be_encode_ok|constructor].
Qed.

(** What the buffer holds, part by part. *)
Lemma cell_parts b o :
  holds b o c ->
  (t = IndexInterior -> holds b o (be_encode 4 left_child)) /\
  holds b (o + if bool_decide (t = IndexInterior) then 4 else 0) (varint_bytes n) /\
  (t = TableLeaf -> holds b (o + zlen (varint_bytes n)) (varint_bytes (as_unsigned 64 key))) /\
  holds b (o + prefix_len) (ztake lsz record) /\
  (is_Some (spill t u n) -> holds b (o + prefix_len + lsz) (be_encode 4 first)).
Proof.
  intros Hh. unfold cell_bytes in Hh. apply holds_app in Hh as [Hp Hl].
  apply holds_app in Hl as [Hl Hf]. unfold cell_prefix in Hp.
  apply holds_app in Hp as [Hp1 Hp2]. apply holds_app in Hp2 as [Hp2 Hp3].
  pose proof (local_size_bounds u Hu t n ltac:(lia)).
  rewrite zlen_ztake in Hf. replace (Z.min (Z.max 0 lsz) n) with lsz in Hf by lia.
  split_and!; [..|exact Hl|].
  - intros ->. exact Hp1.
  - destruct (bool_decide _); [exact Hp2|]. change (zlen []) with 0 in Hp2. exact Hp2.
  - intros ->. change (zlen []) with 0 in Hp3. rewrite Z.add_0_r in Hp3. exact Hp3.
  - intros [l El]. rewrite El in Hf. exact Hf.
Qed.

Section At.
Context (b : list Z) (o : Z) (Hb : bytes_ok b) (Ho : 0 <= o) (Hend : o + csize c <= zlen b).
Context (Hh : holds b o c).

Lemma at_bounds : 1 <= prefix_len /\ 0 <= lsz <= n /\ lsz <= u - 35 /\ o + zlen c <= zlen b.
Proof.
  pose proof (csize_ge c) as [_ ?]. pose proof (local_size_bounds u Hu t n ltac:(lia)).
  rewrite prefix_len_eq. pose proof (varint_len_pos n n_u64).
  pose proof (varint_len_pos _ key_u64).
  do 2 destruct (bool_decide _); lia.
Qed.

Lemma raw_len_at :
  raw_cell_len b o u (payload_overflow_threshold_max t u) (payload_overflow_threshold_min t u) t =
  Ok (csize c, match spill t u n with None => false | Some _ => true end).
Proof.
  destruct at_bounds as (_ & ? & ? & Hin). rewrite zlen_cell_bytes, prefix_len_eq in Hin.
  destruct (cell_parts b o Hh) as (_ & Hv & Hk & _ & _).
  pose proof (varint_len_pos n n_u64). pose proof (varint_len_pos _ key_u64).
  unfold csize. rewrite zlen_cell_bytes, prefix_len_eq.
  unfold raw_cell_len, MINIMUM_CELL_SIZE. fold (spill t u n). unfold local_size in *.
  assert (0 <= match spill t u n with Some _ => 4 | None => 0 end) as Hsp
    by (destruct (spill t u n); lia).
  destruct t; [..|]; try congruence; page_type_tests.
  - destruct (read_varint_held b (o + 4) n Hb Hv) as [-> E]; [lia|lia|apply n_u64|].
    cbn [mbind res_bind]. rewrite E. cbn [mbind res_bind]. fold (spill IndexInterior u n).
    destruct (spill IndexInterior u n) as [l|]; do 2 f_equal; lia.
  - rewrite Z.add_0_r in Hv.
    destruct (read_varint_held b o n Hb Hv) as [-> E]; [lia|lia|apply n_u64|].
    cbn [mbind res_bind]. rewrite E. cbn [mbind res_bind]. fold (spill IndexLeaf u n).
    destruct (spill IndexLeaf u n) as [l|].
    + do 2 f_equal. lia.
    + do 2 f_equal. destruct (Z.ltb_spec (n + zlen (varint_bytes n)) 4); lia.
  - rewrite Z.add_0_r in Hv. specialize (Hk eq_refl).
    destruct (read_varint_held b o n Hb Hv) as [-> E]; [lia|lia|apply n_u64|].
    cbn [mbind res_bind]. rewrite E. cbn [mbind res_bind].
    destruct (read_varint_held b _ _ Hb Hk) as [-> E2]; [lia|lia|apply key_u64|].
    cbn [mbind res_bind]. rewrite E2. cbn [mbind res_bind]. fold (spill TableLeaf u n).
    destruct (spill TableLeaf u n) as [l|].
    + do 2 f_equal. lia.
    + do 2 f_equal.
      destruct (Z.ltb_spec (n + zlen (varint_bytes n) + zlen (varint_bytes (as_unsigned 64 key))) 4); lia.
Qed.

(** The payload of the cell as both readers return it. *)
Lemma payload_at :
  read_cell_payload b (o + prefix_len) n (payload_overflow_threshold_max t u)
    (payload_overflow_threshold_min t u) u =
  Ok (ztake lsz record, match spill t u n with None => None | Some _ => Some first end).
Proof.
  destruct at_bounds as (Hpl & Hls & Hlu & Hin). rewrite zlen_cell_bytes in Hin.
  destruct (cell_parts b o Hh) as (_ & _ & _ & Hl & Hf).
  unfold read_cell_payload. fold (spill t u n). unfold local_size in *.
  destruct (spill t u n) as [l|] eqn:Es; cbn [mbind res_bind].
  - destruct (spill_Some u Hu t n l ltac:(lia) Es) as [Hl4 Hln].
    specialize (Hf ltac:(done)). unfold assert_or_bail_corrupt.
    rewrite (proj2 (Z.leb_le _ _)) by lia. cbn [mbind res_bind].
    set (w := ztake (l - 4) record ++ be_encode 4 first).
    assert (zlen (ztake (l - 4) record) = l - 4) as Hzt by (rewrite zlen_ztake; lia).
    assert (zlen w = l) as Hw by (unfold w; rewrite zlen_app, Hzt, zlen_be_encode; lia).
    assert (holds b (o + prefix_len) w) as Hhw.
    { intros i Hi. unfold w. destruct (Z.ltb_spec i (l - 4)).
      - rewrite rd_app_l by lia. apply Hl. lia.
      - rewrite rd_skip by lia. rewrite Hzt. specialize (Hf (i - (l - 4))).
        rewrite zlen_be_encode in Hf. rewrite <- Hf by lia. f_equal. lia. }
    replace (o + prefix_len + l) with (o + prefix_len + zlen w) by lia.
    rewrite zslice_held by (done || lia). cbn [or_panic mbind res_bind].
    unfold read_payload. rewrite Hw, (proj2 (Z.leb_gt n l)) by lia.
    unfold bail_if. rewrite (proj2 (Z.ltb_ge l 4)) by lia. cbn [mbind res_bind].
    rewrite (be_u32_held w (l - 4) first); [|..].
    + cbn [mbind res_bind]. rewrite zslice_Some by lia. cbn [or_panic mbind res_bind].
      rewrite Z.sub_0_r, zdrop_0. unfold w. by rewrite ztake_app_eq by lia.
    + unfold w. intros i Hi. rewrite zlen_be_encode in Hi. rewrite rd_skip by lia. f_equal. lia.
    + lia.
    + lia.
    + done.
  - rewrite (proj2 (Z.leb_le _ _)) by lia. cbn [mbind res_bind].
    unfold assert_or_bail_corrupt. rewrite (proj2 (Z.leb_le _ _)) by lia. cbn [mbind res_bind].
    rewrite zslice_Some by lia. cbn [or_panic mbind res_bind]. unfold read_payload.
    rewrite zlen_ztake, zlen_zdrop. rewrite (proj2 (Z.leb_le _ _)) by lia.
    rewrite zslice_Some by (rewrite ?zlen_ztake, ?zlen_zdrop; lia). cbn [or_panic mbind res_bind].
    do 2 f_equal. rewrite Z.sub_0_r, zdrop_0.
    assert (ztake n record = record) as Hid
      by (unfold ztake, zlen; rewrite Nat2Z.id; apply take_ge; lia).
    rewrite Hid in *. rewrite (holds_zdrop b (o + prefix_len) record) by (done || lia).
    unfold ztake at 2. rewrite take_ge.
    + apply ztake_app_eq. lia.
    + unfold zlen in *. rewrite length_app. unfold zdrop. rewrite length_drop. lia.
Qed.

Definition spilled : option Z := match spill t u n with None => None | Some _ => Some first end.

Definition the_cell : BTreeCell :=
  match t with
  | IndexInterior => IndexInteriorCell left_child (ztake lsz record) n spilled
  | IndexLeaf => IndexLeafCell (ztake lsz record) n spilled
  | TableLeaf => TableLeafCell key (ztake lsz record) n spilled
  | TableInterior => TableInteriorCell left_child key
  end.

Lemma size_and_start_at : payload_size_and_start b t o = Ok (n, o + prefix_len).
Proof.
  destruct at_bounds as (Hpl & Hls & Hlu & Hin). rewrite zlen_cell_bytes in Hin.
  destruct (cell_parts b o Hh) as (_ & Hv & Hk & _ & _). rewrite prefix_len_eq in *.
  pose proof (varint_len_pos n n_u64). pose proof (varint_len_pos _ key_u64).
  assert (0 <= match spill t u n with Some _ => 4 | None => 0 end) as Hsp
    by (destruct (spill t u n); lia).
  unfold payload_size_and_start. destruct t; try congruence; page_type_tests.
  - destruct (read_varint_held b (o + 4) n Hb Hv) as [-> E]; [lia|lia|apply n_u64|].
    cbn [mbind res_bind]. rewrite E. cbn [mbind res_bind]. do 2 f_equal. lia.
  - rewrite Z.add_0_r in Hv.
    destruct (read_varint_held b o n Hb Hv) as [-> E]; [lia|lia|apply n_u64|].
    cbn [mbind res_bind]. rewrite E. cbn [mbind res_bind]. do 2 f_equal. lia.
  - rewrite Z.add_0_r in Hv. specialize (Hk eq_refl).
    destruct (read_varint_held b o n Hb Hv) as [-> E]; [lia|lia|apply n_u64|].
    cbn [mbind res_bind]. rewrite E. cbn [mbind res_bind].
    destruct (read_varint_held b _ _ Hb Hk) as [-> E2]; [lia|lia|apply key_u64|].
    cbn [mbind res_bind]. rewrite E2. cbn [mbind res_bind]. do 2 f_equal. lia.
Qed.

Lemma payload_slice_at :
  payload_slice b t n (o + prefix_len) (PayloadLimits_new u) = Ok (ztake lsz record, spilled).
Proof.
  destruct at_bounds as (Hpl & Hls & Hlu & Hin). rewrite zlen_cell_bytes in Hin.
  destruct (cell_parts b o Hh) as (_ & _ & _ & Hl & Hf).
  unfold payload_slice, spilled.
  replace (payload_overflows n (max_local (PayloadLimits_new u) t) (min_local (PayloadLimits_new u))
    (usable_size (PayloadLimits_new u))) with (spill t u n) by (by destruct t).
  unfold local_size in *. assert (zlen (ztake (local_size t u n) record) = local_size t u n) as Hzt
    by (rewrite zlen_ztake; pose proof (local_size_bounds u Hu t n ltac:(lia)); lia).
  unfold local_size in Hzt. unfold assert_or_bail_corrupt.
  destruct (spill t u n) as [l|] eqn:Es.
  - destruct (spill_Some u Hu t n l ltac:(lia) Es) as [Hl4 Hln]. specialize (Hf ltac:(done)).
    rewrite (proj2 (Z.leb_le _ _)) by lia. cbn [mbind res_bind].
    replace (o + prefix_len + (l - 4)) with (o + prefix_len + l - 4) in Hf by lia.
    rewrite (be_u32_held _ _ first) by (done || lia). cbn [mbind res_bind].
    rewrite (proj2 (Z.ltb_lt _ _)), (proj2 (Z.leb_le _ _)) by lia. cbn [mbind res_bind andb].
    replace (o + prefix_len + l - 4) with (o + prefix_len + zlen (ztake (l - 4) record)) by lia.
    rewrite zslice_held by (done || lia). done.
  - rewrite (proj2 (Z.leb_le _ _)) by lia. cbn [mbind res_bind].
    rewrite <- Hzt at 1. rewrite zslice_held by (done || lia). done.
Qed.

Lemma read_btree_cell_at : read_btree_cell b t o u = Ok the_cell.
Proof.
  pose proof size_and_start_at as Hs. pose proof payload_at as Hp.
  destruct at_bounds as (Hpl & Hls & Hlu & Hin). rewrite zlen_cell_bytes in Hin.
  destruct (cell_parts b o Hh) as (Hlc & Hv & Hk & _ & _). rewrite prefix_len_eq in *.
  pose proof (varint_len_pos n n_u64). pose proof (varint_len_pos _ key_u64).
  assert (0 <= match spill t u n with Some _ => 4 | None => 0 end) as Hsp
    by (destruct (spill t u n); lia).
  unfold read_btree_cell, the_cell, spilled. destruct t; try congruence; page_type_tests.
  - unfold assert_or_bail_corrupt. rewrite (proj2 (Z.leb_le _ _)) by lia. cbn [mbind res_bind].
    rewrite (be_u32_held b o left_child) by (auto || lia). cbn [mbind res_bind].
    destruct (read_varint_held b (o + 4) n Hb Hv) as [-> E]; [lia|lia|apply n_u64|].
    cbn [mbind res_bind]. rewrite E. cbn [mbind res_bind].
    replace (o + 4 + zlen (varint_bytes n)) with (o + (4 + zlen (varint_bytes n) + 0)) by lia.
    by rewrite Hp.
  - rewrite Z.add_0_r in Hv.
    destruct (read_varint_held b o n Hb Hv) as [-> E]; [lia|lia|apply n_u64|].
    cbn [mbind res_bind]. rewrite E. cbn [mbind res_bind].
    replace (o + zlen (varint_bytes n)) with (o + (0 + zlen (varint_bytes n) + 0)) by lia.
    by rewrite Hp.
  - rewrite Z.add_0_r in Hv. specialize (Hk eq_refl).
    destruct (read_varint_held b o n Hb Hv) as [-> E]; [lia|lia|apply n_u64|].
    cbn [mbind res_bind]. rewrite E. cbn [mbind res_bind].
    destruct (read_varint_held b _ _ Hb Hk) as [-> E2]; [lia|lia|apply key_u64|].
    cbn [mbind res_bind]. rewrite E2. cbn [mbind res_bind].
    replace (o + zlen (varint_bytes n) + zlen (varint_bytes (as_unsigned 64 key)))
      with (o + (0 + zlen (varint_bytes n) + zlen (varint_bytes (as_unsigned 64 key)))) by lia.
    rewrite Hp. cbn [mbind res_bind]. by rewrite as_signed_unsigned by (done || lia).
Qed.
End At.

Lemma cell_bytes_ok : cell_ok t u c.
Proof.
  pose proof (varint_len_pos n n_u64) as Hv. split.
  - rewrite zlen_cell_bytes, prefix_len_eq.
    pose proof (local_size_bounds u Hu t n ltac:(lia)). pose proof (varint_len_pos _ key_u64).
    destruct (spill t u n); do 2 destruct (bool_decide _); lia.
  - apply cell_bytes_bytes_ok.
  - intros Hleaf. unfold cell_bytes, cell_prefix.
    destruct t; try (vm_compute in Hleaf; discriminate); page_type_tests; rewrite app_nil_l.
    all: rewrite !rd_app_l by (rewrite ?zlen_app; pose proof (zlen_nonneg (varint_bytes (as_unsigned 64 key))); change (zlen []) with 0; lia).
    all: apply varint_first_nonzero; lia.
  - intros b o Hb Ho Hend Hh. eexists. by apply raw_len_at.
Qed.
End Readers.

(** ** The cells of table interior pages *)
Section TableInterior.
Context (u left_child key : Z) (Hleft : in_u 32 left_child) (Hkey : in_i 64 key).

#[local] Abbreviation c := (table_interior_bytes left_child key).

Lemma table_interior_len : zlen c = 4 + zlen (varint_bytes (as_unsigned 64 key)) /\ 5 <= zlen c <= 13.
Proof.
  pose proof (varint_len_pos _ (key_u64 key)). unfold table_interior_bytes.
  rewrite zlen_app, zlen_be_encode. lia.
Qed.

Lemma table_interior_ok : cell_ok TableInterior u c.
Proof.
  destruct table_interior_len as [Hl Hb]. split.
  - lia.
  - unfold table_interior_bytes. apply bytes_ok_app. split; [apply be_encode_ok|apply varint_bytes_ok].
  - lia.
  - intros b o Hbb Ho Hend Hh. exists false. pose proof (csize_ge c) as [_ Hcs].
    apply holds_app in Hh as [_ Hk]. rewrite zlen_be_encode in Hk.
    unfold raw_cell_len. destruct (read_varint_held b (o + 4) _ Hbb Hk) as [-> E];
      [lia|lia|apply key_u64|].
    cbn [mbind res_bind]. rewrite E. cbn [mbind res_bind]. unfold csize. do 2 f_equal. lia.
Qed.

Lemma read_table_interior b o :
  bytes_ok b -> 0 <= o -> o + csize c <= zlen b -> holds b o c ->
  read_btree_cell b TableInterior o u = Ok (TableInteriorCell left_child key).
Proof.
  intros Hb Ho Hend Hh. destruct table_interior_len as [Hl Hb']. pose proof (csize_ge c) as [_ Hcs].
  apply holds_app in Hh as [Hc Hk]. rewrite zlen_be_encode in Hk.
  unfold read_btree_cell, assert_or_bail_corrupt. rewrite (proj2 (Z.leb_le _ _)) by lia.
  cbn [mbind res_bind]. rewrite (be_u32_held b o left_child) by (auto || lia). cbn [mbind res_bind].
  destruct (read_varint_held b (o + 4) _ Hb Hk) as [-> E]; [lia|lia|apply key_u64|].
  cbn [mbind res_bind]. rewrite E. cbn [mbind res_bind]. by rewrite as_signed_unsigned by (done || lia).
Qed.
End TableInterior.
