(* ===== verification/PageSpec.v ===== *)
(** * What a b-tree page promises its cursor

    A page refines the list of its cells: initialising, inserting, dropping and
    defragmenting pages through [src/core/storage/btree.rs] are the list
    operations, [compute_free_space] is the number of bytes the list leaves, and
    the cells read back as they were built. *)
From S2P Require Import Prelude Errors Varint OnDisk Intervals Page Cells FreeSpace.
From S2P Require Import FreeSpaceSpec PageLayout PageCells PageOps CellFormat.

(** ** Initialising a page *)
Lemma upd_write_tail u p v :
  sized p u -> u + zlen v <= zlen (buf p) -> bytes_ok v ->
  upd u p (with_buf p (splice (buf p) u v)) (hdr_of p) (fun x => u <= x).
Proof.
  intros H Hl Hv. pose proof (sized_bounds u p H). pose proof (offset_range p).
  pose proof (zlen_nonneg v). split; try done.
  - apply sized_with_buf; [|by rewrite zlen_splice by lia|done]. apply bytes_ok_splice; [apply H|done].
  - cbn [buf with_buf]. rewrite zlen_splice; lia.
  - unfold hdr_of, h_type, h_fb, h_ncell, h_cca, h_frag, offset in *. cbn [buf page_id with_buf].
    rewrite ?u16_splice_other, ?rd_splice_out by lia. done.
  - intros x Hx Hs. apply rd_splice_out; lia.
Qed.

Lemma btree_init_page_spec u t p :
  sized p u ->
  wp False (btree_init_page t (offset p) u)
    (fun _ q => repr u t q [] [] [] /\ page_id q = page_id p /\ overflow_cells q = [] /\
       zlen (buf q) = zlen (buf p)) p.
Proof.
  intros H. pose proof (sized_bounds u p H) as Hb. pose proof (offset_range p) as Ho.
  set (p0 := with_overflow p []).
  assert (sized p0 u) as H0 by (by split; apply H).
  assert (0 <= PageType_as_u8 t < 256) as Ht by (destruct t; vm_compute; split; congruence).
  set (p1 := with_buf p0 (splice (buf p0) (offset p) [PageType_as_u8 t])).
  assert (sized p1 u) as H1.
  { apply sized_set_bytes; [done|lia|rewrite zlen_cons, zlen_nil; lia|]. by constructor. }
  assert (h_type p1 = PageType_as_u8 t) as Ht1.
  { unfold h_type, p1. cbn [buf with_buf]. change (offset (with_buf _ _)) with (offset p).
    rewrite rd_splice_in by (rewrite ?zlen_cons, ?zlen_nil; simpl; lia). by rewrite Z.sub_diag. }
  assert (offset p1 = offset p) as O1 by done.
  assert (zlen (buf p1) = zlen (buf p)) as L1.
  { unfold p1, p0. cbn [buf with_buf with_overflow].
    rewrite zlen_splice; rewrite ?zlen_cons, ?zlen_nil; lia. }
  pose proof (upd_set_fb u p1 0 H1 ltac:(lia)) as U2. set (p2 := set_fb p1 0) in *.
  pose proof (upd_set_ncell u p2 0 (upd_sized _ _ _ _ _ U2) ltac:(lia)) as U3.
  rewrite (upd_hdr _ _ _ _ _ U2) in U3. set (p3 := set_ncell p2 0) in *.
  pose proof (upd_set_cca u p3 u (upd_sized _ _ _ _ _ U3) ltac:(lia)) as U4.
  rewrite (upd_hdr _ _ _ _ _ U3) in U4. set (p4 := set_cca p3 u) in *.
  pose proof (upd_set_frag u p4 0 (upd_sized _ _ _ _ _ U4) ltac:(lia)) as U5.
  rewrite (upd_hdr _ _ _ _ _ U4) in U5. set (p5 := set_frag p4 0) in *.
  pose proof (upd_trans _ _ _ _ _ _ _ _ U2 (upd_trans _ _ _ _ _ _ _ _ U3
    (upd_trans _ _ _ _ _ _ _ _ U4 U5))) as U15.
  pose proof (upd_offset _ _ _ _ _ U15) as O5. pose proof (upd_len _ _ _ _ _ U15) as L5.
  destruct (upd_write_bytes u p5 (offset p + 8) (be_encode 4 0)) as [U6 _];
    [apply U15|lia|rewrite zlen_be_encode; lia|apply be_encode_ok|].
  rewrite (upd_hdr _ _ _ _ _ U15) in U6. set (p6 := with_buf p5 _) in *.
  pose proof (upd_trans _ _ _ _ _ _ _ _ U15 U6) as U16. pose proof (upd_len _ _ _ _ _ U16) as L6.
  set (pad := replicate (Z.to_nat (zlen (buf p6) - u)) 0).
  assert (u + zlen pad = zlen (buf p6)) as Hpad by (unfold pad, zlen in *; rewrite length_replicate; lia).
  pose proof (upd_write_tail u p6 pad (upd_sized _ _ _ _ _ U16) ltac:(lia)
    ltac:(apply Forall_replicate; unfold byte_ok; lia)) as U7.
  rewrite (upd_hdr _ _ _ _ _ U16) in U7. pose proof (upd_trans _ _ _ _ _ _ _ _ U16 U7) as U17.
  unfold btree_init_page. apply wp_bind. unfold wp at 1. fold p0.
  apply wp_bind. unfold get_offset, wp at 1. apply wp_bind, wp_passert; [apply Z.eqb_refl|].
  apply wp_bind. unfold write_page_type, write_u8, BTREE_PAGE_TYPE.
  apply wp_write_bytes; rewrite ?Z.add_0_r; change (offset p0) with (offset p);
    [lia|rewrite zlen_cons, zlen_nil; simpl; lia|]. fold p1.
  apply wp_bind, (wp_write_first_freeblock _ u); [done|]. fold p2.
  apply wp_bind, (wp_write_cell_count _ u); [apply U2|]. fold p3.
  apply wp_bind, (wp_write_cell_content_area _ u); [apply U3|lia|]. fold p4.
  apply wp_bind, (wp_write_frag _ u); [apply U4|]. fold p5.
  apply wp_bind. unfold write_rightmost_ptr, write_u32, BTREE_RIGHTMOST_PTR.
  apply wp_write_bytes; [lia|rewrite zlen_be_encode; lia|]. rewrite O5, O1. fold p6.
  apply wp_bind. unfold get_buf, wp at 1. apply wp_bind, wp_passert; [apply Z.leb_le; lia|].
  fold pad. apply wp_write_bytes; [lia|lia|]. split_and!.
  - eapply (empty_repr u t p1); [done|done|lia|]. exact U17.
  - apply U17.
  - apply U17.
  - rewrite (upd_len _ _ _ _ _ U17). exact L1.
Qed.

(** ** A page as the list of its cells *)
Inductive page_op :=
| InsertCell (payload : list Z) (idx : nat)
| DropCell (idx : nat)
| Defragment (max_frag_bytes : Z).

Definition page_step (u : Z) (op : page_op) : PM () :=
  match op with
  | InsertCell payload idx => insert_into_cell payload (Z.of_nat idx) u
  | DropCell idx => drop_cell (Z.of_nat idx) u
  | Defragment max_frag_bytes => defragment_page u max_frag_bytes
  end.

Fixpoint page_run (u : Z) (ops : list page_op) : PM () :=
  match ops with
  | [] => mret ()
  | op :: ops => page_step u op ;; page_run u ops
  end.

(** The bytes left by the cells [cells] on a page whose pointer array starts at [start]. *)
Definition room (u start : Z) (cells : list (list Z)) : Z :=
  u - (start + 2 * zlen cells) - cells_size cells.

Definition list_step (u start : Z) (op : page_op) (cells : list (list Z)) : option (list (list Z)) :=
  match op with
  | InsertCell payload idx =>
      if (idx <=? length cells)%nat && (csize payload + 2 <=? room u start cells)
      then Some (insert_at idx payload cells) else None
  | DropCell idx => if (idx <? length cells)%nat then Some (delete idx cells) else None
  | Defragment _ => Some cells
  end.

Fixpoint list_run (u start : Z) (ops : list page_op) (cells : list (list Z))
    : option (list (list Z)) :=
  match ops with
  | [] => Some cells
  | op :: ops => cells ← list_step u start op cells; list_run u start ops cells
  end.

Definition op_ok (t : PageType) (u : Z) (op : page_op) : Prop :=
  match op with InsertCell payload _ => cell_ok t u payload | _ => True end.

(** A page without pending overflow cells that holds [cells]. *)
Record refines (u : Z) (t : PageType) (id : Z) (p : page) (cells : list (list Z)) : Prop := mkRefines {
  rf_repr : page_repr u t p cells;
  rf_id : page_id p = id;
  rf_ovf : overflow_cells p = []
}.

(** Where the pointer array of such a page starts. *)
Definition ptrs_start (id : Z) (t : PageType) : Z :=
  header_offset_of id + header_size_of (PageType_as_u8 t).

Lemma refines_ptrs u t id p cells : refines u t id p cells -> h_ptrs p = ptrs_start id t.
Proof.
  intros [(cs & fbs & HR & _) Hid _]. unfold h_ptrs, ptrs_start, offset.
  by rewrite (rp_type _ _ _ _ _ _ HR), Hid.
Qed.

Lemma page_step_refines u t id p cells op cells' :
  refines u t id p cells -> op_ok t u op -> list_step u (ptrs_start id t) op cells = Some cells' ->
  exists q, page_step u op p = (Ok (), q) /\ refines u t id q cells'.
Proof.
  intros HF Hok Hstep. pose proof (refines_ptrs _ _ _ _ _ HF) as Hptr.
  destruct HF as [(cs & fbs & HR & <-) Hid Hov]. rewrite <- Hptr in Hstep.
  destruct op as [payload idx|idx|mf]; simpl in Hstep, Hok.
  - destruct (Nat.leb_spec idx (length (map snd cs))) as [Hi|]; [|done].
    destruct (Z.leb_spec (csize payload + 2) (room u (h_ptrs p) (map snd cs))) as [Hr|]; [|done].
    injection Hstep as <-. rewrite length_map in Hi.
    destruct (wp_run _ _ _ (insert_enough u t p cs fbs payload idx HR Hok Hov Hi Hr))
      as ([] & q & Hq & Hrep & Hid' & Hov').
    exists q. split; [done|]. split; [done|congruence|done].
  - destruct (Nat.ltb_spec idx (length (map snd cs))) as [Hi|]; [|done].
    injection Hstep as <-. rewrite length_map in Hi.
    destruct (wp_run _ _ _ (drop_cell_run u t p cs fbs idx HR Hi ltac:(by rewrite Hov)))
      as ([] & q & Hq & Hrep & Hid' & Hov').
    exists q. split; [done|]. split; [done|congruence|congruence].
  - injection Hstep as <-.
    destruct (wp_run _ _ _ (defragment_page_spec False u t p cs fbs mf HR))
      as ([] & q & Hq & cs' & Rq & Hsnd & Hid' & Hov' & _).
    exists q. split; [done|]. split; [by eexists _, _|congruence|congruence].
Qed.

Lemma page_run_refines u t id ops : forall p cells cells',
  refines u t id p cells -> Forall (op_ok t u) ops ->
  list_run u (ptrs_start id t) ops cells = Some cells' ->
  exists q, page_run u ops p = (Ok (), q) /\ refines u t id q cells'.
Proof.
  induction ops as [|op ops IH]; intros p cells cells' HF Hok Hrun.
  - injection Hrun as <-. by exists p.
  - apply Forall_cons_iff in Hok as [Hok Hoks]. cbn [list_run] in Hrun.
    destruct (list_step u (ptrs_start id t) op cells) as [mid|] eqn:Es; [|done].
    destruct (page_step_refines _ _ _ _ _ _ _ HF Hok Es) as (q & Hq & HFq).
    destruct (IH q mid cells' HFq Hoks Hrun) as (q' & Hq' & HFq').
    exists q'. split; [|done]. cbn [page_run]. unfold mbind, PM_bind. by rewrite Hq.
Qed.

Lemma refines_free u t id p cells :
  refines u t id p cells -> compute_free_space u p = (Ok (room u (ptrs_start id t) cells), p).
Proof.
  intros HF. rewrite <- (refines_ptrs _ _ _ _ _ HF). destruct HF as [(cs & fbs & HR & <-) _ _].
  rewrite (compute_free_space_exact u p _ _ (rp_layout _ _ _ _ _ _ HR)). simpl app.
  by rewrite (page_free_eq u t p cs fbs HR).
Qed.

Lemma init_refines u t p :
  sized p u ->
  exists q, btree_init_page t (offset p) u p = (Ok (), q) /\ refines u t (page_id p) q [].
Proof.
  intros H. destruct (wp_run _ _ _ (btree_init_page_spec u t p H)) as ([] & q & Hq & HR & Hid & Hov & _).
  exists q. split; [done|]. split; [by exists [], []|done|done].
Qed.

(** The page an operation sequence starts from in the examples. *)
Definition fresh_page (t : PageType) : page :=
  (btree_init_page t 0 512 (mkPage 2 (replicate 512 0) [])).2.

Lemma fresh_refines t : refines 512 t 2 (fresh_page t) [].
Proof.
  assert (sized (mkPage 2 (replicate 512 0) []) 512) as H.
  { split; [apply Forall_replicate; unfold byte_ok; lia|vm_compute; discriminate|].
    unfold MIN_USABLE_SPACE, PAGE_SIZE_MAX. lia. }
  destruct (init_refines 512 t _ H) as (q & Hq & HF). unfold fresh_page.
  change 0 with (offset (mkPage 2 (replicate 512 0) [])) at 1. by rewrite Hq.
Qed.

(** ** A page that is full *)
Lemma insert_full u t p cells payload idx :
  page_repr u t p cells -> idx <= zlen cells + zlen (overflow_cells p) ->
  overflow_cells p <> [] \/ page_free u p cells < csize payload + 2 ->
  match head (reverse (overflow_cells p)) with Some oc => oc_index oc + 1 = idx | None => True end ->
  insert_into_cell payload idx u p =
    (Ok (), with_overflow p (overflow_cells p ++
       [mkOverflowCell idx (if bool_decide (t = IndexLeaf)
                            then ensure_min_cell_size payload 0 else payload)])).
Proof.
  intros (cs & fbs & HR & <-) Hidx Hfull Hlast. pose proof (rp_sized _ _ _ _ _ _ HR) as H.
  enough (wp False (insert_into_cell payload idx u)
    (fun _ q => q = with_overflow p (overflow_cells p ++
       [mkOverflowCell idx (if bool_decide (t = IndexLeaf)
                            then ensure_min_cell_size payload 0 else payload)])) p) as Hw.
  { destruct (wp_run _ _ _ Hw) as ([] & q & -> & ->). done. }
  unfold insert_into_cell, _insert_into_cell. wread u. apply wp_bind. unfold get_overflow, wp at 1.
  apply wp_bind, wp_passert.
  { apply Z.leb_le. rewrite (rp_count _ _ _ _ _ _ HR). unfold zlen in *. rewrite length_map in Hidx. lia. }
  apply wp_bind. eapply wp_eq; [exact (compute_free_space_exact u p _ _ (rp_layout _ _ _ _ _ _ HR))|].
  simpl app. rewrite (page_free_eq u t p cs fbs HR).
  match goal with |- wp _ (if negb ?b then _ else _) _ _ => assert (b = false) as -> end.
  { rewrite andb_true_r. destruct (bool_decide_reflect (overflow_cells p = [])) as [E|E]; [|done].
    destruct Hfull as [?|Hf]; [done|]. simpl. apply Z.leb_gt. unfold csize in Hf.
    unfold MINIMUM_CELL_SIZE, CELL_PTR_SIZE_BYTES. lia. }
  cbn [negb]. unfold insert_as_overflow. apply wp_bind. unfold get_overflow, wp at 1.
  apply wp_bind, wp_passert.
  { destruct (head (reverse (overflow_cells p))) as [oc|]; [|done]. by apply Z.eqb_eq. }
  apply wp_bind. eapply (wp_page_type _ u t); [done|rewrite (rp_type _ _ _ _ _ _ HR); apply PageType_roundtrip|]. done.
Qed.

(** ** Reading the stored cells *)
Section Stored.
Context {u : Z} {t : PageType} {p : page} {cs : list (Z * list Z)} {fbs : list (Z * Z)} {i : nat} {o : Z} {c : list Z}.
Context (HR : repr u t p cs [] fbs) (Hi : cs !! i = Some (o, c)).

(** The bytes of the cell are where its pointer says, and its region lies in the page. *)
Lemma stored_bounds : 0 <= o /\ o + csize c <= zlen (buf p) /\ holds (buf p) o c.
Proof.
  destruct (rp_region u t p cs [] fbs i _ HR Hi) as (H1 & H2 & Hh & _). simpl in *.
  pose proof (sized_bounds u p (rp_sized _ _ _ _ _ _ HR)).
  pose proof (lay_cca_ge _ _ _ _ (rp_layout _ _ _ _ _ _ HR)). pose proof (offset_range p). split_and!; (done || lia).
Qed.

Lemma stored_slice : zslice (buf p) o (o + zlen c) = Some c.
Proof. destruct stored_bounds as (H1 & H2 & H3). pose proof (csize_ge c) as [_ ?]. apply zslice_held; (done || lia). Qed.

(** What the readers look up before they decode the cell. *)
Lemma stored_lookups :
  cell_count p = (Ok (h_ncell p), p) /\ Z.of_nat i < h_ncell p /\ header_size p = (Ok (header_size_of (h_type p)), p) /\
  read_u16 (header_size_of (h_type p) + Z.of_nat i * CELL_PTR_SIZE_BYTES) p = (Ok o, p) /\ page_type p = (Ok t, p).
Proof.
  pose proof (rp_sized _ _ _ _ _ _ HR) as H. pose proof (sized_bounds u p H). pose proof (offset_range p).
  destruct (rp_region u t p cs [] fbs i _ HR Hi) as (Hr1 & Hr2 & _ & _ & Hn). simpl in Hr1, Hr2. pose proof (csize_ge c).
  pose proof (rp_ptr _ _ _ _ _ _ HR i _ Hi) as Hptr. simpl in Hptr.
  pose proof (lay_area _ _ _ _ (rp_layout _ _ _ _ _ _ HR)) as Har. unfold h_first_cell in Har.
  pose proof (lay_cca_ge _ _ _ _ (rp_layout _ _ _ _ _ _ HR)). pose proof (h_ptrs_range p). pose proof (slow_bounds u t p cs fbs HR).
  assert (forall A (m : PM A) a, wp False m (fun r q => r = a /\ q = p) p -> m p = (Ok a, p)) as Hrun.
  { intros A m a Hw. destruct (wp_run _ _ _ Hw) as (? & ? & -> & -> & ->). done. }
  split_and!; [apply Hrun|done|apply Hrun..].
  - by apply (wp_cell_count _ u).
  - by apply (wp_header_size _ u).
  - unfold read_u16, CELL_PTR_SIZE_BYTES.
    apply (wp_read_u16_at _ (offset p + (header_size_of (h_type p) + Z.of_nat i * 2))); [unfold h_ptrs in *; lia..|].
    split; [|done]. rewrite <- Hptr. f_equal. unfold h_ptrs. lia.
  - by eapply (wp_page_type _ u t); [|rewrite (rp_type _ _ _ _ _ _ HR); apply PageType_roundtrip|].
Qed.

Lemma stored_get : cell_get (Z.of_nat i) u p = (read_btree_cell (buf p) t o u, p).
Proof.
  destruct stored_lookups as (Hn & Hlt & Hh & Hp & Ht). unfold cell_get, get_buf, passert, lift, mbind, PM_bind.
  rewrite Hn, (proj2 (Z.ltb_lt _ _) Hlt).
  cbn -[header_size read_u16 page_type read_btree_cell CELL_PTR_SIZE_BYTES Z.mul Z.add Z.of_nat]. by rewrite Hh, Hp, Ht.
Qed.

Lemma stored_payload : cell_read_payload_at (Z.of_nat i) (PayloadLimits_new u) p =
  (('(payload_size, payload_start) ← payload_size_and_start (buf p) t o;
    '(s, first_overflow) ← payload_slice (buf p) t payload_size payload_start (PayloadLimits_new u);
    Ok (s, payload_start, payload_size, first_overflow)), p).
Proof.
  destruct stored_lookups as (_ & _ & Hh & Hp & Ht). unfold cell_read_payload_at, get_buf, lift, mbind at 1 2 3 4, PM_bind.
  by rewrite Hh, Hp, Ht.
Qed.

Lemma stored_region : cell_get_raw_region (Z.of_nat i) u p = (Ok (o, csize c), p).
Proof.
  assert (wp False (cell_get_raw_region (Z.of_nat i) u) (fun r q => r = (o, csize c) /\ q = p) p) as Hw.
  { eapply wp_cell_region; [exact HR|lia|by rewrite Nat2Z.id|]. done. }
  destruct (wp_run _ _ _ Hw) as (? & ? & -> & -> & ->). done.
Qed.
End Stored.

(** The bytes of a cell on a page of the type. *)
Definition stored_bytes (t : PageType) (left_child key u : Z) (record : list Z) (first : Z) : list Z :=
  match t with
  | TableInterior => table_interior_bytes left_child key
  | _ => cell_bytes t left_child key u record first
  end.

(** ** The contract *)

(** C11: Pages refine lists of cells.  Start from a page that holds the cells [cells]
    and has no pending overflow cells, and run any sequence of cell insertions,
    cell removals and defragmentations that the list of cells allows (positions
    in range, room for each inserted cell and its pointer).  Every operation
    succeeds, no error, no panic, no debug-assertion failure; the page ends up
    holding exactly the cells that the list operations give, in that order, and
    [compute_free_space] returns exactly the bytes those cells leave. *)
Theorem page_operations_refine u t id p cells ops cells' :
  refines u t id p cells -> Forall (op_ok t u) ops ->
  list_run u (ptrs_start id t) ops cells = Some cells' ->
  exists q, page_run u ops p = (Ok (), q) /\ refines u t id q cells' /\
    compute_free_space u q = (Ok (room u (ptrs_start id t) cells'), q).
Proof.
  intros HF Hok Hrun. destruct (page_run_refines u t id ops p cells cells' HF Hok Hrun) as (q & Hq & HFq).
  exists q. split_and!; [done|done|]. by apply refines_free.
Qed.

(** Two small table-leaf cells. *)
Definition small_cell (key : Z) : list Z := cell_bytes TableLeaf 0 key 512 [3; 1; 1] 0.

Lemma small_cell_ok key : in_i 64 key -> cell_ok TableLeaf 512 (small_cell key).
Proof.
  intros Hk. apply cell_bytes_ok; try done.
  apply (bool_decide_unpack _). vm_compute. exact I.
Qed.

Definition small_ops : list page_op :=
  [InsertCell (small_cell 7) 0; InsertCell (small_cell 5) 0; DropCell 1;
   InsertCell (small_cell 9) 1; Defragment 0].

Lemma page_operations_refine_witness :
  exists q, page_run 512 small_ops (fresh_page TableLeaf) = (Ok (), q) /\
    refines 512 TableLeaf 2 q [small_cell 5; small_cell 9].
Proof.
  destruct (page_operations_refine 512 TableLeaf 2 (fresh_page TableLeaf) [] small_ops
    [small_cell 5; small_cell 9]) as (q & Hq & HF & _).
  - exact (fresh_refines TableLeaf).
  - unfold small_ops. repeat (constructor; [first [exact I | apply small_cell_ok; unfold in_i; lia]|]).
    constructor.
  - vm_compute. reflexivity.
  - exists q. split; [exact Hq|exact HF].
Defined.

(** A freshly initialised page is empty.  On any buffer of the page's size, whatever
    it held before, [btree_init_page] succeeds and leaves a page of the given
    type with no cells, no overflow cells, and every byte after the header free. *)
Theorem init_page_is_empty u t p :
  sized p u ->
  exists q, btree_init_page t (offset p) u p = (Ok (), q) /\ refines u t (page_id p) q [] /\
    compute_free_space u q = (Ok (u - ptrs_start (page_id p) t), q).
Proof.
  intros H. destruct (init_refines u t p H) as (q & Hq & HF). exists q. split_and!; [done|done|].
  rewrite (refines_free _ _ _ _ _ HF). unfold room. change (cells_size []) with 0.
  change (zlen []) with 0. by rewrite Z.mul_0_r, Z.add_0_r, Z.sub_0_r.
Qed.

Lemma init_page_is_empty_witness :
  exists q, btree_init_page IndexLeaf 100 512 (mkPage 1 (replicate 512 77) []) = (Ok (), q) /\
    compute_free_space 512 q = (Ok 404, q).
Proof.
  destruct (init_page_is_empty 512 IndexLeaf (mkPage 1 (replicate 512 77) [])) as (q & Hq & _ & Hf).
  - split; [apply Forall_replicate; unfold byte_ok; lia|vm_compute; discriminate|].
    unfold MIN_USABLE_SPACE, PAGE_SIZE_MAX. lia.
  - exists q. split; [exact Hq|exact Hf].
Defined.

(** C22: A cell that does not fit is kept beside the page.  When the page already has
    overflow cells, or the cell and its pointer need more than the free bytes,
    [insert_into_cell] leaves the buffer as it is and appends the cell, padded
    on index leaf pages, to the overflow cells with its index. *)
Theorem insert_into_full_page u t p cells payload idx :
  page_repr u t p cells -> idx <= zlen cells + zlen (overflow_cells p) ->
  overflow_cells p <> [] \/ page_free u p cells < csize payload + 2 ->
  match head (reverse (overflow_cells p)) with Some oc => oc_index oc + 1 = idx | None => True end ->
  insert_into_cell payload idx u p =
    (Ok (), with_overflow p (overflow_cells p ++
       [mkOverflowCell idx (if bool_decide (t = IndexLeaf)
                            then ensure_min_cell_size payload 0 else payload)])).
Proof. apply insert_full. Qed.

Lemma insert_into_full_page_witness :
  insert_into_cell (replicate 600 1) 0 512 (fresh_page IndexLeaf) =
    (Ok (), with_overflow (fresh_page IndexLeaf) [mkOverflowCell 0 (replicate 600 1)]).
Proof.
  rewrite (insert_into_full_page 512 IndexLeaf (fresh_page IndexLeaf) [] (replicate 600 1) 0).
  - rewrite (rf_ovf _ _ _ _ _ (fresh_refines IndexLeaf)). vm_compute. reflexivity.
  - exact (rf_repr _ _ _ _ _ (fresh_refines IndexLeaf)).
  - vm_compute. discriminate.
  - right. vm_compute. reflexivity.
  - vm_compute. exact I.
Defined.

(** C21: A stored cell reads back, whichever reader the cursor uses and whatever the type of the
    page.  On a page that holds, at index [i], the cell built for a record, [cell_get] decodes its
    key, child pointer, local payload, payload size and first overflow page.
    [cell_get_raw_region] gives the place that entry [i] of the cell pointer array names and the
    size that the cell takes on a page; at this place the page has exactly the bytes of the cell.
    [cell_read_payload_ptr] returns the same local payload, size and overflow page, except on
    table interior pages, whose cells have no payload: there it panics ([unreachable!]). *)
Theorem stored_cell_reads_back u t id p cells (i : nat) left_child key record first :
  refines u t id p cells -> MIN_USABLE_SPACE <= u <= PAGE_SIZE_MAX ->
  in_u 32 left_child -> in_i 64 key -> in_u 32 first -> 0 < zlen record < 2 ^ 63 ->
  cells !! i = Some (stored_bytes t left_child key u record first) ->
  let o := u16 (buf p) (h_ptrs p + 2 * Z.of_nat i) in
  let bytes := stored_bytes t left_child key u record first in
  cell_get (Z.of_nat i) u p = (Ok (the_cell t left_child key u record first), p) /\
  cell_get_raw_region (Z.of_nat i) u p = (Ok (o, csize bytes), p) /\
  zslice (buf p) o (o + zlen bytes) = Some bytes /\
  cell_read_payload_ptr (Z.of_nat i) (PayloadLimits_new u) p =
    (if bool_decide (t = TableInterior) then Panic
     else Ok (ztake (local_size t u (zlen record)) record, zlen record, spilled t u record first), p).
Proof.
  intros [(cs & fbs & HR & <-) _ _] Hu Hl Hk Hf Hlen Hi o bytes.
  change (map snd cs) with (snd <$> cs) in Hi. rewrite list_lookup_fmap in Hi.
  destruct (cs !! i) as [[o' c]|] eqn:Ei; [|done]. apply (inj Some) in Hi. simpl in Hi. subst c. fold bytes in Ei.
  assert (o' = o) as -> by (symmetry; exact (rp_ptr _ _ _ _ _ _ HR i _ Ei)).
  destruct (stored_bounds HR Ei) as (H1 & H2 & H3). pose proof (rp_sized _ _ _ _ _ _ HR) as H.
  split_and!; [|exact (stored_region HR Ei)|exact (stored_slice HR Ei)|].
  - rewrite (stored_get HR Ei). f_equal.
    destruct t; [apply read_btree_cell_at|apply read_table_interior|apply read_btree_cell_at..]; (done || apply H).
  - unfold cell_read_payload_ptr, mbind, PM_bind. rewrite (stored_payload HR Ei).
    destruct t; [|done|..]; rewrite (size_and_start_at _ left_child key u record first) by (done || apply H); cbn [mbind res_bind];
      rewrite (payload_slice_at _ left_child key u record first) by (done || apply H); done.
Qed.

(** The page after one insertion. *)
Definition one_cell_page : page := (page_run 512 [InsertCell (small_cell 7) 0] (fresh_page TableLeaf)).2.

Lemma one_cell_refines : refines 512 TableLeaf 2 one_cell_page [small_cell 7].
Proof.
  destruct (page_run_refines 512 TableLeaf 2 [InsertCell (small_cell 7) 0] (fresh_page TableLeaf) []
    [small_cell 7]) as (q & Hq & HF).
  - apply fresh_refines.
  - constructor; [|constructor]. apply small_cell_ok. unfold in_i. lia.
  - vm_compute. reflexivity.
  - unfold one_cell_page. by rewrite Hq.
Qed.

Lemma stored_cell_reads_back_witness :
  cell_get 0 512 one_cell_page = (Ok (TableLeafCell 7 [3; 1; 1] 3 None), one_cell_page).
Proof.
  destruct (stored_cell_reads_back 512 TableLeaf 2 one_cell_page [small_cell 7] 0 0 7 [3; 1; 1] 0)
    as [H _].
  - exact one_cell_refines.
  - unfold MIN_USABLE_SPACE, PAGE_SIZE_MAX. lia.
  - unfold in_u. lia.
  - unfold in_i. lia.
  - unfold in_u. lia.
  - vm_compute. split; reflexivity.
  - reflexivity.
  - exact H.
Defined.
