(* ===== verification/FreeSpaceContract.v ===== *)
(** * The free-space management of a page

    What [find_free_slot], [free_cell_range], [defragment_page] and
    [allocate_cell_space] of [src/core/storage/btree.rs] do to a page whose
    cells, freeblocks and fragments tile its content area. *)
From S2P Require Import Prelude Errors Varint OnDisk Intervals Page Cells FreeSpace.
From S2P Require Import FreeSpaceSpec PageLayout PageCells PageOps CellFormat.
From S2P Require Import PageSpec.

(** The bytes of every cell of [cells] are the same on both pages. *)
Definition keeps_cells (p q : page) (cells : list ivl) : Prop :=
  Forall (fun c => forall x, inside x c -> rd (buf q) x = rd (buf p) x) cells.

Lemma upd_keeps_cells u p q h fbs cells :
  upd u p q h (in_any fbs) -> Forall (fun c => offset p + 8 <= c.1) cells ->
  Forall (fun c => Forall (fun f => apart c f) fbs) cells -> keeps_cells p q cells.
Proof.
  intros U Hlo Ha. rewrite Forall_forall in Hlo, Ha. apply Forall_forall. intros c Hc x Hx.
  apply (upd_frame _ _ _ _ _ U).
  - specialize (Hlo c Hc). unfold inside in Hx. lia.
  - intros (f & Hf & Hxf)%Exists_exists. specialize (Ha c Hc). rewrite Forall_forall in Ha.
    specialize (Ha f Hf). unfold apart, inside in *. lia.
Qed.

Lemma layout_keeps u p q h cells0 cells fbs fbs' :
  layout u p cells0 fbs -> upd u p q h (in_any fbs') ->
  (forall c, c ∈ cells -> c ∈ cells0) -> Forall (fun c => Forall (apart c) fbs') cells ->
  keeps_cells p q cells.
Proof.
  intros HL U Hsub Ha. eapply upd_keeps_cells; [exact U| |exact Ha].
  pose proof (lay_cca_ge _ _ _ _ HL) as Hcc. pose proof (lay_cells _ _ _ _ HL) as Hc.
  rewrite Forall_forall in Hc. apply Forall_forall. intros c Hin.
  destruct (Hc c) as [[? ?] _]; [by apply list_elem_of_In, Hsub, list_elem_of_In|]. lia.
Qed.

(** A laid-out page for the examples: one freeblock between two cells. *)
Definition slot_page : page :=
  (page_run 512 [InsertCell (small_cell 7) 0; InsertCell (small_cell 5) 0; InsertCell (small_cell 3) 0;
                 DropCell 1] (fresh_page TableLeaf)).2.

Lemma slot_page_layout : layout 512 slot_page [(507, 5); (497, 5)] [(502, 5)].
Proof.
  assert (sized slot_page 512) as H.
  { split; [apply (bool_decide_unpack _); vm_compute; exact I|vm_compute; discriminate|].
    unfold MIN_USABLE_SPACE, PAGE_SIZE_MAX. lia. }
  assert (h_cca slot_page = 497 /\ h_fb slot_page = 502 /\ h_frag slot_page = 0 /\
          h_first_cell slot_page = 12) as (E1 & E2 & E3 & E4) by (vm_compute; done).
  split; rewrite ?E1, ?E2, ?E3, ?E4.
  - exact H.
  - lia.
  - repeat constructor; simpl; lia.
  - simpl. lia.
  - vm_compute. repeat split.
  - simpl. unfold apart. rewrite !Forall_cons_iff. simpl. split_and!; try apply Forall_nil; try exact I; lia.
  - reflexivity.
Qed.

(** C16: Freeing a cell returns exactly its bytes.  On a page whose cells and freeblocks
    are laid out correctly, [free_cell_range] on the region of a cell succeeds,
    whether the region has to be merged with the freeblock before it, after it,
    with both and the fragments between, or with the unallocated space; the
    remaining cells stay laid out with their bytes untouched, and the free space
    grows by the length of the region. *)
Theorem free_cell_range_returns_space u p cells fbs off len :
  layout u p ((off, len) :: cells) fbs ->
  exists q fbs', free_cell_range off len u p = (Ok (), q) /\ layout u q cells fbs' /\
    keeps_cells p q cells /\ h_ncell q = h_ncell p /\ h_type q = h_type p /\
    compute_free_space u p = (Ok (u - h_first_cell p - total cells - len), p) /\
    compute_free_space u q = (Ok (u - h_first_cell p - total cells), q).
Proof.
  intros HL. destruct (wp_run _ _ _ (free_cell_range_spec u p cells fbs off len HL))
    as ([] & q & Hq & fbs' & h & HLq & U & Ht & Hn & _).
  destruct (upd_fields _ _ _ _ _ U) as (F1 & _ & F3 & _ & _ & F6). rewrite Ht in F1, F6. rewrite Hn in F3, F6.
  exists q, fbs'. split_and!; [done|done| |done|done| |].
  - eapply layout_keeps; [exact HL|exact U|intros c; by constructor|].
    pose proof (lay_disj _ _ _ _ HL) as Hd. simpl in Hd. destruct Hd as [H1 H2].
    apply Forall_app in H1 as [H1 _]. apply disjoint_all_app in H2 as (_ & _ & H2).
    rewrite Forall_forall in H1, H2. apply Forall_forall. intros c Hc.
    constructor; [apply apart_sym; auto|auto].
  - rewrite (compute_free_space_exact u p _ _ HL). simpl. do 2 f_equal. lia.
  - rewrite (compute_free_space_exact u q _ _ HLq). do 3 f_equal. rewrite F6. done.
Qed.

Lemma free_cell_range_returns_space_witness :
  exists q fbs', free_cell_range 507 5 512 slot_page = (Ok (), q) /\ layout 512 q [(497, 5)] fbs'.
Proof.
  destruct (free_cell_range_returns_space 512 slot_page [(497, 5)] [(502, 5)] 507 5)
    as (q & fbs' & Hq & HL & _).
  - exact slot_page_layout.
  - exists q, fbs'. split; [exact Hq|exact HL].
Defined.

(** A free slot is free.  On a laid-out page [find_free_slot] never fails; when it
    returns an offset, the region of the requested size at that offset was
    inside a freeblock and is now a region of its own, apart from every cell
    and every remaining freeblock, and no cell's bytes have changed; when it
    returns [None], the page is untouched. *)
Theorem find_free_slot_is_free u p cells fbs amount :
  layout u p cells fbs -> 4 <= amount <= u ->
  exists r q, find_free_slot u amount p = (Ok r, q) /\
    match r with
    | None => q = p
    | Some pc => exists fbs', layout u q ((pc, amount) :: cells) fbs' /\ keeps_cells p q cells /\
        Exists (fun f => f.1 <= pc /\ pc + amount <= f.1 + f.2) fbs
    end.
Proof.
  intros HL Ha. destruct (wp_run _ _ _ (find_free_slot_spec u p cells fbs amount HL Ha)) as (r & q & Hq & Hr).
  exists r, q. split; [done|]. destruct r as [pc|]; [|done].
  destruct Hr as (fbs' & fb & frag & HLq & U & Hin & _). exists fbs'. split_and!; [done| |done].
  eapply layout_keeps; [exact HL|exact U|done|].
  pose proof (lay_disj _ _ _ _ HL) as Hd. by apply disjoint_all_app in Hd as (_ & _ & Hd).
Qed.

Lemma find_free_slot_is_free_witness :
  exists r q, find_free_slot 512 4 slot_page = (Ok r, q) /\ r = Some 502.
Proof.
  destruct (find_free_slot_is_free 512 slot_page [(507, 5); (497, 5)] [(502, 5)] 4) as (r & q & Hq & _).
  - exact slot_page_layout.
  - lia.
  - exists r, q. split; [exact Hq|]. assert ((find_free_slot 512 4 slot_page).1 = Ok (Some 502)) as E
      by (vm_compute; reflexivity). rewrite Hq in E. simpl in E. congruence.
Defined.

(** C17: Defragmenting a page keeps its cells and gathers its free space.  The
    page keeps the same cells in the same order, no freeblock is left, at most
    [max_frag_bytes] fragment bytes remain, and everything else that was free is
    one unallocated region, whichever of the two algorithms ran. *)
Theorem defragment_gathers_free_space u t p cells max_frag_bytes :
  page_repr u t p cells ->
  exists q, defragment_page u max_frag_bytes p = (Ok (), q) /\ page_repr u t q cells /\
    page_id q = page_id p /\ overflow_cells q = overflow_cells p /\
    h_fb q = 0 /\ h_frag q <= Z.max 0 max_frag_bytes /\
    h_cca q - h_first_cell q + h_frag q = page_free u p cells.
Proof.
  intros (cs & fbs & HR & <-).
  destruct (wp_run _ _ _ (defragment_page_spec False u t p cs fbs max_frag_bytes HR))
    as ([] & q & Hq & cs' & Rq & Hsnd & Hid & Hov & Hfrag).
  exists q. split_and!; [done|by exists cs', []|done|done| |done|].
  - exact (lay_chain _ _ _ _ (rp_layout _ _ _ _ _ _ Rq)).
  - pose proof (lay_sum _ _ _ _ (rp_layout _ _ _ _ _ _ Rq)) as Hs. change (total []) with 0 in Hs.
    simpl app in Hs. rewrite total_regions, Hsnd in Hs. unfold page_free, h_first_cell.
    assert (h_ptrs q = h_ptrs p) as ->.
    { unfold h_ptrs, offset. by rewrite Hid, (rp_type _ _ _ _ _ _ HR), (rp_type _ _ _ _ _ _ Rq). }
    assert (zlen cs' = zlen (map snd cs)) as Hz by (rewrite <- Hsnd; unfold zlen; by rewrite length_map).
    rewrite (rp_count _ _ _ _ _ _ Rq), Hz. lia.
Qed.

Lemma defragment_gathers_free_space_witness :
  exists q, defragment_page 512 0 one_cell_page = (Ok (), q) /\
    page_repr 512 TableLeaf q [small_cell 7].
Proof.
  destruct (defragment_gathers_free_space 512 TableLeaf one_cell_page [small_cell 7] 0)
    as (q & Hq & HR & _).
  - exact (rf_repr _ _ _ _ _ one_cell_refines).
  - exists q. split; [exact Hq|exact HR].
Defined.

(** C18: Allocation succeeds whenever the free bytes suffice.  If the cell and its pointer
    fit in the page's free space, however it is scattered over freeblocks and
    fragments, [allocate_cell_space] returns an offset; the region there is
    apart from every cell, room for one more pointer remains before the content
    area, and the page holds the same cells as before. *)
Theorem allocation_succeeds_when_space_suffices u t p cs fbs amount :
  repr u t p cs [] fbs -> 0 <= amount -> Z.max 4 amount + 2 <= page_free u p (map snd cs) ->
  exists pc q, allocate_cell_space amount u (page_free u p (map snd cs)) p = (Ok pc, q) /\
    exists cs' fbs', layout u q ((pc, Z.max 4 amount) :: map region cs') fbs' /\
      map snd cs' = map snd cs /\ Forall (fun oc => holds (buf q) oc.1 oc.2) cs' /\
      h_first_cell q + 2 <= h_cca q /\ overflow_cells q = overflow_cells p.
Proof.
  intros HR Ha Hroom.
  destruct (wp_run _ _ _ (allocate_cell_space_spec u t p cs fbs amount (page_free u p (map snd cs)) HR
    ltac:(symmetry; by eapply page_free_eq) Ha Hroom)) as (pc & q & Hq & cs' & fbs' & Rq & Hsnd & _ & Hov & Hfc).
  exists pc, q. split; [done|]. exists cs', fbs'.
  split_and!; [exact (rp_layout _ _ _ _ _ _ Rq)|done|exact (rp_holds _ _ _ _ _ _ Rq)|done|done].
Qed.

Lemma empty_page_repr : exists fbs, repr 512 TableLeaf (fresh_page TableLeaf) [] [] fbs.
Proof.
  destruct (rf_repr _ _ _ _ _ (fresh_refines TableLeaf)) as (cs & fbs & HR & Hcs).
  destruct cs; [by exists fbs|done].
Qed.

Lemma allocation_succeeds_when_space_suffices_witness :
  exists pc q, allocate_cell_space 100 512 504 (fresh_page TableLeaf) = (Ok pc, q).
Proof.
  assert (page_free 512 (fresh_page TableLeaf) (map snd ([] : list (Z * list Z))) = 504) as E by (vm_compute; reflexivity).
  destruct empty_page_repr as [fbs HR].
  destruct (allocation_succeeds_when_space_suffices 512 TableLeaf (fresh_page TableLeaf) [] fbs 100)
    as (pc & q & Hq & _).
  - exact HR.
  - lia.
  - rewrite E. vm_compute. discriminate.
  - exists pc, q. rewrite E in Hq. exact Hq.
Defined.
