(* ===== verification/Overflow.v ===== *)
(** * Payloads that spill to overflow pages ([src/core/storage/btree.rs])

    [fill_cell_payload] builds a cell and, when the record does not fit, writes
    its tail to a chain of overflow pages; [process_overflow_read] follows the
    chain.  Both are resumable state machines: an allocation or a page read may
    first return an I/O completion, and the call is repeated later from the state
    it left.  The allocator is an interface ([PageAllocator]); a page of the
    store is allocated zeroed, as [allocate_overflow_page] of
    [src/core/storage/pager.rs] does. *)
From stdpp Require Import gmap.
From S2P Require Import Prelude Errors Effects Varint OnDisk Intervals Page Cells FreeSpace.
From S2P Require Import FreeSpaceSpec PageLayout PageCells CellFormat.

(** ** The pager as the payload code sees it *)

(** The pages of the database by number, and what else the pager keeps. *)
Record store (A : Type) := mkStore {
  st_alloc : A;
  st_pages : gmap Z (list Z);
  st_page_size : Z
}.
Arguments mkStore {A}.
Arguments st_alloc {A}.
Arguments st_pages {A}.
Arguments st_page_size {A}.

(** [Pager::allocate_page]: the page-allocation side of the pager, which keeps what it
    knows of free pages in the pages themselves. *)
Class PageAllocator (A : Type) := allocate_page : store A -> poll Z * store A.

Section Fill.
Context {A : Type} `{PageAllocator A}.

(** [Pager::allocate_overflow_page] *)
Definition allocate_overflow_page (w : store A) : poll Z * store A :=
  let '(r, w) := allocate_page w in
  match r with
  | Ready id =>
      (r, mkStore (st_alloc w) (<[id := replicate (Z.to_nat (st_page_size w)) 0]> (st_pages w)) (st_page_size w))
  | _ => (r, w)
  end.

(** [contents.as_ptr()[pos..pos + len].copy_from_slice(..)] on a page of the store *)
Definition store_write (w : store A) (id pos : Z) (v : list Z) : result (store A) :=
  b ← or_panic (st_pages w !! id);
  b' ← or_panic (zput b pos v);
  Ok (mkStore (st_alloc w) (<[id := b']> (st_pages w)) (st_page_size w)).

Inductive CopyDataState := Copy | AllocateOverflowPage.

Inductive FillCellPayloadState :=
| Start
| CopyData (state : CopyDataState) (space_left_on_cur_page src_data_offset dst_data_offset : Z)
    (current_overflow_page : option Z).

(** [IOResult<()>] *)
Inductive io := IODone | IOPending.

Record fill := mkFill { f_cell : list Z; f_store : store A; f_state : FillCellPayloadState }.

Definition overflow_page_pointer_size : Z := 4.

(** The [Start] arm: the cell header, then either the whole record or the zeroed
    local part. [left_child] is what [cell_interior_read_left_child_page] returns
    on an index interior page. *)
Definition fill_start (page_type : PageType) (left_child : result Z) (int_key : option Z)
    (record : list Z) (usable_space : Z) (f : fill) : result (option io * fill) :=
  cell ← (if bool_decide (page_type = IndexInterior)
          then l ← left_child; Ok (f_cell f ++ be_encode 4 l) else Ok (f_cell f));
  cell ← (if bool_decide (page_type = TableLeaf) then
            k ← or_panic int_key;
            cell ← write_varint_to_vec (zlen record) cell;
            write_varint_to_vec (as_unsigned 64 k) cell
          else write_varint_to_vec (zlen record) cell);
  let max_local := payload_overflow_threshold_max page_type usable_space in
  let min_local := payload_overflow_threshold_min page_type usable_space in
  match payload_overflows (zlen record) max_local min_local usable_space with
  | None => Ok (Some IODone, mkFill (cell ++ record) (f_store f) (f_state f))
  | Some local_payload_size =>
      let cell_non_payload_elems_size := zlen cell in
      Ok (None, mkFill (cell ++ replicate (Z.to_nat local_payload_size) 0) (f_store f)
            (CopyData Copy (local_payload_size - overflow_page_pointer_size) 0
               cell_non_payload_elems_size None))
  end.

(** The [CopyData] arm in state [Copy]. *)
Definition fill_copy (record : list Z) (space src dst : Z) (cur : option Z) (f : fill)
    : result (option io * fill) :=
  assert_that (src <? zlen record) ;;
  let amount_to_copy := Z.min space (zlen record - src) in
  slice ← or_panic (zslice record src (src + amount_to_copy));
  f ← (match cur with
       | Some id =>
           assert_that (dst =? overflow_page_pointer_size) ;;
           w ← store_write (f_store f) id dst slice;
           Ok (mkFill (f_cell f) w (f_state f))
       | None =>
           c ← or_panic (zput (f_cell f) dst slice);
           Ok (mkFill c (f_store f) (f_state f))
       end);
  if zlen record - src - amount_to_copy =? 0 then Ok (Some IODone, f)
  else Ok (None, mkFill (f_cell f) (f_store f)
                   (CopyData AllocateOverflowPage space (src + amount_to_copy) dst cur)).

(** The [CopyData] arm in state [AllocateOverflowPage]. *)
Definition fill_allocate (usable_space space src dst : Z) (cur : option Z) (f : fill)
    : result (option io * fill) :=
  let overflow_page_data_size := usable_space - overflow_page_pointer_size in
  let '(r, w) := allocate_overflow_page (f_store f) in
  match r with
  | Waits => Ok (Some IOPending, mkFill (f_cell f) w (f_state f))
  | Fails e => Err e
  | Crashes => Panic
  | Ready new_id =>
      let id32 := be_encode 4 (wrap 32 new_id) in
      f ← (match cur with
           | Some prev =>
               w ← store_write w prev 0 id32;
               Ok (mkFill (f_cell f) w (f_state f))
           | None =>
               let at' := zlen (f_cell f) - overflow_page_pointer_size in
               c ← or_panic (zput (f_cell f) at' id32);
               Ok (mkFill c w (f_state f))
           end);
      Ok (None, mkFill (f_cell f) (f_store f)
                  (CopyData Copy overflow_page_data_size src overflow_page_pointer_size
                     (Some new_id)))
  end.

(** One iteration of the loop: [None] continues, [Some r] leaves it. *)
Definition fill_step (page_type : PageType) (left_child : result Z) (int_key : option Z)
    (record : list Z) (usable_space : Z) (f : fill) : result (option io * fill) :=
  match f_state f with
  | Start => fill_start page_type left_child int_key record usable_space f
  | CopyData Copy space src dst cur => fill_copy record space src dst cur f
  | CopyData AllocateOverflowPage space src dst cur =>
      fill_allocate usable_space space src dst cur f
  end.

(** One call of [fill_cell_payload]: the loop, bounded by [fuel] iterations. *)
Fixpoint fill_cell_payload (fuel : nat) (page_type : PageType) (left_child : result Z)
    (int_key : option Z) (record : list Z) (usable_space : Z) (f : fill) : result (io * fill) :=
  match fuel with
  | O => Panic
  | S fuel =>
      '(r, f) ← fill_step page_type left_child int_key record usable_space f;
      match r with
      | Some r => Ok (r, f)
      | None => fill_cell_payload fuel page_type left_child int_key record usable_space f
      end
  end.

(** The caller repeats the call after each I/O completion. *)
Fixpoint fill_until_done (calls fuel : nat) (page_type : PageType) (left_child : result Z)
    (int_key : option Z) (record : list Z) (usable_space : Z) (f : fill) : result fill :=
  match calls with
  | O => Panic
  | S calls =>
      '(r, f) ← fill_cell_payload fuel page_type left_child int_key record usable_space f;
      match r with
      | IODone => Ok f
      | IOPending =>
          fill_until_done calls fuel page_type left_child int_key record usable_space f
      end
  end.

(** ** What the loops do *)

(** [F] are the pages the allocator keeps to itself: the free ones and those the database
    does not have yet. *)
Definition touches (F : Z -> Prop) (w w' : store A) : Prop :=
  st_page_size w' = st_page_size w /\ forall i, ~ F i -> st_pages w' !! i = st_pages w !! i.

Definition same_own (F : Z -> Prop) (w w' : store A) : Prop :=
  st_alloc w' = st_alloc w /\ st_page_size w' = st_page_size w /\
  forall i, F i -> st_pages w' !! i = st_pages w !! i.

(** The allocator hands out the pages [ids] of its own, after at most [k] I/O completions and
    whatever is done to the pages of others meanwhile, and ends with [Q]. *)
Inductive supplies (Q : (Z -> Prop) -> store A -> Prop) : nat -> (Z -> Prop) -> store A -> list Z -> Prop :=
| supplies_nil k F w : Q F w -> supplies Q k F w []
| supplies_io k F w w' id ids :
    allocate_page w = (Waits, w') -> touches F w w' ->
    (forall w'', same_own F w' w'' -> supplies Q k F w'' (id :: ids)) -> supplies Q (S k) F w (id :: ids)
| supplies_done k F F' w w' id ids :
    allocate_page w = (Ready id, w') -> touches F w w' -> F id -> ~ F' id -> (forall i, F' i -> F i) ->
    (forall w'', same_own F' w' w'' -> supplies Q k F' w'' ids) -> supplies Q k F w (id :: ids).

Lemma same_own_refl F w : same_own F w w.
Proof. done. Qed.

Lemma supplies_own Q k F w ids : supplies Q k F w ids -> Forall F ids /\ NoDup ids.
Proof.
  induction 1 as [k F w HQ|k F w w' id ids Ha Ht _ IH|k F F' w w' id ids Ha Ht Hid Hid' Hsub _ IH].
  - split; constructor.
  - exact (IH w' (same_own_refl F w')).
  - destruct (IH w' (same_own_refl F' w')) as [H1 H2]. split.
    + constructor; [done|]. eapply Forall_impl; [|exact H1]. exact Hsub.
    + constructor; [|done]. intros Hin. apply Hid'. by eapply (proj1 (list.Forall_forall _ _) H1).
Qed.

Lemma supplies_mono (Q Q' : (Z -> Prop) -> store A -> Prop) k k' F w ids :
  (forall F w, Q F w -> Q' F w) -> (k <= k')%nat -> supplies Q k F w ids -> supplies Q' k' F w ids.
Proof.
  intros HQ Hk Hs. revert k' Hk.
  induction Hs as [k F w HQw|k F w w' id ids Ha Ht _ IH|k F F' w w' id ids Ha Ht Hid Hid' Hsub _ IH]; intros k' Hk.
  - apply supplies_nil. auto.
  - destruct k' as [|k']; [lia|]. eapply supplies_io; [done|done|]. intros w'' Hw. apply IH; [done|lia].
  - by eapply supplies_done; eauto.
Qed.

(** The rest of the calls, in the middle of one. *)
Definition go (calls fuel0 fuel : nat) (t : PageType) (left_child : result Z)
    (int_key : option Z) (record : list Z) (u : Z) (f : fill) : result fill :=
  '(r, f) ← fill_cell_payload fuel t left_child int_key record u f;
  match r with
  | IODone => Ok f
  | IOPending => fill_until_done calls fuel0 t left_child int_key record u f
  end.

Section Go.
Context (t : PageType) (left_child : result Z) (int_key : option Z) (record : list Z) (u : Z).

#[local] Abbreviation step := (fill_step t left_child int_key record u).
#[local] Abbreviation run c f0 f := (go c f0 f t left_child int_key record u).

Lemma fill_until_done_go calls fuel f :
  fill_until_done (S calls) fuel t left_child int_key record u f = run calls fuel fuel f.
Proof. done. Qed.

Lemma go_next calls fuel0 fuel f f' :
  step f = Ok (None, f') -> run calls fuel0 (S fuel) f = run calls fuel0 fuel f'.
Proof. intros Hs. unfold go. simpl. by rewrite Hs. Qed.

Lemma go_done calls fuel0 fuel f f' :
  step f = Ok (Some IODone, f') -> run calls fuel0 (S fuel) f = Ok f'.
Proof. intros Hs. unfold go. simpl. by rewrite Hs. Qed.

Lemma go_io calls fuel0 fuel f f' :
  step f = Ok (Some IOPending, f') ->
  run (S calls) fuel0 (S fuel) f = run calls fuel0 fuel0 f'.
Proof. intros Hs. unfold go at 1. simpl fill_cell_payload. rewrite Hs. cbn [mbind res_bind]. done. Qed.
End Go.

(** ** The chain of overflow pages in the store *)
Fixpoint fits (u : Z) (ids : list Z) (data : list Z) : Prop :=
  match ids with
  | [] => False
  | _ :: ids =>
      match ids with
      | [] => 0 < zlen data <= u - 4
      | _ => u - 4 < zlen data /\ fits u ids (zdrop (u - 4) data)
      end
  end.

Fixpoint chain (pages : gmap Z (list Z)) (ps u : Z) (ids : list Z) (data : list Z) : Prop :=
  match ids with
  | [] => False
  | id :: ids =>
      (exists b, pages !! id = Some b /\ u <= ps /\ zlen b = ps /\
         be_at 4 b 0 = default 0 (head ids) /\
         ztake (zlen (ztake (u - 4) data)) (zdrop 4 b) = ztake (u - 4) data) /\
      match ids with
      | [] => 0 < zlen data <= u - 4
      | _ => u - 4 < zlen data /\ chain pages ps u ids (zdrop (u - 4) data)
      end
  end.

(** The bytes of an overflow page. *)
Definition ovf_page (ps next : Z) (chunk : list Z) : list Z :=
  be_encode 4 next ++ chunk ++ replicate (Z.to_nat (ps - 4 - zlen chunk)) 0.

Lemma zlen_replicate n (x : Z) : zlen (replicate n x) = Z.of_nat n.
Proof. unfold zlen. by rewrite length_replicate. Qed.

Lemma zlen_ovf_page ps next chunk : 4 + zlen chunk <= ps -> zlen (ovf_page ps next chunk) = ps.
Proof.
  intros Hc. unfold ovf_page. rewrite !zlen_app, zlen_be_encode, zlen_replicate. lia.
Qed.

Lemma ovf_page_fill ps chunk :
  4 + zlen chunk <= ps ->
  splice (replicate (Z.to_nat ps) 0) 4 chunk = ovf_page ps 0 chunk.
Proof.
  intros Hc. pose proof (zlen_nonneg chunk). unfold splice, ovf_page. f_equal.
  - unfold ztake. change (Z.to_nat 4) with 4%nat. rewrite take_replicate.
    replace (4 `min` Z.to_nat ps)%nat with 4%nat by lia. done.
  - f_equal. unfold zdrop. rewrite drop_replicate. f_equal. lia.
Qed.

Lemma ovf_page_link ps next next' chunk :
  splice (ovf_page ps next chunk) 0 (be_encode 4 next') = ovf_page ps next' chunk.
Proof.
  unfold splice, ovf_page. rewrite zdrop_app_ge by (rewrite !zlen_be_encode; lia).
  rewrite !zlen_be_encode. by replace (0 + Z.of_nat 4 - Z.of_nat 4) with 0 by lia.
Qed.

Lemma ovf_page_read ps next chunk :
  0 <= next < 2 ^ 32 -> 4 + zlen chunk <= ps ->
  be_at 4 (ovf_page ps next chunk) 0 = next /\
  ztake (zlen chunk) (zdrop 4 (ovf_page ps next chunk)) = chunk.
Proof.
  intros Hn Hc. unfold ovf_page. split; [by apply be_at_here|].
  rewrite zdrop_app_ge by (rewrite zlen_be_encode; lia). rewrite zlen_be_encode.
  replace (4 - Z.of_nat 4) with 0 by lia. rewrite zdrop_0. by apply ztake_app_eq.
Qed.

Lemma chain_frame pages pages' ps u ids data :
  (forall i, i ∈ ids -> pages' !! i = pages !! i) -> chain pages ps u ids data -> chain pages' ps u ids data.
Proof.
  revert data. induction ids as [|id ids IH]; intros data Hp; [done|].
  intros [(b & Hb & H1 & H2 & H3) Hrest]. split.
  - exists b. rewrite Hp by constructor. done.
  - destruct ids as [|id' ids]; [done|]. destruct Hrest as [H4 H5]. split; [done|].
    apply IH; [|done]. intros i Hi. apply Hp. by constructor.
Qed.

Section Chain.
Context (t : PageType) (left_child : result Z) (int_key : option Z) (record : list Z) (u ps : Z).
Context (Hu : 480 <= u) (Hps : u <= ps).

#[local] Abbreviation run c f0 f := (go c f0 f t left_child int_key record u).

(** The store after the page number [v] has been written behind [cur]. *)
Definition link_cell (cur : option Z) (cell : list Z) (v : Z) : list Z :=
  match cur with None => splice cell (zlen cell - 4) (be_encode 4 v) | Some _ => cell end.

Definition linkable (F : Z -> Prop) (cur : option Z) (cell : list Z) (pages : gmap Z (list Z)) : Prop :=
  match cur with
  | None => 4 <= zlen cell
  | Some prev => ~ F prev /\ exists chunk, pages !! prev = Some (ovf_page ps 0 chunk) /\ 4 + zlen chunk <= ps
  end.

(** Outside [F] only the next-page number of [cur] changes, to [v]. *)
Definition linked (F : Z -> Prop) (cur : option Z) (pages pages' : gmap Z (list Z)) (v : Z) : Prop :=
  forall i, ~ F i ->
    match cur with
    | Some prev =>
        if decide (i = prev)
        then forall chunk, pages !! prev = Some (ovf_page ps 0 chunk) ->
               pages' !! prev = Some (ovf_page ps v chunk)
        else pages' !! i = pages !! i
    | None => pages' !! i = pages !! i
    end.

(** The allocated page, zeroed and linked to. *)
Definition link_pages (cur : option Z) (id : Z) (pages : gmap Z (list Z)) : gmap Z (list Z) :=
  let pages := <[id := replicate (Z.to_nat ps) 0]> pages in
  match cur with
  | Some prev => match pages !! prev with
                 | Some b => <[prev := splice b 0 (be_encode 4 id)]> pages
                 | None => pages end
  | None => pages
  end.

Lemma link_pages_own F cur cell pages pages' id :
  linkable F cur cell pages -> F id ->
  link_pages cur id pages' !! id = Some (replicate (Z.to_nat ps) 0) /\
  forall i, F i -> i <> id -> link_pages cur id pages' !! i = pages' !! i.
Proof.
  intros Hl Hid. unfold link_pages. destruct cur as [prev|].
  - destruct Hl as [Hp _]. assert (prev <> id) by (intros ->; done).
    rewrite (lookup_insert_ne _ id prev) by done. split.
    + destruct (pages' !! prev); [rewrite lookup_insert_ne by done|]; by rewrite lookup_insert_eq.
    + intros i Hi Hne. assert (prev <> i) by (intros ->; done).
      destruct (pages' !! prev); rewrite ?lookup_insert_ne by done; done.
  - rewrite lookup_insert_eq. split; [done|]. intros i _ Hne. by rewrite lookup_insert_ne by done.
Qed.

Lemma link_pages_linked F cur cell pages pages' id :
  linkable F cur cell pages -> F id -> (forall i, ~ F i -> pages' !! i = pages !! i) ->
  linked F cur pages (link_pages cur id pages') id.
Proof.
  intros Hl Hid Hout i Hi. unfold link_pages. assert (i <> id) by (intros ->; done). destruct cur as [prev|].
  - destruct Hl as [Hp (ch & Hb & Hch)]. assert (prev <> id) by (intros ->; done).
    rewrite (lookup_insert_ne _ id prev), (Hout prev), Hb by done. destruct (decide (i = prev)) as [->|].
    + intros ch' Hch'. apply (inj Some) in Hch'. by rewrite Hch', lookup_insert_eq, ovf_page_link.
    + rewrite !lookup_insert_ne by done. by apply Hout.
  - rewrite lookup_insert_ne by done. by apply Hout.
Qed.

Lemma fill_allocate_step F w w' cell cur space src dst id :
  allocate_page w = (Ready id, w') -> touches F w w' -> st_page_size w = ps -> F id -> 0 < id < 2 ^ 32 ->
  linkable F cur cell (st_pages w) ->
  fill_step t left_child int_key record u (mkFill cell w (CopyData AllocateOverflowPage space src dst cur)) =
  Ok (None, mkFill (link_cell cur cell id) (mkStore (st_alloc w') (link_pages cur id (st_pages w')) ps)
              (CopyData Copy (u - 4) src 4 (Some id))).
Proof.
  intros Ha [Hsz Hout] Hw Hid Hr Hl. unfold fill_step, fill_allocate, allocate_overflow_page. cbn [f_state f_store].
  rewrite Ha. cbn [st_alloc st_pages st_page_size]. rewrite Hsz, Hw, (wrap_small 32) by (unfold in_u; lia).
  unfold link_pages. destruct cur as [prev|]; cbn [f_cell].
  - destruct Hl as [Hp (ch & Hb & Hch)]. assert (prev <> id) by (intros ->; done). unfold store_write. cbn [st_pages].
    rewrite (lookup_insert_ne _ id prev), (Hout prev), Hb by done. cbn [or_panic mbind res_bind].
    rewrite zput_Some; [|lia|rewrite zlen_be_encode, zlen_ovf_page; lia]. done.
  - cbn in Hl. unfold overflow_page_pointer_size. rewrite zput_Some by (rewrite ?zlen_be_encode; lia). done.
Qed.

Lemma fill_copy_step a pages cell src id :
  pages !! id = Some (replicate (Z.to_nat ps) 0) -> 0 <= src < zlen record ->
  let amount := Z.min (u - 4) (zlen record - src) in
  let w := mkStore a (<[id := ovf_page ps 0 (ztake amount (zdrop src record))]> pages) ps in
  fill_step t left_child int_key record u
    (mkFill cell (mkStore a pages ps) (CopyData Copy (u - 4) src 4 (Some id))) =
  Ok (if zlen record - src - amount =? 0
      then (Some IODone, mkFill cell w (CopyData Copy (u - 4) src 4 (Some id)))
      else (None, mkFill cell w (CopyData AllocateOverflowPage (u - 4) (src + amount) 4 (Some id)))).
Proof.
  intros Hid Hsrc amount.
  assert (zlen (replicate (Z.to_nat ps) 0) = ps) as Hz by (rewrite zlen_replicate; lia).
  assert (zlen (ztake amount (zdrop src record)) = amount) as Hzc by (rewrite zlen_ztake, zlen_zdrop; lia).
  unfold fill_step, fill_copy. cbn [f_state]. unfold assert_that.
  rewrite (proj2 (Z.ltb_lt _ _)) by lia. cbn [mbind res_bind]. fold amount.
  rewrite zslice_Some by lia. replace (src + amount - src) with amount by lia.
  cbn [or_panic mbind res_bind]. unfold overflow_page_pointer_size. rewrite Z.eqb_refl.
  cbn [mbind res_bind f_store]. unfold store_write. cbn [st_pages]. rewrite Hid.
  cbn [or_panic mbind res_bind]. rewrite zput_Some by lia. cbn [or_panic mbind res_bind].
  rewrite ovf_page_fill by lia. by destruct (_ =? 0).
Qed.

(** Allocating and filling one page. *)
Lemma fill_one F w w' cell cur space src dst id fuel0 fuel calls :
  allocate_page w = (Ready id, w') -> touches F w w' -> st_page_size w = ps -> F id ->
  0 <= src < zlen record -> 0 < id < 2 ^ 32 -> linkable F cur cell (st_pages w) ->
  let amount := Z.min (u - 4) (zlen record - src) in
  exists pages', linked F cur (st_pages w) pages' id /\
    pages' !! id = Some (ovf_page ps 0 (ztake amount (zdrop src record))) /\
    (forall i, F i -> i <> id -> pages' !! i = st_pages w' !! i) /\
    run calls fuel0 (S (S fuel)) (mkFill cell w (CopyData AllocateOverflowPage space src dst cur)) =
    if zlen record - src - amount =? 0
    then Ok (mkFill (link_cell cur cell id) (mkStore (st_alloc w') pages' ps)
               (CopyData Copy (u - 4) src 4 (Some id)))
    else run calls fuel0 fuel
           (mkFill (link_cell cur cell id) (mkStore (st_alloc w') pages' ps)
              (CopyData AllocateOverflowPage (u - 4) (src + amount) 4 (Some id))).
Proof.
  intros Ha Ht Hw Hid Hsrc Hr Hl amount. set (pages2 := link_pages cur id (st_pages w')).
  destruct (link_pages_own F cur cell _ (st_pages w') id Hl Hid) as [H1 H2].
  pose proof (link_pages_linked F cur cell _ _ id Hl Hid (proj2 Ht)) as H3. fold pages2 in H1, H2, H3.
  exists (<[id := ovf_page ps 0 (ztake amount (zdrop src record))]> pages2). split_and!.
  - intros i Hi. specialize (H3 i Hi). assert (i <> id) by (intros ->; done).
    destruct cur as [prev|]; [destruct (decide (i = prev)) as [->|]|]; [intros ch Hch|..];
      rewrite lookup_insert_ne by done; auto.
  - by rewrite lookup_insert_eq.
  - intros i Hi Hne. rewrite lookup_insert_ne by done. by apply H2.
  - rewrite (go_next t left_child int_key record u _ _ _ _ _
      (fill_allocate_step F w w' cell cur space src dst id Ha Ht Hw Hid Hr Hl)). fold pages2.
    pose proof (fill_copy_step (st_alloc w') pages2 (link_cell cur cell id) src id H1 Hsrc) as S2.
    cbv zeta in S2. fold amount in S2. destruct (zlen record - src - amount =? 0).
    + by rewrite (go_done t left_child int_key record u _ _ _ _ _ S2).
    + by rewrite (go_next t left_child int_key record u _ _ _ _ _ S2).
Qed.

Lemma linkable_out F cur cell pages pages' :
  linkable F cur cell pages -> (forall i, ~ F i -> pages' !! i = pages !! i) -> linkable F cur cell pages'.
Proof. intros Hl Hout. destruct cur as [prev|]; [|done]. destruct Hl as [Hp Hch]. split; [done|]. by rewrite Hout. Qed.

Lemma linked_out F cur pages pages1 pages' v :
  (forall i, ~ F i -> pages1 !! i = pages !! i) -> linked F cur pages1 pages' v -> linked F cur pages pages' v.
Proof.
  intros Hout Hl i Hi. specialize (Hl i Hi). destruct cur as [prev|]; [|by rewrite <- Hout].
  destruct (decide (i = prev)) as [->|]; [|by rewrite <- Hout]. by rewrite <- Hout.
Qed.

Lemma linked_trans (F F' : Z -> Prop) cur pages pages' final id v :
  F id -> ~ F' id -> (forall i, F' i -> F i) ->
  linked F cur pages pages' id -> linked F' (Some id) pages' final v -> linked F cur pages final id.
Proof.
  intros Hid Hid' Hsub H1 H2 i Hi. assert (i <> id) by (intros ->; done).
  specialize (H2 i ltac:(auto)). simpl in H2. rewrite decide_False in H2 by done. specialize (H1 i Hi).
  destruct cur as [prev|]; [|congruence]. destruct (decide (i = prev)) as [->|]; [|congruence].
  intros ch Hch. rewrite H2. by apply H1.
Qed.

Lemma chunk_eq src : 0 <= src < zlen record ->
  ztake (Z.min (u - 4) (zlen record - src)) (zdrop src record) = ztake (u - 4) (zdrop src record).
Proof.
  intros Hsrc. assert (zlen (zdrop src record) = zlen record - src) as <- by (rewrite zlen_zdrop; lia).
  apply ztake_min_len. lia.
Qed.

Lemma fill_chain Q k F w ids :
  supplies Q k F w ids -> forall calls fuel0 fuel cell cur space src dst,
  st_page_size w = ps -> 0 <= src < zlen record -> fits u ids (zdrop src record) ->
  Forall (fun i => 0 < i < 2 ^ 32) ids -> linkable F cur cell (st_pages w) ->
  (k <= calls)%nat -> (2 * length ids <= fuel)%nat -> (2 * length ids <= fuel0)%nat ->
  exists f' F', run calls fuel0 fuel (mkFill cell w (CopyData AllocateOverflowPage space src dst cur)) = Ok f' /\
    f_cell f' = link_cell cur cell (default 0 (head ids)) /\
    chain (st_pages (f_store f')) ps u ids (zdrop src record) /\
    linked F cur (st_pages w) (st_pages (f_store f')) (default 0 (head ids)) /\ Q F' (f_store f').
Proof.
  induction 1 as [k F w HQ|k F w w' id ids Ha Ht _ IH|k F F' w w' id ids Ha Ht Hid Hid' Hsub Hsup IH];
    intros calls fuel0 fuel cell cur space src dst Hw Hsrc Hfit Hids Hlink Hk Hf Hf0.
  - done.
  - simpl in Hf, Hf0. destruct fuel as [|fuel]; [lia|]. destruct calls as [|calls]; [lia|].
    rewrite (go_io t left_child int_key record u _ _ _ _
      (mkFill cell w' (CopyData AllocateOverflowPage space src dst cur))).
    + destruct (IH w' (same_own_refl F w') calls fuel0 fuel0 cell cur space src dst) as (f' & F' & H1 & H2 & H3 & H4 & H5);
        try (done || lia); [by rewrite (proj1 Ht)|by eapply linkable_out; [|exact (proj2 Ht)]|].
      exists f', F'. split_and!; try done. eapply linked_out; [exact (proj2 Ht)|done].
    + unfold fill_step, fill_allocate, allocate_overflow_page. cbn [f_state f_store]. by rewrite Ha.
  - simpl in Hf, Hf0. destruct fuel as [|[|fuel]]; [lia|lia|]. apply Forall_cons_iff in Hids as [Hr Hids].
    destruct (fill_one F w w' cell cur space src dst id fuel0 fuel calls Ha Ht Hw Hid Hsrc Hr Hlink)
      as (pages' & Hlk & Hpid & Hown & Hrun).
    rewrite Hrun. clear Hrun. rewrite chunk_eq in Hpid by done.
    set (w2 := mkStore (st_alloc w') pages' ps). set (chunk := ztake (u - 4) (zdrop src record)) in *.
    assert (zlen chunk <= u - 4) as Hzch by (unfold chunk; rewrite zlen_ztake; lia).
    assert (same_own F' w' w2) as Hsame.
    { split_and!; [done|by rewrite (proj1 Ht)|]. intros i Hi. apply Hown; [auto|]. by intros ->. }
    assert (zlen (zdrop src record) = zlen record - src) as Hzd by (rewrite zlen_zdrop; lia).
    destruct ids as [|id' ids].
    + simpl in Hfit. rewrite (proj2 (Z.eqb_eq _ _)) by lia. specialize (Hsup w2 Hsame). inversion Hsup; subst.
      eexists _, F'. split; [done|]. cbn [f_cell f_store st_pages head default]. split_and!; try done.
      split; [|simpl; lia]. exists (ovf_page ps 0 chunk). destruct (ovf_page_read ps 0 chunk) as [H1 H2]; [lia|lia|].
      split_and!; [done|done|rewrite zlen_ovf_page; lia|done|done].
    + destruct Hfit as [Hbig Hfit]. rewrite (proj2 (Z.eqb_neq _ _)) by lia.
      rewrite Z.min_l by lia. rewrite zdrop_zdrop in Hfit by lia.
      destruct (IH w2 Hsame calls fuel0 fuel (link_cell cur cell id) (Some id) (u - 4) (src + (u - 4)) 4)
        as (f' & F'' & Hrun & Hcell & Hch & Hlk' & HQ); try (done || simpl in *; lia).
      { split; [done|]. exists chunk. split; [done|lia]. }
      exists f', F''. split_and!; [done|done| |by eapply linked_trans|done].
      split; [|split; [lia|by rewrite zdrop_zdrop by lia]]. exists (ovf_page ps id' chunk).
      specialize (Hlk' id Hid'). simpl in Hlk'. rewrite decide_True in Hlk' by done.
      apply Forall_cons_iff in Hids as [Hr' _]. destruct (ovf_page_read ps id' chunk) as [H1 H2]; [lia|lia|].
      split_and!; [by apply Hlk'|done|rewrite zlen_ovf_page; lia|done|done].
Qed.

Lemma splice_mid {B} (x y y' z : list B) pos :
  pos = zlen x -> zlen y = zlen y' -> splice (x ++ y ++ z) pos y' = x ++ y' ++ z.
Proof.
  intros -> Hy. unfold splice. rewrite ztake_app_eq by done. do 2 f_equal.
  rewrite zdrop_app_ge by (pose proof (zlen_nonneg y'); lia).
  rewrite zdrop_app_ge by lia. replace (_ - _ - _) with 0 by lia. apply zdrop_0.
Qed.

(** The number of overflow pages of a payload of [n] bytes. *)
Definition pages_needed (n : Z) : Z :=
  match spill t u n with None => 0 | Some l => (n - (l - 4) + (u - 4) - 1) / (u - 4) end.

Lemma fits_needed ids data :
  zlen ids = (zlen data + (u - 4) - 1) / (u - 4) -> 0 < zlen data -> fits u ids data.
Proof.
  revert data. induction ids as [|id ids IH]; intros data Hl Hd.
  - change (zlen []) with 0 in Hl. pose proof (Z.div_str_pos (zlen data + (u - 4) - 1) (u - 4)). lia.
  - rewrite zlen_cons in Hl.
    pose proof (Z.div_mod (zlen data + (u - 4) - 1) (u - 4) ltac:(lia)) as Hdm.
    pose proof (Z.mod_pos_bound (zlen data + (u - 4) - 1) (u - 4) ltac:(lia)) as Hmb.
    rewrite <- Hl in Hdm. destruct ids as [|id' ids].
    + change (zlen []) with 0 in Hdm. split; [done|lia].
    + pose proof (zlen_nonneg ids). rewrite zlen_cons in Hdm, Hl. split; [nia|].
      apply IH; rewrite zlen_zdrop; [|nia]. rewrite zlen_cons.
      replace (zlen data + (u - 4) - 1) with ((zlen data - (u - 4)) + (u - 4) - 1 + 1 * (u - 4)) in Hl by lia.
      rewrite Z.div_add in Hl by lia. replace (Z.max 0 _) with (zlen data - (u - 4)) by nia. lia.
Qed.
End Chain.

Section Result.
Context (t : PageType) (left_child key u ps : Z) (record : list Z).
Context (Hu : MIN_USABLE_SPACE <= u <= PAGE_SIZE_MAX) (Hps : u <= ps) (Hkey : in_i 64 key).
Context (Hlen : 0 < zlen record < 2 ^ 63).

#[local] Abbreviation n := (zlen record).
#[local] Abbreviation prefix := (cell_prefix t left_child key n).

Lemma fill_start_eq w :
  fill_step t (Ok left_child) (Some key) record u (mkFill [] w Start) =
  Ok (match spill t u n with
      | None => (Some IODone, mkFill (prefix ++ record) w Start)
      | Some l => (None, mkFill (prefix ++ replicate (Z.to_nat l) 0) w
                           (CopyData Copy (l - 4) 0 (zlen prefix) None))
      end).
Proof.
  unfold fill_step, fill_start, cell_prefix. cbn [f_cell f_store f_state].
  assert (in_u 64 n) by (unfold in_u; lia).
  assert (in_u 64 (as_unsigned 64 key)) by (apply wrap_in_u; lia).
  destruct t; page_type_tests; cbn [mbind res_bind or_panic];
    repeat (rewrite write_varint_to_vec_spec by done; cbn [mbind res_bind]);
    unfold spill; destruct (payload_overflows _ _ _ _) as [l|];
    rewrite ?app_nil_l, ?app_nil_r, <- ?app_assoc; done.
Qed.

(** The cell and the store after the fill, whatever the I/O. *)
Lemma fill_result Q k F w ids calls fuel :
  supplies Q k F w ids -> st_page_size w = ps -> zlen ids = pages_needed t u n ->
  Forall (fun i => 0 < i < 2 ^ 32) ids -> (k < calls)%nat -> (2 * length ids + 2 <= fuel)%nat ->
  exists f F', fill_until_done calls fuel t (Ok left_child) (Some key) record u (mkFill [] w Start) = Ok f /\
    f_cell f = cell_bytes t left_child key u record (default 0 (head ids)) /\
    (spill t u n <> None -> chain (st_pages (f_store f)) ps u ids (zdrop (local_size t u n) record)) /\
    (forall i, ~ F i -> st_pages (f_store f) !! i = st_pages w !! i) /\ (spill t u n <> None -> Q F' (f_store f)) /\
    (spill t u n = None -> f_store f = w).
Proof.
  intros Hsup Hw Hids Hrange Hcalls Hfuel. destruct calls as [|calls]; [lia|].
  rewrite fill_until_done_go. destruct fuel as [|[|fuel]]; [lia|lia|].
  pose proof (fill_start_eq w) as Hstart.
  unfold pages_needed in Hids. unfold cell_bytes, local_size.
  destruct (spill t u n) as [l|] eqn:Es.
  - destruct (spill_Some u Hu t n l ltac:(lia) Es) as [Hl Hln]. unfold MIN_USABLE_SPACE in Hu.
    rewrite (go_next t (Ok left_child) (Some key) record u _ _ _ _ _ Hstart).
    set (loc := ztake (l - 4) record).
    assert (zlen loc = l - 4) as Hloc by (unfold loc; rewrite zlen_ztake; lia).
    assert (fill_step t (Ok left_child) (Some key) record u
      (mkFill (prefix ++ replicate (Z.to_nat l) 0) w
         (CopyData Copy (l - 4) 0 (zlen prefix) None)) =
      Ok (None, mkFill (prefix ++ loc ++ replicate 4 0) w
                  (CopyData AllocateOverflowPage (l - 4) (l - 4) (zlen prefix) None))) as Hcopy.
    { unfold fill_step, fill_copy, assert_that. cbn [f_state].
      rewrite (proj2 (Z.ltb_lt _ _)) by lia. cbn [mbind res_bind].
      rewrite Z.sub_0_r, Z.add_0_l, Z.min_l by lia. rewrite zslice_Some by lia.
      rewrite Z.sub_0_r, zdrop_0. fold loc. cbn [or_panic mbind res_bind f_cell f_store f_state].
      pose proof (zlen_nonneg prefix).
      rewrite zput_Some; [|lia|rewrite zlen_app, zlen_replicate; lia]. cbn [or_panic mbind res_bind f_cell f_store].
      rewrite (proj2 (Z.eqb_neq _ _)) by lia. do 3 f_equal.
      replace (Z.to_nat l) with (Z.to_nat (l - 4) + 4)%nat by lia. rewrite replicate_add.
      apply splice_mid; [done|]. rewrite zlen_replicate. lia. }
    rewrite (go_next t (Ok left_child) (Some key) record u _ _ _ _ _ Hcopy).
    destruct (fill_chain t (Ok left_child) (Some key) record u ps ltac:(lia) Hps Q k F w ids Hsup
      calls (S (S fuel)) fuel (prefix ++ loc ++ replicate 4 0) None (l - 4) (l - 4) (zlen prefix))
      as (f & F' & Hrun & Hcell & Hch & Hlk & HQ); try (done || lia).
    { apply fits_needed; [lia| |]; rewrite zlen_zdrop;
        replace (Z.max 0 (l - 4)) with (l - 4) by lia; [|lia].
      rewrite Hids. do 2 f_equal. lia. }
    { unfold linkable. rewrite !zlen_app, zlen_replicate. pose proof (zlen_nonneg loc). pose proof (zlen_nonneg prefix). lia. }
    exists f, F'. split_and!; [done| |done|exact Hlk|done|done].
    rewrite Hcell. unfold link_cell. rewrite (assoc_L (++)).
    rewrite <- (app_nil_r (replicate 4 0)). rewrite splice_mid.
    + by rewrite app_nil_r, <- (assoc_L (++)).
    + rewrite !zlen_app, zlen_replicate. change (zlen []) with 0. lia.
    + rewrite zlen_replicate, zlen_be_encode. done.
  - destruct ids; [|rewrite zlen_cons in Hids; pose proof (zlen_nonneg ids); lia].
    rewrite (go_done t (Ok left_child) (Some key) record u _ _ _ _ _ Hstart).
    eexists _, F. split_and!; [done| |done|done|done|done]. cbn [f_cell].
    by rewrite app_nil_r, ztake_all by lia.
Qed.
End Result.
End Fill.
