(* ===== verification/OverflowRead.v ===== *)
(** * Reading a payload back from its overflow chain ([src/core/storage/btree.rs])

    [BTreeCursor::process_overflow_read] as the resumable state machine it is:
    a page read may spill the cache first ([ReadIO]), return the page with an
    I/O completion still pending, or return it loaded.  The theorems show that
    what [fill_cell_payload] wrote is read back whatever the I/O pattern, and
    that on arbitrary pages, cyclic chains included, the read returns. *)
From stdpp Require Import gmap.
From S2P Require Import Prelude Errors Effects Varint OnDisk Intervals Page Cells FreeSpace.
From S2P Require Import FreeSpaceSpec PageLayout PageCells CellFormat Overflow.

(** [IOResultOr<(PageRef, Option<Completion>)>] *)
Inductive read_result :=
| ReadIO
| ReadDone (pending : bool)
| ReadErr (e : LimboError).

(** [BTreeCursor::read_page]: the page-cache side of the pager. *)
Class PageReader (R : Type) := read_page : Z -> R -> read_result * R.

Record ReadPayloadOverflow := mkReadPayloadOverflow {
  ro_payload : list Z;
  ro_next_page : Z;
  ro_remaining_to_read : Z;
  ro_page : Z
}.

Section Read.
Context {R : Type} `{PageReader R}.

(** The fields of the cursor the read uses. *)
Record read_cursor := mkReadCursor {
  read_overflow_state : option ReadPayloadOverflow;
  reusable_record : option (list Z);
  rc_reader : R
}.

(** The cursor's pages: what a loaded [PageRef] points to, and the pager's usable space. *)
Context (pages : gmap Z (list Z)) (usable_space : Z).

(** One iteration of the loop: [None] continues, [Some r] returns [r]. *)
Definition overflow_read_step (payload : list Z) (start_next_page payload_size : Z)
    (c : read_cursor) : result (option io) * read_cursor :=
  match read_overflow_state c with
  | None =>
      if payload_size <? zlen payload then (Err Corrupt, c) else
      let remaining_to_read := payload_size - zlen payload in
      let '(r, reader) := read_page start_next_page (rc_reader c) in
      match r with
      | ReadErr e => (Err e, mkReadCursor None (reusable_record c) reader)
      | ReadIO => (Ok (Some IOPending), mkReadCursor None (reusable_record c) reader)
      | ReadDone pending =>
          let st := mkReadPayloadOverflow payload start_next_page remaining_to_read start_next_page in
          (Ok (if pending then Some IOPending else None),
           mkReadCursor (Some st) (reusable_record c) reader)
      end
  | Some st =>
      match pages !! ro_page st with
      | None => (Panic, c)
      | Some buf =>
          match zslice buf 0 4 with
          | None => (Panic, c)
          | Some next_bytes =>
              let next := be_decode next_bytes in
              let to_read := Z.min (ro_remaining_to_read st) (usable_space - 4) in
              let need_next_page := (to_read <? ro_remaining_to_read st) && negb (next =? 0) in
              (* [return_if_io!(self.read_page(next))] comes before the mutations *)
              let '(r, reader) :=
                if need_next_page
                then let '(r, reader) := read_page next (rc_reader c) in (Some r, reader)
                else (None, rc_reader c) in
              match r with
              | Some (ReadErr e) =>
                  (Err e, mkReadCursor (read_overflow_state c) (reusable_record c) reader)
              | Some ReadIO =>
                  (Ok (Some IOPending),
                   mkReadCursor (read_overflow_state c) (reusable_record c) reader)
              | _ =>
                  match zslice buf 4 (4 + to_read) with
                  | None => (Panic, mkReadCursor (read_overflow_state c) (reusable_record c) reader)
                  | Some chunk =>
                      let payload := ro_payload st ++ chunk in
                      let remaining_to_read := ro_remaining_to_read st - to_read in
                      match r with
                      | Some (ReadDone pending) =>
                          let st := mkReadPayloadOverflow payload next remaining_to_read next in
                          (Ok (if pending then Some IOPending else None),
                           mkReadCursor (Some st) (reusable_record c) reader)
                      | _ =>
                          if negb (remaining_to_read =? 0) || negb (next =? 0)
                          then (Err Corrupt, mkReadCursor None (reusable_record c) reader)
                          else (Ok (Some IODone), mkReadCursor None (Some payload) reader)
                      end
                  end
              end
          end
      end
  end.

(** One call: the loop, bounded by [fuel] iterations. *)
Fixpoint process_overflow_read (fuel : nat) (payload : list Z) (start_next_page payload_size : Z)
    (c : read_cursor) : result io * read_cursor :=
  match fuel with
  | O => (Panic, c)
  | S fuel =>
      match overflow_read_step payload start_next_page payload_size c with
      | (Ok None, c) => process_overflow_read fuel payload start_next_page payload_size c
      | (Ok (Some r), c) => (Ok r, c)
      | (Err e, c) => (Err e, c)
      | (Panic, c) => (Panic, c)
      end
  end.

(** The caller repeats the call after each I/O completion. *)
Fixpoint overflow_read_until_done (calls fuel : nat) (payload : list Z)
    (start_next_page payload_size : Z) (c : read_cursor) : result unit * read_cursor :=
  match calls with
  | O => (Panic, c)
  | S calls =>
      match process_overflow_read fuel payload start_next_page payload_size c with
      | (Ok IODone, c) => (Ok tt, c)
      | (Ok IOPending, c) =>
          overflow_read_until_done calls fuel payload start_next_page payload_size c
      | (Err e, c) => (Err e, c)
      | (Panic, c) => (Panic, c)
      end
  end.

(** The page cache delivers the pages [ids], in order, within [k] I/O completions. *)
Inductive serves : nat -> R -> list Z -> Prop :=
| serves_nil r : serves 0 r []
| serves_io k r r' id ids :
    read_page id r = (ReadIO, r') -> serves k r' (id :: ids) -> serves (S k) r (id :: ids)
| serves_pending k r r' id ids :
    read_page id r = (ReadDone true, r') -> serves k r' ids -> serves (S k) r (id :: ids)
| serves_loaded k r r' id ids :
    read_page id r = (ReadDone false, r') -> serves k r' ids -> serves k r (id :: ids).

(** The rest of the calls, in the middle of one. *)
Definition read_on (calls fuel0 fuel : nat) (payload : list Z) (start_next_page payload_size : Z)
    (c : read_cursor) : result unit * read_cursor :=
  match process_overflow_read fuel payload start_next_page payload_size c with
  | (Ok IODone, c) => (Ok tt, c)
  | (Ok IOPending, c) =>
      overflow_read_until_done calls fuel0 payload start_next_page payload_size c
  | (Err e, c) => (Err e, c)
  | (Panic, c) => (Panic, c)
  end.

Section Steps.
Context (payload : list Z) (start size : Z).
#[local] Abbreviation step := (overflow_read_step payload start size).
#[local] Abbreviation run c f0 f := (read_on c f0 f payload start size).

Lemma read_next calls fuel0 fuel c c' :
  step c = (Ok None, c') -> run calls fuel0 (S fuel) c = run calls fuel0 fuel c'.
Proof. intros Hs. unfold read_on. simpl. by rewrite Hs. Qed.

Lemma read_done calls fuel0 fuel c c' :
  step c = (Ok (Some IODone), c') -> run calls fuel0 (S fuel) c = (Ok tt, c').
Proof. intros Hs. unfold read_on. simpl. by rewrite Hs. Qed.

Lemma read_io calls fuel0 fuel c c' :
  step c = (Ok (Some IOPending), c') -> run (S calls) fuel0 (S fuel) c = run calls fuel0 fuel0 c'.
Proof. intros Hs. unfold read_on at 1. simpl process_overflow_read. rewrite Hs. done. Qed.

Section Follow.
Context (Hu : 480 <= usable_space).
#[local] Abbreviation u := usable_space.

(** The step on a page of a chain: its next page and its chunk. *)
Lemma chain_head ps id ids data :
  chain pages ps u (id :: ids) data ->
  exists b next_bytes, pages !! id = Some b /\ zslice b 0 4 = Some next_bytes /\
    be_decode next_bytes = default 0 (head ids) /\
    zslice b 4 (4 + Z.min (zlen data) (u - 4)) = Some (ztake (u - 4) data).
Proof.
  intros [(b & Hb & Hl & Hz0 & Hn & Hc) _]. exists b, (ztake 4 b). pose proof (zlen_nonneg data).
  assert (zlen (ztake (u - 4) data) = Z.min (zlen data) (u - 4)) as Hz by (rewrite zlen_ztake; lia).
  split_and!; [done| | |].
  - by rewrite zslice_Some, zdrop_0 by lia.
  - unfold be_at in Hn. by rewrite zdrop_0 in Hn.
  - rewrite zslice_Some by lia. rewrite Hz in Hc. rewrite <- Hc. do 2 f_equal. lia.
Qed.

Lemma read_chain ps k r ids :
  serves k r ids -> forall id acc np data rec calls fuel0 fuel,
  chain pages ps u (id :: ids) data -> Forall (fun i => 0 < i) ids ->
  (k <= calls)%nat -> (S (length ids) <= fuel)%nat -> (S (length ids) <= fuel0)%nat ->
  exists r', run calls fuel0 fuel
      (mkReadCursor (Some (mkReadPayloadOverflow acc np (zlen data) id)) rec r) =
    (Ok tt, mkReadCursor None (Some (acc ++ data)) r').
Proof.
  induction 1 as [r|k r r' id' ids Hr Hs IH|k r r' id' ids Hr Hs IH|k r r' id' ids Hr Hs IH];
    intros id acc np data rec calls fuel0 fuel Hch Hids Hk Hf Hf0;
    destruct (chain_head _ _ _ _ Hch) as (b & nb & Hb & Hnb & Hnext & Hchunk);
    destruct fuel as [|fuel]; try (simpl in Hf; lia).
  - destruct Hch as [_ Hd]. exists r.
    apply read_done. unfold overflow_read_step. cbn [read_overflow_state ro_page ro_remaining_to_read].
    rewrite Hb, Hnb, Hnext, Hchunk. simpl. rewrite andb_false_r.
    rewrite Z.min_l, Z.sub_diag by lia. simpl. by rewrite ztake_all by lia.
  - destruct calls as [|calls]; [lia|]. apply Forall_cons_iff in Hids as Hid0. destruct Hid0 as [Hid' _].
    rewrite (read_io _ _ _ _
      (mkReadCursor (Some (mkReadPayloadOverflow acc np (zlen data) id)) rec r')).
    + apply IH; (done || lia).
    + unfold overflow_read_step. cbn [read_overflow_state ro_page ro_remaining_to_read rc_reader].
      rewrite Hb, Hnb, Hnext. simpl. destruct Hch as [_ [Hbig _]].
      rewrite (proj2 (Z.ltb_lt _ _)), (proj2 (Z.eqb_neq id' 0)) by lia. simpl. by rewrite Hr.
  - destruct calls as [|calls]; [lia|]. apply Forall_cons_iff in Hids as [Hid' Hids].
    destruct Hch as [_ [Hbig Hch]].
    destruct (IH id' (acc ++ ztake (u - 4) data) id' (zdrop (u - 4) data) rec calls fuel0 fuel0)
      as (r2 & Hrun); try (done || simpl in *; lia).
    exists r2. rewrite (read_io _ _ _ _
      (mkReadCursor (Some (mkReadPayloadOverflow (acc ++ ztake (u - 4) data) id'
         (zlen (zdrop (u - 4) data)) id')) rec r')).
    + rewrite Hrun, <- app_assoc, ztake_zdrop. done.
    + unfold overflow_read_step. cbn [read_overflow_state ro_page ro_remaining_to_read rc_reader].
      rewrite Hb, Hnb, Hnext, Hchunk. simpl.
      rewrite (proj2 (Z.ltb_lt _ _)), (proj2 (Z.eqb_neq id' 0)) by lia. simpl. rewrite Hr.
      rewrite zlen_zdrop. do 5 f_equal; lia.
  - apply Forall_cons_iff in Hids as [Hid' Hids]. destruct Hch as [_ [Hbig Hch]].
    destruct (IH id' (acc ++ ztake (u - 4) data) id' (zdrop (u - 4) data) rec calls fuel0 fuel)
      as (r2 & Hrun); try (done || simpl in *; lia).
    exists r2. rewrite (read_next _ _ _ _
      (mkReadCursor (Some (mkReadPayloadOverflow (acc ++ ztake (u - 4) data) id'
         (zlen (zdrop (u - 4) data)) id')) rec r')).
    + rewrite Hrun, <- app_assoc, ztake_zdrop. done.
    + unfold overflow_read_step. cbn [read_overflow_state ro_page ro_remaining_to_read rc_reader].
      rewrite Hb, Hnb, Hnext, Hchunk. simpl.
      rewrite (proj2 (Z.ltb_lt _ _)), (proj2 (Z.eqb_neq id' 0)) by lia. simpl. rewrite Hr.
      rewrite zlen_zdrop. do 5 f_equal; lia.
Qed.
End Follow.
End Steps.

(** The whole read of a chain, from the local payload. *)
Lemma read_whole ps k r ids0 :
  serves k r ids0 -> forall id ids payload data rec calls fuel0 fuel,
  ids0 = id :: ids -> 480 <= usable_space ->
  chain pages ps usable_space (id :: ids) data -> Forall (fun i => 0 < i) ids ->
  (k <= calls)%nat -> (2 + length ids <= fuel)%nat -> (2 + length ids <= fuel0)%nat ->
  exists r', read_on calls fuel0 fuel payload id (zlen payload + zlen data) (mkReadCursor None rec r) =
    (Ok tt, mkReadCursor None (Some (payload ++ data)) r').
Proof.
  induction 1 as [r|k r r' id' ids' Hr Hs IH|k r r' id' ids' Hr Hs IH|k r r' id' ids' Hr Hs IH];
    intros id ids payload data rec calls fuel0 fuel Heq Hu Hch Hids Hk Hf Hf0; [done|..];
    injection Heq as -> ->; destruct fuel as [|fuel]; try lia;
    pose proof (zlen_nonneg data).
  all: assert (overflow_read_step payload id (zlen payload + zlen data) (mkReadCursor None rec r) =
    match read_page id r with
    | (ReadErr e, reader) => (Err e, mkReadCursor None rec reader)
    | (ReadIO, reader) => (Ok (Some IOPending), mkReadCursor None rec reader)
    | (ReadDone pending, reader) =>
        (Ok (if pending then Some IOPending else None),
         mkReadCursor (Some (mkReadPayloadOverflow payload id (zlen data) id)) rec reader)
    end) as Hstep
    by (unfold overflow_read_step; cbn [read_overflow_state rc_reader reusable_record];
        rewrite (proj2 (Z.ltb_ge _ _)) by lia;
        replace (zlen payload + zlen data - zlen payload) with (zlen data) by lia;
        by destruct (read_page id r) as [[] ?]).
  all: rewrite Hr in Hstep.
  - destruct calls as [|calls]; [lia|]. rewrite (read_io _ _ _ _ _ _ _ _ Hstep).
    apply (IH id ids); (done || lia).
  - destruct calls as [|calls]; [lia|]. rewrite (read_io _ _ _ _ _ _ _ _ Hstep).
    apply read_chain with (ps := ps) (k := k) (ids := ids); (done || lia).
  - rewrite (read_next _ _ _ _ _ _ _ _ Hstep).
    apply read_chain with (ps := ps) (k := k) (ids := ids); (done || lia).
Qed.

(** ** Arbitrary pages *)
Definition read_ends (payload_size : Z) (x : result unit * read_cursor) : Prop :=
  match x.1 with
  | Ok _ => exists p, reusable_record x.2 = Some p /\ zlen p = payload_size /\
              read_overflow_state x.2 = None
  | Err _ => True
  | Panic => False
  end.

(** A read of the page yields for a spill of the cache at most [n] times. *)
Inductive spills_within : nat -> Z -> R -> Prop :=
| within_now n id r : (read_page id r).1 <> ReadIO -> spills_within n id r
| within_spill n id r r' : read_page id r = (ReadIO, r') -> spills_within n id r' -> spills_within (S n) id r.

Lemma within_next n id r r' : spills_within n id r -> read_page id r = (ReadIO, r') -> exists n', n = S n' /\ spills_within n' id r'.
Proof. intros [? ? ? Hno|n' ? ? r'' Hio Hn] Hr; [by rewrite Hr in Hno|]. rewrite Hr in Hio. injection Hio as <-. eauto. Qed.

Section Garbage.
Context (Hu : 480 <= usable_space) (Hpages : forall id b, pages !! id = Some b -> usable_space <= zlen b).
Context (spills : nat) (Hspill : forall id r, spills_within spills id r).
Context (Hhas : forall id r p, (read_page id r).1 = ReadDone p -> is_Some (pages !! id)).
Context (payload : list Z) (start size : Z) (fuel0 : nat).

Lemma read_any m : forall j acc np rem id b rec r calls fuel,
  pages !! id = Some b -> spills_within j (be_decode (ztake 4 b)) r ->
  zlen acc + rem = size -> 0 <= rem -> rem / (usable_space - 4) <= Z.of_nat m ->
  (m * S spills + j < calls)%nat -> (m < fuel)%nat -> (m < fuel0)%nat ->
  read_ends size (read_on calls fuel0 fuel payload start size
    (mkReadCursor (Some (mkReadPayloadOverflow acc np rem id)) rec r)).
Proof.
  induction m as [|m IH]; intros j; induction j as [j IHj] using lt_wf_ind; intros acc np rem id b rec r calls fuel
    Hb Hsp Hsz Hrem Hm Hc Hf Hf0; destruct fuel as [|fuel]; try lia; destruct calls as [|calls]; try lia.
  all: pose proof (Hpages id b Hb) as Hlen; assert (zslice b 0 4 = Some (ztake 4 b)) as Hnb by by rewrite zslice_Some, zdrop_0 by lia.
  all: unfold read_on; cbn [process_overflow_read]; unfold overflow_read_step;
    cbn [read_overflow_state ro_page ro_remaining_to_read rc_reader ro_payload reusable_record];
    rewrite Hb, Hnb; set (next := be_decode (ztake 4 b)) in *;
    destruct (Z.ltb_spec (Z.min rem (usable_space - 4)) rem);
    (destruct (Z.eqb_spec next 0); cbn [negb andb]).
  all: try (rewrite zslice_Some by lia; cbn [negb orb];
    set (chunk := ztake _ (zdrop 4 b));
    assert (zlen chunk = Z.min rem (usable_space - 4)) as Hck
      by (unfold chunk; rewrite zlen_ztake, zlen_zdrop; lia);
    destruct (Z.eqb_spec (rem - Z.min rem (usable_space - 4)) 0); cbn [negb orb];
    unfold read_ends; cbn [reusable_record read_overflow_state fst snd]; try exact I;
    (eexists; split_and!; [done| |done]; rewrite zlen_app; lia)).
  - exfalso. assert (1 <= rem / (usable_space - 4)) by (apply Z.div_le_lower_bound; lia). lia.
  - pose proof (Hhas next r) as Hh. destruct (read_page next r) as [[|p|e] r'] eqn:Er; [| |done].
    { destruct (within_next _ _ _ _ Hsp Er) as (j' & -> & Hsp').
      change (read_ends size (read_on calls fuel0 fuel0 payload start size
        (mkReadCursor (Some (mkReadPayloadOverflow acc np rem id)) rec r'))).
      apply (IHj j' ltac:(lia) acc np rem id b); (done || lia). }
    destruct (Hh p eq_refl) as [b' Hb']. rewrite zslice_Some by lia. rewrite Z.min_r by lia.
    set (chunk := ztake _ (zdrop 4 b)).
    assert (zlen chunk = usable_space - 4) as Hck
      by (unfold chunk; rewrite zlen_ztake, zlen_zdrop; lia).
    assert (zlen (acc ++ chunk) + (rem - (usable_space - 4)) = size) by (rewrite zlen_app; lia).
    assert ((rem - (usable_space - 4)) / (usable_space - 4) <= Z.of_nat m).
    { replace (rem - (usable_space - 4)) with (rem + (-1) * (usable_space - 4)) by lia.
      rewrite Z.div_add by lia. lia. }
    destruct p.
    + change (read_ends size (read_on calls fuel0 fuel0 payload start size
        (mkReadCursor (Some (mkReadPayloadOverflow (acc ++ chunk) next
           (rem - (usable_space - 4)) next)) rec r'))).
      apply (IH spills _ _ _ _ b'); (done || lia).
    + change (read_ends size (read_on (S calls) fuel0 fuel payload start size
        (mkReadCursor (Some (mkReadPayloadOverflow (acc ++ chunk) next
           (rem - (usable_space - 4)) next)) rec r'))).
      apply (IH spills _ _ _ _ b'); (done || lia).
Qed.

(** The same from the local payload. *)
Lemma read_start m rec : forall j r calls fuel, spills_within j start r ->
  0 <= size -> size / (usable_space - 4) <= Z.of_nat m ->
  (m * S spills + spills + S j < calls)%nat -> (S m < fuel)%nat -> (S m < fuel0)%nat ->
  read_ends size (read_on calls fuel0 fuel payload start size (mkReadCursor None rec r)).
Proof.
  pose proof (zlen_nonneg payload). induction j as [j IHj] using lt_wf_ind. intros r calls fuel Hsp Hsz Hm Hc Hf Hf0.
  destruct fuel as [|fuel]; [lia|]. destruct calls as [|calls]; [lia|]. unfold read_on. cbn [process_overflow_read]. unfold overflow_read_step.
  cbn [read_overflow_state reusable_record rc_reader]. destruct (Z.ltb_spec size (zlen payload)) as [Hlt|Hge]; [exact I|].
  pose proof (Hhas start r) as Hh. destruct (read_page start r) as [[|p|e] r'] eqn:Er; [| |exact I].
  { destruct (within_next _ _ _ _ Hsp Er) as (j' & -> & Hsp').
    change (read_ends size (read_on calls fuel0 fuel0 payload start size (mkReadCursor None rec r'))). apply (IHj j'); (done || lia). }
  destruct (Hh p eq_refl) as [b Hb].
  assert ((size - zlen payload) / (usable_space - 4) <= Z.of_nat m) by (etrans; [apply Z.div_le_mono|exact Hm]; lia).
  destruct p.
  - change (read_ends size (read_on calls fuel0 fuel0 payload start size
      (mkReadCursor (Some (mkReadPayloadOverflow payload start (size - zlen payload) start)) rec r'))).
    apply (read_any m spills _ _ _ _ b); (done || lia).
  - change (read_ends size (read_on (S calls) fuel0 fuel payload start size
      (mkReadCursor (Some (mkReadPayloadOverflow payload start (size - zlen payload) start)) rec r'))).
    apply (read_any m spills _ _ _ _ b); (done || lia).
Qed.
End Garbage.
End Read.

(** The local payload, the payload size and the first overflow page of a cell. *)
Definition cell_payload (c : BTreeCell) : option (list Z * Z * option Z) :=
  match c with
  | TableInteriorCell _ _ => None
  | TableLeafCell _ payload size first => Some (payload, size, first)
  | IndexInteriorCell _ payload size first => Some (payload, size, first)
  | IndexLeafCell payload size first => Some (payload, size, first)
  end.

(** C15: A payload survives the write to a cell and its overflow chain and the
    read back, whatever the I/O.  When the allocator supplies, after any number
    of I/O completions, as many of its own pages [F] as the payload needs, repeated
    calls of [fill_cell_payload] end; they change no page of others; the cell they
    build, wherever it lies in a buffer, is decoded by [read_btree_cell] to a
    cell of the record's length, and its local payload is the record itself or
    it names the first page of a chain from which repeated calls of
    [process_overflow_read], again after any number of I/O completions, give
    back exactly the record. *)
Theorem overflow_payload_roundtrip {A R} `{PageAllocator A} `{PageReader R}
    (t : PageType) (left_child key u : Z) (record : list Z) (k : nat) (Q : (Z -> Prop) -> store A -> Prop)
    (F : Z -> Prop) (w : store A) (ids : list Z) (calls fuel : nat) :
  MIN_USABLE_SPACE <= u <= PAGE_SIZE_MAX -> u <= st_page_size w -> t <> TableInterior ->
  in_u 32 left_child -> in_i 64 key -> bytes_ok record -> 0 < zlen record < 2 ^ 63 ->
  supplies Q k F w ids -> zlen ids = pages_needed t u (zlen record) ->
  Forall (fun i => 0 < i < 2 ^ 32) ids -> (k < calls)%nat -> (2 * length ids + 2 <= fuel)%nat ->
  exists f, fill_until_done calls fuel t (Ok left_child) (Some key) record u (mkFill [] w Start) = Ok f /\
    (forall i, ~ F i -> st_pages (f_store f) !! i = st_pages w !! i) /\
    forall b o, bytes_ok b -> 0 <= o -> o + csize (f_cell f) <= zlen b -> holds b o (f_cell f) ->
    exists c local first, read_btree_cell b t o u = Ok c /\
      cell_payload c = Some (local, zlen record, first) /\
      match first with
      | None => local = record
      | Some id => forall (r : R) kr rec calls fuel,
          serves kr r ids -> (kr < calls)%nat -> (S (length ids) <= fuel)%nat ->
          exists r', overflow_read_until_done (st_pages (f_store f)) u calls fuel local id
              (zlen record) (mkReadCursor None rec r) =
            (Ok tt, mkReadCursor None (Some record) r')
      end.
Proof.
  intros Hu Hps Ht Hleft Hkey Hrec Hlen Hsup Hids Hrange Hcalls Hfuel.
  destruct (fill_result t left_child key u (st_page_size w) record Hu Hps Hlen Q k F w ids calls fuel)
    as (f & F' & Hrun & Hcell & Hch & Hrest & _); try done.
  exists f. split_and!; [done|done|]. intros b o Hb Ho Hend Hh. rewrite Hcell in Hend, Hh.
  set (first := default 0 (head ids)) in *.
  assert (in_u 32 first) as Hfirst.
  { unfold first, in_u. destruct ids; simpl; [lia|]. apply Forall_cons_iff in Hrange as [? _]. lia. }
  exists (the_cell t left_child key u record first),
    (ztake (local_size t u (zlen record)) record), (spilled t u record first).
  split_and!; [by apply read_btree_cell_at|by unfold the_cell; destruct t|].
  unfold spilled. pose proof (local_size_bounds u Hu t (zlen record) ltac:(lia)) as Hls.
  destruct (spill t u (zlen record)) as [l|] eqn:Es.
  2: { apply ztake_all. unfold local_size. rewrite Es. lia. }
  specialize (Hch ltac:(done)). intros r kr rec calls' fuel' Hsv Hk Hf.
  destruct calls' as [|calls']; [lia|]. destruct ids as [|id ids]; [done|].
  apply Forall_cons_iff in Hrange as [_ Hrange]. simpl in Hf.
  set (ls := local_size t u (zlen record)) in *.
  destruct (read_whole (st_pages (f_store f)) u (st_page_size w) kr r (id :: ids) Hsv id ids (ztake ls record)
    (zdrop ls record) rec calls' fuel' fuel') as (r' & Hread); try (done || lia).
  { unfold MIN_USABLE_SPACE in Hu. lia. }
  { eapply Forall_impl; [|exact Hrange]. simpl. lia. }
  exists r'. rewrite ztake_zdrop in Hread. rewrite <- Hread.
  replace (zlen (ztake ls record) + zlen (zdrop ls record)) with (zlen record)
    by (rewrite zlen_ztake, zlen_zdrop; lia). done.
Qed.

(** An allocator that completes an I/O before each page, and a cache that
    returns every page with its read pending. *)
Definition counting_allocator : PageAllocator (Z * bool) := fun w =>
  let '(n, waited) := st_alloc w in
  if waited then (Ready n, mkStore (n + 1, false) (st_pages w) (st_page_size w))
  else (Waits, mkStore (n, true) (st_pages w) (st_page_size w)).

Definition pending_reader : PageReader unit := fun _ r => (ReadDone true, r).

Lemma counting_supplies n m w :
  st_alloc w = (n, false) ->
  @supplies _ counting_allocator (fun _ _ => True) m (fun i => n <= i) w (seqZ n (Z.of_nat m)).
Proof.
  revert n w. induction m as [|m IH]; intros n w Hw; [by apply supplies_nil|].
  rewrite seqZ_cons by lia. replace (Z.pred (Z.of_nat (S m))) with (Z.of_nat m) by lia.
  eapply supplies_io; [unfold allocate_page, counting_allocator; by rewrite Hw|done|]. intros w1 (E1 & _ & _).
  eapply supplies_done; [unfold allocate_page, counting_allocator; by rewrite E1|done|lia| | |].
  - instantiate (1 := fun i => Z.succ n <= i). simpl. lia.
  - simpl. lia.
  - intros w2 (E2 & _ & _). by apply IH.
Qed.

Lemma overflow_payload_roundtrip_witness :
  exists f, @fill_until_done _ counting_allocator 4 8 TableLeaf (Ok 0) (Some 7)
    (replicate 1500 1) 512 (mkFill [] (mkStore (5, false) ∅ 512) Start) = Ok f.
Proof.
  destruct (@overflow_payload_roundtrip _ unit counting_allocator pending_reader TableLeaf 0 7 512
    (replicate 1500 1) 3 (fun _ _ => True) (fun i => 5 <= i) (mkStore (5, false) ∅ 512) [5; 6; 7] 4 8) as (f & Hf & _).
  - unfold MIN_USABLE_SPACE, PAGE_SIZE_MAX. lia.
  - done.
  - done.
  - unfold in_u. lia.
  - unfold in_i. lia.
  - apply Forall_replicate. unfold byte_ok. lia.
  - vm_compute. done.
  - exact (counting_supplies 5 3 (mkStore (5, false) ∅ 512) eq_refl).
  - vm_compute. reflexivity.
  - repeat (constructor; [lia|]). constructor.
  - lia.
  - simpl. lia.
  - exists f. exact Hf.
Defined.

(** C20: Reading a payload ends on every database file.  Whatever the pages hold, cyclic and
    truncated overflow chains included, whatever first page and payload size the cell claims, and
    however the page reads behave (they may fail, be pending, or yield up to [spills] times each
    for a spill of the page cache), [process_overflow_read] called again after each completion ends
    within the number of calls and iterations the payload size bounds; it never panics, and it
    returns either an error or a record of exactly the claimed size, with the cursor's read state
    cleared. *)
Theorem overflow_read_terminates {R} `{PageReader R} (pages : gmap Z (list Z)) (u : Z)
    (local : list Z) (first payload_size : Z) (rec : option (list Z)) (r : R) (spills calls fuel : nat) :
  480 <= u -> 0 <= payload_size -> (forall id b, pages !! id = Some b -> u <= zlen b) ->
  (forall id r, spills_within spills id r) ->
  (forall id r p, (read_page id r).1 = ReadDone p -> is_Some (pages !! id)) ->
  (payload_size / (u - 4) + 2) * (Z.of_nat spills + 1) < Z.of_nat calls -> payload_size / (u - 4) + 2 <= Z.of_nat fuel ->
  read_ends payload_size
    (overflow_read_until_done pages u calls fuel local first payload_size
       (mkReadCursor None rec r)).
Proof.
  intros Hu Hsz Hpages Hspill Hhas Hcalls Hfuel.
  assert (0 <= payload_size / (u - 4)) by (apply Z.div_pos; lia). destruct calls as [|calls]; [lia|].
  change (overflow_read_until_done ?p ?v (S ?n) ?m ?l ?i ?s ?c) with (read_on p v n m m l i s c).
  apply (read_start pages u Hu Hpages spills Hspill Hhas local first payload_size fuel (Z.to_nat (payload_size / (u - 4))) rec spills); try (done || lia).
Qed.

(** A page whose next pointer names itself. *)
Definition cyclic_page : list Z := be_encode 4 2 ++ replicate 508 0.

(** Every read yields once before it is done. *)
Definition spilling_reader : PageReader bool := fun id spilled =>
  if spilled then (if bool_decide (id = 2) then ReadDone true else ReadErr Corrupt, false) else (ReadIO, true).

Lemma overflow_read_terminates_witness :
  (@overflow_read_until_done _ spilling_reader {[ 2 := cyclic_page ]} 512 12 6 [1] 2 2000 (mkReadCursor None None false)).1 = Err Corrupt /\
  read_ends 2000 (@overflow_read_until_done _ spilling_reader {[ 2 := cyclic_page ]} 512 13 6 [1] 2 2000
    (mkReadCursor None None false)).
Proof.
  split; [vm_compute; reflexivity|].
  apply (@overflow_read_terminates _ spilling_reader {[ 2 := cyclic_page ]} 512 [1] 2 2000 None false 1 13 6).
  - lia.
  - lia.
  - intros id b Hb. apply lookup_singleton_Some in Hb as [_ <-]. vm_compute. discriminate.
  - intros id [].
    + apply within_now. unfold read_page, spilling_reader. simpl. by destruct (bool_decide _).
    + eapply within_spill; [reflexivity|]. apply within_now. unfold read_page, spilling_reader. simpl. by destruct (bool_decide _).
  - intros id [] p; unfold read_page, spilling_reader; simpl; [|done].
    destruct (bool_decide_reflect (id = 2)) as [->|]; [|done]. intros _.
    rewrite lookup_singleton_eq. by eexists.
  - vm_compute. reflexivity.
  - vm_compute. discriminate.
Defined.
