(* ===== verification/Freelist.v ===== *)
(** * The list of free pages ([src/core/storage/pager.rs])

    [Pager::allocate_page] and [Pager::free_page]: resumable state machines over the pages
    of the database.  The free pages form a chain of trunk pages, each with an array of
    leaf page numbers; the database header on page 1 has the first trunk, the number of
    free pages and the size of the database.  A call may return before it is done, for the
    cache to spill or a read to finish, and is repeated from the state it left; it may fail
    on I/O.  What the cache and the files do is a script of [answer]s, one for each
    operation that can wait or fail, so that a theorem for every script covers every
    schedule.  The asserted facts about the cache, pins, overflow cells and loaded pages are
    part of the state. *)
From stdpp Require Import gmap gmultiset.
From S2P Require Import Prelude Errors Effects OnDisk Overflow.

(** ** The state of the pager *)

(** How the cache or a file answers: at once, after a spill, with a read that is still
    running, or with an error.  Meanwhile the cache may evict the pages named, except
    those that are pinned. *)
Inductive answer :=
| Now (evicted : gset Z)
| Spilling (evicted : gset Z)
| Loading (evicted : gset Z)
| Broken (e : LimboError).

Inductive AllocatePageState :=
| AllocateStart
| SearchAvailableFreeListLeaf (trunk_page : Z)
| ReuseFreelistLeaf (trunk_page leaf_page number_of_freelist_leaves : Z)
| AllocateNewPage (current_db_size : Z).

Inductive FreePageState :=
| FreeStart
| AddToTrunk (page : Z)
| NewTrunk (page : Z).

Inductive HeaderRefState := HeaderStart | CreateHeader.

Record pager := mkPager {
  p_max_page_count : Z;
  (** [AutoVacuumMode::Full] *)
  p_vacuum_full : bool;
  p_header_ref_state : HeaderRefState;
  p_allocate_page_state : AllocatePageState;
  p_free_page_state : FreePageState;
  p_dirty_pages : gset Z;
  (** The keys of the page cache. *)
  p_page_cache : gset Z;
  (** Each page as often as it is pinned. *)
  p_pins : gmultiset Z;
  (** The pages whose read was started and is not known to be over: [is_loaded] is false. *)
  p_loading : gset Z;
  (** The pages whose [overflow_cells] are not empty. *)
  p_overflow_cells : gset Z;
  (** What the buffer the pool hands out for a new page happens to hold. *)
  p_buffer_pool : Z -> list Z;
  p_script : list answer
}.

Abbreviation pages_store := (store pager).

(** ** Code that may wait *)
Abbreviation PgM := (SM pages_store).

Definition with_pager (f : pager -> pager) (w : pages_store) : pages_store :=
  mkStore (f (st_alloc w)) (st_pages w) (st_page_size w).
Definition with_pages (f : gmap Z (list Z) -> gmap Z (list Z)) (w : pages_store) : pages_store :=
  mkStore (st_alloc w) (f (st_pages w)) (st_page_size w).
Definition on_pager (f : pager -> pager) : PgM () := modifies (with_pager f).
Definition on_pages (f : gmap Z (list Z) -> gmap Z (list Z)) : PgM () := modifies (with_pages f).

Definition set_header_ref_state s : PgM () := on_pager (fun p =>
  mkPager (p_max_page_count p) (p_vacuum_full p) s (p_allocate_page_state p) (p_free_page_state p)
    (p_dirty_pages p) (p_page_cache p) (p_pins p) (p_loading p) (p_overflow_cells p) (p_buffer_pool p) (p_script p)).
Definition set_allocate_state s : PgM () := on_pager (fun p =>
  mkPager (p_max_page_count p) (p_vacuum_full p) (p_header_ref_state p) s (p_free_page_state p)
    (p_dirty_pages p) (p_page_cache p) (p_pins p) (p_loading p) (p_overflow_cells p) (p_buffer_pool p) (p_script p)).
Definition set_free_state s : PgM () := on_pager (fun p =>
  mkPager (p_max_page_count p) (p_vacuum_full p) (p_header_ref_state p) (p_allocate_page_state p) s
    (p_dirty_pages p) (p_page_cache p) (p_pins p) (p_loading p) (p_overflow_cells p) (p_buffer_pool p) (p_script p)).
Definition set_dirty_pages d : PgM () := on_pager (fun p =>
  mkPager (p_max_page_count p) (p_vacuum_full p) (p_header_ref_state p) (p_allocate_page_state p) (p_free_page_state p)
    d (p_page_cache p) (p_pins p) (p_loading p) (p_overflow_cells p) (p_buffer_pool p) (p_script p)).
Definition set_page_cache c : PgM () := on_pager (fun p =>
  mkPager (p_max_page_count p) (p_vacuum_full p) (p_header_ref_state p) (p_allocate_page_state p) (p_free_page_state p)
    (p_dirty_pages p) c (p_pins p) (p_loading p) (p_overflow_cells p) (p_buffer_pool p) (p_script p)).
Definition set_pins m : PgM () := on_pager (fun p =>
  mkPager (p_max_page_count p) (p_vacuum_full p) (p_header_ref_state p) (p_allocate_page_state p) (p_free_page_state p)
    (p_dirty_pages p) (p_page_cache p) m (p_loading p) (p_overflow_cells p) (p_buffer_pool p) (p_script p)).
Definition loading_pages (l : gset Z) (w : pages_store) : pages_store := with_pager (fun p =>
  mkPager (p_max_page_count p) (p_vacuum_full p) (p_header_ref_state p) (p_allocate_page_state p) (p_free_page_state p)
    (p_dirty_pages p) (p_page_cache p) (p_pins p) l (p_overflow_cells p) (p_buffer_pool p) (p_script p)) w.
Definition set_loading l : PgM () := modifies (loading_pages l).
Definition set_overflow_cells o : PgM () := on_pager (fun p =>
  mkPager (p_max_page_count p) (p_vacuum_full p) (p_header_ref_state p) (p_allocate_page_state p) (p_free_page_state p)
    (p_dirty_pages p) (p_page_cache p) (p_pins p) (p_loading p) o (p_buffer_pool p) (p_script p)).
Definition set_script s : PgM () := on_pager (fun p =>
  mkPager (p_max_page_count p) (p_vacuum_full p) (p_header_ref_state p) (p_allocate_page_state p) (p_free_page_state p)
    (p_dirty_pages p) (p_page_cache p) (p_pins p) (p_loading p) (p_overflow_cells p) (p_buffer_pool p) s).

(** ** Pages, the cache and pins *)
Definition next_answer : PgM answer :=
  s ← gets (fun w => p_script (st_alloc w));
  match s with
  | [] => mret (Now ∅)
  | a :: s => set_script s;; mret a
  end.

Definition evict (evicted : gset Z) : PgM () :=
  p ← gets st_alloc;
  set_page_cache (p_page_cache p ∖ (evicted ∖ dom (p_pins p))).

Definition pin (id : Z) : PgM () := p ← gets st_alloc; set_pins (p_pins p ⊎ {[+ id +]}).

Definition unpin (id : Z) : PgM () :=
  p ← gets st_alloc;
  turso_assert (bool_decide (id ∈ p_pins p));;
  set_pins (p_pins p ∖ {[+ id +]}).

(** [Page::is_loaded] *)
Definition is_loaded (p : pager) (id : Z) : bool := bool_decide (id ∉ p_loading p).

(** A call is repeated when the reads it waited for are over.  A read that failed is an error of
    the wait, which ends the operation for the caller; the page stays as it is. *)
Definition wait_for_reads : PgM () :=
  p ← gets st_alloc;
  if decide (p_loading p = ∅) then mret ()
  else
    a ← next_answer;
    match a with Broken e => fails e | _ => set_loading ∅ end.

(** [Pager::read_page]: whether the read is still running.  Reading past the end of the
    file is a short read. *)
Definition read_page (id : Z) : PgM bool :=
  turso_assert (0 <=? id);;
  a ← next_answer;
  match a with
  | Broken e => fails e
  | Spilling evicted => evict evicted;; waits
  | Now evicted | Loading evicted =>
      page ← gets (fun w => st_pages w !! id);
      match page with
      | None => fails CompletionErr
      | Some _ =>
          evict evicted;;
          p ← gets st_alloc;
          set_page_cache (p_page_cache p ∪ {[ id ]});;
          match a with
          | Loading _ => p ← gets st_alloc; set_loading (p_loading p ∪ {[ id ]});; mret true
          | _ => mret false
          end
      end
  end.

(** The contents of a loaded page. *)
Definition get_contents (id : Z) : PgM (list Z) := b ← gets (fun w => st_pages w !! id); unwrap b.
Definition set_contents (id : Z) (b : list Z) : PgM () := on_pages <[id := b]>.

Definition read_u32_no_offset (id pos : Z) : PgM Z :=
  b ← get_contents id; v ← unwrap (zslice b pos (pos + 4)); mret (be_decode v).
Definition write_u32_no_offset (id pos value : Z) : PgM () :=
  b ← get_contents id; b ← unwrap (zput b pos (be_encode 4 value)); set_contents id b.
(** [page.get_contents().as_ptr().fill(0)] *)
Definition fill_zero (id : Z) : PgM () := b ← get_contents id; set_contents id (replicate (length b) 0).

(** [Pager::add_dirty]; the subjournal write may fail. *)
Definition add_dirty (id : Z) : PgM () :=
  a ← next_answer;
  match a with
  | Broken e => fails e
  | _ => p ← gets st_alloc; set_dirty_pages (p_dirty_pages p ∪ {[ id ]})
  end.

(** [Pager::ensure_cache_space] *)
Definition ensure_cache_space : PgM () :=
  a ← next_answer;
  match a with
  | Broken e => fails e
  | Now evicted => evict evicted
  | Spilling evicted | Loading evicted => evict evicted;; waits
  end.

(** [PageCache::force_insert_page] of a page that was just made: another page must not be
    in its place. *)
Definition force_insert_page (id : Z) : PgM () :=
  p ← gets st_alloc;
  turso_assert (bool_decide (id ∉ p_page_cache p));;
  a ← next_answer;
  match a with
  | Broken e => fails e
  | Now evicted | Spilling evicted | Loading evicted =>
      evict evicted;; p ← gets st_alloc; set_page_cache (p_page_cache p ∪ {[ id ]})
  end.

(** [allocate_new_page], [add_dirty] and [force_insert_page], as [allocate_page] uses them *)
Definition add_new_page (id : Z) : PgM () :=
  add_dirty id;;
  force_insert_page id;;
  p ← gets st_alloc; set_contents id (p_buffer_pool p id).

(** ** The database header on page 1 *)
Abbreviation HEADER_PAGE := 1.

(** Of a database that is initialized. *)
Definition read_header_page : PgM () :=
  p ← gets st_alloc;
  match p_header_ref_state p with
  | HeaderStart =>
      pending ← read_page HEADER_PAGE;
      set_header_ref_state CreateHeader;;
      if pending : bool then waits
      else
        p ← gets st_alloc;
        turso_assert (is_loaded p HEADER_PAGE);;
        set_header_ref_state HeaderStart
  | CreateHeader =>
      a ← next_answer;
      match a with
      | Broken e => set_header_ref_state HeaderStart;; fails e
      | _ => turso_assert (is_loaded p HEADER_PAGE);; set_header_ref_state HeaderStart
      end
  end.

(** [HeaderRefMut::from_pager] *)
Definition header_mut : PgM () := read_header_page;; add_dirty HEADER_PAGE.

Definition header : PgM DatabaseHeader := b ← get_contents HEADER_PAGE; mret (header_of_bytes b).
Definition set_database_size (v : Z) : PgM () := write_u32_no_offset HEADER_PAGE 28 v.
Definition set_freelist_trunk_page (v : Z) : PgM () := write_u32_no_offset HEADER_PAGE 32 v.
Definition set_freelist_pages (v : Z) : PgM () := write_u32_no_offset HEADER_PAGE 36 v.

(** Arithmetic on [u32], checked in the builds that are shipped. *)
Definition u32_add (x y : Z) : PgM Z := if x + y <? 2 ^ 32 then mret (x + y) else crashes.
Definition u32_sub (x y : Z) : PgM Z := if 0 <=? x - y then mret (x - y) else crashes.

(** ** Pages with a fixed use *)
Definition PENDING_BYTE : Z := 0x40000000.
(** [Pager::pending_byte_page_id]; [None] when the page size is zero *)
Definition pending_byte_page_id (page_size : Z) : option Z :=
  if page_size =? 0 then None else Some (PENDING_BYTE / page_size + 1).

Definition PTRMAP_ENTRY_SIZE : Z := 5.
Definition FIRST_PTRMAP_PAGE_NO : Z := 2.
Definition ptrmap_page_cycle_length (page_size : Z) : Z := page_size / PTRMAP_ENTRY_SIZE + 1.
Definition get_ptrmap_page_no_for_db_page (db_page_no page_size : Z) : Z :=
  let group_size := ptrmap_page_cycle_length page_size in
  let effective_page_index := db_page_no - FIRST_PTRMAP_PAGE_NO in
  let group_idx := effective_page_index / group_size in
  group_idx * group_size + FIRST_PTRMAP_PAGE_NO.
Definition is_ptrmap_page (db_page_no page_size : Z) : bool :=
  if db_page_no =? 1 then false
  else if db_page_no =? FIRST_PTRMAP_PAGE_NO then true
  else get_ptrmap_page_no_for_db_page db_page_no page_size =? db_page_no.

(** ** Allocation *)
Definition FREELIST_TRUNK_OFFSET_NEXT_TRUNK_PTR : Z := 0.
Definition FREELIST_TRUNK_OFFSET_LEAF_COUNT : Z := 4.
Definition FREELIST_TRUNK_OFFSET_FIRST_LEAF_PTR : Z := 8.
Definition FREELIST_LEAF_PTR_SIZE : Z := 4.

(** The pointer map page that must precede the next page, when there is one: the size of
    the database with it. *)
Definition ptrmap_page_first (old_db_size page_size : Z) : PgM Z :=
  p ← gets st_alloc;
  if p_vacuum_full p then
    next ← u32_add old_db_size 1;
    if is_ptrmap_page next page_size then
      p ← gets st_alloc;
      (if bool_decide (next ∈ p_page_cache p) then mret () else add_new_page next);;
      mret next
    else mret old_db_size
  else mret old_db_size.

(** The arms of the loop: [None] goes on, [Some id] is the allocated page. *)
Definition allocate_start : PgM (option Z) :=
  h ← header;
  new_db_size ← ptrmap_page_first (database_size h) (PageSize_get (page_size h));
  h ← header;
  if freelist_trunk_page h =? 0 then
    set_allocate_state (AllocateNewPage new_db_size);; mret None
  else
    pending ← read_page (freelist_trunk_page h);
    pin (freelist_trunk_page h);;
    set_allocate_state (SearchAvailableFreeListLeaf (freelist_trunk_page h));;
    if pending : bool then waits else mret None.

Definition take_trunk (trunk_page next_trunk_page_id : Z) : PgM (option Z) :=
  set_freelist_trunk_page next_trunk_page_id;;
  h ← header;
  n ← u32_sub (freelist_pages h) 1;
  set_freelist_pages n;;
  add_dirty trunk_page;;
  p ← gets st_alloc;
  turso_assert (bool_decide (trunk_page ∉ p_overflow_cells p));;
  fill_zero trunk_page;;
  turso_assert (bool_decide (trunk_page ∈ p_page_cache p));;
  unpin trunk_page;;
  set_allocate_state AllocateStart;;
  mret (Some trunk_page).

Definition search_available_freelist_leaf (trunk_page : Z) : PgM (option Z) :=
  p ← gets st_alloc;
  turso_assert (is_loaded p trunk_page);;
  next_trunk_page_id ← read_u32_no_offset trunk_page FREELIST_TRUNK_OFFSET_NEXT_TRUNK_PTR;
  number_of_freelist_leaves ← read_u32_no_offset trunk_page FREELIST_TRUNK_OFFSET_LEAF_COUNT;
  if negb (number_of_freelist_leaves =? 0) then
    next_leaf_page_id ← read_u32_no_offset trunk_page FREELIST_TRUNK_OFFSET_FIRST_LEAF_PTR;
    pending ← read_page next_leaf_page_id;
    turso_assert (0 <? number_of_freelist_leaves);;
    pin next_leaf_page_id;;
    set_allocate_state (ReuseFreelistLeaf trunk_page next_leaf_page_id number_of_freelist_leaves);;
    if pending : bool then waits else mret None
  else take_trunk trunk_page next_trunk_page_id.

(** The leaf leaves the array of the trunk page. *)
Definition remove_first_leaf (trunk_page leaf_page number_of_freelist_leaves : Z) : PgM (option Z) :=
  add_dirty trunk_page;;
  remaining_leaves_count ← u32_sub number_of_freelist_leaves 1;
  b ← get_contents trunk_page;
  (let start := FREELIST_TRUNK_OFFSET_FIRST_LEAF_PTR + FREELIST_LEAF_PTR_SIZE in
   b ← unwrap (copy_within b start (start + remaining_leaves_count * FREELIST_LEAF_PTR_SIZE)
                 FREELIST_TRUNK_OFFSET_FIRST_LEAF_PTR);
   set_contents trunk_page b);;
  write_u32_no_offset trunk_page FREELIST_TRUNK_OFFSET_LEAF_COUNT remaining_leaves_count;;
  h ← header;
  n ← u32_sub (freelist_pages h) 1;
  set_freelist_pages n;;
  unpin trunk_page;;
  unpin leaf_page;;
  set_allocate_state AllocateStart;;
  mret (Some leaf_page).

Definition reuse_freelist_leaf (trunk_page leaf_page number_of_freelist_leaves : Z) : PgM (option Z) :=
  p ← gets st_alloc;
  turso_assert (is_loaded p leaf_page);;
  add_dirty leaf_page;;
  p ← gets st_alloc;
  turso_assert (bool_decide (leaf_page ∉ p_overflow_cells p));;
  fill_zero leaf_page;;
  turso_assert (bool_decide (leaf_page ∈ p_page_cache p));;
  remove_first_leaf trunk_page leaf_page number_of_freelist_leaves.

(** The pending-byte page is passed over. *)
Definition skip_pending (current_db_size : Z) : PgM Z :=
  new_db_size ← u32_add current_db_size 1;
  page_size ← gets st_page_size;
  if bool_decide (Some new_db_size = pending_byte_page_id page_size)
  then add_new_page new_db_size;; u32_add new_db_size 1
  else mret new_db_size.

Definition allocate_new_page (current_db_size : Z) : PgM (option Z) :=
  new_db_size ← skip_pending current_db_size;
  p ← gets st_alloc;
  if p_max_page_count p <? new_db_size then fails DatabaseFull
  else
    add_new_page new_db_size;;
    set_database_size new_db_size;;
    set_allocate_state AllocateStart;;
    mret (Some new_db_size).

Definition allocate_step : PgM (option Z) :=
  p ← gets st_alloc;
  match p_allocate_page_state p with
  | AllocateStart => allocate_start
  | SearchAvailableFreeListLeaf trunk_page => search_available_freelist_leaf trunk_page
  | ReuseFreelistLeaf trunk_page leaf_page n => reuse_freelist_leaf trunk_page leaf_page n
  | AllocateNewPage current_db_size => allocate_new_page current_db_size
  end.

(** [loop] with at most [fuel] rounds *)
Fixpoint pg_loop {T} (fuel : nat) (body : PgM (option T)) : PgM T :=
  match fuel with
  | O => crashes
  | S fuel => r ← body; match r with Some x => mret x | None => pg_loop fuel body end
  end.

(** A call goes through at most three states. *)
Definition pager_allocate_page : PgM Z :=
  wait_for_reads;;
  ensure_cache_space;;
  header_mut;;
  pg_loop 3 allocate_step.

#[export] Instance pager_allocator : PageAllocator pager := pager_allocate_page.

(** ** Freeing *)
Definition RESERVED_SLOTS : Z := 2.

(** The page is counted as free before it is in the list. *)
Definition count_free_page (page_id : Z) (pending : bool) : PgM (option ()) :=
  p ← gets st_alloc;
  set_overflow_cells (p_overflow_cells p ∖ {[ page_id ]});;
  h ← header;
  n ← u32_add (freelist_pages h) 1;
  set_freelist_pages n;;
  pin page_id;;
  set_free_state (if negb (freelist_trunk_page h =? 0) then AddToTrunk page_id else NewTrunk page_id);;
  if pending then waits else mret None.

(** [given] is whether the caller has the page; otherwise it is read. *)
Definition free_start (given : bool) (page_id : Z) : PgM (option ()) :=
  h ← header;
  if (page_id <? 2) || (database_size h <? page_id) then fails Corrupt
  else
    pending ← (if given then mret false else read_page page_id);
    count_free_page page_id pending.

Definition append_leaf (trunk_page_id number_of_leaf_pages page page_id : Z) : PgM (option ()) :=
  add_dirty trunk_page_id;;
  n ← u32_add number_of_leaf_pages 1;
  write_u32_no_offset trunk_page_id FREELIST_TRUNK_OFFSET_LEAF_COUNT n;;
  write_u32_no_offset trunk_page_id
    (FREELIST_TRUNK_OFFSET_FIRST_LEAF_PTR + number_of_leaf_pages * FREELIST_LEAF_PTR_SIZE) (wrap 32 page_id);;
  unpin page;;
  mret (Some ()).

Definition free_add_to_trunk (page page_id : Z) : PgM (option ()) :=
  h ← header;
  let trunk_page_id := freelist_trunk_page h in
  pending ← read_page trunk_page_id;
  if pending : bool then waits
  else
    p ← gets st_alloc;
    turso_assert (is_loaded p trunk_page_id);;
    number_of_leaf_pages ← read_u32_no_offset trunk_page_id FREELIST_TRUNK_OFFSET_LEAF_COUNT;
    let max_free_list_entries := usable_space h / FREELIST_LEAF_PTR_SIZE - RESERVED_SLOTS in
    if number_of_leaf_pages <? wrap 32 max_free_list_entries then
      append_leaf trunk_page_id number_of_leaf_pages page page_id
    else set_free_state (NewTrunk page);; mret None.

Definition free_new_trunk (page page_id : Z) : PgM (option ()) :=
  p ← gets st_alloc;
  turso_assert (is_loaded p page);;
  turso_assert (page =? page_id);;
  add_dirty page;;
  h ← header;
  write_u32_no_offset page FREELIST_TRUNK_OFFSET_NEXT_TRUNK_PTR (freelist_trunk_page h);;
  write_u32_no_offset page FREELIST_TRUNK_OFFSET_LEAF_COUNT 0;;
  set_freelist_trunk_page (wrap 32 page_id);;
  unpin page;;
  mret (Some ()).

Definition free_step (given : bool) (page_id : Z) : PgM (option ()) :=
  p ← gets st_alloc;
  match p_free_page_state p with
  | FreeStart => free_start given page_id
  | AddToTrunk page => free_add_to_trunk page page_id
  | NewTrunk page => free_new_trunk page page_id
  end.

Definition free_page (given : bool) (page_id : Z) : PgM () :=
  wait_for_reads;;
  header_mut;;
  pg_loop 3 (free_step given page_id);;
  set_free_state FreeStart.

(** The caller repeats a call that waits. *)
Fixpoint complete {T} (calls : nat) (m : PgM T) (w : pages_store) : poll T * pages_store :=
  match calls with
  | O => (Waits, w)
  | S calls => match m w with (Waits, w) => complete calls m w | r => r end
  end.

(** ** Freeing a chain of overflow pages ([src/core/storage/btree.rs]) *)
Inductive OverflowState :=
| OverflowStart
| ProcessPage (next_page : Z)
| ReadNext (next : Z)
| OverflowDone.

Definition valid_overflow_page_id (page_id database_size : Z) : bool := (2 <=? page_id) && (page_id <=? database_size).

(** The database size, read from the header at most once per call. *)
Definition overflow_database_size (cache : option Z) : PgM Z :=
  match cache with
  | Some size => mret size
  | None => read_header_page;; h ← header; mret (database_size h)
  end.

(** A page of the chain that is about to be read: the size now known and whether the read is
    still running. *)
Definition read_overflow (cache : option Z) (next : Z) : PgM (Z * option bool) :=
  size ← overflow_database_size cache;
  if valid_overflow_page_id next size then
    pending ← read_page next; mret (size, Some pending)
  else mret (size, None).

(** The word that leads on is read and the page is freed. *)
Definition process_overflow (page : Z) : PgM Z :=
  p ← gets st_alloc;
  turso_assert (is_loaded p page);;
  next ← read_u32_no_offset page 0;
  free_page true page;;
  mret next.

Fixpoint clear_loop (fuel : nat) (first : option Z) (cache : option Z) (s : OverflowState) (w : pages_store)
    : poll () * OverflowState * pages_store :=
  let read next k :=
    match read_overflow cache next w with
    | (Ready (size, Some pending), w) =>
        if pending : bool then (Waits, ProcessPage next, w) else k (Some size) (ProcessPage next) w
    | (Ready (_, None), w) => (Fails Corrupt, OverflowStart, w)
    | (Waits, w) => (Waits, s, w)
    | (Fails e, w) => (Fails e, s, w)
    | (Crashes, w) => (Crashes, s, w)
    end in
  match fuel with
  | O => (Crashes, s, w)
  | S fuel =>
      match s with
      | OverflowStart =>
          match first with
          | Some next_page => read next_page (clear_loop fuel first)
          | None => clear_loop fuel first cache OverflowDone w
          end
      | ProcessPage page =>
          match process_overflow page w with
          | (Ready next, w) => clear_loop fuel first cache (if negb (next =? 0) then ReadNext next else OverflowDone) w
          | (Waits, w) => (Waits, s, w)
          | (Fails e, w) => (Fails e, s, w)
          | (Crashes, w) => (Crashes, s, w)
          end
      | ReadNext next => read next (clear_loop fuel first)
      | OverflowDone => (Ready (), OverflowStart, w)
      end
  end.

Definition clear_overflow_pages (fuel : nat) (first_overflow_page : option Z) (s : OverflowState) (w : pages_store)
    : poll () * OverflowState * pages_store :=
  match first_overflow_page, s with
  | None, OverflowStart => (Ready (), s, w)
  | _, _ =>
      match wait_for_reads w with
      | (Ready _, w) => clear_loop fuel first_overflow_page None s w
      | (Waits, w) => (Waits, s, w)
      | (Fails e, w) => (Fails e, s, w)
      | (Crashes, w) => (Crashes, s, w)
      end
  end.

Fixpoint clear_until_done (calls fuel : nat) (first : option Z) (s : OverflowState) (w : pages_store)
    : poll () * OverflowState * pages_store :=
  match calls with
  | O => (Waits, s, w)
  | S calls =>
      match clear_overflow_pages fuel first s w with
      | (Waits, s, w) => clear_until_done calls fuel first s w
      | r => r
      end
  end.
