(* ===== verification/FreelistSpec.v ===== *)
(** * What the list of free pages does

    The rules for the code of [Freelist] that waits and fails, the representation of a list
    of trunks in the pages, and for each state of [allocate_page] and [free_page] what a call
    from it leaves behind. *)
From stdpp Require Import gmap gmultiset.
From S2P Require Import Prelude Errors OnDisk Page Effects Overflow Freelist.

(** ** Rules *)
Lemma wpg_on_pager f (Q : () -> pages_store -> Prop) W E w : Q () (with_pager f w) -> wpg (on_pager f) Q W E w.
Proof. done. Qed.

Lemma wpg_contents id b (Q : list Z -> pages_store -> Prop) W E w :
  st_pages w !! id = Some b -> Q b w -> wpg (get_contents id) Q W E w.
Proof. intros Hb HQ. unfold get_contents. apply wpg_bind, wpg_gets. rewrite Hb. exact HQ. Qed.

Lemma wpg_read_u32 id b pos (Q : Z -> pages_store -> Prop) W E w :
  st_pages w !! id = Some b -> 0 <= pos -> pos + 4 <= zlen b -> Q (u32 b pos) w ->
  wpg (read_u32_no_offset id pos) Q W E w.
Proof.
  intros Hb H1 H2 HQ. unfold read_u32_no_offset. apply wpg_bind. eapply wpg_contents; [done|].
  rewrite zslice_Some by lia. apply wpg_ret. rewrite <- be_at_u32 in HQ by done.
  unfold be_at in HQ. by replace (pos + 4 - pos) with 4 by lia.
Qed.

Lemma wpg_write_u32 id b pos v (Q : () -> pages_store -> Prop) W E w :
  st_pages w !! id = Some b -> 0 <= pos -> pos + 4 <= zlen b ->
  Q () (with_pages <[id := splice b pos (be_encode 4 v)]> w) ->
  wpg (write_u32_no_offset id pos v) Q W E w.
Proof.
  intros Hb H1 H2 HQ. unfold write_u32_no_offset. apply wpg_bind. eapply wpg_contents; [done|].
  rewrite zput_Some by (rewrite ?zlen_be_encode; lia). exact HQ.
Qed.

Lemma wpg_zero id b (Q : () -> pages_store -> Prop) W E w :
  st_pages w !! id = Some b -> Q () (with_pages <[id := replicate (length b) 0]> w) -> wpg (fill_zero id) Q W E w.
Proof. intros Hb HQ. unfold fill_zero. apply wpg_bind. by eapply wpg_contents. Qed.

Lemma wpg_header b (Q : DatabaseHeader -> pages_store -> Prop) W E w :
  st_pages w !! 1 = Some b -> Q (header_of_bytes b) w -> wpg header Q W E w.
Proof. intros Hb HQ. unfold header. apply wpg_bind. by eapply wpg_contents. Qed.

Lemma wpg_u32_add x y (Q : Z -> pages_store -> Prop) W E w : x + y < 2 ^ 32 -> Q (x + y) w -> wpg (u32_add x y) Q W E w.
Proof. intros Hx HQ. unfold u32_add. by rewrite (proj2 (Z.ltb_lt _ _)). Qed.

Lemma wpg_u32_sub x y (Q : Z -> pages_store -> Prop) W E w : 0 <= x - y -> Q (x - y) w -> wpg (u32_sub x y) Q W E w.
Proof. intros Hx HQ. unfold u32_sub. by rewrite (proj2 (Z.leb_le _ _)). Qed.

(** ** Steps that leave the pages alone *)

(** [X] are the pages that may have entered the cache. *)
Record quiet (X : Z -> Prop) (w w' : pages_store) : Prop := {
  q_pages : st_pages w' = st_pages w;
  q_page_size : st_page_size w' = st_page_size w;
  q_max : p_max_page_count (st_alloc w') = p_max_page_count (st_alloc w);
  q_vacuum : p_vacuum_full (st_alloc w') = p_vacuum_full (st_alloc w);
  q_allocate : p_allocate_page_state (st_alloc w') = p_allocate_page_state (st_alloc w);
  q_free : p_free_page_state (st_alloc w') = p_free_page_state (st_alloc w);
  q_dirty : p_dirty_pages (st_alloc w) ⊆ p_dirty_pages (st_alloc w');
  q_cache : forall i, i ∈ p_page_cache (st_alloc w') -> i ∈ p_page_cache (st_alloc w) \/ X i;
  q_pinned : forall i, i ∈ p_page_cache (st_alloc w) -> i ∈ p_pins (st_alloc w) -> i ∈ p_page_cache (st_alloc w');
  q_pins : p_pins (st_alloc w') = p_pins (st_alloc w);
  q_loading : p_loading (st_alloc w') = p_loading (st_alloc w);
  q_cells : p_overflow_cells (st_alloc w') = p_overflow_cells (st_alloc w);
  q_pool : p_buffer_pool (st_alloc w') = p_buffer_pool (st_alloc w);
  q_script : p_script (st_alloc w') `suffix_of` p_script (st_alloc w)
}.

Lemma quiet_refl X w : quiet X w w.
Proof. by split; auto. Qed.

Lemma quiet_trans X w w' w'' : quiet X w w' -> quiet X w' w'' -> quiet X w w''.
Proof.
  intros [] []. split; try congruence.
  - set_solver.
  - intros i Hi. destruct (q_cache1 i Hi); auto.
  - intros i Hi Hp. apply q_pinned1; [auto|congruence].
  - by etrans.
Qed.

Lemma quiet_weaken (X Y : Z -> Prop) w w' : (forall i, X i -> Y i) -> quiet X w w' -> quiet Y w w'.
Proof. intros HXY []. split; try done. intros i Hi. destruct (q_cache0 i Hi); auto. Qed.

Definition nothing : Z -> Prop := fun _ => False.
Definition shorter (w w' : pages_store) : Prop :=
  (length (p_script (st_alloc w')) < length (p_script (st_alloc w)))%nat.
(** The script has the error. *)
Definition broken (w : pages_store) (e : LimboError) : Prop := Broken e ∈ p_script (st_alloc w).

Lemma wpg_next_answer (Q : answer -> pages_store -> Prop) W E w :
  (forall a w', quiet nothing w w' -> a = Now ∅ \/ shorter w w' /\ a ∈ p_script (st_alloc w) -> Q a w') ->
  wpg next_answer Q W E w.
Proof.
  intros HQ. unfold next_answer. apply wpg_bind, wpg_gets. destruct (p_script (st_alloc w)) as [|a s] eqn:Es.
  - apply wpg_ret, HQ; auto. apply quiet_refl.
  - apply wpg_bind, wpg_on_pager, wpg_ret, HQ.
    + split; try done; auto. simpl. rewrite Es. by apply suffix_cons_r.
    + right. split; [unfold shorter; rewrite Es; simpl; lia|left].
Qed.

Lemma quiet_any X w w' : quiet nothing w w' -> quiet X w w'.
Proof. by apply quiet_weaken. Qed.

Lemma shorter_quiet X w w' w'' : shorter w w' -> quiet X w' w'' -> shorter w w''.
Proof. unfold shorter. intros Hs Hq. pose proof (suffix_length _ _ (q_script _ _ _ Hq)). lia. Qed.

Lemma broken_quiet X w w' e : quiet X w w' -> broken w' e -> broken w e.
Proof. unfold broken. intros Hq He. destruct (q_script _ _ _ Hq) as [s ->]. apply elem_of_app. by right. Qed.

Lemma wpg_evict evicted (Q : () -> pages_store -> Prop) W E w :
  (forall w', quiet nothing w w' -> p_script (st_alloc w') = p_script (st_alloc w) -> Q () w') ->
  wpg (evict evicted) Q W E w.
Proof.
  intros HQ. unfold evict. apply wpg_bind, wpg_gets, wpg_on_pager, HQ; [|done]. split; try done; simpl.
  - set_solver.
  - intros i Hi Hp. apply elem_of_difference. split; [done|]. intros [_ Hd]%elem_of_difference.
    by apply Hd, gmultiset_elem_of_dom.
Qed.

Lemma wpg_cache id (Q : () -> pages_store -> Prop) W E w :
  (forall w', quiet (eq id) w w' -> p_script (st_alloc w') = p_script (st_alloc w) ->
     id ∈ p_page_cache (st_alloc w') -> Q () w') ->
  wpg (p ← gets st_alloc; set_page_cache (p_page_cache p ∪ {[ id ]})) Q W E w.
Proof.
  intros HQ. apply wpg_bind, wpg_gets, wpg_on_pager, HQ; simpl; [|done|set_solver].
  split; try done; simpl; set_solver.
Qed.

Section Effects.
Context (E : LimboError -> Prop) (W : pages_store -> Prop) (w : pages_store).
Context (HE : forall e, broken w e -> E e).

Lemma wpg_read_page id b (Q : bool -> pages_store -> Prop) :
  st_pages w !! id = Some b -> 0 <= id ->
  (forall w', quiet nothing w w' -> shorter w w' -> W w') ->
  (forall w', quiet (eq id) w w' -> id ∈ p_page_cache (st_alloc w') -> Q false w') ->
  (forall l w', quiet (eq id) w w' -> id ∈ p_page_cache (st_alloc w') -> shorter w w' -> Q true (loading_pages l w')) ->
  wpg (read_page id) Q W E w.
Proof.
  intros Hb Hid HW HQ HL. unfold read_page. apply wpg_bind, wpg_assert; [by apply Z.leb_le|].
  apply wpg_bind, wpg_next_answer. intros a w1 H1 Ha.
  assert (forall ev (m : PgM bool),
    (forall w', quiet (eq id) w w' -> quiet (eq id) w1 w' -> id ∈ p_page_cache (st_alloc w') -> wpg m Q W E w') ->
    wpg (evict ev;; p ← gets st_alloc; set_page_cache (p_page_cache p ∪ {[ id ]});; m) Q W E w1) as Hread.
  { intros ev m Hm. apply wpg_bind, wpg_evict. intros w2 H2 E2. apply wpg_bind, wpg_gets, wpg_bind, wpg_on_pager.
    eapply (wpg_cache id (fun _ w => wpg m Q W E w) W E w2). intros w3 H3 E3 H3'.
    assert (quiet (eq id) w1 w3) by (eapply quiet_trans; [by apply quiet_any|done]).
    apply Hm; [|done|done]. eapply quiet_trans; [by apply quiet_any|done]. }
  destruct a as [ev|ev|ev|e].
  - apply wpg_bind, wpg_gets. rewrite (q_pages _ _ _ H1), Hb. apply Hread. intros w2 H2 _ Hc. by apply wpg_ret, HQ.
  - apply wpg_bind, wpg_evict. intros w2 H2 _. apply wpg_waits, HW; [by eapply quiet_trans|].
    destruct Ha as [?|[Ha _]]; [done|]. by eapply shorter_quiet.
  - apply wpg_bind, wpg_gets. rewrite (q_pages _ _ _ H1), Hb. apply Hread. intros w2 H2 H12 Hc.
    apply wpg_bind, wpg_gets. destruct Ha as [?|[Ha _]]; [done|]. apply HL; try done. by eapply shorter_quiet.
  - apply wpg_fails, HE. by destruct Ha as [?|[_ Ha]].
Qed.

Lemma loading_same v : loading_pages (p_loading (st_alloc v)) v = v.
Proof. by destruct v as [[] ? ?]. Qed.

Lemma wpg_wait_for_reads (Q : () -> pages_store -> Prop) :
  (forall w', quiet nothing w w' -> Q () (loading_pages ∅ w')) -> wpg wait_for_reads Q W E w.
Proof.
  intros HQ. unfold wait_for_reads. apply wpg_bind, wpg_gets. destruct (decide _) as [E0|_].
  - apply wpg_ret. rewrite <- (loading_same w), E0. apply HQ, quiet_refl.
  - apply wpg_bind, wpg_next_answer. intros a w1 H1 Ha. destruct a as [?|?|?|e]; [by apply HQ..|].
    apply wpg_fails, HE. by destruct Ha as [?|[_ Ha]].
Qed.

Lemma wpg_add_dirty id (Q : () -> pages_store -> Prop) :
  (forall w', quiet nothing w w' -> id ∈ p_dirty_pages (st_alloc w') -> Q () w') ->
  wpg (add_dirty id) Q W E w.
Proof.
  intros HQ. unfold add_dirty. apply wpg_bind, wpg_next_answer. intros a w1 H1 Ha.
  assert (wpg (p ← gets st_alloc; set_dirty_pages (p_dirty_pages p ∪ {[ id ]})) Q W E w1) as Hd.
  { apply wpg_bind, wpg_gets, wpg_on_pager, HQ; simpl; [|set_solver]. eapply quiet_trans; [done|].
    split; try done; simpl; [set_solver|auto]. }
  destruct a as [ev|ev|ev|e]; try done. apply wpg_fails, HE. by destruct Ha as [?|[_ Ha]].
Qed.

Lemma wpg_ensure_cache_space (Q : () -> pages_store -> Prop) :
  (forall w', quiet nothing w w' -> shorter w w' -> W w') -> (forall w', quiet nothing w w' -> Q () w') ->
  wpg ensure_cache_space Q W E w.
Proof.
  intros HW HQ. unfold ensure_cache_space. apply wpg_bind, wpg_next_answer. intros a w1 H1 Ha.
  destruct a as [ev|ev|ev|e].
  - apply wpg_evict. intros w2 H2 _. apply HQ. by eapply quiet_trans.
  - apply wpg_bind, wpg_evict. intros w2 H2 _. apply wpg_waits, HW; [by eapply quiet_trans|].
    destruct Ha as [?|[Ha _]]; [done|]. by eapply shorter_quiet.
  - apply wpg_bind, wpg_evict. intros w2 H2 _. apply wpg_waits, HW; [by eapply quiet_trans|].
    destruct Ha as [?|[Ha _]]; [done|]. by eapply shorter_quiet.
  - apply wpg_fails, HE. by destruct Ha as [?|[_ Ha]].
Qed.

(** Putting a new page into the cache can only fail. *)
Lemma wpg_force_insert id (Q : () -> pages_store -> Prop) :
  id ∉ p_page_cache (st_alloc w) ->
  (forall w', quiet (eq id) w w' -> id ∈ p_page_cache (st_alloc w') -> Q () w') ->
  wpg (force_insert_page id) Q W E w.
Proof.
  intros Hid HQ. unfold force_insert_page. apply wpg_bind, wpg_gets, wpg_bind, wpg_assert; [by apply bool_decide_eq_true|].
  apply wpg_bind, wpg_next_answer. intros a w1 H1 Ha.
  assert (forall ev, wpg (evict ev;; p ← gets st_alloc; set_page_cache (p_page_cache p ∪ {[ id ]})) Q W E w1) as Hput.
  { intros ev. apply wpg_bind, wpg_evict. intros w2 H2 _. apply wpg_cache. intros w3 H3 _ Hin. apply HQ; [|done].
    eapply quiet_trans; [by apply quiet_any|]. eapply quiet_trans; [by apply quiet_any|done]. }
  destruct a as [ev|ev|ev|e]; try done. apply wpg_fails, HE. by destruct Ha as [?|[_ Ha]].
Qed.
End Effects.

Lemma quiet_header_ref s w :
  quiet nothing w (with_pager (fun p =>
    mkPager (p_max_page_count p) (p_vacuum_full p) s (p_allocate_page_state p) (p_free_page_state p)
      (p_dirty_pages p) (p_page_cache p) (p_pins p) (p_loading p) (p_overflow_cells p) (p_buffer_pool p) (p_script p)) w).
Proof. split; try done; auto. Qed.

(** No read is under way. *)
Definition settled (w : pages_store) : Prop := p_loading (st_alloc w) = ∅.

Lemma wpg_assert_loaded id (Q : () -> pages_store -> Prop) W E p w :
  p_loading p = ∅ -> Q () w -> wpg (turso_assert (is_loaded p id)) Q W E w.
Proof. intros Hp HQ. apply wpg_assert; [|done]. apply bool_decide_eq_true. rewrite Hp. set_solver. Qed.

Lemma wpg_is_loaded {T} id (m : PgM T) (Q : T -> pages_store -> Prop) W E w :
  settled w -> wpg m Q W E w -> wpg (p ← gets st_alloc; turso_assert (is_loaded p id);; m) Q W E w.
Proof. intros Hw Hm. apply wpg_bind, wpg_gets, wpg_bind. by apply wpg_assert_loaded. Qed.

Lemma settled_quiet X w w' : quiet X w w' -> settled w -> settled w'.
Proof. unfold settled. intros Hq. by rewrite (q_loading _ _ _ Hq). Qed.

Lemma wpg_read_header_page (E : LimboError -> Prop) (W : pages_store -> Prop) w b (Q : () -> pages_store -> Prop) :
  (forall e, broken w e -> E e) -> st_pages w !! 1 = Some b -> settled w ->
  (forall l w', quiet (eq 1) w w' -> shorter w w' -> W (loading_pages l w')) -> (forall w', quiet (eq 1) w w' -> Q () w') ->
  wpg read_header_page Q W E w.
Proof.
  intros HE Hb Hset HW HQ. unfold read_header_page. apply wpg_bind, wpg_gets.
  destruct (p_header_ref_state (st_alloc w)).
  - apply wpg_bind. eapply wpg_read_page; [done|done|done| | |].
    { intros w1 H1 S1. rewrite <- (loading_same w1). apply HW; [by apply quiet_any|done]. }
    + intros w1 H1 _. apply wpg_bind, wpg_on_pager. pose proof (quiet_header_ref CreateHeader w1) as H2.
      apply wpg_is_loaded; [by eapply settled_quiet; [|eapply settled_quiet; [exact H1|]]|].
      apply wpg_on_pager, HQ. eapply quiet_trans; [done|]. apply quiet_any.
      eapply quiet_trans; [done|apply quiet_header_ref].
    + intros l w1 H1 _ S1. apply wpg_bind, wpg_on_pager. pose proof (quiet_header_ref CreateHeader w1) as H2.
      apply wpg_waits. match type of H2 with quiet _ _ ?v => apply (HW l v) end; [eapply quiet_trans; [done|by apply quiet_any]|].
      by eapply shorter_quiet.
  - apply wpg_bind, wpg_next_answer. intros a w1 H1 Ha.
    assert (quiet (eq 1) w (with_pager (fun p => _) w1)) as Hq by (apply quiet_any; eapply quiet_trans; [done|apply (quiet_header_ref HeaderStart)]).
    destruct a as [?|?|?|e]; try (apply wpg_bind, wpg_assert_loaded; [done|]; by apply wpg_on_pager, HQ).
    apply wpg_bind, wpg_on_pager, wpg_fails, HE. by destruct Ha as [?|[_ ?]].
Qed.

Lemma wpg_header_mut (E : LimboError -> Prop) (W : pages_store -> Prop) w b (Q : () -> pages_store -> Prop) :
  (forall e, broken w e -> E e) -> st_pages w !! 1 = Some b -> settled w ->
  (forall l w', quiet (eq 1) w w' -> shorter w w' -> W (loading_pages l w')) ->
  (forall w', quiet (eq 1) w w' -> 1 ∈ p_dirty_pages (st_alloc w') -> Q () w') ->
  wpg header_mut Q W E w.
Proof.
  intros HE Hb Hset HW HQ. unfold header_mut. apply wpg_bind. eapply wpg_read_header_page; [done|done|done|done|].
  intros w1 H1. apply wpg_add_dirty; [intros e He; apply HE; by eapply broken_quiet|].
  intros w2 H2 Hd. apply HQ; [|done]. eapply quiet_trans; [done|by apply quiet_any].
Qed.

(** ** Words of a page *)
Lemma u32_agree b b' lo hi pos : agree b b' lo hi -> lo <= pos -> pos + 4 <= hi -> u32 b' pos = u32 b pos.
Proof. intros H H1 H2. unfold u32. rewrite !H by lia. done. Qed.

Lemma u32_splice_other b pos v q :
  0 <= pos -> pos + zlen v <= zlen b -> q + 4 <= pos \/ pos + zlen v <= q -> u32 (splice b pos v) q = u32 b q.
Proof. intros. apply (u32_agree b _ q (q + 4)); [apply agree_splice|..]; lia. Qed.

Lemma u32_splice_same b pos v :
  0 <= pos -> pos + 4 <= zlen b -> in_u 32 v -> u32 (splice b pos (be_encode 4 v)) pos = v.
Proof.
  intros H1 H2 Hv. assert (zlen (splice b pos (be_encode 4 v)) = zlen b) by (apply zlen_splice; rewrite ?zlen_be_encode; lia).
  rewrite <- be_at_u32 by lia. unfold splice. rewrite be_at_skip by (rewrite zlen_ztake; lia).
  apply be_at_here; [rewrite zlen_ztake; lia|exact Hv].
Qed.

(** The array of leaves after its first entry is removed. *)
Lemma u32_shift_left b k i :
  12 + 4 * k <= zlen b -> 0 <= i < k ->
  u32 (splice b 8 (ztake (4 * k) (zdrop 12 b))) (8 + 4 * i) = u32 b (12 + 4 * i).
Proof.
  intros Hk Hi. assert (zlen (ztake (4 * k) (zdrop 12 b)) = 4 * k) as Hl by (rewrite zlen_ztake, zlen_zdrop; lia).
  unfold u32. rewrite !rd_splice_in by lia. rewrite !rd_ztake_zdrop by lia.
  replace (12 + (8 + 4 * i - 8)) with (12 + 4 * i) by lia. replace (12 + (8 + 4 * i + 1 - 8)) with (12 + 4 * i + 1) by lia.
  replace (12 + (8 + 4 * i + 2 - 8)) with (12 + 4 * i + 2) by lia. by replace (12 + (8 + 4 * i + 3 - 8)) with (12 + 4 * i + 3) by lia.
Qed.

(** ** The list of free pages *)
Definition head_of (ts : list (Z * list Z)) : Z := match ts with [] => 0 | (t, _) :: _ => t end.
Definition free_ids (ts : list (Z * list Z)) : list Z := ts ≫= (fun '(t, ls) => t :: ls).

Section Repr.
Context (u ps : Z).

Definition trunk_ok (b : list Z) (next : Z) (ls : list Z) : Prop :=
  zlen b = ps /\ u32 b 0 = next /\ u32 b 4 = zlen ls /\ zlen ls <= u / 4 - 2 /\
  forall i l, ls !! i = Some l -> u32 b (8 + 4 * Z.of_nat i) = l.

Fixpoint trunks (pages : gmap Z (list Z)) (ts : list (Z * list Z)) : Prop :=
  match ts with
  | [] => True
  | (t, ls) :: r => (exists b, pages !! t = Some b /\ trunk_ok b (head_of r) ls) /\ trunks pages r
  end.

(** [extra] is 1 while a page is counted and not yet in the list. *)
Definition header_ok (size extra : Z) (ts : list (Z * list Z)) (b : list Z) : Prop :=
  zlen b = ps /\ PageSize_get (page_size (header_of_bytes b)) = ps /\ usable_space (header_of_bytes b) = u /\
  u32 b 28 = size /\ u32 b 32 = head_of ts /\ u32 b 36 = zlen (free_ids ts) + extra.

(** The size of the database with the pointer map page that has to follow, and the next new page. *)
Definition mapped_size (vacuum : bool) (size : Z) : Z :=
  if vacuum && is_ptrmap_page (size + 1) ps then size + 1 else size.
Definition next_page (vacuum : bool) (size : Z) : Z :=
  let n := mapped_size vacuum size + 1 in
  if bool_decide (Some n = pending_byte_page_id ps) then n + 1 else n.

Definition page_sizes : list Z := [512; 1024; 2048; 4096; 8192; 16384; 32768; 65536].

(** [lim] bounds the pages in the cache. *)
Record good (lim size extra : Z) (ts : list (Z * list Z)) (w : pages_store) : Prop := {
  g_ps : st_page_size w = ps;
  g_valid : ps ∈ page_sizes;
  g_usable : MIN_USABLE_SPACE <= u <= ps;
  g_size : 1 <= size <= 0xfffffffe;
  g_max : p_max_page_count (st_alloc w) <= 0xfffffffe;
  g_header : exists b, st_pages w !! 1 = Some b /\ header_ok size extra ts b;
  g_trunks : trunks (st_pages w) ts;
  g_range : Forall (fun i => 2 <= i <= size) (free_ids ts);
  g_nodup : NoDup (free_ids ts);
  g_pages : Forall (fun i => exists b, st_pages w !! i = Some b /\ zlen b = ps) (free_ids ts);
  g_cells : Forall (fun i => i ∉ p_overflow_cells (st_alloc w)) (free_ids ts);
  g_cache : forall i, i ∈ p_page_cache (st_alloc w) -> i <= lim;
  g_pool : forall i, zlen (p_buffer_pool (st_alloc w) i) = ps
}.

Lemma good_same lim lim' size extra ts w w' :
  good lim size extra ts w -> st_pages w' = st_pages w -> st_page_size w' = st_page_size w ->
  p_max_page_count (st_alloc w') = p_max_page_count (st_alloc w) ->
  p_vacuum_full (st_alloc w') = p_vacuum_full (st_alloc w) ->
  p_overflow_cells (st_alloc w') ⊆ p_overflow_cells (st_alloc w) ->
  (forall i, i ∈ p_page_cache (st_alloc w') -> i ∈ p_page_cache (st_alloc w) /\ lim <= lim' \/ i <= lim') ->
  p_buffer_pool (st_alloc w') = p_buffer_pool (st_alloc w) -> good lim' size extra ts w'.
Proof.
  intros [] Ep Es Em Ev Ec Hc Eb. split; rewrite ?Ep, ?Es, ?Em, ?Ev, ?Eb; try done.
  - eapply Forall_impl; [|exact g_cells0]. simpl. set_solver.
  - intros i Hi. destruct (Hc i Hi) as [[H1 H2]|]; [|done]. specialize (g_cache0 i H1). lia.
Qed.

Lemma good_quiet X lim lim' size extra ts w w' :
  (forall i, X i -> i <= lim') -> lim <= lim' -> quiet X w w' ->
  good lim size extra ts w -> good lim' size extra ts w'.
Proof.
  intros HX Hlim Hq Hg. apply (good_same lim lim' _ _ _ w); [done|apply Hq|apply Hq|apply Hq|apply Hq| | |apply Hq].
  - by rewrite (q_cells _ _ _ Hq).
  - intros i Hi. destruct (q_cache _ _ _ Hq i Hi); auto.
Qed.

Lemma mapped_size_le vacuum size : size <= mapped_size vacuum size <= size + 1.
Proof. unfold mapped_size. destruct (_ && _); lia. Qed.

Lemma next_page_lt vacuum size : mapped_size vacuum size < next_page vacuum size.
Proof. unfold next_page. case_bool_decide; lia. Qed.

Lemma trunks_frame pages pages' ts :
  (forall i, i ∈ free_ids ts -> pages' !! i = pages !! i) -> trunks pages ts -> trunks pages' ts.
Proof.
  induction ts as [|[t ls] r IH]; [done|]. intros Hp [(b & Hb & Hok) Hr]. simpl in Hp. split.
  - exists b. split; [|done]. rewrite Hp; [done|left].
  - apply IH; [|done]. intros i Hi. apply Hp. change (i ∈ (t :: ls) ++ free_ids r). apply elem_of_app. by right.
Qed.

Lemma pages_frame (pages pages' : gmap Z (list Z)) ids :
  (forall i, i ∈ ids -> pages' !! i = pages !! i) ->
  Forall (fun i => exists b, pages !! i = Some b /\ zlen b = ps) ids ->
  Forall (fun i => exists b, pages' !! i = Some b /\ zlen b = ps) ids.
Proof. rewrite !list.Forall_forall. intros Hp H i Hi. rewrite Hp by done. by apply H. Qed.

(** Writing a word of the header. *)
Lemma header_same b pos v :
  zlen b = ps -> 512 <= ps -> 28 <= pos -> pos + 4 <= 40 ->
  zlen (splice b pos (be_encode 4 v)) = ps /\
  (forall i, i < 28 \/ 40 <= i -> rd (splice b pos (be_encode 4 v)) i = rd b i) /\
  page_size (header_of_bytes (splice b pos (be_encode 4 v))) = page_size (header_of_bytes b) /\
  usable_space (header_of_bytes (splice b pos (be_encode 4 v))) = usable_space (header_of_bytes b).
Proof.
  intros Hb Hps H1 H2. assert (zlen (be_encode 4 v) = 4) as Hv by (by rewrite zlen_be_encode).
  assert (zlen (splice b pos (be_encode 4 v)) = ps) as Hz by (rewrite zlen_splice; lia).
  assert (forall i, i < 28 \/ 40 <= i -> rd (splice b pos (be_encode 4 v)) i = rd b i) as Hrd
    by (intros i Hi; apply rd_splice_out; lia).
  set (b' := splice b pos (be_encode 4 v)) in *.
  assert (page_size (header_of_bytes b') = page_size (header_of_bytes b)) as Hp.
  { simpl. f_equal. rewrite !be_at_u16 by lia. unfold u16. by rewrite !Hrd by lia. }
  split_and!; try done. unfold usable_space. rewrite Hp. simpl. by rewrite Hrd by lia.
Qed.

Lemma header_set_size size size' extra ts b :
  512 <= ps -> in_u 32 size' -> header_ok size extra ts b -> header_ok size' extra ts (splice b 28 (be_encode 4 size')).
Proof.
  intros Hps Hs (H1 & H2 & H3 & H4 & H5 & H6). destruct (header_same b 28 size') as (K1 & K2 & K3 & K4); try lia.
  unfold header_ok. rewrite K3, K4, u32_splice_same, !u32_splice_other by (rewrite ?zlen_be_encode; (done || lia)). done.
Qed.

Lemma header_set_count size extra extra' ts ts' b :
  512 <= ps -> in_u 32 (zlen (free_ids ts') + extra') -> head_of ts' = head_of ts -> header_ok size extra ts b ->
  header_ok size extra' ts' (splice b 36 (be_encode 4 (zlen (free_ids ts') + extra'))).
Proof.
  intros Hps Hn Hh (H1 & H2 & H3 & H4 & H5 & H6).
  destruct (header_same b 36 (zlen (free_ids ts') + extra')) as (K1 & K2 & K3 & K4); try lia.
  unfold header_ok. rewrite K3, K4, Hh, u32_splice_same, !u32_splice_other by (rewrite ?zlen_be_encode; (done || lia)). done.
Qed.

Lemma header_set_trunk size extra extra' ts ts' b :
  512 <= ps -> in_u 32 (head_of ts') -> zlen (free_ids ts') + extra' = zlen (free_ids ts) + extra -> header_ok size extra ts b ->
  header_ok size extra' ts' (splice b 32 (be_encode 4 (head_of ts'))).
Proof.
  intros Hps Hn Hh (H1 & H2 & H3 & H4 & H5 & H6).
  destruct (header_same b 32 (head_of ts')) as (K1 & K2 & K3 & K4); try lia.
  unfold header_ok. rewrite K3, K4, Hh, u32_splice_same, !u32_splice_other by (rewrite ?zlen_be_encode; (done || lia)). done.
Qed.

(** The free pages fit in the database. *)
Lemma free_count size (ids : list Z) :
  NoDup ids -> Forall (fun i => 2 <= i <= size) ids -> 1 <= size -> zlen ids <= size - 1.
Proof.
  intros Hnd Hr Hs. assert (ids ⊆+ seqZ 2 (size - 1)) as Hsub.
  { apply NoDup_submseteq; [done|]. intros i Hi. apply elem_of_seqZ.
    pose proof (proj1 (list.Forall_forall _ _) Hr i Hi) as Hi'. simpl in Hi'. lia. }
  apply submseteq_length in Hsub. rewrite length_seqZ in Hsub. unfold zlen. lia.
Qed.
End Repr.

(** ** What an operation may have changed since it began *)
Record since (F : Z -> Prop) (w0 w : pages_store) : Prop := {
  s_ps : st_page_size w = st_page_size w0;
  s_out : forall i, ~ F i -> st_pages w !! i = st_pages w0 !! i;
  s_dirty : forall i, st_pages w !! i = st_pages w0 !! i \/ i ∈ p_dirty_pages (st_alloc w);
  s_grow : p_dirty_pages (st_alloc w0) ⊆ p_dirty_pages (st_alloc w);
  s_header : forall b0, st_pages w0 !! 1 = Some b0 -> exists b, st_pages w !! 1 = Some b /\ zlen b = zlen b0 /\
    forall i, i < 28 \/ 40 <= i -> rd b i = rd b0 i;
  s_max : p_max_page_count (st_alloc w) = p_max_page_count (st_alloc w0);
  s_vacuum : p_vacuum_full (st_alloc w) = p_vacuum_full (st_alloc w0);
  s_pool : p_buffer_pool (st_alloc w) = p_buffer_pool (st_alloc w0);
  s_cells : p_overflow_cells (st_alloc w) ⊆ p_overflow_cells (st_alloc w0);
  s_script : p_script (st_alloc w) `suffix_of` p_script (st_alloc w0)
}.

Lemma since_refl F w : since F w w.
Proof. split; try done; auto. intros b Hb. by exists b. Qed.

Lemma since_same F w0 w w' :
  since F w0 w -> st_pages w' = st_pages w -> st_page_size w' = st_page_size w ->
  p_dirty_pages (st_alloc w) ⊆ p_dirty_pages (st_alloc w') ->
  p_max_page_count (st_alloc w') = p_max_page_count (st_alloc w) ->
  p_vacuum_full (st_alloc w') = p_vacuum_full (st_alloc w) ->
  p_buffer_pool (st_alloc w') = p_buffer_pool (st_alloc w) ->
  p_overflow_cells (st_alloc w') ⊆ p_overflow_cells (st_alloc w) ->
  p_script (st_alloc w') `suffix_of` p_script (st_alloc w) -> since F w0 w'.
Proof.
  intros [] Ep Es Ed Em Ev Eb Ec Et. split; rewrite ?Ep, ?Es, ?Em, ?Ev, ?Eb; try done.
  - intros i. destruct (s_dirty0 i); [by left|right; set_solver].
  - set_solver.
  - set_solver.
  - by etrans.
Qed.

Lemma since_quiet F X w0 w w' : since F w0 w -> quiet X w w' -> since F w0 w'.
Proof.
  intros Hs Hq. apply (since_same F w0 w); [done|..]; try apply Hq. by rewrite (q_cells _ _ _ Hq).
Qed.

Lemma since_page F w0 w i b :
  since F w0 w -> F i -> i <> 1 -> i ∈ p_dirty_pages (st_alloc w) -> since F w0 (with_pages <[i := b]> w).
Proof.
  intros [] HF H1 Hd. split; simpl; try done.
  - intros j Hj. rewrite lookup_insert_ne by (intros ->; done). auto.
  - intros j. destruct (decide (i = j)) as [->|]; [by right|]. rewrite lookup_insert_ne by done. auto.
  - intros b0 Hb0. rewrite lookup_insert_ne by done. auto.
Qed.

Lemma since_header F w0 w b pos v :
  since F w0 w -> F 1 -> 1 ∈ p_dirty_pages (st_alloc w) -> st_pages w !! 1 = Some b ->
  512 <= zlen b -> 28 <= pos -> pos + 4 <= 40 ->
  since F w0 (with_pages <[1 := splice b pos (be_encode 4 v)]> w).
Proof.
  intros [] HF Hd Hb Hl H1 H2. split; simpl; try done.
  - intros j Hj. rewrite lookup_insert_ne by (intros <-; done). auto.
  - intros j. destruct (decide (1 = j)) as [<-|]; [by right|]. rewrite lookup_insert_ne by done. auto.
  - intros b0 Hb0. destruct (s_header0 b0 Hb0) as (b' & Hb' & Hz & Hrd).
    assert (b' = b) as -> by congruence.
    destruct (header_same (zlen b) b pos v) as (K1 & K2 & _); try lia.
    exists (splice b pos (be_encode 4 v)). rewrite lookup_insert_eq. split_and!; [done|lia|].
    intros i Hi. rewrite K2 by done. auto.
Qed.

(** The store up to the states and pins of the pager. *)
Definition same_books (w w' : pages_store) : Prop :=
  let p := st_alloc w in let p' := st_alloc w' in
  st_pages w' = st_pages w /\ st_page_size w' = st_page_size w /\
  p_max_page_count p' = p_max_page_count p /\ p_vacuum_full p' = p_vacuum_full p /\
  p_dirty_pages p' = p_dirty_pages p /\ p_page_cache p' = p_page_cache p /\
  p_overflow_cells p' = p_overflow_cells p /\ p_buffer_pool p' = p_buffer_pool p /\ p_script p' = p_script p.

Lemma same_books_trans w w' w'' : same_books w w' -> same_books w' w'' -> same_books w w''.
Proof.
  intros (A1 & A2 & A3 & A4 & A5 & A6 & A7 & A8 & A9) (B1 & B2 & B3 & B4 & B5 & B6 & B7 & B8 & B9).
  unfold same_books. split_and!; congruence.
Qed.

(** What the representation needs of two stores besides the pages. *)
Definition kin (w w' : pages_store) : Prop :=
  st_page_size w' = st_page_size w /\ p_max_page_count (st_alloc w') = p_max_page_count (st_alloc w) /\
  p_vacuum_full (st_alloc w') = p_vacuum_full (st_alloc w) /\ p_overflow_cells (st_alloc w') ⊆ p_overflow_cells (st_alloc w) /\
  p_buffer_pool (st_alloc w') = p_buffer_pool (st_alloc w) /\
  forall i, i ∈ p_page_cache (st_alloc w') -> i ∈ p_page_cache (st_alloc w).

Lemma kin_refl w : kin w w.
Proof. by unfold kin. Qed.

Lemma kin_pages w w' f : kin w w' -> kin w (with_pages f w').
Proof. done. Qed.

Lemma kin_quiet w1 w w2 : quiet nothing w1 w2 -> kin w w1 -> kin w w2.
Proof.
  intros Hq (E1 & E2 & E3 & E4 & E5 & E6). unfold kin.
  rewrite (q_page_size _ _ _ Hq), (q_max _ _ _ Hq), (q_vacuum _ _ _ Hq), (q_cells _ _ _ Hq), (q_pool _ _ _ Hq).
  split_and!; try done. intros i Hi. by destruct (q_cache _ _ _ Hq i Hi); auto.
Qed.

Lemma wpg_unpin id m (Q : () -> pages_store -> Prop) W E w :
  p_pins (st_alloc w) = m ⊎ {[+ id +]} ->
  (forall w', same_books w w' -> p_pins (st_alloc w') = m ->
     p_allocate_page_state (st_alloc w') = p_allocate_page_state (st_alloc w) ->
     p_free_page_state (st_alloc w') = p_free_page_state (st_alloc w) ->
     p_loading (st_alloc w') = p_loading (st_alloc w) -> Q () w') ->
  wpg (unpin id) Q W E w.
Proof.
  intros Hm HQ. unfold unpin. apply wpg_bind, wpg_gets, wpg_bind, wpg_assert.
  - apply bool_decide_eq_true. rewrite Hm. multiset_solver.
  - apply wpg_on_pager, HQ; try done. simpl. rewrite Hm. multiset_solver.
Qed.

Lemma broken_since F w0 w e : since F w0 w -> broken w e -> broken w0 e.
Proof. unfold broken. intros Hs He. destruct (s_script _ _ _ Hs) as [s ->]. apply elem_of_app. by right. Qed.

Definition own (size : Z) (ts : list (Z * list Z)) (i : Z) : Prop := i = 1 \/ i ∈ free_ids ts \/ size < i.

(** ** Allocation *)
Section Allocate.
Context (u ps : Z) (w0 : pages_store) (size : Z) (ts : list (Z * list Z)) (P : gmultiset Z).

#[local] Abbreviation vacuum w := (p_vacuum_full (st_alloc w)).

Definition allocate_at (w : pages_store) : Prop :=
  let p := st_alloc w in
  match p_allocate_page_state p with
  | AllocateStart => p_pins p = P
  | SearchAvailableFreeListLeaf t =>
      (exists ls r, ts = (t, ls) :: r) /\ p_pins p = P ⊎ {[+ t +]} /\ t ∈ p_page_cache p
  | ReuseFreelistLeaf t l n =>
      (exists ls r, ts = (t, l :: ls) :: r /\ n = zlen (l :: ls)) /\
      p_pins p = P ⊎ {[+ t +]} ⊎ {[+ l +]} /\ t ∈ p_page_cache p /\ l ∈ p_page_cache p
  | AllocateNewPage cur => ts = [] /\ cur = mapped_size ps (p_vacuum_full p) size /\ p_pins p = P
  end.

Definition rank (s : AllocatePageState) : nat :=
  match s with AllocateStart => 0 | SearchAvailableFreeListLeaf _ => 1 | _ => 2 end.

Record allocating (n : nat) (w : pages_store) : Prop := {
  a_good : good u ps (mapped_size ps (vacuum w) size) size 0 ts w;
  a_since : since (own size ts) w0 w;
  a_at : allocate_at w;
  a_free : p_free_page_state (st_alloc w) = p_free_page_state (st_alloc w0);
  a_script : (length (p_script (st_alloc w)) <= n)%nat
}.

Lemma allocating_quiet X n w w' :
  (forall i, X i -> i <= mapped_size ps (vacuum w) size) -> quiet X w w' -> allocating n w -> allocating n w'.
Proof.
  intros HX Hq [Hg Hs Ha Hf Hl]. split.
  - rewrite (q_vacuum _ _ _ Hq). by eapply good_quiet.
  - by eapply since_quiet.
  - unfold allocate_at in *. rewrite (q_allocate _ _ _ Hq), (q_pins _ _ _ Hq), (q_vacuum _ _ _ Hq).
    destruct (p_allocate_page_state (st_alloc w)); try done.
    + destruct Ha as (H1 & H2 & H3). split_and!; try done. apply (q_pinned _ _ _ Hq); [done|]. rewrite H2. multiset_solver.
    + destruct Ha as (H1 & H2 & H3 & H4). split_and!; try done;
        (apply (q_pinned _ _ _ Hq); [done|]; rewrite H2; multiset_solver).
  - by rewrite (q_free _ _ _ Hq).
  - pose proof (suffix_length _ _ (q_script _ _ _ Hq)). lia.
Qed.

Lemma ps_range w lim extra ts' size' : good u ps lim size' extra ts' w -> 512 <= ps <= 65536.
Proof.
  intros [_ H _ _ _ _ _ _ _ _ _ _ _]. unfold page_sizes in H.
  repeat (apply elem_of_cons in H as [->|H]; [lia|]). by apply not_elem_of_nil in H.
Qed.

Lemma header_fields extra ts' size' b :
  512 <= ps -> header_ok u ps size' extra ts' b ->
  database_size (header_of_bytes b) = size' /\ freelist_trunk_page (header_of_bytes b) = head_of ts' /\
  freelist_pages (header_of_bytes b) = zlen (free_ids ts') + extra.
Proof.
  intros Hps (H1 & H2 & H3 & H4 & H5 & H6). simpl.
  rewrite !be_at_u32 by lia. done.
Qed.

Lemma wpg_add_new_page E W id (Q : () -> pages_store -> Prop) w :
  (forall e, broken w e -> E e) -> id ∉ p_page_cache (st_alloc w) ->
  (forall w1, quiet (eq id) w w1 -> id ∈ p_dirty_pages (st_alloc w1) -> id ∈ p_page_cache (st_alloc w1) ->
     Q () (with_pages <[id := p_buffer_pool (st_alloc w1) id]> w1)) ->
  wpg (add_new_page id) Q W E w.
Proof.
  intros HE Hid HQ. unfold add_new_page. apply wpg_bind, wpg_add_dirty; [done|]. intros w1 H1 Hd.
  apply wpg_bind, wpg_force_insert.
  - intros e He. apply HE. by eapply broken_quiet.
  - intros Hin. by destruct (q_cache _ _ _ H1 id Hin).
  - intros w2 H2 Hc. apply wpg_bind, wpg_gets. unfold set_contents, on_pages, wpg. apply HQ; [|by apply (q_dirty _ _ _ H2)|done].
    eapply quiet_trans; [by apply quiet_any|done].
Qed.

(** A page beyond the database does not belong to the list. *)
Lemma good_beyond lim lim' w i b :
  good u ps lim size 0 ts w -> size < i -> (forall j, j ∈ p_page_cache (st_alloc w) -> j <= lim') ->
  good u ps lim' size 0 ts (with_pages <[i := b]> w).
Proof.
  intros [] Hi Hc. assert (forall j, j ∈ free_ids ts -> <[i := b]> (st_pages w) !! j = st_pages w !! j) as Hf.
  { intros j Hj. apply lookup_insert_ne. intros <-. pose proof (proj1 (list.Forall_forall _ _) g_range0 i Hj) as H.
    simpl in H. lia. }
  split; simpl; try done.
  - by rewrite lookup_insert_ne by lia.
  - by eapply trunks_frame.
  - by eapply pages_frame.
Qed.

(** The list without a page. *)
Lemma good_remove lim w w' ts' id b' :
  good u ps lim size 0 ts w -> free_ids ts ≡ₚ id :: free_ids ts' -> st_page_size w' = st_page_size w ->
  p_max_page_count (st_alloc w') = p_max_page_count (st_alloc w) ->
  p_overflow_cells (st_alloc w') ⊆ p_overflow_cells (st_alloc w) ->
  (forall i, i ∈ p_page_cache (st_alloc w') -> i <= lim) ->
  p_buffer_pool (st_alloc w') = p_buffer_pool (st_alloc w) ->
  st_pages w' !! 1 = Some b' -> header_ok u ps size 0 ts' b' -> trunks u ps (st_pages w') ts' ->
  (forall i, i ∈ free_ids ts' -> st_pages w' !! i = st_pages w !! i \/ exists b, st_pages w' !! i = Some b /\ zlen b = ps) ->
  good u ps lim size 0 ts' w'.
Proof.
  intros [] Hp Es Em Ec Hc Eb Hb Hok Ht Hpages.
  assert (NoDup (id :: free_ids ts')) as Hnd by (by rewrite <- Hp). apply list.NoDup_cons in Hnd as [_ Hnd].
  assert (forall i, i ∈ free_ids ts' -> i ∈ free_ids ts) as Hsub by (intros i Hi; rewrite Hp; by right).
  rewrite list.Forall_forall in g_range0, g_pages0, g_cells0.
  split; rewrite ?Es, ?Em, ?Eb; try done.
  - by exists b'.
  - apply list.Forall_forall. auto.
  - apply list.Forall_forall. intros i Hi. destruct (Hpages i Hi) as [->|]; auto.
  - apply list.Forall_forall. intros i Hi Hin. apply (g_cells0 i); auto.
Qed.

Lemma good_books lim sz extra ts' w w' :
  same_books w w' -> good u ps lim sz extra ts' w -> good u ps lim sz extra ts' w'.
Proof.
  intros (Ep & Es & E1 & E2 & E3 & E4 & E5 & E6 & E7) Hg. apply (good_same _ _ lim lim _ _ _ w); try done.
  - by rewrite E5.
  - rewrite E4. intros i Hi. left. split; [done|lia].
Qed.

Lemma since_books F w w' : same_books w w' -> since F w0 w -> since F w0 w'.
Proof.
  intros (Ep & Es & E1 & E2 & E3 & E4 & E5 & E6 & E7) Hs. apply (since_same F w0 w); try done.
  - by rewrite E3.
  - by rewrite E5.
  - by rewrite E7.
Qed.

Lemma allocating_books n w w' :
  same_books w w' -> allocating n w -> allocate_at w' -> p_free_page_state (st_alloc w') = p_free_page_state (st_alloc w) ->
  allocating n w'.
Proof.
  intros Hb [Hg Hs Ha Hf Hl] Ha' Hf'. pose proof Hb as (Ep & Es & E1 & E2 & E3 & E4 & E5 & E6 & E7). split.
  - rewrite E2. by eapply good_books.
  - by eapply since_books.
  - done.
  - congruence.
  - by rewrite E7.
Qed.

Lemma allocating_loading n l w : allocating n w -> allocating n (loading_pages l w).
Proof. intros Ha. by apply (allocating_books n w); [|done|apply Ha|]. Qed.

Section Arms.
Context (n : nat) (E : LimboError -> Prop) (HE : forall e, broken w0 e -> E e).

Definition suspended (w : pages_store) : Prop :=
  allocating n w /\ (length (p_script (st_alloc w)) < n)%nat.

(** The page an allocation takes, and the size and list it leaves. *)
Inductive takes (vacuum : bool) (max : Z) : Z -> Z -> list (Z * list Z) -> Prop :=
| takes_leaf t l ls r : ts = (t, l :: ls) :: r -> takes vacuum max l size ((t, ls) :: r)
| takes_trunk t r : ts = (t, []) :: r -> takes vacuum max t size r
| takes_new : ts = [] -> next_page ps vacuum size <= max ->
    takes vacuum max (next_page ps vacuum size) (next_page ps vacuum size) [].

Definition allocated (id : Z) (w : pages_store) : Prop :=
  exists size' ts', takes (vacuum w0) (p_max_page_count (st_alloc w0)) id size' ts' /\
    good u ps (mapped_size ps (vacuum w) size') size' 0 ts' w /\ since (own size ts) w0 w /\
    p_allocate_page_state (st_alloc w) = AllocateStart /\
    p_free_page_state (st_alloc w) = p_free_page_state (st_alloc w0) /\ p_pins (st_alloc w) = P /\
    exists b, st_pages w !! id = Some b /\ zlen b = ps /\ (ts <> [] -> b = replicate (Z.to_nat ps) 0).

(** Between two rounds of the loop. *)
Definition next_round (k : nat) (w : pages_store) : Prop :=
  allocating n w /\ 1 ∈ p_dirty_pages (st_alloc w) /\ (k <= rank (p_allocate_page_state (st_alloc w)))%nat /\ settled w.

Lemma allocating_broken w e : allocating n w -> broken w e -> E e.
Proof. intros Ha He. apply HE. by eapply broken_since; [apply Ha|]. Qed.

Lemma head_in : head_of ts <> 0 -> head_of ts ∈ free_ids ts.
Proof. destruct ts as [|[t ls] r]; [done|]. intros _. left. Qed.

Lemma free_page_there w i : good u ps (mapped_size ps (vacuum w) size) size 0 ts w -> i ∈ free_ids ts ->
  2 <= i <= size /\ (i ∉ p_overflow_cells (st_alloc w)) /\ exists b, st_pages w !! i = Some b /\ zlen b = ps.
Proof.
  intros [] Hi. split; [|split].
  - by apply (proj1 (list.Forall_forall _ _) g_range0 i).
  - by apply (proj1 (list.Forall_forall _ _) g_cells0 i).
  - by apply (proj1 (list.Forall_forall _ _) g_pages0 i).
Qed.

Lemma ptrmap_page_first_spec W w (Q : Z -> pages_store -> Prop) :
  allocating n w -> 1 ∈ p_dirty_pages (st_alloc w) -> p_allocate_page_state (st_alloc w) = AllocateStart -> settled w ->
  (forall w', allocating n w' -> 1 ∈ p_dirty_pages (st_alloc w') ->
     p_allocate_page_state (st_alloc w') = AllocateStart -> settled w' -> Q (mapped_size ps (vacuum w') size) w') ->
  wpg (ptrmap_page_first size ps) Q W E w.
Proof.
  intros Ha Hd Hs Hset HQ. unfold ptrmap_page_first. apply wpg_bind, wpg_gets.
  specialize (HQ w Ha Hd Hs Hset) as HQw. pose proof (a_good _ _ Ha) as Hg.
  destruct (p_vacuum_full (st_alloc w)) eqn:Ev; [|by apply wpg_ret].
  pose proof (g_size _ _ _ _ _ _ _ Hg). apply wpg_bind, wpg_u32_add; [lia|].
  unfold mapped_size in HQw. simpl in HQw. destruct (is_ptrmap_page (size + 1) ps) eqn:Ep; [|by apply wpg_ret].
  apply wpg_bind, wpg_gets, wpg_bind. case_bool_decide as Hin; [by apply wpg_ret, wpg_ret|].
  apply wpg_add_new_page; [by intros e; apply allocating_broken|done|]. intros w1 Hq Hd1 Hc1. apply wpg_ret.
  assert (mapped_size ps (vacuum w1) size = size + 1) as Hm by (unfold mapped_size; by rewrite (q_vacuum _ _ _ Hq), Ev, Ep).
  assert (allocating n w1) as Ha1.
  { eapply allocating_quiet; [|exact Hq|done]. intros i <-. unfold mapped_size. rewrite Ev, Ep. done. }
  destruct Ha1 as [Hg1 Hs1 Hat Hf1 Hl]. rewrite Hm in *.
  replace (Q (size + 1)) with (Q (mapped_size ps (vacuum w1) size)) by (by rewrite Hm).
  apply (HQ (with_pages _ w1)); [|by apply (q_dirty _ _ _ Hq)|simpl; by rewrite (q_allocate _ _ _ Hq)|exact (settled_quiet _ _ _ Hq Hset)].
  split; simpl; try done.
  - rewrite Hm. eapply good_beyond; [exact Hg1|lia|apply Hg1].
  - apply since_page; try done; [|lia]. right. right. lia.
Qed.

(** The trunk page is pinned and is searched next. *)
Definition at_trunk (t : Z) (w : pages_store) : pages_store :=
  ((pin t;; set_allocate_state (SearchAvailableFreeListLeaf t)) w).2.

Lemma allocate_start_spec w :
  allocating n w -> 1 ∈ p_dirty_pages (st_alloc w) -> p_allocate_page_state (st_alloc w) = AllocateStart -> settled w ->
  wpg allocate_start (fun r w' => r = None /\ next_round 1 w') suspended E w.
Proof.
  intros Ha Hd Hs Hset. unfold allocate_start. destruct (g_header _ _ _ _ _ _ _ (a_good _ _ Ha)) as (b & Hb & Hok).
  destruct (header_fields _ _ _ _ (proj1 (ps_range _ _ _ _ _ (a_good _ _ Ha))) Hok) as (Esz & _). apply wpg_bind. eapply wpg_header; [done|].
  rewrite Esz, (proj1 (proj2 Hok)). apply wpg_bind, ptrmap_page_first_spec; [done..|]. clear w Ha Hd Hs Hset b Hb Hok Esz.
  intros w Ha Hd Hs Hset. destruct (g_header _ _ _ _ _ _ _ (a_good _ _ Ha)) as (b & Hb & Hok).
  destruct (header_fields _ _ _ _ (proj1 (ps_range _ _ _ _ _ (a_good _ _ Ha))) Hok) as (_ & Etr & _). apply wpg_bind. eapply wpg_header; [done|].
  rewrite Etr. pose proof (a_at _ _ Ha) as Hat. unfold allocate_at in Hat. rewrite Hs in Hat.
  destruct (Z.eqb_spec (head_of ts) 0) as [E0|Ne].
  - apply wpg_bind, wpg_on_pager, wpg_ret. split; [done|]. split; [|split_and!; [done|simpl; lia|done]].
    apply (allocating_books n w); [done|done| |done]. unfold allocate_at. simpl. split_and!; try done.
    destruct ts as [|[t ls] r] eqn:Ets; [done|]. simpl in E0. subst t.
    destruct (free_page_there w 0 (a_good _ _ Ha)) as [H _]; [rewrite Ets; left|lia].
  - destruct (free_page_there w _ (a_good _ _ Ha) (head_in Ne)) as (Hr & _ & b' & Hb' & _).
    assert (forall w' X, quiet X w w' -> (forall i, X i -> i = head_of ts) -> allocating n w') as Hstep.
    { intros w' X Hq HX. eapply allocating_quiet; [|exact Hq|done]. intros i Hi. rewrite (HX i Hi).
      pose proof (mapped_size_le ps (vacuum w) size). lia. }
    assert (forall w', quiet (eq (head_of ts)) w w' -> head_of ts ∈ p_page_cache (st_alloc w') -> forall l,
      allocating n (at_trunk (head_of ts) (loading_pages l w'))) as Hnext.
    { intros w' Hq Hc l. apply (allocating_books n w'); [done|by eapply Hstep| |done]. unfold allocate_at. simpl.
      rewrite (q_pins _ _ _ Hq), Hat. split_and!; try done. destruct ts as [|[t ls] r]; [done|]. by exists ls, r. }
    apply wpg_bind. eapply wpg_read_page; [by intros e; apply allocating_broken|exact Hb'|lia| | |].
    + intros w' Hq Hsh. split; [by eapply Hstep|]. pose proof (a_script _ _ Ha). unfold shorter in Hsh. lia.
    + intros w' Hq Hc. specialize (Hnext w' Hq Hc (p_loading (st_alloc w'))). rewrite loading_same in Hnext.
      apply wpg_bind, wpg_bind, wpg_gets, wpg_on_pager, wpg_bind, wpg_on_pager, wpg_ret. split; [done|].
      split_and!; [done|by apply (q_dirty _ _ _ Hq)|simpl; lia|exact (settled_quiet _ _ _ Hq Hset)].
    + intros l w' Hq Hc Hsh. apply wpg_bind, wpg_bind, wpg_gets, wpg_on_pager, wpg_bind, wpg_on_pager, wpg_waits.
      split; [by apply Hnext|]. pose proof (a_script _ _ Ha). unfold shorter in Hsh. simpl. lia.
Qed.

Lemma own_free i : i ∈ free_ids ts -> own size ts i.
Proof. intros Hi. right. by left. Qed.

(** The end of an allocation from the list: [w4] before and [wf] after the pins and the
    state are set. *)
Lemma allocated_remove w w4 wf id ts' b' :
  allocating n w -> free_ids ts ≡ₚ id :: free_ids ts' ->
  takes (vacuum w) (p_max_page_count (st_alloc w)) id size ts' -> same_books w4 wf -> since (own size ts) w0 w4 ->
  kin w w4 ->
  st_pages w4 !! 1 = Some b' -> header_ok u ps size 0 ts' b' -> trunks u ps (st_pages w4) ts' ->
  (forall i, i ∈ free_ids ts' -> st_pages w4 !! i = st_pages w !! i \/ exists b, st_pages w4 !! i = Some b /\ zlen b = ps) ->
  st_pages w4 !! id = Some (replicate (Z.to_nat ps) 0) ->
  p_allocate_page_state (st_alloc wf) = AllocateStart ->
  p_free_page_state (st_alloc wf) = p_free_page_state (st_alloc w) -> p_pins (st_alloc wf) = P -> allocated id wf.
Proof.
  intros [Hg Hs _ Hfr _] Hids Ht Hbf Hs4 (Eps & Em & Ev & Ec & Eb & Hc) Hb Hok Htr Hpages Hid Hst Hf' Hpins.
  pose proof Hbf as (Ep & Es & E1 & E2 & _). exists size, ts'. split_and!; try done.
  - by rewrite <- (s_max _ _ _ Hs), <- (s_vacuum _ _ _ Hs).
  - rewrite E2, Ev. eapply good_books; [exact Hbf|]. eapply good_remove; try done.
    intros i Hi. by apply (g_cache _ _ _ _ _ _ _ Hg), Hc.
  - by eapply since_books.
  - congruence.
  - rewrite Ep. eexists. split_and!; try done. rewrite zlen_replicate. pose proof (ps_range _ _ _ _ _ Hg). lia.
Qed.

Lemma take_trunk_spec w t r :
  allocating n w -> 1 ∈ p_dirty_pages (st_alloc w) -> ts = (t, []) :: r ->
  p_allocate_page_state (st_alloc w) = SearchAvailableFreeListLeaf t ->
  wpg (take_trunk t (head_of r)) (fun x w' => exists id, x = Some id /\ allocated id w') suspended E w.
Proof.
  intros Ha Hd Ets Hs. pose proof (a_good _ _ Ha) as Hg. pose proof (a_at _ _ Ha) as Hat.
  unfold allocate_at in Hat. rewrite Hs in Hat. destruct Hat as (_ & Hpins & Hcache).
  pose proof (ps_range _ _ _ _ _ Hg) as Hps. destruct (g_header _ _ _ _ _ _ _ Hg) as (b & Hb & Hok).
  destruct (free_page_there w t Hg) as (Hr & Hcell & bt & Hbt & Hzt); [rewrite Ets; left|].
  assert (free_ids ts = t :: free_ids r) as Eids by (by rewrite Ets).
  pose proof (free_count size _ (g_nodup _ _ _ _ _ _ _ Hg) (g_range _ _ _ _ _ _ _ Hg)) as Hcount.
  pose proof (g_size _ _ _ _ _ _ _ Hg) as Hsz. rewrite Eids, zlen_cons in Hcount. pose proof (zlen_nonneg (free_ids r)).
  assert (in_u 32 (head_of r)) as Hhr.
  { unfold in_u. destruct r as [|[t' ls'] r']; simpl; [lia|].
    destruct (free_page_there w t' Hg) as [? _]; [rewrite Eids; right; left|lia]. }
  unfold take_trunk. apply wpg_bind. eapply wpg_write_u32; [exact Hb|lia|destruct Hok; lia|].
  pose proof (header_set_trunk u ps size 0 1 ts r b ltac:(lia) Hhr ltac:(rewrite Eids, zlen_cons; lia) Hok) as Hok1.
  set (b1 := splice b 32 _) in *. set (w1 := with_pages <[1 := b1]> w).
  assert (since (own size ts) w0 w1) as S1.
  { apply since_header; [apply Ha|by left|done|done|destruct Hok; lia|lia|lia]. }
  apply wpg_bind. eapply wpg_header; [apply lookup_insert_eq|].
  destruct (header_fields _ _ _ _ (proj1 Hps) Hok1) as (_ & _ & ->). apply wpg_bind, wpg_u32_sub; [lia|].
  apply wpg_bind. eapply wpg_write_u32; [apply lookup_insert_eq|lia|destruct Hok1; lia|].
  replace (zlen (free_ids r) + 1 - 1) with (zlen (free_ids r) + 0) by lia.
  pose proof (header_set_count u ps size 1 0 r r b1 ltac:(lia) ltac:(unfold in_u; lia) eq_refl Hok1) as Hok2.
  set (b2 := splice b1 36 _) in *. set (w2 := with_pages <[1 := b2]> w1).
  assert (since (own size ts) w0 w2) as S2.
  { apply since_header; [done|by left|done|apply lookup_insert_eq|destruct Hok1; lia|lia|lia]. }
  apply wpg_bind, wpg_add_dirty; [intros e He; by apply HE, (broken_since _ _ _ _ S2)|]. intros w3 Hq Hd3.
  apply wpg_bind, wpg_gets, wpg_bind, wpg_assert; [by apply bool_decide_eq_true; rewrite (q_cells _ _ _ Hq)|].
  assert (st_pages w3 !! t = Some bt) as Hbt3.
  { rewrite (q_pages _ _ _ Hq). simpl. by rewrite !lookup_insert_ne by lia. }
  apply wpg_bind. eapply wpg_zero; [exact Hbt3|]. apply wpg_bind, wpg_assert.
  { apply bool_decide_eq_true, (q_pinned _ _ _ Hq); [done|]. simpl. rewrite Hpins. multiset_solver. }
  apply wpg_bind. eapply (wpg_unpin t P); [simpl; by rewrite (q_pins _ _ _ Hq)|]. intros w5 Hb5 Hp5 _ Hf5 _.
  apply wpg_bind, wpg_on_pager, wpg_ret. exists t. split; [done|].
  set (w4 := with_pages <[t := replicate (length bt) 0]> w3) in *. set (wf := with_pager _ w5).
  assert (same_books w4 wf) as Hbf by done.
  assert (st_pages w4 = <[t := replicate (length bt) 0]> (<[1 := b2]> (<[1 := b1]> (st_pages w)))) as Ep
    by (unfold w4; simpl; by rewrite (q_pages _ _ _ Hq)).
  assert (t ∉ free_ids r) as Hnt.
  { pose proof (g_nodup _ _ _ _ _ _ _ Hg) as Hnd. rewrite Eids in Hnd. by apply list.NoDup_cons in Hnd as [? _]. }
  assert (forall i, i ∈ free_ids r -> st_pages w4 !! i = st_pages w !! i) as Hframe.
  { intros i Hi. rewrite Ep. destruct (free_page_there w i Hg) as [? _]; [rewrite Eids; by right|].
    rewrite !lookup_insert_ne by (lia || by intros <-). done. }
  apply (allocated_remove w w4 wf t r b2); try done.
  - rewrite Eids. done.
  - by apply takes_trunk.
  - apply since_page; [by eapply since_quiet|apply own_free; rewrite Eids; left|lia|done].
  - apply kin_pages, (kin_quiet w2); [done|by do 2 apply kin_pages].
  - rewrite Ep. rewrite lookup_insert_ne by lia. apply lookup_insert_eq.
  - pose proof (g_trunks _ _ _ _ _ _ _ Hg) as Ht. rewrite Ets in Ht. by eapply trunks_frame; [|apply Ht].
  - intros i Hi. left. auto.
  - rewrite Ep, lookup_insert_eq. unfold zlen in Hzt. by replace (length bt) with (Z.to_nat ps) by lia.
  - simpl. rewrite Hf5. apply Hq.
Qed.

Lemma first_trunk w t ls r :
  good u ps (mapped_size ps (vacuum w) size) size 0 ts w -> ts = (t, ls) :: r ->
  exists b, st_pages w !! t = Some b /\ trunk_ok u ps b (head_of r) ls /\ 512 <= ps /\ 8 + 4 * zlen ls <= ps.
Proof.
  intros Hg Ets. pose proof (g_trunks _ _ _ _ _ _ _ Hg) as Ht. rewrite Ets in Ht. destruct Ht as [(b & Hb & Hok) _].
  exists b. split_and!; try done; [by apply (ps_range _ _ _ _ _ Hg)|]. destruct Hok as (H1 & H2 & H3 & H4 & H5).
  pose proof (g_usable _ _ _ _ _ _ _ Hg). pose proof (Z.mul_div_le u 4 ltac:(lia)). lia.
Qed.

(** The leaf is pinned and is reused next. *)
Definition at_leaf (t l k : Z) (w : pages_store) : pages_store :=
  ((pin l;; set_allocate_state (ReuseFreelistLeaf t l k)) w).2.

Lemma search_spec w t :
  allocating n w -> 1 ∈ p_dirty_pages (st_alloc w) ->
  p_allocate_page_state (st_alloc w) = SearchAvailableFreeListLeaf t -> settled w ->
  wpg (search_available_freelist_leaf t)
    (fun x w' => match x with None => next_round 2 w' | Some id => allocated id w' end) suspended E w.
Proof.
  intros Ha Hd Hs Hset. pose proof (a_good _ _ Ha) as Hg. pose proof (a_at _ _ Ha) as Hat.
  unfold allocate_at in Hat. rewrite Hs in Hat. destruct Hat as ((ls & r & Ets) & Hpins & Hcache).
  destruct (first_trunk w t ls r Hg Ets) as (b & Hb & (H1 & H2 & H3 & H4 & H5) & Hps & Hfit).
  pose proof (zlen_nonneg ls). unfold search_available_freelist_leaf.
  apply wpg_is_loaded; [done|].
  apply wpg_bind. eapply wpg_read_u32; [exact Hb|done|unfold FREELIST_TRUNK_OFFSET_NEXT_TRUNK_PTR; lia|].
  apply wpg_bind. eapply wpg_read_u32; [exact Hb|done|unfold FREELIST_TRUNK_OFFSET_LEAF_COUNT; lia|].
  unfold FREELIST_TRUNK_OFFSET_NEXT_TRUNK_PTR, FREELIST_TRUNK_OFFSET_LEAF_COUNT. rewrite H2, H3.
  destruct ls as [|l ls].
  - eapply wpg_mono; [by apply take_trunk_spec|]. intros x w' (id & -> & Hid). done.
  - rewrite zlen_cons in *. pose proof (zlen_nonneg ls). rewrite (proj2 (Z.eqb_neq _ _)) by lia. cbn [negb].
    apply wpg_bind. eapply wpg_read_u32; [exact Hb|done|unfold FREELIST_TRUNK_OFFSET_FIRST_LEAF_PTR; lia|].
    unfold FREELIST_TRUNK_OFFSET_FIRST_LEAF_PTR. rewrite (H5 0%nat l eq_refl : u32 b 8 = l).
    destruct (free_page_there w l Hg) as (Hr & _ & bl & Hbl & _); [rewrite Ets; right; left|].
    assert (forall w' X, quiet X w w' -> (forall i, X i -> i = l) -> allocating n w') as Hstep.
    { intros w' X Hq HX. eapply allocating_quiet; [|exact Hq|done]. intros i Hi. rewrite (HX i Hi).
      pose proof (mapped_size_le ps (vacuum w) size). lia. }
    assert (forall w', quiet (eq l) w w' -> l ∈ p_page_cache (st_alloc w') -> forall loading,
      allocating n (at_leaf t l (1 + zlen ls) (loading_pages loading w'))) as Hnext.
    { intros w' Hq Hc loading. apply (allocating_books n w'); [done|by eapply Hstep| |done]. unfold allocate_at. simpl.
      rewrite (q_pins _ _ _ Hq), Hpins. split_and!; try done.
      - exists ls, r. split; [done|]. by rewrite zlen_cons.
      - apply (q_pinned _ _ _ Hq); [done|]. rewrite Hpins. multiset_solver. }
    apply wpg_bind. eapply wpg_read_page; [by intros e; apply allocating_broken|exact Hbl|lia| | |].
    + intros w' Hq Hsh. split; [by eapply Hstep|]. pose proof (a_script _ _ Ha). unfold shorter in Hsh. lia.
    + intros w' Hq Hc. specialize (Hnext w' Hq Hc (p_loading (st_alloc w'))). rewrite loading_same in Hnext.
      apply wpg_bind, wpg_assert; [apply Z.ltb_lt; lia|]. apply wpg_bind, wpg_bind, wpg_gets, wpg_on_pager, wpg_bind, wpg_on_pager, wpg_ret.
      split_and!; [done|by apply (q_dirty _ _ _ Hq)|simpl; lia|exact (settled_quiet _ _ _ Hq Hset)].
    + intros loading w' Hq Hc Hsh. apply wpg_bind, wpg_assert; [apply Z.ltb_lt; lia|].
      apply wpg_bind, wpg_bind, wpg_gets, wpg_on_pager, wpg_bind, wpg_on_pager, wpg_waits.
      split; [by apply Hnext|]. pose proof (a_script _ _ Ha). unfold shorter in Hsh. simpl. lia.
Qed.

(** The trunk page without its first leaf. *)
Lemma trunk_drop b next l ls :
  trunk_ok u ps b next (l :: ls) -> 8 + 4 * zlen (l :: ls) <= ps -> in_u 32 (zlen ls) ->
  trunk_ok u ps (splice (splice b 8 (ztake (4 * zlen ls) (zdrop 12 b))) 4 (be_encode 4 (zlen ls))) next ls.
Proof.
  intros (H1 & H2 & H3 & H4 & H5) Hfit Hu. rewrite zlen_cons in *. pose proof (zlen_nonneg ls).
  assert (zlen (ztake (4 * zlen ls) (zdrop 12 b)) = 4 * zlen ls) as Hz by (rewrite zlen_ztake, zlen_zdrop; lia).
  set (b1 := splice b 8 _). assert (zlen b1 = ps) as Hz1 by (unfold b1; rewrite zlen_splice; lia).
  assert (zlen (be_encode 4 (zlen ls)) = 4) as Hz4 by (by rewrite zlen_be_encode).
  split_and!.
  - rewrite zlen_splice; lia.
  - rewrite u32_splice_other by lia. unfold b1. by rewrite u32_splice_other by lia.
  - apply u32_splice_same; [lia|lia|done].
  - lia.
  - intros i x Hx. pose proof (lookup_lt_Some _ _ _ Hx) as Hlt.
    assert (Z.of_nat i < zlen ls) by (unfold zlen; lia). rewrite u32_splice_other by lia.
    unfold b1. rewrite u32_shift_left by lia. rewrite <- (H5 (S i) x Hx). f_equal. lia.
Qed.

(** The pages after the leaf [l] is zeroed and taken out of its trunk. *)
Lemma removed_pages w b2 bt bt2 zl t l ls r :
  good u ps (mapped_size ps (vacuum w) size) size 0 ts w -> ts = (t, l :: ls) :: r ->
  trunk_ok u ps bt2 (head_of r) ls -> zlen zl = ps ->
  let pages' := <[1 := b2]> (<[t := bt2]> (<[t := bt]> (<[l := zl]> (st_pages w)))) in
  trunks u ps pages' ((t, ls) :: r) /\ pages' !! 1 = Some b2 /\ pages' !! l = Some zl /\
  forall i, i ∈ free_ids ((t, ls) :: r) -> pages' !! i = st_pages w !! i \/ exists b, pages' !! i = Some b /\ zlen b = ps.
Proof.
  intros Hg Ets Htr Hz pages'. pose proof (g_nodup _ _ _ _ _ _ _ Hg) as Hnd. rewrite Ets in Hnd.
  apply list.NoDup_cons in Hnd as [Hnt Hnd]. apply list.NoDup_cons in Hnd as [Hnl _].
  apply not_elem_of_cons in Hnt as [Htl Hnt].
  assert (forall i, i ∈ free_ids ts -> 2 <= i) as Hge by (intros i Hi; destruct (free_page_there w i Hg Hi); lia).
  rewrite Ets in Hge. pose proof (Hge t ltac:(left)). pose proof (Hge l ltac:(right; left)).
  assert (forall i, i ∈ ls ++ free_ids r -> pages' !! i = st_pages w !! i) as Hframe.
  { intros i Hi. pose proof (Hge i ltac:(do 2 right; exact Hi)). unfold pages'.
    rewrite !lookup_insert_ne; [done|..]; first [lia|by intros <-]. }
  assert (pages' !! t = Some bt2) as Ht by (unfold pages'; rewrite lookup_insert_ne by lia; apply lookup_insert_eq).
  split_and!.
  - split; [by exists bt2|]. pose proof (g_trunks _ _ _ _ _ _ _ Hg) as Hts. rewrite Ets in Hts. destruct Hts as [_ Hts].
    eapply trunks_frame; [|exact Hts]. intros i Hi. apply Hframe, elem_of_app. by right.
  - apply lookup_insert_eq.
  - unfold pages'. rewrite !lookup_insert_ne by (lia || congruence). apply lookup_insert_eq.
  - intros i Hi. apply elem_of_cons in Hi as [->|Hi]; [|left; by apply Hframe].
    right. exists bt2. split; [done|apply Htr].
Qed.

Lemma remove_first_leaf_spec w w1 t l ls r zl :
  allocating n w -> ts = (t, l :: ls) :: r -> 1 ∈ p_dirty_pages (st_alloc w1) ->
  p_pins (st_alloc w1) = P ⊎ {[+ t +]} ⊎ {[+ l +]} -> since (own size ts) w0 w1 -> kin w w1 ->
  st_pages w1 = <[l := zl]> (st_pages w) -> zl = replicate (Z.to_nat ps) 0 ->
  p_free_page_state (st_alloc w1) = p_free_page_state (st_alloc w) ->
  wpg (remove_first_leaf t l (zlen (l :: ls))) (fun x w' => exists id, x = Some id /\ allocated id w') suspended E w1.
Proof.
  intros Ha Ets Hd Hpins S1 K1 Ep Ezl Hf1. pose proof (a_good _ _ Ha) as Hg. pose proof (ps_range _ _ _ _ _ Hg).
  assert (zlen zl = ps) as Hzl by (rewrite Ezl, zlen_replicate; lia).
  destruct (first_trunk w t (l :: ls) r Hg Ets) as (bt & Hbt & Htr & Hps & Hfit).
  destruct (g_header _ _ _ _ _ _ _ Hg) as (b & Hb & Hok). pose proof (proj1 Htr) as Hzt.
  destruct (free_page_there w l Hg) as (Hrl & _); [rewrite Ets; right; left|].
  destruct (free_page_there w t Hg) as (Hrt & _); [rewrite Ets; left|].
  pose proof (free_count size _ (g_nodup _ _ _ _ _ _ _ Hg) (g_range _ _ _ _ _ _ _ Hg)) as Hcount.
  pose proof (g_size _ _ _ _ _ _ _ Hg) as Hsz. assert (zlen (free_ids ts) = 1 + zlen (free_ids ((t, ls) :: r))) as Ec
    by (rewrite Ets; simpl; rewrite !zlen_cons; lia).
  pose proof (zlen_nonneg ls). pose proof (zlen_nonneg (free_ids ((t, ls) :: r))).
  assert (t <> l) as Htl.
  { pose proof (g_nodup _ _ _ _ _ _ _ Hg) as Hnd. rewrite Ets in Hnd. apply list.NoDup_cons in Hnd as [Hnt _].
    by apply not_elem_of_cons in Hnt as [? _]. }
  unfold remove_first_leaf. apply wpg_bind, wpg_add_dirty; [intros e He; by apply HE, (broken_since _ _ _ _ S1)|]. intros w2 Hq2 Hd2.
  rewrite zlen_cons in *. apply wpg_bind, wpg_u32_sub; [lia|]. replace (1 + zlen ls - 1) with (zlen ls) by lia.
  assert (st_pages w2 !! t = Some bt) as Hbt2 by (by rewrite (q_pages _ _ _ Hq2), Ep, lookup_insert_ne by congruence).
  assert (st_pages w2 !! 1 = Some b) as Hb2 by (by rewrite (q_pages _ _ _ Hq2), Ep, lookup_insert_ne by lia).
  apply wpg_bind. eapply wpg_contents; [exact Hbt2|]. apply wpg_bind, wpg_bind.
  unfold copy_within, FREELIST_TRUNK_OFFSET_FIRST_LEAF_PTR, FREELIST_LEAF_PTR_SIZE.
  change (8 + 4) with 12. rewrite zslice_Some by lia. replace (12 + zlen ls * 4 - 12) with (4 * zlen ls) by lia.
  cbn [mbind option_bind]. rewrite zput_Some by (rewrite ?zlen_ztake, ?zlen_zdrop; lia). apply wpg_ret.
  pose proof (trunk_drop bt (head_of r) l ls Htr ltac:(rewrite zlen_cons; lia) ltac:(unfold in_u; lia)) as Htr2.
  set (bt1 := splice bt 8 _) in *. assert (zlen bt1 = ps) as Hz1 by (unfold bt1; rewrite zlen_splice; rewrite ?zlen_ztake, ?zlen_zdrop; lia).
  unfold set_contents, on_pages, wpg at 1. apply wpg_bind. eapply wpg_write_u32; [apply lookup_insert_eq|done|unfold FREELIST_TRUNK_OFFSET_LEAF_COUNT; lia|].
  unfold FREELIST_TRUNK_OFFSET_LEAF_COUNT. set (bt2 := splice bt1 4 _) in *. set (w3 := with_pages _ (with_pages _ w2)).
  assert (st_pages w3 !! 1 = Some b) as Hb3 by (unfold w3; simpl; by rewrite !lookup_insert_ne by lia).
  apply wpg_bind. eapply wpg_header; [exact Hb3|]. destruct (header_fields _ _ _ _ Hps Hok) as (_ & _ & ->).
  apply wpg_bind, wpg_u32_sub; [lia|]. apply wpg_bind. eapply wpg_write_u32; [exact Hb3|lia|destruct Hok; lia|].
  replace (zlen (free_ids ts) + 0 - 1) with (zlen (free_ids ((t, ls) :: r)) + 0) by lia.
  pose proof (header_set_count u ps size 0 0 ts ((t, ls) :: r) b Hps ltac:(unfold in_u; lia) ltac:(by rewrite Ets) Hok) as Hok2.
  set (b2 := splice b 36 _) in *. set (w4 := with_pages <[1 := b2]> w3).
  apply wpg_bind. eapply (wpg_unpin t (P ⊎ {[+ l +]})); [simpl; rewrite (q_pins _ _ _ Hq2), Hpins; multiset_solver|].
  intros w5 Hb5 Hp5 _ Hf5 _. apply wpg_bind. eapply (wpg_unpin l P); [done|]. intros w6 Hb6 Hp6 _ Hf6 _.
  apply wpg_bind, wpg_on_pager, wpg_ret. exists l. split; [done|].
  assert (st_pages w4 = <[1 := b2]> (<[t := bt2]> (<[t := bt1]> (<[l := zl]> (st_pages w))))) as Ep4
    by (unfold w4, w3; simpl; by rewrite (q_pages _ _ _ Hq2), Ep).
  destruct (removed_pages w b2 bt1 bt2 zl t l ls r Hg Ets Htr2 Hzl) as (R1 & R2 & R3 & R4). rewrite <- Ep4 in R1, R2, R3, R4.
  apply (allocated_remove w w4 _ l ((t, ls) :: r) b2); try done.
  - rewrite Ets. constructor.
  - by eapply takes_leaf.
  - by eapply same_books_trans; [exact Hb5|].
  - apply since_header; [|by left|by apply (q_dirty _ _ _ Hq2)|exact Hb3|destruct Hok; lia|lia|lia].
    assert (own size ts t) by (apply own_free; rewrite Ets; left).
    apply since_page; [apply since_page; [by eapply since_quiet|..]|..]; (done || lia).
  - do 3 apply kin_pages. by eapply kin_quiet.
  - by rewrite R3, Ezl.
  - simpl. by rewrite Hf6, Hf5; simpl; rewrite (q_free _ _ _ Hq2).
Qed.

Lemma reuse_spec w t l k :
  allocating n w -> 1 ∈ p_dirty_pages (st_alloc w) -> p_allocate_page_state (st_alloc w) = ReuseFreelistLeaf t l k ->
  settled w ->
  wpg (reuse_freelist_leaf t l k) (fun x w' => exists id, x = Some id /\ allocated id w') suspended E w.
Proof.
  intros Ha Hd Hs Hset. pose proof (a_good _ _ Ha) as Hg. pose proof (a_at _ _ Ha) as Hat.
  unfold allocate_at in Hat. rewrite Hs in Hat. destruct Hat as ((ls & r & Ets & ->) & Hpins & Hct & Hcl).
  assert (l ∈ free_ids ts) as Hlin by (rewrite Ets; right; left).
  destruct (free_page_there w l Hg Hlin) as (Hrl & Hcell & bl & Hbl & Hzl).
  unfold reuse_freelist_leaf. apply wpg_is_loaded; [done|]. apply wpg_bind, wpg_add_dirty; [by intros e; apply allocating_broken|]. intros w1 Hq1 Hd1.
  apply wpg_bind, wpg_gets, wpg_bind, wpg_assert; [by apply bool_decide_eq_true; rewrite (q_cells _ _ _ Hq1)|].
  apply wpg_bind. eapply wpg_zero; [by rewrite (q_pages _ _ _ Hq1)|]. apply wpg_bind, wpg_assert.
  { apply bool_decide_eq_true, (q_pinned _ _ _ Hq1); [done|]. rewrite Hpins. multiset_solver. }
  apply (remove_first_leaf_spec w _ t l ls r (replicate (length bl) 0)); [done|done|..].
  - by apply (q_dirty _ _ _ Hq1).
  - simpl. by rewrite (q_pins _ _ _ Hq1).
  - apply since_page; [eapply since_quiet; [apply Ha|done]|by apply own_free|lia|done].
  - apply kin_pages. eapply kin_quiet; [done|apply kin_refl].
  - simpl. by rewrite (q_pages _ _ _ Hq1).
  - unfold zlen in Hzl. by replace (length bl) with (Z.to_nat ps) by lia.
  - apply Hq1.
Qed.

Lemma next_page_u32 w lim v :
  good u ps lim size 0 ts w -> mapped_size ps v size + 1 < 2 ^ 32 /\ next_page ps v size < 2 ^ 32.
Proof.
  intros Hg. pose proof (g_size _ _ _ _ _ _ _ Hg) as Hsz. pose proof (g_valid _ _ _ _ _ _ _ Hg) as Hv.
  assert (is_ptrmap_page (2 ^ 32 - 1) ps = false /\ (forall k, Some k = pending_byte_page_id ps -> k <= 2 ^ 22)) as [H1 H2].
  { unfold page_sizes in Hv.
    repeat (apply elem_of_cons in Hv as [->|Hv]; [split; [done|intros k Hk; vm_compute in Hk; injection Hk as ->; lia]|]).
    by apply not_elem_of_nil in Hv. }
  assert (mapped_size ps v size + 1 < 2 ^ 32) as Hm.
  { unfold mapped_size. destruct (v && is_ptrmap_page (size + 1) ps) eqn:Ev; [|lia].
    apply andb_true_iff in Ev as [_ Ev]. destruct (Z.eq_dec (size + 1) (2 ^ 32 - 1)) as [Eq|]; [congruence|lia]. }
  split; [done|]. unfold next_page. case_bool_decide as Hp; [|done]. specialize (H2 _ Hp). lia.
Qed.

(** A grown database. *)
Lemma grown w w1 b id lim' :
  good u ps (mapped_size ps (vacuum w) size) size 0 ts w -> ts = [] -> size < id <= 0xfffffffe ->
  st_page_size w1 = ps -> p_max_page_count (st_alloc w1) = p_max_page_count (st_alloc w) ->
  p_buffer_pool (st_alloc w1) = p_buffer_pool (st_alloc w) -> header_ok u ps size 0 ts b ->
  (forall i, i ∈ p_page_cache (st_alloc w1) -> i <= lim') ->
  good u ps lim' id 0 [] (with_pages <[1 := splice b 28 (be_encode 4 id)]> w1).
Proof.
  intros Hg Ets Hid Es Em Eb Hok Hc. pose proof (ps_range _ _ _ _ _ Hg) as Hps. destruct Hg. subst ts.
  split; simpl; rewrite ?Em, ?Eb; try done.
  - lia.
  - exists (splice b 28 (be_encode 4 id)). split; [apply lookup_insert_eq|].
    apply (header_set_size u ps size); [lia|unfold in_u; lia|done].
Qed.

Lemma skip_pending_spec W w (Q : Z -> pages_store -> Prop) :
  allocating n w -> 1 ∈ p_dirty_pages (st_alloc w) -> ts = [] ->
  (forall w', good u ps (next_page ps (vacuum w) size - 1) size 0 ts w' -> since (own size ts) w0 w' ->
     1 ∈ p_dirty_pages (st_alloc w') -> p_pins (st_alloc w') = p_pins (st_alloc w) -> vacuum w' = vacuum w ->
     p_max_page_count (st_alloc w') = p_max_page_count (st_alloc w) ->
     p_free_page_state (st_alloc w') = p_free_page_state (st_alloc w) -> Q (next_page ps (vacuum w) size) w') ->
  wpg (skip_pending (mapped_size ps (vacuum w) size)) Q W E w.
Proof.
  intros Ha Hd Ets HQ. pose proof (a_good _ _ Ha) as Hg. destruct (next_page_u32 w _ (vacuum w) Hg) as [Hm Hn].
  pose proof (mapped_size_le ps (vacuum w) size) as Hle. pose proof (g_size _ _ _ _ _ _ _ Hg) as Hsz.
  unfold skip_pending. apply wpg_bind, wpg_u32_add; [done|]. apply wpg_bind, wpg_gets.
  rewrite (g_ps _ _ _ _ _ _ _ Hg). unfold next_page in *. set (m := mapped_size ps (vacuum w) size + 1) in *.
  case_bool_decide as Hp; cycle 1.
  { apply wpg_ret, HQ; try done; [|apply Ha]. by replace (m - 1) with (mapped_size ps (vacuum w) size) by lia. }
  apply wpg_bind, wpg_add_new_page; [by intros e; apply allocating_broken| |].
  { intros Hin. apply (g_cache _ _ _ _ _ _ _ Hg) in Hin. lia. }
  intros w1 Hq Hd1 Hc1. apply wpg_u32_add; [done|].
  apply HQ; [| |by apply (q_dirty _ _ _ Hq)|apply Hq|apply Hq|apply Hq|apply Hq].
  - apply (good_beyond m).
    + eapply (good_quiet u ps _ (mapped_size ps (vacuum w) size)); [|lia|exact Hq|done]. intros i <-. done.
    + lia.
    + intros j Hj. destruct (q_cache _ _ _ Hq j Hj) as [Hj'|<-]; [|lia]. apply (g_cache _ _ _ _ _ _ _ Hg) in Hj'. lia.
  - apply since_page; [eapply since_quiet; [apply Ha|done]|right; right; lia|lia|done].
Qed.

Lemma allocate_new_page_spec w cur :
  allocating n w -> 1 ∈ p_dirty_pages (st_alloc w) -> p_allocate_page_state (st_alloc w) = AllocateNewPage cur ->
  (ts = [] -> p_max_page_count (st_alloc w0) < next_page ps (vacuum w0) size -> E DatabaseFull) ->
  wpg (allocate_new_page cur) (fun x w' => exists id, x = Some id /\ allocated id w') suspended E w.
Proof.
  intros Ha Hd Hs HF. pose proof (a_at _ _ Ha) as Hat. unfold allocate_at in Hat. rewrite Hs in Hat.
  destruct Hat as (Ets & -> & Hpins). pose proof (a_since _ _ Ha) as Hsn. pose proof (a_good _ _ Ha) as Hg0.
  unfold allocate_new_page.
  apply wpg_bind, skip_pending_spec; [done..|]. set (id := next_page ps (vacuum w) size). intros w1 Hg S1 Hd1 Hp1 Ev Em Ef.
  apply wpg_bind, wpg_gets. destruct (Z.ltb_spec (p_max_page_count (st_alloc w1)) id) as [Hfull|Hroom].
  { apply wpg_fails, HF; [done|]. by rewrite <- (s_max _ _ _ Hsn), <- (s_vacuum _ _ _ Hsn), <- Em. }
  assert (size < id) by (pose proof (next_page_lt ps (vacuum w) size); pose proof (mapped_size_le ps (vacuum w) size); lia).
  pose proof (g_max _ _ _ _ _ _ _ Hg) as Hmax. pose proof (g_size _ _ _ _ _ _ _ Hg) as Hsz.
  apply wpg_bind, wpg_add_new_page; [intros e He; by apply HE, (broken_since _ _ _ _ S1)| |].
  { intros Hin. apply (g_cache _ _ _ _ _ _ _ Hg) in Hin. lia. }
  intros w2 Hq Hd2 Hc2. set (w3 := with_pages _ w2). destruct (g_header _ _ _ _ _ _ _ Hg) as (b & Hb & Hok).
  assert (st_pages w3 !! 1 = Some b) as Hb3 by (unfold w3; simpl; by rewrite lookup_insert_ne, (q_pages _ _ _ Hq) by lia).
  pose proof (ps_range _ _ _ _ _ Hg) as Hps.
  apply wpg_bind. eapply wpg_write_u32; [exact Hb3|lia|destruct Hok; lia|]. apply wpg_bind, wpg_on_pager, wpg_ret.
  set (w4 := with_pages _ w3). exists id. split; [done|]. exists id, [].
  assert (since (own size ts) w0 w4) as S4.
  { apply since_header; [|by left|by apply (q_dirty _ _ _ Hq)|exact Hb3|destruct Hok; lia|lia|lia].
    apply since_page; [by eapply since_quiet|right; right; lia|lia|done]. }
  split_and!.
  - unfold id. rewrite (s_vacuum _ _ _ Hsn). apply takes_new; [done|].
    by rewrite <- (s_vacuum _ _ _ Hsn), <- (s_max _ _ _ Hsn), <- Em.
  - eapply good_books; [|apply (grown w w3 b id)]; try done; simpl.
    + lia.
    + by rewrite (q_page_size _ _ _ Hq), (g_ps _ _ _ _ _ _ _ Hg).
    + by rewrite (q_max _ _ _ Hq).
    + rewrite (q_pool _ _ _ Hq). by rewrite (s_pool _ _ _ S1), (s_pool _ _ _ Hsn).
    + intros i Hi. pose proof (mapped_size_le ps (vacuum w2) id). destruct (q_cache _ _ _ Hq i Hi) as [Hi'|<-]; [|lia].
      apply (g_cache _ _ _ _ _ _ _ Hg) in Hi'. lia.
  - eapply since_books; [|exact S4]. done.
  - done.
  - simpl. by rewrite (q_free _ _ _ Hq), Ef, (a_free _ _ Ha).
  - simpl. by rewrite (q_pins _ _ _ Hq), Hp1.
  - simpl. rewrite lookup_insert_ne, lookup_insert_eq by lia. eexists. split_and!; [done| |done].
    rewrite (q_pool _ _ _ Hq). apply (g_pool _ _ _ _ _ _ _ Hg).
Qed.

Context (HF : ts = [] -> p_max_page_count (st_alloc w0) < next_page ps (vacuum w0) size -> E DatabaseFull).

Lemma allocate_step_spec k w :
  next_round k w -> (k <= 2)%nat ->
  wpg allocate_step (fun x w' => match x with None => (k < 2)%nat /\ next_round (S k) w' | Some id => allocated id w' end) suspended E w.
Proof.
  intros (Ha & Hd & Hk & Hset) Hk2. unfold allocate_step. apply wpg_bind, wpg_gets.
  destruct (p_allocate_page_state (st_alloc w)) as [|t|t l m|cur] eqn:Es; simpl in Hk.
  - eapply wpg_mono; [by apply allocate_start_spec|]. intros x w' (-> & H1 & H2 & H3 & H4). split; [lia|]. split_and!; try done. lia.
  - eapply wpg_mono; [by apply search_spec|]. intros [id|] w' H; [done|]. destruct H as (H1 & H2 & H3 & H4). split; [lia|]. split_and!; try done. lia.
  - eapply wpg_mono; [by apply reuse_spec|]. by intros x w' (id & -> & H).
  - eapply wpg_mono; [by apply allocate_new_page_spec|]. by intros x w' (id & -> & H).
Qed.

Lemma allocate_loop_spec fuel k w :
  next_round k w -> (k <= 2)%nat -> (3 <= fuel + k)%nat -> wpg (pg_loop fuel allocate_step) allocated suspended E w.
Proof.
  revert k w. induction fuel as [|fuel IH]; intros k w Hn Hk Hf; [lia|]. simpl. apply wpg_bind.
  eapply wpg_mono; [by apply (allocate_step_spec k)|]. intros [id|] w' H; [done|]. destruct H as [H1 H2].
  apply (IH (S k)); [done|lia|lia].
Qed.

Lemma allocating_one w w' : quiet (eq 1) w w' -> allocating n w -> allocating n w'.
Proof.
  intros Hq Ha. eapply allocating_quiet; [|exact Hq|done]. intros i <-.
  pose proof (g_size _ _ _ _ _ _ _ (a_good _ _ Ha)). pose proof (mapped_size_le ps (vacuum w) size). lia.
Qed.

Lemma allocate_page_spec w : allocating n w -> wpg pager_allocate_page allocated suspended E w.
Proof.
  intros Ha0. unfold pager_allocate_page.
  apply wpg_bind, wpg_wait_for_reads; [by intros e; apply allocating_broken|]. intros wl Hql.
  assert (allocating n (loading_pages ∅ wl)) as Ha by (apply allocating_loading; by eapply allocating_one; [apply quiet_any|]).
  assert (settled (loading_pages ∅ wl)) as Hset by done. revert Ha Hset. generalize (loading_pages ∅ wl). clear w wl Ha0 Hql.
  intros w Ha Hset. pose proof (a_script _ _ Ha) as Hl.
  apply wpg_bind, wpg_ensure_cache_space; [by intros e; apply allocating_broken| |].
  { intros w' Hq Hs. split; [by eapply allocating_one; [apply quiet_any|]|]. unfold shorter in Hs. lia. }
  intros w1 Hq1. assert (allocating n w1) as Ha1 by (by eapply allocating_one; [apply quiet_any|]).
  destruct (g_header _ _ _ _ _ _ _ (a_good _ _ Ha1)) as (b & Hb & _).
  apply wpg_bind. eapply wpg_header_mut; [by intros e; apply allocating_broken|exact Hb|by eapply settled_quiet| |].
  { intros l w' Hq Hs. split; [apply allocating_loading; by eapply allocating_one|].
    pose proof (suffix_length _ _ (q_script _ _ _ Hq1)). unfold shorter in Hs. simpl. lia. }
  intros w2 Hq2 Hd2. apply (allocate_loop_spec 3 0); [|lia|lia].
  split_and!; [by eapply allocating_one|done|lia|by do 2 (eapply settled_quiet; [done|])].
Qed.
End Arms.
End Allocate.

(** Repeating a call that waits ends, because the script does. *)
Lemma complete_spec {T} (m : PgM T) (I : pages_store -> Prop) (Q : T -> pages_store -> Prop) E :
  (forall w, I w -> wpg m Q (fun w' => I w' /\ shorter w w') E w) ->
  forall calls w, I w ->
  wpg (complete calls m) Q (fun w' => I w' /\ (calls <= length (p_script (st_alloc w)))%nat) E w.
Proof.
  intros Hm. induction calls as [|calls IH]; intros w HI; [split; [done|lia]|]. specialize (Hm w HI).
  unfold wpg in *. simpl. destruct (m w) as [[x| |e|] w']; try done.
  destruct Hm as [HI' Hs]. unfold shorter in Hs. specialize (IH w' HI').
  destruct (complete calls m w') as [[x| |e|] w'']; try done. destruct IH. split; [done|lia].
Qed.

Lemma complete_allocate u ps w0 size ts P (E : LimboError -> Prop) calls w :
  (forall e, broken w0 e -> E e) ->
  (ts = [] -> p_max_page_count (st_alloc w0) < next_page ps (p_vacuum_full (st_alloc w0)) size -> E DatabaseFull) ->
  allocating u ps w0 size ts P (length (p_script (st_alloc w))) w ->
  wpg (complete calls pager_allocate_page) (allocated u ps w0 size ts P)
    (fun _ => (calls <= length (p_script (st_alloc w)))%nat) E w.
Proof.
  intros HE HF Ha.
  assert (forall w, allocating u ps w0 size ts P (length (p_script (st_alloc w))) w ->
    wpg pager_allocate_page (allocated u ps w0 size ts P)
      (fun w' => allocating u ps w0 size ts P (length (p_script (st_alloc w'))) w' /\ shorter w w') E w) as Hcall.
  { intros w1 Ha1. pose proof (allocate_page_spec u ps w0 size ts P _ E HE HF w1 Ha1) as H.
    unfold wpg in *. destruct (pager_allocate_page w1) as [[x| |e|] w']; try done.
    destruct H as [[] Hs]. split; [by split|exact Hs]. }
  pose proof (complete_spec _ _ _ _ Hcall calls w Ha) as H. unfold wpg in *.
  destruct (complete calls pager_allocate_page w) as [[x| |e|] w']; try done. apply H.
Qed.

(** ** Freeing *)
Section Free.
Context (u ps : Z) (w0 : pages_store) (size : Z) (ts : list (Z * list Z)) (P : gmultiset Z) (id : Z).
Context (Hid : 2 <= id <= size) (Hnew : id ∉ free_ids ts).

#[local] Abbreviation vacuum w := (p_vacuum_full (st_alloc w)).

Definition counted (s : FreePageState) : Z := match s with FreeStart => 0 | _ => 1 end.

Definition free_at (w : pages_store) : Prop :=
  let p := st_alloc w in
  match p_free_page_state p with
  | FreeStart => p_pins p = P
  | AddToTrunk page => page = id /\ ts <> [] /\ p_pins p = P ⊎ {[+ id +]} /\ (id ∉ p_overflow_cells p)
  | NewTrunk page =>
      page = id /\ (forall t ls r, ts = (t, ls) :: r -> u / 4 - 2 <= zlen ls) /\
      p_pins p = P ⊎ {[+ id +]} /\ (id ∉ p_overflow_cells p)
  end.

Definition gives (i : Z) : Prop := own size ts i \/ i = id.

Record freeing (n : nat) (w : pages_store) : Prop := {
  f_good : good u ps (mapped_size ps (vacuum w) size) size (counted (p_free_page_state (st_alloc w))) ts w;
  f_since : since gives w0 w;
  f_at : free_at w;
  f_page : exists b, st_pages w !! id = Some b /\ zlen b = ps;
  f_kept : st_pages w !! id = st_pages w0 !! id;
  f_allocate : p_allocate_page_state (st_alloc w) = p_allocate_page_state (st_alloc w0);
  f_script : (length (p_script (st_alloc w)) <= n)%nat
}.

(** The list after the page is added. *)
Inductive frees : list (Z * list Z) -> Prop :=
| frees_leaf t ls r : ts = (t, ls) :: r -> zlen ls < u / 4 - 2 -> frees ((t, ls ++ [id]) :: r)
| frees_trunk : (forall t ls r, ts = (t, ls) :: r -> u / 4 - 2 <= zlen ls) -> frees ((id, []) :: ts).

Definition freed (w : pages_store) : Prop :=
  exists ts', frees ts' /\ good u ps (mapped_size ps (vacuum w) size) size 0 ts' w /\ since gives w0 w /\
    p_allocate_page_state (st_alloc w) = p_allocate_page_state (st_alloc w0) /\ p_pins (st_alloc w) = P /\ settled w.

Lemma gives_range w lim extra i : good u ps lim size extra ts w -> i ∈ free_ids ts -> 2 <= i <= size /\ i <> id.
Proof.
  intros Hg Hi. split; [|by intros ->]. by apply (proj1 (list.Forall_forall _ _) (g_range _ _ _ _ _ _ _ Hg) i).
Qed.

Lemma good_header lim extra extra' w b :
  good u ps lim size extra ts w -> header_ok u ps size extra' ts b -> good u ps lim size extra' ts (with_pages <[1 := b]> w).
Proof.
  intros Hg Hok. assert (forall i, i ∈ free_ids ts -> <[1 := b]> (st_pages w) !! i = st_pages w !! i) as Hf.
  { intros i Hi. destruct (gives_range _ _ _ _ Hg Hi). by rewrite lookup_insert_ne by lia. }
  destruct Hg. split; simpl; try done.
  - exists b. split; [apply lookup_insert_eq|done].
  - by eapply trunks_frame.
  - by eapply pages_frame.
Qed.

(** The list with the page. *)
Lemma good_add lim w w' ts' b' :
  good u ps lim size 1 ts w -> free_ids ts' ≡ₚ id :: free_ids ts -> kin w w' -> (id ∉ p_overflow_cells (st_alloc w)) ->
  st_pages w' !! 1 = Some b' -> header_ok u ps size 0 ts' b' -> trunks u ps (st_pages w') ts' ->
  (forall i, i ∈ free_ids ts' -> exists b, st_pages w' !! i = Some b /\ zlen b = ps) ->
  good u ps lim size 0 ts' w'.
Proof.
  intros [] Hp (Es & Em & Ev & Ec & Eb & Hc) Hcell Hb Hok Ht Hpages.
  assert (forall i, i ∈ free_ids ts' -> i = id \/ i ∈ free_ids ts) as Hsub
    by (intros i Hi; rewrite Hp in Hi; by apply elem_of_cons in Hi).
  rewrite list.Forall_forall in g_range0, g_cells0.
  split; rewrite ?Es, ?Em, ?Eb; try done; auto.
  - by exists b'.
  - apply list.Forall_forall. intros i Hi. destruct (Hsub i Hi) as [->|]; auto.
  - rewrite Hp. by constructor.
  - by apply list.Forall_forall.
  - apply list.Forall_forall. intros i Hi Hin. apply Ec in Hin. destruct (Hsub i Hi) as [->|Hi']; [done|]. by apply (g_cells0 i).
Qed.

Lemma freeing_quiet X n w w' :
  (forall i, X i -> i <= size) -> quiet X w w' -> freeing n w -> freeing n w'.
Proof.
  intros HX Hq [Hg Hs Ha Hp Hk Hal Hl]. pose proof (mapped_size_le ps (vacuum w) size). split.
  - rewrite (q_vacuum _ _ _ Hq), (q_free _ _ _ Hq). eapply good_quiet; [|done|exact Hq|done]. intros i Hi. specialize (HX i Hi). lia.
  - by eapply since_quiet.
  - unfold free_at in *. rewrite (q_free _ _ _ Hq), (q_pins _ _ _ Hq), (q_cells _ _ _ Hq). done.
  - by rewrite (q_pages _ _ _ Hq).
  - by rewrite (q_pages _ _ _ Hq).
  - by rewrite (q_allocate _ _ _ Hq).
  - pose proof (suffix_length _ _ (q_script _ _ _ Hq)). lia.
Qed.

Lemma freeing_books n w w' :
  freeing n w -> same_books w w' -> p_allocate_page_state (st_alloc w') = p_allocate_page_state (st_alloc w) -> free_at w' ->
  counted (p_free_page_state (st_alloc w')) = counted (p_free_page_state (st_alloc w)) -> freeing n w'.
Proof.
  intros [Hg Hs _ Hp Hk Hal Hl] Hb Ha Hat Hc. pose proof Hb as (Ep & Es & E1 & E2 & E3 & E4 & E5 & E6 & E7). split.
  - rewrite E2, Hc. by eapply good_books.
  - by eapply since_books.
  - done.
  - by rewrite Ep.
  - by rewrite Ep.
  - congruence.
  - by rewrite E7.
Qed.

Lemma freeing_loading n l w : freeing n w -> freeing n (loading_pages l w).
Proof. intros Ha. by apply (freeing_books n w); [|done|done|apply Ha|]. Qed.

Section Arms.
Context (n : nat) (E : LimboError -> Prop) (HE : forall e, broken w0 e -> E e).

Definition free_suspended (w : pages_store) : Prop := freeing n w /\ (length (p_script (st_alloc w)) < n)%nat.

Definition free_rank (s : FreePageState) : nat := match s with FreeStart => 0 | AddToTrunk _ => 1 | NewTrunk _ => 2 end.

Definition free_round (k : nat) (w : pages_store) : Prop :=
  freeing n w /\ 1 ∈ p_dirty_pages (st_alloc w) /\ (k <= free_rank (p_free_page_state (st_alloc w)))%nat /\ settled w.

Lemma freeing_broken w e : freeing n w -> broken w e -> E e.
Proof. intros Ha He. apply HE. by eapply broken_since; [apply Ha|]. Qed.

Lemma free_count_u32 w lim extra : good u ps lim size extra ts w -> zlen (free_ids ts) + 1 < 2 ^ 32.
Proof.
  intros Hg. pose proof (free_count size _ (g_nodup _ _ _ _ _ _ _ Hg) (g_range _ _ _ _ _ _ _ Hg)).
  pose proof (g_size _ _ _ _ _ _ _ Hg). lia.
Qed.

(** The page is counted and pinned. *)
Lemma free_count_spec w (pending : bool) :
  freeing n w -> 1 ∈ p_dirty_pages (st_alloc w) -> p_free_page_state (st_alloc w) = FreeStart ->
  (if pending then (length (p_script (st_alloc w)) < n)%nat else settled w) ->
  wpg (count_free_page id pending) (fun x w' => x = None /\ free_round 1 w') free_suspended E w.
Proof.
  intros Ha Hd Hs Hpend. pose proof (f_good _ _ Ha) as Hg. rewrite Hs in Hg. simpl in Hg.
  pose proof (ps_range _ _ _ _ _ _ _ Hg) as Hps. pose proof (free_count_u32 _ _ _ Hg) as Hc. pose proof (zlen_nonneg (free_ids ts)).
  unfold count_free_page. apply wpg_bind, wpg_gets, wpg_bind, wpg_on_pager.
  destruct (g_header _ _ _ _ _ _ _ Hg) as (b & Hb & Hok). apply wpg_bind. eapply wpg_header; [exact Hb|].
  destruct (header_fields _ _ _ _ _ _ (proj1 Hps) Hok) as (_ & -> & ->).
  apply wpg_bind, wpg_u32_add; [lia|]. apply wpg_bind. eapply wpg_write_u32; [exact Hb|lia|destruct Hok; lia|].
  replace (zlen (free_ids ts) + 0 + 1) with (zlen (free_ids ts) + 1) by lia.
  pose proof (header_set_count u ps size 0 1 ts ts b ltac:(lia) ltac:(unfold in_u; lia) eq_refl Hok) as Hok1.
  set (b1 := splice b 36 _) in *. apply wpg_bind, wpg_bind, wpg_gets, wpg_on_pager, wpg_bind, wpg_on_pager.
  set (w1 := with_pager _ (with_pager _ (with_pages _ (with_pager _ w)))).
  pose proof (f_at _ _ Ha) as Hat. unfold free_at in Hat. rewrite Hs in Hat.
  assert (good u ps (mapped_size ps (vacuum w) size) size 1 ts (with_pages <[1 := b1]> w)) as Hg1 by (by eapply good_header).
  assert (freeing n w1 /\ (1 <= free_rank (p_free_page_state (st_alloc w1)))%nat) as [Ha1 Hr].
  { split; [|simpl; destruct (negb _); simpl; lia]. split.
    - replace (counted _) with 1 by (simpl; by destruct (negb _)).
      eapply (good_same u ps _ _ size 1 ts (with_pages <[1 := b1]> w)); [exact Hg1|..]; simpl; try done; [set_solver|].
      intros i Hi. by left.
    - assert (since (gives) w0 (with_pages <[1 := b1]> w)) as S1.
      { apply since_header; [apply Ha|by left; left|done|done|destruct Hok; lia|lia|lia]. }
      apply (since_same _ _ _ _ S1); simpl; try done. set_solver.
    - unfold free_at. simpl. rewrite Hat. destruct (Z.eqb_spec (head_of ts) 0) as [E0|N0]; simpl.
      + split_and!; try done; [|set_solver]. intros t ls r Ets. exfalso. rewrite Ets in E0. simpl in E0.
        destruct (gives_range _ _ _ t Hg); [rewrite Ets; left|lia].
      + split_and!; try done; [by intros ->|set_solver].
    - destruct (f_page _ _ Ha) as (bi & Hbi & Hzi). exists bi. simpl. by rewrite lookup_insert_ne by lia.
    - simpl. rewrite lookup_insert_ne by lia. exact (f_kept _ _ Ha).
    - apply Ha.
    - apply Ha. }
  destruct pending; [by split|]. split; [done|]. by split_and!.
Qed.

Lemma free_start_spec given w :
  freeing n w -> 1 ∈ p_dirty_pages (st_alloc w) -> p_free_page_state (st_alloc w) = FreeStart -> settled w ->
  wpg (free_start given id) (fun x w' => x = None /\ free_round 1 w') free_suspended E w.
Proof.
  intros Ha Hd Hs Hset. pose proof (f_good _ _ Ha) as Hg. rewrite Hs in Hg. simpl in Hg. pose proof (f_script _ _ Ha) as Hl.
  pose proof (ps_range _ _ _ _ _ _ _ Hg) as Hps. destruct (g_header _ _ _ _ _ _ _ Hg) as (b & Hb & Hok).
  unfold free_start. apply wpg_bind. eapply wpg_header; [exact Hb|].
  destruct (header_fields _ _ _ _ _ _ (proj1 Hps) Hok) as (-> & _ & _).
  rewrite (proj2 (Z.ltb_ge _ _)), (proj2 (Z.ltb_ge _ _)) by lia. cbn [orb]. apply wpg_bind. destruct given.
  - apply wpg_ret, free_count_spec; try done.
  - destruct (f_page _ _ Ha) as (bi & Hbi & _). assert (forall i, id = i -> i <= size) as Hi by lia.
    eapply wpg_read_page; [by intros e; apply freeing_broken|exact Hbi|lia| | |].
    + intros w' Hq Hsh. split; [by eapply freeing_quiet; [|apply quiet_any|]|]. unfold shorter in Hsh. lia.
    + intros w' Hq _. apply free_count_spec; [by eapply freeing_quiet|by apply (q_dirty _ _ _ Hq)|by rewrite (q_free _ _ _ Hq)|].
      by eapply settled_quiet.
    + intros l w' Hq _ Hsh. apply free_count_spec; [apply freeing_loading; by eapply freeing_quiet|by apply (q_dirty _ _ _ Hq)|simpl; by rewrite (q_free _ _ _ Hq)|].
      unfold shorter in Hsh. simpl. lia.
Qed.

Lemma trunk_push b next ls :
  trunk_ok u ps b next ls -> zlen ls < u / 4 - 2 -> MIN_USABLE_SPACE <= u <= ps -> ps <= 65536 -> in_u 32 id ->
  trunk_ok u ps (splice (splice b 4 (be_encode 4 (zlen ls + 1))) (8 + zlen ls * 4) (be_encode 4 id)) next (ls ++ [id]).
Proof.
  intros (H1 & H2 & H3 & H4 & H5) Hlt Hu Hps Hi. pose proof (zlen_nonneg ls). pose proof (Z.mul_div_le u 4 ltac:(lia)).
  assert (forall v, zlen (be_encode 4 v) = 4) as Hz4 by (intros v; by rewrite zlen_be_encode).
  assert (forall pos v, 0 <= pos -> pos + 4 <= ps -> zlen (splice b pos (be_encode 4 v)) = ps) as Hz
    by (intros pos v Hp1 Hp2; rewrite zlen_splice; rewrite ?Hz4; lia).
  set (b1 := splice b 4 _). assert (zlen b1 = ps) as Hz1 by (apply Hz; lia). split_and!.
  - rewrite zlen_splice; rewrite ?Hz4; lia.
  - rewrite u32_splice_other by (rewrite ?Hz4; lia). unfold b1. by rewrite u32_splice_other by (rewrite ?Hz4; lia).
  - rewrite u32_splice_other by (rewrite ?Hz4; lia). unfold b1. rewrite u32_splice_same; [|lia|lia|unfold in_u; lia].
    rewrite zlen_app, zlen_cons, zlen_nil. lia.
  - rewrite zlen_app, zlen_cons, zlen_nil. lia.
  - intros i l Hl. apply lookup_snoc_Some in Hl as [[Hi' Hl]|[-> <-]].
    + assert (Z.of_nat i < zlen ls) by (unfold zlen; lia). rewrite u32_splice_other by (rewrite ?Hz4; lia).
      unfold b1. rewrite u32_splice_other by (rewrite ?Hz4; lia). by apply H5.
    + fold (zlen ls). replace (4 * zlen ls) with (zlen ls * 4) by lia. apply u32_splice_same; [lia|lia|done].
Qed.

(** The array of the first trunk with the page. *)
Lemma pushed_pages w lim t ls r bt2 :
  good u ps lim size 1 ts w -> ts = (t, ls) :: r -> trunk_ok u ps bt2 (head_of r) (ls ++ [id]) ->
  (exists b, st_pages w !! id = Some b /\ zlen b = ps) -> forall pages',
  pages' !! t = Some bt2 -> (forall i, i <> t -> pages' !! i = st_pages w !! i) ->
  trunks u ps pages' ((t, ls ++ [id]) :: r) /\
  (forall i, i ∈ free_ids ((t, ls ++ [id]) :: r) -> exists b, pages' !! i = Some b /\ zlen b = ps).
Proof.
  intros Hg Ets Htr (bi & Hbi & Hzi) pages' Ht Hne.
  pose proof (g_nodup _ _ _ _ _ _ _ Hg) as Hnd. rewrite Ets in Hnd. apply list.NoDup_cons in Hnd as [Hnt _].
  pose proof (g_pages _ _ _ _ _ _ _ Hg) as Hp. rewrite list.Forall_forall, Ets in Hp.
  destruct (gives_range _ _ _ t Hg) as [_ Htid]; [rewrite Ets; left|]. split.
  - split; [by exists bt2|]. pose proof (g_trunks _ _ _ _ _ _ _ Hg) as Hts. rewrite Ets in Hts.
    eapply trunks_frame; [|apply Hts]. intros i Hi. apply Hne. intros ->. apply Hnt, elem_of_app. by right.
  - intros i Hi. destruct (decide (i = t)) as [->|Hit]; [exists bt2; split; [done|apply Htr]|]. rewrite Hne by done.
    destruct (decide (i = id)) as [->|]; [by exists bi|]. apply Hp. simpl in Hi. rewrite <- app_assoc in Hi.
    apply elem_of_cons in Hi as [->|Hi]; [left|]. apply elem_of_app in Hi as [Hi|Hi]; [right; apply elem_of_app; by left|].
    apply elem_of_cons in Hi as [->|Hi]; [done|]. right. apply elem_of_app. by right.
Qed.

(** The end of the operation: [w4] before and [wf] after the pin is released. *)
Lemma freed_add w w4 wf ts' b' :
  freeing n w -> (counted (p_free_page_state (st_alloc w)) = 1) -> (id ∉ p_overflow_cells (st_alloc w)) ->
  frees ts' -> free_ids ts' ≡ₚ id :: free_ids ts -> same_books w4 wf -> since gives w0 w4 -> kin w w4 ->
  st_pages w4 !! 1 = Some b' -> header_ok u ps size 0 ts' b' -> trunks u ps (st_pages w4) ts' ->
  (forall i, i ∈ free_ids ts' -> exists b, st_pages w4 !! i = Some b /\ zlen b = ps) ->
  p_allocate_page_state (st_alloc wf) = p_allocate_page_state (st_alloc w) -> p_pins (st_alloc wf) = P -> settled wf -> freed wf.
Proof.
  intros [Hg Hs _ _ _ Hal _] Hx Hcell Hf Hids Hbf Hs4 Hk Hb Hok Htr Hpages Ha' Hpins Hset. rewrite Hx in Hg.
  pose proof Hbf as (Ep & Es & E1 & E2 & _). exists ts'. split_and!; try done.
  - rewrite E2, (proj1 (proj2 (proj2 Hk))). eapply good_books; [exact Hbf|]. by eapply good_add.
  - by eapply since_books.
  - by rewrite Ha'.
Qed.

Lemma append_leaf_spec w t ls r bt :
  freeing n w -> ts = (t, ls) :: r -> 1 ∈ p_dirty_pages (st_alloc w) -> p_free_page_state (st_alloc w) = AddToTrunk id ->
  st_pages w !! t = Some bt -> trunk_ok u ps bt (head_of r) ls -> zlen ls < u / 4 - 2 -> settled w ->
  wpg (append_leaf t (zlen ls) id id) (fun x w' => x = Some () /\ freed w') free_suspended E w.
Proof.
  intros Ha Ets Hd Hs Hbt Htr Hlt Hset. pose proof (f_good _ _ Ha) as Hg. rewrite Hs in Hg. simpl in Hg.
  pose proof (f_at _ _ Ha) as Hat. unfold free_at in Hat. rewrite Hs in Hat. destruct Hat as (_ & Hne & Hpins & Hcell).
  pose proof (ps_range _ _ _ _ _ _ _ Hg) as Hps. destruct (g_header _ _ _ _ _ _ _ Hg) as (b & Hb & Hok).
  pose proof (g_usable _ _ _ _ _ _ _ Hg) as Hus. pose proof (g_size _ _ _ _ _ _ _ Hg) as Hsz.
  destruct (gives_range _ _ _ t Hg) as [Ht Htid]; [rewrite Ets; left|]. pose proof (zlen_nonneg ls).
  pose proof (Z.mul_div_le u 4 ltac:(lia)). pose proof (proj1 Htr) as Hzt. unfold append_leaf.
  unfold FREELIST_TRUNK_OFFSET_LEAF_COUNT, FREELIST_TRUNK_OFFSET_FIRST_LEAF_PTR, FREELIST_LEAF_PTR_SIZE.
  pose proof (trunk_push bt _ ls Htr Hlt Hus ltac:(lia) ltac:(unfold in_u; lia)) as Htr2. unfold MIN_USABLE_SPACE in Hus.
  apply wpg_bind, wpg_add_dirty; [by intros e; apply freeing_broken|]. intros w2 Hq2 Hd2.
  apply wpg_bind, wpg_u32_add; [lia|]. apply wpg_bind.
  eapply wpg_write_u32; [by rewrite (q_pages _ _ _ Hq2)|done|lia|]. apply wpg_bind. rewrite (wrap_small 32 id) by (unfold in_u; lia).
  set (bt1 := splice bt 4 _) in *. assert (zlen bt1 = ps) by (unfold bt1; rewrite zlen_splice; rewrite ?zlen_be_encode; lia).
  eapply wpg_write_u32; [apply lookup_insert_eq|lia|lia|]. set (bt2 := splice bt1 _ _) in *. set (w4 := with_pages _ _).
  apply wpg_bind. eapply (wpg_unpin id P); [simpl; by rewrite (q_pins _ _ _ Hq2)|]. intros w5 Hb5 Hp5 Ha5 _ Hl5. apply wpg_ret.
  assert (forall i, i <> t -> st_pages w4 !! i = st_pages w !! i) as Hne4.
  { intros i Hi. simpl. by rewrite !lookup_insert_ne, (q_pages _ _ _ Hq2) by congruence. }
  destruct (pushed_pages w _ t ls r bt2 Hg Ets Htr2 (f_page _ _ Ha) (st_pages w4)) as [P1 P2]; [apply lookup_insert_eq|done|].
  assert (free_ids ((t, ls ++ [id]) :: r) ≡ₚ id :: free_ids ts) as Hperm.
  { rewrite Ets. simpl. rewrite <- app_assoc. simpl. rewrite <- Permutation_middle. constructor. }
  split; [done|]. apply (freed_add w w4 w5 ((t, ls ++ [id]) :: r) b); try done.
  - by rewrite Hs.
  - by eapply frees_leaf.
  - assert (gives t) by (left; right; left; rewrite Ets; left).
    apply since_page; [apply since_page; [eapply since_quiet; [apply Ha|done]|..]|..]; (done || lia).
  - do 2 apply kin_pages. eapply kin_quiet; [done|apply kin_refl].
  - by rewrite Hne4 by lia.
  - destruct Hok as (K1 & K2 & K3 & K4 & K5 & K6). split_and!; try done; [by rewrite K5, Ets|].
    rewrite K6. unfold zlen. rewrite Hperm. simpl. lia.
  - rewrite Ha5. simpl. by rewrite (q_allocate _ _ _ Hq2).
  - unfold settled. rewrite Hl5. exact (settled_quiet _ _ _ Hq2 Hset).
Qed.

Lemma add_to_trunk_spec w :
  freeing n w -> 1 ∈ p_dirty_pages (st_alloc w) -> p_free_page_state (st_alloc w) = AddToTrunk id -> settled w ->
  wpg (free_add_to_trunk id id) (fun x w' => match x with None => free_round 2 w' | Some _ => freed w' end) free_suspended E w.
Proof.
  intros Ha Hd Hs Hset. pose proof (f_good _ _ Ha) as Hg. rewrite Hs in Hg. simpl in Hg. pose proof (f_script _ _ Ha) as Hl.
  pose proof (f_at _ _ Ha) as Hat. unfold free_at in Hat. rewrite Hs in Hat. destruct Hat as (_ & Hne & Hpins & Hcell).
  pose proof (ps_range _ _ _ _ _ _ _ Hg) as Hps. destruct (g_header _ _ _ _ _ _ _ Hg) as (b & Hb & Hok).
  pose proof (g_usable _ _ _ _ _ _ _ Hg) as Hus. pose proof (g_size _ _ _ _ _ _ _ Hg) as Hsz.
  assert (exists t ls r, ts = (t, ls) :: r) as (t & ls & r & Ets) by (destruct ts as [|[t ls] r]; [done|by exists t, ls, r]).
  pose proof (g_trunks _ _ _ _ _ _ _ Hg) as Ht. rewrite Ets in Ht. destruct Ht as [(bt & Hbt & Htr) Hr]. destruct (gives_range _ _ _ t Hg) as [Htr1 Htid]; [rewrite Ets; left|].
  unfold free_add_to_trunk. apply wpg_bind. eapply wpg_header; [exact Hb|].
  destruct (header_fields _ _ _ _ _ _ (proj1 Hps) Hok) as (_ & -> & _). rewrite (proj1 (proj2 (proj2 Hok))).
  replace (head_of ts) with t by (by rewrite Ets). apply wpg_bind.
  assert (forall w', quiet (eq t) w w' -> freeing n w') as Hstep by (intros w' Hq; eapply freeing_quiet; [|exact Hq|done]; lia).
  eapply wpg_read_page; [by intros e; apply freeing_broken|exact Hbt|lia| | |].
  { intros w' Hq Hsh. split; [by apply Hstep, quiet_any|]. unfold shorter in Hsh. lia. }
  all: cycle 1.
  { intros l w' Hq _ Hsh. apply wpg_waits. split; [by apply freeing_loading, Hstep|]. unfold shorter in Hsh. simpl. lia. }
  intros w1 Hq1 _. apply wpg_is_loaded; [by eapply settled_quiet|].
  pose proof (zlen_nonneg ls). pose proof (Z.mul_div_le u 4 ltac:(lia)). pose proof Htr as (T1 & T2 & T3 & T4 & T5).
  unfold MIN_USABLE_SPACE in Hus.
  apply wpg_bind. eapply wpg_read_u32; [by rewrite (q_pages _ _ _ Hq1)|done|unfold FREELIST_TRUNK_OFFSET_LEAF_COUNT; lia|].
  unfold FREELIST_TRUNK_OFFSET_LEAF_COUNT, FREELIST_TRUNK_OFFSET_FIRST_LEAF_PTR, FREELIST_LEAF_PTR_SIZE, RESERVED_SLOTS.
  assert (0 <= u / 4) by (apply Z.div_pos; lia).
  rewrite T3, (wrap_small 32 (u / 4 - 2)) by (unfold in_u; lia).
  destruct (Z.ltb_spec (zlen ls) (u / 4 - 2)) as [Hlt|Hge]; cycle 1.
  { apply wpg_bind, wpg_on_pager, wpg_ret. pose proof (Hstep _ Hq1) as Ha1. split; [|split_and!; [by apply (q_dirty _ _ _ Hq1)|done|exact (settled_quiet _ _ _ Hq1 Hset)]].
    apply (freeing_books n w1); [done|done|done| |simpl; by rewrite (q_free _ _ _ Hq1), Hs].
    unfold free_at. simpl. rewrite (q_pins _ _ _ Hq1), (q_cells _ _ _ Hq1). split_and!; try done.
    intros t' ls' r' E'. rewrite Ets in E'. by injection E' as <- <- <-. }
  eapply wpg_mono; [eapply append_leaf_spec|by intros x w' [-> H']]; try done.
  - by apply Hstep.
  - by apply (q_dirty _ _ _ Hq1).
  - by rewrite (q_free _ _ _ Hq1).
  - by rewrite (q_pages _ _ _ Hq1).
  - by eapply settled_quiet.
Qed.

Lemma new_trunk_spec w :
  freeing n w -> 1 ∈ p_dirty_pages (st_alloc w) -> p_free_page_state (st_alloc w) = NewTrunk id -> settled w ->
  wpg (free_new_trunk id id) (fun x w' => x = Some () /\ freed w') free_suspended E w.
Proof.
  intros Ha Hd Hs Hset. pose proof (f_good _ _ Ha) as Hg. rewrite Hs in Hg. simpl in Hg.
  pose proof (f_at _ _ Ha) as Hat. unfold free_at in Hat. rewrite Hs in Hat. destruct Hat as (_ & Hfull & Hpins & Hcell).
  pose proof (ps_range _ _ _ _ _ _ _ Hg) as Hps. destruct (g_header _ _ _ _ _ _ _ Hg) as (b & Hb & Hok).
  pose proof (g_usable _ _ _ _ _ _ _ Hg) as Hus. pose proof (g_size _ _ _ _ _ _ _ Hg) as Hsz. unfold MIN_USABLE_SPACE in Hus.
  destruct (f_page _ _ Ha) as (bi & Hbi & Hzi). unfold free_new_trunk, FREELIST_TRUNK_OFFSET_NEXT_TRUNK_PTR, FREELIST_TRUNK_OFFSET_LEAF_COUNT.
  assert (0 <= head_of ts < 2 ^ 32) as Hh.
  { destruct (decide (ts = [])) as [->|Hne]; [simpl; lia|]. assert (head_of ts ∈ free_ids ts) as Hin
      by (destruct ts as [|[t ls] r]; [done|left]). destruct (gives_range _ _ _ _ Hg Hin). lia. }
  assert (120 <= u / 4) by (apply Z.div_le_lower_bound; lia).
  apply wpg_is_loaded; [done|]. apply wpg_bind, wpg_assert; [by apply Z.eqb_eq|].
  apply wpg_bind, wpg_add_dirty; [by intros e; apply freeing_broken|]. intros w2 Hq2 Hd2.
  apply wpg_bind. eapply wpg_header; [by rewrite (q_pages _ _ _ Hq2)|].
  destruct (header_fields _ _ _ _ _ _ (proj1 Hps) Hok) as (_ & -> & _).
  apply wpg_bind. eapply wpg_write_u32; [by rewrite (q_pages _ _ _ Hq2)|lia|lia|]. set (b1 := splice bi 0 _).
  assert (forall v, zlen (be_encode 4 v) = 4) as Hz4 by (intros v; by rewrite zlen_be_encode).
  assert (zlen b1 = ps) as Hz1 by (unfold b1; rewrite zlen_splice; rewrite ?Hz4; lia).
  apply wpg_bind. eapply wpg_write_u32; [apply lookup_insert_eq|lia|lia|]. set (b2 := splice b1 4 _).
  assert (trunk_ok u ps b2 (head_of ts) []) as Htr.
  { split_and!; [unfold b2; rewrite zlen_splice; rewrite ?Hz4; lia| | |rewrite zlen_nil; lia|done]; unfold b2.
    - rewrite u32_splice_other by (rewrite ?Hz4; lia). apply u32_splice_same; [lia|lia|exact Hh].
    - apply u32_splice_same; [lia|lia|done]. }
  set (w3 := with_pages _ (with_pages _ w2)). assert (st_pages w3 !! 1 = Some b) as Hb3.
  { simpl. by rewrite !lookup_insert_ne, (q_pages _ _ _ Hq2) by lia. }
  apply wpg_bind. eapply wpg_write_u32; [exact Hb3|lia|destruct Hok; lia|]. rewrite (wrap_small 32 id) by (unfold in_u; lia).
  pose proof (header_set_trunk u ps size 1 0 ts ((id, []) :: ts) b (proj1 Hps) ltac:(unfold in_u; simpl; lia)
    ltac:(simpl; rewrite zlen_cons; lia) Hok) as Hok2. simpl head_of in Hok2. set (bh := splice b 32 _) in *. set (w4 := with_pages _ w3).
  apply wpg_bind. eapply (wpg_unpin id P); [simpl; by rewrite (q_pins _ _ _ Hq2)|]. intros w5 Hb5 Hp5 Ha5 _ Hl5. apply wpg_ret.
  assert (forall i, i <> 1 -> i <> id -> st_pages w4 !! i = st_pages w !! i) as Hne.
  { intros i H1 H2. simpl. by rewrite !lookup_insert_ne, (q_pages _ _ _ Hq2) by congruence. }
  assert (forall i, i ∈ free_ids ts -> st_pages w4 !! i = st_pages w !! i) as Hf.
  { intros i Hi. destruct (gives_range _ _ _ _ Hg Hi). apply Hne; lia. }
  assert (st_pages w4 !! id = Some b2) as Hid4 by (simpl; rewrite lookup_insert_ne by lia; apply lookup_insert_eq).
  split; [done|]. apply (freed_add w w4 w5 ((id, []) :: ts) bh); try done.
  - by rewrite Hs.
  - by apply frees_trunk.
  - apply since_header; [|by left; left|by apply (q_dirty _ _ _ Hq2)|exact Hb3|destruct Hok; lia|lia|lia].
    assert (gives id) by (by right). apply since_page; [apply since_page; [eapply since_quiet; [apply Ha|done]|..]|..]; (done || lia).
  - do 3 apply kin_pages. eapply kin_quiet; [done|apply kin_refl].
  - apply lookup_insert_eq.
  - split; [by exists b2|]. eapply trunks_frame; [exact Hf|apply Hg].
  - intros i Hi. apply elem_of_cons in Hi as [->|Hi]; [exists b2; split; [done|apply Htr]|]. rewrite (Hf i Hi).
    by apply (proj1 (list.Forall_forall _ _) (g_pages _ _ _ _ _ _ _ Hg) i).
  - rewrite Ha5. simpl. by rewrite (q_allocate _ _ _ Hq2).
  - unfold settled. rewrite Hl5. exact (settled_quiet _ _ _ Hq2 Hset).
Qed.

Lemma free_step_spec given k w :
  free_round k w -> (k <= 2)%nat ->
  wpg (free_step given id) (fun x w' => match x with None => (k < 2)%nat /\ free_round (S k) w' | Some _ => freed w' end) free_suspended E w.
Proof.
  intros (Ha & Hd & Hk & Hset) Hk2. unfold free_step. apply wpg_bind, wpg_gets. pose proof (f_at _ _ Ha) as Hat. unfold free_at in Hat.
  destruct (p_free_page_state (st_alloc w)) as [|page|page] eqn:Es; simpl in Hk.
  - eapply wpg_mono; [by apply free_start_spec|]. intros x w' (-> & H1 & H2 & H3 & H4). split; [lia|]. split_and!; try done. lia.
  - destruct Hat as [-> _]. eapply wpg_mono; [by apply add_to_trunk_spec|]. intros [[]|] w' H; [done|].
    destruct H as (H1 & H2 & H3 & H4). split; [lia|]. split_and!; try done. lia.
  - destruct Hat as [-> _]. eapply wpg_mono; [by apply new_trunk_spec|]. by intros x w' (-> & H).
Qed.

Lemma free_loop_spec given fuel k w :
  free_round k w -> (k <= 2)%nat -> (3 <= fuel + k)%nat ->
  wpg (pg_loop fuel (free_step given id)) (fun _ w' => freed w') free_suspended E w.
Proof.
  revert k w. induction fuel as [|fuel IH]; intros k w Hn Hk Hf; [lia|]. simpl. apply wpg_bind.
  eapply wpg_mono; [by apply (free_step_spec given k)|]. intros [[]|] w' H; [done|]. destruct H as [H1 H2].
  apply (IH (S k)); [done|lia|lia].
Qed.

Lemma free_page_spec given w :
  freeing n w ->
  wpg (free_page given id) (fun _ w' => freed w' /\ p_free_page_state (st_alloc w') = FreeStart) free_suspended E w.
Proof.
  intros Ha0. unfold free_page. apply wpg_bind, wpg_wait_for_reads; [by intros e; apply freeing_broken|]. intros wl Hql.
  assert (freeing n (loading_pages ∅ wl)) as Ha by (by apply freeing_loading; eapply freeing_quiet; [|exact Hql|done]).
  assert (settled (loading_pages ∅ wl)) as Hset by done. revert Ha Hset. generalize (loading_pages ∅ wl). clear w wl Ha0 Hql.
  intros w Ha Hset. destruct (g_header _ _ _ _ _ _ _ (f_good _ _ Ha)) as (b & Hb & _).
  pose proof (g_size _ _ _ _ _ _ _ (f_good _ _ Ha)). pose proof (f_script _ _ Ha) as Hl.
  assert (forall w', quiet (eq 1) w w' -> freeing n w') as Hstep by (intros w' Hq; eapply freeing_quiet; [|exact Hq|done]; lia).
  apply wpg_bind. eapply wpg_header_mut; [by intros e; apply freeing_broken|exact Hb|done| |].
  { intros l w' Hq Hs. split; [by apply freeing_loading, Hstep|]. unfold shorter in Hs. simpl. lia. }
  intros w1 Hq1 Hd1. apply wpg_bind. eapply wpg_mono.
  { apply (free_loop_spec given 3 0); [|lia|lia]. split_and!; [by apply Hstep|done|lia|by eapply settled_quiet]. }
  intros [] w2 (ts' & H1 & H2 & H3 & H4 & H5 & H6). apply wpg_on_pager. split; [|done]. exists ts'.
  split_and!; try done; [by eapply good_books; [|exact H2]|by eapply since_books; [|exact H3]].
Qed.
End Arms.
End Free.

Lemma complete_free u ps w0 size ts P id (E : LimboError -> Prop) given calls w :
  2 <= id <= size -> (id ∉ free_ids ts) -> (forall e, broken w0 e -> E e) ->
  freeing u ps w0 size ts P id (length (p_script (st_alloc w))) w ->
  wpg (complete calls (free_page given id))
    (fun _ w' => freed u ps w0 size ts P id w' /\ p_free_page_state (st_alloc w') = FreeStart)
    (fun _ => (calls <= length (p_script (st_alloc w)))%nat) E w.
Proof.
  intros Hid Hnew HE Ha.
  assert (forall w, freeing u ps w0 size ts P id (length (p_script (st_alloc w))) w ->
    wpg (free_page given id) (fun _ w' => freed u ps w0 size ts P id w' /\ p_free_page_state (st_alloc w') = FreeStart)
      (fun w' => freeing u ps w0 size ts P id (length (p_script (st_alloc w'))) w' /\ shorter w w') E w) as Hcall.
  { intros w1 Ha1. pose proof (free_page_spec u ps w0 size ts P id Hid Hnew _ E HE given w1 Ha1) as H.
    unfold wpg in *. destruct (free_page given id w1) as [[x| |e|] w']; try done.
    destruct H as [[] Hs]. split; [by split|exact Hs]. }
  pose proof (complete_spec _ _ _ _ Hcall calls w Ha) as H. unfold wpg in *.
  destruct (complete calls (free_page given id) w) as [[x| |e|] w']; try done. apply H.
Qed.
