(* ===== verification/FreelistRefines.v ===== *)
(** * The pager as a heap of pages

    [allocate_page] and [free_page] implement a heap: a set of free pages, the pages that
    are held with their contents, and the size of the database.  The theorems hold for every
    script of the cache and the files. *)
From stdpp Require Import gmap gmultiset.
From S2P Require Import Prelude Errors OnDisk Page Effects Overflow Freelist FreelistSpec.

(** ** The heap *)
Record heap := mkHeap {
  h_held : gmap Z (list Z);
  h_free : gset Z;
  h_size : Z
}.

Inductive event :=
| EAllocate (id : Z)
| EFree (id : Z)
| EWrite (id : Z) (b : list Z)
| ENewScript.

Section Heap.
Context (ps : Z) (vacuum : bool) (max : Z).

(** A free page is handed out zeroed; a page the file grows by may hold anything. *)
Inductive heap_step : heap -> event -> heap -> Prop :=
| heap_allocate held F size id :
    id ∈ F -> heap_step (mkHeap held F size) (EAllocate id)
                (mkHeap (<[id := replicate (Z.to_nat ps) 0]> held) (F ∖ {[ id ]}) size)
| heap_grow held size b :
    next_page ps vacuum size <= max -> zlen b = ps ->
    Some (next_page ps vacuum size) <> pending_byte_page_id ps ->
    (vacuum = true -> is_ptrmap_page (next_page ps vacuum size) ps = false) ->
    heap_step (mkHeap held ∅ size) (EAllocate (next_page ps vacuum size))
      (mkHeap (<[next_page ps vacuum size := b]> held) ∅ (next_page ps vacuum size))
| heap_free held F size id b :
    held !! id = Some b -> heap_step (mkHeap held F size) (EFree id) (mkHeap (delete id held) ({[ id ]} ∪ F) size)
| heap_write held F size id b b' :
    held !! id = Some b -> zlen b' = ps ->
    heap_step (mkHeap held F size) (EWrite id b') (mkHeap (<[id := b']> held) F size)
| heap_script h : heap_step h ENewScript h.

Inductive heap_run : heap -> list event -> heap -> Prop :=
| heap_run_nil h : heap_run h [] h
| heap_run_cons h h' h'' e es : heap_step h e h' -> heap_run h' es h'' -> heap_run h (e :: es) h''.
End Heap.

(** ** Runs of the pager *)

(** A user of the pager writes the pages it holds, in whatever way; each operation it starts
    it repeats until it is done. *)
Inductive pager_step : pages_store -> event -> pages_store -> Prop :=
| pager_allocates w calls id w' :
    complete calls pager_allocate_page w = (Ready id, w') -> pager_step w (EAllocate id) w'
| pager_frees w calls given id w' :
    complete calls (free_page given id) w = (Ready (), w') -> pager_step w (EFree id) w'
| pager_writes w id b cells w' :
    (cells = p_overflow_cells (st_alloc w) \/ cells = p_overflow_cells (st_alloc w) ∪ {[ id ]}) ->
    (set_dirty_pages (p_dirty_pages (st_alloc w) ∪ {[ id ]});; set_overflow_cells cells;; set_contents id b) w = (Ready (), w') ->
    pager_step w (EWrite id b) w'
| pager_new_script w s w' : set_script s w = (Ready (), w') -> pager_step w ENewScript w'.

Inductive pager_run : pages_store -> list event -> pages_store -> Prop :=
| pager_run_nil w : pager_run w [] w
| pager_run_cons w w' w'' e es : pager_step w e w' -> pager_run w' es w'' -> pager_run w (e :: es) w''.

(** The user frees and writes only what it holds. *)
Fixpoint disciplined (ps : Z) (held : gset Z) (es : list event) : Prop :=
  match es with
  | [] => True
  | EAllocate id :: es => disciplined ps ({[ id ]} ∪ held) es
  | EFree id :: es => id ∈ held /\ disciplined ps (held ∖ {[ id ]}) es
  | EWrite id b :: es => id ∈ held /\ zlen b = ps /\ disciplined ps held es
  | ENewScript :: es => disciplined ps held es
  end.

(** ** The heap a store is *)
Record represents (h : heap) (ts : list (Z * list Z)) (u : Z) (w : pages_store) : Prop := {
  r_good : good u (st_page_size w) (mapped_size (st_page_size w) (p_vacuum_full (st_alloc w)) (h_size h)) (h_size h) 0 ts w;
  r_free : h_free h = list_to_set (free_ids ts);
  r_held : h_held h ⊆ st_pages w;
  r_range : forall i b, h_held h !! i = Some b -> 2 <= i <= h_size h /\ (i ∉ free_ids ts) /\ zlen b = st_page_size w;
  r_allocate : p_allocate_page_state (st_alloc w) = AllocateStart;
  r_free_state : p_free_page_state (st_alloc w) = FreeStart
}.

Lemma represents_allocating h ts u w :
  represents h ts u w ->
  allocating u (st_page_size w) w (h_size h) ts (p_pins (st_alloc w)) (length (p_script (st_alloc w))) w.
Proof.
  intros []. split; [done|apply since_refl| |done|done]. unfold allocate_at. by rewrite r_allocate0.
Qed.

Lemma represents_freeing h ts u w id b :
  represents h ts u w -> h_held h !! id = Some b ->
  freeing u (st_page_size w) w (h_size h) ts (p_pins (st_alloc w)) id (length (p_script (st_alloc w))) w.
Proof.
  intros [] Hb. destruct (r_range0 id b Hb) as (H1 & H2 & H3). split; try done.
  - by rewrite r_free_state0.
  - apply since_refl.
  - unfold free_at. by rewrite r_free_state0.
  - exists b. split; [|done]. by eapply lookup_weaken.
Qed.

(** Held pages are not the allocator's. *)
Lemma held_not_own h ts u w i b : represents h ts u w -> h_held h !! i = Some b -> ~ own (h_size h) ts i.
Proof. intros [] Hb [->|[H|H]]; destruct (r_range0 _ _ Hb) as (H1 & H2 & _); (done || lia). Qed.

Lemma own_frees u id ts ts' : frees u ts id ts' -> free_ids ts' ≡ₚ id :: free_ids ts.
Proof.
  destruct 1 as [t ls r E _|_]; [|done]. subst. simpl. rewrite <- app_assoc. simpl. rewrite <- Permutation_middle. constructor.
Qed.

(** ** The page after the end *)
Lemma is_ptrmap_mod k ps : 2 <= k -> 0 < ptrmap_page_cycle_length ps ->
  is_ptrmap_page k ps = ((k - 2) mod ptrmap_page_cycle_length ps =? 0).
Proof.
  intros Hk Hg. unfold is_ptrmap_page, get_ptrmap_page_no_for_db_page, FIRST_PTRMAP_PAGE_NO.
  rewrite (proj2 (Z.eqb_neq k 1)) by lia. destruct (Z.eqb_spec k 2) as [->|]; [done|].
  pose proof (Z.div_mod (k - 2) (ptrmap_page_cycle_length ps) ltac:(lia)) as H.
  destruct (Z.eqb_spec ((k - 2) mod ptrmap_page_cycle_length ps) 0); [apply Z.eqb_eq|apply Z.eqb_neq]; lia.
Qed.

Lemma next_page_usable ps vacuum size :
  ps ∈ page_sizes -> 1 <= size ->
  Some (next_page ps vacuum size) <> pending_byte_page_id ps /\
  (vacuum = true -> is_ptrmap_page (next_page ps vacuum size) ps = false).
Proof.
  intros Hps Hsz. assert (1 < ptrmap_page_cycle_length ps /\
    forall k, Some k = pending_byte_page_id ps -> 2 <= k /\ is_ptrmap_page (k + 1) ps = false) as [Hg Hk].
  { unfold page_sizes in Hps. repeat (apply elem_of_cons in Hps as [->|Hps]; [split; [done|intros k Hk; vm_compute in Hk; by injection Hk as ->]|]).
    by apply not_elem_of_nil in Hps. }
  pose proof (mapped_size_le ps vacuum size). unfold next_page. case_bool_decide as Hp.
  - destruct (Hk _ Hp) as [_ Hm]. split; [|done]. rewrite <- Hp. intros E. injection E. lia.
  - split; [done|]. intros ->. unfold mapped_size in *. simpl in *. destruct (is_ptrmap_page (size + 1) ps) eqn:Em; [|done].
    rewrite is_ptrmap_mod in * by lia. apply Z.eqb_eq in Em. apply Z.eqb_neq.
    replace (size + 1 + 1 - 2) with (size + 1 - 2 + 1) by lia. rewrite Z.add_mod, Em, Z.add_0_l, Z.mod_mod, Z.mod_small; lia.
Qed.

(** ** Allocation and freeing keep the heap *)
Lemma takes_cases ps size ts vacuum max id size' ts' :
  takes ps size ts vacuum max id size' ts' ->
  (free_ids ts ≡ₚ id :: free_ids ts' /\ size' = size) \/
  (ts = [] /\ ts' = [] /\ id = next_page ps vacuum size /\ size' = id /\ next_page ps vacuum size <= max).
Proof. destruct 1 as [t l ls r E|t r E|E Hm]; subst; [left|left|right]; split_and!; try done. constructor. Qed.

Lemma represents_allocated h ts u w id w' :
  represents h ts u w ->
  allocated u (st_page_size w) w (h_size h) ts (p_pins (st_alloc w)) id w' ->
  exists h' ts', heap_step (st_page_size w) (p_vacuum_full (st_alloc w)) (p_max_page_count (st_alloc w)) h (EAllocate id) h' /\
    represents h' ts' u w' /\ dom (h_held h') = {[ id ]} ∪ dom (h_held h).
Proof.
  intros Hr (size' & ts' & Ht & Hg & Hs & Ha & Hf & _ & b & Hb & Hz & Hzero). destruct h as [held F size]. simpl in *.
  assert (forall i b, held !! i = Some b -> st_pages w' !! i = Some b) as Hkeep.
  { intros i bi Hi. rewrite (s_out _ _ _ Hs); [by eapply lookup_weaken; [|apply Hr]|].
    exact (held_not_own _ _ _ _ _ _ Hr Hi). }
  pose proof (r_free _ _ _ _ Hr) as EF. simpl in EF. pose proof (r_range _ _ _ _ Hr) as Hrange. simpl in Hrange.
  assert (exists h', heap_step (st_page_size w) (p_vacuum_full (st_alloc w)) (p_max_page_count (st_alloc w)) (mkHeap held F size) (EAllocate id) h' /\
    h_held h' = <[id := b]> held /\ h_free h' = list_to_set (free_ids ts') /\ h_size h' = size' /\
    2 <= id <= size' /\ size <= size' /\ (id ∉ free_ids ts') /\ (forall i, i ∈ free_ids ts' -> i ∈ free_ids ts)) as
    (h' & Hstep & Eheld & Efree & Esize & Hid & Hsz & Hnew & Hsub).
  { pose proof (r_good _ _ _ _ Hr) as Hg0. simpl in Hg0. pose proof (g_size _ _ _ _ _ _ _ Hg0).
    destruct (takes_cases _ _ _ _ _ _ _ _ Ht) as [(Hp & Esz)|(Ets & Ets' & Eid & Esz & Hmax)].
    - pose proof (g_nodup _ _ _ _ _ _ _ Hg0) as Hnd. pose proof (g_range _ _ _ _ _ _ _ Hg0) as Hrg. rewrite Hp in Hnd, Hrg.
      apply list.NoDup_cons in Hnd as [Hnew _]. apply Forall_cons_iff in Hrg as [Hid _]. rewrite (Hzero ltac:(intros E; rewrite E in Hp; by apply Permutation_nil_cons in Hp)).
      assert (F = {[ id ]} ∪ list_to_set (free_ids ts')) as EF' by (rewrite EF; by rewrite Hp).
      eexists. split; [apply heap_allocate; set_solver|]. simpl. subst size'. split_and!; try done; try lia; [|].
      + set_solver.
      + intros i Hi. rewrite Hp. by right.
    - subst ts ts' size' id. pose proof (next_page_lt (st_page_size w) (p_vacuum_full (st_alloc w)) size).
      pose proof (mapped_size_le (st_page_size w) (p_vacuum_full (st_alloc w)) size). simpl in EF. subst F.
      destruct (next_page_usable (st_page_size w) (p_vacuum_full (st_alloc w)) size) as [Hu1 Hu2]; [apply Hg0|lia|].
      eexists. split; [by apply (heap_grow _ _ _ held size b)|]. simpl. split_and!; try done; try lia. apply not_elem_of_nil. }
  exists h', ts'. split_and!; [done| |].
  - split; rewrite ?Eheld, ?Esize, ?(s_ps _ _ _ Hs); try done.
    + apply map_subseteq_spec. intros i bi Hi. apply lookup_insert_Some in Hi as [[<- <-]|[_ Hi]]; auto.
    + intros i bi Hi. apply lookup_insert_Some in Hi as [[<- <-]|[_ Hi]]; [done|].
      destruct (Hrange i bi Hi) as (H1 & H2 & H3). split_and!; [lia..| |done]. auto.
    + rewrite Hf. apply Hr.
  - rewrite Eheld. apply dom_insert_L.
Qed.

Lemma represents_freed h ts u w id b w' :
  represents h ts u w -> h_held h !! id = Some b ->
  freed u (st_page_size w) w (h_size h) ts (p_pins (st_alloc w)) id w' -> p_free_page_state (st_alloc w') = FreeStart ->
  exists ts', heap_step (st_page_size w) (p_vacuum_full (st_alloc w)) (p_max_page_count (st_alloc w)) h (EFree id)
      (mkHeap (delete id (h_held h)) ({[ id ]} ∪ h_free h) (h_size h)) /\
    represents (mkHeap (delete id (h_held h)) ({[ id ]} ∪ h_free h) (h_size h)) ts' u w'.
Proof.
  intros Hr Hb (ts' & Hf & Hg & Hs & Ha & _) Hfs. exists ts'. pose proof (own_frees _ _ _ _ Hf) as Hp.
  destruct h as [held F size]. simpl in *. split; [by eapply heap_free|]. split; simpl; rewrite ?(s_ps _ _ _ Hs); try done.
  - pose proof (r_free _ _ _ _ Hr) as EF. simpl in EF. by rewrite EF, Hp.
  - apply map_subseteq_spec. intros i bi Hi. apply lookup_delete_Some in Hi as [Hne Hi].
    rewrite (s_out _ _ _ Hs); [by eapply lookup_weaken; [|apply Hr]|].
    intros [Ho|Ho]; [by apply (held_not_own _ _ _ _ _ _ Hr Hi)|done].
  - intros i bi Hi. apply lookup_delete_Some in Hi as [Hne Hi]. destruct (r_range _ _ _ _ Hr i bi Hi) as (H1 & H2 & H3).
    split_and!; [apply H1|apply H1| |done]. rewrite Hp. by apply not_elem_of_cons.
  - by rewrite Ha, (r_allocate _ _ _ _ Hr).
Qed.

(** ** The user's own steps *)
Lemma represents_script h ts u w s w' :
  represents h ts u w -> set_script s w = (Ready (), w') -> represents h ts u w'.
Proof.
  intros [] Hw. injection Hw as <-. split; try done. simpl. eapply good_same; [exact r_good0|..]; simpl; try done. by left.
Qed.

Lemma represents_write h ts u w id b b' cells w' :
  represents h ts u w -> h_held h !! id = Some b -> zlen b' = st_page_size w ->
  (cells = p_overflow_cells (st_alloc w) \/ cells = p_overflow_cells (st_alloc w) ∪ {[ id ]}) ->
  (set_dirty_pages (p_dirty_pages (st_alloc w) ∪ {[ id ]});; set_overflow_cells cells;; set_contents id b') w = (Ready (), w') ->
  represents (mkHeap (<[id := b']> (h_held h)) (h_free h) (h_size h)) ts u w'.
Proof.
  intros [Hg HF Hh Hr Ha Hf] Hb Hz Hcells Hw. injection Hw as <-. destruct (Hr id b Hb) as (H1 & H2 & _).
  assert (forall i, i ∈ free_ids ts -> <[id := b']> (st_pages w) !! i = st_pages w !! i) as Hframe
    by (intros i Hi; apply lookup_insert_ne; by intros <-).
  split; simpl; try done.
  - destruct Hg. split; simpl; try done.
    + by rewrite lookup_insert_ne by lia.
    + by eapply trunks_frame.
    + by eapply pages_frame.
    + rewrite list.Forall_forall in g_cells |- *. intros i Hi. specialize (g_cells i Hi).
      destruct Hcells as [->| ->]; [done|]. intros [?|?%elem_of_singleton]%elem_of_union; [done|]. by subst.
  - by apply insert_mono.
  - intros i bi Hi. apply lookup_insert_Some in Hi as [[<- <-]|[_ Hi]]; [done|by apply (Hr i)].
Qed.

(** The parameters of a run do not change. *)
Definition same_limits (w w' : pages_store) : Prop :=
  st_page_size w' = st_page_size w /\ p_vacuum_full (st_alloc w') = p_vacuum_full (st_alloc w) /\
  p_max_page_count (st_alloc w') = p_max_page_count (st_alloc w).

Lemma since_limits F w w' : since F w w' -> same_limits w w'.
Proof. intros []. done. Qed.

Definition holds_after (e : event) (held : gset Z) : gset Z :=
  match e with EAllocate id => {[ id ]} ∪ held | EFree id => held ∖ {[ id ]} | _ => held end.

Lemma pager_step_refines h ts u w e es w' :
  represents h ts u w -> disciplined (st_page_size w) (dom (h_held h)) (e :: es) -> pager_step w e w' ->
  exists h' ts', heap_step (st_page_size w) (p_vacuum_full (st_alloc w)) (p_max_page_count (st_alloc w)) h e h' /\
    represents h' ts' u w' /\ disciplined (st_page_size w) (dom (h_held h')) es /\ same_limits w w'.
Proof.
  intros Hr Hd Hstep. destruct Hstep as [w calls id w' Hw|w calls given id w' Hw|w id b cells w' Hc Hw|w s w' Hw].
  - pose proof (complete_allocate _ _ _ _ _ _ (fun _ => True) calls _ ltac:(done) ltac:(done) (represents_allocating _ _ _ _ Hr)) as H.
    unfold wpg in H. rewrite Hw in H. destruct (represents_allocated _ _ _ _ _ _ Hr H) as (h' & ts' & H1 & H2 & H3).
    destruct H as (? & ? & _ & _ & Hs & _). exists h', ts'. rewrite H3. split_and!; try done. by eapply since_limits.
  - destruct Hd as [Hin Hd]. apply elem_of_dom in Hin as [b Hb]. destruct (r_range _ _ _ _ Hr id b Hb) as (Hid & Hnew & _).
    pose proof (complete_free _ _ _ _ _ _ id (fun _ => True) given calls _ Hid Hnew ltac:(done) (represents_freeing _ _ _ _ _ _ Hr Hb)) as H.
    unfold wpg in H. rewrite Hw in H. destruct H as [H Hfs].
    destruct (represents_freed _ _ _ _ _ _ _ Hr Hb H Hfs) as (ts' & H1 & H2). destruct H as (? & _ & _ & Hs & _).
    eexists _, ts'. split_and!; try done; simpl; [by rewrite dom_delete_L|by eapply since_limits].
  - destruct Hd as (Hin & Hz & Hd). apply elem_of_dom in Hin as [b0 Hb].
    pose proof (represents_write _ _ _ _ _ _ _ _ _ Hr Hb Hz Hc Hw) as H. eexists _, ts. split; [|split; [exact H|]].
    + destruct h. simpl in *. by eapply heap_write.
    + injection Hw as <-. simpl. rewrite dom_insert_lookup_L by done. done.
  - exists h, ts. split; [constructor|]. split; [by eapply represents_script|]. injection Hw as <-. done.
Qed.

(** C9: The pager implements a heap of pages.  Every run in which the user frees and
    writes only the pages it holds, whatever the cache and the files answer during each
    call of [allocate_page] and [free_page], is a run of the heap: an allocation gives a
    zeroed free page, or, when there is none, the page after the end of the file that is
    neither the pending-byte page nor a pointer map page; a page that is held is never
    given out again and keeps the bytes last written; the list on disk holds exactly
    the free pages, and the header their number. *)
Theorem pager_refines_heap u w es w' h ts :
  represents h ts u w -> disciplined (st_page_size w) (dom (h_held h)) es -> pager_run w es w' ->
  exists h' ts', heap_run (st_page_size w) (p_vacuum_full (st_alloc w)) (p_max_page_count (st_alloc w)) h es h' /\
    represents h' ts' u w'.
Proof.
  intros Hr Hd Hrun. revert h ts Hr Hd. induction Hrun as [w|w w1 w' e es Hstep Hrun IH]; intros h ts Hr Hd.
  - exists h, ts. split; [constructor|done].
  - destruct (pager_step_refines _ _ _ _ _ _ _ Hr Hd Hstep) as (h1 & ts1 & H1 & H2 & H3 & E1 & E2 & E3).
    rewrite <- E1 in H3. destruct (IH h1 ts1 H2 H3) as (h' & ts' & H4 & H5). rewrite E1, E2, E3 in H4.
    exists h', ts'. split; [by econstructor|done].
Qed.

(** C35: An operation on the list of free pages ends, and cleans up when it succeeds.  Called
    again after each wait, more often than the script of the cache and the files has
    answers, [allocate_page] and [free_page] return; they never fail an assertion, that a
    page is loaded included, and fail only with an error the script has, in a read they waited
    for too, or with [DatabaseFull] when no page is free and the file may not grow.  When they
    succeed every page they changed is marked dirty, the pages of others are as they
    were, page 1 is changed only in its size and free-list fields, and the pages have the
    pins they had.  After a failure the pins that were taken stay taken. *)
Theorem freelist_operations_end h ts u w calls :
  represents h ts u w -> (length (p_script (st_alloc w)) < calls)%nat ->
  match complete calls pager_allocate_page w with
  | (Ready id, w') => since (own (h_size h) ts) w w' /\ p_pins (st_alloc w') = p_pins (st_alloc w)
  | (Fails e, _) => broken w e \/
      e = DatabaseFull /\ h_free h = ∅ /\
      p_max_page_count (st_alloc w) < next_page (st_page_size w) (p_vacuum_full (st_alloc w)) (h_size h)
  | _ => False
  end /\
  forall id given, is_Some (h_held h !! id) ->
  match complete calls (free_page given id) w with
  | (Ready _, w') => since (fun i => own (h_size h) ts i \/ i = id) w w' /\ p_pins (st_alloc w') = p_pins (st_alloc w)
  | (Fails e, _) => broken w e
  | _ => False
  end.
Proof.
  intros Hr Hl. split.
  - set (E := fun e => broken w e \/ e = DatabaseFull /\ h_free h = ∅ /\
      p_max_page_count (st_alloc w) < next_page (st_page_size w) (p_vacuum_full (st_alloc w)) (h_size h)).
    assert (ts = [] -> p_max_page_count (st_alloc w) < next_page (st_page_size w) (p_vacuum_full (st_alloc w)) (h_size h) ->
      E DatabaseFull) as HF by (intros Ets Hm; right; split_and!; try done; by rewrite (r_free _ _ _ _ Hr), Ets).
    pose proof (complete_allocate _ _ _ _ _ _ E calls _ ltac:(by left) HF (represents_allocating _ _ _ _ Hr)) as H.
    unfold wpg in H. destruct (complete calls pager_allocate_page w) as [[id| |e|] w']; try done; [|lia].
    destruct H as (? & ? & _ & _ & Hs & _ & _ & Hp & _). done.
  - intros id given [b Hb]. destruct (r_range _ _ _ _ Hr id b Hb) as (Hid & Hnew & _).
    pose proof (complete_free _ _ _ _ _ _ id (broken w) given calls _ Hid Hnew ltac:(done) (represents_freeing _ _ _ _ _ _ Hr Hb)) as H.
    unfold wpg in H. destruct (complete calls (free_page given id) w) as [[[]| |e|] w']; try done; [|lia].
    destruct H as ((ts' & _ & _ & Hs & _ & Hp & _) & _). done.
Qed.

(** ** An example: a file of three pages of which the user holds two *)
Definition example_page1 : list Z :=
  splice (splice (header_bytes DatabaseHeader_default ++ replicate 412 0) 16 (be_encode 2 512)) 28 (be_encode 4 3).
Definition example_store : pages_store :=
  mkStore (mkPager 100 false HeaderStart AllocateStart FreeStart ∅ {[ 1; 2 ]} ∅ ∅ {[ 3 ]} (fun _ => replicate 512 7)
             [Spilling {[ 2 ]}; Loading ∅; Now ∅; Spilling ∅; Loading {[ 1 ]}; Now ∅; Loading ∅])
    (<[1 := example_page1]> (<[2 := replicate 512 5]> {[ 3 := replicate 512 6 ]})) 512.
Definition example_heap : heap := mkHeap (<[2 := replicate 512 5]> {[ 3 := replicate 512 6 ]}) ∅ 3.
Definition example_events : list event := [EFree 3; EFree 2; EAllocate 2; EWrite 2 (replicate 512 1); EAllocate 3; EAllocate 4].

Definition run_event (w : pages_store) (e : event) : option pages_store :=
  match e with
  | EAllocate id => match complete 9 pager_allocate_page w with (Ready id', w') => if id =? id' then Some w' else None | _ => None end
  | EFree id => match complete 9 (free_page true id) w with (Ready _, w') => Some w' | _ => None end
  | EWrite id b =>
      Some ((set_dirty_pages (p_dirty_pages (st_alloc w) ∪ {[ id ]});; set_overflow_cells (p_overflow_cells (st_alloc w));; set_contents id b) w).2
  | ENewScript => None
  end.

Lemma run_event_step w e w' : run_event w e = Some w' -> pager_step w e w'.
Proof.
  destruct e as [id|id|id b|]; cbn [run_event]; intros H; [| | |done].
  - destruct (complete 9 pager_allocate_page w) as [[id'| |e|] w1] eqn:E; try done.
    destruct (Z.eqb_spec id id') as [<-|]; [|done]. injection H as <-. by eapply pager_allocates.
  - destruct (complete 9 (free_page true id) w) as [[[]| |e|] w1] eqn:E; try done. injection H as <-. by eapply pager_frees.
  - injection H as <-. eapply pager_writes; [by left|]. done.
Qed.

Lemma run_events_run es : forall w w', foldl (fun r e => r ≫= fun w => run_event w e) (Some w) es = Some w' -> pager_run w es w'.
Proof.
  induction es as [|e es IH]; intros w w' H; [injection H as <-; constructor|]. cbn [foldl mbind option_bind] in H.
  destruct (run_event w e) as [w1|] eqn:E.
  - econstructor; [by apply run_event_step|]. by apply IH.
  - exfalso. clear -H. induction es; [done|]. auto.
Qed.

Lemma example_represents : represents example_heap [] 512 example_store.
Proof.
  split; try done.
  - split; try done; simpl; try lia.
    + left.
    + exists example_page1. split; [done|]. vm_compute. done.
    + constructor.
    + unfold mapped_size. simpl. intros i Hi. apply elem_of_union in Hi as [Hi|Hi]; apply elem_of_singleton in Hi; lia.
  - apply (bool_decide_unpack _). vm_compute. exact I.
  - intros i b Hi. unfold example_heap, h_held in Hi. apply lookup_insert_Some in Hi as [[<- <-]|[_ Hi]]; [|apply lookup_singleton_Some in Hi as [<- <-]];
      (split; [simpl; lia|split; [apply not_elem_of_nil|done]]).
Qed.

Lemma pager_refines_heap_witness :
  exists w' h' ts', pager_run example_store example_events w' /\
    heap_run 512 false 100 example_heap example_events h' /\ represents h' ts' 512 w'.
Proof.
  destruct (foldl (fun r e => r ≫= fun w => run_event w e) (Some example_store) example_events) as [w'|] eqn:E;
    [|by vm_compute in E].
  apply run_events_run in E. exists w'.
  destruct (pager_refines_heap 512 example_store example_events w' example_heap []) as (h' & ts' & H1 & H2).
  - exact example_represents.
  - simpl. split_and!; set_solver.
  - exact E.
  - exists h', ts'. done.
Defined.

Lemma freelist_operations_end_witness :
  match complete 9 (free_page true 3) example_store with
  | (Ready _, w') =>
      since (fun i => own (h_size example_heap) [] i \/ i = 3) example_store w' /\
      p_pins (st_alloc w') = p_pins (st_alloc example_store)
  | (Fails e, _) => broken example_store e
  | _ => False
  end.
Proof.
  destruct (freelist_operations_end example_heap [] 512 example_store 9) as [_ H].
  - exact example_represents.
  - simpl. lia.
  - apply (H 3 true). exists (replicate 512 6). done.
Defined.

(** ** The pages a database grows over *)
Section Growth.
Context (u ps : Z) (w0 : pages_store) (size : Z) (P : gmultiset Z) (n : nat) (E : LimboError -> Prop).
Context (HE : forall e, broken w0 e -> E e).

#[local] Abbreviation vacuum w := (p_vacuum_full (st_alloc w)).
#[local] Abbreviation allocating := (allocating u ps w0 size [] P n).









Context (HF : p_max_page_count (st_alloc w0) < next_page ps (vacuum w0) size -> E DatabaseFull).



End Growth.




