(* ===== verification/OverflowFree.v ===== *)
(** * Payloads on pages of the free list

    [Freelist] discharges the interface through which [Overflow] allocates pages, and
    [clear_overflow_pages] gives the pages of a chain back: a payload that is written and
    cleared leaves the pager with exactly the pages it had, and those the file grew by. *)
From stdpp Require Import gmap gmultiset.
From S2P Require Import Prelude Errors Varint OnDisk Intervals Page Cells FreeSpace PageLayout PageCells CellFormat.
From S2P Require Import Effects Overflow OverflowRead Freelist FreelistSpec FreelistRefines.

(** ** What belongs to the allocator decides what it does *)
Lemma good_own u ps lim size extra ts w w' :
  same_own (own size ts) w w' -> good u ps lim size extra ts w -> good u ps lim size extra ts w'.
Proof.
  intros (Ea & Es & Ep) []. assert (forall i, i ∈ free_ids ts -> st_pages w' !! i = st_pages w !! i) as Hf
    by (intros i Hi; apply Ep; right; by left).
  split; rewrite ?Ea, ?Es; try done.
  - rewrite Ep by (by left). done.
  - by eapply trunks_frame.
  - by eapply pages_frame.
Qed.

Lemma allocating_own u ps w0 w w' size ts P n :
  same_own (own size ts) w w' -> allocating u ps w0 size ts P n w -> allocating u ps w' size ts P n w'.
Proof.
  intros Hs [Hg _ Ha Hf Hl]. pose proof (good_own _ _ _ _ _ _ _ _ Hs Hg) as Hg'. destruct Hs as (Ea & Es & Ep). split.
  - by rewrite Ea.
  - apply since_refl.
  - unfold allocate_at in *. by rewrite Ea.
  - done.
  - by rewrite Ea.
Qed.

Definition no_errors (w : pages_store) : Prop := forall e, ~ broken w e.

(** ** The pages that are handed out *)
Section Supply.
Context (u ps : Z) (vacuum : bool).

Definition allocate_next (size : Z) (ts : list (Z * list Z)) : Z * (Z * list (Z * list Z)) :=
  match ts with
  | [] => (next_page ps vacuum size, (next_page ps vacuum size, []))
  | (t, []) :: r => (t, (size, r))
  | (t, l :: ls) :: r => (l, (size, (t, ls) :: r))
  end.

Fixpoint allocate_ids (m : nat) (size : Z) (ts : list (Z * list Z)) : list Z :=
  match m with
  | O => []
  | S m => let '(id, (size, ts)) := allocate_next size ts in id :: allocate_ids m size ts
  end.
Fixpoint allocate_rest (m : nat) (size : Z) (ts : list (Z * list Z)) : Z * list (Z * list Z) :=
  match m with
  | O => (size, ts)
  | S m => let '(id, (size, ts)) := allocate_next size ts in allocate_rest m size ts
  end.

Lemma takes_next size ts max id size' ts' :
  takes ps size ts vacuum max id size' ts' -> allocate_next size ts = (id, (size', ts')).
Proof. by destruct 1; subst. Qed.

Lemma next_page_le size : next_page ps vacuum size <= size + 3.
Proof. pose proof (mapped_size_le ps vacuum size). unfold next_page. case_bool_decide; lia. Qed.

Lemma takes_own size ts max id size' ts' w lim :
  good u ps lim size 0 ts w -> takes ps size ts vacuum max id size' ts' ->
  own size ts id /\ ~ own size' ts' id /\ (forall i, own size' ts' i -> own size ts i) /\ 2 <= id <= size' /\ size <= size' <= size + 3 /\
  (forall i, i ∈ free_ids ts \/ i = id <-> i ∈ free_ids ts' \/ i = id).
Proof.
  intros Hg Ht. pose proof (g_size _ _ _ _ _ _ _ Hg). pose proof (next_page_le size). pose proof (next_page_lt ps vacuum size).
  pose proof (mapped_size_le ps vacuum size).
  destruct (takes_cases _ _ _ _ _ _ _ _ Ht) as [(Hp & ->)|(-> & -> & -> & -> & _)].
  - pose proof (g_nodup _ _ _ _ _ _ _ Hg) as Hnd. pose proof (g_range _ _ _ _ _ _ _ Hg) as Hr. rewrite Hp in Hnd, Hr.
    apply list.NoDup_cons in Hnd as [Hnew _]. apply Forall_cons_iff in Hr as [Hid _]. unfold own.
    assert (forall i, i ∈ free_ids ts <-> i = id \/ i ∈ free_ids ts') as Hin by (intros i; by rewrite Hp, elem_of_cons).
    split_and!; try lia; [right; left; apply (proj2 (Hin id)); by left|intros [?|[?|?]]; [lia|done|lia]| |].
    + intros i [?|[?|?]]; [by left|right; left; apply (proj2 (Hin i)); by right|right; right; lia].
    + intros i. rewrite Hin. tauto.
  - unfold own. split; [lia|]. split; [intros [?|[Hx|?]]; [lia|by apply not_elem_of_nil in Hx|lia]|].
    split; [|split; [lia|split; [lia|done]]]. intros i [?|[Hx|?]]; [by left|by apply not_elem_of_nil in Hx|right; right; lia].
Qed.

Lemma allocate_next_cases size ts id size' ts' :
  allocate_next size ts = (id, (size', ts')) ->
  (free_ids ts ≡ₚ id :: free_ids ts' /\ size' = size) \/
  (ts = [] /\ ts' = [] /\ id = size' /\ size' = next_page ps vacuum size).
Proof.
  destruct ts as [|[t [|l ls]] r]; simpl; intros E; injection E as <- <- <-; [by right|by left|left; split; [constructor|done]].
Qed.

(** The pages the file skips when it grows. *)
Definition reserved (i : Z) : Prop := Some i = pending_byte_page_id ps \/ (vacuum = true /\ is_ptrmap_page i ps = true).

Lemma next_page_skips size i : size < i < next_page ps vacuum size -> reserved i.
Proof.
  unfold next_page, mapped_size, reserved. case_bool_decide as Hp; destruct vacuum; simpl in *.
  all: destruct (is_ptrmap_page (size + 1) ps) eqn:Em; intros Hi.
  all: try (assert (i = size + 1 \/ i = size + 2) as [->| ->] by lia). all: try lia; auto.
  all: try (left; by replace (size + 2) with (size + 1 + 1) by lia).
Qed.

Lemma allocate_all m : ps ∈ page_sizes -> forall size ts, 1 <= size -> let rest := allocate_rest m size ts in let ids := allocate_ids m size ts in
  size <= rest.1 <= size + 3 * Z.of_nat m /\ (forall i, i ∈ ids -> i ∈ free_ids ts \/ (size < i <= rest.1 /\ ~ reserved i)) /\
  (forall i, i ∈ free_ids rest.2 -> i ∈ free_ids ts) /\ (forall i, i ∈ free_ids ts -> i ∈ ids \/ i ∈ free_ids rest.2) /\
  (forall i, size < i <= rest.1 -> i ∈ ids \/ reserved i).
Proof.
  intros Hps. induction m as [|m IH]; intros size ts Hsize rest ids.
  - simpl. split; [lia|]. split; [intros i Hi; by apply not_elem_of_nil in Hi|]. split; [done|]. split; [by right|lia].
  - unfold rest, ids. cbn [allocate_rest allocate_ids]. destruct (allocate_next size ts) as [id [size' ts']] eqn:En.
    apply allocate_next_cases in En.
    assert (size <= size' <= size + 3 /\ (id ∈ free_ids ts \/ (size < id <= size' /\ ~ reserved id)) /\ (forall i, i ∈ free_ids ts' -> i ∈ free_ids ts) /\
      (forall i, i ∈ free_ids ts -> i = id \/ i ∈ free_ids ts') /\ (forall i, size < i <= size' -> i = id \/ reserved i)) as (H1 & H2 & H3 & H4 & H5).
    { destruct En as [[Hp ->]|(-> & -> & -> & ->)].
      - split; [lia|]. rewrite Hp. split; [left; constructor|]. split; [intros i; rewrite Hp; by right|].
        split; [|lia]. intros i. rewrite Hp. apply elem_of_cons.
      - pose proof (next_page_le size). pose proof (next_page_lt ps vacuum size). pose proof (mapped_size_le ps vacuum size).
        split; [lia|]. split; [right; split; [lia|]|].
        { destruct (next_page_usable ps vacuum size Hps Hsize) as [Hu1 Hu2]. intros [?|[Hv Hm]]; [done|]. specialize (Hu2 Hv). congruence. }
        split; [done|]. split; [intros i Hi; by apply not_elem_of_nil in Hi|].
        intros i Hi. destruct (Z.eq_dec i (next_page ps vacuum size)); [by left|right; apply (next_page_skips size); lia]. }
    assert (1 <= size') as Hsize' by lia. specialize (IH size' ts' Hsize') as (Hsz & Hin & Hsub & Hsup & Hnew).
    split; [lia|]. split; [|split; [auto|split]].
    + intros i [->|Hi]%elem_of_cons; [destruct H2 as [|[]]; [by left|right; split; [lia|done]]|].
      destruct (Hin i Hi) as [|[]]; [auto|right; split; [lia|done]].
    + intros i Hi. rewrite elem_of_cons. destruct (H4 i Hi) as [->|Hi']; [auto|]. destruct (Hsup i Hi'); auto.
    + intros i Hi. rewrite elem_of_cons. destruct (Z_le_gt_dec i size'); [destruct (H5 i); auto; lia|]. destruct (Hnew i); auto. lia.
Qed.

Lemma allocate_nodup m : ps ∈ page_sizes -> forall size ts, 1 <= size ->
  NoDup (free_ids ts) -> Forall (fun i => i <= size) (free_ids ts) ->
  NoDup (allocate_ids m size ts ++ free_ids (allocate_rest m size ts).2).
Proof.
  intros Hps. induction m as [|m IH]; intros size ts Hsize Hnd Hle; [done|]. cbn [allocate_rest allocate_ids].
  destruct (allocate_next size ts) as [id [size' ts']] eqn:En. apply allocate_next_cases in En.
  assert (size <= size' /\ id <= size' /\ NoDup (free_ids ts') /\ (id ∉ free_ids ts') /\ Forall (fun i => i <= size') (free_ids ts')) as (H1 & H2 & H3 & H4 & H5).
  { destruct En as [[Hp ->]|(-> & -> & -> & ->)].
    - rewrite Hp in Hnd, Hle. apply list.NoDup_cons in Hnd as []. apply Forall_cons_iff in Hle as []. split_and!; (done || lia).
    - pose proof (next_page_lt ps vacuum size). pose proof (mapped_size_le ps vacuum size). split_and!; (done || lia || constructor || apply not_elem_of_nil). }
  assert (1 <= size') as Hsize' by lia. destruct (allocate_all m Hps size' ts' Hsize') as (Hsz & Hin & Hsub & _).
  constructor; [|by apply IH]. rewrite elem_of_app. intros [Hi|Hi]; [destruct (Hin id Hi); [done|lia]|auto].
Qed.

Lemma allocate_ids_length m : forall size ts, length (allocate_ids m size ts) = m.
Proof. induction m as [|m IH]; intros size ts; [done|]. simpl. destruct (allocate_next size ts) as [? []]. simpl. by rewrite IH. Qed.

(** The state the allocator is left in. *)
Definition left_over (n : nat) (P : gmultiset Z) (rest : Z * list (Z * list Z)) (F : Z -> Prop) (w : pages_store) : Prop :=
  F = own rest.1 rest.2 /\ allocating u ps w rest.1 rest.2 P n w /\
  p_allocate_page_state (st_alloc w) = AllocateStart /\ p_free_page_state (st_alloc w) = FreeStart /\ no_errors w.

Lemma supply m : forall n w size ts P,
  allocating u ps w size ts P n w -> p_vacuum_full (st_alloc w) = vacuum -> p_free_page_state (st_alloc w) = FreeStart ->
  no_errors w -> size + 3 * Z.of_nat m <= p_max_page_count (st_alloc w) ->
  (m = 0%nat -> p_allocate_page_state (st_alloc w) = AllocateStart) ->
  supplies (left_over n P (allocate_rest m size ts)) n (own size ts) w (allocate_ids m size ts).
Proof.
  induction m as [|m IHm]; [intros; by apply supplies_nil; unfold left_over; auto|].
  induction n as [n IHn] using lt_wf_ind. intros w size ts P Ha Hv Hf Hne Hroom _.
  pose proof (allocate_page_spec u ps w size ts P n (fun _ => False)) as Hcall.
  specialize (Hcall Hne). specialize (Hcall ltac:(intros Ets Hm; rewrite Hv in Hm; pose proof (next_page_le size); lia) w Ha).
  unfold wpg in Hcall. destruct (pager_allocate_page w) as [[id| |e|] w'] eqn:Ew; try done.
  - destruct Hcall as (size' & ts' & Ht & Hg & Hs & Hst & Hfr & Hp & _). rewrite Hv in Ht.
    destruct (takes_own _ _ _ _ _ _ _ _ (a_good _ _ _ _ _ _ _ _ Ha) Ht) as (H1 & H2 & H3 & H4 & H5 & _).
    cbn [allocate_ids allocate_rest]. rewrite (takes_next _ _ _ _ _ _ Ht).
    eapply supplies_done; [exact Ew|split; apply Hs|exact H1|exact H2|exact H3|]. intros w'' Hown.
    assert (length (p_script (st_alloc w'')) <= n)%nat as Hl.
    { destruct Hown as (-> & _). pose proof (suffix_length _ _ (s_script _ _ _ Hs)). pose proof (a_script _ _ _ _ _ _ _ _ Ha). lia. }
    assert (allocating u ps w' size' ts' P n w') as Ha'.
    { split; [done|apply since_refl|by unfold allocate_at; rewrite Hst|done|by destruct Hown as (<- & _)]. }
    destruct Hown as (Ea & Es & Ep) eqn:?. apply IHm; rewrite ?Ea.
    + by eapply allocating_own.
    + by rewrite (s_vacuum _ _ _ Hs).
    + by rewrite Hfr.
    + intros e He. apply (Hne e). eapply broken_since; [exact Hs|]. unfold broken in *. by rewrite Ea in He.
    + rewrite (s_max _ _ _ Hs). lia.
    + done.
  - destruct Hcall as [Ha' Hl]. destruct n as [|n]; [lia|].
    assert (exists id ids, allocate_ids (S m) size ts = id :: ids) as (id & ids & Eids)
      by (cbn [allocate_ids]; destruct (allocate_next size ts) as [? []]; by eexists _, _).
    rewrite Eids. eapply supplies_io; [exact Ew|split; apply Ha'|]. intros w'' Hown. rewrite <- Eids.
    pose proof (allocating_own _ _ _ _ _ _ _ _ _ Hown Ha') as Ha''. pose proof (a_since _ _ _ _ _ _ _ _ Ha') as Hs.
    destruct Hown as (Ea & Es & Ep).
    assert (allocating u ps w'' size ts P n w'') as Hn by (destruct Ha''; split; try done; rewrite Ea; lia).
    eapply supplies_mono; [|done|apply (IHn n); [lia|exact Hn|..]]; rewrite ?Ea.
    + intros F w3 (E1 & [] & E3). split; [done|]. split; [|done]. split; try done. lia.
    + by rewrite (s_vacuum _ _ _ Hs).
    + rewrite (a_free _ _ _ _ _ _ _ _ Ha'). done.
    + intros e He. apply (Hne e). eapply broken_since; [exact Hs|]. unfold broken in *. by rewrite Ea in He.
    + by rewrite (s_max _ _ _ Hs).
    + done.
Qed.
End Supply.

(** ** Freeing a chain *)

(** The first words of the pages link them. *)
Fixpoint next_words (held : gmap Z (list Z)) (ids : list Z) : Prop :=
  match ids with
  | [] => True
  | id :: ids => (exists b, held !! id = Some b /\ u32 b 0 = default 0 (head ids)) /\ (id ∉ ids) /\ next_words held ids
  end.

Fixpoint release (ids : list Z) (h : heap) : heap :=
  match ids with
  | [] => h
  | id :: ids => release ids (mkHeap (delete id (h_held h)) ({[ id ]} ∪ h_free h) (h_size h))
  end.

Lemma next_words_delete held id ids : (id ∉ ids) -> next_words held ids -> next_words (delete id held) ids.
Proof.
  induction ids as [|i ids IH]; [done|]. intros Hn ((b & Hb & Hw) & Hi & Hr). apply not_elem_of_cons in Hn as [Hne Hn].
  split; [exists b; by rewrite lookup_delete_ne|auto].
Qed.

Lemma represents_quiet X h ts u w w' :
  (forall i, X i -> i <= h_size h) -> quiet X w w' -> represents h ts u w -> represents h ts u w'.
Proof.
  intros HX Hq []. split; rewrite ?(q_page_size _ _ _ Hq), ?(q_pages _ _ _ Hq), ?(q_vacuum _ _ _ Hq); try done.
  - eapply good_quiet; [|reflexivity|exact Hq|done]. intros i Hi. pose proof (mapped_size_le (st_page_size w) (p_vacuum_full (st_alloc w)) (h_size h)).
    specialize (HX i Hi). lia.
  - by rewrite (q_allocate _ _ _ Hq).
  - by rewrite (q_free _ _ _ Hq).
Qed.

Lemma represents_loading l h ts u w : represents h ts u w -> represents h ts u (loading_pages l w).
Proof. intros [Hg]. split; try done. eapply good_books; [|exact Hg]. done. Qed.

Lemma since_trans F w0 w1 w2 : since F w0 w1 -> since F w1 w2 -> since F w0 w2.
Proof.
  intros [] []. split; try congruence; try (by etrans).
  - intros i Hi. rewrite s_out0, s_out; auto.
  - intros i. destruct (s_dirty0 i) as [->|]; [|by right]. destruct (s_dirty i) as [->|]; [by left|right; by apply s_grow0].
  - intros b0 Hb0. destruct (s_header b0 Hb0) as (b1 & Hb1 & Hz1 & Hh1). destruct (s_header0 b1 Hb1) as (b2 & Hb2 & Hz2 & Hh2).
    exists b2. split_and!; [done|lia|]. intros i Hi. rewrite Hh2, Hh1; auto.
Qed.

(** A free that is under way can be looked at from where it is. *)
Lemma freeing_here u ps w0 size ts P id n w : freeing u ps w0 size ts P id n w -> freeing u ps w size ts P id (length (p_script (st_alloc w))) w.
Proof. intros []. split; try done. apply since_refl. Qed.

Lemma freed_from u ps w0 w size ts P id n w' :
  freeing u ps w0 size ts P id n w -> freed u ps w size ts P id w' -> freed u ps w0 size ts P id w'.
Proof.
  intros [] (ts' & H1 & H2 & H3 & H4 & H5 & H6). exists ts'. split_and!; try done; [by eapply since_trans|congruence].
Qed.

Lemma freeing_from u ps w0 w size ts P id n m w' :
  freeing u ps w0 size ts P id n w -> freeing u ps w size ts P id m w' ->
  freeing u ps w0 size ts P id (length (p_script (st_alloc w'))) w'.
Proof. intros [] []. split; try done; [by eapply since_trans|congruence|congruence]. Qed.

Section Clear.
Context (u : Z) (first : option Z) (P : gmultiset Z) (E : LimboError -> Prop) (len : nat).

(** Where an operation on the chain [ids] is; [w0] is the store in which it began to free the
    page at hand. *)
Inductive clearing (h : heap) (ts : list (Z * list Z)) (w : pages_store) : list Z -> OverflowState -> Prop :=
| clearing_start id ids :
    represents h ts u w -> p_pins (st_alloc w) = P -> first = Some id -> clearing h ts w (id :: ids) OverflowStart
| clearing_read id ids : represents h ts u w -> p_pins (st_alloc w) = P -> clearing h ts w (id :: ids) (ReadNext id)
| clearing_page w0 id ids :
    represents h ts u w0 -> p_pins (st_alloc w0) = P -> (forall e, broken w0 e -> E e) ->
    freeing u (st_page_size w0) w0 (h_size h) ts P id (length (p_script (st_alloc w))) w ->
    clearing h ts w (id :: ids) (ProcessPage id)
| clearing_done : represents h ts u w -> p_pins (st_alloc w) = P -> clearing h ts w [] OverflowDone.

Definition clear_rank (s : OverflowState) (ids : list Z) : nat :=
  match s with ProcessPage _ => 2 * length ids | OverflowDone => 1 | _ => S (2 * length ids) end.

(** The heap the operation ends with is [h']. *)
Definition goes_on (h' : heap) (s : OverflowState) (w : pages_store) : Prop :=
  exists h ts ids, clearing h ts w ids s /\ next_words (h_held h) ids /\ release ids h = h' /\ (length ids <= len)%nat.

Definition clear_post (h' : heap) (w : pages_store) (r : poll () * OverflowState * pages_store) : Prop :=
  match r with
  | (Ready (), s, w') => s = OverflowStart /\ (exists ts, represents h' ts u w') /\ p_pins (st_alloc w') = P
  | (Waits, s, w') => goes_on h' s w' /\ shorter w w' /\ (forall e, broken w' e -> broken w e)
  | (Fails e, _, _) => E e
  | (Crashes, _, _) => False
  end.

Lemma clear_post_mono h' w w1 r :
  p_script (st_alloc w1) `suffix_of` p_script (st_alloc w) -> clear_post h' w1 r -> clear_post h' w r.
Proof.
  intros Hq. pose proof (suffix_length _ _ Hq) as Hl. destruct r as [[[[]| |e|] s] w']; simpl; try done.
  intros (H1 & H2 & H3). split; [done|]. unfold shorter, broken in *. split; [lia|]. intros e He.
  destruct Hq as [p ->]. apply elem_of_app. right. by apply H3.
Qed.

(** The page at the head of the rest of the chain is a page of the database. *)
Lemma read_overflow_spec h ts w id ids cache (Q : Z * option bool -> pages_store -> Prop) (W : pages_store -> Prop) :
  represents h ts u w -> next_words (h_held h) (id :: ids) -> cache = None \/ cache = Some (h_size h) ->
  (forall e, broken w e -> E e) -> settled w ->
  (forall l w', quiet (fun i => i = 1 \/ i = id) w w' -> shorter w w' -> W (loading_pages l w')) ->
  (forall w', quiet (fun i => i = 1 \/ i = id) w w' -> Q (h_size h, Some false) w') ->
  (forall l w', quiet (fun i => i = 1 \/ i = id) w w' -> shorter w w' -> Q (h_size h, Some true) (loading_pages l w')) ->
  wpg (read_overflow cache id) Q W E w.
Proof.
  intros Hr ((b & Hb & _) & _) Hcache HE Hset HW HQ HL. destruct (r_range _ _ _ _ Hr id b Hb) as (Hid & _ & Hz).
  unfold read_overflow. apply wpg_bind.
  assert (forall w1, quiet (eq 1) w w1 -> wpg (if valid_overflow_page_id id (h_size h)
     then pending ← read_page id; mret (h_size h, Some pending) else mret (h_size h, None)) Q W E w1) as Hread.
  { intros w1 Hq1. unfold valid_overflow_page_id. rewrite (proj2 (Z.leb_le 2 id)), (proj2 (Z.leb_le id _)) by lia. simpl.
    apply wpg_bind. assert (quiet (fun i => i = 1 \/ i = id) w w1) as Hq by (eapply quiet_weaken; [|exact Hq1]; auto).
    assert (forall w2, quiet (eq id) w1 w2 -> quiet (fun i => i = 1 \/ i = id) w w2) as Htrans.
    { intros w2 Hq2. eapply quiet_trans; [done|]. eapply quiet_weaken; [|exact Hq2]. intros i <-. by right. }
    assert (forall w2, shorter w1 w2 -> shorter w w2) as Hsh
      by (intros w2; pose proof (suffix_length _ _ (q_script _ _ _ Hq1)); unfold shorter; lia).
    eapply wpg_read_page; [| |lia| | |].
    - intros e He. apply HE. by eapply broken_quiet.
    - rewrite (q_pages _ _ _ Hq1). by eapply lookup_weaken; [|apply Hr].
    - intros w2 Hq2 Hs2. rewrite <- (loading_same w2). apply HW; [by apply Htrans, quiet_any|by apply Hsh].
    - intros w2 Hq2 _. by apply wpg_ret, HQ, Htrans.
    - intros l w2 Hq2 _ Hs2. apply wpg_ret, HL; [by apply Htrans|by apply Hsh]. }
  destruct Hcache as [->| ->]; [|apply wpg_ret, Hread, quiet_refl]. simpl.
  destruct (g_header _ _ _ _ _ _ _ (r_good _ _ _ _ Hr)) as (b1 & Hb1 & Hok).
  apply wpg_bind. eapply wpg_read_header_page; [done|exact Hb1|done| |].
  { intros l w1 Hq1. apply HW. eapply quiet_weaken; [|exact Hq1]. auto. }
  intros w1 Hq1. apply wpg_bind. eapply wpg_header; [by rewrite (q_pages _ _ _ Hq1)|]. apply wpg_ret.
  pose proof (ps_range _ _ _ _ _ _ _ (r_good _ _ _ _ Hr)) as Hps. assert (512 <= st_page_size w) as Hps' by lia.
  destruct (header_fields _ _ _ _ _ _ Hps' Hok) as (-> & _).
  by apply Hread.
Qed.

Lemma clear_read h ts w id ids cache s k h' :
  represents h ts u w -> p_pins (st_alloc w) = P -> settled w -> next_words (h_held h) (id :: ids) ->
  cache = None \/ cache = Some (h_size h) -> (forall e, broken w e -> E e) -> release (id :: ids) h = h' -> (length (id :: ids) <= len)%nat ->
  (forall w', represents h ts u w' -> p_pins (st_alloc w') = P -> clearing h ts w' (id :: ids) s) ->
  (forall w', clearing h ts w' (id :: ids) (ProcessPage id) -> p_script (st_alloc w') `suffix_of` p_script (st_alloc w) -> settled w' ->
    clear_post h' w' (k (Some (h_size h)) (ProcessPage id) w')) ->
  clear_post h' w
    (match read_overflow cache id w with
     | (Ready (size, Some pending), w) =>
         if pending : bool then (Waits, ProcessPage id, w) else k (Some size) (ProcessPage id) w
     | (Ready (_, None), w) => (Fails Corrupt, OverflowStart, w)
     | (Waits, w) => (Waits, s, w)
     | (Fails e, w) => (Fails e, s, w)
     | (Crashes, w) => (Crashes, s, w)
     end).
Proof.
  intros Hr Hp Hset Hw Hc HE Hrel Hlen Hs Hk. pose proof Hw as ((b & Hb & _) & _). destruct (r_range _ _ _ _ Hr id b Hb) as (Hid & _).
  set (X := fun i => i = 1 \/ i = id).
  assert (forall l w', quiet X w w' -> let w' := loading_pages l w' in
    represents h ts u w' /\ p_pins (st_alloc w') = P /\ forall e, broken w' e -> broken w e) as Hkeep.
  { intros l w' Hq. split_and!; [apply represents_loading; eapply represents_quiet; [|exact Hq|done]|simpl; by rewrite (q_pins _ _ _ Hq)|].
    - intros i [->| ->]; lia.
    - intros e He. by apply (broken_quiet _ _ _ _ Hq). }
  assert (forall l w', quiet X w w' -> clearing h ts (loading_pages l w') (id :: ids) (ProcessPage id)) as Hpage.
  { intros l w' Hq. destruct (Hkeep l w' Hq) as (H1 & H2 & H3). apply (clearing_page _ _ _ (loading_pages l w')); try done; [by auto|].
    rewrite <- H2. by eapply represents_freeing. }
  assert (wpg (read_overflow cache id)
    (fun r w' => exists p, r = (h_size h, Some p) /\
       if p : bool then exists l w1, w' = loading_pages l w1 /\ quiet X w w1 /\ shorter w w1 else quiet X w w')
    (fun w' => exists l w1, w' = loading_pages l w1 /\ quiet X w w1 /\ shorter w w1) E w) as Hread.
  { eapply read_overflow_spec; try done.
    - intros l w' Hq Hsh. by exists l, w'.
    - intros w' Hq. by exists false.
    - intros l w' Hq Hsh. exists true. split; [done|]. by exists l, w'. }
  unfold wpg in Hread. destruct (read_overflow cache id w) as [[[sz o]| |e|] w'] eqn:Er; try done.
  - destruct Hread as ([|] & [= -> ->] & Hq).
    + destruct Hq as (l & w1 & -> & Hq & Hsh). split; [|split; [exact Hsh|by apply Hkeep]]. exists h, ts, (id :: ids). auto.
    + eapply clear_post_mono; [apply Hq|]. apply Hk; [|apply Hq|by eapply settled_quiet].
      rewrite <- (loading_same w'). by apply Hpage.
  - destruct Hread as (l & w1 & -> & Hq & Hsh). destruct (Hkeep l w1 Hq) as (H1 & H2 & H3). split; [|done]. exists h, ts, (id :: ids). auto.
Qed.

(** One page is given back; what is left of the chain is read next. *)
Lemma clear_page h ts w id ids h' :
  clearing h ts w (id :: ids) (ProcessPage id) -> next_words (h_held h) (id :: ids) -> release (id :: ids) h = h' ->
  (length (id :: ids) <= len)%nat -> settled w ->
  wpg (process_overflow id)
    (fun next w' => next = default 0 (head ids) /\ p_script (st_alloc w') `suffix_of` p_script (st_alloc w) /\ settled w' /\
       exists h1 ts1, represents h1 ts1 u w' /\ p_pins (st_alloc w') = P /\ next_words (h_held h1) ids /\ release ids h1 = h' /\
         h_size h1 = h_size h)
    (fun w' => goes_on h' (ProcessPage id) w' /\ shorter w w' /\ (forall e, broken w' e -> broken w e)) E w.
Proof.
  intros Hcl ((b & Hb & Hnext) & Hnew & Hw) Hrel Hlen Hset. inversion Hcl as [|?|w0 ? ? Hr Hp HE Hf|]; subst.
  destruct (r_range _ _ _ _ Hr id b Hb) as (Hid & Hfree & Hz). pose proof (ps_range _ _ _ _ _ _ _ (r_good _ _ _ _ Hr)).
  assert (st_pages w !! id = Some b) as Hbw by (rewrite (f_kept _ _ _ _ _ _ _ _ _ Hf); by eapply lookup_weaken; [|apply Hr]).
  apply wpg_is_loaded; [done|]. apply wpg_bind. eapply wpg_read_u32; [exact Hbw|lia|lia|]. apply wpg_bind.
  pose proof (free_page_spec u (st_page_size w0) w _ ts P id Hid Hfree (length (p_script (st_alloc w))) E) as Hspec.
  specialize (Hspec ltac:(intros e He; apply HE; by eapply broken_since; [apply Hf|]) true w (freeing_here _ _ _ _ _ _ _ _ _ Hf)).
  unfold wpg in *. destruct (free_page true id w) as [[[]| |e|] w']; try done.
  - destruct Hspec as [Hfd Hst]. pose proof (freed_from _ _ _ _ _ _ _ _ _ _ Hf Hfd) as Hfd0. simpl.
    rewrite <- Hp in Hfd0.
    destruct (represents_freed _ _ _ _ _ _ _ Hr Hb Hfd0 Hst) as (ts' & _ & Hr').
    destruct Hfd as (? & _ & _ & Hs & _ & Hp' & Hl'). split_and!; [done|apply Hs|done|]. eexists _, ts'. split_and!; [exact Hr'|done| |done|done].
    by apply next_words_delete.
  - destruct Hspec as [Hf' Hl]. split; [|split; [done|]].
    + exists h, ts, (id :: ids). split; [|split; [|by split]].
      * apply (clearing_page _ _ _ w0); try done. by eapply freeing_from.
      * split; [by exists b|done].
    + intros e. by eapply broken_since; apply Hf'.
Qed.

Lemma clear_loop_spec fuel : forall cache h ts w ids s h',
  clearing h ts w ids s -> next_words (h_held h) ids -> release ids h = h' ->
  cache = None \/ cache = Some (h_size h) -> (forall e, broken w e -> E e) -> (clear_rank s ids < fuel)%nat -> (length ids <= len)%nat -> settled w ->
  clear_post h' w (clear_loop fuel first cache s w).
Proof.
  induction fuel as [|fuel IH]; [lia|]. intros cache h ts w ids s h' Hcl Hw Hrel Hc HE Hfuel Hlen Hset. cbn [clear_loop].
  assert (forall id ids w', clearing h ts w' (id :: ids) (ProcessPage id) -> (clear_rank (ProcessPage id) (id :: ids) < fuel)%nat -> 
    next_words (h_held h) (id :: ids) -> release (id :: ids) h = h' -> (length (id :: ids) <= len)%nat -> p_script (st_alloc w') `suffix_of` p_script (st_alloc w) -> settled w' ->
    clear_post h' w' (clear_loop fuel first (Some (h_size h)) (ProcessPage id) w')) as Hpage.
  { intros id ids' w' H1 H2 H3 H4 H5 [p Hs] H6. eapply IH; try done; [by right|]. intros e He. apply HE. unfold broken in *.
    rewrite Hs. apply elem_of_app. by right. }
  destruct Hcl as [id ids Hr Hp Hfirst|id ids Hr Hp|w0 id ids Hr Hp HE0 Hf|Hr Hp].
  - rewrite Hfirst, <- Hfirst. eapply clear_read; try done; [by intros; apply clearing_start|]. intros w' H1 H2 H3. simpl in Hfuel.
    apply (Hpage id ids); try done; simpl; lia.
  - eapply clear_read; try done; [by intros; apply clearing_read|]. intros w' H1 H2 H3. simpl in Hfuel.
    apply (Hpage id ids); try done; simpl; lia.
  - pose proof (clear_page h ts w id ids h' (clearing_page _ _ _ w0 id ids Hr Hp HE0 Hf) Hw Hrel Hlen Hset) as H. unfold wpg in H.
    destruct (process_overflow id w) as [[next| |e|] w']; try done.
    destruct H as (-> & Hs & Hset' & h1 & ts1 & Hr1 & Hp1 & Hw1 & Hrel1 & Hsz). eapply clear_post_mono; [exact Hs|].
    assert (forall e, broken w' e -> E e) as HE' by (intros e He; apply HE; unfold broken in *; destruct Hs as [p ->]; apply elem_of_app; by right).
    destruct ids as [|id2 ids]; simpl in Hfuel |- *.
    + eapply IH; [by apply clearing_done|done|done|by rewrite Hsz|done|simpl; lia|simpl in *; lia|done].
    + pose proof Hw1 as ((b2 & Hb2 & _) & _). destruct (r_range _ _ _ _ Hr1 id2 b2 Hb2) as (Hid2 & _).
      rewrite (proj2 (Z.eqb_neq id2 0)) by lia. simpl.
      eapply IH; [by apply clearing_read|done|done|by rewrite Hsz|done|simpl; lia|simpl in *; lia|done].
  - simpl. split_and!; [done| |done]. simpl in Hrel. subst h'. by exists ts.
Qed.

Lemma clearing_settles h ts w ids s w' :
  clearing h ts w ids s -> quiet nothing w w' -> clearing h ts (loading_pages ∅ w') ids s.
Proof.
  intros Hcl Hq. assert (forall h ts, represents h ts u w -> represents h ts u (loading_pages ∅ w')) as Hrep.
  { intros h1 ts1 Hr. by eapply represents_loading, represents_quiet; [|exact Hq|]. }
  assert (p_pins (st_alloc w) = P -> p_pins (st_alloc (loading_pages ∅ w')) = P) as Hpins by (simpl; by rewrite (q_pins _ _ _ Hq)).
  destruct Hcl as [id ids Hr Hp Hfirst|id ids Hr Hp|w0 id ids Hr Hp HE0 Hf|Hr Hp]; [constructor; auto..| |constructor; auto].
  apply (clearing_page _ _ _ w0); try done. apply freeing_loading.
  assert (freeing u (st_page_size w0) w0 (h_size h) ts P id (length (p_script (st_alloc w))) w') as []
    by (by eapply freeing_quiet; [|exact Hq|exact Hf]).
  by split.
Qed.

Lemma clear_overflow_pages_spec fuel h ts w ids s h' :
  clearing h ts w ids s -> next_words (h_held h) ids -> release ids h = h' -> first <> None ->
  (forall e, broken w e -> E e) -> (clear_rank s ids < fuel)%nat -> (length ids <= len)%nat ->
  clear_post h' w (clear_overflow_pages fuel first s w).
Proof.
  intros Hcl Hw Hrel Hfirst HE Hfuel Hlen. 
  replace (clear_overflow_pages fuel first s w) with (match wait_for_reads w with
    | (Ready _, w) => clear_loop fuel first None s w | (Waits, w) => (Waits, s, w)
    | (Fails e, w) => (Fails e, s, w) | (Crashes, w) => (Crashes, s, w) end) by (by destruct first).
  pose proof (wpg_wait_for_reads E (fun _ => False) w HE (fun _ w' => exists w1, w' = loading_pages ∅ w1 /\ quiet nothing w w1)
    ltac:(intros w1 Hq; by exists w1)) as H. unfold wpg in H. destruct (wait_for_reads w) as [[[]| |e|] w']; try done. destruct H as (w1 & -> & Hq).
  apply (clear_post_mono _ w (loading_pages ∅ w1)); [exact (q_script _ _ _ Hq)|].
  eapply clear_loop_spec; try done; [by eapply clearing_settles|by left|]. intros e He. apply HE. by apply (broken_quiet _ _ _ _ Hq).
Qed.

Lemma clear_until_done_spec fuel : (2 * len + 2 <= fuel)%nat -> forall calls h' s w,
  goes_on h' s w -> first <> None -> (forall e, broken w e -> E e) -> (length (p_script (st_alloc w)) < calls)%nat ->
  match clear_until_done calls fuel first s w with
  | (Ready (), s', w') => s' = OverflowStart /\ (exists ts, represents h' ts u w') /\ p_pins (st_alloc w') = P
  | (Fails e, _, _) => E e
  | _ => False
  end.
Proof.
  intros Hfuel. induction calls as [|calls IH]; intros h' s w (h & ts & ids & Hcl & Hw & Hrel & Hlen) Hfirst HE Hcalls; [lia|]. cbn [clear_until_done].
  assert (clear_rank s ids < fuel)%nat as Hrank by (destruct s; simpl; lia).
  pose proof (clear_overflow_pages_spec fuel h ts w ids s h' Hcl Hw Hrel Hfirst HE Hrank Hlen) as H.
  destruct (clear_overflow_pages fuel first s w) as [[[[]| |e|] s'] w']; try done. destruct H as (H1 & H2 & H3).
  apply IH; [done|done|auto|]. unfold shorter in H2. lia.
Qed.
End Clear.

(** ** A payload that comes and goes *)
Lemma release_fields ids : forall h,
  h_size (release ids h) = h_size h /\ h_free (release ids h) = list_to_set ids ∪ h_free h /\
  forall i, h_held (release ids h) !! i = if decide (i ∈ ids) then None else h_held h !! i.
Proof.
  induction ids as [|id ids IH]; intros h; simpl; [split; [done|split; [set_solver|done]]|].
  destruct (IH (mkHeap (delete id (h_held h)) ({[ id ]} ∪ h_free h) (h_size h))) as (H1 & H2 & H3). simpl in *.
  split; [done|split; [rewrite H2; set_solver|]]. intros i. rewrite H3. destruct (decide (i = id)) as [->|Hne].
  - rewrite lookup_delete_eq. rewrite (decide_True (P := id ∈ id :: ids)) by constructor. by destruct (decide _).
  - rewrite lookup_delete_ne by done. destruct (decide (i ∈ ids)) as [Hi|Hi].
    + by rewrite decide_True by (by constructor).
    + by rewrite decide_False by (by apply not_elem_of_cons).
Qed.

Lemma chain_pages pages ps u ids : forall data i,
  chain pages ps u ids data -> i ∈ ids -> exists b, pages !! i = Some b /\ zlen b = ps.
Proof.
  induction ids as [|id ids IH]; intros data i Hch Hi; [by apply not_elem_of_nil in Hi|].
  destruct Hch as [(b & Hb & _ & Hz & _) Hrest]. apply elem_of_cons in Hi as [->|Hi]; [by exists b|].
  destruct ids as [|id' ids]; [by apply not_elem_of_nil in Hi|]. by eapply IH; [apply Hrest|].
Qed.

Lemma chain_words pages ps u held ids : forall data,
  4 <= ps -> chain pages ps u ids data -> NoDup ids -> (forall i, i ∈ ids -> held !! i = pages !! i) -> next_words held ids.
Proof.
  induction ids as [|id ids IH]; intros data Hps Hch Hnd Hin; [done|]. apply list.NoDup_cons in Hnd as [Hnew Hnd].
  destruct Hch as [(b & Hb & _ & Hz & Hn & _) Hrest]. split; [|split; [done|]].
  - exists b. split; [by rewrite Hin by constructor|]. rewrite <- Hn. by rewrite be_at_u32 by lia.
  - destruct ids as [|id' ids]; [done|]. eapply IH; [done|apply Hrest|done|]. intros i Hi. apply Hin. by constructor.
Qed.

Lemma filled_represents u h ts w m n P data F (w' : pages_store) :
  represents h ts u w -> let ps := st_page_size w in let vacuum := p_vacuum_full (st_alloc w) in
  let ids := allocate_ids ps vacuum m (h_size h) ts in let rest := allocate_rest ps vacuum m (h_size h) ts in
  left_over u ps n P rest F w' -> chain (st_pages w') ps u ids data ->
  (forall i, ~ own (h_size h) ts i -> st_pages w' !! i = st_pages w !! i) ->
  exists h', represents h' rest.2 u w' /\ next_words (h_held h') ids /\
    release ids h' = mkHeap (h_held h) (list_to_set ids ∪ list_to_set (free_ids rest.2)) rest.1.
Proof.
  intros Hr ps vacuum ids rest (_ & Ha & Hst & Hfr & _) Hch Hout.
  pose proof (r_good _ _ _ _ Hr) as Hg.
  assert (1 <= h_size h) as Hsize by apply Hg.
  destruct (allocate_all ps vacuum m (g_valid _ _ _ _ _ _ _ Hg) (h_size h) ts Hsize) as (Hsz & Hin & Hsub & _). fold rest ids in Hsz, Hin, Hsub.
  pose proof (ps_range _ _ _ _ _ _ _ Hg) as Hps. pose proof (g_ps _ _ _ _ _ _ _ (a_good _ _ _ _ _ _ _ _ Ha)) as Eps.
  assert (NoDup (ids ++ free_ids rest.2)) as Hnd.
  { apply allocate_nodup; [apply Hg|done|apply Hg|]. eapply Forall_impl; [|apply (g_range _ _ _ _ _ _ _ Hg)]. simpl. lia. }
  apply list.NoDup_app in Hnd as (Hnd & Hdis & _).
  set (mine := fun x : Z * list Z => x.1 ∈ dom (h_held h) \/ x.1 ∈ ids).
  assert (forall i b, h_held h !! i = Some b -> st_pages w' !! i = Some b /\ (i ∉ ids)) as Hheld.
  { intros i b Hb. pose proof (held_not_own _ _ _ _ _ _ Hr Hb) as Hno. split; [rewrite Hout by done; by eapply lookup_weaken; [|apply Hr]|].
    intros Hi. apply Hno. destruct (Hin i Hi) as [H|H]; [right; by left|right; right; lia]. }
  exists (mkHeap (filter mine (st_pages w')) (list_to_set (free_ids rest.2)) rest.1).
  split; [|split].
  - split; simpl; rewrite ?Eps; try done; [apply Ha|apply map_filter_subseteq|].
    intros i b [Hb [Hi|Hi]]%map_lookup_filter_Some; simpl in Hi.
    + apply elem_of_dom in Hi as [b' Hb']. destruct (Hheld i b' Hb') as [Hb'' _]. destruct (r_range _ _ _ _ Hr i b' Hb') as (H1 & H2 & H3).
      split; [lia|]. split; [auto|]. rewrite Hb in Hb''. by injection Hb'' as <-.
    + destruct (chain_pages _ _ _ _ _ _ Hch Hi) as (b' & Hb' & Hz). split; [|split; [by apply Hdis|congruence]].
      destruct (Hin i Hi) as [H|H]; [|pose proof (g_size _ _ _ _ _ _ _ Hg); lia].
      pose proof (proj1 (list.Forall_forall _ _) (g_range _ _ _ _ _ _ _ Hg) i H). simpl in *. lia.
  - eapply chain_words; [|exact Hch|done|]; [lia|]. intros i Hi. simpl. destruct (chain_pages _ _ _ _ _ _ Hch Hi) as (b & Hb & _).
    rewrite Hb. apply map_lookup_filter_Some. split; [done|by right].
  - set (h' := mkHeap _ _ _). destruct (release_fields ids h') as (H1 & H2 & H3). destruct (release ids h') as [held F' size'].
    simpl in *. subst. f_equal. apply map_eq. intros i. rewrite H3. destruct (h_held h !! i) as [b|] eqn:Eb.
    + destruct (Hheld i b Eb) as [Hb Hi]. rewrite decide_False by done. apply map_lookup_filter_Some. split; [done|]. left. by apply elem_of_dom_2 in Eb.
    + destruct (decide (i ∈ ids)) as [Hi|Hi]; [done|]. apply map_lookup_filter_None. right. intros b Hb [Hi'|Hi']; [|done].
      apply elem_of_dom in Hi' as [? Hi']. simpl in Hi'. congruence.
Qed.

(** The heap [h] again, with the pages the file grew by in the free list. *)
Definition comes_back (u ps : Z) (vacuum : bool) (h : heap) (w : pages_store) : Prop :=
  exists F size ts, represents (mkHeap (h_held h) F size) ts u w /\ h_size h <= size /\
    forall i, i ∈ F <-> i ∈ h_free h \/ (h_size h < i <= size /\ ~ reserved ps vacuum i).

Lemma released_comes_back u h ts w m w' ts' :
  represents h ts u w -> let ps := st_page_size w in let vacuum := p_vacuum_full (st_alloc w) in
  let ids := allocate_ids ps vacuum m (h_size h) ts in let rest := allocate_rest ps vacuum m (h_size h) ts in
  represents (mkHeap (h_held h) (list_to_set ids ∪ list_to_set (free_ids rest.2)) rest.1) ts' u w' ->
  comes_back u ps vacuum h w'.
Proof.
  intros Hr ps vacuum ids rest Hr'. pose proof (r_good _ _ _ _ Hr) as Hg. assert (1 <= h_size h) as Hsize by apply Hg.
  destruct (allocate_all ps vacuum m (g_valid _ _ _ _ _ _ _ Hg) (h_size h) ts Hsize) as (Hsz & Hin & Hsub & Hsup & Hnew).
  eexists _, _, _. split; [exact Hr'|]. split; [exact (proj1 Hsz)|]. intros i. rewrite (r_free _ _ _ _ Hr), elem_of_union, !elem_of_list_to_set.
  split.
  - intros [Hi|Hi]; [by apply Hin|left; by apply Hsub].
  - intros [Hi|[Hi Hres]]; [by apply Hsup|]. left. by destruct (Hnew i Hi).
Qed.

Lemma represents_comes_back u h ts w :
  represents h ts u w -> comes_back u (st_page_size w) (p_vacuum_full (st_alloc w)) h w.
Proof. intros Hr. exists (h_free h), (h_size h), ts. split; [by destruct h|]. split; [lia|]. intros i. split; [auto|intros [?|?]; [done|lia]]. Qed.

Section Payload.
Context (t : PageType) (left_child key u : Z) (record : list Z) (h : heap) (ts : list (Z * list Z)) (w : pages_store).
Context (Hr : represents h ts u w) (Hlen : 0 < zlen record < 2 ^ 63).
#[local] Abbreviation ps := (st_page_size w).
#[local] Abbreviation vacuum := (p_vacuum_full (st_alloc w)).
#[local] Abbreviation m := (Z.to_nat (pages_needed t u (zlen record))).
#[local] Abbreviation ids := (allocate_ids ps vacuum m (h_size h) ts).
#[local] Abbreviation rest := (allocate_rest ps vacuum m (h_size h) ts).

Lemma usable_bounds : MIN_USABLE_SPACE <= u <= PAGE_SIZE_MAX /\ u <= ps.
Proof.
  pose proof (r_good _ _ _ _ Hr) as Hg. pose proof (ps_range _ _ _ _ _ _ _ Hg) as Hps.
  pose proof (g_usable _ _ _ _ _ _ _ Hg). unfold PAGE_SIZE_MAX. lia.
Qed.

Lemma needed_pos :
  0 <= pages_needed t u (zlen record) /\ (spill t u (zlen record) <> None -> pages_needed t u (zlen record) <> 0).
Proof.
  unfold pages_needed. destruct (spill t u (zlen record)) as [l|] eqn:Es; [|done]. destruct usable_bounds as [Hu _].
  destruct (spill_Some u Hu t (zlen record) l ltac:(lia) Es) as [Hl Hln]. unfold MIN_USABLE_SPACE in Hu.
  pose proof (Z.div_str_pos (zlen record - (l - 4) + (u - 4) - 1) (u - 4)). lia.
Qed.

Lemma fill_takes calls fuel :
  no_errors w -> h_size h + 3 * pages_needed t u (zlen record) <= p_max_page_count (st_alloc w) ->
  (length (p_script (st_alloc w)) < calls)%nat -> (2 * m + 2 <= fuel)%nat ->
  exists f, fill_until_done calls fuel t (Ok left_child) (Some key) record u (mkFill [] w Start) = Ok f /\
    f_cell f = cell_bytes t left_child key u record (default 0 (head ids)) /\ in_u 32 (default 0 (head ids)) /\
    (spill t u (zlen record) = None -> f_store f = w) /\
    (spill t u (zlen record) <> None -> length ids = m /\ ids <> [] /\
      exists h', represents h' rest.2 u (f_store f) /\ next_words (h_held h') ids /\
        release ids h' = mkHeap (h_held h) (list_to_set ids ∪ list_to_set (free_ids rest.2)) rest.1).
Proof.
  intros Hne Hroom Hcalls Hfuel. pose proof (r_good _ _ _ _ Hr) as Hg. destruct usable_bounds as [Hu' Hups]. destruct needed_pos as [Hn0 Hn1].
  assert (1 <= h_size h) as Hsize by apply Hg.
  destruct (allocate_all ps vacuum m (g_valid _ _ _ _ _ _ _ Hg) (h_size h) ts Hsize) as (Hsz & Hin & _).
  pose proof (supply u ps vacuum m (length (p_script (st_alloc w))) w (h_size h) ts (p_pins (st_alloc w))
    (represents_allocating _ _ _ _ Hr) eq_refl (r_free_state _ _ _ _ Hr) Hne) as Hsup.
  assert (h_size h + 3 * Z.of_nat m <= p_max_page_count (st_alloc w)) as Hroom' by lia.
  specialize (Hsup Hroom' (fun _ => r_allocate _ _ _ _ Hr)).
  pose proof (g_max _ _ _ _ _ _ _ Hg) as Hmax. pose proof (allocate_ids_length ps vacuum m (h_size h) ts) as Hml.
  assert (Forall (fun i => 0 < i < 2 ^ 32) ids) as Hrange.
  { apply list.Forall_forall. intros i Hi. destruct (Hin i Hi) as [Hi'|[Hi' _]]; [|lia].
    pose proof (proj1 (list.Forall_forall _ _) (g_range _ _ _ _ _ _ _ Hg) i Hi'). pose proof (g_size _ _ _ _ _ _ _ Hg). simpl in *. lia. }
  destruct (fill_result t left_child key u ps record Hu' Hups Hlen _ _ _ w ids calls fuel Hsup)
    as (f & F & Hrun & Hcell & Hch & Hout & HQ & Hsame); try (done || lia).
  - unfold zlen at 1. rewrite Hml. lia.
  - exists f. split; [done|]. split; [done|].
    split; [unfold in_u; destruct ids; simpl; [lia|]; apply Forall_cons_iff in Hrange as [? _]; lia|]. split; [done|]. intros Hsp. specialize (HQ Hsp). specialize (Hch Hsp). specialize (Hn1 Hsp).
    split; [done|]. split; [intros E; rewrite E in Hml; simpl in Hml; lia|].
    by eapply filled_represents.
Qed.
End Payload.

(** C10: A payload that is written and cleared leaves nothing behind.  [fill_cell_payload] on the
    pages that [allocate_page] hands out ends, whatever waits, evictions and spills the cache
    answers with.  Any page that holds the cell names the first overflow page; [clear_overflow_pages]
    called with it again after each wait ends as well, for every later behaviour of the cache.  An
    error is one the storage reported.  Otherwise the pages others hold have the bytes they had, and
    the free list is the one from before together with every page the file grew by, except the
    pointer map pages and the page of the pending byte: no page is lost and none is in the list twice. *)
Theorem overflow_payload_gives_back (t : PageType) (left_child key u : Z) (record : list Z) (h : heap)
    (ts : list (Z * list Z)) (w : pages_store) (calls fuel : nat) :
  represents h ts u w -> no_errors w -> t <> TableInterior -> in_u 32 left_child -> in_i 64 key -> bytes_ok record ->
  0 < zlen record < 2 ^ 63 -> h_size h + 3 * pages_needed t u (zlen record) <= p_max_page_count (st_alloc w) ->
  (length (p_script (st_alloc w)) < calls)%nat -> 2 * pages_needed t u (zlen record) + 2 <= Z.of_nat fuel ->
  exists f, fill_until_done calls fuel t (Ok left_child) (Some key) record u (mkFill [] w Start) = Ok f /\
    forall b o, bytes_ok b -> 0 <= o -> o + csize (f_cell f) <= zlen b -> holds b o (f_cell f) ->
    exists c local first, read_btree_cell b t o u = Ok c /\ cell_payload c = Some (local, zlen record, first) /\
      forall script w1 calls fuel, set_script script (f_store f) = (Ready (), w1) ->
        (length script < calls)%nat -> 2 * pages_needed t u (zlen record) + 2 <= Z.of_nat fuel ->
        match clear_until_done calls fuel first OverflowStart w1 with
        | (Ready (), s, w2) => s = OverflowStart /\ comes_back u (st_page_size w) (p_vacuum_full (st_alloc w)) h w2
        | (Fails e, _, _) => Broken e ∈ script
        | _ => False
        end.
Proof.
  intros Hr Hne Ht Hleft Hkey Hrec Hlen Hroom Hcalls Hfuel.
  destruct (usable_bounds _ _ _ _ Hr) as [Hu _]. destruct (needed_pos t _ record _ _ _ Hr Hlen) as [Hn0 _].
  destruct (fill_takes t left_child key u record h ts w Hr Hlen calls fuel) as (f & Hrun & Hcell & Hfirst & Hsame & Hsp); try (done || lia).
  exists f. split; [done|]. intros b o Hb Ho Hend Hh. rewrite Hcell in Hend, Hh.
  set (m := Z.to_nat (pages_needed t u (zlen record))) in *.
  set (ids := allocate_ids _ _ _ _ _) in *. set (first := default 0 (head ids)) in *.
  exists (the_cell t left_child key u record first), (ztake (local_size t u (zlen record)) record), (spilled t u record first).
  split; [|split; [by unfold the_cell; destruct t|]].
  { by apply read_btree_cell_at. }
  intros script w1 calls' fuel' Hset Hcalls' Hfuel'. unfold spilled. destruct (spill t u (zlen record)) as [l|] eqn:Es.
  - destruct (Hsp ltac:(done)) as (Hml & Hids & h' & Hr' & Hw' & Hrel).
    destruct ids as [|id ids'] eqn:Eids; [done|]. pose proof (represents_script _ _ _ _ _ _ Hr' Hset) as Hr1.
    pose proof (clear_until_done_spec u (Some id) (p_pins (st_alloc w1)) (fun e => Broken e ∈ script) m fuel'
      ltac:(lia) calls' (release (id :: ids') h') OverflowStart w1) as Hclear.
    injection Hset as Ew1. specialize (Hclear ltac:(eexists _, _, (id :: ids'); split_and!; [by apply clearing_start|apply Hw'|done|lia])).
    specialize (Hclear ltac:(done) ltac:(by rewrite <- Ew1) ltac:(by rewrite <- Ew1)).
    destruct (clear_until_done _ _ _ _ _) as [[[[]| |e|] s] w2]; try done. destruct Hclear as (-> & (ts2 & Hr2) & _).
    split; [done|]. rewrite Hrel, <- Eids in Hr2. by eapply released_comes_back.
  - destruct calls' as [|calls']; [lia|]. cbn. split; [done|]. rewrite (Hsame eq_refl) in Hset.
    pose proof (represents_comes_back _ _ _ _ (represents_script _ _ _ _ _ _ Hr Hset)) as Hback. by injection Hset as <-.
Qed.

Lemma overflow_payload_gives_back_witness :
  exists f, fill_until_done 8 8 TableLeaf (Ok 0) (Some 7) (replicate 1500 1) 512 (mkFill [] example_store Start) = Ok f /\
    csize (f_cell f) <= 512.
Proof.
  destruct (overflow_payload_gives_back TableLeaf 0 7 512 (replicate 1500 1) example_heap [] example_store 8 8) as (f & Hf & _).
  - exact example_represents.
  - intros e He. unfold broken in He. simpl in He. repeat (apply elem_of_cons in He as [He|He]; [done|]). by apply not_elem_of_nil in He.
  - done.
  - unfold in_u. lia.
  - unfold in_i. lia.
  - apply Forall_replicate. unfold byte_ok. lia.
  - vm_compute. done.
  - vm_compute. done.
  - simpl. lia.
  - vm_compute. done.
  - exists f. split; [exact Hf|]. vm_compute in Hf. injection Hf as <-. vm_compute. done.
Defined.
