(* ===== verification/WalFormat.v ===== *)
(** * The write-ahead log file format ([src/core/storage/sqlite3_ondisk.rs])

    The log header, the frames and the running checksum.  [host_big] is
    [cfg!(target_endian = "big")]: the checksum code reads native words and swaps
    them when the file has the other byte order. *)
From S2P Require Import Prelude Errors OnDisk.

Definition WAL_HEADER_SIZE : Z := 32.
Definition WAL_FRAME_HEADER_SIZE : Z := 24.
Definition WAL_MAGIC_LE : Z := 0x377f0682.
Definition WAL_MAGIC_BE : Z := 0x377f0683.

Record WalHeader := mkWalHeader {
  wh_magic : Z;
  wh_file_format : Z;
  wh_page_size : Z;
  wh_checkpoint_seq : Z;
  wh_salt_1 : Z;
  wh_salt_2 : Z;
  wh_checksum_1 : Z;
  wh_checksum_2 : Z
}.

Record WalFrameHeader := mkWalFrameHeader {
  fh_page_number : Z;
  fh_db_size : Z;
  fh_salt_1 : Z;
  fh_salt_2 : Z;
  fh_checksum_1 : Z;
  fh_checksum_2 : Z
}.

Definition is_commit_frame (h : WalFrameHeader) : bool := 0 <? fh_db_size h.

Section Host.
Context (host_big : bool).

Definition native_magic : Z := if host_big then WAL_MAGIC_BE else WAL_MAGIC_LE.

(** [WalHeader::new] *)
Definition WalHeader_new : WalHeader := mkWalHeader native_magic 3007000 0 0 0 0 0 0.

(** [u32::from_ne_bytes], [u32::to_ne_bytes] and [u32::swap_bytes] *)
Definition from_ne_bytes (l : list Z) : Z := be_decode (if host_big then l else reverse l).
Definition to_ne_bytes (v : Z) : list Z :=
  if host_big then be_encode 4 v else reverse (be_encode 4 v).
Definition swap_bytes (v : Z) : Z := be_decode (reverse (be_encode 4 v)).

(** ** [checksum_wal] *)
Definition word (native_endian : bool) (l : list Z) : Z :=
  if native_endian then from_ne_bytes l else swap_bytes (from_ne_bytes l).

Definition checksum_step (v0 v1 : Z) (s : Z * Z) : Z * Z :=
  let s0 := wrap 32 (s.1 + wrap 32 (v0 + s.2)) in
  let s1 := wrap 32 (s.2 + wrap 32 (v1 + s0)) in
  (s0, s1).

Fixpoint checksum_words (native_endian : bool) (buf : list Z) (s : Z * Z) : Z * Z :=
  match buf with
  | a0 :: a1 :: a2 :: a3 :: b0 :: b1 :: b2 :: b3 :: buf =>
      checksum_words native_endian buf
        (checksum_step (word native_endian [a0; a1; a2; a3]) (word native_endian [b0; b1; b2; b3]) s)
  | _ => s
  end.

Definition checksum_wal (buf : list Z) (input : Z * Z) (native_endian : bool) : result (Z * Z) :=
  assert_that (zlen buf mod 8 =? 0) ;;
  Ok (checksum_words native_endian buf input).

(** ** Frames *)
Definition parse_wal_frame_header (frame : list Z) : result (WalFrameHeader * list Z) :=
  page_number ← or_panic (zslice frame 0 4);
  db_size ← or_panic (zslice frame 4 8);
  salt_1 ← or_panic (zslice frame 8 12);
  salt_2 ← or_panic (zslice frame 12 16);
  checksum_1 ← or_panic (zslice frame 16 20);
  checksum_2 ← or_panic (zslice frame 20 24);
  page ← or_panic (zslice frame WAL_FRAME_HEADER_SIZE (zlen frame));
  Ok (mkWalFrameHeader (be_decode page_number) (be_decode db_size) (be_decode salt_1)
        (be_decode salt_2) (be_decode checksum_1) (be_decode checksum_2), page).

(** [buffer] is the frame buffer the pool hands out, whatever it holds. *)
Definition prepare_wal_frame_header (buffer : list Z) (wal_header : WalHeader)
    (page_number db_size : Z) : result (list Z) :=
  frame ← or_panic (zput buffer 0 (be_encode 4 page_number));
  frame ← or_panic (zput frame 4 (be_encode 4 db_size));
  frame ← or_panic (zput frame 8 (be_encode 4 (wh_salt_1 wal_header)));
  or_panic (zput frame 12 (be_encode 4 (wh_salt_2 wal_header))).

Definition recompute_wal_frame_checksum (frame : list Z) (wal_header : WalHeader)
    (prev_checksums : Z * Z) : result ((Z * Z) * list Z) :=
  let expects_be := Z.land (wh_magic wal_header) 1 in
  let use_native_endian := (if host_big then 1 else 0) =? expects_be in
  prefix ← or_panic (zslice frame 0 8);
  header_checksum ← checksum_wal prefix prev_checksums use_native_endian;
  body ← or_panic (zslice frame WAL_FRAME_HEADER_SIZE (zlen frame));
  final_checksum ← checksum_wal body header_checksum use_native_endian;
  frame ← or_panic (zput frame 16 (be_encode 4 final_checksum.1));
  frame ← or_panic (zput frame 20 (be_encode 4 final_checksum.2));
  Ok (final_checksum, frame).

Definition prepare_wal_frame (buffer : list Z) (wal_header : WalHeader) (prev_checksums : Z * Z)
    (page_number db_size : Z) (page : list Z) : result ((Z * Z) * list Z) :=
  frame ← prepare_wal_frame_header buffer wal_header page_number db_size;
  (* [copy_from_slice] panics unless the lengths agree *)
  assert_that (zlen frame - WAL_FRAME_HEADER_SIZE =? zlen page) ;;
  frame ← or_panic (zput frame WAL_FRAME_HEADER_SIZE page);
  recompute_wal_frame_checksum frame wal_header prev_checksums.

(** ** The header *)

(** The buffer [begin_write_wal_header] writes at offset 0. *)
Definition wal_header_bytes (h : WalHeader) : list Z :=
  be_encode 4 (wh_magic h) ++ be_encode 4 (wh_file_format h) ++ be_encode 4 (wh_page_size h) ++
  be_encode 4 (wh_checkpoint_seq h) ++ be_encode 4 (wh_salt_1 h) ++ be_encode 4 (wh_salt_2 h) ++
  be_encode 4 (wh_checksum_1 h) ++ be_encode 4 (wh_checksum_2 h).

(** [WalHeader::as_bytes]: the [repr(C)] struct in memory. *)
Definition WalHeader_as_bytes (h : WalHeader) : list Z :=
  to_ne_bytes (wh_magic h) ++ to_ne_bytes (wh_file_format h) ++ to_ne_bytes (wh_page_size h) ++
  to_ne_bytes (wh_checkpoint_seq h) ++ to_ne_bytes (wh_salt_1 h) ++ to_ne_bytes (wh_salt_2 h) ++
  to_ne_bytes (wh_checksum_1 h) ++ to_ne_bytes (wh_checksum_2 h).

Definition set_checksum (h : WalHeader) (c : Z * Z) : WalHeader :=
  mkWalHeader (wh_magic h) (wh_file_format h) (wh_page_size h) (wh_checkpoint_seq h)
    (wh_salt_1 h) (wh_salt_2 h) c.1 c.2.

(** [InProcessWalCoordination::prepare_wal_header] ([src/core/storage/wal.rs]) on the
    shared header, when the log is not initialized yet; [rand_1] and [rand_2] are the two
    random numbers the I/O layer generates.  The checksum also becomes the shared
    [last_checksum]. *)
Definition prepare_wal_header (hdr : WalHeader) (page_size rand_1 rand_2 : Z) : result WalHeader :=
  let hdr := mkWalHeader native_magic (wh_file_format hdr)
               (if wh_page_size hdr =? 0 then page_size else wh_page_size hdr)
               (wh_checkpoint_seq hdr)
               (if (wh_salt_1 hdr =? 0) && (wh_salt_2 hdr =? 0) then wrap 32 rand_1 else wh_salt_1 hdr)
               (if (wh_salt_1 hdr =? 0) && (wh_salt_2 hdr =? 0) then wrap 32 rand_2 else wh_salt_2 hdr)
               (wh_checksum_1 hdr) (wh_checksum_2 hdr) in
  prefix ← or_panic (zslice (WalHeader_as_bytes hdr) 0 (WAL_HEADER_SIZE - 8));
  let use_native := negb (Z.land (wh_magic hdr) 1 =? 0) in
  c ← checksum_wal prefix (0, 0) use_native;
  Ok (set_checksum hdr c).

(** What the reader computes from the magic number of a file. *)
Definition use_native_of (magic : Z) : bool := eqb host_big (negb (Z.land magic 1 =? 0)).
End Host.

(** ** The checksum of the file format *)

(** The 32-bit words of a buffer, in the byte order the magic number names. *)
Fixpoint words_of (big : bool) (buf : list Z) : list Z :=
  match buf with
  | a0 :: a1 :: a2 :: a3 :: buf =>
      be_decode (if big then [a0; a1; a2; a3] else [a3; a2; a1; a0]) :: words_of big buf
  | _ => []
  end.

(** [s0 += x(i) + s1; s1 += x(i+1) + s0] *)
Fixpoint fibonacci_sums (xs : list Z) (s0 s1 : Z) : Z * Z :=
  match xs with
  | x :: y :: xs =>
      let s0 := (s0 + x + s1) mod 2 ^ 32 in
      let s1 := (s1 + y + s0) mod 2 ^ 32 in
      fibonacci_sums xs s0 s1
  | _ => (s0, s1)
  end.

Definition big_endian_file (magic : Z) : bool := negb (Z.land magic 1 =? 0).

Lemma be_decode_encode_4 l : zlen l = 4 -> bytes_ok l -> be_encode 4 (be_decode l) = l.
Proof.
  intros Hl Hb. assert (length l = 4%nat) as <- by (unfold zlen in Hl; lia). by apply be_encode_decode.
Qed.

Lemma word_format host_big magic a b c d :
  bytes_ok [a; b; c; d] ->
  word host_big (use_native_of host_big magic) [a; b; c; d] =
  be_decode (if big_endian_file magic then [a; b; c; d] else [d; c; b; a]).
Proof.
  intros Hb. unfold word, use_native_of, big_endian_file, from_ne_bytes, swap_bytes.
  assert (bytes_ok [d; c; b; a]) as Hr by (unfold bytes_ok in *; rewrite !Forall_cons_iff in *; tauto).
  change (reverse [a; b; c; d]) with [d; c; b; a].
  destruct host_big, (Z.land magic 1 =? 0); cbn [negb eqb]; try done;
    rewrite be_decode_encode_4 by done; done.
Qed.

Lemma checksum_step_wraps v0 v1 s :
  checksum_step v0 v1 s =
  let s0 := (s.1 + v0 + s.2) mod 2 ^ 32 in (s0, (s.2 + v1 + s0) mod 2 ^ 32).
Proof.
  unfold checksum_step, wrap. cbn zeta. rewrite !Z.add_mod_idemp_r by lia.
  f_equal; rewrite ?Z.add_assoc; [done|]. by rewrite Z.add_mod_idemp_r, !Z.add_assoc by lia.
Qed.

Lemma bytes_ok_4 a b c d l : bytes_ok (a :: b :: c :: d :: l) -> bytes_ok [a; b; c; d] /\ bytes_ok l.
Proof. exact (proj1 (bytes_ok_app [a; b; c; d] l)). Qed.

Lemma checksum_words_format host_big magic n : forall buf s,
  (length buf <= n)%nat -> bytes_ok buf -> zlen buf mod 8 = 0 ->
  checksum_words host_big (use_native_of host_big magic) buf s =
  fibonacci_sums (words_of (big_endian_file magic) buf) s.1 s.2.
Proof.
  induction n as [|n IH]; intros buf s Hn Hb Hm.
  - destruct buf; [|simpl in Hn; lia]. by destruct s.
  - do 8 (destruct buf as [|? buf]; [try (vm_compute in Hm; done); by destruct s|]).
    apply bytes_ok_4 in Hb as [Hb1 Hb]. apply bytes_ok_4 in Hb as [Hb2 Hb].
    assert (zlen buf mod 8 = 0) as Hmr.
    { rewrite !zlen_cons in Hm. replace (1 + _) with (zlen buf + 1 * 8) in Hm by lia.
      by rewrite Z.mod_add in Hm. }
    cbn [checksum_words words_of fibonacci_sums].
    rewrite !word_format by done.
    rewrite IH by (done || simpl in Hn; lia). by rewrite checksum_step_wraps.
Qed.

Lemma checksum_words_app host_big native n : forall a b s,
  (length a <= n)%nat -> zlen a mod 8 = 0 ->
  checksum_words host_big native (a ++ b) s =
  checksum_words host_big native b (checksum_words host_big native a s).
Proof.
  induction n as [|n IH]; intros a b s Hn Hm.
  - destruct a; [done|simpl in Hn; lia].
  - do 8 (destruct a as [|? a]; [try (vm_compute in Hm; done); done|]).
    assert (zlen a mod 8 = 0) as Hmr.
    { rewrite !zlen_cons in Hm. replace (1 + _) with (zlen a + 1 * 8) in Hm by lia.
      by rewrite Z.mod_add in Hm. }
    cbn [checksum_words app]. apply IH; (done || simpl in Hn; lia).
Qed.

(** C29: The log checksum is the one of the file format, on every host.  With the byte
    order flag the code derives from the magic number, [checksum_wal] computes
    the documented Fibonacci-weighted sums of the buffer's 32-bit words, read
    big-endian or little-endian as the magic number says, independently of the
    byte order of the machine, and the sums of two buffers chain. *)
Theorem checksum_follows_format host_big magic buf buf' s :
  bytes_ok buf -> zlen buf mod 8 = 0 -> zlen buf' mod 8 = 0 ->
  checksum_wal host_big buf s (use_native_of host_big magic) =
    Ok (fibonacci_sums (words_of (big_endian_file magic) buf) s.1 s.2) /\
  checksum_wal host_big (buf ++ buf') s (use_native_of host_big magic) =
    (s' ← checksum_wal host_big buf s (use_native_of host_big magic);
     checksum_wal host_big buf' s' (use_native_of host_big magic)).
Proof.
  intros Hb Hm Hm'. unfold checksum_wal, assert_that.
  assert (zlen (buf ++ buf') mod 8 = 0) as Happ.
  { rewrite zlen_app, Z.add_mod, Hm, Hm' by lia. done. }
  rewrite (proj2 (Z.eqb_eq _ _) Hm), (proj2 (Z.eqb_eq _ _) Hm'), (proj2 (Z.eqb_eq _ _) Happ).
  cbn [mbind res_bind]. split.
  - f_equal. by apply (checksum_words_format host_big magic (length buf)).
  - f_equal. by apply (checksum_words_app host_big _ (length buf)).
Qed.

Lemma checksum_follows_format_witness :
  checksum_wal false [1; 2; 3; 4; 5; 6; 7; 8] (0, 0) (use_native_of false WAL_MAGIC_BE) =
    Ok (16909060, 101190156).
Proof.
  destruct (checksum_follows_format false WAL_MAGIC_BE [1; 2; 3; 4; 5; 6; 7; 8] [] (0, 0)) as [H _].
  - apply (bool_decide_unpack _). vm_compute. exact I.
  - reflexivity.
  - reflexivity.
  - exact H.
Defined.

(** ** Frames *)
Definition frame_bytes (h : WalHeader) (c : Z * Z) (page_number db_size : Z) (page : list Z) : list Z :=
  be_encode 4 page_number ++ be_encode 4 db_size ++ be_encode 4 (wh_salt_1 h) ++
  be_encode 4 (wh_salt_2 h) ++ be_encode 4 c.1 ++ be_encode 4 c.2 ++ page.

Definition frame_checksum (host_big : bool) (h : WalHeader) (prev : Z * Z) (page_number db_size : Z)
    (page : list Z) : Z * Z :=
  let native := use_native_of host_big (wh_magic h) in
  checksum_words host_big native page
    (checksum_words host_big native (be_encode 4 page_number ++ be_encode 4 db_size) prev).

Lemma zlen_frame_bytes h c pn db page : zlen (frame_bytes h c pn db page) = 24 + zlen page.
Proof. unfold frame_bytes. rewrite !zlen_app, !zlen_be_encode. lia. Qed.

(** ** A buffer as the concatenation of its fields *)
Lemma concat_field (fs : list (list Z)) i f :
  fs !! i = Some f -> concat fs = concat (take i fs) ++ f ++ concat (drop (S i) fs).
Proof.
  intros Hi. rewrite <- (take_drop_middle fs i f Hi) at 1. by rewrite concat_app.
Qed.

Lemma zput_field (fs : list (list Z)) i f v pos :
  fs !! i = Some f -> zlen v = zlen f -> pos = zlen (concat (take i fs)) ->
  zput (concat fs) pos v = Some (concat (<[i := v]> fs)).
Proof.
  intros Hi Hv ->. pose proof (zlen_nonneg (concat (take i fs))) as H1.
  pose proof (zlen_nonneg (concat (drop (S i) fs))) as H2.
  rewrite (concat_field fs i f Hi). rewrite zput_Some; [|done|rewrite !zlen_app; lia]. f_equal.
  rewrite (concat_field (<[i := v]> fs) i v)
    by (apply list_lookup_insert_eq; by eapply lookup_lt_Some).
  rewrite take_insert_ge, drop_insert_lt by lia. unfold splice. rewrite ztake_app_eq by done. do 2 f_equal.
  rewrite zdrop_app_ge by (pose proof (zlen_nonneg v); lia).
  rewrite zdrop_app_ge by lia. replace (_ - _ - _) with 0 by lia. apply zdrop_0.
Qed.

Lemma zslice_fields (fs : list (list Z)) i n lo hi :
  lo = zlen (concat (take i fs)) -> hi = lo + zlen (concat (take n (drop i fs))) ->
  zslice (concat fs) lo hi = Some (concat (take n (drop i fs))).
Proof.
  intros -> ->. set (x := concat (take i fs)). set (y := concat (take n (drop i fs))).
  assert (concat fs = x ++ y ++ concat (drop n (drop i fs))) as ->.
  { unfold x, y. rewrite <- concat_app, take_drop. by rewrite <- concat_app, take_drop. }
  pose proof (zlen_nonneg x). pose proof (zlen_nonneg y).
  pose proof (zlen_nonneg (concat (drop n (drop i fs)))).
  rewrite zslice_Some by (rewrite ?zlen_app; lia). f_equal.
  rewrite zdrop_app_ge by lia. rewrite Z.sub_diag, zdrop_0. apply ztake_app_eq. lia.
Qed.

Lemma split_front (l : list Z) n : 0 <= n <= zlen l -> exists a b, l = a ++ b /\ zlen a = n.
Proof.
  intros Hn. exists (ztake n l), (zdrop n l). unfold ztake, zdrop. rewrite take_drop. split; [done|].
  unfold zlen in *. rewrite length_take. lia.
Qed.

(** A frame buffer: six words and a body. *)
Lemma split_frame (buffer : list Z) n :
  0 <= n -> zlen buffer = 24 + n ->
  exists a b c d e f g, buffer = concat [a; b; c; d; e; f; g] /\ zlen a = 4 /\ zlen b = 4 /\
    zlen c = 4 /\ zlen d = 4 /\ zlen e = 4 /\ zlen f = 4 /\ zlen g = n.
Proof.
  intros Hn Hl. destruct (split_front buffer 4) as (a & l1 & -> & Ha); [lia|]. rewrite zlen_app in Hl.
  destruct (split_front l1 4) as (b & l2 & -> & Hb); [lia|]. rewrite zlen_app in Hl.
  destruct (split_front l2 4) as (c & l3 & -> & Hc); [lia|]. rewrite zlen_app in Hl.
  destruct (split_front l3 4) as (d & l4 & -> & Hd); [lia|]. rewrite zlen_app in Hl.
  destruct (split_front l4 4) as (e & l5 & -> & He); [lia|]. rewrite zlen_app in Hl.
  destruct (split_front l5 4) as (f & g & -> & Hf); [lia|]. rewrite zlen_app in Hl.
  exists a, b, c, d, e, f, g. split_and!; try (done || lia). simpl. by rewrite app_nil_r.
Qed.

Lemma use_native_eq (host_big : bool) magic :
  ((if host_big then 1 else 0) =? Z.land magic 1) = use_native_of host_big magic.
Proof.
  unfold use_native_of. change 1 with (Z.ones 1) at 2 3. rewrite (Z.land_ones magic 1) by lia.
  pose proof (Z.mod_pos_bound magic 2 ltac:(lia)). change (2 ^ 1) with 2.
  assert (magic mod 2 = 0 \/ magic mod 2 = 1) as [->| ->] by lia; by destruct host_big.
Qed.

Lemma zlen_be4 v : zlen (be_encode 4 v) = 4.
Proof. by rewrite zlen_be_encode. Qed.

(** Lengths of concatenations of fields of known length. *)
Ltac zlen_fields :=
  first [reflexivity | cbn [concat firstn skipn app]; rewrite ?zlen_app, ?zlen_be4, ?zlen_nil; lia].

Lemma frame_bytes_fields h c pn db page :
  frame_bytes h c pn db page =
  concat [be_encode 4 pn; be_encode 4 db; be_encode 4 (wh_salt_1 h); be_encode 4 (wh_salt_2 h);
          be_encode 4 c.1; be_encode 4 c.2; page].
Proof. unfold frame_bytes. cbn [concat]. by rewrite app_nil_r. Qed.

Lemma prepare_wal_frame_eq host_big h buffer prev pn db page :
  zlen buffer = 24 + zlen page -> zlen page mod 8 = 0 ->
  let c := frame_checksum host_big h prev pn db page in
  prepare_wal_frame host_big buffer h prev pn db page = Ok (c, frame_bytes h c pn db page).
Proof.
  intros Hl Hm c. destruct (split_frame buffer (zlen page) (zlen_nonneg page) Hl)
    as (b0 & b1 & b2 & b3 & b4 & b5 & b6 & -> & H0 & H1 & H2 & H3 & H4 & H5 & H6).
  unfold prepare_wal_frame, prepare_wal_frame_header, recompute_wal_frame_checksum, WAL_FRAME_HEADER_SIZE.
  rewrite (zput_field _ 0 b0) by (done || zlen_fields). cbn [or_panic mbind res_bind list_insert insert].
  rewrite (zput_field _ 1 b1) by (done || zlen_fields). cbn [or_panic mbind res_bind list_insert insert].
  rewrite (zput_field _ 2 b2) by (done || zlen_fields). cbn [or_panic mbind res_bind list_insert insert].
  rewrite (zput_field _ 3 b3) by (done || zlen_fields). cbn [or_panic mbind res_bind list_insert insert].
  unfold assert_that. rewrite (proj2 (Z.eqb_eq (zlen (concat _) - 24) _)) by zlen_fields. cbn [mbind res_bind].
  rewrite (zput_field _ 6 b6) by (done || zlen_fields). cbn [or_panic mbind res_bind list_insert insert].
  rewrite use_native_eq.
  rewrite (zslice_fields _ 0 2 0 8), (zslice_fields _ 6 1 24) by zlen_fields.
  set (fs := [be_encode 4 pn; be_encode 4 db; be_encode 4 (wh_salt_1 h); be_encode 4 (wh_salt_2 h);
              b4; b5; page]).
  replace (concat (take 2 (drop 0 fs))) with (be_encode 4 pn ++ be_encode 4 db)
    by (unfold fs; cbn [concat firstn skipn]; by rewrite app_nil_r).
  replace (concat (take 1 (drop 6 fs))) with page
    by (unfold fs; cbn [concat firstn skipn]; by rewrite app_nil_r).
  cbn [or_panic mbind res_bind]. unfold checksum_wal, assert_that.
  rewrite (proj2 (Z.eqb_eq (zlen (_ ++ _) mod 8) 0)) by (rewrite !zlen_app, !zlen_be4; done). cbn [mbind res_bind].
  rewrite (proj2 (Z.eqb_eq _ 0) Hm). cbn [mbind res_bind].
  fold (frame_checksum host_big h prev pn db page). fold c. unfold fs.
  rewrite (zput_field _ 4 b4) by (done || zlen_fields). cbn [or_panic mbind res_bind list_insert insert].
  rewrite (zput_field _ 5 b5) by (done || zlen_fields). cbn [or_panic mbind res_bind list_insert insert].
  by rewrite frame_bytes_fields.
Qed.

Lemma zslice_field (fs : list (list Z)) i f lo hi :
  fs !! i = Some f -> lo = zlen (concat (take i fs)) -> hi = lo + zlen f ->
  zslice (concat fs) lo hi = Some f.
Proof.
  intros Hi Hlo Hhi. assert (take 1 (drop i fs) = [f]) as Ht.
  { rewrite (drop_S fs f i Hi). done. }
  rewrite (zslice_fields fs i 1) by (rewrite ?Ht; simpl; rewrite ?app_nil_r; done).
  rewrite Ht. simpl. by rewrite app_nil_r.
Qed.

Lemma parse_frame_bytes h c pn db page :
  in_u 32 pn -> in_u 32 db -> in_u 32 (wh_salt_1 h) -> in_u 32 (wh_salt_2 h) ->
  in_u 32 c.1 -> in_u 32 c.2 ->
  parse_wal_frame_header (frame_bytes h c pn db page) =
    Ok (mkWalFrameHeader pn db (wh_salt_1 h) (wh_salt_2 h) c.1 c.2, page).
Proof.
  intros. unfold parse_wal_frame_header, WAL_FRAME_HEADER_SIZE. rewrite zlen_frame_bytes, frame_bytes_fields.
  rewrite (zslice_field _ 0 (be_encode 4 pn) 0 4), (zslice_field _ 1 (be_encode 4 db) 4 8),
    (zslice_field _ 2 (be_encode 4 (wh_salt_1 h)) 8 12), (zslice_field _ 3 (be_encode 4 (wh_salt_2 h)) 12 16),
    (zslice_field _ 4 (be_encode 4 c.1) 16 20), (zslice_field _ 5 (be_encode 4 c.2) 20 24),
    (zslice_field _ 6 page 24) by (done || zlen_fields).
  cbn [or_panic mbind res_bind]. unfold in_u in *. by rewrite !be_decode_encode.
Qed.

Lemma checksum_words_u32 host_big native n : forall buf s,
  (length buf <= n)%nat -> in_u 32 s.1 -> in_u 32 s.2 ->
  in_u 32 (checksum_words host_big native buf s).1 /\ in_u 32 (checksum_words host_big native buf s).2.
Proof.
  induction n as [|n IH]; intros buf s Hn H1 H2.
  - destruct buf; [done|simpl in Hn; lia].
  - do 8 (destruct buf as [|? buf]; [done|]). cbn [checksum_words]. apply IH; [simpl in Hn; lia|..];
      unfold checksum_step; apply wrap_in_u; lia.
Qed.

Lemma frame_checksum_u32 host_big h prev pn db page :
  in_u 32 prev.1 -> in_u 32 prev.2 ->
  in_u 32 (frame_checksum host_big h prev pn db page).1 /\
  in_u 32 (frame_checksum host_big h prev pn db page).2.
Proof.
  intros H1 H2. unfold frame_checksum.
  eapply checksum_words_u32; [reflexivity| |]; by eapply checksum_words_u32.
Qed.

(** C30: Frames round-trip.  [prepare_wal_frame] fills any buffer of the frame's size; parsing
    the buffer gives back the page number, the database size, the salts of the
    log header, the checksum it returned and the page, byte for byte. *)
Theorem wal_frame_roundtrip host_big h buffer prev pn db page :
  zlen buffer = WAL_FRAME_HEADER_SIZE + zlen page -> zlen page mod 8 = 0 ->
  in_u 32 pn -> in_u 32 db -> in_u 32 (wh_salt_1 h) -> in_u 32 (wh_salt_2 h) ->
  in_u 32 prev.1 -> in_u 32 prev.2 ->
  exists c frame, prepare_wal_frame host_big buffer h prev pn db page = Ok (c, frame) /\
    zlen frame = WAL_FRAME_HEADER_SIZE + zlen page /\
    parse_wal_frame_header frame =
      Ok (mkWalFrameHeader pn db (wh_salt_1 h) (wh_salt_2 h) c.1 c.2, page).
Proof.
  intros Hl Hm Hpn Hdb Hs1 Hs2 Hp1 Hp2. eexists _, _. split; [by apply prepare_wal_frame_eq|].
  split; [apply zlen_frame_bytes|]. apply parse_frame_bytes; try done; by apply frame_checksum_u32.
Qed.

Lemma wal_frame_roundtrip_witness :
  exists c frame, prepare_wal_frame false (replicate 32 9) (WalHeader_new false) (1, 2) 3 4 (replicate 8 7) =
      Ok (c, frame) /\
    parse_wal_frame_header frame = Ok (mkWalFrameHeader 3 4 0 0 c.1 c.2, replicate 8 7).
Proof.
  destruct (wal_frame_roundtrip false (WalHeader_new false) (replicate 32 9) (1, 2) 3 4 (replicate 8 7))
    as (c & frame & Hp & _ & Hparse); try (unfold in_u; simpl; lia); try reflexivity.
  exists c, frame. split; [exact Hp|exact Hparse].
Defined.
