(* ===== verification/WalLock.v ===== *)
(** * The reader-writer lock with an embedded value ([TursoRwLock], [src/core/storage/wal.rs])

    One 64-bit word holds a 32-bit value, a 31-bit reader count and the writer
    bit.  The operations are functions on the word.  A thread runs one as the
    load of the word and the store, the compare-and-exchange or the fetch-and-modify
    that follows, with what the function gives for the word it has loaded; the steps
    of any number of threads interleave. *)
From stdpp Require Import relations.
From S2P Require Import Prelude Errors.

Definition WRITER : Z := 1.
Definition READER_INC : Z := 2.
Definition READER_COUNT_MASK : Z := Z.shiftl 0x7fffffff 1.
Definition VALUE_SHIFT : Z := 32.
Definition VALUE_MASK : Z := Z.shiftl 0xffffffff VALUE_SHIFT.
Definition READMARK_NOT_USED : Z := 0xffffffff.

(** [!x] on a [u64] *)
Definition not64 (x : Z) : Z := 2 ^ 64 - 1 - x.

Definition lock_new : Z := 0.
Definition has_writer (val : Z) : bool := negb (Z.land val WRITER =? 0).
Definition has_readers (val : Z) : bool := negb (Z.land val READER_COUNT_MASK =? 0).

(** ** The operations *)
Definition lock_read (cur : Z) : bool * Z :=
  if has_writer cur then (false, cur) else (true, wrap 64 (cur + READER_INC)).

Definition lock_write (cur : Z) : bool * Z :=
  if has_writer cur || has_readers cur then (false, cur) else (true, Z.lor cur WRITER).

Definition lock_upgrade (cur : Z) : bool * Z :=
  if negb (Z.land cur (not64 VALUE_MASK) =? READER_INC) then (false, cur)
  else (true, Z.lor (Z.land cur VALUE_MASK) WRITER).

Definition lock_downgrade (cur : Z) : result Z :=
  assert_that (has_writer cur) ;;
  Ok (Z.lor (Z.land cur VALUE_MASK) READER_INC).

(** [fetch_and], with the assertion on the word it has replaced, and [fetch_sub] *)
Definition unlock_write (cur : Z) : result Z :=
  assert_that (negb (has_readers cur)) ;;
  Ok (Z.land cur (not64 WRITER)).
Definition unlock_read (cur : Z) : Z := wrap 64 (cur - READER_INC).

Definition lock_unlock (cur : Z) : result Z :=
  if negb (Z.land cur WRITER =? 0) then unlock_write cur
  else
    assert_that (has_readers cur) ;;
    Ok (unlock_read cur).

Definition get_value (cur : Z) : Z := wrap 32 (Z.shiftr cur VALUE_SHIFT).

Definition held_value (cur : Z) : option Z :=
  if has_readers cur then Some (wrap 32 (Z.shiftr cur VALUE_SHIFT)) else None.

Definition set_value_exclusive (v cur : Z) : result Z :=
  assert_that (has_writer cur) ;;
  Ok (Z.lor (Z.land cur (not64 VALUE_MASK)) (wrap 64 (Z.shiftl v VALUE_SHIFT))).

(** ** Threads *)

(** Where a thread is: idle, holding the lock, or between the load of the word and the atomic
    operation that follows.  It carries the word it has loaded, or what it is about to store.  An
    attempt of [read] that loses its race ends at [Idle], from where it is repeated or given up. *)
Inductive pc :=
| Idle
| ReadCas (cur : Z)
| WriteCas (cur : Z)
| Reading
| UpgradeCas (cur : Z)
| UnlockSub
| Writing
| DowngradeCas (cur : Z)
| UnlockAnd
| SetStore (desired v : Z)
| AssertionFailed.

Record lock_state := mkLockState { ls_word : Z; ls_threads : list pc }.

(** The atomic step of one thread: the word and the thread before and after.  [downgrade] is that
    of builds with debug assertions; others store the word without comparing. *)
Inductive thread_step : Z -> pc -> Z -> pc -> Prop :=
(* [read] *)
| step_read_busy w : (lock_read w).1 = false -> thread_step w Idle w Idle
| step_read_load w : (lock_read w).1 = true -> thread_step w Idle w (ReadCas w)
| step_read_cas w : thread_step w (ReadCas w) (lock_read w).2 Reading
| step_read_retry w cur : cur <> w -> thread_step w (ReadCas cur) w Idle
(* [write] *)
| step_write_busy w : (lock_write w).1 = false -> thread_step w Idle w Idle
| step_write_load w : (lock_write w).1 = true -> thread_step w Idle w (WriteCas w)
| step_write_cas w : thread_step w (WriteCas w) (lock_write w).2 Writing
| step_write_fail w cur : cur <> w -> thread_step w (WriteCas cur) w Idle
(* [upgrade] *)
| step_upgrade_busy w : (lock_upgrade w).1 = false -> thread_step w Reading w Reading
| step_upgrade_load w : (lock_upgrade w).1 = true -> thread_step w Reading w (UpgradeCas w)
| step_upgrade_cas w : thread_step w (UpgradeCas w) (lock_upgrade w).2 Writing
| step_upgrade_fail w cur : cur <> w -> thread_step w (UpgradeCas cur) w Reading
(* [downgrade] *)
| step_downgrade_load w w' : lock_downgrade w = Ok w' -> thread_step w Writing w (DowngradeCas w)
| step_downgrade_assert w : lock_downgrade w = Panic -> thread_step w Writing w AssertionFailed
| step_downgrade_cas w w' : lock_downgrade w = Ok w' -> thread_step w (DowngradeCas w) w' Reading
| step_downgrade_fail w cur : cur <> w -> thread_step w (DowngradeCas cur) w AssertionFailed
(* [unlock] *)
| step_unlock_load_writer p w :
    p = Reading \/ p = Writing -> Z.land w WRITER <> 0 -> thread_step w p w UnlockAnd
| step_unlock_load_reader p w :
    p = Reading \/ p = Writing -> Z.land w WRITER = 0 -> has_readers w = true ->
    thread_step w p w UnlockSub
| step_unlock_load_assert p w :
    p = Reading \/ p = Writing -> Z.land w WRITER = 0 -> lock_unlock w = Panic ->
    thread_step w p w AssertionFailed
| step_unlock_and w w' : unlock_write w = Ok w' -> thread_step w UnlockAnd w' Idle
| step_unlock_and_assert w :
    unlock_write w = Panic -> thread_step w UnlockAnd (Z.land w (not64 WRITER)) AssertionFailed
| step_unlock_sub w : thread_step w UnlockSub (unlock_read w) Idle
(* [set_value_exclusive] *)
| step_set_load w v w' :
    0 <= v < 2 ^ 32 -> set_value_exclusive v w = Ok w' -> thread_step w Writing w (SetStore w' v)
| step_set_assert w v : set_value_exclusive v w = Panic -> thread_step w Writing w AssertionFailed
| step_set_store w desired v : thread_step w (SetStore desired v) desired Writing.

Inductive lock_step : lock_state -> lock_state -> Prop :=
| lock_step_thread w ts i p w' p' :
    ts !! i = Some p -> thread_step w p w' p' ->
    lock_step (mkLockState w ts) (mkLockState w' (<[i := p']> ts)).

Definition initial_lock (n : nat) (v : Z) : lock_state :=
  mkLockState (Z.shiftl v VALUE_SHIFT) (replicate n Idle).

Definition holds_read (p : pc) : bool :=
  match p with Reading | UpgradeCas _ | UnlockSub => true | _ => false end.
Definition holds_write (p : pc) : bool :=
  match p with Writing | DowngradeCas _ | UnlockAnd | SetStore _ _ => true | _ => false end.

(** ** The layout of the word *)
Record packs (w v r b : Z) : Prop := mkPacks {
  pk_eq : w = v * 2 ^ 32 + 2 * r + b;
  pk_v : 0 <= v < 2 ^ 32;
  pk_r : 0 <= r < 2 ^ 31;
  pk_b : b = 0 \/ b = 1
}.

Lemma land_shifted_ones x k j :
  0 <= k -> 0 <= j -> Z.land x (Z.shiftl (Z.ones j) k) = ((x / 2 ^ k) mod 2 ^ j) * 2 ^ k.
Proof.
  intros Hk Hj. rewrite <- (Z.shiftl_mul_pow2 _ k Hk), <- (Z.land_ones _ j Hj), <- (Z.shiftr_div_pow2 _ k Hk).
  apply Z.bits_inj'. intros i Hi. rewrite Z.land_spec, !Z.shiftl_spec, Z.land_spec by done.
  destruct (Z.ltb_spec i k).
  - rewrite !(Z.testbit_neg_r _ (i - k)) by lia. by rewrite !andb_false_r.
  - rewrite Z.shiftr_spec by lia. by replace (i - k + k) with i by lia.
Qed.

Section Packed.
Context (w v r b : Z) (Hw : packs w v r b).

Lemma packed_range : 0 <= w < 2 ^ 64.
Proof. destruct Hw as [-> ? ? ?]. lia. Qed.

Lemma packed_writer : Z.land w WRITER = b.
Proof.
  unfold WRITER. change 1 with (Z.ones 1). rewrite Z.land_ones by lia. destruct Hw as [-> ? ? Hb].
  replace (v * 2 ^ 32 + 2 * r + b) with (b + (v * 2 ^ 31 + r) * 2 ^ 1) by lia.
  rewrite Z.mod_add by lia. apply Z.mod_small. lia.
Qed.

Lemma packed_readers : Z.land w READER_COUNT_MASK = 2 * r.
Proof.
  change READER_COUNT_MASK with (Z.shiftl (Z.ones 31) 1). rewrite land_shifted_ones by lia.
  destruct Hw as [-> ? ? Hb]. change (2 ^ 1) with 2.
  replace (v * 2 ^ 32 + 2 * r + b) with (b + (v * 2 ^ 31 + r) * 2) by lia.
  rewrite Z.div_add, (Z.div_small b) by lia. rewrite Z.add_0_l, Z.add_comm, Z.mod_add by lia.
  rewrite Z.mod_small by lia. lia.
Qed.

Lemma packed_counts : Z.land w (not64 VALUE_MASK) = 2 * r + b.
Proof.
  change (not64 VALUE_MASK) with (Z.ones 32). rewrite Z.land_ones by lia. destruct Hw as [-> ? ? Hb].
  replace (v * 2 ^ 32 + 2 * r + b) with (2 * r + b + v * 2 ^ 32) by lia.
  rewrite Z.mod_add by lia. apply Z.mod_small. lia.
Qed.

Lemma packed_value_bits : Z.land w VALUE_MASK = v * 2 ^ 32.
Proof.
  change VALUE_MASK with (Z.shiftl (Z.ones 32) 32). rewrite land_shifted_ones by lia.
  destruct Hw as [-> ? ? Hb]. f_equal.
  replace (v * 2 ^ 32 + 2 * r + b) with (2 * r + b + v * 2 ^ 32) by lia.
  rewrite Z.div_add, (Z.div_small (2 * r + b)) by lia. apply Z.mod_small. lia.
Qed.

Lemma packed_has_writer : has_writer w = (b =? 1).
Proof. unfold has_writer. rewrite packed_writer. by destruct (pk_b _ _ _ _ Hw) as [->| ->]. Qed.

Lemma packed_has_readers : has_readers w = negb (r =? 0).
Proof. unfold has_readers. rewrite packed_readers. f_equal. pose proof (pk_r _ _ _ _ Hw). lia. Qed.

Lemma packed_get_value : get_value w = v.
Proof.
  unfold get_value, VALUE_SHIFT. rewrite Z.shiftr_div_pow2 by lia. destruct Hw as [-> ? ? Hb].
  replace (v * 2 ^ 32 + 2 * r + b) with (2 * r + b + v * 2 ^ 32) by lia.
  rewrite Z.div_add, (Z.div_small (2 * r + b)) by lia. apply wrap_small. unfold in_u. lia.
Qed.

Lemma packs_add_reader : b = 0 -> r + 1 < 2 ^ 31 -> packs (wrap 64 (w + READER_INC)) v (r + 1) 0.
Proof.
  intros Hb Hr. pose proof packed_range. destruct Hw as [E ? ? ?]. unfold READER_INC.
  rewrite wrap_small by (unfold in_u; lia). split; lia.
Qed.

Lemma packs_sub_reader : 0 < r -> packs (wrap 64 (w - READER_INC)) v (r - 1) b.
Proof.
  intros Hr. pose proof packed_range. destruct Hw as [E ? ? ?]. unfold READER_INC.
  rewrite wrap_small by (unfold in_u; lia). split; (done || lia).
Qed.

Lemma packs_set_writer : r = 0 -> b = 0 -> packs (Z.lor w WRITER) v 0 1.
Proof.
  intros -> ->. destruct Hw as [-> ? ? ?]. unfold WRITER.
  replace (v * 2 ^ 32 + 2 * 0 + 0) with (v * 2 ^ 32) by lia.
  rewrite (lor_disjoint_add v 1 32) by lia. split; lia.
Qed.

Lemma packs_upgrade : packs (Z.lor (Z.land w VALUE_MASK) WRITER) v 0 1.
Proof.
  rewrite packed_value_bits. unfold WRITER. rewrite (lor_disjoint_add v 1 32) by lia.
  destruct Hw. split; lia.
Qed.

Lemma packs_downgrade : packs (Z.lor (Z.land w VALUE_MASK) READER_INC) v 1 0.
Proof.
  rewrite packed_value_bits. unfold READER_INC. rewrite (lor_disjoint_add v 2 32) by lia.
  destruct Hw. split; lia.
Qed.

Lemma packs_clear_writer : packs (Z.land w (not64 WRITER)) v r 0.
Proof.
  change (not64 WRITER) with (Z.shiftl (Z.ones 63) 1). rewrite land_shifted_ones by lia.
  destruct Hw as [-> ? ? Hb]. change (2 ^ 1) with 2.
  replace (v * 2 ^ 32 + 2 * r + b) with (b + (v * 2 ^ 31 + r) * 2) by lia.
  rewrite Z.div_add, (Z.div_small b) by lia. rewrite Z.add_0_l, Z.mod_small by lia. split; lia.
Qed.

Lemma packs_set_value v' :
  0 <= v' < 2 ^ 32 ->
  packs (Z.lor (Z.land w (not64 VALUE_MASK)) (wrap 64 (Z.shiftl v' VALUE_SHIFT))) v' r b.
Proof.
  intros Hv'. rewrite packed_counts. unfold VALUE_SHIFT. rewrite Z.shiftl_mul_pow2 by lia.
  rewrite wrap_small by (unfold in_u; lia). destruct Hw as [-> ? ? Hb].
  rewrite Z.lor_comm, (lor_disjoint_add v' (2 * r + b) 32) by lia. split; (done || lia).
Qed.
(** The operations on a packed word. *)
Lemma packed_read : lock_read w = if b =? 1 then (false, w) else (true, wrap 64 (w + READER_INC)).
Proof. unfold lock_read. by rewrite packed_has_writer. Qed.

Lemma packed_write : lock_write w = if (b =? 1) || negb (r =? 0) then (false, w) else (true, Z.lor w WRITER).
Proof. unfold lock_write. by rewrite packed_has_writer, packed_has_readers. Qed.

Lemma packed_upgrade :
  lock_upgrade w = if negb (2 * r + b =? 2) then (false, w) else (true, Z.lor (Z.land w VALUE_MASK) WRITER).
Proof. unfold lock_upgrade, READER_INC. by rewrite packed_counts. Qed.

Lemma packed_downgrade : lock_downgrade w = if b =? 1 then Ok (Z.lor (Z.land w VALUE_MASK) READER_INC) else Panic.
Proof. unfold lock_downgrade, assert_that. rewrite packed_has_writer. by destruct (b =? 1). Qed.

Lemma packed_set v' : set_value_exclusive v' w =
  if b =? 1 then Ok (Z.lor (Z.land w (not64 VALUE_MASK)) (wrap 64 (Z.shiftl v' VALUE_SHIFT))) else Panic.
Proof. unfold set_value_exclusive, assert_that. rewrite packed_has_writer. by destruct (b =? 1). Qed.

Lemma packed_unlock_write : unlock_write w = if r =? 0 then Ok (Z.land w (not64 WRITER)) else Panic.
Proof. unfold unlock_write, assert_that. rewrite packed_has_readers. by destruct (r =? 0). Qed.

Lemma packed_unlock : b = 0 -> lock_unlock w = if r =? 0 then Panic else Ok (unlock_read w).
Proof.
  intros Hb. unfold lock_unlock. rewrite packed_writer, packed_has_readers, Hb. simpl. by destruct (r =? 0).
Qed.
End Packed.

(** ** The invariant *)
(** What a thread knows between its load and its next operation. *)
Definition pc_ok (w : Z) (p : pc) : Prop :=
  match p with
  | ReadCas cur => (lock_read cur).1 = true
  | WriteCas cur => (lock_write cur).1 = true
  | UpgradeCas cur => (lock_upgrade cur).1 = true
  | DowngradeCas cur => cur = w
  | SetStore desired v => set_value_exclusive v w = Ok desired /\ 0 <= v < 2 ^ 32
  | AssertionFailed => False
  | _ => True
  end.

Record lock_inv (s : lock_state) (v : Z) : Prop := mkLockInv {
  li_word : packs (ls_word s) v (tally holds_read (ls_threads s)) (tally holds_write (ls_threads s));
  li_excl : tally holds_write (ls_threads s) = 1 -> tally holds_read (ls_threads s) = 0;
  li_pcs : Forall (pc_ok (ls_word s)) (ls_threads s)
}.

Lemma pc_ok_frame w w' p : (holds_write p = true -> w' = w) -> pc_ok w p -> pc_ok w' p.
Proof. destruct p; simpl; try done; intros H; rewrite (H eq_refl); done. Qed.

(** A step keeps the invariant if the word it leaves packs the new counts and no other
    thread was writing when the word changed. *)
Lemma lock_inv_after w ts i p w' p' v v' :
  lock_inv (mkLockState w ts) v -> ts !! i = Some p ->
  packs w' v' (tally holds_read ts - (if holds_read p then 1 else 0) + (if holds_read p' then 1 else 0))
    (tally holds_write ts - (if holds_write p then 1 else 0) + (if holds_write p' then 1 else 0)) ->
  (holds_write p' = true ->
     tally holds_read ts - (if holds_read p then 1 else 0) + (if holds_read p' then 1 else 0) = 0) ->
  pc_ok w' p' -> (w' = w \/ holds_write p = true \/ tally holds_write ts = 0) ->
  lock_inv (mkLockState w' (<[i := p']> ts)) v'.
Proof.
  intros [Hw Hex Hpcs] Hi Hw' Hex' Hok Hchg. simpl in *. pose proof (pk_b _ _ _ _ Hw) as Hb.
  pose proof (pk_b _ _ _ _ Hw') as Hb'.
  split; cbn [ls_word ls_threads]; rewrite ?(tally_insert _ _ _ _ _ Hi); [done| |].
  - intros E. destruct (holds_write p') eqn:Ep'; [by apply Hex'|].
    destruct (holds_write p) eqn:Ep; [lia|]. specialize (Hex ltac:(lia)).
    pose proof (pk_r _ _ _ _ Hw'). destruct (holds_read p) eqn:Er.
    + pose proof (tally_pos holds_read ts i p Hi Er). lia.
    + destruct (holds_read p'); [|lia]. destruct Hchg as [->|[?|?]]; [|done|lia].
      pose proof (packed_readers _ _ _ _ Hw). pose proof (packed_readers _ _ _ _ Hw'). lia.
  - apply Forall_lookup. intros j q Hj. rewrite list_lookup_insert in Hj.
    case_decide as Hne; [by injection Hj as <-|].
    rewrite Forall_lookup in Hpcs. apply (pc_ok_frame w); [|by apply (Hpcs j)]. intros Hq.
    destruct Hchg as [->|[Hp|Hz]]; [done| |].
    + assert (i <> j) as Hij by (intros ->; apply Hne; split; [done|by eapply lookup_lt_Some]).
      pose proof (tally_two holds_write ts i j p q Hij Hi Hj Hp Hq). lia.
    + pose proof (tally_pos holds_write ts j q Hj Hq). lia.
Qed.

Lemma packs_cast w v r b r' b' : packs w v r b -> r' = r -> b' = b -> packs w v r' b'.
Proof. by intros H -> ->. Qed.

(** The value after a step: only the store of [set_value_exclusive] changes it. *)
Definition value_after (p : pc) (v : Z) : Z := match p with SetStore _ v' => v' | _ => v end.

Lemma lock_inv_step w ts i p w' p' v :
  lock_inv (mkLockState w ts) v -> zlen ts < 2 ^ 31 -> ts !! i = Some p -> thread_step w p w' p' ->
  lock_inv (mkLockState w' (<[i := p']> ts)) (value_after p v).
Proof.
  intros HI Hn Hi Hst. pose proof (li_word _ _ HI) as Hw. pose proof (li_excl _ _ HI) as Hex.
  pose proof (li_pcs _ _ HI) as Hpcs. rewrite Forall_lookup in Hpcs. specialize (Hpcs i p Hi).
  cbn [ls_word ls_threads] in *. pose proof (tally_range holds_read ts) as Hr.
  pose proof (tally_range holds_write ts) as Hwr.
  pose proof (packed_has_writer _ _ _ _ Hw) as Ewr. pose proof (packed_has_readers _ _ _ _ Hw) as Erd.
  pose proof (packed_writer _ _ _ _ Hw) as Ebit. pose proof (packed_counts _ _ _ _ Hw) as Ecnt.
  pose proof (pk_b _ _ _ _ Hw) as Hb.
  assert (holds_read p = true -> 1 <= tally holds_read ts) as Hpr by (by eapply tally_pos).
  assert (holds_write p = true -> 1 <= tally holds_write ts) as Hpw by (by eapply tally_pos).
  assert (forall q, holds_read q = holds_read p -> holds_write q = holds_write p -> pc_ok w q ->
    value_after p v = v -> lock_inv (mkLockState w (<[i := q]> ts)) v) as Hsame.
  { intros q E1 E2 Hq _. eapply lock_inv_after; [exact HI|exact Hi| | |exact Hq|by left].
    - eapply packs_cast; [exact Hw|rewrite E1; lia|rewrite E2; lia].
    - rewrite E1, E2. intros Ew. specialize (Hpw Ew). lia. }
  pose proof (packed_read _ _ _ _ Hw) as Eread. pose proof (packed_write _ _ _ _ Hw) as Ewrite.
  pose proof (packed_upgrade _ _ _ _ Hw) as Eup. pose proof (packed_downgrade _ _ _ _ Hw) as Edown.
  pose proof (packed_unlock_write _ _ _ _ Hw) as Eand.
  destruct Hst as
    [w Hw0|w Hw0|w|w cur Hne|w Hw0|w Hw0|w|w cur Hne|w Hc|w Hc|w|w cur Hne|w d Hd|w Hd|w d Hd|w cur Hne
    |p w [->| ->] Hb1|p w [->| ->] Hb0 Hr1|p w [->| ->] Hb0 Hr0|w d Hd|w Hd|w|w x d Hx Hd|w x Hd|w d x];
    simpl in Hpcs, Hpr, Hpw |- *.
  all: try (apply Hsame; (done || simpl; done)).
  all: try (specialize (Hpr eq_refl)); try (specialize (Hpw eq_refl)).
  - (* read *) rewrite Eread in *. destruct (Z.eqb_spec (tally holds_write ts) 1); [done|].
    assert (tally holds_write ts = 0) as Hz by lia. pose proof (tally_lt holds_read ts i _ Hi eq_refl).
    eapply lock_inv_after; [exact HI|exact Hi| |done|done|by right; right].
    eapply packs_cast; [exact (packs_add_reader _ _ _ _ Hw Hz ltac:(lia))|simpl; lia|simpl; lia].
  - (* write *) rewrite Ewrite in *. destruct (Z.eqb_spec (tally holds_write ts) 1), (Z.eqb_spec (tally holds_read ts) 0); try done.
    assert (tally holds_write ts = 0) as Hz by lia.
    eapply lock_inv_after; [exact HI|exact Hi| |simpl; lia|done|by right; right].
    eapply packs_cast; [exact (packs_set_writer _ _ _ _ Hw ltac:(done) Hz)|simpl; lia|simpl; lia].
  - (* upgrade *) rewrite Eup in *. destruct (Z.eqb_spec (2 * tally holds_read ts + tally holds_write ts) 2); [|done].
    eapply lock_inv_after; [exact HI|exact Hi| |simpl; lia|done|right; right; lia].
    eapply packs_cast; [exact (packs_upgrade _ _ _ _ Hw)|simpl; lia|simpl; lia].
  - (* downgrade without the lock *) exfalso. rewrite Hd in Edown. destruct (Z.eqb_spec (tally holds_write ts) 1); [done|lia].
  - (* downgrade *) rewrite Hd in Edown. destruct (Z.eqb_spec (tally holds_write ts) 1); [|done]. injection Edown as ->. specialize (Hex ltac:(lia)).
    eapply lock_inv_after; [exact HI|exact Hi| |done|done|by right; left].
    eapply packs_cast; [exact (packs_downgrade _ _ _ _ Hw)|simpl; lia|simpl; lia].
  - exfalso. destruct Hb as [Hb|Hb]; [lia|]. specialize (Hex Hb). lia.
  - exfalso. lia.
  - exfalso. rewrite (packed_unlock _ _ _ _ Hw) in Hr0 by lia. destruct (Z.eqb_spec (tally holds_read ts) 0); [lia|done].
  - exfalso. lia.
  - (* unlock of a writer *) rewrite Hd in Eand. destruct (Z.eqb_spec (tally holds_read ts) 0); [|done]. injection Eand as ->.
    eapply lock_inv_after; [exact HI|exact Hi| |done|done|by right; left].
    eapply packs_cast; [exact (packs_clear_writer _ _ _ _ Hw)|simpl; lia|simpl; lia].
  - exfalso. rewrite Hd in Eand. specialize (Hex ltac:(lia)). by rewrite Hex in Eand.
  - (* unlock of a reader *)
    eapply lock_inv_after; [exact HI|exact Hi| |done|done|right; right; destruct Hb as [Hb|Hb]; [done|specialize (Hex Hb); lia]].
    eapply packs_cast; [exact (packs_sub_reader _ _ _ _ Hw ltac:(lia))|simpl; lia|simpl; lia].
  - exfalso. rewrite (packed_set _ _ _ _ Hw) in Hd. destruct (Z.eqb_spec (tally holds_write ts) 1); [done|lia].
  - (* set value *) destruct Hpcs as [Hd Hx]. rewrite (packed_set _ _ _ _ Hw) in Hd. destruct (Z.eqb_spec (tally holds_write ts) 1); [|done].
    injection Hd as <-. specialize (Hex ltac:(lia)).
    eapply lock_inv_after; [exact HI|exact Hi| |simpl; lia|done|by right; left].
    eapply packs_cast; [exact (packs_set_value _ _ _ _ Hw x Hx)|simpl; lia|simpl; lia].
Qed.

Lemma lock_inv_init n v : 0 <= v < 2 ^ 32 -> lock_inv (initial_lock n v) v.
Proof.
  intros Hv. assert (forall f, f Idle = false -> tally f (replicate n Idle) = 0) as Ht.
  { intros f Hf. induction n as [|n IH]; simpl; [done|]. rewrite Hf. lia. }
  split; unfold initial_lock, VALUE_SHIFT; cbn [ls_word ls_threads]; rewrite ?Ht by done; [|done|].
  - rewrite Z.shiftl_mul_pow2 by lia. split; lia.
  - apply Forall_replicate. done.
Qed.

Lemma lock_inv_reachable n v s :
  0 <= v < 2 ^ 32 -> Z.of_nat n < 2 ^ 31 -> rtc lock_step (initial_lock n v) s ->
  length (ls_threads s) = n /\ exists v', lock_inv s v'.
Proof.
  intros Hv Hn. remember (initial_lock n v) as s0 eqn:Es0.
  assert (length (ls_threads s0) = n /\ exists v', lock_inv s0 v') as H0.
  { subst. split; [apply length_replicate|]. exists v. by apply lock_inv_init. }
  clear Es0. intros Hr. induction Hr as [s|s s1 s2 Hstep Hr IH]; [done|]. apply IH.
  destruct H0 as [Hl [v' HI]]. destruct Hstep as [w ts i p w' p' Hi Hst].
  simpl in *. split; [by rewrite length_insert|]. eexists.
  eapply lock_inv_step; [exact HI|unfold zlen; lia|exact Hi|exact Hst].
Qed.

(** C28: The lock excludes, and its word is exact.  From any initial value, with any number of
    threads below two to the 31st running the lock's operations in any interleaving of their loads,
    stores and compare-and-exchanges: never do a writer and a reader, or two writers, hold the lock
    together, and no assertion of the lock fails.  The word counts the threads that hold the lock
    for reading and has the writer bit exactly when one holds it for writing; so at each moment
    [read] succeeds exactly when nobody writes, [write] when nobody holds the lock, [upgrade] when
    one thread reads, and [held_value] has a value exactly when somebody reads.  Only the store of
    [set_value_exclusive] changes the embedded value, the read mark; in particular no step changes
    it while some thread holds the lock for reading. *)
Theorem lock_excludes n v s i p w' p' :
  0 <= v < 2 ^ 32 -> Z.of_nat n < 2 ^ 31 -> rtc lock_step (initial_lock n v) s ->
  ls_threads s !! i = Some p -> thread_step (ls_word s) p w' p' ->
  let w := ls_word s in
  let readers := tally holds_read (ls_threads s) in
  let writers := tally holds_write (ls_threads s) in
  (forall i j p q, ls_threads s !! i = Some p -> ls_threads s !! j = Some q -> i <> j ->
     holds_write p = true -> holds_write q = false /\ holds_read q = false) /\
  (AssertionFailed ∉ ls_threads s) /\ p' <> AssertionFailed /\
  Z.land w READER_COUNT_MASK = readers * READER_INC /\ has_writer w = (writers =? 1) /\
  (lock_read w).1 = (writers =? 0) /\ (lock_write w).1 = (writers + readers =? 0) /\
  (lock_upgrade w).1 = ((writers =? 0) && (readers =? 1)) /\
  held_value w = (if readers =? 0 then None else Some (get_value w)) /\
  get_value w' = match p with SetStore _ v' => v' | _ => get_value w end /\
  (0 < readers -> get_value w' = get_value w).
Proof.
  intros Hv Hn Hr Hi Hst w readers writers. destruct (lock_inv_reachable n v s Hv Hn Hr) as [Hl [v0 HI]].
  pose proof HI as [Hw Hex Hpcs]. pose proof (pk_b _ _ _ _ Hw) as Hb. destruct s as [w0 ts]. simpl in Hw, Hex, Hpcs, Hb, Hi, Hst, Hl.
  pose proof (lock_inv_step w0 ts i p w' p' v0 HI ltac:(unfold zlen; lia) Hi Hst) as HI'. subst w readers writers. simpl.
  pose proof (tally_range holds_read ts). pose proof (tally_range holds_write ts).
  assert (get_value w' = value_after p v0) as Hval by exact (packed_get_value _ _ _ _ (li_word _ _ HI')).
  pose proof (packed_get_value _ _ _ _ Hw) as Hv0. split_and!.
  - intros i1 j1 p1 q1 Hi1 Hj1 Hij Hp1. pose proof (tally_pos holds_write _ _ _ Hi1 Hp1).
    split; apply not_true_is_false; intros Hq.
    + pose proof (tally_two holds_write _ i1 j1 p1 q1 Hij Hi1 Hj1 Hp1 Hq). lia.
    + pose proof (tally_pos holds_read _ _ _ Hj1 Hq). specialize (Hex ltac:(lia)). lia.
  - intros (j & Hj)%list_elem_of_lookup. rewrite Forall_lookup in Hpcs. exact (Hpcs j _ Hj).
  - intros ->. pose proof (li_pcs _ _ HI') as Hpcs'. rewrite Forall_lookup in Hpcs'. apply (Hpcs' i AssertionFailed). simpl.
    apply list_lookup_insert_eq. by eapply lookup_lt_Some.
  - rewrite (packed_readers _ _ _ _ Hw). unfold READER_INC. lia.
  - exact (packed_has_writer _ _ _ _ Hw).
  - rewrite (packed_read _ _ _ _ Hw). by destruct Hb as [-> | ->].
  - rewrite (packed_write _ _ _ _ Hw). destruct (Z.eqb_spec (tally holds_write ts) 1), (Z.eqb_spec (tally holds_read ts) 0);
      symmetry; first [apply Z.eqb_eq; lia|apply Z.eqb_neq; lia].
  - rewrite (packed_upgrade _ _ _ _ Hw). destruct (Z.eqb_spec (2 * tally holds_read ts + tally holds_write ts) 2),
      (Z.eqb_spec (tally holds_write ts) 0), (Z.eqb_spec (tally holds_read ts) 1); (done || lia).
  - unfold held_value, get_value. rewrite (packed_has_readers _ _ _ _ Hw). by destruct (tally holds_read ts =? 0).
  - rewrite Hval, Hv0. by destruct p.
  - intros Hrd. rewrite Hval, Hv0. destruct p; try done. pose proof (tally_pos holds_write ts i _ Hi eq_refl). lia.
Qed.

(** Two threads: one acquires for reading while the other loads the word. *)
Definition lock_example : lock_state := mkLockState (Z.shiftl 7 32 + 2) [Reading; Idle].

Lemma lock_example_reachable : rtc lock_step (initial_lock 2 7) lock_example.
Proof.
  eapply rtc_l.
  { eapply (lock_step_thread _ _ 0%nat Idle); [done|]. by apply step_read_load. }
  eapply rtc_l.
  { eapply (lock_step_thread _ _ 0%nat (ReadCas (Z.shiftl 7 32))); [done|]. apply step_read_cas. }
  apply rtc_refl.
Qed.

Lemma lock_excludes_witness :
  get_value (ls_word lock_example) = 7 /\ held_value (ls_word lock_example) = Some (get_value (ls_word lock_example)).
Proof.
  split; [vm_compute; reflexivity|].
  refine (proj1 (proj2 (proj2 (proj2 (proj2 (proj2 (proj2 (proj2 (proj2
    (lock_excludes 2 7 lock_example 1 Idle (Z.shiftl 7 32 + 2) (ReadCas (Z.shiftl 7 32 + 2)) _ _ lock_example_reachable eq_refl _)))))))))).
  - lia.
  - vm_compute. reflexivity.
  - apply step_read_load. vm_compute. reflexivity.
Defined.
