(* ===== verification/WalShared.v ===== *)
(** * The shared state of the write-ahead log ([WalFileShared], [src/core/storage/wal.rs])

    Metadata and process-local runtime as records; atomics and the values behind
    spin locks are plain fields, since every function of the model holds the
    outer lock the code holds. *)
From stdpp Require Import gmap.
From S2P Require Import Prelude Errors OnDisk WalFormat WalLock.

Record WalSharedMetadata := mkMetadata {
  md_enabled : bool;
  md_wal_header : WalHeader;
  md_min_frame : Z;
  md_max_frame : Z;
  md_nbackfills : Z;
  md_transaction_count : Z;
  md_last_checksum : Z * Z;
  md_loaded : bool;
  md_loaded_from_disk_scan : bool;
  md_initialized : bool
}.

Record OverflowFallbackCoverage := mkCoverage {
  cv_checkpoint_seq : Z;
  cv_salt_1 : Z;
  cv_salt_2 : Z;
  cv_max_frame : Z;
  cv_valid : bool
}.

Definition coverage_default : OverflowFallbackCoverage := mkCoverage 0 0 0 0 false.
Definition coverage_clear (_ : OverflowFallbackCoverage) : OverflowFallbackCoverage := coverage_default.
Definition coverage_record (checkpoint_seq salt_1 salt_2 max_frame : Z) (c : OverflowFallbackCoverage)
    : OverflowFallbackCoverage :=
  if max_frame =? 0 then coverage_clear c
  else mkCoverage checkpoint_seq salt_1 salt_2 max_frame true.

Record WalSharedRuntime := mkRuntime {
  rt_frame_cache : gmap Z (list Z);
  rt_frame_cache_high_water : Z;
  rt_read_locks : list Z;
  rt_vacuum_lock : Z;
  rt_write_lock : Z;
  rt_checkpoint_lock : Z;
  rt_epoch : Z;
  rt_overflow_fallback_coverage : OverflowFallbackCoverage
}.

Record WalFileShared := mkShared { metadata : WalSharedMetadata; runtime : WalSharedRuntime }.

(** ** Field updates *)
Definition with_metadata (s : WalFileShared) (m : WalSharedMetadata) : WalFileShared :=
  mkShared m (runtime s).
Definition with_runtime (s : WalFileShared) (r : WalSharedRuntime) : WalFileShared :=
  mkShared (metadata s) r.

Definition set_wal_header (h : WalHeader) (s : WalFileShared) : WalFileShared :=
  let m := metadata s in
  with_metadata s (mkMetadata (md_enabled m) h (md_min_frame m) (md_max_frame m) (md_nbackfills m)
    (md_transaction_count m) (md_last_checksum m) (md_loaded m) (md_loaded_from_disk_scan m)
    (md_initialized m)).
Definition set_max_frame (x : Z) (s : WalFileShared) : WalFileShared :=
  let m := metadata s in
  with_metadata s (mkMetadata (md_enabled m) (md_wal_header m) (md_min_frame m) x (md_nbackfills m)
    (md_transaction_count m) (md_last_checksum m) (md_loaded m) (md_loaded_from_disk_scan m)
    (md_initialized m)).
Definition set_nbackfills (x : Z) (s : WalFileShared) : WalFileShared :=
  let m := metadata s in
  with_metadata s (mkMetadata (md_enabled m) (md_wal_header m) (md_min_frame m) (md_max_frame m) x
    (md_transaction_count m) (md_last_checksum m) (md_loaded m) (md_loaded_from_disk_scan m)
    (md_initialized m)).
Definition set_transaction_count (x : Z) (s : WalFileShared) : WalFileShared :=
  let m := metadata s in
  with_metadata s (mkMetadata (md_enabled m) (md_wal_header m) (md_min_frame m) (md_max_frame m)
    (md_nbackfills m) x (md_last_checksum m) (md_loaded m) (md_loaded_from_disk_scan m)
    (md_initialized m)).
Definition set_last_checksum (x : Z * Z) (s : WalFileShared) : WalFileShared :=
  let m := metadata s in
  with_metadata s (mkMetadata (md_enabled m) (md_wal_header m) (md_min_frame m) (md_max_frame m)
    (md_nbackfills m) (md_transaction_count m) x (md_loaded m) (md_loaded_from_disk_scan m)
    (md_initialized m)).
Definition set_loaded (x : bool) (s : WalFileShared) : WalFileShared :=
  let m := metadata s in
  with_metadata s (mkMetadata (md_enabled m) (md_wal_header m) (md_min_frame m) (md_max_frame m)
    (md_nbackfills m) (md_transaction_count m) (md_last_checksum m) x (md_loaded_from_disk_scan m)
    (md_initialized m)).
Definition set_initialized (x : bool) (s : WalFileShared) : WalFileShared :=
  let m := metadata s in
  with_metadata s (mkMetadata (md_enabled m) (md_wal_header m) (md_min_frame m) (md_max_frame m)
    (md_nbackfills m) (md_transaction_count m) (md_last_checksum m) (md_loaded m)
    (md_loaded_from_disk_scan m) x).

Definition set_frame_cache (x : gmap Z (list Z)) (s : WalFileShared) : WalFileShared :=
  let r := runtime s in
  with_runtime s (mkRuntime x (rt_frame_cache_high_water r) (rt_read_locks r) (rt_vacuum_lock r)
    (rt_write_lock r) (rt_checkpoint_lock r) (rt_epoch r) (rt_overflow_fallback_coverage r)).
Definition set_high_water (x : Z) (s : WalFileShared) : WalFileShared :=
  let r := runtime s in
  with_runtime s (mkRuntime (rt_frame_cache r) x (rt_read_locks r) (rt_vacuum_lock r)
    (rt_write_lock r) (rt_checkpoint_lock r) (rt_epoch r) (rt_overflow_fallback_coverage r)).
Definition set_read_locks (x : list Z) (s : WalFileShared) : WalFileShared :=
  let r := runtime s in
  with_runtime s (mkRuntime (rt_frame_cache r) (rt_frame_cache_high_water r) x (rt_vacuum_lock r)
    (rt_write_lock r) (rt_checkpoint_lock r) (rt_epoch r) (rt_overflow_fallback_coverage r)).
Definition set_write_lock (x : Z) (s : WalFileShared) : WalFileShared :=
  let r := runtime s in
  with_runtime s (mkRuntime (rt_frame_cache r) (rt_frame_cache_high_water r) (rt_read_locks r)
    (rt_vacuum_lock r) x (rt_checkpoint_lock r) (rt_epoch r) (rt_overflow_fallback_coverage r)).
Definition set_checkpoint_lock (x : Z) (s : WalFileShared) : WalFileShared :=
  let r := runtime s in
  with_runtime s (mkRuntime (rt_frame_cache r) (rt_frame_cache_high_water r) (rt_read_locks r)
    (rt_vacuum_lock r) (rt_write_lock r) x (rt_epoch r) (rt_overflow_fallback_coverage r)).
Definition set_epoch (x : Z) (s : WalFileShared) : WalFileShared :=
  let r := runtime s in
  with_runtime s (mkRuntime (rt_frame_cache r) (rt_frame_cache_high_water r) (rt_read_locks r)
    (rt_vacuum_lock r) (rt_write_lock r) (rt_checkpoint_lock r) x (rt_overflow_fallback_coverage r)).
Definition set_coverage (x : OverflowFallbackCoverage) (s : WalFileShared) : WalFileShared :=
  let r := runtime s in
  with_runtime s (mkRuntime (rt_frame_cache r) (rt_frame_cache_high_water r) (rt_read_locks r)
    (rt_vacuum_lock r) (rt_write_lock r) (rt_checkpoint_lock r) (rt_epoch r) x).

(** No lock is held. *)
Definition unlocked (w : Z) : Prop := exists v, packs w v 0 0.
Definition locks_free (s : WalFileShared) : Prop :=
  let r := runtime s in
  zlen (rt_read_locks r) = 5 /\ Forall unlocked (rt_read_locks r) /\
  unlocked (rt_vacuum_lock r) /\ unlocked (rt_write_lock r) /\ unlocked (rt_checkpoint_lock r).

(** The projections of an updated state compute. *)
Ltac shared_simpl :=
  cbn [metadata runtime with_metadata with_runtime set_wal_header set_max_frame set_nbackfills
    set_transaction_count set_last_checksum set_loaded set_initialized set_frame_cache set_high_water
    set_read_locks set_write_lock set_checkpoint_lock set_epoch set_coverage
    md_enabled md_wal_header md_min_frame md_max_frame md_nbackfills md_transaction_count
    md_last_checksum md_loaded md_loaded_from_disk_scan md_initialized
    rt_frame_cache rt_frame_cache_high_water rt_read_locks rt_vacuum_lock rt_write_lock
    rt_checkpoint_lock rt_epoch rt_overflow_fallback_coverage].
