(* ===== verification/WalRecovery.v ===== *)
(** * Recovery of the write-ahead log on open ([src/core/storage/sqlite3_ondisk.rs])

    [BuildSharedWal] and [StreamingWalReader]: the log file is read in chunks, each
    frame is checked against the salts and the running checksum, and the frame
    index is published commit by commit.  [pread] is the file; an operation of
    the model runs the completion callback when it submits the read. *)
From stdpp Require Import gmap.
From S2P Require Import Prelude Errors OnDisk WalFormat WalLock WalShared.

Record StreamingState := mkStreaming {
  ss_frame_idx : Z;
  ss_cumulative_checksum : Z * Z;
  ss_last_valid_checksum : Z * Z;
  ss_last_valid_frame : Z;
  ss_pending_frames : gmap Z (list Z);
  ss_page_size : Z;
  ss_use_native_endian : bool;
  ss_header_valid : bool
}.

(** The reader shares the header with the metadata of [sr_shared]. *)
Record StreamingWalReader := mkReader {
  sr_shared : WalFileShared;
  sr_file_size : Z;
  sr_state : StreamingState;
  sr_off_atomic : Z;
  sr_page_atomic : Z;
  sr_done : bool
}.

Definition with_shared (s : WalFileShared) (r : StreamingWalReader) : StreamingWalReader :=
  mkReader s (sr_file_size r) (sr_state r) (sr_off_atomic r) (sr_page_atomic r) (sr_done r).
Definition with_state (st : StreamingState) (r : StreamingWalReader) : StreamingWalReader :=
  mkReader (sr_shared r) (sr_file_size r) st (sr_off_atomic r) (sr_page_atomic r) (sr_done r).
Definition with_off (o : Z) (r : StreamingWalReader) : StreamingWalReader :=
  mkReader (sr_shared r) (sr_file_size r) (sr_state r) o (sr_page_atomic r) (sr_done r).

Definition reader_new (shared : WalFileShared) (file_size : Z) : StreamingWalReader :=
  mkReader shared file_size (mkStreaming 1 (0, 0) (0, 0) 0 ∅ 0 false false) 0 0 false.

(** [frames.retain(|&f| f <= bound)] *)
Definition retain_upto (bound : Z) (frames : list Z) : list Z := filter (fun f => f <= bound) frames.

(** [for (page, frames) in pending.drain()]: one entry. *)
Definition flush_entry (last_valid_frame page : Z) (frames : list Z) (cache : gmap Z (list Z))
    : gmap Z (list Z) :=
  let frames := retain_upto last_valid_frame frames in
  if bool_decide (frames = []) then cache
  else <[page := default [] (cache !! page) ++ frames]> cache.

Definition flush_pending_frames (r : StreamingWalReader) : StreamingWalReader :=
  let st := sr_state r in
  if bool_decide (ss_pending_frames st = ∅) then r
  else
    let s := sr_shared r in
    let cache := map_fold (flush_entry (ss_last_valid_frame st)) (rt_frame_cache (runtime s))
                   (ss_pending_frames st) in
    let s := set_frame_cache cache s in
    let s := set_max_frame (ss_last_valid_frame st) s in
    let s := set_high_water (Z.max (rt_frame_cache_high_water (runtime s)) (ss_last_valid_frame st)) s in
    with_shared s (with_state
      (mkStreaming (ss_frame_idx st) (ss_cumulative_checksum st) (ss_last_valid_checksum st)
         (ss_last_valid_frame st) ∅ (ss_page_size st) (ss_use_native_endian st) (ss_header_valid st)) r).

Definition finalize_loading (r : StreamingWalReader) : StreamingWalReader :=
  let st := sr_state r in
  let s := sr_shared r in
  let max_frame := ss_last_valid_frame st in
  let h := md_wal_header (metadata s) in
  let s :=
    if 0 <? max_frame then
      let cache := filter (fun kv => kv.2 <> []) (retain_upto max_frame <$> rt_frame_cache (runtime s)) in
      set_coverage (coverage_record (wh_checkpoint_seq h) (wh_salt_1 h) (wh_salt_2 h) max_frame
                      (rt_overflow_fallback_coverage (runtime s))) (set_frame_cache cache s)
    else set_coverage (coverage_clear (rt_overflow_fallback_coverage (runtime s))) s in
  let s := set_last_checksum (ss_last_valid_checksum st) (set_max_frame max_frame s) in
  let s := if ss_header_valid st then set_initialized true s else s in
  let s := set_loaded true (set_nbackfills 0 s) in
  mkReader s (sr_file_size r) st (sr_off_atomic r) (sr_page_atomic r) true.

Section Host.
Context (host_big : bool).

Definition handle_header_read (res : option (list Z)) (r : StreamingWalReader)
    : result StreamingWalReader :=
  match res with
  | None => Ok (finalize_loading r)
  | Some buf =>
      if negb (zlen buf =? WAL_HEADER_SIZE) then Ok (finalize_loading r)
      else
        let h := mkWalHeader (be_at 4 buf 0) (be_at 4 buf 4) (be_at 4 buf 8) (be_at 4 buf 12)
                   (be_at 4 buf 16) (be_at 4 buf 20) (be_at 4 buf 24) (be_at 4 buf 28) in
        let r := with_shared (set_wal_header h (sr_shared r)) r in
        let use_native := use_native_of host_big (wh_magic h) in
        prefix ← or_panic (zslice buf 0 24);
        calc ← checksum_wal host_big prefix (0, 0) use_native;
        let ok := bool_decide (calc = (wh_checksum_1 h, wh_checksum_2 h)) in
        let page_sz := wh_page_size h in
        if bool_decide (PageSize_new page_sz = None) || negb ok then Ok (finalize_loading r)
        else
          let st := sr_state r in
          let c := (wh_checksum_1 h, wh_checksum_2 h) in
          Ok (mkReader (sr_shared r) (sr_file_size r)
                (mkStreaming (ss_frame_idx st) c c (ss_last_valid_frame st) (ss_pending_frames st)
                   page_sz use_native true) WAL_HEADER_SIZE page_sz (sr_done r))
  end.

(** One iteration of [process_frames] on a frame header and page: [None] stops the scan. *)
Definition process_frame (header : WalHeader) (use_native : bool) (fh page : list Z)
    (r : StreamingWalReader) : result (option StreamingWalReader) :=
  let st := sr_state r in
  let page_no := be_at 4 fh 0 in
  let db_size := be_at 4 fh 4 in
  let s1 := be_at 4 fh 8 in
  let s2 := be_at 4 fh 12 in
  let c1 := be_at 4 fh 16 in
  let c2 := be_at 4 fh 20 in
  if page_no =? 0 then Ok None
  else if negb (s1 =? wh_salt_1 header) || negb (s2 =? wh_salt_2 header) then Ok None
  else
    prefix ← or_panic (zslice fh 0 8);
    seed ← checksum_wal host_big prefix (ss_cumulative_checksum st) use_native;
    calc ← checksum_wal host_big page seed use_native;
    if negb (bool_decide (calc = (c1, c2))) then Ok None
    else
      let frame_idx := ss_frame_idx st in
      let pending := <[page_no := default [] (ss_pending_frames st !! page_no) ++ [frame_idx]]>
                       (ss_pending_frames st) in
      let r :=
        if 0 <? db_size then
          flush_pending_frames (with_state
            (mkStreaming frame_idx calc calc frame_idx pending (ss_page_size st)
               (ss_use_native_endian st) (ss_header_valid st)) r)
        else
          with_state
            (mkStreaming frame_idx calc (ss_last_valid_checksum st) (ss_last_valid_frame st) pending
               (ss_page_size st) (ss_use_native_endian st) (ss_header_valid st)) r in
      let st := sr_state r in
      Ok (Some (with_state
        (mkStreaming (ss_frame_idx st + 1) (ss_cumulative_checksum st) (ss_last_valid_checksum st)
           (ss_last_valid_frame st) (ss_pending_frames st) (ss_page_size st)
           (ss_use_native_endian st) (ss_header_valid st)) r)).

Fixpoint process_frames_loop (fuel : nat) (buf : list Z) (header : WalHeader) (use_native : bool)
    (pos : Z) (r : StreamingWalReader) : result (Z * StreamingWalReader) :=
  match fuel with
  | O => Panic
  | S fuel =>
      let frame_size := WAL_FRAME_HEADER_SIZE + ss_page_size (sr_state r) in
      if pos + frame_size <=? zlen buf then
        fh ← or_panic (zslice buf pos (pos + WAL_FRAME_HEADER_SIZE));
        page ← or_panic (zslice buf (pos + WAL_FRAME_HEADER_SIZE) (pos + frame_size));
        o ← process_frame header use_native fh page r;
        match o with
        | None => Ok (pos, r)
        | Some r => process_frames_loop fuel buf header use_native (pos + frame_size) r
        end
      else Ok (pos, r)
  end.

(** Every iteration consumes a frame, so the length of the buffer bounds them. *)
Definition process_frames (buf : list Z) (header : WalHeader) (use_native : bool)
    (r : StreamingWalReader) : result (Z * StreamingWalReader) :=
  process_frames_loop (S (length buf)) buf header use_native 0 r.

Definition handle_chunk_read (res : option (list Z)) (r : StreamingWalReader)
    : result StreamingWalReader :=
  match res with
  | None => Ok (finalize_loading r)
  | Some buf =>
      let header := md_wal_header (metadata (sr_shared r)) in
      '(consumed, r) ← process_frames buf header (ss_use_native_endian (sr_state r)) r;
      let r := with_off (sr_off_atomic r + consumed) r in
      Ok (if (consumed <? zlen buf) || (sr_file_size r <=? sr_off_atomic r)
          then finalize_loading r else r)
  end.

(** ** The driver *)
Context (pread : Z -> Z -> option (list Z)).

Definition CHUNK_BASE : Z := 16 * 1024 * 1024.

(** The size of the next read. *)
Definition chunk_size (page_size remaining : Z) : Z :=
  let frame_size := WAL_FRAME_HEADER_SIZE + page_size in
  let aligned := CHUNK_BASE / frame_size * frame_size in
  Z.min (Z.max aligned frame_size) remaining.

(** [submit_one_chunk] with its callback: whether the read completed, and the reader. *)
Definition submit_one_chunk (offset : Z) (r : StreamingWalReader)
    : result (bool * StreamingWalReader) :=
  let page_size := sr_page_atomic r in
  bail_if (page_size =? 0) InternalError ;;
  let frame_size := WAL_FRAME_HEADER_SIZE + page_size in
  bail_if (frame_size =? 0) InternalError ;;
  let read_size := chunk_size page_size (sr_file_size r - offset) in
  if read_size =? 0 then Ok (true, r)
  else
    let res := pread offset read_size in
    r ← handle_chunk_read res r;
    Ok (bool_decide (is_Some res), r).

Inductive BuildSharedWalPhase :=
| NeedHeaderRead
| AwaitHeader (succeeded : bool)
| ChunkLoop
| AwaitChunk (succeeded : bool) (offset : Z)
| PhaseDone.

(** What one turn of [poll]'s loop does: go on, yield the completion, or finish. *)
Inductive poll_result :=
| PollContinue (phase : BuildSharedWalPhase) (r : StreamingWalReader)
| PollYield
| PollDone (shared : WalFileShared).

Definition poll_step (phase : BuildSharedWalPhase) (r : StreamingWalReader) : result poll_result :=
  match phase with
  | NeedHeaderRead =>
      let res := pread 0 WAL_HEADER_SIZE in
      r ← handle_header_read res r;
      Ok (PollContinue (AwaitHeader (bool_decide (is_Some res))) r)
  | AwaitHeader succeeded =>
      if succeeded then Ok (PollContinue ChunkLoop r) else Ok PollYield
  | ChunkLoop =>
      if sr_done r then Ok (PollContinue PhaseDone r)
      else
        let offset := sr_off_atomic r in
        if sr_file_size r <=? offset then Ok (PollContinue PhaseDone (finalize_loading r))
        else
          '(succeeded, r) ← submit_one_chunk offset r;
          Ok (PollContinue (AwaitChunk succeeded offset) r)
  | AwaitChunk succeeded offset =>
      if negb succeeded then Ok PollYield
      else if sr_off_atomic r <=? offset then Ok (PollContinue PhaseDone (finalize_loading r))
      else Ok (PollContinue ChunkLoop r)
  | PhaseDone => Ok (PollDone (sr_shared r))
  end.

Fixpoint poll (fuel : nat) (phase : BuildSharedWalPhase) (r : StreamingWalReader)
    : result (option WalFileShared) :=
  match fuel with
  | O => Panic
  | S fuel =>
      res ← poll_step phase r;
      match res with
      | PollContinue phase r => poll fuel phase r
      | PollYield => Ok None
      | PollDone s => Ok (Some s)
      end
  end.

Definition init_read_lock (i : Z) : result Z :=
  w ← set_value_exclusive (if i <? 2 then 0 else READMARK_NOT_USED) (lock_write lock_new).2;
  lock_unlock w.

(** The shared state [BuildSharedWal::begin] builds. *)
Definition shared_new : result WalFileShared :=
  l0 ← init_read_lock 0;
  l1 ← init_read_lock 1;
  l2 ← init_read_lock 2;
  l3 ← init_read_lock 3;
  l4 ← init_read_lock 4;
  Ok (mkShared
    (mkMetadata true (WalHeader_new host_big) 0 0 0 0 (0, 0) false true false)
    (mkRuntime ∅ 0 [l0; l1; l2; l3; l4] lock_new lock_new lock_new 0 coverage_default)).

(** [build_shared_wal]: [begin] and [poll] until done, for a file of [size] bytes. *)
Definition build_shared_wal (fuel : nat) (size : Z) : result (option WalFileShared) :=
  s ← shared_new;
  if size <? WAL_HEADER_SIZE then Ok (Some (set_loaded true s))
  else poll fuel NeedHeaderRead (reader_new s size).
End Host.

(** ** A log and what recovery should find in it *)
Record wal_frame := mkWalFrame { wf_page : Z; wf_db_size : Z; wf_data : list Z }.

Definition frame_ok (ps : Z) (f : wal_frame) : Prop :=
  0 < wf_page f < 2 ^ 32 /\ in_u 32 (wf_db_size f) /\ zlen (wf_data f) = ps.

(** The bytes of the frames, each with the running checksum, and the checksum after them. *)
Fixpoint log_bytes (hb : bool) (h : WalHeader) (c : Z * Z) (fs : list wal_frame) : list Z :=
  match fs with
  | [] => []
  | f :: fs =>
      let c := frame_checksum hb h c (wf_page f) (wf_db_size f) (wf_data f) in
      frame_bytes h c (wf_page f) (wf_db_size f) (wf_data f) ++ log_bytes hb h c fs
  end.

Definition log_checksum (hb : bool) (h : WalHeader) (c : Z * Z) (fs : list wal_frame) : Z * Z :=
  foldl (fun c f => frame_checksum hb h c (wf_page f) (wf_db_size f) (wf_data f)) c fs.

(** The numbers of the frames of page [p], the first frame having number [i]. *)
Fixpoint positions (p i : Z) (fs : list wal_frame) : list Z :=
  match fs with
  | [] => []
  | f :: fs => (if wf_page f =? p then [i] else []) ++ positions p (i + 1) fs
  end.

(** The number of the last commit frame, [acc] if there is none. *)
Fixpoint last_commit_from (i acc : Z) (fs : list wal_frame) : Z :=
  match fs with
  | [] => acc
  | f :: fs => last_commit_from (i + 1) (if 0 <? wf_db_size f then i else acc) fs
  end.
Definition last_commit (fs : list wal_frame) : Z := last_commit_from 1 0 fs.

Definition nonempty (l : list Z) : option (list Z) := match l with [] => None | _ => Some l end.

(** The projections of an updated reader compute. *)
Ltac reader_simpl :=
  cbn [sr_shared sr_file_size sr_state with_state with_shared with_off ss_pending_frames ss_frame_idx
    ss_last_valid_frame ss_cumulative_checksum ss_last_valid_checksum ss_page_size
    ss_use_native_endian ss_header_valid sr_off_atomic sr_page_atomic sr_done].

Lemma positions_snoc p fs f : forall i,
  positions p i (fs ++ [f]) = positions p i fs ++ (if wf_page f =? p then [i + zlen fs] else []).
Proof.
  induction fs as [|g fs IH]; intros i.
  - simpl. rewrite app_nil_r. change (zlen []) with 0. by rewrite Z.add_0_r.
  - simpl. rewrite IH, app_assoc, zlen_cons. by replace (i + (1 + zlen fs)) with (i + 1 + zlen fs) by lia.
Qed.

Lemma positions_range p fs : forall i, Forall (fun x => i <= x < i + zlen fs) (positions p i fs).
Proof.
  induction fs as [|g fs IH]; intros i; [constructor|]. rewrite zlen_cons. simpl.
  pose proof (zlen_nonneg fs). apply Forall_app. split.
  - destruct (_ =? _); constructor; [lia|constructor].
  - eapply Forall_impl; [|apply (IH (i + 1))]. simpl. lia.
Qed.

Lemma last_commit_snoc fs f :
  last_commit (fs ++ [f]) = if 0 <? wf_db_size f then zlen fs + 1 else last_commit fs.
Proof.
  unfold last_commit. enough (forall i acc, last_commit_from i acc (fs ++ [f]) =
    if 0 <? wf_db_size f then i + zlen fs else last_commit_from i acc fs) as ->
    by (by rewrite Z.add_comm).
  induction fs as [|g fs IH]; intros i acc; simpl.
  - change (zlen []) with 0. by rewrite Z.add_0_r.
  - rewrite IH, zlen_cons. by replace (i + 1 + zlen fs) with (i + (1 + zlen fs)) by lia.
Qed.

Lemma last_commit_range fs : 0 <= last_commit fs <= zlen fs.
Proof.
  induction fs as [|f fs IH] using rev_ind; [done|]. rewrite last_commit_snoc, zlen_app, zlen_cons.
  change (zlen []) with 0. destruct (0 <? _); lia.
Qed.

Lemma log_checksum_snoc hb h c fs f :
  log_checksum hb h c (fs ++ [f]) =
  frame_checksum hb h (log_checksum hb h c fs) (wf_page f) (wf_db_size f) (wf_data f).
Proof. unfold log_checksum. by rewrite foldl_app. Qed.

Lemma retain_upto_app b l k : retain_upto b (l ++ k) = retain_upto b l ++ retain_upto b k.
Proof. apply list.filter_app. Qed.

Lemma retain_upto_all b l : Forall (fun x => x <= b) l -> retain_upto b l = l.
Proof. induction 1; unfold retain_upto in *; [done|]. rewrite list.filter_cons_True by done. by f_equal. Qed.

Lemma retain_upto_none b l : Forall (fun x => b < x) l -> retain_upto b l = [].
Proof. induction 1; unfold retain_upto in *; [done|]. by rewrite list.filter_cons_False by lia. Qed.

Definition beyond (b : Z) (l : list Z) : list Z := filter (fun x => b < x) l.

Lemma beyond_none b l : Forall (fun x => x <= b) l -> beyond b l = [].
Proof. induction 1; unfold beyond in *; [done|]. by rewrite list.filter_cons_False by lia. Qed.

Lemma split_positions b p fs i :
  retain_upto b (positions p i fs) ++ beyond b (positions p i fs) = positions p i fs.
Proof.
  induction fs as [|f fs IH] using rev_ind; [done|]. rewrite positions_snoc.
  unfold beyond. rewrite retain_upto_app, list.filter_app. fold (beyond b (positions p i fs)).
  destruct (wf_page f =? p); [|simpl; by rewrite !app_nil_r].
  unfold retain_upto at 2. destruct (decide (i + zlen fs <= b)).
  - rewrite list.filter_cons_True, list.filter_cons_False by lia.
    rewrite beyond_none, !app_nil_r in *; [by rewrite IH|..];
      (eapply Forall_impl; [|apply positions_range]); simpl; lia.
  - rewrite list.filter_cons_False, list.filter_cons_True by lia.
    rewrite app_nil_r, app_assoc. by rewrite IH.
Qed.

Lemma lookup_flush m cache pending p :
  map_fold (flush_entry m) cache pending !! p =
  match retain_upto m (default [] (pending !! p)) with
  | [] => cache !! p
  | l => Some (default [] (cache !! p) ++ l)
  end.
Proof.
  revert p. apply (map_fold_weak_ind (fun r pend => forall p, r !! p =
    match retain_upto m (default [] (pend !! p)) with
    | [] => cache !! p
    | l => Some (default [] (cache !! p) ++ l)
    end)); [intros p; by rewrite lookup_empty|].
  intros i x pend r Hi IH p. unfold flush_entry. destruct (decide (p = i)) as [->|Hne].
  - rewrite lookup_insert_eq. simpl. specialize (IH i). rewrite Hi in IH. simpl in IH.
    destruct (retain_upto m x) as [|y l]; simpl; [done|]. by rewrite lookup_insert_eq, IH.
  - rewrite (lookup_insert_ne pend) by done. rewrite <- IH.
    case_bool_decide; [done|]. by rewrite lookup_insert_ne by done.
Qed.

(** ** The scan of one frame *)
Section Scan.
Context (hb : bool) (h : WalHeader) (ps size : Z) (s1 : WalFileShared).
Context (Hs1 : in_u 32 (wh_salt_1 h)) (Hs2 : in_u 32 (wh_salt_2 h)).
Context (Hc1 : in_u 32 (wh_checksum_1 h)) (Hc2 : in_u 32 (wh_checksum_2 h)).
Context (Hps : 0 < ps) (Hps8 : ps mod 8 = 0).
Context (Hhdr : md_wal_header (metadata s1) = h).

#[local] Abbreviation c0 := (wh_checksum_1 h, wh_checksum_2 h).
#[local] Abbreviation native := (use_native_of hb (wh_magic h)).
#[local] Abbreviation fsz := (24 + ps).
#[local] Abbreviation upto fs := (log_checksum hb h c0 fs).

(** The shared state with the frames [fs] indexed up to the last commit. *)
Definition indexed (fs : list wal_frame) (cache : gmap Z (list Z)) : Prop :=
  forall p, cache !! p = nonempty (retain_upto (last_commit fs) (positions p 1 fs)).

Definition scan_shared (fs : list wal_frame) (cache : gmap Z (list Z)) : WalFileShared :=
  set_high_water (last_commit fs) (set_max_frame (last_commit fs) (set_frame_cache cache s1)).

Definition scan_state (fs : list wal_frame) (pending : gmap Z (list Z)) : StreamingState :=
  mkStreaming (1 + zlen fs) (upto fs) (upto (ztake (last_commit fs) fs)) (last_commit fs) pending ps
    native true.

Definition scanned (fs : list wal_frame) (off : Z) (r : StreamingWalReader) : Prop :=
  exists cache pending, indexed fs cache /\
    (forall p, pending !! p = nonempty (beyond (last_commit fs) (positions p 1 fs))) /\
    r = mkReader (scan_shared fs cache) size (scan_state fs pending) off ps false.

Definition frame_head (h : WalHeader) (c : Z * Z) (page_number db_size : Z) : list Z :=
  concat [be_encode 4 page_number; be_encode 4 db_size; be_encode 4 (wh_salt_1 h);
          be_encode 4 (wh_salt_2 h); be_encode 4 c.1; be_encode 4 c.2].

Lemma upto_u32 fs : in_u 32 (upto fs).1 /\ in_u 32 (upto fs).2.
Proof.
  induction fs as [|f fs IH] using rev_ind; [split; [exact Hc1|exact Hc2]|]. rewrite log_checksum_snoc.
  destruct IH as [IH1 IH2]. apply frame_checksum_u32; assumption.
Qed.

Lemma be_at_field (fs : list (list Z)) i v pos :
  fs !! i = Some (be_encode 4 v) -> pos = zlen (concat (take i fs)) -> in_u 32 v ->
  be_at 4 (concat fs) pos = v.
Proof.
  intros Hi -> Hv. rewrite (concat_field fs i _ Hi). rewrite be_at_skip by lia.
  apply be_at_here; [lia|exact Hv].
Qed.

Lemma commit_cache fs f cache pending :
  indexed fs cache ->
  (forall p, pending !! p = nonempty (beyond (last_commit fs) (positions p 1 fs))) ->
  0 < wf_db_size f ->
  indexed (fs ++ [f]) (map_fold (flush_entry (1 + zlen fs)) cache
    (<[wf_page f := default [] (pending !! wf_page f) ++ [1 + zlen fs]]> pending)).
Proof.
  intros Hc Hp Hdb p. rewrite lookup_flush. rewrite last_commit_snoc, (proj2 (Z.ltb_lt _ _)) by done.
  rewrite positions_snoc. set (m := last_commit fs) in *. set (pos := positions p 1 fs).
  assert (Forall (fun x => x <= 1 + zlen fs) pos) as Hle.
  { eapply Forall_impl; [|apply positions_range]. simpl. lia. }
  assert (default [] (cache !! p) = retain_upto m pos) as Ec.
  { rewrite Hc. fold m pos. by destruct (retain_upto m pos). }
  assert (default [] (pending !! p) = beyond m pos) as Ep.
  { rewrite Hp. fold pos. by destruct (beyond m pos). }
  replace (zlen fs + 1) with (1 + zlen fs) by lia. rewrite retain_upto_app, (retain_upto_all _ pos Hle).
  pose proof (split_positions m p fs 1) as Hsplit. fold pos in Hsplit.
  assert (Forall (fun x => x <= 1 + zlen fs) (beyond m pos)) as Hle'.
  { rewrite <- Hsplit in Hle. by apply Forall_app in Hle as [_ Hle]. }
  assert (retain_upto (1 + zlen fs) [1 + zlen fs] = [1 + zlen fs]) as Hone
    by (apply retain_upto_all; repeat constructor; lia).
  rewrite <- Hsplit at 1. destruct (Z.eqb_spec (wf_page f) p) as [->|Hne].
  - rewrite lookup_insert_eq. simpl default. rewrite Ep, retain_upto_app, (retain_upto_all _ _ Hle').
    rewrite !Hone, Ec, <- app_assoc.
    destruct (beyond m pos); simpl; by destruct (retain_upto m pos).
  - rewrite lookup_insert_ne by done. rewrite Ep, (retain_upto_all _ _ Hle').
    change (retain_upto _ []) with (@nil Z). rewrite app_nil_r, Ec.
    destruct (beyond m pos) as [|y l]; [|by destruct (retain_upto m pos)].
    rewrite app_nil_r, Hc. fold m pos. done.
Qed.

Lemma pending_snoc fs f (pending : gmap Z (list Z)) :
  (forall p, pending !! p = nonempty (beyond (last_commit fs) (positions p 1 fs))) ->
  forall p, <[wf_page f := default [] (pending !! wf_page f) ++ [1 + zlen fs]]> pending !! p =
    nonempty (beyond (last_commit fs) (positions p 1 (fs ++ [f]))).
Proof.
  intros Hp p. rewrite positions_snoc. unfold beyond. rewrite list.filter_app. fold (beyond (last_commit fs) (positions p 1 fs)).
  pose proof (last_commit_range fs). destruct (Z.eqb_spec (wf_page f) p) as [->|Hne].
  - rewrite lookup_insert_eq, Hp, list.filter_cons_True by lia.
    by destruct (beyond (last_commit fs) (positions p 1 fs)).
  - rewrite lookup_insert_ne by done. rewrite Hp. simpl. by rewrite app_nil_r.
Qed.

Lemma indexed_same fs f (cache : gmap Z (list Z)) :
  indexed fs cache -> last_commit (fs ++ [f]) = last_commit fs -> indexed (fs ++ [f]) cache.
Proof.
  intros Hc Hm p. rewrite Hm, Hc, positions_snoc, retain_upto_app.
  rewrite (retain_upto_none _ (if wf_page f =? p then [1 + zlen fs] else [])); [by rewrite app_nil_r|].
  pose proof (last_commit_range fs). destruct (wf_page f =? p); repeat constructor; lia.
Qed.

Lemma process_frame_head f fs :
  frame_ok ps f ->
  let c := frame_checksum hb h (upto fs) (wf_page f) (wf_db_size f) (wf_data f) in
  forall fh, fh = frame_head h c (wf_page f) (wf_db_size f) ->
  be_at 4 fh 0 = wf_page f /\ be_at 4 fh 4 = wf_db_size f /\ be_at 4 fh 8 = wh_salt_1 h /\
  be_at 4 fh 12 = wh_salt_2 h /\ be_at 4 fh 16 = c.1 /\ be_at 4 fh 20 = c.2 /\
  zslice fh 0 8 = Some (be_encode 4 (wf_page f) ++ be_encode 4 (wf_db_size f)).
Proof.
  intros (Hpg & Hdb & _) c fh ->. destruct (upto_u32 fs) as [Hu1 Hu2].
  destruct (frame_checksum_u32 hb h (upto fs) (wf_page f) (wf_db_size f) (wf_data f) Hu1 Hu2) as [Hf1 Hf2].
  fold c in Hf1, Hf2. unfold frame_head. split_and!.
  - apply (be_at_field _ 0); [done|zlen_fields|unfold in_u; lia].
  - apply (be_at_field _ 1); [done|zlen_fields|done].
  - apply (be_at_field _ 2); [done|zlen_fields|done].
  - apply (be_at_field _ 3); [done|zlen_fields|done].
  - apply (be_at_field _ 4); [done|zlen_fields|done].
  - apply (be_at_field _ 5); [done|zlen_fields|done].
  - rewrite (zslice_fields _ 0 2 0 8) by zlen_fields. cbn [concat firstn skipn]. by rewrite app_nil_r.
Qed.

Lemma process_frame_step r f fs off :
  scanned fs off r -> frame_ok ps f ->
  let c := frame_checksum hb h (upto fs) (wf_page f) (wf_db_size f) (wf_data f) in
  exists r', process_frame hb h native (frame_head h c (wf_page f) (wf_db_size f)) (wf_data f) r =
      Ok (Some r') /\ scanned (fs ++ [f]) off r'.
Proof.
  intros (cache & pending & Hc & Hp & ->) Hok c.
  destruct (process_frame_head f fs Hok _ eq_refl) as (E0 & E4 & E8 & E12 & E16 & E20 & Epre).
  fold c in E0, E4, E8, E12, E16, E20, Epre. pose proof Hok as (Hpg & Hdb & Hlen).
  unfold process_frame. rewrite E0, E4, E8, E12, E16, E20, Epre, !Z.eqb_refl.
  rewrite (proj2 (Z.eqb_neq _ 0)) by lia. cbn [negb orb or_panic mbind res_bind]. unfold checksum_wal, assert_that.
  rewrite (proj2 (Z.eqb_eq (zlen (_ ++ _) mod 8) 0)) by (rewrite !zlen_app, !zlen_be4; done).
  cbn [mbind res_bind]. rewrite Hlen, (proj2 (Z.eqb_eq _ 0) Hps8). cbn [mbind res_bind].
  cbn [sr_state scan_state ss_cumulative_checksum]. fold (frame_checksum hb h (upto fs) (wf_page f) (wf_db_size f) (wf_data f)).
  fold c. rewrite bool_decide_true by (by destruct c). cbn [negb].
  eexists. split; [reflexivity|]. pose proof (last_commit_range fs) as Hr.
  pose proof (last_commit_snoc fs f) as Hm. destruct (0 <? wf_db_size f) eqn:Edb.
  - exists (map_fold (flush_entry (1 + zlen fs)) cache
      (<[wf_page f := default [] (pending !! wf_page f) ++ [1 + zlen fs]]> pending)), ∅.
    split_and!; [apply commit_cache; (done || lia)| |].
    + intros p. rewrite lookup_empty, beyond_none; [done|]. rewrite Hm.
      eapply Forall_impl; [|apply positions_range]. rewrite zlen_app. simpl. change (zlen [f]) with 1. lia.
    + unfold flush_pending_frames. cbn [sr_state with_state ss_pending_frames ss_frame_idx scan_state].
      rewrite bool_decide_false by apply insert_non_empty.
      unfold scan_shared, scan_state. reader_simpl. shared_simpl. rewrite Hm, log_checksum_snoc.
      rewrite (ztake_all (fs ++ [f])) by (rewrite zlen_app; change (zlen [f]) with 1; lia). rewrite log_checksum_snoc. fold c.
      rewrite zlen_app, (Z.max_r (last_commit fs)) by lia. change (zlen [f]) with 1.
      replace (zlen fs + 1) with (1 + zlen fs) by lia.
      replace (1 + zlen fs + 1) with (1 + (1 + zlen fs)) by lia. reflexivity.
  - exists cache, (<[wf_page f := default [] (pending !! wf_page f) ++ [1 + zlen fs]]> pending).
    split_and!; [by apply indexed_same|rewrite Hm; by apply pending_snoc|].
    unfold scan_shared, scan_state. reader_simpl. rewrite Hm, log_checksum_snoc. fold c.
    rewrite ztake_app_le by lia. rewrite zlen_app. change (zlen [f]) with 1.
    replace (1 + zlen fs + 1) with (1 + (zlen fs + 1)) by lia. reflexivity.
Qed.

(** The bytes [tail] do not continue a log with running checksum [c]: they are too short
    for a frame, or the first frame has page number 0, other salts, or a wrong checksum. *)
Definition log_stops (c : Z * Z) (tail : list Z) : Prop :=
  zlen tail < fsz \/ be_at 4 tail 0 = 0 \/ be_at 4 tail 8 <> wh_salt_1 h \/
  be_at 4 tail 12 <> wh_salt_2 h \/
  checksum_words hb native (ztake ps (zdrop 24 tail)) (checksum_words hb native (ztake 8 tail) c) <>
    (be_at 4 tail 16, be_at 4 tail 20).

Lemma be_at_ztake n m l pos : 0 <= pos -> pos + Z.of_nat n <= m -> be_at n (ztake m l) pos = be_at n l pos.
Proof.
  intros. unfold be_at. f_equal. apply zget_ext.
  - rewrite !zlen_ztake, !zlen_zdrop, zlen_ztake. lia.
  - intros i Hi. rewrite zlen_ztake in Hi. rewrite !zget_ztake.
    destruct (i <? Z.of_nat n) eqn:E; [|done]. rewrite !zget_zdrop by lia.
    destruct (i <? 0); [done|]. rewrite zget_ztake, (proj2 (Z.ltb_lt _ _)) by lia. done.
Qed.

Lemma ztake_ztake {A} (l : list A) m n : ztake n (ztake m l) = ztake (Z.min n m) l.
Proof. unfold ztake. rewrite take_take. f_equal. lia. Qed.

Lemma zdrop_ztake {A} (l : list A) m n : 0 <= n -> 0 <= m -> zdrop n (ztake (n + m) l) = ztake m (zdrop n l).
Proof.
  intros. unfold zdrop, ztake. rewrite Z2Nat.inj_add by lia. by rewrite skipn_firstn_comm, Nat.add_comm, Nat.add_sub.
Qed.

Lemma log_stops_ztake c tail m : fsz <= m \/ zlen tail <= m -> log_stops c tail -> log_stops c (ztake m tail).
Proof.
  intros [Hm|Hm] Hs; [|by rewrite ztake_all]. unfold log_stops in *.
  rewrite zlen_ztake, !be_at_ztake, ztake_ztake, (Z.min_l 8) by lia.
  replace m with (24 + (m - 24)) by lia. rewrite zdrop_ztake, ztake_ztake, (Z.min_l ps) by lia.
  destruct Hs as [Hs|Hs]; [left; lia|by right].
Qed.

Lemma process_frame_stops r fs off tail :
  scanned fs off r -> fsz <= zlen tail -> log_stops (upto fs) tail ->
  process_frame hb h native (ztake 24 tail) (ztake ps (zdrop 24 tail)) r = Ok None.
Proof.
  intros (cache & pending & _ & _ & ->) Hl [Hs|Hs]; [lia|]. unfold process_frame.
  rewrite !be_at_ztake by lia. destruct (Z.eqb_spec (be_at 4 tail 0) 0) as [|H0]; [done|].
  destruct (Z.eqb_spec (be_at 4 tail 8) (wh_salt_1 h)) as [H1|]; [|done].
  destruct (Z.eqb_spec (be_at 4 tail 12) (wh_salt_2 h)) as [H2|]; [|done].
  destruct Hs as [Hs|[Hs|[Hs|Hs]]]; [done..|]. cbn [negb orb].
  rewrite zslice_Some by (rewrite ?zlen_ztake; lia). rewrite zdrop_0, ztake_ztake.
  change (Z.min (8 - 0) 24) with 8. cbn [or_panic mbind res_bind]. unfold checksum_wal, assert_that.
  rewrite (proj2 (Z.eqb_eq (zlen (ztake 8 tail) mod 8) 0))
    by (rewrite zlen_ztake; replace (Z.min _ _) with 8 by lia; done).
  cbn [mbind res_bind]. rewrite (zlen_ztake ps), zlen_zdrop. replace (Z.min _ _) with ps by lia.
  rewrite (proj2 (Z.eqb_eq _ 0) Hps8). cbn [mbind res_bind]. unfold scan_state. reader_simpl.
  by rewrite bool_decide_false.
Qed.

Lemma frame_bytes_head c f :
  frame_bytes h c (wf_page f) (wf_db_size f) (wf_data f) =
  frame_head h c (wf_page f) (wf_db_size f) ++ wf_data f.
Proof. unfold frame_bytes, frame_head. cbn [concat]. by rewrite app_nil_r, <- !app_assoc. Qed.

Lemma zlen_frame_head c pn db : zlen (frame_head h c pn db) = 24.
Proof. unfold frame_head. zlen_fields. Qed.

Lemma process_frames_loop_scans buf off tail gs : forall fs pos r fuel,
  scanned fs off r -> Forall (frame_ok ps) gs -> 0 <= pos <= zlen buf ->
  zdrop pos buf = log_bytes hb h (upto fs) gs ++ tail -> log_stops (upto (fs ++ gs)) tail ->
  (length gs < fuel)%nat ->
  exists r', process_frames_loop hb fuel buf h native pos r = Ok (pos + zlen gs * fsz, r') /\
    scanned (fs ++ gs) off r'.
Proof.
  induction gs as [|g gs IH]; intros fs pos r fuel Hsc Hok Hpos Hbuf Hstop Hfuel;
    (destruct fuel as [|fuel]; [simpl in Hfuel; lia|]); cbn [process_frames_loop];
    pose proof Hsc as (cache & pending & _ & _ & Er);
    assert (ss_page_size (sr_state r) = ps) as -> by (by rewrite Er);
    unfold WAL_FRAME_HEADER_SIZE;
    assert (buf = ztake pos buf ++ zdrop pos buf) as Eb by (by rewrite ztake_zdrop);
    assert (zlen (ztake pos buf) = pos) as Epos by (rewrite zlen_ztake; lia).
  - simpl in Hbuf. rewrite app_nil_r in Hstop. exists r. rewrite app_nil_r. split; [|done].
    change (zlen []) with 0. rewrite Z.mul_0_l, Z.add_0_r.
    rewrite Hbuf in Eb. assert (zlen buf = pos + zlen tail) as El by (rewrite Eb at 1; rewrite zlen_app; lia).
    destruct (Z.leb_spec (pos + fsz) (zlen buf)) as [Hle|]; [|done].
    rewrite !zslice_Some by lia. cbn [or_panic mbind res_bind].
    replace (pos + 24 - pos) with 24 by lia. replace (pos + fsz - (pos + 24)) with ps by lia.
    rewrite <- zdrop_zdrop by lia. rewrite Hbuf, (process_frame_stops r fs off) by (done || lia). done.
  - apply Forall_cons_iff in Hok as [Hg Hok]. pose proof Hg as (_ & _ & Hlen).
    cbn [log_bytes] in Hbuf. set (c := frame_checksum _ _ _ _ _ _) in Hbuf.
    rewrite frame_bytes_head, <- !app_assoc in Hbuf.
    destruct (process_frame_step r g fs off Hsc Hg) as (r1 & Hr1 & Hsc1). fold c in Hr1.
    set (fh := frame_head h c (wf_page g) (wf_db_size g)) in *.
    assert (zlen fh = 24) as Hfh by apply zlen_frame_head. rewrite Hbuf in Eb.
    set (rest := log_bytes hb h c gs ++ tail) in *. pose proof (zlen_nonneg rest).
    assert (zlen buf = pos + fsz + zlen rest) as El
      by (rewrite Eb at 1; rewrite !zlen_app, Hfh, Hlen, Epos; lia).
    rewrite (proj2 (Z.leb_le _ _)) by lia.
    assert (zslice buf pos (pos + 24) = Some fh) as -> by (rewrite Eb; apply zslice_mid; lia).
    assert (zslice buf (pos + 24) (pos + fsz) = Some (wf_data g)) as ->
      by (rewrite Eb, app_assoc; apply zslice_mid; rewrite ?zlen_app; lia).
    cbn [or_panic mbind res_bind].
    rewrite Hr1. cbn [mbind res_bind].
    destruct (IH (fs ++ [g]) (pos + fsz) r1 fuel) as (r2 & -> & Hsc2); try done; [lia| | |simpl in Hfuel; lia|].
    + rewrite <- zdrop_zdrop by lia. rewrite Hbuf, app_assoc, zdrop_app_ge by (rewrite zlen_app; lia).
      rewrite zlen_app, Hfh, Hlen, Z.sub_diag, zdrop_0. unfold rest. by rewrite log_checksum_snoc.
    + by rewrite <- app_assoc.
    + rewrite <- app_assoc in Hsc2. exists r2. split; [|done]. do 2 f_equal. rewrite zlen_cons. lia.
Qed.

(** What [finalize_loading] leaves after a scan of [fs]. *)
Definition final_shared (fs : list wal_frame) (cache : gmap Z (list Z)) : WalFileShared :=
  let coverage :=
    if 0 <? last_commit fs
    then mkCoverage (wh_checkpoint_seq h) (wh_salt_1 h) (wh_salt_2 h) (last_commit fs) true
    else coverage_default in
  set_loaded true (set_nbackfills 0 (set_initialized true
    (set_last_checksum (upto (ztake (last_commit fs) fs)) (set_coverage coverage (scan_shared fs cache))))).

Definition finalized (fs : list wal_frame) (off : Z) (r : StreamingWalReader) : Prop :=
  exists cache pending, indexed fs cache /\
    r = mkReader (final_shared fs cache) size (scan_state fs pending) off ps true.

Lemma indexed_filter fs cache :
  indexed fs cache ->
  filter (fun kv : Z * list Z => kv.2 <> []) (retain_upto (last_commit fs) <$> cache) = cache.
Proof.
  intros Hc. apply map_eq. intros p. rewrite map_lookup_filter, lookup_fmap, Hc.
  assert (retain_upto (last_commit fs) (retain_upto (last_commit fs) (positions p 1 fs)) =
          retain_upto (last_commit fs) (positions p 1 fs)) as Eq.
  { apply retain_upto_all. unfold retain_upto. apply Forall_forall. intros x Hx%list_elem_of_In.
    by apply list_elem_of_filter in Hx as [? _]. }
  destruct (retain_upto _ (positions p 1 fs)) as [|x l]; [done|]. cbn [nonempty fmap option_fmap option_map].
  rewrite Eq. cbn [mbind option_bind]. by rewrite option_guard_True by done.
Qed.

Lemma finalize_any fs cache pending off b s :
  indexed fs cache -> s = scan_shared fs cache \/ s = final_shared fs cache ->
  finalize_loading (mkReader s size (scan_state fs pending) off ps b) =
    mkReader (final_shared fs cache) size (scan_state fs pending) off ps true.
Proof.
  intros Hc Hs. unfold finalize_loading, scan_state. reader_simpl.
  assert (md_wal_header (metadata s) = h) as -> by (by destruct Hs as [-> | ->]).
  assert (rt_frame_cache (runtime s) = cache) as -> by (by destruct Hs as [-> | ->]).
  rewrite (indexed_filter fs cache Hc). unfold coverage_record, coverage_clear.
  f_equal. unfold final_shared. destruct (Z.ltb_spec 0 (last_commit fs)).
  - rewrite (proj2 (Z.eqb_neq _ 0)) by lia. by destruct Hs as [-> | ->].
  - by destruct Hs as [-> | ->].
Qed.

Lemma finalize_scanned fs off r : scanned fs off r -> finalized fs off (finalize_loading r).
Proof.
  intros (cache & pending & Hc & _ & ->). exists cache, pending. split; [done|]. by apply finalize_any; auto.
Qed.

Lemma finalize_finalized fs off r : finalized fs off r -> finalized fs off (finalize_loading r).
Proof.
  intros (cache & pending & Hc & ->). exists cache, pending. split; [done|]. by apply finalize_any; auto.
Qed.

(** ** Chunks *)
Lemma log_bytes_app a : forall c b,
  log_bytes hb h c (a ++ b) = log_bytes hb h c a ++ log_bytes hb h (log_checksum hb h c a) b.
Proof.
  induction a as [|f a IH]; intros c b; [done|]. cbn [app log_bytes]. rewrite IH. by rewrite app_assoc.
Qed.

Lemma log_checksum_app c a b :
  log_checksum hb h c (a ++ b) = log_checksum hb h (log_checksum hb h c a) b.
Proof. unfold log_checksum. by rewrite foldl_app. Qed.

Lemma zlen_log_bytes gs : forall c, Forall (frame_ok ps) gs -> zlen (log_bytes hb h c gs) = zlen gs * fsz.
Proof.
  induction gs as [|g gs IH]; intros c Hok; [done|]. apply Forall_cons_iff in Hok as [(_ & _ & Hl) Hok].
  cbn [log_bytes]. rewrite zlen_app, zlen_frame_bytes, IH, zlen_cons, Hl by done. lia.
Qed.

Lemma chunk_size_frames remaining :
  exists K, 1 <= K /\ chunk_size ps remaining = Z.min (K * fsz) remaining.
Proof.
  unfold chunk_size, WAL_FRAME_HEADER_SIZE. exists (Z.max (CHUNK_BASE / fsz) 1). split; [lia|].
  rewrite <- Z.mul_max_distr_nonneg_r by lia. by rewrite Z.mul_1_l.
Qed.

Lemma length_log_bytes c gs : Forall (frame_ok ps) gs -> (length gs <= length (log_bytes hb h c gs))%nat.
Proof. intros Hok. pose proof (zlen_log_bytes gs c Hok) as Hl. unfold zlen in Hl. nia. Qed.

(** A chunk that holds the whole frames [gs] and bytes that do not continue them. *)
Lemma handle_chunk_frames fs off r gs t :
  scanned fs off r -> Forall (frame_ok ps) gs -> log_stops (upto (fs ++ gs)) t ->
  exists r', scanned (fs ++ gs) (off + zlen gs * fsz) r' /\
    handle_chunk_read hb (Some (log_bytes hb h (upto fs) gs ++ t)) r =
      Ok (if (0 <? zlen t) || (size <=? off + zlen gs * fsz) then finalize_loading r' else r').
Proof.
  intros Hsc Hok Hst. set (buf := log_bytes hb h (upto fs) gs ++ t).
  destruct (process_frames_loop_scans buf off t gs fs 0 r (S (length buf)) Hsc Hok)
    as (r' & Hloop & Hsc'); [pose proof (zlen_nonneg buf); lia|by rewrite zdrop_0|done| |].
  { unfold buf. rewrite length_app. pose proof (length_log_bytes (upto fs) gs Hok). lia. }
  destruct Hsc as (cache & pending & _ & _ & ->).
  destruct Hsc' as (cache' & pending' & Hc' & Hp' & ->).
  eexists. split; [exists cache', pending'; split_and!; [exact Hc'|exact Hp'|reflexivity]|].
  unfold handle_chunk_read. cbn [sr_shared].
  change (md_wal_header (metadata (scan_shared fs cache))) with (md_wal_header (metadata s1)).
  rewrite Hhdr.
  cbn [sr_state scan_state ss_use_native_endian]. unfold process_frames. rewrite Hloop.
  cbn [mbind res_bind]. reader_simpl. rewrite Z.add_0_l. f_equal.
  assert ((zlen gs * fsz <? zlen buf) = (0 <? zlen t)) as ->; [|done].
  unfold buf. rewrite zlen_app, zlen_log_bytes by done.
  destruct (Z.ltb_spec 0 (zlen t)); [apply Z.ltb_lt|apply Z.ltb_ge]; lia.
Qed.

(** A read of [K] frames, or of the rest, is whole frames of the log, and then nothing, or
    the end of the log and bytes that do not continue it. *)
Lemma chunk_split c gs tail K n :
  1 <= K -> Forall (frame_ok ps) gs -> log_stops (log_checksum hb h c gs) tail ->
  n = Z.min (K * fsz) (zlen gs * fsz + zlen tail) ->
  exists gs1 gs2 t, gs = gs1 ++ gs2 /\
    ztake n (log_bytes hb h c gs ++ tail) = log_bytes hb h c gs1 ++ t /\
    log_stops (log_checksum hb h c gs1) t /\
    (t = [] /\ gs1 <> [] \/ gs2 = [] /\ (t = [] -> tail = [])).
Proof.
  intros HK Hok Hst ->. pose proof (zlen_nonneg tail) as Ht. pose proof (zlen_nonneg gs).
  destruct (Z.le_gt_cases K (zlen gs)) as [HKg|HKg].
  - exists (ztake K gs), (zdrop K gs), []. rewrite ztake_zdrop, app_nil_r. split_and!; [done| | |].
    + rewrite <- (ztake_zdrop gs K) at 2. rewrite log_bytes_app, <- app_assoc. apply ztake_app_eq.
      rewrite zlen_log_bytes by (by apply Forall_take). rewrite zlen_ztake. nia.
    + left. change (zlen []) with 0. lia.
    + left. split; [done|]. intros E. apply (f_equal zlen) in E. rewrite zlen_ztake in E.
      change (zlen []) with 0 in E. lia.
  - exists gs, [], (ztake (K * fsz - zlen gs * fsz) tail). rewrite app_nil_r. split_and!; [done| | |].
    + rewrite <- (zlen_log_bytes gs c Hok).
      replace (Z.min _ _) with (zlen (log_bytes hb h c gs) +
        Z.min (K * fsz - zlen (log_bytes hb h c gs)) (zlen tail)) by lia.
      rewrite ztake_app_add by (rewrite ?zlen_log_bytes by done; nia). f_equal.
      rewrite ztake_min_len by (rewrite ?zlen_log_bytes by done; nia). done.
    + apply log_stops_ztake; [left; nia|done].
    + right. split; [done|]. intros E. apply (f_equal zlen) in E. rewrite zlen_ztake in E.
      change (zlen []) with 0 in E. destruct tail as [|x tail]; [done|].
      rewrite zlen_cons in *. pose proof (zlen_nonneg tail). nia.
Qed.

(** ** The driver *)
Context (file : list Z) (pread : Z -> Z -> option (list Z)).
Context (Hpread : forall o n, pread o n = Some (ztake n (zdrop o file))) (Hsize : size = zlen file).

Definition recovers (fs : list wal_frame) (out : result (option WalFileShared)) : Prop :=
  exists cache, indexed fs cache /\ out = Ok (Some (final_shared fs cache)).

Lemma poll_finalized fs off r offset fuel :
  finalized fs off r -> recovers fs (poll hb pread (3 + fuel) (AwaitChunk true offset) r).
Proof.
  intros Hf. pose proof (finalize_finalized fs off r Hf) as (cache' & p' & Hc' & E').
  destruct Hf as (cache & p & Hc & ->). cbn [poll Nat.add poll_step negb sr_off_atomic].
  destruct (off <=? offset); cbn [mbind res_bind poll_step].
  - exists cache'. split; [done|]. by rewrite E'.
  - exists cache. done.
Qed.

Lemma submit_one_chunk_frames fs off r gs tail :
  scanned fs off r -> 0 <= off < size -> Forall (frame_ok ps) gs ->
  zdrop off file = log_bytes hb h (upto fs) gs ++ tail -> log_stops (upto (fs ++ gs)) tail ->
  exists r', submit_one_chunk hb pread off r = Ok (true, r') /\
    ((exists off', finalized (fs ++ gs) off' r') \/
     exists gs1 gs2, gs = gs1 ++ gs2 /\ gs1 <> [] /\ scanned (fs ++ gs1) (off + zlen gs1 * fsz) r' /\
       off + zlen gs1 * fsz < size).
Proof.
  intros Hsc Hoff Hok Hfile Hst. pose proof Hsc as (cache & pending & _ & _ & Er).
  unfold submit_one_chunk, bail_if, WAL_FRAME_HEADER_SIZE.
  assert (sr_page_atomic r = ps) as -> by (by rewrite Er).
  assert (sr_file_size r = size) as -> by (by rewrite Er).
  rewrite (proj2 (Z.eqb_neq ps 0)), (proj2 (Z.eqb_neq fsz 0)) by lia. cbn [mbind res_bind].
  destruct (chunk_size_frames (size - off)) as (K & HK & ->).
  rewrite (proj2 (Z.eqb_neq _ 0)) by nia. rewrite Hpread, Hfile.
  assert (size - off = zlen gs * fsz + zlen tail) as Erem.
  { apply (f_equal zlen) in Hfile. rewrite zlen_zdrop, zlen_app, zlen_log_bytes in Hfile by done. lia. }
  rewrite log_checksum_app in Hst.
  destruct (chunk_split (upto fs) gs tail K (Z.min (K * fsz) (size - off)) HK Hok Hst)
    as (gs1 & gs2 & t & -> & -> & Hst1 & Hcase); [by rewrite Erem|].
  apply Forall_app in Hok as [Hok1 Hok2]. rewrite <- log_checksum_app in Hst1.
  destruct (handle_chunk_frames fs off r gs1 t Hsc Hok1 Hst1) as (r1 & Hsc1 & ->).
  cbn [mbind res_bind]. eexists. split; [by rewrite bool_decide_true|].
  pose proof (zlen_nonneg tail). pose proof (zlen_nonneg gs2). rewrite zlen_app in Erem.
  destruct (Z.ltb_spec 0 (zlen t)) as [Ht|Ht]; simpl.
  - left. destruct Hcase as [[-> _]|[-> _]]; [change (zlen []) with 0 in Ht; lia|].
    rewrite app_nil_r. eexists. by apply finalize_scanned.
  - destruct (Z.leb_spec size (off + zlen gs1 * fsz)).
    + left. destruct gs2; [|rewrite zlen_cons in *; pose proof (zlen_nonneg gs2); nia].
      rewrite app_nil_r. eexists. by apply finalize_scanned.
    + right. exists gs1, gs2. split_and!; try done. destruct Hcase as [[_ Hne]|[-> Himp]]; [done|].
      destruct t; [|rewrite zlen_cons in *; pose proof (zlen_nonneg t); lia].
      rewrite Himp in * by done. change (zlen []) with 0 in *. lia.
Qed.

Lemma poll_recovers tail : forall n gs fs off r fuel,
  (length gs <= n)%nat -> scanned fs off r -> 0 <= off <= size -> Forall (frame_ok ps) gs ->
  zdrop off file = log_bytes hb h (upto fs) gs ++ tail -> log_stops (upto (fs ++ gs)) tail ->
  (2 * n + 4 <= fuel)%nat -> recovers (fs ++ gs) (poll hb pread fuel ChunkLoop r).
Proof.
  induction n as [n IH] using lt_wf_ind; intros gs fs off r fuel Hn Hsc Hoff Hok Hfile Hst Hfuel.
  destruct fuel as [|fuel]; [lia|]. cbn [poll poll_step]. pose proof Hsc as (cache & pending & Hc & _ & Er).
  assert (sr_done r = false) as -> by (by rewrite Er).
  assert (sr_file_size r = size) as -> by (by rewrite Er).
  assert (sr_off_atomic r = off) as -> by (by rewrite Er).
  destruct (Z.leb_spec size off) as [Hend|Hend].
  - assert (gs = []) as ->.
    { apply (f_equal zlen) in Hfile. rewrite zlen_zdrop, zlen_app, zlen_log_bytes in Hfile by done.
      destruct gs; [done|]. rewrite zlen_cons in Hfile. pose proof (zlen_nonneg gs).
      pose proof (zlen_nonneg tail). nia. }
    destruct fuel as [|fuel]; [lia|]. cbn [mbind res_bind poll poll_step].
    destruct (finalize_scanned fs off r Hsc) as (cache' & p' & Hc' & ->). exists cache'.
    rewrite app_nil_r. done.
  - destruct (submit_one_chunk_frames fs off r gs tail) as (r' & -> & Hcase); try done; [lia|].
    cbn [mbind res_bind]. destruct Hcase as [(off' & Hf)|(gs1 & gs2 & -> & Hne & Hsc' & Hlt)].
    { destruct fuel as [|[|[|fuel]]]; [lia..|]. by apply (poll_finalized _ off'). }
    destruct fuel as [|fuel]; [lia|]. cbn [poll poll_step negb].
    destruct gs1 as [|g gs1]; [done|]. rewrite zlen_cons in *. pose proof (zlen_nonneg gs1).
    assert (sr_off_atomic r' = off + (1 + zlen gs1) * fsz) as ->
      by (destruct Hsc' as (? & ? & _ & _ & ->); done).
    rewrite (proj2 (Z.leb_gt _ _)) by nia. cbn [mbind res_bind].
    rewrite app_assoc. rewrite length_app in Hn. simpl in Hn. pose proof Hok as [Hok1 Hok2]%Forall_app.
    apply (IH (length gs2)) with (off := off + (1 + zlen gs1) * fsz); try done; try lia; try nia.
    + rewrite <- zdrop_zdrop by nia. rewrite Hfile, log_bytes_app, <- app_assoc.
      rewrite zdrop_app_ge by (rewrite zlen_log_bytes, zlen_cons by done; lia).
      rewrite zlen_log_bytes, zlen_cons, Z.sub_diag, zdrop_0 by done. by rewrite log_checksum_app.
    + by rewrite <- app_assoc.
Qed.
End Scan.

(** ** The header *)
Definition header_ok (hb : bool) (h : WalHeader) : Prop :=
  in_u 32 (wh_magic h) /\ in_u 32 (wh_file_format h) /\ in_u 32 (wh_page_size h) /\
  in_u 32 (wh_checkpoint_seq h) /\ in_u 32 (wh_salt_1 h) /\ in_u 32 (wh_salt_2 h) /\
  PageSize_new (wh_page_size h) <> None /\
  checksum_words hb (use_native_of hb (wh_magic h)) (ztake 24 (wal_header_bytes h)) (0, 0) =
    (wh_checksum_1 h, wh_checksum_2 h).

Lemma wal_header_fields h :
  wal_header_bytes h =
  concat [be_encode 4 (wh_magic h); be_encode 4 (wh_file_format h); be_encode 4 (wh_page_size h);
          be_encode 4 (wh_checkpoint_seq h); be_encode 4 (wh_salt_1 h); be_encode 4 (wh_salt_2 h);
          be_encode 4 (wh_checksum_1 h); be_encode 4 (wh_checksum_2 h)].
Proof. unfold wal_header_bytes. cbn [concat]. by rewrite app_nil_r. Qed.

Lemma zlen_wal_header_bytes h : zlen (wal_header_bytes h) = 32.
Proof. rewrite wal_header_fields. zlen_fields. Qed.

Lemma header_checksum_u32 hb h : header_ok hb h -> in_u 32 (wh_checksum_1 h) /\ in_u 32 (wh_checksum_2 h).
Proof.
  intros (_ & _ & _ & _ & _ & _ & _ & Hc).
  destruct (checksum_words_u32 hb (use_native_of hb (wh_magic h)) _ (ztake 24 (wal_header_bytes h)) (0, 0)
    (le_n _)) as [H1 H2]; [done..|]. by rewrite Hc in H1, H2.
Qed.

Lemma header_page_size hb h : header_ok hb h -> 0 < wh_page_size h /\ wh_page_size h mod 8 = 0.
Proof.
  intros (_ & _ & _ & _ & _ & _ & Hps & _). destruct (PageSize_new (wh_page_size h)) eqn:E; [|done].
  apply PageSize_new_Some in E as [Hin _]. repeat (destruct Hin as [<-|Hin]; [done|]). destruct Hin.
Qed.

(** The reader after a valid header. *)
Definition header_reader (hb : bool) (h : WalHeader) (s : WalFileShared) (size : Z) : StreamingWalReader :=
  let c := (wh_checksum_1 h, wh_checksum_2 h) in
  mkReader (set_wal_header h s) size
    (mkStreaming 1 c c 0 ∅ (wh_page_size h) (use_native_of hb (wh_magic h)) true)
    WAL_HEADER_SIZE (wh_page_size h) false.

Lemma handle_header_ok hb h s size :
  header_ok hb h ->
  handle_header_read hb (Some (wal_header_bytes h)) (reader_new s size) = Ok (header_reader hb h s size).
Proof.
  intros Hok. destruct (header_checksum_u32 hb h Hok) as [Hc1 Hc2].
  destruct Hok as (Hm & Hf & Hp & Hq & Hs1 & Hs2 & Hps & Hc). unfold handle_header_read.
  rewrite zlen_wal_header_bytes. change (negb (32 =? WAL_HEADER_SIZE)) with false. cbn iota.
  assert (zslice (wal_header_bytes h) 0 24 = Some (ztake 24 (wal_header_bytes h))) as ->
    by (rewrite zslice_Some by (rewrite ?zlen_wal_header_bytes; lia); done).
  revert Hc. rewrite wal_header_fields. set (fs := [_; _; _; _; _; _; _; _]). intros Hc.
  rewrite (be_at_field fs 0 (wh_magic h)), (be_at_field fs 1 (wh_file_format h)),
    (be_at_field fs 2 (wh_page_size h)), (be_at_field fs 3 (wh_checkpoint_seq h)),
    (be_at_field fs 4 (wh_salt_1 h)), (be_at_field fs 5 (wh_salt_2 h)),
    (be_at_field fs 6 (wh_checksum_1 h)), (be_at_field fs 7 (wh_checksum_2 h))
    by (done || unfold fs; zlen_fields).
  cbn [or_panic mbind res_bind wh_magic wh_checksum_1 wh_checksum_2 wh_page_size].
  unfold checksum_wal, assert_that.
  assert (zlen (ztake 24 (concat fs)) = 24) as -> by (rewrite zlen_ztake; unfold fs; zlen_fields).
  change (24 mod 8 =? 0) with true. cbn [mbind res_bind]. rewrite Hc.
  rewrite bool_decide_false, bool_decide_true by done. cbn [negb orb]. unfold header_reader. by destruct h.
Qed.

Lemma header_scanned hb h s size :
  md_max_frame (metadata s) = 0 ->
  rt_frame_cache (runtime s) = ∅ -> rt_frame_cache_high_water (runtime s) = 0 ->
  scanned hb h (wh_page_size h) size (set_wal_header h s) [] WAL_HEADER_SIZE (header_reader hb h s size).
Proof.
  intros Hm Hc Hw. exists ∅, ∅. split_and!; [by intros p; rewrite lookup_empty..|].
  unfold header_reader, scan_shared, scan_state. f_equal.
  destruct s as [[] []]. simpl in *. by simplify_eq.
Qed.

Lemma shared_new_ok hb : exists s, shared_new hb = Ok s /\ md_max_frame (metadata s) = 0 /\
  rt_frame_cache (runtime s) = ∅ /\ rt_frame_cache_high_water (runtime s) = 0 /\
  md_enabled (metadata s) = true /\ locks_free s.
Proof.
  assert (unlocked 0) as U0 by (exists 0; constructor; lia).
  assert (unlocked 0xffffffff00000000) as U1 by (exists READMARK_NOT_USED; unfold READMARK_NOT_USED; constructor; lia).
  destruct hb; (eexists; split; [vm_compute; reflexivity|]); split_and!; try done;
    (unfold locks_free; shared_simpl; split_and!; [done|repeat (constructor; [done|]); constructor|done..]).
Qed.

(** ** Recovery *)

(** The log is in memory as recovery should leave it: [m] frames are visible, the frame
    index lists for each page its frames among them, in ascending order, and the
    next frame continues the checksum of frame [m]. *)
Definition recovered_log (hb : bool) (h : WalHeader) (fs : list wal_frame) (s : WalFileShared) : Prop :=
  md_wal_header (metadata s) = h /\
  md_max_frame (metadata s) = last_commit fs /\
  md_last_checksum (metadata s) =
    log_checksum hb h (wh_checksum_1 h, wh_checksum_2 h) (ztake (last_commit fs) fs) /\
  md_nbackfills (metadata s) = 0 /\
  md_loaded (metadata s) = true /\ md_initialized (metadata s) = true /\
  md_enabled (metadata s) = true /\ locks_free s /\
  rt_frame_cache_high_water (runtime s) = last_commit fs /\
  forall p, rt_frame_cache (runtime s) !! p =
    nonempty (retain_upto (last_commit fs) (positions p 1 fs)).

Definition reads_file (pread : Z -> Z -> option (list Z)) (file : list Z) : Prop :=
  forall o n, pread o n = Some (ztake n (zdrop o file)).

Lemma build_shared_wal_recovers hb h fs tail pread fuel :
  let file := wal_header_bytes h ++
    log_bytes hb h (wh_checksum_1 h, wh_checksum_2 h) fs ++ tail in
  header_ok hb h -> Forall (frame_ok (wh_page_size h)) fs ->
  log_stops hb h (wh_page_size h) (log_checksum hb h (wh_checksum_1 h, wh_checksum_2 h) fs) tail ->
  reads_file pread file -> (2 * length fs + 6 <= fuel)%nat ->
  exists s, build_shared_wal hb pread fuel (zlen file) = Ok (Some s) /\ recovered_log hb h fs s.
Proof.
  intros file Hh Hok Hst Hread Hfuel. destruct (header_checksum_u32 hb h Hh) as [Hc1 Hc2].
  destruct (header_page_size hb h Hh) as [Hps Hps8]. pose proof Hh as (_ & _ & _ & _ & Hs1 & Hs2 & _ & _).
  destruct (shared_new_ok hb) as (s0 & Hnew & Hm & Hc & Hw & He & Hf).
  assert (32 <= zlen file) as Hl.
  { unfold file. rewrite zlen_app, zlen_wal_header_bytes.
    pose proof (zlen_nonneg (log_bytes hb h (wh_checksum_1 h, wh_checksum_2 h) fs ++ tail)). lia. }
  unfold build_shared_wal. rewrite Hnew. cbn [mbind res_bind].
  rewrite (proj2 (Z.ltb_ge _ _)) by exact Hl.
  destruct fuel as [|[|fuel]]; [lia..|]. cbn [poll poll_step]. rewrite Hread, zdrop_0.
  replace (ztake WAL_HEADER_SIZE file) with (wal_header_bytes h)
    by (symmetry; apply ztake_app_eq; by rewrite zlen_wal_header_bytes).
  rewrite handle_header_ok by done. cbn [mbind res_bind]. rewrite bool_decide_true by done.
  cbn [poll poll_step mbind res_bind].
  pose proof (poll_recovers hb h (wh_page_size h) (zlen file) (set_wal_header h s0)) as Hpoll.
  edestruct (Hpoll Hs1 Hs2 Hc1 Hc2 Hps Hps8 eq_refl file pread Hread eq_refl tail (length fs) fs []
    WAL_HEADER_SIZE) as (cache & Hidx & ->);
    [done|by apply header_scanned|unfold WAL_HEADER_SIZE; lia|done| |exact Hst| |].
  - unfold file, WAL_HEADER_SIZE. rewrite zdrop_app_ge, zlen_wal_header_bytes
      by (rewrite zlen_wal_header_bytes; lia). reflexivity.
  - lia.
  - eexists; split; [done|]. unfold recovered_log. split_and!; try reflexivity; [exact He|exact Hf|exact Hidx].
Qed.

(** ** The log as it is written *)
Lemma checksum_words_pair hb native a b rest s :
  zlen a = 4 -> zlen b = 4 ->
  checksum_words hb native (a ++ b ++ rest) s =
  checksum_words hb native rest (checksum_step (word hb native a) (word hb native b) s).
Proof.
  intros Ha Hb. do 5 (destruct a as [|? a]; [try (vm_compute in Ha; lia)|]);
    [|rewrite !zlen_cons in Ha; pose proof (zlen_nonneg a); lia].
  do 5 (destruct b as [|? b]; [try (vm_compute in Hb; lia)|]);
    [|rewrite !zlen_cons in Hb; pose proof (zlen_nonneg b); lia].
  reflexivity.
Qed.

(** The word of the header in memory, swapped or not, is the word the file gives. *)
Lemma word_in_memory (hb : bool) v :
  word hb (negb (Z.land (native_magic hb) 1 =? 0)) (to_ne_bytes hb v) =
  word hb (use_native_of hb (native_magic hb)) (be_encode 4 v).
Proof.
  destruct hb; [done|]. unfold word, to_ne_bytes, use_native_of, native_magic, from_ne_bytes, swap_bytes.
  change (Z.land WAL_MAGIC_LE 1) with 0. cbn [Z.eqb negb eqb]. rewrite reverse_involutive.
  assert (be_encode 4 (be_decode (be_encode 4 v)) = be_encode 4 v) as ->; [|done].
  apply be_decode_encode_4; [apply zlen_be4|apply be_encode_ok].
Qed.

Lemma zlen_to_ne (hb : bool) v : zlen (to_ne_bytes hb v) = 4.
Proof. destruct hb; [apply zlen_be4|]. unfold to_ne_bytes, zlen. by rewrite length_reverse. Qed.

Lemma ztake_fields (fs : list (list Z)) n k :
  k = zlen (concat (take n fs)) -> ztake k (concat fs) = concat (take n fs).
Proof.
  intros Hk. rewrite <- (take_drop n fs) at 1. rewrite concat_app. by apply ztake_app_eq.
Qed.

Lemma wal_header_prefix h :
  ztake 24 (wal_header_bytes h) =
  concat [be_encode 4 (wh_magic h); be_encode 4 (wh_file_format h); be_encode 4 (wh_page_size h);
          be_encode 4 (wh_checkpoint_seq h); be_encode 4 (wh_salt_1 h); be_encode 4 (wh_salt_2 h)].
Proof. rewrite wal_header_fields, (ztake_fields _ 6) by zlen_fields. done. Qed.

Lemma header_in_memory hb h :
  zslice (WalHeader_as_bytes hb h) 0 24 = Some
    (concat [to_ne_bytes hb (wh_magic h); to_ne_bytes hb (wh_file_format h);
      to_ne_bytes hb (wh_page_size h); to_ne_bytes hb (wh_checkpoint_seq h);
      to_ne_bytes hb (wh_salt_1 h); to_ne_bytes hb (wh_salt_2 h)]).
Proof.
  set (fs := [to_ne_bytes hb (wh_magic h); to_ne_bytes hb (wh_file_format h);
    to_ne_bytes hb (wh_page_size h); to_ne_bytes hb (wh_checkpoint_seq h); to_ne_bytes hb (wh_salt_1 h);
    to_ne_bytes hb (wh_salt_2 h); to_ne_bytes hb (wh_checksum_1 h); to_ne_bytes hb (wh_checksum_2 h)]).
  replace (WalHeader_as_bytes hb h) with (concat fs)
    by (unfold WalHeader_as_bytes, fs; cbn [concat]; by rewrite app_nil_r).
  apply (zslice_fields fs 0 6); [done|]. unfold fs. cbn [concat firstn skipn].
  rewrite !zlen_app, !zlen_to_ne. reflexivity.
Qed.

Lemma header_checksum_memory (hb : bool) a b c d e f s :
  let memory := to_ne_bytes hb in
  let native := use_native_of hb (native_magic hb) in
  checksum_words hb (negb (Z.land (native_magic hb) 1 =? 0))
    (concat [memory a; memory b; memory c; memory d; memory e; memory f]) s =
  checksum_words hb native
    (concat [be_encode 4 a; be_encode 4 b; be_encode 4 c; be_encode 4 d; be_encode 4 e; be_encode 4 f]) s.
Proof.
  intros memory native. cbn [concat].
  rewrite !(checksum_words_pair hb (negb _)) by apply zlen_to_ne.
  rewrite !(checksum_words_pair hb native) by apply zlen_be4.
  unfold memory. by rewrite !word_in_memory.
Qed.

(** The header fields that [prepare_wal_header] keeps. *)
Definition shared_header_ok (hdr : WalHeader) : Prop :=
  in_u 32 (wh_file_format hdr) /\ in_u 32 (wh_checkpoint_seq hdr) /\
  in_u 32 (wh_salt_1 hdr) /\ in_u 32 (wh_salt_2 hdr) /\
  (wh_page_size hdr = 0 \/ PageSize_new (wh_page_size hdr) <> None).

Lemma page_size_u32 size : PageSize_new size <> None -> in_u 32 size.
Proof.
  destruct (PageSize_new size) eqn:E; [|done]. apply PageSize_new_Some in E as [Hin _]. intros _.
  repeat (destruct Hin as [<-|Hin]; [by vm_compute|]). destruct Hin.
Qed.

Lemma prepare_wal_header_ok (hb : bool) hdr page_size r1 r2 :
  shared_header_ok hdr -> PageSize_new page_size <> None ->
  exists h, prepare_wal_header hb hdr page_size r1 r2 = Ok h /\ header_ok hb h /\
    wh_checkpoint_seq h = wh_checkpoint_seq hdr.
Proof.
  intros (Hf & Hq & Hs1 & Hs2 & Hp) Hps. unfold prepare_wal_header.
  set (hdr' := mkWalHeader (native_magic hb) _ _ _ _ _ _ _). change (WAL_HEADER_SIZE - 8) with 24.
  rewrite header_in_memory. cbn [or_panic mbind res_bind]. unfold checksum_wal, assert_that.
  rewrite (proj2 (Z.eqb_eq (zlen _ mod 8) 0)) by (cbn [concat]; rewrite !zlen_app, !zlen_to_ne; done).
  cbn [mbind res_bind]. change (wh_magic hdr') with (native_magic hb). rewrite header_checksum_memory.
  set (c := checksum_words _ _ _ _). exists (set_checksum hdr' c). split_and!; [done| |done].
  assert (PageSize_new (wh_page_size hdr') <> None) as Hps'.
  { unfold hdr'. cbn [wh_page_size]. destruct (Z.eqb_spec (wh_page_size hdr) 0); [done|]. by destruct Hp. }
  unfold header_ok. rewrite wal_header_prefix. unfold set_checksum.
  cbn [wh_magic wh_file_format wh_page_size wh_checkpoint_seq wh_salt_1 wh_salt_2 wh_checksum_1 wh_checksum_2].
  split_and!; [destruct hb; by vm_compute|exact Hf|by apply page_size_u32|exact Hq| | |exact Hps'
    |fold c; apply surjective_pairing].
  - unfold hdr'. cbn [wh_salt_1]. destruct (_ && _); [apply wrap_in_u; lia|done].
  - unfold hdr'. cbn [wh_salt_2]. destruct (_ && _); [apply wrap_in_u; lia|done].
Qed.

(** The bytes that [prepare_wal_frame] builds for the frames [fs], one after the other. *)
Fixpoint written_log (hb : bool) (h : WalHeader) (c : Z * Z) (fs : list wal_frame)
    : result ((Z * Z) * list Z) :=
  match fs with
  | [] => Ok (c, [])
  | f :: fs =>
      let buffer := replicate (Z.to_nat (WAL_FRAME_HEADER_SIZE + wh_page_size h)) 0 in
      '(c, frame) ← prepare_wal_frame hb buffer h c (wf_page f) (wf_db_size f) (wf_data f);
      '(c, rest) ← written_log hb h c fs;
      Ok (c, frame ++ rest)
  end.

Lemma written_log_eq hb h fs : forall c,
  0 <= wh_page_size h -> wh_page_size h mod 8 = 0 -> Forall (frame_ok (wh_page_size h)) fs ->
  written_log hb h c fs = Ok (log_checksum hb h c fs, log_bytes hb h c fs).
Proof.
  induction fs as [|f fs IH]; intros c Hp Hm Hok; [done|].
  apply Forall_cons_iff in Hok as [(_ & _ & Hl) Hok]. cbn [written_log].
  rewrite prepare_wal_frame_eq; [|unfold zlen at 1; rewrite length_replicate; unfold WAL_FRAME_HEADER_SIZE; lia|congruence].
  cbn [mbind res_bind]. rewrite IH by done. reflexivity.
Qed.

Lemma written_log_bytes hb h fs c c' bytes :
  written_log hb h c fs = Ok (c', bytes) ->
  0 <= wh_page_size h -> wh_page_size h mod 8 = 0 -> Forall (frame_ok (wh_page_size h)) fs ->
  bytes = log_bytes hb h c fs.
Proof. intros Hw Hp Hm Hok. rewrite written_log_eq in Hw by done. by injection Hw as _ <-. Qed.

(** A torn log is the log of the whole frames it holds and less than a frame more. *)
Lemma torn_log hb h fs c k :
  0 < wh_page_size h -> Forall (frame_ok (wh_page_size h)) fs -> 0 <= k ->
  let n := k / (24 + wh_page_size h) in
  exists t, ztake k (log_bytes hb h c fs) = log_bytes hb h c (ztake n fs) ++ t /\
    zlen t < 24 + wh_page_size h.
Proof.
  intros Hps Hok Hk n. set (fsz := 24 + wh_page_size h) in *.
  pose proof (Z.div_mod k fsz ltac:(lia)) as Hdm. pose proof (Z.mod_pos_bound k fsz ltac:(lia)). fold n in Hdm.
  assert (0 <= n) by (apply Z.div_pos; lia).
  assert (Forall (frame_ok (wh_page_size h)) (ztake n fs)) as Hok1 by (by apply Forall_take).
  pose proof (zlen_log_bytes hb h (wh_page_size h) (ztake n fs) c Hok1) as Hl. fold fsz in Hl.
  rewrite zlen_ztake in Hl. pose proof (zlen_nonneg fs).
  destruct (Z.le_gt_cases (zlen fs) n).
  - exists []. rewrite (ztake_all fs n) in * by done. split; [|change (zlen []) with 0; lia].
    rewrite app_nil_r. apply ztake_all. rewrite Hl. nia.
  - rewrite Z.max_r, Z.min_l in Hl by lia.
    exists (ztake (k - n * fsz) (log_bytes hb h (log_checksum hb h c (ztake n fs)) (zdrop n fs))).
    split; [|rewrite zlen_ztake; lia].
    rewrite <- (ztake_zdrop fs n) at 1. rewrite log_bytes_app.
    replace k with (zlen (log_bytes hb h c (ztake n fs)) + (k - n * fsz)) at 1 by lia.
    by rewrite ztake_app_add by (rewrite ?Hl; nia).
Qed.

(** C27: Recovery finds exactly the committed frames.  For a log file that starts with a
    valid header and frames with chained checksums and ends in anything that
    does not continue them (nothing, a torn frame, zeros, frames of an earlier
    generation with other salts, a frame with a wrong checksum), opening the
    log terminates, publishes the number of the last commit frame as the
    maximum, indexes for every page exactly its frames up to that one in
    ascending order, and resumes the checksum there: frames of an unfinished
    transaction are not visible. *)
Theorem recovery_finds_committed_frames hb h fs tail pread fuel :
  let file := wal_header_bytes h ++
    log_bytes hb h (wh_checksum_1 h, wh_checksum_2 h) fs ++ tail in
  header_ok hb h -> Forall (frame_ok (wh_page_size h)) fs ->
  log_stops hb h (wh_page_size h) (log_checksum hb h (wh_checksum_1 h, wh_checksum_2 h) fs) tail ->
  reads_file pread file -> (2 * length fs + 6 <= fuel)%nat ->
  exists s, build_shared_wal hb pread fuel (zlen file) = Ok (Some s) /\ recovered_log hb h fs s.
Proof. exact (build_shared_wal_recovers hb h fs tail pread fuel). Qed.

Definition example_header : WalHeader :=
  match prepare_wal_header false (WalHeader_new false) 512 17 23 with
  | Ok h => h
  | _ => WalHeader_new false
  end.
(** A commit of page 2, then a frame of page 1 whose transaction did not commit. *)
Definition example_frames : list wal_frame :=
  [mkWalFrame 2 3 (replicate 512 7); mkWalFrame 1 0 (replicate 512 9)].
Definition example_log : list Z :=
  log_bytes false example_header (wh_checksum_1 example_header, wh_checksum_2 example_header) example_frames.
Definition example_file : list Z := wal_header_bytes example_header ++ example_log ++ replicate 600 0.

Lemma example_frames_ok : Forall (frame_ok 512) example_frames.
Proof. repeat apply Forall_cons; [..|constructor]; vm_compute; repeat split; discriminate. Qed.

Lemma recovery_finds_committed_frames_witness :
  exists s, build_shared_wal false (fun o n => Some (ztake n (zdrop o example_file))) 10
      (zlen example_file) = Ok (Some s) /\
    md_max_frame (metadata s) = 1 /\ rt_frame_cache (runtime s) !! 2 = Some [1] /\
    rt_frame_cache (runtime s) !! 1 = None.
Proof.
  destruct (recovery_finds_committed_frames false example_header example_frames (replicate 600 0)
    (fun o n => Some (ztake n (zdrop o example_file))) 10) as (s & Hs & Hrec).
  - vm_compute. repeat split; discriminate.
  - exact example_frames_ok.
  - right. left. reflexivity.
  - intros o n. reflexivity.
  - vm_compute. repeat constructor.
  - destruct Hrec as (_ & Hm & _ & _ & _ & _ & _ & _ & _ & Hc). exists s. split; [exact Hs|].
    split; [exact Hm|]. split; [exact (Hc 2)|exact (Hc 1)].
Defined.

(** C26: A crash loses only the frames that were not completely written.  Take the header
    that [prepare_wal_header] makes and the frames [prepare_wal_frame] appends
    after it, and cut the file at any byte after the header: opening it gives the
    log of the last transaction whose frames, commit frame included, are all
    in the file, with the frame index and the checksum the writer had then. *)
Theorem crash_keeps_committed_transactions hb hdr page_size rand_1 rand_2 fs k pread fuel :
  shared_header_ok hdr -> PageSize_new page_size <> None ->
  exists h, prepare_wal_header hb hdr page_size rand_1 rand_2 = Ok h /\
    (Forall (frame_ok (wh_page_size h)) fs -> WAL_HEADER_SIZE <= k ->
     exists c bytes, written_log hb h (wh_checksum_1 h, wh_checksum_2 h) fs = Ok (c, bytes) /\
       let file := ztake k (wal_header_bytes h ++ bytes) in
       (reads_file pread file -> (2 * length fs + 6 <= fuel)%nat ->
        exists s, build_shared_wal hb pread fuel (zlen file) = Ok (Some s) /\
          recovered_log hb h
            (ztake ((k - WAL_HEADER_SIZE) / (WAL_FRAME_HEADER_SIZE + wh_page_size h)) fs) s)).
Proof.
  intros Hhdr Hps. destruct (prepare_wal_header_ok hb hdr page_size rand_1 rand_2 Hhdr Hps) as (h & Hprep & Hok & _).
  exists h. split; [done|]. intros Hfs Hk. destruct (header_page_size hb h Hok) as [Hp Hp8].
  eexists _, _. split; [apply written_log_eq; (done || lia)|]. cbn zeta.
  unfold WAL_HEADER_SIZE, WAL_FRAME_HEADER_SIZE in *. set (c0 := (wh_checksum_1 h, wh_checksum_2 h)).
  destruct (torn_log hb h fs c0 (k - 32) Hp Hfs ltac:(lia)) as (t & Ht & Hlt).
  assert (ztake k (wal_header_bytes h ++ log_bytes hb h c0 fs) = wal_header_bytes h ++
    log_bytes hb h c0 (ztake ((k - 32) / (24 + wh_page_size h)) fs) ++ t) as ->.
  { rewrite <- Ht, <- ztake_app_add, zlen_wal_header_bytes by lia. f_equal. lia. }
  intros Hread Hfuel.
  apply (build_shared_wal_recovers hb h _ t pread fuel); [done|by apply Forall_take|by left|done|].
  unfold ztake. rewrite length_take. lia.
Qed.

Lemma crash_keeps_committed_transactions_witness :
  let file := ztake 1000 (wal_header_bytes example_header ++ example_log) in
  exists s, build_shared_wal false (fun o n => Some (ztake n (zdrop o file))) 10 (zlen file) =
      Ok (Some s) /\
    md_max_frame (metadata s) = 1 /\ rt_frame_cache (runtime s) !! 2 = Some [1].
Proof.
  intros file. destruct (crash_keeps_committed_transactions false (WalHeader_new false) 512 17 23
    example_frames 1000 (fun o n => Some (ztake n (zdrop o file))) 10) as (h & Hh & Hrest).
  - vm_compute. repeat split; try discriminate. left. reflexivity.
  - vm_compute. discriminate.
  - assert (h = example_header) as -> by (unfold example_header; rewrite Hh; reflexivity).
    destruct Hrest as (c & bytes & Hw & Hrest); [exact example_frames_ok|vm_compute; discriminate|].
    assert (bytes = example_log) as ->.
    { apply (written_log_bytes _ _ _ _ _ _ Hw); [vm_compute; discriminate|reflexivity|exact example_frames_ok]. }
    destruct Hrest as (s & Hs & Hrec); [intros o n; reflexivity|vm_compute; repeat constructor|].
    exists s. split; [exact Hs|]. destruct Hrec as (_ & Hm & _ & _ & _ & _ & _ & _ & _ & Hc).
    split; [exact Hm|exact (Hc 2)].
Defined.
