(* ===== verification/WalIndex.v ===== *)
(** * The frame index of the write-ahead log ([InProcessWalCoordination], [src/core/storage/wal.rs])

    [cache_frame], [rollback_cache], [find_frame] and [iter_latest_frames] on the map
    from pages to frame numbers, refined by the list of the pages that the frames
    of the log hold. *)
From stdpp Require Import gmap sorting.
From S2P Require Import Prelude Errors WalFormat WalShared WalRecovery.

(** [while frames.last().is_some_and(stale) { frames.pop(); }] *)
Fixpoint pop_while (stale : Z -> bool) (frames : list Z) : list Z :=
  match frames with
  | [] => []
  | f :: rest =>
      match pop_while stale rest with
      | [] => if stale f then [] else [f]
      | rest => f :: rest
      end
  end.

(** [frame_cache.retain(|_, frames| { ..; !frames.is_empty() })] *)
Definition retain_frames (stale : Z -> bool) (cache : gmap Z (list Z)) : gmap Z (list Z) :=
  omap (fun frames => nonempty (pop_while stale frames)) cache.

Definition cache_frame (page_id frame_id : Z) (s : WalFileShared) : WalFileShared :=
  let frame_cache := rt_frame_cache (runtime s) in
  let high_water := rt_frame_cache_high_water (runtime s) in
  let frame_cache :=
    if frame_id <=? high_water then retain_frames (fun frame => frame_id <=? frame) frame_cache
    else frame_cache in
  let frame_cache :=
    match frame_cache !! page_id with
    | Some frames => <[page_id := frames ++ [frame_id]]> frame_cache
    | None => <[page_id := [frame_id]]> frame_cache
    end in
  set_high_water frame_id (set_frame_cache frame_cache s).

Definition rollback_cache (max_frame : Z) (s : WalFileShared) : WalFileShared :=
  let frame_cache := retain_frames (fun frame => max_frame <? frame) (rt_frame_cache (runtime s)) in
  let s := set_frame_cache frame_cache s in
  if max_frame <? rt_frame_cache_high_water (runtime s) then set_high_water max_frame s else s.

(** [iter().rfind(pred)] *)
Fixpoint rfind (pred : Z -> bool) (l : list Z) : option Z :=
  match l with
  | [] => None
  | x :: l =>
      match rfind pred l with
      | Some y => Some y
      | None => if pred x then Some x else None
      end
  end.

Definition in_range (lo hi frame : Z) : bool := (lo <=? frame) && (frame <=? hi).

Definition find_frame (page_id min_frame max_frame : Z) (frame_watermark : option Z) (s : WalFileShared)
    : option Z :=
  let '(lo, hi) := match frame_watermark with Some x => (0, x) | None => (min_frame, max_frame) end in
  frames ← rt_frame_cache (runtime s) !! page_id;
  rfind (in_range lo hi) frames.

(** The pairs come in the order of the hash map and are sorted by page. *)
Definition by_page (a b : Z * Z) : Prop := a.1 <= b.1.
#[export] Instance by_page_dec : RelDecision by_page.
Proof. intros a b. unfold by_page. apply _. Defined.

Definition iter_latest_frames (min_frame max_frame : Z) (s : WalFileShared) : list (Z * Z) :=
  let list := omap (fun '(page_id, frames) =>
                 frame_id ← rfind (in_range min_frame max_frame) frames;
                 Some (page_id, frame_id)) (map_to_list (rt_frame_cache (runtime s))) in
  merge_sort by_page list.

(** ** The log as a list of pages *)

(** The frames of page [p], the first frame of the list having number [i]. *)
Fixpoint page_frames (p i : Z) (log : list Z) : list Z :=
  match log with
  | [] => []
  | q :: log => (if q =? p then [i] else []) ++ page_frames p (i + 1) log
  end.

Definition indexes (log : list Z) (s : WalFileShared) : Prop :=
  (forall p, rt_frame_cache (runtime s) !! p = nonempty (page_frames p 1 log)) /\
  rt_frame_cache_high_water (runtime s) = zlen log.

(** [n] is the number of the latest frame of [p] between [lo] and [hi]. *)
Definition latest_frame (log : list Z) (p lo hi n : Z) : Prop :=
  lo <= n <= hi /\ zget log (n - 1) = Some p /\
  forall n', n < n' <= hi -> zget log (n' - 1) <> Some p.

Inductive index_op := CacheFrame (page_id frame_id : Z) | RollbackCache (max_frame : Z).

Definition run_index_op (o : index_op) (s : WalFileShared) : WalFileShared :=
  match o with
  | CacheFrame page_id frame_id => cache_frame page_id frame_id s
  | RollbackCache max_frame => rollback_cache max_frame s
  end.

Definition spec_index_op (o : index_op) (log : list Z) : list Z :=
  match o with
  | CacheFrame page_id frame_id => ztake (frame_id - 1) log ++ [page_id]
  | RollbackCache max_frame => ztake max_frame log
  end.

(** Frames are appended at the end of the log or over an abandoned part of it. *)
Definition index_op_ok (o : index_op) (log : list Z) : Prop :=
  match o with
  | CacheFrame _ frame_id => 1 <= frame_id <= zlen log + 1
  | RollbackCache max_frame => 0 <= max_frame
  end.

Fixpoint index_ops_ok (os : list index_op) (log : list Z) : Prop :=
  match os with
  | [] => True
  | o :: os => index_op_ok o log /\ index_ops_ok os (spec_index_op o log)
  end.

(** ** Lemmas *)
Lemma page_frames_app p a : forall i b,
  page_frames p i (a ++ b) = page_frames p i a ++ page_frames p (i + zlen a) b.
Proof.
  induction a as [|q a IH]; intros i b; simpl; [by rewrite Z.add_0_r|].
  rewrite IH, zlen_cons, <- app_assoc. do 2 f_equal. f_equal. lia.
Qed.

Lemma page_frames_range p log : forall i, Forall (fun x => i <= x < i + zlen log) (page_frames p i log).
Proof.
  induction log as [|q log IH]; intros i; [constructor|]. rewrite zlen_cons. pose proof (zlen_nonneg log).
  simpl. apply Forall_app. split; [destruct (q =? p); repeat constructor; lia|].
  eapply Forall_impl; [|apply IH]. simpl. lia.
Qed.

Lemma page_frames_elem p log : forall i n, n ∈ page_frames p i log <-> i <= n /\ zget log (n - i) = Some p.
Proof.
  induction log as [|q log IH]; intros i n; simpl.
  - rewrite zget_None by (unfold zlen; simpl; lia). set_solver.
  - rewrite elem_of_app, IH. change (q :: log) with ([q] ++ log). rewrite zget_app. change (zlen [q]) with 1.
    destruct (Z.ltb_spec (n - i) 1).
    + unfold zget at 2. destruct (Z.ltb_spec (n - i) 0).
      * split; [|intros [_ [=]]]. destruct (Z.eqb_spec q p); [rewrite list_elem_of_singleton|]; set_solver by lia.
      * replace (n - i) with 0 by lia. simpl. destruct (Z.eqb_spec q p) as [->|Hq].
        -- rewrite list_elem_of_singleton. split; intros; [split; [lia|done]|left; lia].
        -- split; [intros [[]%elem_of_nil|[? _]]; lia|intros [_ [= ?]]; done].
    + replace (n - i - 1) with (n - (i + 1)) by lia. destruct (Z.eqb_spec q p) as [->|Hq].
      * rewrite list_elem_of_singleton. split; [intros [->|[? ?]]; [lia|split; [lia|done]]|].
        intros [? ?]. right. split; [lia|done].
      * split; [intros [[]%elem_of_nil|[? ?]]; split; [lia|done]|]. intros [? ?]. right. split; [lia|done].
Qed.

Lemma pop_while_stale (stale : Z -> bool) b : Forall (fun x => stale x = true) b -> pop_while stale b = [].
Proof. induction 1 as [|x b Hx _ IH]; [done|]. simpl. by rewrite IH, Hx. Qed.

Lemma pop_while_fresh (stale : Z -> bool) a b :
  Forall (fun x => stale x = false) a -> pop_while stale b = [] -> pop_while stale (a ++ b) = a.
Proof.
  induction 1 as [|x a Hx Ha IH]; intros Hb; [done|]. simpl. rewrite IH by done.
  destruct a; [by rewrite Hx|done].
Qed.

Lemma pop_while_frames (stale : Z -> bool) p log k :
  0 <= k -> (forall x, 1 <= x <= k -> stale x = false) -> (forall x, k < x -> stale x = true) ->
  pop_while stale (page_frames p 1 log) = page_frames p 1 (ztake k log).
Proof.
  intros Hk Hf Hs. rewrite <- (ztake_zdrop log k) at 1. rewrite page_frames_app.
  destruct (Z.le_gt_cases (zlen log) k) as [Hl|Hl].
  - rewrite (ztake_all log) by lia. assert (zdrop k log = []) as ->.
    { unfold zdrop, zlen in *. apply drop_ge. lia. }
    apply pop_while_fresh; [|done]. eapply Forall_impl; [|apply page_frames_range]. simpl.
    intros x Hx. apply Hf. lia.
  - apply pop_while_fresh.
    + eapply Forall_impl; [|apply page_frames_range]. simpl. rewrite zlen_ztake. intros x Hx. apply Hf. lia.
    + apply pop_while_stale. eapply Forall_impl; [|apply page_frames_range]. simpl. rewrite zlen_ztake.
      intros x Hx. apply Hs. lia.
Qed.

Lemma retain_frames_log (stale : Z -> bool) (cache : gmap Z (list Z)) log k :
  (forall p, cache !! p = nonempty (page_frames p 1 log)) ->
  0 <= k -> (forall x, 1 <= x <= k -> stale x = false) -> (forall x, k < x -> stale x = true) ->
  forall p, retain_frames stale cache !! p = nonempty (page_frames p 1 (ztake k log)).
Proof.
  intros Hc Hk Hf Hs p. unfold retain_frames. rewrite lookup_omap, Hc.
  rewrite <- (pop_while_frames stale p log k) by done.
  by destruct (page_frames p 1 log).
Qed.

Lemma cache_frame_indexes page_id frame_id log s :
  indexes log s -> 1 <= frame_id <= zlen log + 1 ->
  indexes (ztake (frame_id - 1) log ++ [page_id]) (cache_frame page_id frame_id s).
Proof.
  intros [Hc Hw] Hid. unfold cache_frame. rewrite Hw.
  set (cache := if frame_id <=? zlen log then _ else _).
  assert (forall p, cache !! p = nonempty (page_frames p 1 (ztake (frame_id - 1) log))) as Hcache.
  { unfold cache. destruct (Z.leb_spec frame_id (zlen log)).
    - apply retain_frames_log; [exact Hc|lia|intros x Hx; apply Z.leb_gt; lia|intros x Hx; apply Z.leb_le; lia].
    - by rewrite ztake_all by lia. }
  assert (zlen (ztake (frame_id - 1) log) = frame_id - 1) as Hl by (rewrite zlen_ztake; lia).
  split; [|shared_simpl; rewrite zlen_app, Hl; change (zlen [page_id]) with 1; lia].
  intros p. shared_simpl. rewrite page_frames_app, Hl. replace (1 + (frame_id - 1)) with frame_id by lia.
  simpl page_frames at 2. rewrite Hcache.
  assert (forall l, <[page_id := l]> cache !! p =
    if page_id =? p then Some l else cache !! p) as Hins.
  { intros l. destruct (Z.eqb_spec page_id p) as [->|]; [apply lookup_insert_eq|by apply lookup_insert_ne]. }
  destruct (page_frames page_id 1 _) eqn:Ep; simpl; rewrite Hins, Hcache;
    (destruct (Z.eqb_spec page_id p) as [->|]; [by rewrite Ep|]); simpl; by rewrite !app_nil_r.
Qed.

Lemma rollback_cache_indexes max_frame log s :
  indexes log s -> 0 <= max_frame -> indexes (ztake max_frame log) (rollback_cache max_frame s).
Proof.
  intros [Hc Hw] Hm. unfold rollback_cache. shared_simpl. rewrite Hw.
  pose proof (zlen_nonneg log).
  assert (forall p, retain_frames (fun frame => max_frame <? frame) (rt_frame_cache (runtime s)) !! p =
    nonempty (page_frames p 1 (ztake max_frame log))) as Hcache.
  { apply retain_frames_log; [exact Hc|lia|intros x Hx; apply Z.ltb_ge; lia|intros x Hx; apply Z.ltb_lt; lia]. }
  destruct (Z.ltb_spec max_frame (zlen log)); (split; [exact Hcache|]); shared_simpl; rewrite zlen_ztake; lia.
Qed.

Lemma run_index_op_indexes o log s :
  indexes log s -> index_op_ok o log -> indexes (spec_index_op o log) (run_index_op o s).
Proof. destruct o; [apply cache_frame_indexes|apply rollback_cache_indexes]. Qed.

Lemma rfind_last (pred : Z -> bool) l :
  match rfind pred l with
  | Some x => pred x = true /\ exists a b, l = a ++ x :: b /\ Forall (fun y => pred y = false) b
  | None => Forall (fun y => pred y = false) l
  end.
Proof.
  induction l as [|x l IH]; [constructor|]. simpl. destruct (rfind pred l) as [y|].
  - destruct IH as (Hy & a & b & -> & Hb). split; [done|]. exists (x :: a), b. done.
  - destruct (pred x) eqn:Hx; [|by constructor]. split; [done|]. by exists [], l.
Qed.

Lemma page_frames_ascending p log : forall i, StronglySorted Z.lt (page_frames p i log).
Proof.
  induction log as [|q log IH]; intros i; [constructor|]. simpl. destruct (q =? p); [|apply IH].
  constructor; [apply IH|]. eapply Forall_impl; [|apply page_frames_range]. simpl. lia.
Qed.

Lemma rfind_latest p log lo hi :
  match rfind (in_range lo hi) (page_frames p 1 log) with
  | Some n => latest_frame log p lo hi n
  | None => forall n, lo <= n <= hi -> zget log (n - 1) <> Some p
  end.
Proof.
  pose proof (rfind_last (in_range lo hi) (page_frames p 1 log)) as Hf.
  assert (forall n, zget log (n - 1) = Some p -> n ∈ page_frames p 1 log) as Hin.
  { intros n Hn. apply page_frames_elem. split; [|done]. apply zget_Some_range in Hn. lia. }
  assert (forall x, in_range lo hi x = false <-> ~ lo <= x <= hi) as Hr.
  { intros x. unfold in_range. destruct (Z.leb_spec lo x), (Z.leb_spec x hi); simpl; split; (done || lia). }
  destruct (rfind _ _) as [n|].
  - destruct Hf as (Hn & a & b & Hl & Hb). apply andb_true_iff in Hn as [Hn1%Z.leb_le Hn2%Z.leb_le].
    assert (n ∈ page_frames p 1 log) as Hpn by (rewrite Hl; set_solver).
    apply page_frames_elem in Hpn as [_ Hpn]. split_and!; [lia..|done|].
    intros n' Hn' Hg%Hin. rewrite Hl in Hg. apply elem_of_app in Hg as [Hg|Hg].
    + pose proof (page_frames_ascending p log 1) as Hs. rewrite Hl in Hs.
      pose proof (StronglySorted_app_1_elem_of _ _ _ _ n Hs Hg ltac:(set_solver)). lia.
    + apply elem_of_cons in Hg as [->|Hg]; [lia|]. rewrite Forall_forall in Hb.
      specialize (Hb n' ltac:(by apply list_elem_of_In)). apply Hr in Hb. lia.
  - intros n Hn Hg%Hin. rewrite Forall_forall in Hf. specialize (Hf n ltac:(by apply list_elem_of_In)).
    by apply Hr in Hf.
Qed.

Lemma find_frame_rfind page_id lo hi w log s :
  indexes log s ->
  find_frame page_id lo hi w s =
  rfind (match w with Some x => in_range 0 x | None => in_range lo hi end) (page_frames page_id 1 log).
Proof.
  intros [Hc _]. unfold find_frame. destruct w; rewrite Hc; by destruct (page_frames page_id 1 log).
Qed.

#[export] Instance by_page_total : Total by_page.
Proof. intros a b. unfold by_page. lia. Qed.
#[export] Instance by_page_trans : Transitive by_page.
Proof. intros a b c. unfold by_page. lia. Qed.

Lemma NoDup_fst_sorted (l : list (Z * Z)) :
  StronglySorted by_page l -> NoDup l.*1 -> StronglySorted Z.lt l.*1.
Proof.
  induction 1 as [|x l Hl IH Hx]; simpl; intros Hnd; [constructor|].
  apply list.NoDup_cons in Hnd as [Hn Hnd]. constructor; [by apply IH|].
  apply Forall_forall. intros y Hy%list_elem_of_In. apply list_elem_of_fmap in Hy as (z & -> & Hz).
  rewrite Forall_forall in Hx. specialize (Hx z ltac:(by apply list_elem_of_In)). unfold by_page in Hx.
  assert (z.1 <> x.1); [|lia]. intros E. apply Hn. rewrite <- E. apply list_elem_of_fmap. eauto.
Qed.

Lemma omap_fst_NoDup (f : Z * list Z -> option (Z * Z)) (l : list (Z * list Z)) :
  (forall x y, f x = Some y -> y.1 = x.1) -> NoDup l.*1 -> NoDup (omap f l).*1.
Proof.
  intros Hf. induction l as [|x l IH]; simpl; intros Hnd; [constructor|].
  apply list.NoDup_cons in Hnd as [Hn Hnd]. destruct (f x) as [y|] eqn:E; [|by apply IH].
  simpl. apply list.NoDup_cons. split; [|by apply IH]. rewrite (Hf _ _ E). intros Hin. apply Hn.
  apply list_elem_of_fmap in Hin as (z & Hz & Hin). apply list_elem_of_omap in Hin as (w & Hw & Ew).
  apply list_elem_of_fmap. exists w. split; [|done]. rewrite Hz. by rewrite (Hf _ _ Ew).
Qed.

Lemma iter_latest_frames_spec lo hi s :
  StronglySorted Z.lt (iter_latest_frames lo hi s).*1 /\
  forall p n, (p, n) ∈ iter_latest_frames lo hi s <-> find_frame p lo hi None s = Some n.
Proof.
  unfold iter_latest_frames, find_frame. set (f := fun '(page_id, frames) => _). split.
  - apply NoDup_fst_sorted; [apply StronglySorted_merge_sort; apply _|].
    rewrite merge_sort_Permutation. apply omap_fst_NoDup; [|apply NoDup_fst_map_to_list].
    intros [q fs] y. unfold f. destruct (rfind _ fs); simpl; [|done]. by intros [= <-].
  - intros p n. rewrite merge_sort_Permutation, list_elem_of_omap. split.
    + intros ([q fs] & Hq & Ef). apply elem_of_map_to_list in Hq. unfold f in Ef.
      destruct (rfind _ fs) eqn:E; [|done]. injection Ef as -> ->. rewrite Hq. exact E.
    + destruct (rt_frame_cache (runtime s) !! p) as [fs|] eqn:E; [|done]. simpl. intros Hr.
      exists (p, fs). split; [by apply elem_of_map_to_list|]. unfold f. by rewrite Hr.
Qed.

(** C31: The frame index refines the log.  Starting from an index of the frames of a log, any
    sequence of [cache_frame] (appending, or overwriting the frames of an
    abandoned append) and [rollback_cache] leaves an index of the log that the
    list operations give.  In it [find_frame] returns the latest frame of the
    page inside the range or below the watermark, and nothing exactly when no
    frame there holds the page; [iter_latest_frames] lists each page of the
    range once, in ascending order, with that same frame. *)
Theorem frame_index_refines os log s :
  indexes log s -> index_ops_ok os log ->
  let s' := foldl (flip run_index_op) s os in
  let log' := foldl (flip spec_index_op) log os in
  indexes log' s' /\
  (forall p lo hi w,
     let '(lo', hi') := match w with Some x => (0, x) | None => (lo, hi) end in
     match find_frame p lo hi w s' with
     | Some n => latest_frame log' p lo' hi' n
     | None => forall n, lo' <= n <= hi' -> zget log' (n - 1) <> Some p
     end) /\
  (forall lo hi, StronglySorted Z.lt (iter_latest_frames lo hi s').*1 /\
     forall p n, (p, n) ∈ iter_latest_frames lo hi s' <-> find_frame p lo hi None s' = Some n).
Proof.
  intros Hi Hok s' log'. assert (indexes log' s') as Hi'.
  { revert log s Hi Hok s' log'. induction os as [|o os IH]; intros log s Hi Hok; simpl; [done|].
    destruct Hok as [Ho Hok]. apply IH; [by apply run_index_op_indexes|done]. }
  split; [done|]. split; [|intros lo hi; apply iter_latest_frames_spec].
  intros p lo hi w. rewrite (find_frame_rfind p lo hi w log' s' Hi').
  destruct w as [x|]; apply rfind_latest.
Qed.

(** An abandoned append of pages 7 and 8 after a commit of 5 is overwritten by 9. *)
Definition index_example : WalFileShared :=
  mkShared (mkMetadata true (WalHeader_new false) 0 0 0 0 (0, 0) true false true)
    (mkRuntime ∅ 0 [] 0 0 0 0 coverage_default).

Lemma frame_index_refines_witness :
  let s := foldl (flip run_index_op) index_example
             [CacheFrame 5 1; CacheFrame 7 2; CacheFrame 8 3; CacheFrame 9 2; CacheFrame 5 3] in
  indexes [5; 9; 5] s /\ iter_latest_frames 1 3 s = [(5, 3); (9, 2)].
Proof.
  split; [|vm_compute; reflexivity].
  apply (frame_index_refines
    [CacheFrame 5 1; CacheFrame 7 2; CacheFrame 8 3; CacheFrame 9 2; CacheFrame 5 3] [] index_example).
  - split; [intros p; apply lookup_empty|reflexivity].
  - vm_compute. repeat split; discriminate.
Defined.
