(* ===== verification/Threads.v ===== *)
(** * Programs of atomic actions and their interleavings

    A [prog] is a sequence of atomic actions on a shared state.  The boolean an
    action receives is chosen by the scheduler: whether a compare-and-exchange
    lost its race, or whether an I/O request failed.  [runs] executes a program
    alone; [sched_step] interleaves the programs of a list of threads.  A
    program is proved with [upholds]: each action, from any state in which the
    invariant holds for the ghost status of this thread, succeeds and keeps the
    invariant for some next status. *)
From stdpp Require Import relations.
From S2P Require Import Prelude Errors.

Inductive prog (S A : Type) : Type :=
| Ret (a : A)
| Atomic (X : Type) (f : bool -> S -> result (X * S)) (k : X -> prog S A).
Arguments Ret {S A} a.
Arguments Atomic {S A X} f k.

Fixpoint prog_bind {S A B} (k : A -> prog S B) (m : prog S A) : prog S B :=
  match m with
  | Ret a => k a
  | Atomic f j => Atomic f (fun x => prog_bind k (j x))
  end.

#[export] Instance prog_mret S : MRet (prog S) := fun _ a => Ret a.
#[export] Instance prog_mbind S : MBind (prog S) := fun _ _ k m => prog_bind k m.

(** Actions. *)
Definition action {S X} (f : bool -> S -> result (X * S)) : prog S X := Atomic f Ret.
Definition loads {S X} (f : S -> X) : prog S X := action (fun _ s => Ok (f s, s)).
Definition stores {S} (f : S -> S) : prog S () := action (fun _ s => Ok ((), f s)).
Definition checks {S} (b : bool) : prog S () := action (fun _ s => if b then Ok ((), s) else Panic).
Definition chooses {S} : prog S bool := action (fun b s => Ok (b, s)).
(** The outcome of a computation on private data; a failed assertion in it is one of the thread. *)
Definition settles {S E A} (r : res E A) : prog S (res E A) :=
  action (fun _ s => match r with Panic => Panic | r => Ok (r, s) end).

(** A program on a part of the state. *)
Fixpoint zoom {S T A} (get : T -> S) (put : S -> T -> T) (p : prog S A) : prog T A :=
  match p with
  | Ret a => Ret a
  | Atomic f k =>
      Atomic (fun b t => '(x, s) ← f b (get t); Ok (x, put s t)) (fun x => zoom get put (k x))
  end.

(** The program alone, every race won and no request failing. *)
Fixpoint runs {S A} (p : prog S A) (s : S) : result (A * S) :=
  match p with
  | Ret a => Ok (a, s)
  | Atomic f k => '(x, s) ← f false s; runs (k x) s
  end.

(** The states in which a failed assertion is to be reckoned with. *)
Class Halts (S : Type) : Type := halts : S -> Prop.

Section Threads.
Context {S L : Type} (starts : L -> prog S L -> Prop).

Inductive thread :=
| Resting (l : L)
| Running (p : prog S L)
| Panicked.

Record config := mkConfig { cf_state : S; cf_threads : list thread }.

(** The step of thread [i]. *)
Inductive sched_step (i : nat) : config -> config -> Prop :=
| step_start s ts l p :
    ts !! i = Some (Resting l) -> starts l p ->
    sched_step i (mkConfig s ts) (mkConfig s (<[i := Running p]> ts))
| step_finish s ts l :
    ts !! i = Some (Running (Ret l)) ->
    sched_step i (mkConfig s ts) (mkConfig s (<[i := Resting l]> ts))
| step_action s ts X (f : bool -> S -> result (X * S)) k b x s' :
    ts !! i = Some (Running (Atomic f k)) -> f b s = Ok (x, s') ->
    sched_step i (mkConfig s ts) (mkConfig s' (<[i := Running (k x)]> ts))
| step_panic s ts X (f : bool -> S -> result (X * S)) k b :
    ts !! i = Some (Running (Atomic f k)) -> (forall r, f b s <> Ok r) ->
    sched_step i (mkConfig s ts) (mkConfig s (<[i := Panicked]> ts)).

Definition any_step (c c' : config) : Prop := exists i, sched_step i c c'.
Definition other_step (i : nat) (c c' : config) : Prop := exists j, j <> i /\ sched_step j c c'.

(** ** Invariants *)

(** The ghost state: a part [H] shared by the threads and a status [G] of each.  The
    transitions [allowed] are the steps of the specification. *)
Context {halting : Halts S}.
Context {H G : Type} (Inv : H -> list G -> S -> Prop) (allowed : H * G -> H * G -> Prop) (matches : L -> G -> Prop).

Fixpoint upholds {A} (i : nat) (g : G) (p : prog S A) (Q : A -> G -> Prop) : Prop :=
  match p with
  | Ret a => Q a g
  | Atomic f k =>
      forall b h gs s, gs !! i = Some g -> Inv h gs s ->
        (exists x s' h' g', f b s = Ok (x, s') /\ rtc allowed (h, g) (h', g') /\
          Inv h' (<[i := g']> gs) s' /\ upholds i g' (k x) Q) \/
        halts s /\ f b s = Panic
  end.

Lemma upholds_bind {A B} i (m : prog S A) (k : A -> prog S B) Q : forall g,
  upholds i g m (fun a g' => upholds i g' (k a) Q) -> upholds i g (m ≫= k) Q.
Proof.
  induction m as [a|X f j IH]; intros g Hm; [exact Hm|]. intros b h gs s Hg HI.
  destruct (Hm b h gs s Hg HI) as [(x & s' & h' & g' & Hf & Ha & HI' & Hk)|?]; [|by right]. left. exists x, s', h', g'.
  split_and!; [done..|]. by apply IH.
Qed.

Lemma upholds_zoom_bind {P A B} (get : S -> P) (put : P -> S -> S) i (m : prog P A) (k : A -> prog P B) Q :
  forall g, upholds i g (zoom get put m) (fun a g' => upholds i g' (zoom get put (k a)) Q) ->
    upholds i g (zoom get put (m ≫= k)) Q.
Proof.
  induction m as [a|X f j IH]; intros g Hm; [exact Hm|]. intros b h gs s Hg HI.
  destruct (Hm b h gs s Hg HI) as [(x & s' & h' & g' & Hf & Ha & HI' & Hk)|?]; [|by right]. left. exists x, s', h', g'.
  split_and!; [done..|]. by apply IH.
Qed.

Lemma upholds_mono {A} i (m : prog S A) (P Q : A -> G -> Prop) : forall g,
  upholds i g m P -> (forall a g', P a g' -> Q a g') -> upholds i g m Q.
Proof.
  induction m as [a|X f j IH]; intros g Hm HPQ; [by apply HPQ|]. intros b h gs s Hg HI.
  destruct (Hm b h gs s Hg HI) as [(x & s' & h' & g' & Hf & Ha & HI' & Hk)|?]; [|by right]. left. exists x, s', h', g'.
  split_and!; [done..|]. by eapply IH.
Qed.

(** A change of the ghost state after an action. *)
Definition ghost (i : nat) (g : G) (Q : G -> Prop) : Prop :=
  forall h gs s, gs !! i = Some g -> Inv h gs s ->
    exists h' g', rtc allowed (h, g) (h', g') /\ Inv h' (<[i := g']> gs) s /\ Q g'.

Lemma ghost_same i g (Q : G -> Prop) : Q g -> ghost i g Q.
Proof. intros HQ h gs s Hg HI. exists h, g. split_and!; [done| |done]. by rewrite list_insert_id. Qed.

Lemma ghost_mono i g (P Q : G -> Prop) : ghost i g P -> (forall g', P g' -> Q g') -> ghost i g Q.
Proof. intros HP HPQ h gs s Hg HI. destruct (HP h gs s Hg HI) as (h' & g' & ? & ? & ?). exists h', g'. auto. Qed.

Lemma upholds_ghost {X} i (f : bool -> S -> result (X * S)) (Q : X -> G -> Prop) g :
  upholds i g (Atomic f Ret) (fun x g' => ghost i g' (Q x)) -> upholds i g (Atomic f Ret) Q.
Proof.
  intros Hm b h gs s Hg HI. destruct (Hm b h gs s Hg HI) as [(x & s' & h' & g' & Hf & Ha & HI' & Hh)|?]; [|by right]. left.
  destruct (Hh h' (<[i := g']> gs) s') as (h'' & g'' & Ha' & HI'' & HQ); [|done|].
  - apply list_lookup_insert_eq. by eapply lookup_lt_Some.
  - rewrite list_insert_insert_eq in HI''. exists x, s', h'', g''. split_and!; try done. by etrans.
Qed.

(** The same after the last action of a program that has one. *)
Lemma upholds_end {A} i (Q : A -> G -> Prop) (m : prog S A) : forall g,
  (forall a, m <> Ret a) -> upholds i g m (fun a g' => ghost i g' (Q a)) -> upholds i g m Q.
Proof.
  induction m as [a|X f k IH]; intros g Hne Hm; [by destruct (Hne a)|]. clear Hne. intros b h gs s Hg HI.
  destruct (Hm b h gs s Hg HI) as [(x & s' & h' & g' & Hf & Ha & HI' & Hk)|?]; [|by right]. left. destruct (k x) as [a|Y f' k'] eqn:Ek.
  - destruct (Hk h' (<[i := g']> gs) s') as (h'' & g'' & Ha' & HI'' & HQ); [|done|].
    + apply list_lookup_insert_eq. by eapply lookup_lt_Some.
    + rewrite list_insert_insert_eq in HI''. exists x, s', h'', g''. rewrite Ek. split_and!; try done. by etrans.
  - exists x, s', h', g'. split_and!; [done..|]. apply IH; [by rewrite Ek|by rewrite Ek].
Qed.

(** Alone, a program that upholds the invariant comes to its end. *)
Lemma upholds_runs {A} i (p : prog S A) Q : (forall s, ~ halts s) -> forall h gs s g, upholds i g p Q -> gs !! i = Some g -> Inv h gs s ->
  exists a s' h' g', runs p s = Ok (a, s') /\ Inv h' (<[i := g']> gs) s' /\ Q a g'.
Proof.
  intros Hno. induction p as [a|X f k IH]; intros h gs s g Hp Hg HI; [exists a, s, h, g; by rewrite list_insert_id|].
  destruct (Hp false h gs s Hg HI) as [(x & s1 & h1 & g1 & Hf & _ & HI1 & Hk)|[Hh _]]; [|by destruct (Hno s)].
  destruct (IH x h1 (<[i := g1]> gs) s1 g1) as (a & s' & h' & g' & Hr & HI' & HQ); [done| |done|].
  - apply list_lookup_insert_eq. by eapply lookup_lt_Some.
  - rewrite list_insert_insert_eq in HI'. exists a, s', h', g'. simpl. by rewrite Hf.
Qed.

Definition thread_ok (i : nat) (t : thread) (g : G) : Prop :=
  match t with
  | Resting l => matches l g
  | Running p => upholds i g p matches
  | Panicked => exists s, halts s
  end.

Definition config_ok (h : H) (gs : list G) (c : config) : Prop :=
  Inv h gs (cf_state c) /\ length gs = length (cf_threads c) /\
  forall i t g, cf_threads c !! i = Some t -> gs !! i = Some g -> thread_ok i t g.

Context (starts_ok : forall i l p g, matches l g -> starts l p -> upholds i g p matches).

Lemma config_ok_update h gs s h' s' ts i t' g' :
  config_ok h gs (mkConfig s ts) -> Inv h' (<[i := g']> gs) s' -> thread_ok i t' g' ->
  config_ok h' (<[i := g']> gs) (mkConfig s' (<[i := t']> ts)).
Proof.
  intros (_ & Hl & Hok) HI Ht. split_and!; [done|simpl; by rewrite !length_insert|].
  intros j t g Hj Hg. simpl in *. destruct (decide (i = j)) as [->|Hne].
  - apply list_lookup_insert_Some in Hj as [(_ & <- & _)|[? _]]; [|done].
    apply list_lookup_insert_Some in Hg as [(_ & <- & _)|[? _]]; done.
  - rewrite list_lookup_insert_ne in Hj by done. rewrite list_lookup_insert_ne in Hg by done. eauto.
Qed.

(** A step of thread [i] changes at most the status of thread [i], as the specification allows. *)
Lemma config_ok_step h gs i c c' :
  config_ok h gs c -> sched_step i c c' ->
  exists g h' g', gs !! i = Some g /\ rtc allowed (h, g) (h', g') /\ config_ok h' (<[i := g']> gs) c'.
Proof.
  intros Hc Hst. pose proof Hc as (HI & Hl & Hok).
  assert (exists g, gs !! i = Some g) as [g Hg].
  { apply lookup_lt_is_Some. rewrite Hl. apply lookup_lt_is_Some.
    destruct Hst as [? ? ? ? Ht|? ? ? Ht|? ? ? ? ? ? ? ? Ht|? ? ? ? ? ? Ht]; simpl; by rewrite Ht. }
  exists g. destruct Hst as [s ts l p Ht Hs|s ts l Ht|s ts X f k b x s' Ht Hf|s ts X f k b Ht Hf];
    pose proof (Hok i _ g Ht Hg) as Hi; simpl in Hi, HI.
  - exists h, g. split_and!; [done..|]. eapply config_ok_update; [done|by rewrite list_insert_id|]. simpl. eauto.
  - exists h, g. split_and!; [done..|]. eapply config_ok_update; [done|by rewrite list_insert_id|done].
  - destruct (Hi b h gs s Hg HI) as [(x' & s'' & h' & g' & Hf' & Ha & HI' & Hk)|[_ Hf']]; [|congruence]. rewrite Hf in Hf'.
    injection Hf' as <- <-. exists h', g'. split_and!; [done..|]. by eapply config_ok_update.
  - destruct (Hi b h gs s Hg HI) as [(x' & s'' & h' & g' & Hf' & _)|[Hh _]]; [by destruct (Hf _ Hf')|].
    exists h, g. split_and!; [done..|]. eapply config_ok_update; [done|by rewrite list_insert_id|]. by exists s.
Qed.

(** The steps of the specification. *)
Inductive spec_step : H * list G -> H * list G -> Prop :=
| spec_thread h gs i g h' g' :
    gs !! i = Some g -> allowed (h, g) (h', g') -> spec_step (h, gs) (h', <[i := g']> gs).

Lemma spec_steps_thread i a a' :
  rtc allowed a a' -> forall gs, gs !! i = Some a.2 -> rtc spec_step (a.1, gs) (a'.1, <[i := a'.2]> gs).
Proof.
  induction 1 as [[h g]|[h g] [h1 g1] [h2 g2] Ha _ IH]; intros gs' Hi; simpl in *.
  - by rewrite list_insert_id.
  - eapply rtc_l; [by eapply spec_thread|]. rewrite <- (list_insert_insert_eq gs' i g2 g1). apply IH.
    apply list_lookup_insert_eq. by eapply lookup_lt_Some.
Qed.

Lemma config_ok_reachable h gs c c' :
  config_ok h gs c -> rtc any_step c c' -> exists h' gs', config_ok h' gs' c' /\ rtc spec_step (h, gs) (h', gs').
Proof.
  intros Hc Hr. revert h gs Hc. induction Hr as [|c1 c2 c3 [i Hi] _ IH]; intros h gs Hc; [eauto using rtc_refl|].
  destruct (config_ok_step h gs i c1 c2 Hc Hi) as (g & h' & g' & Hg & Ha & Hc').
  destruct (IH _ _ Hc') as (h'' & gs'' & Hc'' & Hs). exists h'', gs''. split; [done|].
  etrans; [|exact Hs]. by apply (spec_steps_thread i (h, g) (h', g')).
Qed.

(** Steps of the other threads leave the status of thread [i] alone. *)
Lemma config_ok_others h gs c c' i g :
  config_ok h gs c -> gs !! i = Some g -> rtc (other_step i) c c' ->
  exists h' gs', config_ok h' gs' c' /\ gs' !! i = Some g.
Proof.
  intros Hc Hg Hr. revert h gs Hc Hg. induction Hr as [|c1 c2 c3 [j [Hj Hst]] _ IH]; intros h gs Hc Hg; [eauto|].
  destruct (config_ok_step h gs j c1 c2 Hc Hst) as (g1 & h' & g' & _ & _ & Hg'). apply (IH _ _ Hg').
  by rewrite list_lookup_insert_ne.
Qed.

Lemma other_steps_rest c c' i t : cf_threads c !! i = Some t -> rtc (other_step i) c c' -> cf_threads c' !! i = Some t.
Proof.
  intros Ht Hr. induction Hr as [|c1 c2 c3 [j [Hj Hst]] _ IH]; [done|]. apply IH.
  destruct Hst; simpl in *; by rewrite list_lookup_insert_ne.
Qed.

(** A thread fails an assertion only in a state where that is to be reckoned with. *)
Lemma config_no_panic h gs c i : (forall s, ~ halts s) -> config_ok h gs c -> cf_threads c !! i <> Some Panicked.
Proof.
  intros Hno (_ & Hl & Hok) Hi. assert (is_Some (gs !! i)) as [g Hg].
  { apply lookup_lt_is_Some. rewrite Hl. apply lookup_lt_is_Some. by rewrite Hi. }
  destruct (Hok i _ g Hi Hg) as [s Hs]. by destruct (Hno s).
Qed.

Lemma no_panic h gs c c' i :
  (forall s, ~ halts s) -> config_ok h gs c -> rtc any_step c c' -> cf_threads c' !! i <> Some Panicked.
Proof.
  intros Hno Hc Hr. destruct (config_ok_reachable h gs c c' Hc Hr) as (h' & gs' & Hc' & _). by eapply config_no_panic.
Qed.

(** Once it is, it stays so; then a thread that has failed one shows that the state is such. *)
Lemma panic_halts h gs c c' i :
  (forall c1 c2, rtc any_step c c1 -> any_step c1 c2 -> halts (cf_state c1) -> halts (cf_state c2)) ->
  config_ok h gs c -> (forall j, cf_threads c !! j <> Some Panicked) -> rtc any_step c c' ->
  cf_threads c' !! i = Some Panicked -> halts (cf_state c').
Proof.
  intros Hmono Hc Hnone Hr Hi. revert i Hi.
  refine (rtc_ind_r (fun c' => forall i, cf_threads c' !! i = Some Panicked -> halts (cf_state c')) c _ _ c' Hr).
  - intros i Hi. by destruct (Hnone i).
  - intros c1 c2 Hr1 Hst IH i Hi. pose proof Hst as [j Hj].
    destruct (config_ok_reachable h gs c c1 Hc Hr1) as (h1 & gs1 & (HI1 & Hl1 & Hok1) & _).
    assert (halts (cf_state c1)) as Hh; [|by eapply Hmono].
    destruct Hj as [s ts l p Ht Hs|s ts l Ht|s ts X f k b x s' Ht Hf|s ts X f k b Ht Hf]; simpl in *;
      (destruct (decide (j = i)) as [->|Hne]; [|rewrite list_lookup_insert_ne in Hi by done; by apply (IH i)]);
      rewrite list_lookup_insert_eq in Hi by (by eapply lookup_lt_Some); try done.
    destruct (lookup_lt_is_Some_2 gs1 i) as [g Hg]; [rewrite Hl1; by eapply lookup_lt_Some|].
    destruct (Hok1 i _ g Ht Hg b h1 gs1 s Hg HI1) as [(x & s' & h' & g' & Hf' & _)|[Hh _]]; [by destruct (Hf _ Hf')|done].
Qed.
End Threads.

(** More transitions of the specification allow no less. *)
Lemma upholds_weaken {S H G A} {halting : Halts S} (Inv : H -> list G -> S -> Prop) (allowed allowed' : H * G -> H * G -> Prop) i
    (m : prog S A) Q :
  (forall a b, allowed a b -> allowed' a b) ->
  forall g, upholds Inv allowed i g m Q -> upholds Inv allowed' i g m Q.
Proof.
  intros Ha. induction m as [a|X f k IH]; intros g Hm; [exact Hm|]. intros b h gs s Hg HI.
  destruct (Hm b h gs s Hg HI) as [(x & s' & h' & g' & Hf & Hr & HI' & Hk)|?]; [|by right]. left. exists x, s', h', g'.
  split_and!; [done|by eapply rtc_subrel|done|by apply IH].
Qed.

(** The first action of a program, by the lemma [lem] about it. *)
Ltac bind_with lem := apply upholds_bind; eapply upholds_mono; [lem|cbv beta].

(** ** Schedules *)
Section Replay.
Context {S L Op : Type} (op_ok : Op -> L -> bool) (run_op : Op -> L -> prog S L).
#[local] Abbreviation config := (config (S := S) (L := L)).

(** The programs of the operations that the state of a thread admits. *)
Definition op_starts (l : L) (p : prog S L) : Prop := exists o, op_ok o l = true /\ p = run_op o l.

Definition start_thread (i : nat) (o : Op) (c : config) : option config :=
  match cf_threads c !! i with
  | Some (Resting l) =>
      if op_ok o l then Some (mkConfig (cf_state c) (<[i := Running (run_op o l)]> (cf_threads c))) else None
  | _ => None
  end.

(** At most [fuel] steps of thread [i]: every race won and no request failing. *)
Fixpoint run_thread (fuel : nat) (i : nat) (c : config) : option config :=
  match fuel with
  | O => Some c
  | Datatypes.S fuel =>
      match cf_threads c !! i with
      | Some (Running (Ret l)) => Some (mkConfig (cf_state c) (<[i := Resting l]> (cf_threads c)))
      | Some (Running (Atomic f k)) =>
          match f false (cf_state c) with
          | Ok (x, s) => run_thread fuel i (mkConfig s (<[i := Running (k x)]> (cf_threads c)))
          | _ => None
          end
      | _ => Some c
      end
  end.

Inductive event := Start (i : nat) (o : Op) | Run (i fuel : nat).

Fixpoint replay (es : list event) (c : config) : option config :=
  match es with
  | [] => Some c
  | Start i o :: es => c ← start_thread i o c; replay es c
  | Run i fuel :: es => c ← run_thread fuel i c; replay es c
  end.

Lemma run_thread_steps i fuel : forall c c', run_thread fuel i c = Some c' -> rtc (sched_step op_starts i) c c'.
Proof.
  induction fuel as [|fuel IH]; intros [s ts] c' H; simpl in H; [injection H as <-; apply rtc_refl|].
  destruct (ts !! i) as [[l|p|]|] eqn:Ei; try (injection H as <-; apply rtc_refl). destruct p as [l|X f k].
  - injection H as <-. by apply rtc_once, step_finish.
  - destruct (f false s) as [[x s']| |] eqn:Ef; [|done|done]. eapply rtc_l; [by eapply step_action|]. by apply IH.
Qed.

Definition event_thread (e : event) : nat := match e with Start i _ | Run i _ => i end.

Lemma replay_steps P es : forall c c',
  Forall (fun e => P (event_thread e)) es -> replay es c = Some c' ->
  rtc (fun c c' => exists j, P j /\ sched_step op_starts j c c') c c'.
Proof.
  induction es as [|e es IH]; intros c c' HP H; [injection H as <-; apply rtc_refl|].
  apply Forall_cons_iff in HP as [Hj HP]. destruct e as [i o|i fuel]; simpl in H, Hj.
  - unfold start_thread in H. destruct c as [s ts]. simpl in H. destruct (ts !! i) as [[l| |]|] eqn:Ei; try done.
    destruct (op_ok o l) eqn:Eo; [|done]. simpl in H. eapply rtc_l; [|by apply IH].
    exists i. split; [done|]. apply (step_start _ _ _ _ l); [done|]. by exists o.
  - destruct (run_thread fuel i c) as [c1|] eqn:E; [|done]. simpl in H. etrans; [|by apply IH].
    apply run_thread_steps in E. eapply rtc_subrel; [|exact E]. intros a b Hab. by exists i.
Qed.

(** Where a schedule ends; where it started when it is not one. *)
Definition replayed (es : list event) (c : config) : config := default c (replay es c).

Lemma replayed_reachable es c : rtc (any_step op_starts) c (replayed es c).
Proof.
  unfold replayed. destruct (replay es c) as [c'|] eqn:E; [|apply rtc_refl].
  eapply rtc_subrel; [|apply (replay_steps (fun _ => True) es); [|exact E]].
  - intros a b (j & _ & Hj). by exists j.
  - by apply Forall_true.
Qed.

Lemma replayed_others i es c :
  Forall (fun e => event_thread e <> i) es -> rtc (other_step op_starts i) c (replayed es c).
Proof.
  intros HP. unfold replayed. destruct (replay es c) as [c'|] eqn:E; [|apply rtc_refl].
  by apply (replay_steps (fun j => j <> i) es).
Qed.
End Replay.

(** ** Traces *)

(** Runs of a step relation whose steps emit events. *)
Inductive trace {C E : Type} (step : C -> list E -> C -> Prop) (c : C) : list E -> C -> Prop :=
| trace_nil : trace step c [] c
| trace_step tr c1 ls c2 : trace step c tr c1 -> step c1 ls c2 -> trace step c (tr ++ ls) c2.

Lemma trace_once {C E} (step : C -> list E -> C -> Prop) c ls c' : step c ls c' -> trace step c ls c'.
Proof. intros Hst. apply (trace_step step c [] c); [apply trace_nil|done]. Qed.

Lemma trace_app {C E} (step : C -> list E -> C -> Prop) c tr c1 tr' c2 :
  trace step c tr c1 -> trace step c1 tr' c2 -> trace step c (tr ++ tr') c2.
Proof.
  intros H1 H2. induction H2 as [|tr' c2 ls c3 _ IH Hst]; [by rewrite app_nil_r|]. rewrite app_assoc. by eapply trace_step.
Qed.

(** ** Requests and replies

    The events a user of the threads sees: a thread is asked for an operation, and it
    replies.  The specification serves the same requests one at a time: each takes effect
    at one moment between the request and the reply ([effect]). *)
Section Served.
Context {S L Op R : Type} (op_ok : Op -> L -> bool) (run_op : Op -> L -> prog S L) (reply : L -> R).
#[local] Abbreviation config := (config (S := S) (L := L)).

Inductive label := Request (i : nat) (o : Op) | Reply (i : nat) (r : R).

(** The label of a step of the threads. *)
Inductive label_step (c : config) : list label -> config -> Prop :=
| label_request i o l :
    cf_threads c !! i = Some (Resting l) -> op_ok o l = true ->
    label_step c [Request i o] (mkConfig (cf_state c) (<[i := Running (run_op o l)]> (cf_threads c)))
| label_reply i l :
    cf_threads c !! i = Some (Running (Ret l)) ->
    label_step c [Reply i (reply l)] (mkConfig (cf_state c) (<[i := Resting l]> (cf_threads c)))
| label_action i X (f : bool -> S -> result (X * S)) k b x s' :
    cf_threads c !! i = Some (Running (Atomic f k)) -> f b (cf_state c) = Ok (x, s') ->
    label_step c [] (mkConfig s' (<[i := Running (k x)]> (cf_threads c)))
| label_panic i X (f : bool -> S -> result (X * S)) k b :
    cf_threads c !! i = Some (Running (Atomic f k)) -> (forall r, f b (cf_state c) <> Ok r) ->
    label_step c [] (mkConfig (cf_state c) (<[i := Panicked]> (cf_threads c))).

Lemma label_step_any c ls c' : label_step c ls c' -> any_step (op_starts op_ok run_op) c c'.
Proof.
  destruct c as [s ts]. intros [i o l Hi Ho|i l Hi|i X f k b x s' Hi Hf|i X f k b Hi Hf]; simpl in *; exists i.
  - eapply step_start; [done|]. by exists o.
  - by apply step_finish.
  - by eapply step_action.
  - by eapply step_panic.
Qed.

Lemma any_step_label c c' : any_step (op_starts op_ok run_op) c c' -> exists ls, label_step c ls c'.
Proof.
  intros [i Hst]. destruct Hst as [s ts l p Hi (o & Ho & ->)|s ts l Hi|s ts X f k b x s' Hi Hf|s ts X f k b Hi Hf].
  - eexists. by apply (label_request (mkConfig s ts)).
  - eexists. by apply (label_reply (mkConfig s ts)).
  - eexists. by eapply (label_action (mkConfig s ts)).
  - eexists. by eapply (label_panic (mkConfig s ts)).
Qed.

Lemma trace_steps c tr c' : trace label_step c tr c' -> rtc (any_step (op_starts op_ok run_op)) c c'.
Proof. induction 1 as [|tr c1 ls c2 _ IH Hst]; [done|]. eapply rtc_r; [exact IH|]. by eapply label_step_any. Qed.

(** Every run has a trace. *)
Lemma steps_trace c c' : rtc (any_step (op_starts op_ok run_op)) c c' -> exists tr, trace label_step c tr c'.
Proof.
  intros Hr. refine (rtc_ind_r (fun c' => exists tr, trace label_step c tr c') c _ _ c' Hr); [eexists; apply trace_nil|].
  intros c1 c2 _ Hst [tr Htr]. destruct (any_step_label _ _ Hst) as [ls Hls]. eexists. by eapply trace_step.
Qed.

(** The labels of a schedule. *)
Fixpoint run_labels (fuel : nat) (i : nat) (c : config) : list label :=
  match fuel with
  | O => []
  | Datatypes.S fuel =>
      match cf_threads c !! i with
      | Some (Running (Ret l)) => [Reply i (reply l)]
      | Some (Running (Atomic f k)) =>
          match f false (cf_state c) with
          | Ok (x, s) => run_labels fuel i (mkConfig s (<[i := Running (k x)]> (cf_threads c)))
          | _ => []
          end
      | _ => []
      end
  end.

Fixpoint replay_labels (es : list event) (c : config) : list label :=
  match es with
  | [] => []
  | Start i o :: es => Request i o :: match start_thread op_ok run_op i o c with Some c => replay_labels es c | None => [] end
  | Run i fuel :: es => run_labels fuel i c ++ match run_thread fuel i c with Some c => replay_labels es c | None => [] end
  end.

Lemma run_thread_trace i fuel : forall c c', run_thread fuel i c = Some c' -> trace label_step c (run_labels fuel i c) c'.
Proof.
  induction fuel as [|fuel IH]; intros [s ts] c' H; simpl in H |- *; [injection H as <-; apply trace_nil|].
  destruct (ts !! i) as [[l|p|]|] eqn:Ei; try (injection H as <-; apply trace_nil). destruct p as [l|X f k].
  - injection H as <-. by apply trace_once, (label_reply (mkConfig s ts)).
  - destruct (f false s) as [[x s']| |] eqn:Ef; [|done|done].
    apply (trace_app label_step _ [] (mkConfig s' (<[i := Running (k x)]> ts))); [|by apply IH].
    by eapply trace_once, (label_action (mkConfig s ts)).
Qed.

Lemma replay_trace es : forall c c', replay op_ok run_op es c = Some c' -> trace label_step c (replay_labels es c) c'.
Proof.
  induction es as [|[i o|i fuel] es IH]; intros c c' H; simpl in H |- *; [injection H as <-; apply trace_nil|..].
  - unfold start_thread in *. destruct (cf_threads c !! i) as [[l| |]|] eqn:Ei; try done.
    destruct (op_ok o l) eqn:Eo; [|done]. simpl in H. eapply (trace_app label_step _ [Request i o]); [|by apply IH].
    by apply trace_once, label_request.
  - destruct (run_thread fuel i c) as [c1|] eqn:E; [|done]. simpl in H.
    eapply trace_app; [by apply run_thread_trace|by apply IH].
Qed.

(** ** The specification *)
Context {halting : Halts S} (no_halt : forall s, ~ halts s).
Context {H G A : Type} (Inv : H -> list G -> S -> Prop) (matches : L -> G -> Prop) (abs : G -> A).
Context (effect : Op -> R -> H * A -> H * A -> Prop).

Inductive client := Free (a : A) | Asked (a : A) (o : Op) | Answered (a : A) (o : Op) (r : R).

Inductive serve_step (d : H * list client) : list label -> H * list client -> Prop :=
| serve_request i a o :
    d.2 !! i = Some (Free a) -> serve_step d [Request i o] (d.1, <[i := Asked a o]> d.2)
| serve_effect i a o r h' a' :
    d.2 !! i = Some (Asked a o) -> effect o r (d.1, a) (h', a') ->
    serve_step d [] (h', <[i := Answered a' o r]> d.2)
| serve_reply i a o r :
    d.2 !! i = Some (Answered a o r) -> serve_step d [Reply i r] (d.1, <[i := Free a]> d.2).

(** While a thread runs operation [o], its ghost status says whether the operation has taken
    effect ([seen]); at the end it has, or does so then. *)
Definition effect_once (o : Op) (seen : G -> client) (allowed : H * G -> H * G -> Prop) : Prop :=
  forall h g h' g', allowed (h, g) (h', g') ->
    h' = h /\ seen g' = seen g \/
    exists a r a', seen g = Asked a o /\ seen g' = Answered a' o r /\ effect o r (h, a) (h', a').

Definition answers (i : nat) (o : Op) (seen : G -> client) (l : L) (g : G) : Prop :=
  matches l g /\
  forall h gs s, Inv h gs s -> gs !! i = Some g ->
    seen g = Answered (abs g) o (reply l) \/
    exists a, seen g = Asked a o /\ effect o (reply l) (h, a) (h, abs g).

Definition serving (i : nat) (q : client) (g : G) (p : prog S L) : Prop :=
  exists o seen allowed, q = seen g /\ effect_once o seen allowed /\ upholds Inv allowed i g p (answers i o seen).

Definition thread_serves (i : nat) (t : thread) (g : G) (q : client) : Prop :=
  match t with
  | Resting l => matches l g /\ q = Free (abs g)
  | Running p => serving i q g p
  | Panicked => False
  end.

Record config_serves (h : H) (gs : list G) (qs : list client) (c : config) : Prop := mkServes {
  cs_inv : Inv h gs (cf_state c);
  cs_gs : length gs = length (cf_threads c);
  cs_qs : length qs = length (cf_threads c);
  cs_threads : forall i t g q, cf_threads c !! i = Some t -> gs !! i = Some g -> qs !! i = Some q -> thread_serves i t g q
}.

Lemma config_serves_update h gs qs c h' s' i t' g' q' :
  config_serves h gs qs c -> Inv h' (<[i := g']> gs) s' -> thread_serves i t' g' q' ->
  config_serves h' (<[i := g']> gs) (<[i := q']> qs) (mkConfig s' (<[i := t']> (cf_threads c))).
Proof.
  intros [_ Hl Hl' Hok] HI Ht. constructor; simpl; [done|by rewrite !length_insert..|].
  intros j t g q Hj Hg Hq. destruct (decide (i = j)) as [->|Hne].
  - apply list_lookup_insert_Some in Hj as [(_ & <- & _)|[? _]]; [|done].
    apply list_lookup_insert_Some in Hg as [(_ & <- & _)|[? _]]; [|done].
    apply list_lookup_insert_Some in Hq as [(_ & <- & _)|[? _]]; done.
  - rewrite list_lookup_insert_ne in Hj by done. rewrite list_lookup_insert_ne in Hg by done.
    rewrite list_lookup_insert_ne in Hq by done. eauto.
Qed.

(** The moves of a thread's status are silent steps of the specification. *)
Lemma effect_once_serves o seen allowed i a a' :
  effect_once o seen allowed -> rtc allowed a a' -> forall qs, qs !! i = Some (seen a.2) ->
  trace serve_step (a.1, qs) [] (a'.1, <[i := seen a'.2]> qs).
Proof.
  intros Ho Hr. induction Hr as [[h g]|[h g] [h1 g1] [h2 g2] Ha _ IH]; intros qs Hi; simpl in *.
  { rewrite list_insert_id by done. apply trace_nil. }
  destruct (Ho _ _ _ _ Ha) as [[-> E]|(x & r & x' & E & E' & He)].
  - specialize (IH qs). rewrite E in IH. auto.
  - apply (trace_app serve_step _ [] (h1, <[i := seen g1]> qs) []).
    + apply trace_once. rewrite E'. rewrite E in Hi. by eapply (serve_effect (h, qs)).
    + specialize (IH (<[i := seen g1]> qs)). rewrite list_insert_insert_eq in IH. apply IH.
      apply list_lookup_insert_eq. by eapply lookup_lt_Some.
Qed.

Context (starts_serving : forall i l o g, matches l g -> op_ok o l = true -> serving i (Asked (abs g) o) g (run_op o l)).

Lemma config_serves_step h gs qs c ls c' :
  config_serves h gs qs c -> label_step c ls c' ->
  exists h' gs' qs', trace serve_step (h, qs) ls (h', qs') /\ config_serves h' gs' qs' c'.
Proof.
  intros Hc Hst. pose proof Hc as [HI Hl Hl' Hok].
  assert (forall i t, cf_threads c !! i = Some t -> exists g q, gs !! i = Some g /\ qs !! i = Some q /\ thread_serves i t g q) as Hat.
  { intros i t Ht. pose proof (lookup_lt_Some _ _ _ Ht).
    destruct (lookup_lt_is_Some_2 gs i) as [g Hg]; [lia|]. destruct (lookup_lt_is_Some_2 qs i) as [q Hq]; [lia|].
    exists g, q. split_and!; [done..|]. by apply (Hok i). }
  destruct Hst as [i o l Hi Ho|i l Hi|i X f k b x s' Hi Hf|i X f k b Hi Hf];
    destruct (Hat i _ Hi) as (g & q & Hg & Hq & Ht); simpl in Ht.
  - destruct Ht as [Hm ->]. eexists h, (<[i := g]> gs), _. split.
    + apply trace_once. by apply (serve_request (h, qs)).
    + eapply config_serves_update; [done|by rewrite list_insert_id|]. by apply starts_serving.
  - destruct Ht as (o & seen & allowed & -> & Hs & Hm & Hr). exists h, (<[i := g]> gs), (<[i := Free (abs g)]> qs). split.
    + destruct (Hr h gs (cf_state c) HI Hg) as [E|(a & E & He)].
      * apply trace_once. rewrite E in Hq. by eapply (serve_reply (h, qs)).
      * apply (trace_app serve_step _ [] (h, <[i := Answered (abs g) o (reply l)]> qs)).
        -- apply trace_once. rewrite E in Hq. by eapply (serve_effect (h, qs)).
        -- apply trace_once. rewrite <- (list_insert_insert_eq qs i (Free (abs g)) (Answered (abs g) o (reply l))).
           eapply (serve_reply (h, _)). apply list_lookup_insert_eq. by eapply lookup_lt_Some.
    + eapply config_serves_update; [done|by rewrite list_insert_id|done].
  - destruct Ht as (o & seen & allowed & -> & Hs & Hu).
    destruct (Hu b h gs _ Hg HI) as [(x' & s'' & h' & g' & Hf' & Ha & HI' & Hk)|[Hh _]]; [|by destruct (no_halt (cf_state c))]. rewrite Hf in Hf'.
    injection Hf' as <- <-. exists h', (<[i := g']> gs), (<[i := seen g']> qs). split.
    + by apply (effect_once_serves o seen allowed i (h, g) (h', g')).
    + eapply config_serves_update; [done|done|]. by exists o, seen, allowed.
  - destruct Ht as (o & seen & allowed & -> & Hs & Hu).
    destruct (Hu b h gs _ Hg HI) as [(x' & s'' & h' & g' & Hf' & _)|[Hh _]]; [by destruct (Hf _ Hf')|by destruct (no_halt (cf_state c))].
Qed.

(** Every trace of the threads is one of the specification. *)
Lemma config_serves_trace h gs qs c tr c' :
  config_serves h gs qs c -> trace label_step c tr c' ->
  exists h' gs' qs', trace serve_step (h, qs) tr (h', qs') /\ config_serves h' gs' qs' c'.
Proof.
  intros Hc Ht. induction Ht as [|tr c1 ls c2 _ (h1 & gs1 & qs1 & Hs1 & Hc1) Hst]; [exists h, gs, qs; split; [apply trace_nil|done]|].
  destruct (config_serves_step h1 gs1 qs1 c1 ls c2 Hc1 Hst) as (h2 & gs2 & qs2 & Hs2 & Hc2).
  exists h2, gs2, qs2. split; [|done]. by eapply trace_app.
Qed.
End Served.
Arguments client : clear implicits.
