(* ===== verification/WalCoordination.v ===== *)
(** * Coordination of WAL users ([InProcessWalCoordination], [src/core/storage/wal.rs])

    The operations a connection calls to pin a snapshot, write, checkpoint and
    restart the log, as programs of atomic actions on the shared state.  An
    action is one operation on a lock word, or what the code does under the
    exclusive lock of the shared state; the lock [try_begin_read_tx] holds
    shared only removes interleavings. *)
From stdpp Require Import gmap.
From S2P Require Import Prelude Errors OnDisk WalFormat WalLock WalShared WalIndex Threads.

Record WalSnapshot := mkSnapshot {
  sn_max_frame : Z;
  sn_nbackfills : Z;
  sn_last_checksum : Z * Z;
  sn_checkpoint_seq : Z;
  sn_transaction_count : Z
}.

#[export] Instance WalSnapshot_eq_dec : EqDecision WalSnapshot.
Proof. solve_decision. Defined.

Definition sn_min_frame (s : WalSnapshot) : Z := sn_nbackfills s + 1.

Record WalCommitState := mkCommit {
  cs_max_frame : Z;
  cs_last_checksum : Z * Z;
  cs_transaction_count : Z
}.

Inductive ReadGuardKind := GuardNone | DbFile | ReadMark (slot : Z).

Inductive CheckpointMode :=
| Passive (upper_bound_inclusive : option Z)
| Full
| Restart
| Truncate (upper_bound_inclusive : option Z).

Definition should_restart_log (mode : CheckpointMode) : bool :=
  match mode with Truncate _ | Restart => true | _ => false end.
Definition require_all_backfilled (mode : CheckpointMode) : bool :=
  match mode with Passive _ => false | _ => true end.

Inductive CoordinationCheckpointGuardKind := GuardRead0 | GuardWriter.

(** ** The locks *)
Inductive wal_lock := ReadLock (slot : Z) | VacuumLock | WriteLock | CheckpointLock.

#[export] Instance wal_lock_eq_dec : EqDecision wal_lock.
Proof. solve_decision. Defined.

Definition get_lock (k : wal_lock) (s : WalFileShared) : option Z :=
  let r := runtime s in
  match k with
  | ReadLock i => zget (rt_read_locks r) i
  | VacuumLock => Some (rt_vacuum_lock r)
  | WriteLock => Some (rt_write_lock r)
  | CheckpointLock => Some (rt_checkpoint_lock r)
  end.

Definition set_lock (k : wal_lock) (w : Z) (s : WalFileShared) : WalFileShared :=
  match k with
  | ReadLock i => set_read_locks (<[Z.to_nat i := w]> (rt_read_locks (runtime s))) s
  | VacuumLock =>
      let r := runtime s in
      with_runtime s (mkRuntime (rt_frame_cache r) (rt_frame_cache_high_water r) (rt_read_locks r) w
        (rt_write_lock r) (rt_checkpoint_lock r) (rt_epoch r) (rt_overflow_fallback_coverage r))
  | WriteLock => set_write_lock w s
  | CheckpointLock => set_checkpoint_lock w s
  end.

Definition on_lock {X} (k : wal_lock) (op : bool -> Z -> result (X * Z)) (b : bool) (s : WalFileShared)
    : result (X * WalFileShared) :=
  w ← or_panic (get_lock k s);
  '(x, w) ← op b w;
  Ok (x, set_lock k w s).

(** An acquisition that loses its race gives up. *)
Definition acquires (op : Z -> bool * Z) (lost : bool) (w : Z) : result (bool * Z) :=
  Ok (if lost then (false, w) else op w).
Definition releases (op : Z -> result Z) (_ : bool) (w : Z) : result (() * Z) :=
  w ← op w; Ok ((), w).

Definition try_shared (k : wal_lock) : prog WalFileShared bool := action (on_lock k (acquires lock_read)).
Definition try_exclusive (k : wal_lock) : prog WalFileShared bool := action (on_lock k (acquires lock_write)).
Definition try_upgrade (k : wal_lock) : prog WalFileShared bool := action (on_lock k (acquires lock_upgrade)).
Definition unlock (k : wal_lock) : prog WalFileShared () := action (on_lock k (releases lock_unlock)).
Definition downgrade (k : wal_lock) : prog WalFileShared () := action (on_lock k (releases lock_downgrade)).
Definition read_mark_value (slot : Z) : prog WalFileShared Z :=
  action (on_lock (ReadLock slot) (fun _ w => Ok (get_value w, w))).
Definition set_read_mark_value_exclusive (slot v : Z) : prog WalFileShared () :=
  action (on_lock (ReadLock slot) (releases (set_value_exclusive v))).

Definition held_read_mark (slot : Z) : prog WalFileShared (option Z) :=
  action (on_lock (ReadLock slot) (fun _ w => Ok (held_value w, w))).

(** ** Snapshots and publication *)
Definition snapshot_of (s : WalFileShared) : WalSnapshot :=
  let m := metadata s in
  mkSnapshot (md_max_frame m) (md_nbackfills m) (md_last_checksum m)
    (wh_checkpoint_seq (md_wal_header m)) (md_transaction_count m).

Definition load_snapshot : prog WalFileShared WalSnapshot := loads snapshot_of.

Definition publish_commit (c : WalCommitState) : prog WalFileShared () :=
  stores (fun s => set_transaction_count (cs_transaction_count c)
    (set_last_checksum (cs_last_checksum c) (set_max_frame (cs_max_frame c) s))).

Definition publish_backfill (max_frame : Z) : prog WalFileShared () :=
  stores (set_nbackfills max_frame).

Definition bump_checkpoint_epoch : prog WalFileShared Z :=
  action (fun _ s => let e := rt_epoch (runtime s) in Ok (e, set_epoch (wrap 32 (e + 1)) s)).

(** ** Readers *)
Definition U32_MAX : Z := 0xffffffff.

(** The slots after slot 0. *)
Definition mark_slots : list Z := [1; 2; 3; 4].

(** The best mark not beyond the snapshot, [-1] when there is none. *)
Fixpoint best_read_mark (max_frame : Z) (slots : list Z) (best_idx best_mark : Z)
    : prog WalFileShared (Z * Z) :=
  match slots with
  | [] => Ret (best_idx, best_mark)
  | idx :: slots =>
      mark ← read_mark_value idx;
      if negb (mark =? READMARK_NOT_USED) && (mark <=? wrap 32 max_frame) &&
         ((best_idx =? -1) || (best_mark <? mark))
      then best_read_mark max_frame slots idx mark
      else best_read_mark max_frame slots best_idx best_mark
  end.

(** The first slot nobody holds is set to the snapshot. *)
Fixpoint claim_read_mark (max_frame : Z) (slots : list Z) (best_idx best_mark : Z)
    : prog WalFileShared (Z * Z) :=
  match slots with
  | [] => Ret (best_idx, best_mark)
  | idx :: slots =>
      free ← try_exclusive (ReadLock idx);
      if negb free then claim_read_mark max_frame slots best_idx best_mark
      else
        set_read_mark_value_exclusive idx (wrap 32 max_frame);;
        unlock (ReadLock idx);;
        Ret (idx, wrap 32 max_frame)
  end.

Definition pin_read_mark (snapshot : WalSnapshot) : prog WalFileShared (option ReadGuardKind) :=
  '(best_idx, best_mark) ← best_read_mark (sn_max_frame snapshot) mark_slots (-1) 0;
  '(best_idx, best_mark) ←
    (if (best_idx =? -1) || (best_mark <? sn_max_frame snapshot)
     then claim_read_mark (sn_max_frame snapshot) mark_slots best_idx best_mark
     else Ret (best_idx, best_mark));
  if best_idx =? -1 then Ret None
  else
    locked ← try_shared (ReadLock best_idx);
    if negb locked then Ret None
    else
      snapshot_after_lock ← load_snapshot;
      current_slot_mark ← read_mark_value best_idx;
      if negb (current_slot_mark =? best_mark) || bool_decide (snapshot_after_lock <> snapshot)
      then unlock (ReadLock best_idx);; Ret None
      else checks (negb (best_idx =? 0));; Ret (Some (ReadMark best_idx)).

Definition try_begin_read_tx (snapshot : WalSnapshot) : prog WalFileShared (option ReadGuardKind) :=
  checks (sn_max_frame snapshot <=? U32_MAX);;
  db ← (if sn_max_frame snapshot =? sn_nbackfills snapshot then try_shared (ReadLock 0) else Ret false);
  if db : bool then
    current ← load_snapshot;
    if bool_decide (current <> snapshot) then unlock (ReadLock 0);; Ret None
    else Ret (Some DbFile)
  else pin_read_mark snapshot.

Definition end_read_tx (guard : ReadGuardKind) : prog WalFileShared () :=
  match guard with
  | GuardNone => Ret ()
  | DbFile => unlock (ReadLock 0)
  | ReadMark slot => unlock (ReadLock slot)
  end.

Definition try_begin_write_tx : prog WalFileShared bool := try_exclusive WriteLock.
Definition end_write_tx : prog WalFileShared () := unlock WriteLock.

Fixpoint min_pinned (slots : list Z) (acc : option Z) : prog WalFileShared (option Z) :=
  match slots with
  | [] => Ret acc
  | slot :: slots =>
      held ← held_read_mark slot;
      min_pinned slots
        (match held with
         | Some v =>
             if v =? READMARK_NOT_USED then acc
             else Some (match acc with Some m => Z.min m v | None => v end)
         | None => acc
         end)
  end.
Definition min_pinned_read_frame : prog WalFileShared (option Z) := min_pinned mark_slots None.

(** ** Checkpointers *)
Definition acquire_checkpoint_guard (mode : CheckpointMode)
    : prog WalFileShared (res LimboError CoordinationCheckpointGuardKind) :=
  ckpt ← try_exclusive CheckpointLock;
  if negb ckpt then Ret (Err Busy)
  else
    read0 ← try_exclusive (ReadLock 0);
    match mode with
    | Passive _ =>
        if negb read0 then unlock CheckpointLock;; Ret (Err Busy)
        else Ret (Ok GuardRead0)
    | Full =>
        if negb read0 then unlock CheckpointLock;; Ret (Err Busy)
        else
          write ← try_exclusive WriteLock;
          if negb write then unlock (ReadLock 0);; unlock CheckpointLock;; Ret (Err Busy)
          else Ret (Ok GuardWriter)
    | Restart | Truncate _ =>
        if negb read0 then unlock CheckpointLock;; Ret (Err Busy)
        else
          write ← try_exclusive WriteLock;
          if negb write then unlock CheckpointLock;; unlock (ReadLock 0);; Ret (Err Busy)
          else Ret (Ok GuardWriter)
    end.

Definition acquire_vacuum_checkpoint_guard_from_held_lock
    : prog WalFileShared (res LimboError CoordinationCheckpointGuardKind) :=
  read0 ← try_exclusive (ReadLock 0);
  if negb read0 then unlock CheckpointLock;; Ret (Err Busy)
  else
    write ← try_exclusive WriteLock;
    if negb write then unlock (ReadLock 0);; unlock CheckpointLock;; Ret (Err Busy)
    else Ret (Ok GuardWriter).

Definition release_checkpoint_guard (guard : CoordinationCheckpointGuardKind) : prog WalFileShared () :=
  match guard with
  | GuardWriter => unlock WriteLock;; unlock (ReadLock 0);; unlock CheckpointLock
  | GuardRead0 => unlock (ReadLock 0);; unlock CheckpointLock
  end.

Fixpoint max_safe_frame (slots : list Z) (max_safe : Z) : prog WalFileShared Z :=
  match slots with
  | [] => Ret max_safe
  | idx :: slots =>
      this_mark ← read_mark_value idx;
      if this_mark <? wrap 32 max_safe then
        free ← try_exclusive (ReadLock idx);
        if free : bool then
          set_read_mark_value_exclusive idx (if idx =? 1 then wrap 32 max_safe else READMARK_NOT_USED);;
          unlock (ReadLock idx);;
          max_safe_frame slots max_safe
        else max_safe_frame slots this_mark
      else max_safe_frame slots max_safe
  end.

Definition determine_max_safe_checkpoint_frame (max_frame : Z) : prog WalFileShared Z :=
  checks (max_frame <=? U32_MAX);;
  max_safe_frame mark_slots max_frame.

(** ** Restart *)
Definition set_mark (i v : Z) (s : WalFileShared) : result WalFileShared :=
  '(_, s) ← on_lock (ReadLock i) (releases (set_value_exclusive v)) false s; Ok s.

(** [WalFileShared::restart_wal_header]; [rand] is the random number of the I/O layer. *)
Definition restart_wal_header (rand : Z) (s : WalFileShared) : result WalFileShared :=
  let h := md_wal_header (metadata s) in
  let h := mkWalHeader (wh_magic h) (wh_file_format h) (wh_page_size h)
             (wrap 32 (wh_checkpoint_seq h + 1)) (wrap 32 (wh_salt_1 h + 1)) (wrap 32 rand)
             (wh_checksum_1 h) (wh_checksum_2 h) in
  let s := set_wal_header h s in
  let s := set_nbackfills 0 (set_max_frame 0 s) in
  let s := set_last_checksum (wh_checksum_1 h, wh_checksum_2 h) s in
  let s := set_initialized false s in
  let s := set_high_water 0 (set_frame_cache ∅ s) in
  s ← set_mark 0 0 s;
  s ← set_mark 1 0 s;
  s ← set_mark 2 READMARK_NOT_USED s;
  s ← set_mark 3 READMARK_NOT_USED s;
  set_mark 4 READMARK_NOT_USED s.

Fixpoint unlock_marks (slots : list Z) : prog WalFileShared () :=
  match slots with
  | [] => Ret ()
  | idx :: slots => unlock (ReadLock idx);; unlock_marks slots
  end.

(** Locks the slots in turn; [held] are the ones locked so far. *)
Fixpoint lock_marks (slots held : list Z) : prog WalFileShared bool :=
  match slots with
  | [] => Ret true
  | idx :: slots =>
      free ← try_exclusive (ReadLock idx);
      if negb free then unlock_marks held;; Ret false
      else set_read_mark_value_exclusive idx READMARK_NOT_USED;; lock_marks slots (held ++ [idx])
  end.

Definition begin_restart (rand : Z) : prog WalFileShared (res LimboError WalSnapshot) :=
  locked ← lock_marks mark_slots [];
  if negb locked then Ret (Err Busy)
  else
    action (fun _ s => s ← restart_wal_header rand s; Ok (Ok (snapshot_of s), s)).

Definition end_restart : prog WalFileShared () := unlock_marks mark_slots.

Definition try_restart_log_for_write (rand : Z)
    : prog WalFileShared (res LimboError (option WalSnapshot)) :=
  upgraded ← try_upgrade (ReadLock 0);
  if negb upgraded then Ret (Ok None)
  else
    result ← begin_restart rand;
    downgrade (ReadLock 0);;
    match result with
    | Ok snapshot => end_restart;; Ret (Ok (Some snapshot))
    | Err err => Ret (Err err)
    | Panic => Ret Panic
    end.

(** [prepare_truncate] and [mark_initialized] *)
Definition prepare_truncate : prog WalFileShared () :=
  action (fun _ s => assert_that (md_enabled (metadata s)) ;; Ok ((), set_initialized false s)).
Definition mark_initialized : prog WalFileShared () := stores (set_initialized true).
