(* ===== verification/WalConnection.v ===== *)
(** * A connection's use of the log ([WalFile], [src/core/storage/wal.rs])

    Read and write transactions, appends, commit, rollback and checkpoints as
    programs of atomic actions on the shared log, the frames in the log file and
    the database file.  The fields of [WalFile] belong to one connection and are
    passed explicitly.  [Data] is the contents of a page, [page_len] its length and
    [frame_sum] the checksum of a frame. *)
From stdpp Require Import gmap sorting.
From S2P Require Import Prelude Errors OnDisk WalFormat WalLock WalShared.
From S2P Require Import WalIndex Threads WalCoordination.

Record WalFile := mkWalFile {
  wc_max_frame : Z;
  wc_min_frame : Z;
  wc_last_checksum : Z * Z;
  wc_checkpoint_seq : Z;
  wc_transaction_count : Z;
  wc_read_guard : ReadGuardKind;
  wc_write_lock_held : bool;
  wc_vacuum_read_guard : bool;
  wc_checkpoint_guard : option CoordinationCheckpointGuardKind
}.

(** [new_with_coordination] *)
Definition WalFile_new (last_checksum : Z * Z) (max_frame : Z) : WalFile :=
  mkWalFile max_frame 0 last_checksum 0 0 GuardNone false false None.

(** [connection_state().snapshot] *)
Definition connection_snapshot (l : WalFile) : WalSnapshot :=
  mkSnapshot (wc_max_frame l) (saturating_sub (wc_min_frame l) 1) (wc_last_checksum l)
    (wc_checkpoint_seq l) (wc_transaction_count l).

Definition install_connection_state (sn : WalSnapshot) (guard : ReadGuardKind) (l : WalFile) : WalFile :=
  mkWalFile (sn_max_frame sn) (sn_min_frame sn) (sn_last_checksum sn) (sn_checkpoint_seq sn)
    (sn_transaction_count sn) guard (wc_write_lock_held l) (wc_vacuum_read_guard l) (wc_checkpoint_guard l).

Definition set_vacuum_guard (b : bool) (l : WalFile) : WalFile :=
  mkWalFile (wc_max_frame l) (wc_min_frame l) (wc_last_checksum l) (wc_checkpoint_seq l)
    (wc_transaction_count l) (wc_read_guard l) (wc_write_lock_held l) b (wc_checkpoint_guard l).
Definition set_read_guard (g : ReadGuardKind) (l : WalFile) : WalFile :=
  mkWalFile (wc_max_frame l) (wc_min_frame l) (wc_last_checksum l) (wc_checkpoint_seq l)
    (wc_transaction_count l) g (wc_write_lock_held l) (wc_vacuum_read_guard l) (wc_checkpoint_guard l).
Definition set_write_held (b : bool) (l : WalFile) : WalFile :=
  mkWalFile (wc_max_frame l) (wc_min_frame l) (wc_last_checksum l) (wc_checkpoint_seq l)
    (wc_transaction_count l) (wc_read_guard l) b (wc_vacuum_read_guard l) (wc_checkpoint_guard l).
Definition set_checkpoint_guard (g : option CoordinationCheckpointGuardKind) (l : WalFile) : WalFile :=
  mkWalFile (wc_max_frame l) (wc_min_frame l) (wc_last_checksum l) (wc_checkpoint_seq l)
    (wc_transaction_count l) (wc_read_guard l) (wc_write_lock_held l) (wc_vacuum_read_guard l) g.
(** The position of the next append: the frame before it and its checksum. *)
Definition set_position (max_frame : Z) (c : Z * Z) (l : WalFile) : WalFile :=
  mkWalFile max_frame (wc_min_frame l) c (wc_checkpoint_seq l) (wc_transaction_count l)
    (wc_read_guard l) (wc_write_lock_held l) (wc_vacuum_read_guard l) (wc_checkpoint_guard l).
Definition set_conn_transaction_count (n : Z) (l : WalFile) : WalFile :=
  mkWalFile (wc_max_frame l) (wc_min_frame l) (wc_last_checksum l) (wc_checkpoint_seq l) n
    (wc_read_guard l) (wc_write_lock_held l) (wc_vacuum_read_guard l) (wc_checkpoint_guard l).

Definition apply_restart_snapshot (sn : WalSnapshot) (l : WalFile) : WalFile :=
  mkWalFile (sn_max_frame sn) 0 (sn_last_checksum sn) (sn_checkpoint_seq sn) (wc_transaction_count l)
    (wc_read_guard l) (wc_write_lock_held l) (wc_vacuum_read_guard l) (wc_checkpoint_guard l).

#[export] Instance ReadGuardKind_eq_dec : EqDecision ReadGuardKind.
Proof. solve_decision. Defined.

Inductive TryBeginReadResult := TryOk (db_changed : bool) | TryRetry | TryBusy.

Record CheckpointResult := mkCheckpointResult {
  cr_wal_max_frame : Z;
  cr_wal_total_backfilled : Z;
  cr_wal_checkpoint_backfilled : Z;
  cr_maybe_guard : option CoordinationCheckpointGuardKind
}.
Definition everything_backfilled (r : CheckpointResult) : bool :=
  cr_wal_max_frame r =? cr_wal_total_backfilled r.
Definition should_truncate (r : CheckpointResult) : bool := everything_backfilled r.

Record RollbackTo := mkRollbackTo { rb_frame : Z; rb_checksum : Z * Z; rb_checkpoint_seq : Z }.

Section Connection.
Context {Data : Type} (frame_sum : WalHeader -> Z * Z -> Z -> Z -> Data -> Z * Z) (page_len : Data -> Z) (host_big : bool).

(** The shared log, the frames of the log file by number, and the database file. *)
Record world := mkWorld {
  w_shared : WalFileShared;
  w_frames : gmap Z (Z * Data);
  w_db : Z -> Data
}.

Definition put_shared (s : WalFileShared) (w : world) : world := mkWorld s (w_frames w) (w_db w).
Definition shared {A} (p : prog WalFileShared A) : prog world A := zoom w_shared put_shared p.

Definition write_frame (n page : Z) (d : Data) : prog world () :=
  stores (fun w => mkWorld (w_shared w) (<[n := (page, d)]> (w_frames w)) (w_db w)).
(** The read of a frame and the write of its page to the database file. *)
Definition copy_frame (page n : Z) : prog world () :=
  action (fun _ w =>
    '(_, d) ← or_panic (w_frames w !! n);
    Ok ((), mkWorld (w_shared w) (w_frames w) (fun p => if p =? page then d else w_db w p))).
Definition truncate_frames : prog world () := stores (fun w => mkWorld (w_shared w) ∅ (w_db w)).

(** ** Read transactions *)
Definition wal_try_begin_read_tx (l : WalFile) : prog world (TryBeginReadResult * WalFile) :=
  checks (bool_decide (wc_read_guard l = GuardNone));;
  checks (negb (wc_vacuum_read_guard l));;
  vacuum ← shared (try_shared VacuumLock);
  if negb vacuum then Ret (TryBusy, l)
  else
    snapshot ← shared load_snapshot;
    checks (sn_nbackfills snapshot <=? sn_max_frame snapshot);;
    let db_changed := bool_decide (snapshot <> connection_snapshot l) in
    guard ← shared (try_begin_read_tx snapshot);
    match guard with
    | None => shared (unlock VacuumLock);; Ret (TryRetry, l)
    | Some guard =>
        Ret (TryOk db_changed, install_connection_state snapshot guard (set_vacuum_guard true l))
    end.

(** [begin_read_tx] gives up after a hundred retries. *)
Fixpoint begin_read_attempts (n : nat) (l : WalFile) : prog world (res LimboError bool * WalFile) :=
  match n with
  | O => Ret (Err Busy, l)
  | S n =>
      '(r, l) ← wal_try_begin_read_tx l;
      match r with
      | TryOk changed => Ret (Ok changed, l)
      | TryBusy => Ret (Err Busy, l)
      | TryRetry => begin_read_attempts n l
      end
  end.
Definition begin_read_tx (l : WalFile) : prog world (res LimboError bool * WalFile) :=
  begin_read_attempts 101 l.

Definition wal_end_read_tx (l : WalFile) : prog world WalFile :=
  if bool_decide (wc_read_guard l = GuardNone) then checks (negb (wc_vacuum_read_guard l));; Ret l
  else
    shared (end_read_tx (wc_read_guard l));;
    let l := set_read_guard GuardNone l in
    checks (wc_vacuum_read_guard l);;
    shared (unlock VacuumLock);;
    Ret (set_vacuum_guard false l).

(** [find_frame] without a watermark *)
Definition wal_find_frame (page_id : Z) (l : WalFile) (s : WalFileShared) : option Z :=
  if wc_max_frame l <? wc_min_frame l then None
  else find_frame page_id (wc_min_frame l) (wc_max_frame l) None s.

(** What the connection reads for a page: the frame found in the log, or the database file. *)
Definition read_page (page_id : Z) (l : WalFile) (w : world) : option Data :=
  match wal_find_frame page_id l (w_shared w) with
  | Some n => '(_, d) ← w_frames w !! n; Some d
  | None => Some (w_db w page_id)
  end.

(** ** Write transactions *)
Definition try_restart_log_before_write (rand : Z) (l : WalFile) : prog world (res LimboError () * WalFile) :=
  if bool_decide (wc_read_guard l <> DbFile) then Ret (Ok (), l)
  else
    snapshot ← shared load_snapshot;
    if sn_nbackfills snapshot =? 0 then Ret (Ok (), l)
    else
      checks (sn_nbackfills snapshot <=? sn_max_frame snapshot);;
      if negb (sn_max_frame snapshot =? sn_nbackfills snapshot) then Ret (Ok (), l)
      else
        r ← shared (try_restart_log_for_write rand);
        match r with
        | Ok None => Ret (Ok (), l)
        | Ok (Some snapshot) =>
            let l := apply_restart_snapshot snapshot l in
            shared bump_checkpoint_epoch;;
            Ret (Ok (), l)
        | Err e => Ret (Err e, l)
        | Panic => Ret (Panic, l)
        end.

Definition begin_write_tx (restart_allowed : bool) (rand : Z) (l : WalFile)
    : prog world (res LimboError () * WalFile) :=
  checks (bool_decide (wc_read_guard l <> GuardNone));;
  checks (negb (wc_write_lock_held l));;
  locked ← shared try_begin_write_tx;
  if negb locked then Ret (Err Busy, l)
  else
    snapshot ← shared load_snapshot;
    if bool_decide (snapshot <> connection_snapshot l)
    then shared end_write_tx;; Ret (Err BusySnapshot, l)
    else
      let l := set_write_held true l in
      if negb restart_allowed then Ret (Ok (), l)
      else
        '(r, l) ← try_restart_log_before_write rand l;
        match r with
        | Ok _ | Err Busy => Ret (Ok (), l)
        | _ => shared end_write_tx;; Ret (r, set_write_held false l)
        end.

Definition wal_end_write_tx (l : WalFile) : prog world WalFile :=
  checks (wc_write_lock_held l);;
  shared end_write_tx;;
  Ret (set_write_held false l).

(** [prepare_wal_start] and [prepare_wal_finish]: writes the header of a new generation.
    The scheduler decides whether orphaned frames stay in the file, and whether the writes
    and the sync succeed. *)
Definition prepare_wal (page_size rand_1 rand_2 : Z) (l : WalFile) : prog world (res LimboError () * WalFile) :=
  initialized ← shared (loads (fun s => md_initialized (metadata s)));
  if initialized : bool then Ret (Ok (), l)
  else
    header ← shared (action (fun _ s =>
      if md_initialized (metadata s) then Ok (None, s)
      else
        h ← prepare_wal_header host_big (md_wal_header (metadata s)) page_size rand_1 rand_2;
        Ok (Some h, set_last_checksum (wh_checksum_1 h, wh_checksum_2 h) (set_wal_header h s))));
    match header with
    | None => Ret (Ok (), l)
    | Some h =>
        let l := set_position 0 (wh_checksum_1 h, wh_checksum_2 h) l in
        kept ← chooses;
        (if kept : bool then Ret () else truncate_frames);;
        failed ← chooses;
        if failed : bool then Ret (Err CompletionErr, l)
        else
          shared mark_initialized;;
          Ret (Ok (), l)
    end.

(** ** Appending *)
Record prepared_frame := mkPrepared { pf_page : Z; pf_frame : Z; pf_checksum : Z * Z; pf_data : Data }.

(** The frames of [prepare_frames] and [append_frames_vectored]: numbers, the rolling checksum
    and the assertions of [prepare_transformed_frame] on its arguments. *)
Fixpoint number_frames (h : WalHeader) (db_size : option Z) (c : Z * Z) (next : Z) (pages : list (Z * Data))
    : res LimboError (list prepared_frame) :=
  match pages with
  | [] => Ok []
  | (page, d) :: pages =>
      if 2 ^ 32 <=? page then Err IntegerOverflow
      else
        assert_that (0 <? page) ;;
        assert_that (bool_decide (PageSize_new (wh_page_size h) <> None)) ;;
        assert_that (page_len d =? wh_page_size h) ;;
        let size := match pages with [] => default 0 db_size | _ => 0 end in
        let c := frame_sum h c page size d in
        rest ← number_frames h db_size c (next + 1) pages;
        Ok (mkPrepared page next c d :: rest)
  end.

Definition IOV_MAX : Z := 1024.

(** The frames of one batch, after the last frame [prev] of the batch before. *)
Definition prepare_frames (page_sz : Z) (db_size : option Z) (pages : list (Z * Data)) (prev : option prepared_frame)
    (l : WalFile) : prog world (res LimboError (list prepared_frame) * WalFile) :=
  checks (negb (bool_decide (zlen pages = 0)));;
  checks (zlen pages <=? IOV_MAX);;
  initialized ← shared (loads (fun s => md_initialized (metadata s)));
  checks initialized;;
  header ← shared (loads (fun s => md_wal_header (metadata s)));
  checks (wh_page_size header =? page_sz);;
  '(c, next, l) ←
    match prev with
    | Some f => Ret (pf_checksum f, pf_frame f + 1, l)
    | None =>
        snapshot ← shared load_snapshot;
        if sn_max_frame snapshot <? wc_max_frame l
        then Ret (wc_last_checksum l, wc_max_frame l + 1, l)
        else
          checks (wc_max_frame l =? sn_max_frame snapshot);;
          let l := if bool_decide (snapshot <> connection_snapshot l)
                   then install_connection_state snapshot (wc_read_guard l) l else l in
          Ret (sn_last_checksum snapshot, sn_max_frame snapshot + 1, l)
    end;
  let c := if next =? 1 then (wh_checksum_1 header, wh_checksum_2 header) else c in
  frames ← settles (number_frames header db_size c next pages);
  Ret (frames, l).

(** [CommitState::PrepareFrames] and [prepare_collected_frames] ([src/core/storage/pager.rs]): the
    pages in batches of at most [IOV_MAX]; the size of the database goes to the last. *)
Fixpoint prepare_batches (page_sz db_size : Z) (pages collected : list (Z * Data)) (prepared : list prepared_frame)
    (l : WalFile) : prog world (res LimboError (list prepared_frame) * WalFile) :=
  match pages with
  | [] => Ret (Ok prepared, l)
  | page :: pages =>
      let collected := collected ++ [page] in
      let is_last := bool_decide (pages = []) in
      if (zlen collected =? IOV_MAX) || is_last
      then
        '(r, l) ← prepare_frames page_sz (if is_last then Some db_size else None) collected (head (reverse prepared)) l;
        match r with
        | Ok frames => prepare_batches page_sz db_size pages [] (prepared ++ frames) l
        | Err e => Ret (Err e, l)
        | Panic => Ret (Panic, l)
        end
      else prepare_batches page_sz db_size pages collected prepared l
  end.

(** The vectored writes and the sync; a failed request may leave any number of the frames
    written. *)
Fixpoint write_frames (frames : list prepared_frame) : prog world bool :=
  match frames with
  | [] => failed ← chooses; Ret (negb failed)
  | f :: frames =>
      failed ← chooses;
      if failed : bool then Ret false
      else write_frame (pf_frame f) (pf_page f) (pf_data f);; write_frames frames
  end.

Definition complete_append_frame (page_id frame_id : Z) (c : Z * Z) (l : WalFile) : prog world WalFile :=
  shared (stores (cache_frame page_id frame_id));;
  Ret (set_position frame_id c l).

Fixpoint commit_prepared_frames (frames : list prepared_frame) (l : WalFile) : prog world WalFile :=
  match frames with
  | [] => Ret l
  | f :: frames =>
      l ← complete_append_frame (pf_page f) (pf_frame f) (pf_checksum f) l;
      commit_prepared_frames frames l
  end.

Definition finish_append_frames_commit (l : WalFile) : prog world WalFile :=
  checks (wc_transaction_count l + 1 <? 2 ^ 64);;
  let n := wc_transaction_count l + 1 in
  shared (publish_commit (mkCommit (wc_max_frame l) (wc_last_checksum l) n));;
  Ret (set_conn_transaction_count n l).

Definition rollback (to : option RollbackTo) (l : WalFile) : prog world WalFile :=
  snapshot ← shared load_snapshot;
  checks (match to with Some r => rb_checkpoint_seq r =? sn_checkpoint_seq snapshot | None => true end);;
  checks (match to with Some r => sn_max_frame snapshot <=? rb_frame r | None => true end);;
  let max_frame := match to with Some r => rb_frame r | None => sn_max_frame snapshot end in
  let c := match to with Some r => rb_checksum r | None => sn_last_checksum snapshot end in
  shared (stores (rollback_cache max_frame));;
  Ret (set_position max_frame c l).

(** [Pager::commit_wal_inner] ([src/core/storage/pager.rs]): header, frames, index, publication.
    [pages] are the dirty pages.  A transaction without any only syncs. *)
Definition commit_tx (page_sz rand_1 rand_2 db_size : Z) (pages : list (Z * Data)) (l : WalFile)
    : prog world (res LimboError () * WalFile) :=
  '(r, l) ← prepare_wal page_sz rand_1 rand_2 l;
  match r with
  | Ok _ =>
      if bool_decide (pages = [])
      then failed ← chooses; Ret (if failed : bool then Err CompletionErr else Ok (), l)
      else
        '(r, l) ← prepare_batches page_sz db_size pages [] [] l;
        match r with
        | Ok frames =>
            written ← write_frames frames;
            if negb written then Ret (Err CompletionErr, l)
            else
              l ← commit_prepared_frames frames l;
              l ← finish_append_frames_commit l;
              Ret (Ok (), l)
        | Err e => Ret (Err e, l)
        | Panic => Ret (Panic, l)
        end
  | r => Ret (r, l)
  end.

(** Spilling dirty pages of an open write transaction; the caller rolls back when the write
    fails. *)
Definition append_frames_vectored (page_sz : Z) (pages : list (Z * Data)) (l : WalFile)
    : prog world (res LimboError () * WalFile) :=
  checks (zlen pages <=? IOV_MAX);;
  initialized ← shared (loads (fun s => md_initialized (metadata s)));
  checks initialized;;
  header ← shared (loads (fun s => md_wal_header (metadata s)));
  checks (wh_page_size header =? page_sz);;
  let next := wc_max_frame l + 1 in
  let c := if next =? 1 then (wh_checksum_1 header, wh_checksum_2 header) else wc_last_checksum l in
  frames ← settles (number_frames header None c next pages);
  match frames with
  | Ok frames =>
      written ← write_frames frames;
      if negb written then
        let l := match head (reverse frames) with
                 | Some f => set_position (pf_frame f) (pf_checksum f) l
                 | None => l
                 end in
        Ret (Err CompletionErr, l)
      else
        l ← commit_prepared_frames frames l;
        Ret (Ok (), l)
  | Err e => Ret (Err e, l)
  | Panic => Ret (Panic, l)
  end.

(** [Pager::rollback_tx] ([src/core/storage/pager.rs]) *)
Definition rollback_tx (l : WalFile) : prog world WalFile :=
  l ← (if wc_write_lock_held l
       then l ← rollback None l; wal_end_write_tx l
       else Ret l);
  wal_end_read_tx l.

(** [Pager::commit_tx]: the locks are released once the frames are published. *)
Definition commit_and_end (page_sz rand_1 rand_2 db_size : Z) (pages : list (Z * Data)) (l : WalFile)
    : prog world (res LimboError () * WalFile) :=
  '(r, l) ← commit_tx page_sz rand_1 rand_2 db_size pages l;
  match r with
  | Ok _ =>
      l ← wal_end_write_tx l;
      l ← wal_end_read_tx l;
      Ret (Ok (), l)
  | r => Ret (r, l)
  end.

(** [Pager::try_spill_dirty_pages]; a failed spill aborts the statement, which rolls back. *)
Definition spill (page_sz rand_1 rand_2 : Z) (pages : list (Z * Data)) (l : WalFile)
    : prog world (res LimboError () * WalFile) :=
  '(r, l) ← prepare_wal page_sz rand_1 rand_2 l;
  '(r, l) ← (match r with
             | Ok _ => append_frames_vectored page_sz pages l
             | r => Ret (r, l)
             end);
  match r with
  | Ok _ => Ret (Ok (), l)
  | r => l ← rollback_tx l; Ret (r, l)
  end.

(** ** Checkpoints *)
Definition release_guard (g : option CoordinationCheckpointGuardKind) : prog world () :=
  match g with Some g => shared (release_checkpoint_guard g) | None => Ret () end.

(** Whether the guard a connection still holds serves the mode. *)
Definition guard_serves (g : option CoordinationCheckpointGuardKind) (mode : CheckpointMode) : bool :=
  match g, mode with
  | Some GuardRead0, Passive _ => true
  | Some GuardWriter, (Restart | Truncate _) => true
  | _, _ => false
  end.

Definition acquire_proper_checkpoint_guard (mode : CheckpointMode) (l : WalFile)
    : prog world (res LimboError () * WalFile) :=
  if guard_serves (wc_checkpoint_guard l) mode then Ret (Ok (), l)
  else
    release_guard (wc_checkpoint_guard l);;
    let l := set_checkpoint_guard None l in
    r ← shared (acquire_checkpoint_guard mode);
    match r with
    | Ok g => Ret (Ok (), set_checkpoint_guard (Some g) l)
    | Err e => Ret (Err e, l)
    | Panic => Ret (Panic, l)
    end.

(** Sorted by frame for read locality. *)
Definition by_frame (a b : Z * Z) : Prop := a.2 < b.2 \/ a.2 = b.2 /\ a.1 <= b.1.
#[local] Instance by_frame_dec : RelDecision by_frame.
Proof. intros a b. unfold by_frame. apply _. Defined.

(** [CheckpointState::Processing] copies the pages; a failed request stops it anywhere.  A page
    of the cache that is tagged with the frame stands for the read of the frame. *)
Fixpoint copy_frames (frames : list (Z * Z)) : prog world bool :=
  match frames with
  | [] => Ret true
  | (page, n) :: frames =>
      failed ← chooses;
      if failed : bool then Ret false
      else copy_frame page n;; copy_frames frames
  end.

(** [CheckpointState::Start]: the locks, the safe frame, the pages to copy.  [None] is the
    early return when there is nothing to do. *)
Definition checkpoint_start (mode : CheckpointMode) (l : WalFile)
    : prog world (res LimboError (option (Z * Z * list (Z * Z)) * WalSnapshot) * WalFile) :=
  snapshot ← shared load_snapshot;
  if negb (sn_nbackfills snapshot <? sn_max_frame snapshot) && negb (should_restart_log mode)
  then Ret (Ok (None, snapshot), l)
  else
    '(r, l) ← acquire_proper_checkpoint_guard mode l;
    match r with
    | Ok _ =>
        max_frame ← shared (snapshot ← load_snapshot;
                            determine_max_safe_checkpoint_frame (sn_max_frame snapshot));
        nbackfills ← shared (loads (fun s => sn_nbackfills (snapshot_of s)));
        let too_far := match mode with Truncate (Some ub) => ub <? max_frame | _ => false end in
        if too_far : bool then Ret (Err Busy, l)
        else
          let max_frame := match mode with Passive (Some ub) => Z.min max_frame ub | _ => max_frame end in
          pages ← shared (loads (iter_latest_frames (nbackfills + 1) max_frame));
          Ret (Ok (Some (nbackfills, max_frame, merge_sort by_frame pages), snapshot), l)
    | Err e => Ret (Err e, l)
    | Panic => Ret (Panic, l)
    end.

(** [CheckpointState::DetermineResult] and [Finalize] *)
Definition checkpoint_finish (mode : CheckpointMode) (rand nbackfills max_frame : Z) (l : WalFile)
    : prog world (res LimboError CheckpointResult * WalFile) :=
  wal_max_frame ← shared (loads (fun s => sn_max_frame (snapshot_of s)));
  let result := mkCheckpointResult wal_max_frame max_frame (saturating_sub max_frame nbackfills) None in
  if require_all_backfilled mode && negb (everything_backfilled result) then Ret (Err Busy, l)
  else
    '(r, l) ←
      (if should_restart_log mode then
         checks (match wc_checkpoint_guard l with Some GuardWriter => true | _ => false end);;
         r ← shared (begin_restart rand);
         match r with
         | Ok sn => shared end_restart;; Ret (Ok (), apply_restart_snapshot sn l)
         | Err e => Ret (Err e, l)
         | Panic => Ret (Panic, l)
         end
       else Ret (Ok (), l));
    match r with
    | Ok _ =>
        shared bump_checkpoint_epoch;;
        if should_truncate result || (0 <? cr_wal_checkpoint_backfilled result)
        then Ret (Ok (mkCheckpointResult wal_max_frame max_frame (saturating_sub max_frame nbackfills)
                        (wc_checkpoint_guard l)), set_checkpoint_guard None l)
        else
          release_guard (wc_checkpoint_guard l);;
          Ret (Ok result, set_checkpoint_guard None l)
    | Err e => Ret (Err e, l)
    | Panic => Ret (Panic, l)
    end.

(** [CheckpointState::SyncWal] and [SyncWalPending]: whether the barrier before the copies
    failed. *)
Definition sync_wal (sync_off : bool) (pages : list (Z * Z)) : prog world bool :=
  if negb (bool_decide (pages = [])) && negb sync_off then chooses else Ret false.

(** [WalFile::checkpoint]; an error releases the guard. *)
Definition wal_checkpoint (mode : CheckpointMode) (sync_off : bool) (rand : Z) (l : WalFile)
    : prog world (res LimboError CheckpointResult * WalFile) :=
  '(r, l) ←
    ('(r, l) ← checkpoint_start mode l;
     match r with
     | Ok (None, sn) => Ret (Ok (mkCheckpointResult (sn_max_frame sn) (sn_nbackfills sn) 0 None), l)
     | Ok (Some (nbackfills, max_frame, pages), _) =>
         failed ← sync_wal sync_off pages;
         if failed : bool then Ret (Err CompletionErr, l)
         else
           copied ← copy_frames pages;
           if negb copied then Ret (Err CompletionErr, l)
           else checkpoint_finish mode rand nbackfills max_frame l
     | Err e => Ret (Err e, l)
     | Panic => Ret (Panic, l)
     end);
  match r with
  | Ok res => Ret (Ok res, l)
  | r => release_guard (wc_checkpoint_guard l);; Ret (r, set_checkpoint_guard None l)
  end.

(** [WalFile::publish_backfill] *)
Definition wal_publish_backfill (max_frame : Z) : prog world () :=
  snapshot ← shared load_snapshot;
  checks ((sn_nbackfills snapshot <=? max_frame) && (max_frame <=? sn_max_frame snapshot));;
  shared (publish_backfill max_frame).

(** [WalFile::truncate_log]; whether the truncation or the sync of the file failed. *)
Definition truncate_log : prog world bool :=
  shared prepare_truncate;;
  failed ← chooses;
  if failed : bool then Ret true
  else truncate_frames;; chooses.

(** [Pager::checkpoint_inner] ([src/core/storage/pager.rs]) after [wal_checkpoint]: the database file is cut to the
    size of the database and synced and the proof of the backfill is written, each of which may
    fail, then the backfill is published or the log is truncated, then the locks are released.
    Of the cut and of the proof only the failure is here: the pages past the size of the
    database that the cut drops stay in [w_db].  [sync_off] is [SyncMode::Off]. *)
Definition checkpoint (mode : CheckpointMode) (sync_off : bool) (rand : Z) (l : WalFile)
    : prog world (res LimboError CheckpointResult * WalFile) :=
  '(r, l) ← wal_checkpoint mode sync_off rand l;
  match r with
  | Ok res =>
      let truncates := match mode with Truncate _ => should_truncate res | _ => false end in
      let synced_phases := truncates || negb ((cr_wal_checkpoint_backfilled res =? 0) || sync_off) in
      failed ← (if negb synced_phases then Ret false else chooses);
      if failed : bool then release_guard (cr_maybe_guard res);; Ret (Err CompletionErr, l)
      else
        failed ←
          (if negb synced_phases then Ret false
           else if negb sync_off && (0 <? cr_wal_checkpoint_backfilled res) &&
                   negb (should_restart_log mode)
           then
             checks (cr_wal_total_backfilled res <=? cr_wal_max_frame res);;
             wal_publish_backfill (cr_wal_total_backfilled res);;
             Ret false
           else match mode with
                | Truncate _ => truncate_log
                | _ => Ret false
                end);
        release_guard (cr_maybe_guard res);;
        Ret (if failed : bool then Err CompletionErr else Ok res, l)
  | r => Ret (r, l)
  end.
End Connection.
