(* ===== verification/WalInvariant.v ===== *)
(** * The invariant of the shared write-ahead log

    Connections run the programs of [WalConnection] in any interleaving.  The
    invariant ties each lock word to the connections that hold it, the frame
    index to the frames of the file, every page of the database file to a state
    between the published backfill and the committed log, and every pinned
    reader to the state its snapshot names.  The ghost [status] of a connection
    says which locks it holds, what it pinned and how far its checkpoint is. *)
From stdpp Require Import gmap relations sorting.
From S2P Require Import Prelude Errors OnDisk WalFormat WalLock WalShared.
From S2P Require Import WalRecovery WalIndex Threads WalCoordination WalConnection.

Section Invariant.
Context {Data : Type} (page_sz : Z).

#[local] Abbreviation world := (@world Data).

(** ** The contents as of a frame *)
Fixpoint asof_nat (base : Z -> Data) (frames : gmap Z (Z * Data)) (n : nat) (p : Z) : Data :=
  match n with
  | O => base p
  | S m =>
      match frames !! Z.of_nat n with
      | Some (q, d) => if q =? p then d else asof_nat base frames m p
      | None => asof_nat base frames m p
      end
  end.
Definition asof (base : Z -> Data) (frames : gmap Z (Z * Data)) (n p : Z) : Data :=
  asof_nat base frames (Z.to_nat n) p.

(** The contents [v] after [pages] are written to them in order. *)
Definition overlay (v : Z -> Data) (pages : list (Z * Data)) : Z -> Data :=
  foldl (fun v x p => if x.1 =? p then x.2 else v p) v pages.

(** ** Ghost status *)
(** The range of frames a transaction reads, the end of the log and the transaction count it
    saw, the contents it started writing from and the contents it sees. *)
Record pin := mkPin {
  pn_min : Z;
  pn_max : Z;
  pn_base : Z;
  pn_count : Z;
  pn_from : Z -> Data;
  pn_view : Z -> Data
}.

(** What a holder of the write lock knows of the header of the log file. *)
Inductive header_state := HdUnknown | HdMissing | HdPrepared | HdWritten.

(** How far a checkpoint is: looking at a slot, having read its mark, copying, done. *)
Inductive phase :=
| PhNone
| PhScan (backfilled slot safe : Z)
| PhSeen (backfilled slot safe mark : Z)
| PhCopy (backfilled safe : Z) (todo : list (Z * Z))
| PhAll.

(** The locks held (the vacuum lock shared, a read slot with its mark shared, the slots held
    exclusively, the write and the checkpoint lock), the pin, whether a write transaction is
    open, the header, the frames written after the pin, and the checkpoint. *)
Record status := mkStatus {
  st_vac : bool;
  st_rd : option (Z * Z);
  st_ex : gset Z;
  st_wr : bool;
  st_ck : bool;
  st_pin : option pin;
  st_ver : bool;
  st_ini : header_state;
  st_new : list (Z * Data);
  st_ph : phase
}.

Definition holds_shared (k : wal_lock) (g : status) : bool :=
  match k with
  | ReadLock i => bool_decide (fst <$> st_rd g = Some i)
  | VacuumLock => st_vac g
  | _ => false
  end.
Definition holds_excl (k : wal_lock) (g : status) : bool :=
  match k with
  | ReadLock i => bool_decide (i ∈ st_ex g)
  | VacuumLock => false
  | WriteLock => st_wr g
  | CheckpointLock => st_ck g
  end.

Definition valid_lock (k : wal_lock) : Prop := match k with ReadLock i => 0 <= i < 5 | _ => True end.

(** The word of a lock counts the holders. *)
Definition lock_ok (k : wal_lock) (gs : list status) (s : WalFileShared) : Prop :=
  exists w v, get_lock k s = Some w /\
    packs w v (tally (holds_shared k) gs) (tally (holds_excl k) gs) /\
    (tally (holds_excl k) gs = 1 -> tally (holds_shared k) gs = 0).

Definition locks_ok (gs : list status) (s : WalFileShared) : Prop :=
  zlen gs < 2 ^ 31 /\ zlen (rt_read_locks (runtime s)) = 5 /\ forall k, valid_lock k -> lock_ok k gs s.

Definition slot_value (i : Z) (s : WalFileShared) : option Z := get_value <$> get_lock (ReadLock i) s.

(** ** The invariant *)
Section Data.
Context (base : Z -> Data) (log : list Z) (w : world).

#[local] Abbreviation s := (w_shared w).
#[local] Abbreviation mx := (md_max_frame (metadata (w_shared w))).
#[local] Abbreviation nb := (md_nbackfills (metadata (w_shared w))).
#[local] Abbreviation content := (asof base (w_frames w)).

(** The frames of the file up to [n] are the ones the index lists. *)
Definition frames_agree (n : Z) : Prop :=
  forall m, 1 <= m <= n -> exists p d, zget log (m - 1) = Some p /\ w_frames w !! m = Some (p, d).

(** Every page of the database file is as of some frame from the backfill to [hi]. *)
Definition db_within (hi : Z) : Prop :=
  forall p, exists k, nb <= k <= hi /\ w_db w p = content k p.

Definition protected (g : status) (n : Z) : Prop :=
  (exists i v, st_rd g = Some (i, v) /\ (i = 0 \/ v <= n)) \/
  (st_rd g = None /\ 0 ∈ st_ex g /\ st_wr g = true /\ st_ph g = PhNone).

Record pin_ok (g : status) (pi : pin) : Prop := mkPinOk {
  po_protected : protected g (pn_max pi);
  po_min : pn_min pi - 1 <= nb;
  po_max : st_ver g = false -> pn_max pi <= mx;
  po_db : db_within (pn_max pi);
  po_view : forall p, content (pn_max pi) p = pn_view pi p
}.

Definition writer_ok (g : status) : Prop :=
  st_wr g = true /\ exists pi, st_pin g = Some pi /\ mx <= pn_max pi <= zlen log /\
    pn_max pi < 2 ^ 32 - 1 /\ frames_agree (pn_max pi) /\
    (md_initialized (metadata s) = false -> pn_max pi = 0) /\
    protected g mx /\ mx = pn_base pi /\ (forall p, content mx p = pn_from pi p) /\ md_transaction_count (metadata s) = pn_count pi.

Definition header_known (h : header_state) : Prop :=
  match h with
  | HdUnknown => True
  | HdMissing => md_initialized (metadata s) = false
  | HdPrepared => md_initialized (metadata s) = false /\ wh_page_size (md_wal_header (metadata s)) <> 0
  | HdWritten => md_initialized (metadata s) = true
  end.

(** The entries of the list of pages to copy are the latest frames of their pages. *)
Definition todo_ok (backfilled safe : Z) (todo : list (Z * Z)) : Prop :=
  forall p n, (p, n) ∈ todo -> latest_frame log p (backfilled + 1) safe n.

Definition phase_ok (g : status) : Prop :=
  match st_ph g with
  | PhNone => True
  | PhScan backfilled _ safe => st_ck g = true /\ 0 ∈ st_ex g /\ nb = backfilled /\ 0 <= safe <= mx
  | PhSeen backfilled _ safe mark =>
      st_ck g = true /\ 0 ∈ st_ex g /\ nb = backfilled /\ 0 <= mark < safe /\ safe <= mx
  | PhCopy backfilled safe todo =>
      st_ck g = true /\ 0 ∈ st_ex g /\ nb = backfilled /\ safe <= mx /\ todo_ok backfilled safe todo /\
      (forall n p, backfilled < n <= safe -> zget log (n - 1) = Some p ->
         p ∈ todo.*1 \/ w_db w p = content safe p)
  | PhAll =>
      st_ck g = true /\ 0 ∈ st_ex g /\ st_wr g = true /\ st_ver g = false /\
      forall p, w_db w p = content mx p
  end.

Record status_ok (g : status) : Prop := mkStatusOk {
  so_rd : forall i v, st_rd g = Some (i, v) -> 0 <= i < 5 /\ slot_value i s = Some v;
  so_pin : forall pi, st_pin g = Some pi -> pin_ok g pi;
  so_ver : st_ver g = true -> writer_ok g;
  so_ini : st_ini g <> HdUnknown -> st_wr g = true /\ header_known (st_ini g);
  so_new : forall pi j x, st_pin g = Some pi -> st_new g !! j = Some x ->
    st_ver g = true /\ w_frames w !! (pn_max pi + 1 + Z.of_nat j) = Some x;
  so_ph : phase_ok g
}.

(** A checkpointer [g] stays below what the reader [h] pinned. *)
Definition below (g h : status) : Prop :=
  forall pi, st_pin h = Some pi ->
    match st_ph g with
    | PhScan _ slot safe =>
        forall i v, st_rd h = Some (i, v) -> 1 <= i < slot -> safe <= pn_max pi
    | PhSeen _ slot safe mark =>
        forall i v, st_rd h = Some (i, v) ->
          (1 <= i < slot -> safe <= pn_max pi) /\ (1 <= i <= slot -> mark <= pn_max pi)
    | PhCopy _ safe _ => safe <= pn_max pi
    | _ => True
    end.

(** The metadata, the index and the files; [C] is the committed contents. *)
Record global_ok (C : Z -> Data) : Prop := mkGlobalOk {
  do_index : indexes log s;
  do_bounds : 0 <= nb <= mx /\ mx <= zlen log /\ mx < 2 ^ 32 - 1;
  do_frames : frames_agree mx;
  do_db : db_within mx;
  do_init : md_initialized (metadata s) = false -> mx = 0;
  do_enabled : md_enabled (metadata s) = true;
  do_page_size : wh_page_size (md_wal_header (metadata s)) = 0 \/
                 wh_page_size (md_wal_header (metadata s)) = page_sz;
  do_page_size_init : md_initialized (metadata s) = true ->
                 wh_page_size (md_wal_header (metadata s)) = page_sz;
  do_committed : forall p, content mx p = C p
}.

Record data_ok (C : Z -> Data) (gs : list status) : Prop := mkDataOk {
  do_global : global_ok C;
  do_status : forall i g, gs !! i = Some g -> status_ok g;
  do_below : forall i j g h, gs !! i = Some g -> gs !! j = Some h -> below g h
}.
End Data.

Definition wal_inv (C : Z -> Data) (gs : list status) (w : world) : Prop :=
  locks_ok gs (w_shared w) /\ exists base log, data_ok base log w C gs.

(** ** Transactions *)

(** A connection as its user sees it.  A writer has the contents it started from and its
    own view. *)
Inductive txn := Idle | Reading (view : Z -> Data) | Writing (from view : Z -> Data).

Definition txn_of (g : status) : txn :=
  match st_pin g with
  | None => Idle
  | Some p => if st_ver g then Writing (pn_from p) (pn_view p) else Reading (pn_view p)
  end.

Definition writes (t : txn) : bool := match t with Writing _ _ => true | _ => false end.

(** The moves of the committed contents and of its status that a running operation may make;
    those that change neither the contents nor the transaction are always among them. *)
Class Moves := mkMoves {
  allowed : (Z -> Data) * status -> (Z -> Data) * status -> Prop;
  allowed_quiet C g g' : txn_of g' = txn_of g -> allowed (C, g) (C, g')
}.

Section Moves.
Context {M : Moves}.

(** A read transaction may begin: it sees the committed contents. *)
Definition may_begin : Prop :=
  forall C g g' v, txn_of g = Idle -> txn_of g' = Reading v -> (forall q, v q = C q) -> allowed (C, g) (C, g').
(** The view of the connection may change, a write transaction neither begin nor end. *)
Definition may_turn : Prop := forall C g g', writes (txn_of g') = writes (txn_of g) -> allowed (C, g) (C, g').
(** A writer may commit where the contents it started from are current. *)
Definition may_commit (from v : Z -> Data) : Prop :=
  forall C g g', txn_of g = Writing from v -> writes (txn_of g') = false -> (forall q, from q = C q) ->
    allowed (C, g) (v, g').
(** Everything but the committed contents may change. *)
Definition may_change : Prop := forall C g g', allowed (C, g) (C, g').

Lemma change_turn : may_change -> may_turn.
Proof. intros H C g g' _. apply H. Qed.
End Moves.

(** ** Locks *)
Definition same_data (s s' : WalFileShared) : Prop :=
  metadata s' = metadata s /\ rt_frame_cache (runtime s') = rt_frame_cache (runtime s) /\
  rt_frame_cache_high_water (runtime s') = rt_frame_cache_high_water (runtime s).

Lemma same_data_set_lock k x s : same_data s (set_lock k x s).
Proof. by destruct k. Qed.

Lemma get_set_lock k x s :
  valid_lock k -> zlen (rt_read_locks (runtime s)) = 5 -> get_lock k (set_lock k x s) = Some x.
Proof.
  destruct k as [i| | |]; try done. simpl. intros Hi Hl. unfold zget. rewrite (proj2 (Z.ltb_ge _ _)) by lia.
  apply list_lookup_insert_eq. unfold zlen in Hl. lia.
Qed.

Lemma get_set_lock_ne k k' x s : valid_lock k -> k' <> k -> get_lock k' (set_lock k x s) = get_lock k' s.
Proof.
  destruct k as [i| | |], k' as [j| | |]; try done. simpl. intros Hi Hne. unfold zget.
  destruct (Z.ltb_spec j 0); [done|]. apply list_lookup_insert_ne. intros E. apply Hne. f_equal. lia.
Qed.

Lemma zlen_set_lock k x s : zlen (rt_read_locks (runtime (set_lock k x s))) = zlen (rt_read_locks (runtime s)).
Proof. destruct k; try done. simpl. unfold zlen. by rewrite length_insert. Qed.

(** [g'] holds what [g] holds, except for the lock [k]. *)
Definition changes (k : wal_lock) (sh ex : bool) (g g' : status) : Prop :=
  (forall k', k' <> k -> holds_shared k' g' = holds_shared k' g /\ holds_excl k' g' = holds_excl k' g) /\
  holds_shared k g' = sh /\ holds_excl k g' = ex.

#[local] Abbreviation b2z b := (if b : bool then 1 else 0).

Lemma locks_update gs s i g g' k x v sh ex :
  locks_ok gs s -> gs !! i = Some g -> valid_lock k -> changes k sh ex g g' ->
  packs x v (tally (holds_shared k) gs - b2z (holds_shared k g) + b2z sh)
    (tally (holds_excl k) gs - b2z (holds_excl k g) + b2z ex) ->
  (tally (holds_excl k) gs - b2z (holds_excl k g) + b2z ex = 1 ->
     tally (holds_shared k) gs - b2z (holds_shared k g) + b2z sh = 0) ->
  locks_ok (<[i := g']> gs) (set_lock k x s).
Proof.
  intros (Hn & Hl & Hok) Hi Hk (Hch & Hsh & Hex) Hp Himp. unfold locks_ok. split_and!.
  - unfold zlen in *. by rewrite length_insert.
  - by rewrite zlen_set_lock.
  - intros k' Hk'. destruct (decide (k' = k)) as [->|Hne].
    + exists x, v. rewrite get_set_lock, !(tally_insert _ _ _ _ _ Hi), Hsh, Hex by done. done.
    + destruct (Hok k' Hk') as (x' & v' & Hget & Hp' & Himp'). destruct (Hch k' Hne) as [E1 E2].
      exists x', v'. rewrite get_set_lock_ne, !(tally_insert _ _ _ _ _ Hi), E1, E2 by done.
      rewrite !Z.sub_add. done.
Qed.

Lemma locks_same gs s i g g' s' :
  locks_ok gs s -> gs !! i = Some g ->
  (forall k, holds_shared k g' = holds_shared k g /\ holds_excl k g' = holds_excl k g) ->
  rt_read_locks (runtime s') = rt_read_locks (runtime s) -> rt_vacuum_lock (runtime s') = rt_vacuum_lock (runtime s) ->
  rt_write_lock (runtime s') = rt_write_lock (runtime s) ->
  rt_checkpoint_lock (runtime s') = rt_checkpoint_lock (runtime s) ->
  locks_ok (<[i := g']> gs) s'.
Proof.
  intros (Hn & Hl & Hok) Hi Hch E1 E2 E3 E4. split_and!.
  - unfold zlen in *. by rewrite length_insert.
  - by rewrite E1.
  - intros k Hk. destruct (Hok k Hk) as (x & v & Hget & Hp). exists x, v. destruct (Hch k) as [F1 F2].
    rewrite !(tally_insert _ _ _ _ _ Hi), F1, F2, !Z.sub_add. split; [|done].
    rewrite <- Hget. destruct k; simpl; congruence.
Qed.

(** An exclusive holder excludes the others. *)
Lemma excl_shared gs s k i j g h :
  locks_ok gs s -> valid_lock k -> gs !! i = Some g -> gs !! j = Some h ->
  holds_excl k g = true -> holds_shared k h = false.
Proof.
  intros (_ & _ & Hok) Hk Hi Hj Hg. destruct (Hok k Hk) as (x & v & _ & Hp & Himp).
  pose proof (tally_pos _ _ _ _ Hi Hg). pose proof (pk_b _ _ _ _ Hp). apply not_true_is_false. intros Hh.
  pose proof (tally_pos _ _ _ _ Hj Hh). lia.
Qed.

Lemma excl_excl gs s k i j g h :
  locks_ok gs s -> valid_lock k -> gs !! i = Some g -> gs !! j = Some h ->
  holds_excl k g = true -> holds_excl k h = true -> i = j.
Proof.
  intros (_ & _ & Hok) Hk Hi Hj Hg Hh. destruct (Hok k Hk) as (x & v & _ & Hp & _).
  destruct (decide (i = j)) as [|Hne]; [done|]. pose proof (tally_two _ _ _ _ _ _ Hne Hi Hj Hg Hh).
  pose proof (pk_b _ _ _ _ Hp). lia.
Qed.

(** The effect of an operation on a lock word: the state with the word [x]. *)
Definition same_slots (s s' : WalFileShared) : Prop := forall j, slot_value j s' = slot_value j s.

Lemma slot_values_set_lock k x s :
  valid_lock k -> zlen (rt_read_locks (runtime s)) = 5 ->
  (forall i y, k = ReadLock i -> get_lock k s = Some y -> get_value x = get_value y) ->
  same_slots s (set_lock k x s).
Proof.
  intros Hk Hl Hx j. unfold slot_value. destruct (decide (ReadLock j = k)) as [<-|Hne].
  - rewrite get_set_lock by done. destruct (get_lock (ReadLock j) s) eqn:E; simpl; [by rewrite (Hx j z)|].
    simpl in E, Hk. unfold zget in E. destruct (Z.ltb_spec j 0); [lia|].
    apply lookup_ge_None in E. unfold zlen in Hl. lia.
  - by rewrite get_set_lock_ne.
Qed.

(** What a successful change of lock [k] gives. *)
Definition locked_to (k : wal_lock) (sh ex : bool) (i : nat) (g : status) (gs : list status)
    (s s' : WalFileShared) : Prop :=
  same_data s s' /\ same_slots s s' /\ forall g', changes k sh ex g g' -> locks_ok (<[i := g']> gs) s'.

Ltac lock_open Hok Hk x v Hget Hp Himp :=
  pose proof Hok as (_ & _ & ?Hall); destruct (Hall _ Hk) as (x & v & Hget & Hp & Himp); clear Hall.

Lemma on_lock_result k gs s i g x v y v' sh ex :
  locks_ok gs s -> gs !! i = Some g -> valid_lock k -> get_lock k s = Some x ->
  packs x v (tally (holds_shared k) gs) (tally (holds_excl k) gs) -> v' = v ->
  packs y v' (tally (holds_shared k) gs - b2z (holds_shared k g) + b2z sh)
    (tally (holds_excl k) gs - b2z (holds_excl k g) + b2z ex) ->
  (tally (holds_excl k) gs - b2z (holds_excl k g) + b2z ex = 1 ->
     tally (holds_shared k) gs - b2z (holds_shared k g) + b2z sh = 0) ->
  locked_to k sh ex i g gs s (set_lock k y s).
Proof.
  intros Hok Hi Hk Hget Hx -> Hy Himp. split_and!; [apply same_data_set_lock| |].
  - pose proof Hok as (_ & Hl & _). apply slot_values_set_lock; [done..|]. intros j z -> Hz.
    rewrite Hget in Hz. injection Hz as <-.
    by rewrite (packed_get_value _ _ _ _ Hx), (packed_get_value _ _ _ _ Hy).
  - intros g' Hch. by eapply locks_update.
Qed.

(** Storing back the word that was read changes nothing. *)
Lemma set_lock_same k x s : valid_lock k -> get_lock k s = Some x -> set_lock k x s = s.
Proof.
  destruct s as [m []], k as [j| | |]; simpl; intros Hk E; try (injection E as ->; done).
  unfold zget in E. destruct (Z.ltb_spec j 0); [lia|]. unfold set_read_locks, with_runtime. simpl.
  by rewrite list_insert_id.
Qed.
Section Ops.
Context (gs : list status) (s : WalFileShared) (i : nat) (g : status) (k : wal_lock).
Context (Hok : locks_ok gs s) (Hi : gs !! i = Some g) (Hk : valid_lock k).

Lemma on_try_shared b :
  holds_shared k g = false ->
  exists r s', on_lock k (acquires lock_read) b s = Ok (r, s') /\
    (if r : bool then tally (holds_excl k) gs = 0 /\ locked_to k true (holds_excl k g) i g gs s s'
     else s' = s).
Proof.
  intros Hg. lock_open Hok Hk x v Hget Hp Himp. unfold on_lock. rewrite Hget. cbn [or_panic mbind res_bind].
  unfold acquires, lock_read. rewrite (packed_has_writer _ _ _ _ Hp).
  destruct b; [do 2 eexists; split; [reflexivity|by apply set_lock_same]|].
  pose proof (pk_b _ _ _ _ Hp) as Hb.
  destruct (Z.eqb_spec (tally (holds_excl k) gs) 1); (do 2 eexists; split; [reflexivity|]); [by apply set_lock_same|].
  split; [lia|]. pose proof (tally_lt _ _ _ _ Hi Hg) as Hlt. pose proof Hok as (Hn & _ & _).
  eapply on_lock_result; [done..| |].
  - rewrite Hg. eapply packs_cast; [apply (packs_add_reader _ _ _ _ Hp); lia|lia|lia].
  - lia.
Qed.

Lemma on_try_exclusive b :
  exists r s', on_lock k (acquires lock_write) b s = Ok (r, s') /\
    (if r : bool then tally (holds_excl k) gs = 0 /\ tally (holds_shared k) gs = 0 /\
       locked_to k false true i g gs s s'
     else s' = s).
Proof.
  lock_open Hok Hk x v Hget Hp Himp. unfold on_lock. rewrite Hget. cbn [or_panic mbind res_bind].
  unfold acquires, lock_write. rewrite (packed_has_writer _ _ _ _ Hp), (packed_has_readers _ _ _ _ Hp).
  destruct b; [do 2 eexists; split; [reflexivity|by apply set_lock_same]|].
  pose proof (pk_b _ _ _ _ Hp) as Hb. pose proof (pk_r _ _ _ _ Hp) as Hr.
  destruct (Z.eqb_spec (tally (holds_excl k) gs) 1); [do 2 eexists; split; [reflexivity|by apply set_lock_same]|].
  destruct (Z.eqb_spec (tally (holds_shared k) gs) 0) as [Hr0|]; (do 2 eexists; split; [reflexivity|]); [|by apply set_lock_same].
  split_and!; [lia..|].
  assert (holds_shared k g = false) as E1.
  { apply not_true_is_false. intros E. pose proof (tally_pos _ _ _ _ Hi E). lia. }
  assert (holds_excl k g = false) as E2.
  { apply not_true_is_false. intros E. pose proof (tally_pos _ _ _ _ Hi E). lia. }
  eapply on_lock_result; [done..| |]; rewrite E1, ?E2.
  - eapply packs_cast; [apply (packs_set_writer _ _ _ _ Hp); lia|lia|lia].
  - lia.
Qed.

Lemma on_try_upgrade b :
  holds_shared k g = true ->
  exists r s', on_lock k (acquires lock_upgrade) b s = Ok (r, s') /\
    (if r : bool then tally (holds_excl k) gs = 0 /\ tally (holds_shared k) gs = 1 /\
       locked_to k false true i g gs s s'
     else s' = s).
Proof.
  intros Hg. lock_open Hok Hk x v Hget Hp Himp. unfold on_lock. rewrite Hget. cbn [or_panic mbind res_bind].
  unfold acquires, lock_upgrade. rewrite (packed_counts _ _ _ _ Hp). unfold READER_INC.
  destruct b; [do 2 eexists; split; [reflexivity|by apply set_lock_same]|].
  pose proof (pk_b _ _ _ _ Hp) as Hb. pose proof (pk_r _ _ _ _ Hp) as Hr.
  destruct (Z.eqb_spec (2 * tally (holds_shared k) gs + tally (holds_excl k) gs) 2);
    (do 2 eexists; split; [reflexivity|]); [|by apply set_lock_same].
  split_and!; [lia..|].
  assert (holds_excl k g = false) as E2.
  { apply not_true_is_false. intros E. pose proof (tally_pos _ _ _ _ Hi E). lia. }
  eapply on_lock_result; [done..| |]; rewrite Hg, ?E2.
  - eapply packs_cast; [apply (packs_upgrade _ _ _ _ Hp)|lia|lia].
  - lia.
Qed.

Lemma on_unlock_shared b :
  holds_shared k g = true ->
  exists s', on_lock k (releases lock_unlock) b s = Ok ((), s') /\ locked_to k false (holds_excl k g) i g gs s s'.
Proof.
  intros Hg. lock_open Hok Hk x v Hget Hp Himp. unfold on_lock. rewrite Hget. cbn [or_panic mbind res_bind].
  unfold releases, lock_unlock, unlock_write, unlock_read. rewrite (packed_writer _ _ _ _ Hp), (packed_has_readers _ _ _ _ Hp).
  pose proof (pk_b _ _ _ _ Hp) as Hb. pose proof (tally_pos _ _ _ _ Hi Hg).
  destruct (Z.eqb_spec (tally (holds_excl k) gs) 0); [|lia]. cbn [negb].
  rewrite (proj2 (Z.eqb_neq _ 0)) by lia. cbn [negb assert_that mbind res_bind].
  eexists. split; [reflexivity|]. eapply on_lock_result; [done..| |].
  - rewrite Hg. eapply packs_cast; [apply (packs_sub_reader _ _ _ _ Hp); lia|lia|lia].
  - lia.
Qed.

Lemma on_unlock_excl b :
  holds_excl k g = true ->
  exists s', on_lock k (releases lock_unlock) b s = Ok ((), s') /\ locked_to k false false i g gs s s'.
Proof.
  intros Hg. lock_open Hok Hk x v Hget Hp Himp. unfold on_lock. rewrite Hget. cbn [or_panic mbind res_bind].
  unfold releases, lock_unlock, unlock_write, unlock_read. rewrite (packed_writer _ _ _ _ Hp), (packed_has_readers _ _ _ _ Hp).
  pose proof (pk_b _ _ _ _ Hp) as Hb. pose proof (tally_pos _ _ _ _ Hi Hg).
  destruct (Z.eqb_spec (tally (holds_excl k) gs) 0); [lia|]. cbn [negb].
  rewrite (proj2 (Z.eqb_eq _ 0)) by lia. cbn [negb assert_that mbind res_bind].
  assert (holds_shared k g = false) as E1 by (by eapply excl_shared).
  eexists. split; [reflexivity|]. eapply on_lock_result; [done..| |]; rewrite Hg, ?E1.
  - eapply packs_cast; [apply (packs_clear_writer _ _ _ _ Hp)|lia|lia].
  - lia.
Qed.

Lemma on_downgrade b :
  holds_excl k g = true ->
  exists s', on_lock k (releases lock_downgrade) b s = Ok ((), s') /\ locked_to k true false i g gs s s'.
Proof.
  intros Hg. lock_open Hok Hk x v Hget Hp Himp. unfold on_lock. rewrite Hget. cbn [or_panic mbind res_bind].
  unfold releases, lock_downgrade. rewrite (packed_has_writer _ _ _ _ Hp).
  pose proof (pk_b _ _ _ _ Hp) as Hb. pose proof (tally_pos _ _ _ _ Hi Hg).
  rewrite (proj2 (Z.eqb_eq _ 1)) by lia. cbn [assert_that mbind res_bind].
  assert (holds_shared k g = false) as E1 by (by eapply excl_shared).
  eexists. split; [reflexivity|]. eapply on_lock_result; [done..| |]; rewrite Hg, ?E1.
  - eapply packs_cast; [apply (packs_downgrade _ _ _ _ Hp)|lia|lia].
  - lia.
Qed.

(** Setting the mark of a slot that is held exclusively. *)
Lemma on_set_value b j v' :
  k = ReadLock j -> holds_excl k g = true -> 0 <= v' < 2 ^ 32 ->
  exists s', on_lock k (releases (set_value_exclusive v')) b s = Ok ((), s') /\ same_data s s' /\
    (forall n, n <> j -> slot_value n s' = slot_value n s) /\ slot_value j s' = Some v' /\
    (forall g', (forall k', holds_shared k' g' = holds_shared k' g /\ holds_excl k' g' = holds_excl k' g) ->
       locks_ok (<[i := g']> gs) s').
Proof.
  intros Ek Hg Hv. lock_open Hok Hk x v Hget Hp Himp. pose proof Hok as (_ & Hl & _).
  unfold on_lock. rewrite Hget. cbn [or_panic mbind res_bind]. unfold releases, set_value_exclusive.
  rewrite (packed_has_writer _ _ _ _ Hp). pose proof (pk_b _ _ _ _ Hp). pose proof (tally_pos _ _ _ _ Hi Hg).
  rewrite (proj2 (Z.eqb_eq _ 1)) by lia. cbn [assert_that mbind res_bind].
  pose proof (packs_set_value _ _ _ _ Hp v' Hv) as Hy.
  eexists. split; [reflexivity|]. split_and!; [apply same_data_set_lock| | |].
  - intros n Hn. unfold slot_value. rewrite get_set_lock_ne; [done..|]. rewrite Ek. congruence.
  - unfold slot_value. rewrite <- Ek, get_set_lock by done. simpl. f_equal. apply (packed_get_value _ _ _ _ Hy).
  - intros g' Hch. destruct (Hch k) as [F1 F2].
    eapply (locks_update gs s i g g' k _ v' (holds_shared k g) (holds_excl k g)); try done.
    + by rewrite !Z.sub_add.
    + by rewrite !Z.sub_add.
Qed.
End Ops.

Lemma on_value gs s j : locks_ok gs s -> 0 <= j < 5 -> forall b,
  exists x, on_lock (ReadLock j) (fun _ w => Ok (get_value w, w)) b s =
      Ok (get_value x, set_lock (ReadLock j) x s) /\
    get_lock (ReadLock j) s = Some x /\ 0 <= get_value x < 2 ^ 32.
Proof.
  intros Hok Hj b. pose proof Hok as (_ & _ & Hall). destruct (Hall (ReadLock j) Hj) as (x & v & Hget & Hp & _).
  exists x. unfold on_lock. rewrite Hget, (packed_get_value _ _ _ _ Hp). pose proof (pk_v _ _ _ _ Hp).
  split_and!; [|done|lia|lia]. cbn [or_panic mbind res_bind]. by rewrite (packed_get_value _ _ _ _ Hp).
Qed.

End Invariant.
