(* ===== verification/WalSteps.v ===== *)
(** * Steps that keep the invariant of the shared log

    The contents as of a frame under writes and rollbacks, and for every atomic
    action of [WalCoordination] and [WalConnection] the change of ghost status
    under which it keeps [wal_inv]. *)
From stdpp Require Import gmap relations sorting.
From S2P Require Import Prelude Errors OnDisk WalFormat WalLock WalShared.
From S2P Require Import WalRecovery WalIndex Threads WalCoordination WalConnection WalInvariant.

(** ** Contents *)
(** No assertion of the log may fail. *)
#[export] Instance log_halts {Data} : Halts (world (Data := Data)) := fun _ => False.

Section Contents.
Context {Data : Type}.
Implicit Types (base : Z -> Data) (frames : gmap Z (Z * Data)).

Lemma asof_0 base frames p : asof base frames 0 p = base p.
Proof. done. Qed.

Lemma asof_succ base frames n p : 0 <= n ->
  asof base frames (n + 1) p =
    match frames !! (n + 1) with
    | Some (q, d) => if q =? p then d else asof base frames n p
    | None => asof base frames n p
    end.
Proof.
  intros Hn. unfold asof. replace (Z.to_nat (n + 1)) with (S (Z.to_nat n)) by lia. cbn [asof_nat].
  replace (Z.of_nat (S (Z.to_nat n))) with (n + 1) by lia. done.
Qed.

(** Only the frames up to [n] count. *)
Lemma asof_ext base frames frames' n p :
  0 <= n -> (forall m, 1 <= m <= n -> frames' !! m = frames !! m) ->
  asof base frames' n p = asof base frames n p.
Proof.
  intros Hn. revert n Hn. refine (natlike_ind _ _ _); [done|]. intros n Hn IH H. unfold Z.succ in *.
  rewrite !asof_succ, H, IH by (lia || (intros; apply H; lia)). done.
Qed.

(** No frame of [p] after [a]: the contents are those as of [a]. *)
Lemma asof_gap base frames a b p :
  0 <= a <= b -> (forall m q d, a < m <= b -> frames !! m = Some (q, d) -> q <> p) ->
  asof base frames b p = asof base frames a p.
Proof.
  intros [Ha Hab]. revert b Hab. refine (Zlt_lower_bound_ind _ a _). intros b IH Hab H.
  destruct (decide (a = b)) as [->|Hne]; [done|].
  replace b with ((b - 1) + 1) at 1 by lia. rewrite asof_succ, IH by (lia || (intros; eapply H; eauto; lia)).
  rewrite Z.sub_add. destruct (frames !! b) as [[q d]|] eqn:E; [|done].
  destruct (Z.eqb_spec q p) as [->|]; [|done]. by destruct (H b p d ltac:(lia) E).
Qed.

(** The latest frame of [p] gives its contents. *)
Lemma asof_hit base frames n b p d :
  1 <= n <= b -> frames !! n = Some (p, d) ->
  (forall m q d', n < m <= b -> frames !! m = Some (q, d') -> q <> p) ->
  asof base frames b p = d.
Proof.
  intros Hn Hd H. rewrite (asof_gap base frames n b) by (lia || done).
  replace n with ((n - 1) + 1) by lia. rewrite asof_succ, Z.sub_add, Hd, Z.eqb_refl by lia. done.
Qed.

Lemma frames_agree_page log (w : world) n m p q d :
  frames_agree (Data := Data) log w n -> 1 <= m <= n -> w_frames w !! m = Some (q, d) ->
  (zget log (m - 1) = Some p <-> q = p).
Proof.
  intros H Hm Hd. destruct (H m Hm) as (p' & d' & Hl & Hf). rewrite Hd in Hf. injection Hf as <- <-.
  rewrite Hl. split; congruence.
Qed.

Lemma frames_agree_le log (w : world) n m :
  frames_agree (Data := Data) log w n -> m <= n -> frames_agree log w m.
Proof. intros H Hm k Hk. apply H. lia. Qed.

(** The log has no frame of [p] after [a]. *)
Lemma content_gap base log (w : world) n a b p :
  frames_agree (Data := Data) log w n -> 0 <= a <= b -> b <= n ->
  (forall m, a < m <= b -> zget log (m - 1) <> Some p) ->
  asof base (w_frames w) b p = asof base (w_frames w) a p.
Proof.
  intros Hf Hab Hn H. apply asof_gap; [done|]. intros m q d Hm Hd ->.
  apply (H m Hm). by eapply (frames_agree_page log w n m p); [|lia| |].
Qed.

Lemma content_latest base log (w : world) n lo hi p f :
  frames_agree (Data := Data) log w n -> hi <= n -> 1 <= lo -> latest_frame log p lo hi f ->
  exists d, w_frames w !! f = Some (p, d) /\ asof base (w_frames w) hi p = d.
Proof.
  intros Hf Hn Hlo (Hr & Hl & Hlast). destruct (Hf f ltac:(lia)) as (q & d & Hq & Hd).
  rewrite Hl in Hq. injection Hq as <-. exists d. split; [done|]. apply (asof_hit _ _ f); [lia|done|].
  intros m q d' Hm Hd' ->. apply (Hlast m ltac:(lia)). by eapply (frames_agree_page log w n m p); [|lia| |].
Qed.
End Contents.

(** ** Changes of status *)
Section Status.
Context {Data : Type}.
#[local] Abbreviation status := (status (Data := Data)).

Definition with_vac (x : bool) (g : status) : status :=
  mkStatus x (st_rd g) (st_ex g) (st_wr g) (st_ck g) (st_pin g) (st_ver g) (st_ini g) (st_new g) (st_ph g).
Definition with_rd (x : option (Z * Z)) (g : status) : status :=
  mkStatus (st_vac g) x (st_ex g) (st_wr g) (st_ck g) (st_pin g) (st_ver g) (st_ini g) (st_new g) (st_ph g).
Definition with_ex (x : gset Z) (g : status) : status :=
  mkStatus (st_vac g) (st_rd g) x (st_wr g) (st_ck g) (st_pin g) (st_ver g) (st_ini g) (st_new g) (st_ph g).
Definition with_wr (x : bool) (g : status) : status :=
  mkStatus (st_vac g) (st_rd g) (st_ex g) x (st_ck g) (st_pin g) (st_ver g) (st_ini g) (st_new g) (st_ph g).
Definition with_ck (x : bool) (g : status) : status :=
  mkStatus (st_vac g) (st_rd g) (st_ex g) (st_wr g) x (st_pin g) (st_ver g) (st_ini g) (st_new g) (st_ph g).
Definition with_pin (x : option pin) (g : status) : status :=
  mkStatus (st_vac g) (st_rd g) (st_ex g) (st_wr g) (st_ck g) x (st_ver g) (st_ini g) (st_new g) (st_ph g).
Definition with_ver (x : bool) (g : status) : status :=
  mkStatus (st_vac g) (st_rd g) (st_ex g) (st_wr g) (st_ck g) (st_pin g) x (st_ini g) (st_new g) (st_ph g).
Definition with_ini (x : header_state) (g : status) : status :=
  mkStatus (st_vac g) (st_rd g) (st_ex g) (st_wr g) (st_ck g) (st_pin g) (st_ver g) x (st_new g) (st_ph g).
Definition with_ph (x : phase) (g : status) : status :=
  mkStatus (st_vac g) (st_rd g) (st_ex g) (st_wr g) (st_ck g) (st_pin g) (st_ver g) (st_ini g) (st_new g) x.
Definition with_new (x : list (Z * Data)) (g : status) : status :=
  mkStatus (st_vac g) (st_rd g) (st_ex g) (st_wr g) (st_ck g) (st_pin g) (st_ver g) (st_ini g) x (st_ph g).
End Status.

Ltac st_simpl :=
  cbn [with_vac with_rd with_ex with_wr with_ck with_pin with_ver with_ini with_new with_ph
    st_vac st_rd st_ex st_wr st_ck st_pin st_ver st_ini st_new st_ph pn_min pn_max pn_base pn_count pn_from pn_view] in *.

Section Steps.
Context {Data : Type} (page_sz : Z) (i : nat).
#[local] Abbreviation status := (status (Data := Data)).
#[local] Abbreviation world := (world (Data := Data)).
#[local] Abbreviation wal_inv := (wal_inv (Data := Data) page_sz).
#[local] Abbreviation data_ok := (data_ok (Data := Data) page_sz).
#[local] Abbreviation global_ok := (global_ok (Data := Data) page_sz).
Implicit Types (C : Z -> Data) (g h : status) (w : world) (gs : list status).

Lemma data_step C C' base log w base' log' w' gs g g' :
  data_ok base log w C gs -> gs !! i = Some g ->
  global_ok base' log' w' C' -> status_ok base' log' w' g' ->
  (forall j h, j <> i -> gs !! j = Some h -> status_ok base log w h -> status_ok base' log' w' h) ->
  below g' g' -> (forall j h, j <> i -> gs !! j = Some h -> below g' h /\ below h g') ->
  data_ok base' log' w' C' (<[i := g']> gs).
Proof.
  intros [_ Hst Hbe] Hi Hg Hg' Hoth Hself Hb. constructor; [done| |].
  - intros j h Hj. apply list_lookup_insert_Some in Hj as [(<- & <- & _)|[Hne Hj]]; [done|].
    apply (Hoth j); [done|done|by apply (Hst j)].
  - intros j k h h' Hj Hk.
    apply list_lookup_insert_Some in Hj as [(<- & <- & _)|[Hne Hj]];
      apply list_lookup_insert_Some in Hk as [(<- & <- & _)|[Hne' Hk]]; [done| | |by eapply Hbe].
    + by apply (Hb k).
    + by apply (Hb j).
Qed.

(** Dropping a pin, ending a checkpoint or moving between slots 0 and none keeps [below]. *)
Definition weaker (g g' : status) : Prop :=
  (st_ph g' = st_ph g \/ st_ph g' = PhNone) /\
  (st_pin g' = None \/ st_pin g' = st_pin g /\
     forall k v, st_rd g' = Some (k, v) -> 1 <= k -> st_rd g = Some (k, v)).

Lemma below_weaker_left g g' h : weaker g g' -> below g h -> below g' h.
Proof. intros [[E|E] _] H pi Hpi; [|by rewrite E]. rewrite E. by apply H. Qed.

Lemma below_weaker_right g h h' : weaker h h' -> below g h -> below g h'.
Proof.
  intros [_ [E|[E Hrd]]] H pi Hpi; [by rewrite E in Hpi|]. rewrite E in Hpi. specialize (H pi Hpi).
  destruct (st_ph g) as [|b slot safe|b slot safe mark| |]; try done.
  - intros k v Hk Hr. by apply (H k v); [apply Hrd; [done|lia]|].
  - intros k v Hk. split; intros Hr; (apply (H k v); [apply Hrd; [done|lia]|done]).
Qed.

(** A transaction pinned at the end of the log is above every checkpoint. *)
Lemma below_end base log w g h :
  phase_ok base log w g -> (forall pi, st_pin h = Some pi -> md_max_frame (metadata (w_shared w)) <= pn_max pi) ->
  below g h.
Proof.
  unfold phase_ok. intros Hph Hh pi Hpi. specialize (Hh pi Hpi).
  destruct (st_ph g); try done; intros; try split; intros; lia.
Qed.

(** What a status says of the data depends on the metadata, the files and its own slot. *)
Lemma status_ok_locks base log w s' h :
  same_data (w_shared w) s' ->
  (forall k v, st_rd h = Some (k, v) -> slot_value k s' = slot_value k (w_shared w)) ->
  status_ok base log w h -> status_ok base log (put_shared s' w) h.
Proof.
  intros (E & _ & _) Hs [Hrd Hpin Hver Hini Hnew Hph].
  constructor; unfold writer_ok, header_known, phase_ok, todo_ok, frames_agree, db_within in *; simpl; rewrite ?E; try done.
  - intros k v Hk. rewrite (Hs k v Hk). by apply Hrd.
  - intros pi Hpi. destruct (Hpin pi Hpi). constructor; unfold db_within in *; simpl; by rewrite ?E.
Qed.

Lemma global_ok_locks C base log w s' :
  same_data (w_shared w) s' -> global_ok base log w C -> global_ok base log (put_shared s' w) C.
Proof.
  intros (E & E1 & E2) []. constructor; unfold indexes, frames_agree, db_within in *; simpl; by rewrite ?E, ?E1, ?E2.
Qed.

(** A step that changes only locks. *)
Lemma lock_step C base log w gs g g' s' :
  data_ok base log w C gs -> gs !! i = Some g -> same_data (w_shared w) s' ->
  locks_ok (<[i := g']> gs) s' ->
  (forall j h k v, j <> i -> gs !! j = Some h -> st_rd h = Some (k, v) ->
     slot_value k s' = slot_value k (w_shared w)) ->
  (status_ok base log w g -> status_ok base log (put_shared s' w) g') -> weaker g g' ->
  wal_inv C (<[i := g']> gs) (put_shared s' w).
Proof.
  intros Hd Hi Hsame Hl Hslots Hg Hw. split; [done|]. exists base, log. pose proof Hd as [Hgl Hst Hbe].
  eapply (data_step C C base log w); [done..|by apply global_ok_locks| | | |].
  - by apply Hg, (Hst i).
  - intros j h Hj Hh. apply status_ok_locks; [done|]. intros k v. by apply (Hslots j).
  - eapply below_weaker_left, below_weaker_right, Hbe; done.
  - intros j h Hj Hh. split; [eapply below_weaker_left|eapply below_weaker_right]; eauto.
Qed.

(** The status after a change of locks and of what depends on them. *)
Record relocked w g g' s' : Prop := mkRelocked {
  rl_rd : forall k v, st_rd g' = Some (k, v) -> 0 <= k < 5 /\ slot_value k s' = Some v;
  rl_pin : st_pin g' = None \/ st_pin g' = st_pin g /\
    forall pi, st_pin g = Some pi -> (forall n, protected g n -> protected g' n) /\
      (st_ver g' = false -> st_ver g = true -> pn_max pi <= md_max_frame (metadata (w_shared w)));
  rl_ver : st_ver g' = false \/ st_ver g' = st_ver g /\ (st_wr g = true -> st_wr g' = true) /\ st_pin g' = st_pin g;
  rl_ini : st_ini g' = HdUnknown \/ st_ini g' = st_ini g /\ (st_wr g = true -> st_wr g' = true);
  rl_new : st_pin g' = None \/ st_new g' = st_new g /\ st_ver g' = st_ver g;
  rl_ph : st_ph g' = PhNone \/ st_ph g' = st_ph g /\ (st_ck g = true -> st_ck g' = true) /\ (0 ∈ st_ex g -> 0 ∈ st_ex g') /\
    (st_wr g = true -> st_wr g' = true) /\ st_ver g' = st_ver g
}.

Lemma relocked_ok base log w g g' s' :
  same_data (w_shared w) s' -> relocked w g g' s' ->
  status_ok base log w g -> status_ok base log (put_shared s' w) g'.
Proof.
  intros (E & E1 & E2) [Rrd Rpin Rver Rini Rnew Rph] [Hrd Hpin Hver Hini Hnew Hph]. constructor; [done|..].
  - intros pi Hpi. destruct Rpin as [R|[R Rp]]; [congruence|]. rewrite R in Hpi. destruct (Rp pi Hpi) as [Hpr Hmx].
    destruct (Hpin pi Hpi) as [P1 P2 P3 P4 P5]. constructor; unfold db_within; simpl; rewrite ?E; [auto|done| |done|done].
    intros Hf. destruct (st_ver g) eqn:Ev; auto.
  - intros Hf. destruct Rver as [R|(R1 & R2 & R3)]; [congruence|]. rewrite R1 in Hf.
    destruct (Hver Hf) as (Hwr & pi & Hpi & Hrest). unfold writer_ok. simpl. rewrite R3, E.
    split; [auto|]. exists pi. destruct Rpin as [R|[_ Rp]]; [congruence|]. destruct (Rp pi Hpi) as [Hpr _].
    destruct Hrest as (? & ? & ? & ? & ? & ? & ? & ?). split_and!; try done; try lia. by apply Hpr.
  - intros Hf. destruct Rini as [R|(R1 & R2)]; [congruence|].
    destruct Hini as [? ?]; [congruence|]. rewrite R1. unfold header_known in *. simpl. rewrite E. auto.
  - intros pi j x Hpi Hj. destruct Rnew as [R|[R1 R2]]; [congruence|]. destruct Rpin as [R|[R _]]; [congruence|].
    rewrite R2. apply Hnew; congruence.
  - unfold phase_ok in *. destruct Rph as [->|(R1 & R2 & R3 & R4 & R5)]; [done|].
    rewrite R1, R5. unfold todo_ok in *. simpl. rewrite E.
    destruct (st_ph g); destruct_and?; split_and?; auto.
Qed.

Context {M : Moves (Data := Data)}.
#[local] Abbreviation up := (upholds wal_inv allowed i).

(** An action on the shared state. *)
Lemma up_shared {X} (f : bool -> WalFileShared -> result (X * WalFileShared)) g (Q : X -> status -> Prop) :
  (forall b C gs w base log, gs !! i = Some g -> locks_ok gs (w_shared w) -> data_ok base log w C gs ->
     exists x s' C' g', f b (w_shared w) = Ok (x, s') /\ rtc allowed (C, g) (C', g') /\
       wal_inv C' (<[i := g']> gs) (put_shared s' w) /\ Q x g') ->
  up g (shared (action f)) Q.
Proof.
  intros H b C gs w Hi [Hl (base & log & Hd)].
  destruct (H b C gs w base log Hi Hl Hd) as (x & s' & C' & g' & Hf & Ha & HI & HQ).
  left. exists x, (put_shared s' w), C', g'. rewrite Hf. done.
Qed.

(** Nothing changes. *)
Lemma wal_inv_same C gs w g : gs !! i = Some g -> wal_inv C gs w -> wal_inv C (<[i := g]> gs) (put_shared (w_shared w) w).
Proof. intros Hi HI. rewrite list_insert_id by done. by destruct w. Qed.

Lemma up_loads {X} (f : WalFileShared -> X) g (Q : X -> status -> Prop) :
  (forall C gs w base log, gs !! i = Some g -> locks_ok gs (w_shared w) -> data_ok base log w C gs ->
     exists g', rtc allowed (C, g) (C, g') /\ wal_inv C (<[i := g']> gs) w /\ Q (f (w_shared w)) g') ->
  up g (shared (loads f)) Q.
Proof.
  intros H. apply up_shared. intros b C gs w base log Hi Hl Hd.
  destruct (H C gs w base log Hi Hl Hd) as (g' & Ha & HI & HQ).
  exists (f (w_shared w)), (w_shared w), C, g'. split_and!; [done..| |done]. by destruct w.
Qed.

(** A load that changes no status. *)
Lemma up_loads_only {X} (f : WalFileShared -> X) g (Q : X -> Prop) :
  (forall C gs w base log, gs !! i = Some g -> locks_ok gs (w_shared w) -> data_ok base log w C gs -> Q (f (w_shared w))) ->
  up g (shared (loads f)) (fun x h => h = g /\ Q x).
Proof.
  intros H. apply up_loads. intros C gs w base log Hi Hl Hd. exists g. split_and!; [done| |done|by eapply H].
  rewrite list_insert_id by done. split; [done|eauto].
Qed.

Lemma up_checks b g (Q : () -> status -> Prop) : b = true -> Q () g -> up g (checks b) Q.
Proof.
  intros -> HQ c C gs w Hi HI. left. exists (), w, C, g. split_and!; [done..| |done]. by rewrite list_insert_id.
Qed.

Lemma up_shared_checks b g (Q : () -> status -> Prop) : b = true -> Q () g -> up g (shared (checks b)) Q.
Proof.
  intros -> HQ c C gs w Hi HI. left. exists (), w, C, g. split_and!; [by destruct w|done| |done]. by rewrite list_insert_id.
Qed.

Lemma up_chooses g (Q : bool -> status -> Prop) : (forall b, Q b g) -> up g chooses Q.
Proof.
  intros HQ b C gs w Hi HI. left. exists b, w, C, g. split_and!; [done..| |apply HQ]. by rewrite list_insert_id.
Qed.

Lemma up_bind_shared {A B} (m : prog WalFileShared A) (k : A -> prog WalFileShared B) g Q :
  up g (shared m) (fun a g' => up g' (shared (k a)) Q) -> up g (shared (m ≫= k)) Q.
Proof. apply upholds_zoom_bind. Qed.

(** A lock changes hands: the status follows. *)
Lemma locked_step C base log w gs g g' s' k sh ex :
  data_ok base log w C gs -> gs !! i = Some g -> locked_to k sh ex i g gs (w_shared w) s' ->
  changes k sh ex g g' -> relocked w g g' s' -> weaker g g' -> wal_inv C (<[i := g']> gs) (put_shared s' w).
Proof.
  intros Hd Hi (Hsame & Hslots & Hl) Hch Hre Hw. eapply lock_step; [done..|by apply Hl| | |done].
  - intros j h k' v _ _ _. apply Hslots.
  - by apply relocked_ok.
Qed.

(** ** Locks *)
Ltac one_hold :=
  st_simpl; try done;
  first [ apply bool_decide_ext; (set_solver || (simpl; split; congruence))
        | apply bool_decide_eq_true_2; (set_solver || (simpl; congruence))
        | apply bool_decide_eq_false_2; (set_solver || (simpl; congruence)) ].
Ltac solve_changes :=
  let j := fresh "j" in let Hne := fresh "Hne" in let Hjk := fresh "Hjk" in
  split;
  [ intros [j| | |] Hne; unfold holds_shared, holds_excl;
    [ try match type of Hne with _ <> ReadLock ?k => assert (j <> k) as Hjk by congruence end | ..]
  | unfold holds_shared, holds_excl ]; split; one_hold.

Section Changes.
Context (k v : Z) (g : status).

Lemma changes_rd : st_rd g = None ->
  changes (ReadLock k) true (holds_excl (ReadLock k) g) g (with_rd (Some (k, v)) g).
Proof. intros E. destruct g. simpl in E. subst. solve_changes. Qed.

Lemma changes_no_rd pi : st_rd g = Some (k, v) ->
  changes (ReadLock k) false (holds_excl (ReadLock k) g) g (with_rd None (with_pin pi g)).
Proof. intros E. destruct g. simpl in E. subst. solve_changes. Qed.

Lemma changes_vac b : changes VacuumLock b (holds_excl VacuumLock g) g (with_vac b g).
Proof. destruct g. solve_changes. Qed.

Lemma changes_ex : fst <$> st_rd g <> Some k ->
  changes (ReadLock k) false true g (with_ex ({[k]} ∪ st_ex g) g).
Proof. intros E. destruct g. simpl in E. subst. solve_changes. Qed.

Lemma changes_no_ex : fst <$> st_rd g <> Some k ->
  changes (ReadLock k) false false g (with_ex (st_ex g ∖ {[k]}) g).
Proof. intros E. destruct g. simpl in E. subst. solve_changes. Qed.

Lemma changes_wr b ver ini : changes WriteLock false b g (with_wr b (with_ver ver (with_ini ini g))).
Proof. destruct g. solve_changes. Qed.

Lemma changes_ck b : changes CheckpointLock false b g (with_ck b g).
Proof. destruct g. solve_changes. Qed.

Lemma changes_upgrade : st_rd g = Some (k, v) ->
  changes (ReadLock k) false true g (with_rd None (with_ex ({[k]} ∪ st_ex g) g)).
Proof. intros E. destruct g. simpl in E. subst. solve_changes. Qed.

Lemma changes_downgrade : st_rd g = None ->
  changes (ReadLock k) true false g (with_rd (Some (k, v)) (with_ex (st_ex g ∖ {[k]}) g)).
Proof. intros E. destruct g. simpl in E. subst. solve_changes. Qed.
End Changes.

(** An attempt to change lock [k]. *)
Lemma up_attempt f k sh ex g (Q : bool -> status -> Prop) :
  (forall b C gs w base log, gs !! i = Some g -> locks_ok gs (w_shared w) -> data_ok base log w C gs ->
     exists (r : bool) s', f b (w_shared w) = Ok (r, s') /\
       if r then locked_to k sh ex i g gs (w_shared w) s' /\
         exists g', changes k sh ex g g' /\ relocked w g g' s' /\ weaker g g' /\ allowed (C, g) (C, g') /\ Q true g'
       else s' = w_shared w) ->
  Q false g -> up g (shared (action f)) Q.
Proof.
  intros H HQ. apply up_shared. intros b C gs w base log Hi Hl Hd.
  destruct (H b C gs w base log Hi Hl Hd) as ([] & s' & Hf & Hr).
  - destruct Hr as (Hto & g' & Hch & Hre & Hw & Ha & HQ'). exists true, s', C, g'.
    split_and!; [done|by apply rtc_once| |done]. by eapply locked_step.
  - subst s'. exists false, (w_shared w), C, g. split_and!; [done..| |done]. apply wal_inv_same; [done|].
    split; [done|eauto].
Qed.

(** A change of lock [k] that succeeds. *)
Lemma up_change f k sh ex g (Q : () -> status -> Prop) :
  (forall b C gs w base log, gs !! i = Some g -> locks_ok gs (w_shared w) -> data_ok base log w C gs ->
     exists s', f b (w_shared w) = Ok ((), s') /\ locked_to k sh ex i g gs (w_shared w) s' /\
       exists g', changes k sh ex g g' /\ relocked w g g' s' /\ weaker g g' /\ allowed (C, g) (C, g') /\ Q () g') ->
  up g (shared (action f)) Q.
Proof.
  intros H. apply up_shared. intros b C gs w base log Hi Hl Hd.
  destruct (H b C gs w base log Hi Hl Hd) as (s' & Hf & Hto & g' & Hch & Hre & Hw & Ha & HQ').
  exists (), s', C, g'. split_and!; [done|by apply rtc_once| |done]. by eapply locked_step.
Qed.

Lemma slot_value_ok gs s k : locks_ok gs s -> 0 <= k < 5 -> exists v, slot_value k s = Some v /\ 0 <= v < 2 ^ 32.
Proof.
  intros Hl Hk. pose proof Hl as (_ & _ & Hall). destruct (Hall (ReadLock k) Hk) as (x & v & Hget & Hp & _).
  exists v. unfold slot_value. rewrite Hget. simpl. rewrite (packed_get_value _ _ _ _ Hp).
  split; [done|apply (pk_v _ _ _ _ Hp)].
Qed.

(** The slot of a status keeps its value when no slot changes. *)
Lemma rd_kept C base log w gs g s' : data_ok base log w C gs -> gs !! i = Some g -> same_slots (w_shared w) s' ->
  forall k v, st_rd g = Some (k, v) -> 0 <= k < 5 /\ slot_value k s' = Some v.
Proof.
  intros Hd Hi Hs k v Hk. rewrite Hs. apply (so_rd _ _ _ _ (do_status _ _ _ _ _ _ Hd i g Hi) k v Hk).
Qed.

(** More locks, everything else kept. *)
Lemma relocked_more w g g' s' :
  (forall k v, st_rd g' = Some (k, v) -> 0 <= k < 5 /\ slot_value k s' = Some v) ->
  st_pin g' = st_pin g -> st_ver g' = st_ver g -> st_ini g' = st_ini g -> st_new g' = st_new g ->
  st_ph g' = st_ph g ->
  (st_ck g = true -> st_ck g' = true) -> (st_wr g = true -> st_wr g' = true) -> (0 ∈ st_ex g -> 0 ∈ st_ex g') ->
  (st_pin g = None \/ st_rd g' = st_rd g) -> relocked w g g' s' /\ weaker g g'.
Proof.
  intros Hrd Epin Ever Eini Enew Eph Hck Hwr Hex Hpr.
  assert (forall pi n, st_pin g = Some pi -> protected g n -> protected g' n) as Hprot.
  { intros pi n Hpi [(k & v & Hk & Hn)|(H1 & H2 & H3 & H4)]; (destruct Hpr as [?|Erd]; [congruence|]).
    - left. exists k, v. by rewrite Erd.
    - right. rewrite Erd, Eph. auto. }
  split.
  - constructor; [done|right|right; auto..].
    split; [done|]. intros pi Hpi. split; [intros n; by eapply Hprot|congruence].
  - split; [by left|]. destruct Hpr as [E|E]; [left; congruence|right]. split; [done|]. congruence.
Qed.

Lemma up_try_slot k g :
  0 <= k < 5 -> st_rd g = None -> st_pin g = None ->
  up g (shared (try_shared (ReadLock k)))
    (fun r g' => if r : bool then exists v, g' = with_rd (Some (k, v)) g /\ 0 <= v else g' = g).
Proof.
  intros Hk Hrd Hpin. apply (up_attempt _ (ReadLock k) true (holds_excl (ReadLock k) g)); [|done].
  intros b C gs w base log Hi Hl Hd.
  destruct (on_try_shared gs _ i g (ReadLock k) Hl Hi Hk b) as (r & s' & Hf & Hr).
  { unfold holds_shared. by rewrite Hrd. }
  exists r, s'. split; [done|]. destruct r; [|done]. destruct Hr as [_ Hto]. split; [done|].
  destruct (slot_value_ok gs _ k Hl Hk) as (v & Hv & Hv0). exists (with_rd (Some (k, v)) g).
  assert (relocked w g (with_rd (Some (k, v)) g) s' /\ weaker g (with_rd (Some (k, v)) g)) as [Hre Hw].
  { destruct Hto as (_ & Hs & _). apply relocked_more; auto. intros k' v' [= <- <-]. by rewrite Hs. }
  split_and!; [by apply changes_rd|done|done|by apply allowed_quiet|]. exists v. split; [done|lia].
Qed.

Lemma up_try_vacuum g :
  st_vac g = false ->
  up g (shared (try_shared VacuumLock)) (fun r g' => g' = if r : bool then with_vac true g else g).
Proof.
  intros Hv. apply (up_attempt _ VacuumLock true (holds_excl VacuumLock g)); [|done].
  intros b C gs w base log Hi Hl Hd.
  destruct (on_try_shared gs _ i g VacuumLock Hl Hi I b Hv) as (r & s' & Hf & Hr).
  exists r, s'. split; [done|]. destruct r; [|done]. destruct Hr as [_ Hto]. split; [done|].
  exists (with_vac true g). destruct (relocked_more w g (with_vac true g) s') as [Hre Hw]; auto.
  { destruct Hto as (_ & Hs & _). by apply (rd_kept C base log w gs g s'). }
  split_and!; [by apply changes_vac|done|done|by apply allowed_quiet|done].
Qed.

(** Taking [k] exclusively; [g'] is [g] with the lock. *)
Lemma up_try_exclusive k g g' :
  valid_lock k -> (holds_shared k g = false -> changes k false true g g') -> st_rd g' = st_rd g ->
  st_pin g' = st_pin g -> st_ver g' = st_ver g -> st_ini g' = st_ini g -> st_new g' = st_new g ->
  st_ph g' = st_ph g ->
  (st_ck g = true -> st_ck g' = true) -> (st_wr g = true -> st_wr g' = true) -> (0 ∈ st_ex g -> 0 ∈ st_ex g') ->
  up g (shared (try_exclusive k))
    (fun r h => if r : bool then h = g' /\ holds_shared k g = false /\ holds_excl k g = false else h = g).
Proof.
  intros Hk Hch Erd Epin Ever. intros. apply (up_attempt _ k false true); [|done].
  intros b C gs w base log Hi Hl Hd.
  destruct (on_try_exclusive gs _ i g k Hl Hi Hk b) as (r & s' & Hf & Hr).
  exists r, s'. split; [done|]. destruct r; [|done]. destruct Hr as (Hx0 & Hs0 & Hto). split; [done|].
  assert (holds_shared k g = false) as Hns.
  { apply not_true_is_false. intros E. pose proof (tally_pos _ _ _ _ Hi E). lia. }
  assert (holds_excl k g = false) as Hnx.
  { apply not_true_is_false. intros E. pose proof (tally_pos _ _ _ _ Hi E). lia. }
  exists g'. destruct (relocked_more w g g' s') as [Hre Hw]; auto.
  { destruct Hto as (_ & Hs & _). rewrite Erd. by apply (rd_kept C base log w gs g s'). }
  split_and!; auto. apply allowed_quiet. unfold txn_of. by rewrite Epin, Ever.
Qed.

Lemma holds_shared_slot k g : holds_shared (ReadLock k) g = false -> fst <$> st_rd g <> Some k.
Proof. apply bool_decide_eq_false_1. Qed.

Lemma up_try_ex_slot k g :
  0 <= k < 5 ->
  up g (shared (try_exclusive (ReadLock k)))
    (fun r h => if r : bool then h = with_ex ({[k]} ∪ st_ex g) g /\ fst <$> st_rd g <> Some k /\ k ∉ st_ex g
                else h = g).
Proof.
  intros Hk. eapply upholds_mono; [eapply (up_try_exclusive (ReadLock k) g (with_ex ({[k]} ∪ st_ex g) g)); st_simpl; auto|].
  - intros H. by apply changes_ex, holds_shared_slot.
  - set_solver.
  - intros [] h; [|done]. intros (-> & H1 & H2). apply holds_shared_slot in H1. apply bool_decide_eq_false_1 in H2. done.
Qed.

Lemma up_try_write g :
  up g (shared (try_exclusive WriteLock))
    (fun r h => if r : bool then h = with_wr true g /\ st_wr g = false else h = g).
Proof.
  eapply upholds_mono; [eapply (up_try_exclusive WriteLock g (with_wr true g)); st_simpl; auto|].
  - done.
  - intros _. apply (changes_wr g true (st_ver g) (st_ini g)).
  - intros [] h; [|done]. by intros (-> & _ & ?).
Qed.

Lemma up_try_ckpt g :
  up g (shared (try_exclusive CheckpointLock))
    (fun r h => if r : bool then h = with_ck true g /\ st_ck g = false else h = g).
Proof.
  eapply upholds_mono; [eapply (up_try_exclusive CheckpointLock g (with_ck true g)); st_simpl; auto|].
  - done.
  - intros _. apply changes_ck.
  - intros [] h; [|done]. by intros (-> & _ & ?).
Qed.

(** ** Releases *)
Lemma up_unlock_slot k v g :
  0 <= k < 5 -> st_rd g = Some (k, v) -> st_ver g = false -> st_pin g = None \/ may_turn ->
  up g (shared (unlock (ReadLock k))) (fun _ h => h = with_rd None (with_pin None g)).
Proof.
  intros Hk Hrd Hver Hmay. apply (up_change _ (ReadLock k) false (holds_excl (ReadLock k) g)).
  intros b C gs w base log Hi Hl Hd.
  destruct (on_unlock_shared gs _ i g (ReadLock k) Hl Hi Hk b) as (s' & Hf & Hto).
  { unfold holds_shared. rewrite Hrd. by apply bool_decide_eq_true_2. }
  exists s'. split_and!; [done..|]. exists (with_rd None (with_pin None g)). split_and!; [by eapply changes_no_rd| | | |done].
  - constructor; st_simpl; auto; [done|]. right. auto.
  - split; auto.
  - destruct Hmay as [E|Hmay].
    2: { apply Hmay. unfold txn_of. st_simpl. rewrite Hver. by destruct (st_pin g). }
    apply allowed_quiet. unfold txn_of. st_simpl. by rewrite E.
Qed.

Lemma up_unlock_vacuum g :
  st_vac g = true -> up g (shared (unlock VacuumLock)) (fun _ h => h = with_vac false g).
Proof.
  intros Hv. apply (up_change _ VacuumLock false (holds_excl VacuumLock g)).
  intros b C gs w base log Hi Hl Hd.
  destruct (on_unlock_shared gs _ i g VacuumLock Hl Hi I b Hv) as (s' & Hf & Hto).
  exists s'. split_and!; [done..|]. exists (with_vac false g).
  destruct (relocked_more w g (with_vac false g) s') as [Hre Hw]; auto.
  { destruct Hto as (_ & Hs & _). by apply (rd_kept C base log w gs g s'). }
  split_and!; [by apply changes_vac|done|done|by apply allowed_quiet|done].
Qed.

(** Whether the pin of [g] survives without slot 0 and the write lock. *)
Definition pin_by_slot (g : status) : Prop := st_pin g = None \/ exists kv, st_rd g = Some kv.

Lemma pin_by_slot_protected g g' n :
  pin_by_slot g -> st_pin g <> None -> st_rd g' = st_rd g -> protected g n -> protected g' n.
Proof.
  intros [?|[kv Hp]] Hpin Erd; [done|]. intros [(k & v & Hk & Hn)|[? _]]; [|congruence].
  left. exists k, v. by rewrite Erd.
Qed.

(** Giving up locks and the checkpoint, the pin held by a slot. *)
Lemma relocked_less w g g' s' :
  (forall k v, st_rd g' = Some (k, v) -> 0 <= k < 5 /\ slot_value k s' = Some v) ->
  pin_by_slot g -> st_rd g' = st_rd g -> st_pin g' = st_pin g -> st_ph g' = PhNone ->
  (st_ver g' = st_ver g /\ st_ini g' = st_ini g /\ st_wr g' = st_wr g \/ st_ver g = false /\ st_ver g' = false /\ st_ini g' = HdUnknown) -> st_new g' = st_new g ->
  relocked w g g' s' /\ weaker g g'.
Proof.
  intros Hrd Hpin Erd Epin Eph Hv Enew. split; [constructor; [done| | | | |by left]|split; [by right|right; split; congruence]].
  - right. split; [done|]. intros pi Hpi. split; [|destruct Hv; naive_solver congruence].
    intros n. apply pin_by_slot_protected; congruence.
  - destruct Hv as [(-> & _ & ->)|(_ & -> & _)]; auto.
  - destruct Hv as [(_ & -> & ->)|(_ & _ & ->)]; auto.
  - right. split; [done|]. destruct Hv as [(-> & _)|(-> & -> & _)]; done.
Qed.

Lemma up_unlock_ex_slot k g :
  1 <= k < 5 -> k ∈ st_ex g ->
  up g (shared (unlock (ReadLock k))) (fun _ h => h = with_ex (st_ex g ∖ {[k]}) g).
Proof.
  intros Hk Hex. assert (0 <= k < 5) as Hk' by lia. apply (up_change _ (ReadLock k) false false).
  intros b C gs w base log Hi Hl Hd. assert (holds_excl (ReadLock k) g = true) as Hx by (by apply bool_decide_eq_true_2).
  destruct (on_unlock_excl gs _ i g (ReadLock k) Hl Hi Hk' b Hx) as (s' & Hf & Hto).
  exists s'. split_and!; [done..|]. exists (with_ex (st_ex g ∖ {[k]}) g).
  destruct (relocked_more w g (with_ex (st_ex g ∖ {[k]}) g) s') as [Hre Hw]; auto; st_simpl.
  { destruct Hto as (_ & Hs & _). by apply (rd_kept C base log w gs g s'). }
  { intros H0. apply elem_of_difference. split; [done|]. rewrite elem_of_singleton. lia. }
  split_and!; [apply changes_no_ex, holds_shared_slot; by eapply excl_shared|done|done|by apply allowed_quiet|done].
Qed.

Lemma up_unlock_ex_0 g :
  0 ∈ st_ex g -> pin_by_slot g ->
  up g (shared (unlock (ReadLock 0))) (fun _ h => h = with_ph PhNone (with_ex (st_ex g ∖ {[0]}) g)).
Proof.
  intros Hex Hpin. assert (valid_lock (ReadLock 0)) as Hk by (simpl; lia). apply (up_change _ (ReadLock 0) false false).
  intros b C gs w base log Hi Hl Hd. assert (holds_excl (ReadLock 0) g = true) as Hx by (by apply bool_decide_eq_true_2).
  destruct (on_unlock_excl gs _ i g (ReadLock 0) Hl Hi Hk b Hx) as (s' & Hf & Hto).
  exists s'. split_and!; [done..|]. eexists. destruct (relocked_less w g (with_ph PhNone (with_ex (st_ex g ∖ {[0]}) g)) s')
    as [Hre Hw]; auto; st_simpl; [|split_and!; [|exact Hre|exact Hw|by apply allowed_quiet|done]].
  - destruct Hto as (_ & Hs & _). by apply (rd_kept C base log w gs g s').
  - apply (changes_no_ex 0 g), holds_shared_slot. by eapply excl_shared.
Qed.

Lemma up_unlock_write g :
  st_wr g = true -> pin_by_slot g -> st_ver g = false ->
  up g (shared (unlock WriteLock)) (fun _ h => h = with_ph PhNone (with_ini HdUnknown (with_wr false g))).
Proof.
  intros Hwr Hpin Hver. apply (up_change _ WriteLock false false).
  intros b C gs w base log Hi Hl Hd.
  destruct (on_unlock_excl gs _ i g WriteLock Hl Hi I b Hwr) as (s' & Hf & Hto).
  exists s'. split_and!; [done..|]. eexists. destruct (relocked_less w g (with_ph PhNone (with_ini HdUnknown (with_wr false g))) s')
    as [Hre Hw]; auto; st_simpl; [|split_and!; [|exact Hre|exact Hw|by apply allowed_quiet|done]].
  - destruct Hto as (_ & Hs & _). by apply (rd_kept C base log w gs g s').
  - apply (changes_wr g false (st_ver g) HdUnknown).
Qed.

Lemma up_unlock_ckpt g :
  st_ck g = true -> pin_by_slot g ->
  up g (shared (unlock CheckpointLock)) (fun _ h => h = with_ph PhNone (with_ck false g)).
Proof.
  intros Hck Hpin. apply (up_change _ CheckpointLock false false).
  intros b C gs w base log Hi Hl Hd.
  destruct (on_unlock_excl gs _ i g CheckpointLock Hl Hi I b Hck) as (s' & Hf & Hto).
  exists s'. split_and!; [done..|]. eexists. destruct (relocked_less w g (with_ph PhNone (with_ck false g)) s')
    as [Hre Hw]; auto; st_simpl; [|split_and!; [|exact Hre|exact Hw|by apply allowed_quiet|done]].
  - destruct Hto as (_ & Hs & _). by apply (rd_kept C base log w gs g s').
  - apply (changes_ck g false).
Qed.

Lemma up_upgrade_0 v g :
  st_rd g = Some (0, v) -> st_wr g = true -> st_ph g = PhNone ->
  up g (shared (try_upgrade (ReadLock 0)))
    (fun r h => h = if r : bool then with_rd None (with_ex ({[0]} ∪ st_ex g) g) else g).
Proof.
  intros Hrd Hwr Hph. assert (valid_lock (ReadLock 0)) as Hk by (simpl; lia).
  apply (up_attempt _ (ReadLock 0) false true); [|done]. intros b C gs w base log Hi Hl Hd.
  destruct (on_try_upgrade gs _ i g (ReadLock 0) Hl Hi Hk b) as (r & s' & Hf & Hr).
  { unfold holds_shared. rewrite Hrd. by apply bool_decide_eq_true_2. }
  exists r, s'. split; [done|]. destruct r; [|done]. destruct Hr as (_ & _ & Hto). split; [done|].
  eexists. split_and!; [by apply changes_upgrade with v| | |by apply allowed_quiet|done].
  - constructor; st_simpl; try done; try (by right; auto).
    + right. split; [done|]. intros pi Hpi. split; [|congruence]. intros n _. right. st_simpl. split_and!; auto. set_solver.
    + left. done.
  - split; [by left|right]. split; [done|]. by st_simpl.
Qed.

Lemma up_downgrade_0 g :
  st_rd g = None -> 0 ∈ st_ex g -> st_ph g = PhNone ->
  up g (shared (downgrade (ReadLock 0)))
    (fun _ h => exists v, h = with_rd (Some (0, v)) (with_ex (st_ex g ∖ {[0]}) g)).
Proof.
  intros Hrd Hex Hph. assert (valid_lock (ReadLock 0)) as Hk by (simpl; lia).
  apply (up_change _ (ReadLock 0) true false). intros b C gs w base log Hi Hl Hd.
  assert (holds_excl (ReadLock 0) g = true) as Hx by (by apply bool_decide_eq_true_2).
  destruct (on_downgrade gs _ i g (ReadLock 0) Hl Hi Hk b Hx) as (s' & Hf & Hto).
  destruct (slot_value_ok gs _ 0 Hl Hk) as (v & Hv & _).
  exists s'. split_and!; [done..|]. exists (with_rd (Some (0, v)) (with_ex (st_ex g ∖ {[0]}) g)).
  split_and!; [by apply changes_downgrade| | |by apply allowed_quiet|by exists v].
  - destruct Hto as (_ & Hs & _). constructor; st_simpl; try (by right; auto); [| |by left].
    + intros k' v' [= <- <-]. by rewrite Hs.
    + right. split; [done|]. intros pi Hpi. split; [|congruence]. intros n _. left. exists 0, v. st_simpl. auto.
  - split; [by left|right]. split; [done|]. st_simpl. intros k' v' [= <- <-]. lia.
Qed.

Lemma up_set_mark k v g :
  0 <= k < 5 -> k ∈ st_ex g -> 0 <= v < 2 ^ 32 ->
  up g (shared (set_read_mark_value_exclusive k v)) (fun _ h => h = g).
Proof.
  intros Hk Hex Hv. apply up_shared. intros b C gs w base log Hi Hl Hd.
  assert (holds_excl (ReadLock k) g = true) as Hx by (by apply bool_decide_eq_true_2).
  destruct (on_set_value gs _ i g (ReadLock k) Hl Hi Hk b k v eq_refl Hx Hv) as (s' & Hf & Hsame & Hne & _ & Hlk).
  exists (), s', C, g. split_and!; [done..| |done].
  assert (forall j h k' v', gs !! j = Some h -> st_rd h = Some (k', v') -> slot_value k' s' = slot_value k' (w_shared w)) as Hs.
  { intros j h k' v' Hj Hr. apply Hne. intros ->.
    pose proof (excl_shared _ _ (ReadLock k) i j g h Hl Hk Hi Hj Hx) as Hf'. apply holds_shared_slot in Hf'.
    apply Hf'. by rewrite Hr. }
  eapply lock_step; [done..|by apply Hlk| | |split; [by left|by right]].
  - intros j h k' v' _. apply Hs.
  - apply status_ok_locks; [done|]. intros k' v'. by apply (Hs i).
Qed.

Lemma up_mark_value k g (Q : Z -> status -> Prop) :
  0 <= k < 5 ->
  (forall C gs w base log v, gs !! i = Some g -> locks_ok gs (w_shared w) -> data_ok base log w C gs ->
     slot_value k (w_shared w) = Some v -> 0 <= v < 2 ^ 32 ->
     exists g', rtc allowed (C, g) (C, g') /\ wal_inv C (<[i := g']> gs) w /\ Q v g') ->
  up g (shared (read_mark_value k)) Q.
Proof.
  intros Hk H. apply up_shared. intros b C gs w base log Hi Hl Hd.
  destruct (on_value gs (w_shared w) k Hl Hk b) as (x & Hf & Hget & Hx).
  destruct (H C gs w base log (get_value x) Hi Hl Hd) as (g' & Ha & HI & HQ); [|done|].
  { unfold slot_value. by rewrite Hget. }
  exists (get_value x), (w_shared w), C, g'. rewrite Hf, (set_lock_same (ReadLock k)) by done.
  split_and!; [done..| |done]. by destruct w.
Qed.

(** ** Ghost steps *)
Lemma ghost_step C base log w gs g g' :
  locks_ok gs (w_shared w) -> data_ok base log w C gs -> gs !! i = Some g ->
  (forall k, holds_shared k g' = holds_shared k g /\ holds_excl k g' = holds_excl k g) ->
  status_ok base log w g' -> below g' g' ->
  (forall j h, j <> i -> gs !! j = Some h -> below g' h /\ below h g') ->
  wal_inv C (<[i := g']> gs) w.
Proof.
  intros Hl Hd Hi Hh Hst Hs Hb. split; [by eapply locks_same|]. exists base, log.
  eapply (data_step C C base log w); [done..|apply Hd|done| |done|done]. by intros.
Qed.
End Steps.

(** The same for the next action of a program on the shared state. *)
Ltac shared_with lem := apply up_bind_shared; eapply upholds_mono; [lem|cbv beta].
