(* ===== verification/WalActions.v ===== *)
(** * Data actions that keep the invariant of the shared log

    What a writer, a checkpointer and a restart of the log do to the metadata,
    the frame index and the two files, and the pins and phases that change with
    them. *)
From stdpp Require Import gmap relations sorting.
From S2P Require Import Prelude Errors OnDisk WalFormat WalLock WalShared.
From S2P Require Import WalRecovery WalIndex Threads WalCoordination WalConnection WalInvariant WalSteps.

Section Actions.
Context {Data : Type} (page_sz : Z) (i : nat).
#[local] Abbreviation status := (status (Data := Data)).
#[local] Abbreviation world := (world (Data := Data)).
#[local] Abbreviation wal_inv := (wal_inv (Data := Data) page_sz).
#[local] Abbreviation data_ok := (data_ok (Data := Data) page_sz).
#[local] Abbreviation global_ok := (global_ok (Data := Data) page_sz).
Context {M : Moves (Data := Data)}.
#[local] Abbreviation up := (upholds wal_inv allowed i).
#[local] Abbreviation mx w := (md_max_frame (metadata (w_shared w))).
#[local] Abbreviation nb w := (md_nbackfills (metadata (w_shared w))).
Implicit Types (C : Z -> Data) (g h : status) (w : world) (gs : list status) (base : Z -> Data).

(** ** The others *)
Lemma other_no_write gs s j g h :
  locks_ok gs s -> gs !! i = Some g -> gs !! j = Some h -> j <> i -> st_wr g = true -> st_wr h = false.
Proof.
  intros Hl Hi Hj Hne Hg. apply not_true_is_false. intros Hh. apply Hne. symmetry.
  by apply (excl_excl gs s WriteLock i j g h).
Qed.

Lemma other_no_ckpt gs s j g h :
  locks_ok gs s -> gs !! i = Some g -> gs !! j = Some h -> j <> i -> st_ck g = true -> st_ck h = false.
Proof.
  intros Hl Hi Hj Hne Hg. apply not_true_is_false. intros Hh. apply Hne. symmetry.
  by apply (excl_excl gs s CheckpointLock i j g h).
Qed.

Lemma other_no_slot gs s j g h k :
  locks_ok gs s -> gs !! i = Some g -> gs !! j = Some h -> 0 <= k < 5 -> k ∈ st_ex g ->
  fst <$> st_rd h <> Some k /\ (j <> i -> k ∉ st_ex h).
Proof.
  intros Hl Hi Hj Hk Hg. assert (holds_excl (ReadLock k) g = true) as Hx by (by apply bool_decide_eq_true_2).
  split; [apply holds_shared_slot; by apply (excl_shared gs s (ReadLock k) i j g h)|]. intros Hne Hh. apply Hne. symmetry.
  apply (excl_excl gs s (ReadLock k) i j g h); try done. by apply bool_decide_eq_true_2.
Qed.

(** A status without the write lock only sees the committed log. *)
Lemma status_ok_written base log w base' log' w' h :
  st_wr h = false -> (forall k, slot_value k (w_shared w') = slot_value k (w_shared w)) ->
  nb w' = nb w -> mx w <= mx w' -> (forall p, w_db w' p = w_db w p) ->
  (forall n p, n <= mx w -> asof base' (w_frames w') n p = asof base (w_frames w) n p) ->
  (forall n, n <= mx w -> zget log' (n - 1) = zget log (n - 1)) ->
  status_ok base log w h -> status_ok base' log' w' h.
Proof.
  intros Hwr Hs Enb Hmx Edb Hc Hlog [Hrd Hpin Hver Hini Hnew Hph].
  assert (st_ver h = false) as Ever.
  { apply not_true_is_false. intros Hv. destruct (Hver Hv) as [? _]. congruence. }
  constructor.
  - intros k v. rewrite Hs. apply Hrd.
  - intros pi Hpi. destruct (Hpin pi Hpi) as [P1 P2 P3 P4 P5]. specialize (P3 Ever). constructor; [done|lia|lia| |].
    + intros p. destruct (P4 p) as (k & Hk & E). exists k. rewrite Edb, Hc by lia. split; [lia|done].
    + intros p. rewrite Hc by lia. apply P5.
  - congruence.
  - intros Hn. destruct (Hini Hn). congruence.
  - intros pi j x Hpi Hj. destruct (Hnew pi j x Hpi Hj). congruence.
  - unfold phase_ok in *. destruct (st_ph h) as [|b k safe|b k safe mark|b safe todo|]; [done|..]; rewrite ?Enb.
    + destruct_and!. split_and!; auto; lia.
    + destruct_and!. split_and!; auto; lia.
    + destruct Hph as (? & ? & ? & Hsafe & Htodo & Hall). split_and!; auto; [lia| |].
      * intros p n Hp. destruct (Htodo p n Hp) as (Hr & Hg & Hlast). split_and!; [lia..| |].
        -- rewrite Hlog by lia. done.
        -- intros n' Hn'. rewrite Hlog by lia. by apply Hlast.
      * intros n p Hn. rewrite Hlog, Edb, Hc by lia. apply Hall. lia.
    + destruct_and!. congruence.
Qed.

Definition same_locks (s s' : WalFileShared) : Prop :=
  rt_read_locks (runtime s') = rt_read_locks (runtime s) /\ rt_vacuum_lock (runtime s') = rt_vacuum_lock (runtime s) /\
  rt_write_lock (runtime s') = rt_write_lock (runtime s) /\
  rt_checkpoint_lock (runtime s') = rt_checkpoint_lock (runtime s).

Lemma same_locks_slots s s' k : same_locks s s' -> slot_value k s' = slot_value k s.
Proof. intros (E & _). unfold slot_value. simpl. by rewrite E. Qed.

(** An action of the holder of the write lock. *)
Lemma writer_step C C' base log w gs g base' log' w' g' :
  locks_ok gs (w_shared w) -> data_ok base log w C gs -> gs !! i = Some g -> st_wr g = true ->
  same_locks (w_shared w) (w_shared w') -> nb w' = nb w -> mx w <= mx w' -> (forall p, w_db w' p = w_db w p) ->
  (forall n p, n <= mx w -> asof base' (w_frames w') n p = asof base (w_frames w) n p) ->
  (forall n, n <= mx w -> zget log' (n - 1) = zget log (n - 1)) ->
  (forall k, holds_shared k g' = holds_shared k g /\ holds_excl k g' = holds_excl k g) ->
  (st_ph g' = PhNone \/ st_ph g' = PhAll) -> global_ok base' log' w' C' -> status_ok base' log' w' g' ->
  (forall pi, st_pin g' = Some pi -> mx w' <= pn_max pi) ->
  wal_inv C' (<[i := g']> gs) w'.
Proof.
  intros Hl Hd Hi Hwr Hlk Enb Hmx Edb Hc Hlog Hh Hph Hgl Hst Hend. pose proof Hlk as (L1 & L2 & L3 & L4).
  assert (forall j h, j <> i -> gs !! j = Some h -> status_ok base' log' w' h) as Hoth.
  { intros j h Hj Hh'. eapply (status_ok_written base log w); try done; [by eapply other_no_write| |].
    - intros k. by apply same_locks_slots.
    - by apply (do_status _ _ _ _ _ _ Hd j). }
  assert (forall h, below g' h) as Hb by (intros h pi _; destruct Hph as [-> | ->]; done).
  split; [by eapply locks_same|]. exists base', log'. eapply (data_step _ _ C _ base log w); [done..| |done|].
  - intros j h Hj Hh' _. by eapply Hoth.
  - intros j h Hj Hh'. split; [done|]. eapply below_end; [|done]. by apply so_ph, (Hoth j).
Qed.

Lemma protected_mono g n m : protected g n -> n <= m -> protected g m.
Proof. intros [(k & v & Hk & Hv)|H] Hm; [left|by right]. exists k, v. split; [done|lia]. Qed.

Lemma protected_same g g' n :
  st_rd g' = st_rd g -> st_ex g' = st_ex g -> st_wr g' = st_wr g -> st_ph g' = st_ph g ->
  protected g n -> protected g' n.
Proof. unfold protected. by intros -> -> -> ->. Qed.

(** Frames above the end of the log do not change the contents. *)
Lemma asof_insert_above base (frames : gmap Z (Z * Data)) m x n p :
  n < m -> asof base (<[m := x]> frames) n p = asof base frames n p.
Proof.
  intros Hm. destruct (decide (0 <= n)).
  - apply asof_ext; [done|]. intros k Hk. apply lookup_insert_ne. lia.
  - unfold asof. by replace (Z.to_nat n) with O by lia.
Qed.

Lemma asof_nonpos base (frames : gmap Z (Z * Data)) n p : n <= 0 -> asof base frames n p = base p.
Proof. intros Hn. unfold asof. by replace (Z.to_nat n) with O by lia. Qed.

Lemma phase_none base log w g : st_ph g = PhNone -> phase_ok base log w g.
Proof. unfold phase_ok. by intros ->. Qed.

Lemma frames_agree_ext log w log' w' n :
  (forall m, 1 <= m <= n -> zget log' (m - 1) = zget log (m - 1)) ->
  (forall m, 1 <= m <= n -> w_frames w' !! m = w_frames w !! m) ->
  frames_agree (Data := Data) log w n -> frames_agree log' w' n.
Proof.
  intros Hl Hf H m Hm. destruct (H m Hm) as (p & d & Hp & Hd). exists p, d. by rewrite Hl, Hf.
Qed.

Section Writer.
Context (g : status) (pi : pin (Data := Data)).
Context (Hwr : st_wr g = true) (Hver : st_ver g = true) (Hpi : st_pin g = Some pi) (Hph : st_ph g = PhNone).

Lemma writer_info C base log w gs :
  data_ok base log w C gs -> gs !! i = Some g ->
  mx w <= pn_max pi <= zlen log /\ pn_max pi < 2 ^ 32 - 1 /\ frames_agree log w (pn_max pi) /\
  (md_initialized (metadata (w_shared w)) = false -> pn_max pi = 0) /\ protected g (mx w) /\
  mx w = pn_base pi /\ md_transaction_count (metadata (w_shared w)) = pn_count pi /\
  (forall p, asof base (w_frames w) (mx w) p = pn_from pi p) /\ pin_ok base w g pi.
Proof.
  intros Hd Hi. pose proof (do_status _ _ _ _ _ _ Hd i g Hi) as Hst.
  destruct (so_ver _ _ _ _ Hst Hver) as (_ & pi' & Hpi' & H). rewrite Hpi in Hpi'. injection Hpi' as <-.
  destruct_and!. split_and!; try done. by apply Hst.
Qed.

Lemma up_write_frame n page d :
  n = pn_max pi + 1 + zlen (st_new g) ->
  up g (write_frame n page d) (fun _ h => h = with_new (st_new g ++ [(page, d)]) g).
Proof.
  intros Hn b C gs w Hi [Hl (base & log & Hd)].
  set (w' := mkWorld (w_shared w) (<[n := (page, d)]> (w_frames w)) (w_db w)).
  set (g' := with_new (st_new g ++ [(page, d)]) g). left. exists (), w', C, g'. split_and!; [done|by apply rtc_once, allowed_quiet| |done].
  pose proof Hd as [Hgl Hst _]. destruct (Hst i g Hi) as [Hrd Hpin Hv Hini Hnew _].
  destruct (writer_info C base log w gs Hd Hi) as (Hrange & Hcap & Hag & Hin & Hpr & Hmx & Hcnt & Hfrom & [P1 P2 P3 P4 P5]).
  pose proof (zlen_nonneg (st_new g)).
  assert (forall m q, m <= pn_max pi -> asof base (w_frames w') m q = asof base (w_frames w) m q) as Hc.
  { intros m q Hm. apply asof_insert_above. lia. }
  assert (forall m, frames_agree log w m -> m <= pn_max pi -> frames_agree log w' m) as Hfr.
  { intros m Hf Hm k Hk. destruct (Hf k Hk) as (q & e & Hq & He). exists q, e. split; [done|].
    simpl. rewrite lookup_insert_ne by lia. done. }
  eapply (writer_step C C base log w _ g base log w' g'); try done.
  - intros m q Hm. apply Hc. lia.
  - by left.
  - destruct Hgl as [G1 G2 G3 G4 G5 G6 G7 G8 G9]. constructor; try done; [apply Hfr; [done|simpl; lia]| |intros p; rewrite Hc by (simpl; lia); apply G9].
    intros p. destruct (G4 p) as (k & Hk & E). exists k. split; [done|]. rewrite Hc by (simpl in *; lia). done.
  - constructor; try done.
    + intros pi' Hp. change (st_pin g') with (st_pin g) in Hp. rewrite Hpi in Hp. injection Hp as <-.
      constructor; try done.
      * intros p. destruct (P4 p) as (k & Hk & E). exists k. split; [done|]. by rewrite Hc by lia.
      * intros p. by rewrite Hc by lia.
    + intros _. split; [done|]. exists pi. simpl. split_and!; try done; try lia; [by apply Hfr|].
      intros q. rewrite Hc by lia. apply Hfrom.
    + intros pi' j x Hp Hj. change (st_pin g') with (st_pin g) in Hp. rewrite Hpi in Hp. injection Hp as <-.
      split; [done|]. simpl. apply lookup_app_Some in Hj as [Hj|[Hle Hj]].
      * rewrite lookup_insert_ne; [by apply (Hnew pi j x)|]. apply lookup_lt_Some in Hj. unfold zlen in Hn. lia.
      * destruct (j - length (st_new g))%nat eqn:E; [|done]. injection Hj as <-.
        replace (pn_max pi + 1 + Z.of_nat j) with n by (unfold zlen in Hn; lia). apply lookup_insert_eq.
    + by apply phase_none.
  - intros pi' Hp. change (st_pin g') with (st_pin g) in Hp. rewrite Hpi in Hp. injection Hp as <-. simpl. lia.
Qed.

Definition pin_append (page : Z) (d : Data) (pi : pin (Data := Data)) : pin :=
  mkPin (pn_min pi) (pn_max pi + 1) (pn_base pi) (pn_count pi) (pn_from pi)
    (fun p => if page =? p then d else pn_view pi p).

Lemma up_cache_frame n page d new :
  may_turn -> n = pn_max pi + 1 -> n < 2 ^ 32 - 1 -> st_ini g = HdWritten -> st_new g = (page, d) :: new ->
  up g (shared (stores (cache_frame page n)))
    (fun _ h => h = with_new new (with_pin (Some (pin_append page d pi)) g)).
Proof.
  intros Hmay Hn Hcap' Hi' Hnew'. apply up_shared. intros b C gs w base log Hi Hl Hd. 
  eexists _, _, C, (with_new new (with_pin (Some (pin_append page d pi)) g)). split; [reflexivity|].
  split; [apply rtc_once, Hmay; unfold txn_of; st_simpl; by rewrite Hpi, Hver|].
  set (w' := put_shared (cache_frame page n (w_shared w)) w).
  set (g' := with_new new (with_pin (Some (pin_append page d pi)) g)). split; [|reflexivity].
  pose proof Hd as [Hgl Hst _]. destruct (Hst i g Hi) as [Hrd Hpin Hv Hini Hnew _].
  destruct (writer_info C base log w gs Hd Hi) as (Hrange & Hcap & Hag & Hin & Hpr & Hmx & Hcnt & Hfrom & [P1 P2 P3 P4 P5]).
  destruct Hgl as [G1 G2 G3 G4 G5 G6 G7 G8 G9]. pose proof (zlen_nonneg log).
  set (log' := ztake (n - 1) log ++ [page]).
  assert (zlen (ztake (n - 1) log) = n - 1) as Hlen by (rewrite zlen_ztake; lia).
  assert (zlen log' = n) as Hlen' by (unfold log'; rewrite zlen_app, Hlen; change (zlen [page]) with 1; lia).
  assert (forall m, m <= n - 1 -> zget log' (m - 1) = zget log (m - 1)) as Hlog.
  { intros m Hm. unfold log'. rewrite zget_app, Hlen, zget_ztake.
    by rewrite (proj2 (Z.ltb_lt (m - 1) (n - 1))) by lia. }
  assert (w_frames w !! n = Some (page, d)) as Hfn.
  { replace n with (pn_max pi + 1 + Z.of_nat 0) by lia. apply (Hnew pi 0%nat); [done|by rewrite Hnew']. }
  assert (md_initialized (metadata (w_shared w)) = true) as Hinit.
  { destruct Hini as [_ Hk]; [congruence|]. rewrite Hi' in Hk. exact Hk. }
  eapply (writer_step C C base log w _ g base log' w' g'); try done.
  - intros m Hm. apply Hlog. lia.
  - by left.
  - constructor; try done; [by apply cache_frame_indexes; [|lia]|simpl; lia|].
    eapply frames_agree_ext; [| |exact G3]; [|done]. intros m Hm. apply Hlog. simpl in *. lia.
  - assert (pin_ok base w' g' (pin_append page d pi)) as Hpok.
    { constructor; st_simpl; [|exact P2|intros E; by pose proof (eq_trans (eq_sym E) Hver)| |].
      - eapply protected_same; [done..|]. eapply protected_mono; [exact Hpr|]. simpl. lia.
      - intros p. destruct (G4 p) as (k & Hk & E). exists k. split; [simpl in *; lia|done].
      - intros p. simpl. rewrite asof_succ by lia. rewrite <- Hn, Hfn. by rewrite P5. }
    constructor; try done; [by intros ? [= <-]| | |by apply phase_none].
    + intros _. split; [done|]. exists (pin_append page d pi). simpl. split_and!; try done; try lia.
      * rewrite <- Hn. intros m Hm. destruct (decide (m = n)) as [->|Hne].
        -- exists page, d. split; [|done]. unfold log'. rewrite zget_app, Hlen, Z.ltb_irrefl. by rewrite Z.sub_diag.
        -- rewrite Hlog by lia. apply Hag. lia.
      * intros E. congruence.
    + intros ? j x [= <-] Hj. split; [done|]. simpl.
      replace (pn_max pi + 1 + 1 + Z.of_nat j) with (pn_max pi + 1 + Z.of_nat (S j)) by lia.
      apply (Hnew pi); [done|]. rewrite Hnew'. exact Hj.
  - intros ? [= <-]. simpl. lia.
Qed.

(** The end of a write transaction: the pin is at the end of the log. *)
Definition closed (p : pin) (g : status) : status :=
  with_ver false (with_ini HdUnknown (with_new [] (with_pin (Some p) g))).

Lemma up_publish c n (h := closed (mkPin (pn_min pi) (pn_max pi) (pn_max pi) n (pn_view pi) (pn_view pi)) g) :
  (forall C, (forall p, pn_from pi p = C p) -> allowed (C, g) (pn_view pi, h)) -> st_new g = [] ->
  up g (shared (publish_commit (mkCommit (pn_max pi) c n))) (fun _ h' => h' = h).
Proof.
  intros Hmay Hnil. apply up_shared. intros b C gs w base log Hi Hl Hd.
  destruct (writer_info C base log w gs Hd Hi) as (Hrange & Hcap & Hag & Hin & Hpr & Hmx & Hcnt & Hfrom & [P1 P2 P3 P4 P5]).
  pose proof (do_committed _ _ _ _ _ (do_global _ _ _ _ _ _ Hd)) as HC.
  eexists _, _, (pn_view pi), h. split; [reflexivity|].
  split; [apply rtc_once, Hmay; intros p; by rewrite <- Hfrom|]. split; [|reflexivity]. match goal with |- WalInvariant.wal_inv _ _ (<[_ := ?x]> _) (put_shared ?y _) =>
    set (g' := x); set (w' := put_shared y w) end.
  pose proof Hd as [[G1 G2 G3 G4 G5 G6 G7 G8 G9] Hst _]. destruct (Hst i g Hi) as [Hrd _ _ _ _ _].
  assert (db_within base w' (pn_max pi)) as Hdb by exact P4.
  eapply (writer_step C (pn_view pi) base log w _ g base log w' g'); try done.
  - simpl. lia.
  - by left.
  - constructor; try done. simpl. lia.
  - constructor; try done; [|by apply phase_none]. intros ? [= <-]. constructor; by st_simpl.
  - by intros ? [= <-].
Qed.

Lemma up_rollback_cache m :
  may_change -> m = pn_base pi ->
  up g (shared (stores (rollback_cache m)))
    (fun _ h => exists view, h = closed (mkPin (pn_min pi) m m (pn_count pi) view view) g).
Proof.
  intros Hmay ->. apply up_shared. intros b C gs w base log Hi Hl Hd.
  set (g' := closed (mkPin (pn_min pi) (pn_base pi) (pn_base pi) (pn_count pi)
    (asof base (w_frames w) (mx w)) (asof base (w_frames w) (mx w))) g).
  exists (), (rollback_cache (pn_base pi) (w_shared w)), C, g'. split; [done|]. pose proof (do_committed _ _ _ _ _ (do_global _ _ _ _ _ _ Hd)) as HC.
  split; [apply rtc_once, Hmay|]. split; [|by eexists].
  set (w' := put_shared (rollback_cache (pn_base pi) (w_shared w)) w).
  destruct (writer_info C base log w gs Hd Hi) as (Hrange & Hcap & Hag & Hin & Hpr & Hmx & Hcnt & Hfrom & [P1 P2 P3 P4 P5]).
  pose proof Hd as [[G1 G2 G3 G4 G5 G6 G7 G8 G9] Hst _]. destruct (Hst i g Hi) as [Hrd _ _ _ _ _].
  assert (metadata (w_shared w') = metadata (w_shared w)) as Em.
  { simpl. unfold rollback_cache. by destruct (_ <? _). }
  assert (same_locks (w_shared w) (w_shared w')) as Hlk.
  { unfold same_locks. simpl. unfold rollback_cache. by destruct (_ <? _). }
  assert (forall n, n <= mx w -> zget (ztake (pn_base pi) log) (n - 1) = zget log (n - 1)) as Hlog.
  { intros n Hn. rewrite zget_ztake. by rewrite (proj2 (Z.ltb_lt _ _)) by lia. }
  eapply (writer_step C C base log w _ g base (ztake (pn_base pi) log) w' g'); rewrite ?Em; try done.
  - by left.
  - constructor; rewrite ?Em; try done.
    + apply rollback_cache_indexes; [done|lia].
    + rewrite zlen_ztake. lia.
    + eapply frames_agree_ext; [| |exact G3]; [|done]. intros n Hn. apply Hlog. lia.
    + unfold db_within. by rewrite Em.
  - constructor; try done; [intros k v Hk; rewrite (same_locks_slots _ _ k Hlk); by apply Hrd| |by apply phase_none].
    intros ? [= <-]. constructor; st_simpl; rewrite ?Em; try done.
    + rewrite <- Hmx. by eapply protected_same; [done..|].
    + lia.
    + rewrite <- Hmx. unfold db_within. by rewrite Em.
    + rewrite <- Hmx. done.
  - intros ? [= <-]. simpl. lia.
Qed.
End Writer.

(** ** The header of the log file *)
Lemma prepare_wal_header_total (hb : bool) hdr page_size r1 r2 :
  exists x, prepare_wal_header hb hdr page_size r1 r2 = Ok x /\
    wh_page_size x = if wh_page_size hdr =? 0 then page_size else wh_page_size hdr.
Proof.
  unfold prepare_wal_header.
  set (hdr' := mkWalHeader (native_magic hb) _ _ _ _ _ _ _). change (WAL_HEADER_SIZE - 8) with 24.
  rewrite header_in_memory. cbn [or_panic mbind res_bind]. unfold checksum_wal, assert_that.
  rewrite (proj2 (Z.eqb_eq (zlen _ mod 8) 0)) by (cbn [concat]; rewrite !zlen_app, !zlen_to_ne; done).
  cbn [mbind res_bind]. by eexists.
Qed.

Section Header.
Context (g : status) (Hwr : st_wr g = true) (Hph : st_ph g = PhNone \/ st_ph g = PhAll).

(** A change of the header fields of the metadata. *)
Lemma header_step C base log w gs s' hd :
  locks_ok gs (w_shared w) -> data_ok base log w C gs -> gs !! i = Some g ->
  same_locks (w_shared w) s' -> rt_frame_cache (runtime s') = rt_frame_cache (runtime (w_shared w)) ->
  rt_frame_cache_high_water (runtime s') = rt_frame_cache_high_water (runtime (w_shared w)) ->
  md_max_frame (metadata s') = mx w -> md_nbackfills (metadata s') = nb w ->
  md_transaction_count (metadata s') = md_transaction_count (metadata (w_shared w)) ->
  md_enabled (metadata s') = true ->
  (md_initialized (metadata s') = false -> md_initialized (metadata (w_shared w)) = false) ->
  (wh_page_size (md_wal_header (metadata s')) = page_sz \/ md_initialized (metadata s') = false /\
     wh_page_size (md_wal_header (metadata s')) = wh_page_size (md_wal_header (metadata (w_shared w)))) ->
  header_known (put_shared s' w) hd ->
  (forall pi, st_pin g = Some pi -> st_ver g = true) ->
  wal_inv C (<[i := with_ini hd g]> gs) (put_shared s' w).
Proof.
  intros Hl Hd Hi Hlk Ec Eh Emx Enb Ecnt Een Hin Hsz Hhd Hpin.
  pose proof Hd as [[G1 G2 G3 G4 G5 G6 G7 G8 G9] Hst _]. pose proof (Hst i g Hi) as [Hrd Hp Hv Hini Hnew Hphok].
  set (w' := put_shared s' w). set (g' := with_ini hd g).
  eapply (writer_step C C base log w _ g base log w' g'); try done; simpl; rewrite ?Emx, ?Enb; try done.
  - constructor; unfold indexes, frames_agree, db_within; simpl; rewrite ?Ec, ?Eh, ?Emx, ?Enb; auto.
    + destruct Hsz as [?|[_ ->]]; auto.
    + destruct Hsz as [?|[? _]]; [auto|congruence].
  - constructor; try done.
    + intros k v. unfold w'. simpl. rewrite (same_locks_slots _ _ k Hlk). apply Hrd.
    + intros pi Hpi. destruct (Hp pi Hpi) as [P1 P2 P3 P4 P5].
      constructor; unfold db_within; simpl; rewrite ?Emx, ?Enb; done.
    + intros Hver. destruct (Hv Hver) as (_ & pi & Hpi & ? & ? & ? & ? & ? & ? & Hfrom & ?). split; [done|]. exists pi.
      unfold frames_agree. simpl. rewrite ?Emx, ?Enb, ?Ecnt. split_and!; auto; lia.
    + unfold phase_ok in *. change (st_ph g') with (st_ph g). destruct Hph as [E|E]; rewrite E in *; [done|].
      simpl. rewrite Emx. done.
  - intros pi Hpi. destruct (Hv (Hpin pi Hpi)) as (_ & pi' & Hpi' & ? & _). change (st_pin g') with (st_pin g) in Hpi.
    rewrite Hpi in Hpi'. injection Hpi' as <-. lia.
Qed.

Context (Hpv : forall pi, st_pin g = Some pi -> st_ver g = true).

Lemma header_of C gs w base log :
  data_ok base log w C gs -> gs !! i = Some g -> st_ini g <> HdUnknown -> header_known w (st_ini g).
Proof. intros Hd Hi Hn. apply (so_ini _ _ _ _ (do_status _ _ _ _ _ _ Hd i g Hi) Hn). Qed.

Lemma up_load_initialized :
  up g (shared (loads (fun s => md_initialized (metadata s))))
    (fun b h => h = with_ini (if b : bool then HdWritten else HdMissing) g /\
       forall pi, st_pin g = Some pi -> b = false -> pn_max pi = 0).
Proof.
  apply up_loads. intros C gs w base log Hi Hl Hd. eexists. split; [|split; [|split; [reflexivity|]]];
    [by apply rtc_once, allowed_quiet| |].
  2: { intros pi Hpi. by apply (writer_info g pi (Hpv pi Hpi) Hpi C base log w gs Hd Hi). }
  pose proof Hd as [[_ _ _ _ _ G6 G7 G8 G9] _ _].
  assert (put_shared (w_shared w) w = w) as Ew by (by destruct w). rewrite <- Ew at 2.
  eapply header_step; try done; [destruct (md_initialized _) eqn:E; [auto|by right]|].
  destruct (md_initialized _) eqn:E; exact E.
Qed.

Lemma up_header hb rand_1 rand_2 :
  page_sz <> 0 -> st_ini g = HdMissing ->
  up g (shared (action (fun _ s =>
      if md_initialized (metadata s) then Ok (None, s)
      else
        h ← prepare_wal_header hb (md_wal_header (metadata s)) page_sz rand_1 rand_2;
        Ok (Some h, set_last_checksum (wh_checksum_1 h, wh_checksum_2 h) (set_wal_header h s)))))
    (fun r h => exists x, r = Some x /\ h = with_ini HdPrepared g).
Proof.
  intros Hsz Hini. apply up_shared. intros b C gs w base log Hi Hl Hd.
  pose proof (header_of C gs w base log Hd Hi ltac:(congruence)) as Hk. rewrite Hini in Hk. simpl in Hk.
  destruct (prepare_wal_header_total hb (md_wal_header (metadata (w_shared w))) page_sz rand_1 rand_2) as (x & Hx & Epx).
  exists (Some x). eexists _, C, (with_ini HdPrepared g). rewrite Hk, Hx. split; [reflexivity|].
  split; [by apply rtc_once, allowed_quiet|]. split; [|by exists x].
  pose proof Hd as [[_ _ _ _ _ G6 G7 G8 G9] _ _].
  assert (wh_page_size x = page_sz) as Ex by (rewrite Epx; destruct (Z.eqb_spec (wh_page_size (md_wal_header (metadata (w_shared w)))) 0); lia).
  eapply header_step; try done; [by left|]. simpl. split; [done|]. by rewrite Ex.
Qed.

Lemma up_mark_initialized :
  st_ini g = HdPrepared -> up g (shared mark_initialized) (fun _ h => h = with_ini HdWritten g).
Proof.
  intros Hini. apply up_shared. intros b C gs w base log Hi Hl Hd. eexists _, _, C, _. split; [reflexivity|].
  split; [|split; [|reflexivity]]; [by apply rtc_once, allowed_quiet|].
  pose proof (header_of C gs w base log Hd Hi ltac:(congruence)) as Hk. rewrite Hini in Hk. destruct Hk as [_ Hk].
  pose proof Hd as [[_ _ _ _ _ G6 G7 G8 G9] _ _]. eapply header_step; try done. left. simpl. destruct G7; congruence.
Qed.

Lemma up_prepare_truncate : st_ini g = HdMissing -> up g (shared prepare_truncate) (fun _ h => h = g).
Proof.
  intros Hini. apply up_shared. intros b C gs w base log Hi Hl Hd.
  pose proof (header_of C gs w base log Hd Hi ltac:(congruence)) as Hk. rewrite Hini in Hk. simpl in Hk.
  pose proof Hd as [[_ _ _ _ _ G6 G7 G8 G9] _ _]. eexists _, _, C, g. rewrite G6. split; [reflexivity|]. split; [done|]. split; [|done].
  replace g with (with_ini HdMissing g) at 1 by (clear - Hini; destruct g; simpl in *; by subst).
  eapply header_step; try done. by right.
Qed.

Lemma up_truncate_frames :
  st_ini g = HdMissing \/ st_ini g = HdPrepared -> st_new g = [] -> up g truncate_frames (fun _ h => h = g).
Proof.
  intros Hini Hnew b C gs w Hi [Hl (base & log & Hd)]. set (w' := mkWorld (w_shared w) ∅ (w_db w)).
  left. exists (), w', C, g. split_and!; [done..| |done].
  pose proof Hd as [[G1 G2 G3 G4 G5 G6 G7 G8 G9] Hst _]. pose proof (Hst i g Hi) as [Hrd Hp Hv Hin _ Hphok].
  assert (md_initialized (metadata (w_shared w)) = false) as Hk.
  { destruct Hin as [_ Hk]; [destruct Hini; congruence|]. destruct Hini as [E|E]; rewrite E in Hk; [done|apply Hk]. }
  specialize (G5 Hk). assert (forall n, n <= 0 -> frames_agree log w' n) as Hfr by (intros n Hn m Hm; lia).
  assert (forall n p, n <= 0 -> asof base (w_frames w') n p = asof base (w_frames w) n p) as Hc.
  { intros n p Hn. by rewrite !asof_nonpos. }
  assert (forall pi, st_pin g = Some pi -> pn_max pi = 0) as Hpi0.
  { intros pi Hpi. destruct (Hv (Hpv pi Hpi)) as (_ & pi' & E & ? & ? & ? & ? & _). rewrite Hpi in E. injection E as <-. auto. }
  eapply (writer_step C C base log w _ g base log w' g); try done.
  - intros n p Hn. apply Hc. lia.
  - constructor; try done; [apply Hfr; simpl; lia| |intros p; rewrite Hc by (simpl; lia); apply G9]. intros p. destruct (G4 p) as (k & Hk' & E). exists k.
    split; [done|]. rewrite Hc by (simpl in *; lia). done.
  - constructor; try done; [| |by rewrite Hnew|].
    + intros pi Hpi. destruct (Hp pi Hpi) as [P1 P2 P3 P4 P5]. specialize (Hpi0 pi Hpi). constructor; try done.
      * intros p. destruct (P4 p) as (k & Hk' & E). exists k. split; [done|]. by rewrite Hc by lia.
      * intros p. by rewrite Hc by lia.
    + intros Hver. destruct (Hv Hver) as (_ & pi & Hpi & ? & ? & ? & ? & ? & ? & Hfrom & ?). split; [done|]. exists pi.
      split_and!; try done; try (simpl; lia); [apply Hfr; rewrite Hpi0; done|].
      intros q. rewrite Hc by (simpl; lia). apply Hfrom.
    + unfold phase_ok in *. destruct Hph as [E|E]; rewrite E in *; [done|]. destruct Hphok as (? & ? & ? & ? & Hall).
      split_and!; try done. intros p. rewrite Hc by (simpl; lia). apply Hall.
  - intros pi Hpi. rewrite (Hpi0 pi Hpi). simpl. lia.
Qed.
End Header.

(** ** Pins *)
Section Pins.
Context (C base : Z -> Data) (log : list Z) (w : world) (gs : list status) (g : status).
Context (Hl : locks_ok gs (w_shared w)) (Hd : data_ok base log w C gs) (Hi : gs !! i = Some g) (Hph : st_ph g = PhNone).

(** A new pin not before the end of the log, or the old one with another range. *)
Lemma repin_step g' :
  (forall k, holds_shared k g' = holds_shared k g /\ holds_excl k g' = holds_excl k g) ->
  st_ph g' = PhNone -> status_ok base log w g' ->
  (forall pi, st_pin g' = Some pi -> mx w <= pn_max pi \/
     exists pi', st_pin g = Some pi' /\ pn_max pi' = pn_max pi /\ st_rd g' = st_rd g) ->
  wal_inv C (<[i := g']> gs) w.
Proof.
  intros Hh Hph' Hst Hpin. eapply ghost_step; try done; [intros pi _; by rewrite Hph'|].
  intros j h Hj Hh'. split; [intros pi _; by rewrite Hph'|].
  destruct (st_pin g') as [pi|] eqn:Epi; [|by intros pi; rewrite Epi].
  destruct (Hpin pi eq_refl) as [Hmx|(pi' & Hpi' & Emax & Erd)].
  - eapply below_end; [apply so_ph, (do_status _ _ _ _ _ _ Hd j h Hh')|]. intros pi' E. rewrite Epi in E. by injection E as <-.
  - intros pi'' E. rewrite Epi in E. injection E as <-. rewrite <- Emax, Erd.
    by apply (do_below _ _ _ _ _ _ Hd j i h g Hh' Hi pi').
Qed.

Definition pin_end : pin :=
  mkPin (nb w + 1) (mx w) (mx w) (md_transaction_count (metadata (w_shared w)))
    (asof base (w_frames w) (mx w)) (asof base (w_frames w) (mx w)).

Lemma pin_step k v :
  may_begin -> st_rd g = Some (k, v) -> k = 0 \/ v <= mx w -> st_ver g = false -> st_new g = [] -> st_pin g = None ->
  rtc allowed (C, g) (C, with_pin (Some pin_end) g) /\ wal_inv C (<[i := with_pin (Some pin_end) g]> gs) w.
Proof.
  intros Hmay Hrd Hkv Hver Hnew Hnone. pose proof Hd as [[G1 G2 G3 G4 G5 G6 G7 G8 G9] Hst _].
  destruct (Hst i g Hi) as [S1 S2 S3 S4 S5 S6].
  split; [apply rtc_once, (Hmay _ _ _ (pn_view pin_end)); unfold txn_of; st_simpl; rewrite ?Hnone, ?Hver; done|].
  apply repin_step; try done.
  - constructor; st_simpl; try done; [|by rewrite Hver|by rewrite Hnew]. intros ? [= <-].
    constructor; try done; [left; by exists k, v|simpl; lia].
  - intros ? [= <-]. left. unfold pin_end. st_simpl. lia.
Qed.

Lemma verify_step pi :
  may_change -> st_wr g = true -> st_pin g = Some pi -> pn_max pi = mx w -> 
  md_transaction_count (metadata (w_shared w)) = pn_count pi -> st_ver g = false ->
  let g' := with_ver true (with_pin (Some (mkPin (pn_min pi) (mx w) (mx w) (pn_count pi) (pn_view pi) (pn_view pi))) g) in
  rtc allowed (C, g) (C, g') /\ wal_inv C (<[i := g']> gs) w.
Proof.
  intros Hmay Hwr Hpi Hmax Hcnt Hver. pose proof Hd as [[G1 G2 G3 G4 G5 G6 G7 G8 G9] Hst _].
  destruct (Hst i g Hi) as [S1 S2 S3 S4 S5 S6]. destruct (S2 pi Hpi) as [P1 P2 P3 P4 P5]. rewrite Hmax in *.
  split; [apply rtc_once, Hmay|].
  apply repin_step; try done.
  - constructor; st_simpl; try done; [| | |by apply phase_none].
    + intros ? [= <-]. by constructor.
    + intros _. split; [done|]. eexists. split; [done|]. st_simpl. split_and!; try done; lia.
    + intros ? j x [= <-] Hj. split; [done|]. st_simpl. rewrite <- Hmax. by apply (S5 pi).
  - intros ? [= <-]. left. st_simpl. lia.
Qed.

Lemma min_step pi m :
  st_pin g = Some pi -> m - 1 <= nb w ->
  let g' := with_pin (Some (mkPin m (pn_max pi) (pn_base pi) (pn_count pi) (pn_from pi) (pn_view pi))) g in
  rtc allowed (C, g) (C, g') /\ wal_inv C (<[i := g']> gs) w.
Proof.
  intros Hpi Hm. pose proof Hd as [Hgl Hst _].
  destruct (Hst i g Hi) as [S1 S2 S3 S4 S5 S6]. destruct (S2 pi Hpi) as [P1 P2 P3 P4 P5].
  split; [apply rtc_once, allowed_quiet; unfold txn_of; st_simpl; by rewrite Hpi|].
  apply repin_step; try done.
  - constructor; st_simpl; try done; [| |].
    + intros ? [= <-]. by constructor.
    + intros Hv. destruct (S3 Hv) as (Hwr & pi' & Hpi' & H). rewrite Hpi in Hpi'. injection Hpi' as <-.
      split; [done|]. eexists. split; [done|]. st_simpl. exact H.
    + intros ? j x [= <-] Hj. by apply (S5 pi).
  - intros ? [= <-]. right. exists pi. done.
Qed.
End Pins.

(** Frames written and not indexed may be forgotten. *)
Lemma drop_new g : st_ph g = PhNone -> ghost wal_inv allowed i g (fun h => h = with_new [] g).
Proof.
  intros Hph C gs w Hi [Hl (base & log & Hd)]. exists C, (with_new [] g).
  split; [by apply rtc_once, allowed_quiet|]. split; [|done].
  destruct (do_status _ _ _ _ _ _ Hd i g Hi) as [S1 S2 S3 S4 S5 S6].
  eapply repin_step; try done.
  - constructor; try done. intros pi Hpi. by destruct (S2 pi Hpi).
  - intros pi Hpi. right. by exists pi.
Qed.

(** ** Checkpoints *)
Lemma pin_slot base w g pi :
  pin_by_slot g -> st_pin g = Some pi -> pin_ok base w g pi ->
  exists k v, st_rd g = Some (k, v) /\ (k = 0 \/ v <= pn_max pi).
Proof.
  intros [?|[[k v] Hr]] Hpi Hok; [congruence|]. destruct (po_protected _ _ _ _ Hok) as [H|[? _]]; [done|congruence].
Qed.

(** A change of phase. *)
Lemma phase_step C base log w gs g ph :
  locks_ok gs (w_shared w) -> data_ok base log w C gs -> gs !! i = Some g -> pin_by_slot g ->
  phase_ok base log w (with_ph ph g) ->
  (forall j h, gs !! j = Some h -> status_ok base log w h -> below (with_ph ph g) h) ->
  wal_inv C (<[i := with_ph ph g]> gs) w.
Proof.
  intros Hl Hd Hi Hpin Hphok Hb. pose proof Hd as [Hgl Hst Hbe].
  assert (forall h, below h g -> below h (with_ph ph g)) as Hr.
  { intros h H pi Hpi. apply (H pi Hpi). }
  eapply ghost_step; try done.
  - destruct (Hst i g Hi) as [S1 S2 S3 S4 S5 S6]. constructor; try done.
    + intros pi Hpi. destruct (S2 pi Hpi) as [P1 P2 P3 P4 P5]. constructor; try done.
      eapply pin_by_slot_protected; try done. intros E. simpl in Hpi. congruence.
    + intros Hv. destruct (S3 Hv) as (Hwr & pi & Hpi & ? & ? & ? & ? & Hpr & ? & Hfrom & ?). split; [done|]. exists pi.
      split_and!; try done; try lia. eapply pin_by_slot_protected; try done. congruence.
  - intros pi Hpi. by apply (Hb i g); [|apply (Hst i)|].
  - intros j h Hj Hh. split; [apply (Hb j h Hh), (Hst j h Hh)|]. by apply Hr, (Hbe j i).
Qed.

Lemma scan_start C base log w gs g :
  locks_ok gs (w_shared w) -> data_ok base log w C gs -> gs !! i = Some g -> pin_by_slot g ->
  st_ck g = true -> 0 ∈ st_ex g -> wal_inv C (<[i := with_ph (PhScan (nb w) 1 (mx w)) g]> gs) w.
Proof.
  intros Hl Hd Hi Hpin Hck Hex. eapply phase_step; try done.
  - unfold phase_ok. st_simpl. pose proof (do_bounds _ _ _ _ _ (do_global _ _ _ _ _ _ Hd)). split_and!; try done; lia.
  - intros j h Hj Hst pi Hpi k v Hk. simpl. lia.
Qed.

(** Readers in a slot whose mark is [v] are not below [v]. *)
Lemma slot_mark base log w h pi k v :
  status_ok base log w h -> st_pin h = Some pi -> 1 <= k -> st_rd h = Some (k, v) ->
  slot_value k (w_shared w) = Some v /\ v <= pn_max pi.
Proof.
  intros Hst Hpi Hk Hrd. split; [by apply (so_rd _ _ _ _ Hst k v)|].
  destruct (po_protected _ _ _ _ (so_pin _ _ _ _ Hst pi Hpi)) as [(k' & v' & E & H)|[E _]]; [|congruence].
  rewrite Hrd in E. injection E as <- <-. lia.
Qed.

Lemma scan_mark C base log w gs g b k safe mark :
  locks_ok gs (w_shared w) -> data_ok base log w C gs -> gs !! i = Some g -> pin_by_slot g ->
  st_ph g = PhScan b k safe -> 1 <= k -> slot_value k (w_shared w) = Some mark -> 0 <= mark ->
  wal_inv C (<[i := with_ph (if mark <? safe then PhSeen b k safe mark else PhScan b (k + 1) safe) g]> gs) w.
Proof.
  intros Hl Hd Hi Hpin Hph Hk Hm Hm0. pose proof Hd as [Hgl Hst Hbe].
  pose proof (so_ph _ _ _ _ (Hst i g Hi)) as Hok. unfold phase_ok in Hok. rewrite Hph in Hok.
  assert (forall j h pi k' v, gs !! j = Some h -> st_pin h = Some pi -> st_rd h = Some (k', v) ->
    (1 <= k' < k -> safe <= pn_max pi) /\ (k' = k -> mark <= pn_max pi)) as Hall.
  { intros j h pi k' v Hj Hpi Hr. split.
    - intros Hk'. pose proof (Hbe i j g h Hi Hj pi Hpi) as H. rewrite Hph in H. by apply (H k' v).
    - intros ->. destruct (slot_mark _ _ _ _ _ _ _ (Hst j h Hj) Hpi Hk Hr) as [E H]. rewrite Hm in E. by injection E as ->. }
  eapply phase_step; try done.
  - unfold phase_ok. destruct (Z.ltb_spec mark safe); st_simpl; destruct_and!; split_and!; try done; lia.
  - intros j h Hj _ pi Hpi. destruct (Z.ltb_spec mark safe) as [Hlt|Hge]; st_simpl; intros k' v Hr;
      destruct (Hall j h pi k' v Hj Hpi Hr) as [H1 H2]; [split|]; intros Hk'; [auto| |];
      (destruct (decide (k' = k)); [specialize (H2 ltac:(done))|specialize (H1 ltac:(lia))]; lia).
Qed.

Lemma scan_held b k safe mark g :
  st_ph g = PhSeen b k safe mark -> pin_by_slot g ->
  ghost wal_inv allowed i g (fun h => h = with_ph (PhScan b (k + 1) mark) g).
Proof.
  intros Hph Hpin C gs w Hi [Hl (base & log & Hd)]. exists C, (with_ph (PhScan b (k + 1) mark) g).
  split; [by apply rtc_once, allowed_quiet|]. split; [|reflexivity]. pose proof Hd as [Hgl Hst Hbe].
  pose proof (so_ph _ _ _ _ (Hst i g Hi)) as Hok. unfold phase_ok in Hok. rewrite Hph in Hok.
  eapply phase_step; try done.
  - unfold phase_ok. st_simpl. destruct_and!. split_and!; try done; lia.
  - intros j h Hj _ pi Hpi. st_simpl. intros k' v Hr Hk'. pose proof (Hbe i j g h Hi Hj pi Hpi) as H.
    rewrite Hph in H. apply (H k' v Hr). lia.
Qed.

Lemma scan_free b k safe mark g :
  0 <= k < 5 -> st_ph g = PhSeen b k safe mark -> k ∈ st_ex g -> pin_by_slot g ->
  ghost wal_inv allowed i g (fun h => h = with_ph (PhScan b (k + 1) safe) g).
Proof.
  intros Hk Hph Hex Hpin C gs w Hi [Hl (base & log & Hd)]. exists C, (with_ph (PhScan b (k + 1) safe) g).
  split; [by apply rtc_once, allowed_quiet|]. split; [|reflexivity]. pose proof Hd as [Hgl Hst Hbe].
  pose proof (so_ph _ _ _ _ (Hst i g Hi)) as Hok. unfold phase_ok in Hok. rewrite Hph in Hok.
  eapply phase_step; try done.
  - unfold phase_ok. st_simpl. destruct_and!. split_and!; try done; lia.
  - intros j h Hj _ pi Hpi. st_simpl. intros k' v Hr Hk'. pose proof (Hbe i j g h Hi Hj pi Hpi) as H.
    rewrite Hph in H. apply (H k' v Hr). destruct (other_no_slot gs _ j g h k Hl Hi Hj Hk Hex) as [Hne _].
    rewrite Hr in Hne. simpl in Hne. assert (k' <> k) by congruence. lia.
Qed.

Lemma copy_start C base log w gs g b safe safe' todo :
  locks_ok gs (w_shared w) -> data_ok base log w C gs -> gs !! i = Some g -> pin_by_slot g ->
  st_ph g = PhScan b 5 safe -> safe' <= safe -> todo ≡ₚ iter_latest_frames (b + 1) safe' (w_shared w) ->
  wal_inv C (<[i := with_ph (PhCopy b safe' todo) g]> gs) w.
Proof.
  intros Hl Hd Hi Hpin Hph Hs' Htodo. pose proof Hd as [Hgl Hst Hbe].
  pose proof (so_ph _ _ _ _ (Hst i g Hi)) as Hok. unfold phase_ok in Hok. rewrite Hph in Hok.
  destruct Hok as (Hck & Hex & Hnb & Hsafe).
  assert (forall p n, (p, n) ∈ todo <-> rfind (in_range (b + 1) safe') (page_frames p 1 log) = Some n) as Hin.
  { intros p n. rewrite Htodo, (proj2 (iter_latest_frames_spec _ _ _)).
    by rewrite (find_frame_rfind _ _ _ None log) by apply Hgl. }
  eapply phase_step; try done.
  - unfold phase_ok. st_simpl. split_and!; try done; [lia| |].
    + intros p n Hpn. apply Hin in Hpn. pose proof (rfind_latest p log (b + 1) safe') as H. by rewrite Hpn in H.
    + intros n p Hn Hp. left. pose proof (rfind_latest p log (b + 1) safe') as H.
      destruct (rfind _ _) as [m|] eqn:E; [|by destruct (H n ltac:(lia))]. apply list_elem_of_fmap. exists (p, m).
      split; [done|]. by apply Hin.
  - intros j h Hj Hsh pi Hpi. st_simpl.
    destruct (po_protected _ _ _ _ (so_pin _ _ _ _ Hsh pi Hpi)) as [(k & v & Hr & _)|(_ & H0 & _ & Hn)].
    + pose proof (Hbe i j g h Hi Hj pi Hpi) as H. rewrite Hph in H.
      destruct (so_rd _ _ _ _ Hsh k v Hr) as [Hk _]. destruct (other_no_slot gs _ j g h 0 Hl Hi Hj ltac:(lia) Hex) as [Hne _].
      rewrite Hr in Hne. simpl in Hne. assert (k <> 0) by congruence. specialize (H k v Hr ltac:(lia)). lia.
    + destruct (decide (j = i)) as [->|Hne]; [congruence|].
      by destruct (other_no_slot gs _ j g h 0 Hl Hi Hj ltac:(lia) Hex) as [_ []].
Qed.

(** Statuses without the checkpoint lock see the database file only through their pin. *)
Lemma status_ok_backfilled base log w w' h :
  st_ck h = false -> same_locks (w_shared w) (w_shared w') -> nb w <= nb w' -> mx w' = mx w ->
  md_transaction_count (metadata (w_shared w')) = md_transaction_count (metadata (w_shared w)) ->
  md_initialized (metadata (w_shared w')) = md_initialized (metadata (w_shared w)) ->
  md_wal_header (metadata (w_shared w')) = md_wal_header (metadata (w_shared w)) ->
  w_frames w' = w_frames w ->
  (forall pi, st_pin h = Some pi -> db_within base w' (pn_max pi)) ->
  status_ok base log w h -> status_ok base log w' h.
Proof.
  intros Hck Hlk Hnb Emx Ecnt Ein Ehd Efr Hdb [S1 S2 S3 S4 S5 S6]. constructor.
  - intros k v. rewrite (same_locks_slots _ _ k Hlk). apply S1.
  - intros pi Hpi. destruct (S2 pi Hpi) as [P1 P2 P3 P4 P5]. constructor; rewrite ?Emx, ?Efr; auto. lia.
  - intros Hv. destruct (S3 Hv) as (Hwr & pi & Hpi & H). split; [done|]. exists pi.
    unfold frames_agree. by rewrite Emx, Ein, Ecnt, Efr.
  - intros Hn. unfold header_known. rewrite Ein, Ehd. by apply S4.
  - by rewrite Efr.
  - unfold phase_ok in *. destruct (st_ph h); try done; destruct_and!; congruence.
Qed.

Section Copying.
Context (g : status) (b safe : Z).

(** Backfilling to [safe] on behalf of statuses that are not below it. *)
Lemma backfill_step C base log w gs w' g' todo :
  locks_ok gs (w_shared w) -> data_ok base log w C gs -> gs !! i = Some g ->
  st_ph g = PhCopy b safe todo ->
  same_locks (w_shared w) (w_shared w') -> nb w <= nb w' <= mx w -> mx w' = mx w ->
  rt_frame_cache (runtime (w_shared w')) = rt_frame_cache (runtime (w_shared w)) ->
  rt_frame_cache_high_water (runtime (w_shared w')) = rt_frame_cache_high_water (runtime (w_shared w)) ->
  md_transaction_count (metadata (w_shared w')) = md_transaction_count (metadata (w_shared w)) ->
  md_initialized (metadata (w_shared w')) = md_initialized (metadata (w_shared w)) ->
  md_wal_header (metadata (w_shared w')) = md_wal_header (metadata (w_shared w)) ->
  md_enabled (metadata (w_shared w')) = md_enabled (metadata (w_shared w)) ->
  w_frames w' = w_frames w ->
  (forall hi, safe <= hi -> db_within base w hi -> db_within base w' hi) ->
  (st_ph g' = PhNone \/ exists todo', st_ph g' = PhCopy b safe todo') ->
  phase_ok base log w' g' -> g' = with_ph (st_ph g') g -> pin_by_slot g ->
  wal_inv C (<[i := g']> gs) w'.
Proof.
  intros Hl Hd Hi Hph Hlk Hnb Emx Ec Eh Ecnt Ein Ehd Een Efr Hdb Hph' Hok' Eg' Hpin.
  pose proof Hd as [[G1 G2 G3 G4 G5 G6 G7 G8 G9] Hst Hbe]. pose proof Hlk as (L1 & L2 & L3 & L4).
  pose proof (so_ph _ _ _ _ (Hst i g Hi)) as Hok. unfold phase_ok in Hok. rewrite Hph in Hok.
  destruct Hok as (Hck & Hex & Hb & Hsafe & _).
  assert (forall j h pi, gs !! j = Some h -> st_pin h = Some pi -> safe <= pn_max pi) as Hbelow.
  { intros j h pi Hj Hpi. pose proof (Hbe i j g h Hi Hj pi Hpi) as H. by rewrite Hph in H. }
  assert (forall j h pi, gs !! j = Some h -> st_pin h = Some pi -> db_within base w' (pn_max pi)) as Hdb'.
  { intros j h pi Hj Hpi. apply Hdb; [by eapply Hbelow|]. apply (so_pin _ _ _ _ (Hst j h Hj) pi Hpi). }
  split; [rewrite Eg'; by eapply locks_same|]. exists base, log. eapply (data_step _ _ C _ base log w); [done..| | | | |].
  - constructor; unfold indexes, frames_agree; rewrite ?Ec, ?Eh, ?Emx, ?Ein, ?Ehd, ?Een, ?Efr; try done; [lia|].
    apply Hdb; done.
  - destruct (Hst i g Hi) as [S1 S2 S3 S4 S5 S6]. rewrite Eg' in *. set (ph := st_ph g') in *. constructor; st_simpl; try done.
    + intros k v. rewrite (same_locks_slots _ _ k Hlk). apply S1.
    + intros pi Hpi. destruct (S2 pi Hpi) as [P1 P2 P3 P4 P5]. constructor; rewrite ?Emx, ?Efr; try done; [|lia|by eapply Hdb'].
      eapply pin_by_slot_protected; try done. congruence.
    + intros Hv. destruct (S3 Hv) as (Hwr & pi & Hpi & ? & ? & ? & ? & Hpr & ? & Hfrom & ?). split; [done|]. exists pi.
      unfold frames_agree. rewrite Emx, Ein, Ecnt, Efr. split_and!; try done; try lia.
      eapply pin_by_slot_protected; try done. congruence.
    + intros Hn. unfold header_known. rewrite Ein, Ehd. by apply S4.
    + by rewrite Efr.
  - intros j h Hj Hh. eapply status_ok_backfilled; try done; [by eapply other_no_ckpt|lia|]. intros pi. by apply (Hdb' j).
  - intros pi Hpi. rewrite Eg' in Hpi. simpl in Hpi. destruct Hph' as [-> |[todo' ->]]; [done|]. by apply (Hbelow i g).
  - intros j h Hj Hh. split.
    + intros pi Hpi. destruct Hph' as [-> |[todo' ->]]; [done|]. by apply (Hbelow j h).
    + rewrite Eg'. intros pi Hpi. by apply (Hbe j i h g Hh Hi pi).
Qed.

Lemma up_copy_frame page n todo :
  st_ph g = PhCopy b safe ((page, n) :: todo) -> pin_by_slot g ->
  up g (copy_frame page n) (fun _ h => h = with_ph (PhCopy b safe todo) g).
Proof.
  intros Hph Hpin c C gs w Hi [Hl (base & log & Hd)]. pose proof Hd as [[G1 G2 G3 G4 G5 G6 G7 G8 G9] Hst Hbe].
  pose proof (so_ph _ _ _ _ (Hst i g Hi)) as Hok. unfold phase_ok in Hok. rewrite Hph in Hok.
  destruct Hok as (Hck & Hex & Hb & Hsafe & Htodo & Hall).
  pose proof (Htodo page n ltac:(set_solver)) as Hlast. pose proof Hlast as (Hn & _).
  destruct (content_latest base log w (mx w) (b + 1) safe page n G3 Hsafe ltac:(lia) Hlast) as (d & Hd' & Hc).
  left. eexists _, _, C, (with_ph (PhCopy b safe todo) g). unfold copy_frame. simpl. rewrite Hd'. split; [reflexivity|].
  split; [by apply rtc_once, allowed_quiet|]. split; [|reflexivity].
  eapply backfill_step; try done; simpl; [lia| |right; eexists; reflexivity|].
  - intros hi Hhi Hw p. simpl. destruct (Z.eqb_spec p page) as [->|]; [|apply Hw]. exists safe. simpl. split; [lia|done].
  - unfold phase_ok. st_simpl. split_and!; try done.
    + intros p m Hp. apply Htodo. set_solver.
    + intros m p Hm Hp. simpl. destruct (Z.eqb_spec p page) as [->|Hne]; [by right|].
      destruct (Hall m p Hm Hp) as [H|H]; [|by right]. left. set_solver.
Qed.

(** Everything up to [safe] is in the database file. *)
Lemma copied C base log w gs p k :
  data_ok base log w C gs -> gs !! i = Some g -> st_ph g = PhCopy b safe [] ->
  nb w <= k <= safe -> w_db w p = asof base (w_frames w) k p -> w_db w p = asof base (w_frames w) safe p.
Proof.
  intros Hd Hi Hph Hk E. pose proof Hd as [[G1 G2 G3 G4 G5 G6 G7 G8 G9] Hst Hbe].
  pose proof (so_ph _ _ _ _ (Hst i g Hi)) as Hok. unfold phase_ok in Hok. rewrite Hph in Hok.
  destruct Hok as (Hck & Hex & Hb & Hsafe & Htodo & Hall).
  pose proof (rfind_latest p log (b + 1) safe) as H. destruct (rfind _ _) as [n|].
  - destruct H as (Hn & Hp & _). destruct (Hall n p ltac:(lia) Hp); [set_solver|done].
  - rewrite E. symmetry. apply (content_gap base log w (mx w)); [done|lia|lia|]. intros m Hm. apply H. lia.
Qed.

Lemma up_publish_backfill :
  st_ph g = PhCopy b safe [] -> b <= safe -> pin_by_slot g ->
  up g (shared (publish_backfill safe)) (fun _ h => h = with_ph PhNone g).
Proof.
  intros Hph Hlt Hpin. apply up_shared. intros c C gs w base log Hi Hl Hd. eexists _, _, C, (with_ph PhNone g).
  split; [reflexivity|]. split; [by apply rtc_once, allowed_quiet|]. split; [|reflexivity].
  pose proof (so_ph _ _ _ _ (do_status _ _ _ _ _ _ Hd i g Hi)) as Hok. unfold phase_ok in Hok. rewrite Hph in Hok.
  destruct Hok as (Hck & Hex & Hb & Hsafe & _).
  eapply backfill_step; try done; simpl; [lia| |by left].
  intros hi Hhi Hw p. destruct (Hw p) as (k & Hk & E). destruct (decide (k <= safe)) as [Hks|Hks].
  - exists safe. simpl. split; [lia|]. apply (copied C base log w gs p k); try done. lia.
  - exists k. simpl. split; [lia|done].
Qed.

Lemma all_step C base log w gs :
  locks_ok gs (w_shared w) -> data_ok base log w C gs -> gs !! i = Some g -> pin_by_slot g ->
  st_ph g = PhCopy b safe [] -> safe = mx w -> st_wr g = true -> st_ver g = false ->
  wal_inv C (<[i := with_ph PhAll g]> gs) w.
Proof.
  intros Hl Hd Hi Hpin Hph Hs Hwr Hver. pose proof Hd as [[G1 G2 G3 G4 G5 G6 G7 G8 G9] Hst Hbe].
  pose proof (so_ph _ _ _ _ (Hst i g Hi)) as Hok. unfold phase_ok in Hok. rewrite Hph in Hok.
  eapply phase_step; try done. unfold phase_ok. st_simpl. destruct_and!. split_and!; try done.
  intros p. rewrite <- Hs. destruct (G4 p) as (k & Hk & E). eapply copied; try done. lia.
Qed.
End Copying.

(** ** Restarts *)
Lemma set_mark_ok gs s g k v :
  locks_ok gs s -> gs !! i = Some g -> 0 <= k < 5 -> k ∈ st_ex g -> 0 <= v < 2 ^ 32 ->
  exists s', set_mark k v s = Ok s' /\ same_data s s' /\ locks_ok gs s'.
Proof.
  intros Hl Hi Hk Hex Hv. assert (holds_excl (ReadLock k) g = true) as Hx by (by apply bool_decide_eq_true_2).
  destruct (on_set_value gs s i g (ReadLock k) Hl Hi Hk false k v eq_refl Hx Hv) as (s' & Hf & Hsame & _ & _ & Hlk).
  exists s'. unfold set_mark. rewrite Hf. split_and!; [done..|].
  specialize (Hlk g ltac:(done)). by rewrite list_insert_id in Hlk.
Qed.

(** The state a restart leaves. *)
Record restarted (s s' : WalFileShared) : Prop := mkRestarted {
  re_max : md_max_frame (metadata s') = 0;
  re_nb : md_nbackfills (metadata s') = 0;
  re_init : md_initialized (metadata s') = false;
  re_count : md_transaction_count (metadata s') = md_transaction_count (metadata s);
  re_enabled : md_enabled (metadata s') = md_enabled (metadata s);
  re_page_size : wh_page_size (md_wal_header (metadata s')) = wh_page_size (md_wal_header (metadata s));
  re_index : indexes [] s'
}.

Lemma restarted_same s s1 s2 : restarted s s1 -> same_data s1 s2 -> restarted s s2.
Proof. intros [] (E & E1 & E2). constructor; unfold indexes; by rewrite ?E, ?E1, ?E2. Qed.

Lemma restart_wal_header_ok gs s g rand :
  locks_ok gs s -> gs !! i = Some g -> (forall k, 0 <= k < 5 -> k ∈ st_ex g) ->
  exists s', restart_wal_header rand s = Ok s' /\ restarted s s' /\ locks_ok gs s'.
Proof.
  intros Hl Hi Hex. unfold restart_wal_header.
  match goal with |- context [set_mark 0 0 ?x] => set (s0 := x) end.
  assert (locks_ok gs s0) as Hl0.
  { rewrite <- (list_insert_id gs i g Hi). by eapply locks_same. }
  assert (restarted s s0) as Hr0 by (by constructor).
  assert (forall k v s1, 0 <= k < 5 -> 0 <= v < 2 ^ 32 -> locks_ok gs s1 /\ restarted s s1 ->
    exists s2, set_mark k v s1 = Ok s2 /\ locks_ok gs s2 /\ restarted s s2) as Hstep.
  { intros k v s1 Hk Hv [H1 H2]. destruct (set_mark_ok gs s1 g k v H1 Hi Hk (Hex k Hk) Hv) as (s2 & E & Hs & Hl2).
    exists s2. split_and!; [done..|]. by eapply restarted_same. }
  unfold READMARK_NOT_USED.
  destruct (Hstep 0 0 s0) as (s1 & E1 & H1); [lia..|done|]. rewrite E1. cbn [mbind res_bind].
  destruct (Hstep 1 0 s1) as (s2 & E2 & H2); [lia..|done|]. rewrite E2. cbn [mbind res_bind].
  destruct (Hstep 2 0xffffffff s2) as (s3 & E3 & H3); [lia..|done|]. rewrite E3. cbn [mbind res_bind].
  destruct (Hstep 3 0xffffffff s3) as (s4 & E4 & H4); [lia..|done|]. rewrite E4. cbn [mbind res_bind].
  destruct (Hstep 4 0xffffffff s4) as (s5 & E5 & H5 & H6); [lia..|done|]. rewrite E5. by exists s5.
Qed.

(** Who holds every slot and the write lock is alone. *)
Lemma other_idle base log w base' log' w' gs g j h :
  locks_ok gs (w_shared w) -> gs !! i = Some g -> st_wr g = true -> (forall k, 0 <= k < 5 -> k ∈ st_ex g) ->
  j <> i -> gs !! j = Some h -> status_ok base log w h ->
  status_ok base' log' w' h /\ st_pin h = None /\ st_ph h = PhNone.
Proof.
  intros Hl Hi Hwr Hex Hne Hj [S1 S2 S3 S4 S5 S6].
  pose proof (other_no_write gs _ j g h Hl Hi Hj Hne Hwr) as Hw.
  assert (st_rd h = None) as Hrd.
  { destruct (st_rd h) as [[k v]|] eqn:E; [|done]. destruct (S1 k v eq_refl) as [Hk _].
    destruct (other_no_slot gs _ j g h k Hl Hi Hj Hk (Hex k Hk)) as [Hn _]. by rewrite E in Hn. }
  destruct (other_no_slot gs _ j g h 0 Hl Hi Hj ltac:(lia) (Hex 0 ltac:(lia))) as [_ H0]. specialize (H0 Hne).
  assert (st_pin h = None) as Hpin.
  { destruct (st_pin h) as [pi|] eqn:E; [|done].
    destruct (po_protected _ _ _ _ (S2 pi eq_refl)) as [(k & v & Hk & _)|(_ & ? & _)]; [congruence|done]. }
  assert (st_ph h = PhNone) as Hph.
  { unfold phase_ok in S6. destruct (st_ph h); try done; destruct_and!; done. }
  split; [|done]. constructor; rewrite ?Hrd, ?Hpin; try done; [| |by apply phase_none].
  - intros Hv. destruct (S3 Hv) as [? _]. congruence.
  - intros Hn. destruct (S4 Hn) as [? _]. congruence.
Qed.

Lemma restart_step C base log w gs g g' rand :
  locks_ok gs (w_shared w) -> data_ok base log w C gs -> gs !! i = Some g -> st_wr g = true ->
  (forall k, 0 <= k < 5 -> k ∈ st_ex g) ->
  (forall k, holds_shared k g' = holds_shared k g /\ holds_excl k g' = holds_excl k g) ->
  (st_ph g' = PhNone \/ st_ph g' = PhAll) -> (forall p, w_db w p = C p) ->
  (forall s', restarted (w_shared w) s' -> status_ok (w_db w) [] (put_shared s' w) g') ->
  exists s', restart_wal_header rand (w_shared w) = Ok s' /\ restarted (w_shared w) s' /\
    wal_inv C (<[i := g']> gs) (put_shared s' w).
Proof.
  intros Hl Hd Hi Hwr Hex Hh Hph Hdb Hst'.
  destruct (restart_wal_header_ok gs (w_shared w) g rand Hl Hi Hex) as (s' & Hf & Hre & Hl').
  exists s'. split_and!; [done..|]. pose proof Hd as [[G1 G2 G3 G4 G5 G6 G7 G8 G9] Hst Hbe].
  pose proof Hre as [R1 R2 R3 R4 R5 R6 R7].
  split; [by eapply locks_same|]. exists (w_db w), []. eapply (data_step _ _ C _ base log w); [done..| | | | |].
  - constructor; simpl; rewrite ?R1, ?R2, ?R3, ?R5, ?R6; try done.
    + intros m Hm. lia.
    + intros p. exists 0. simpl. rewrite R2. split; [lia|done].
  - by apply Hst'.
  - intros j h Hj Hh' Hsh. by eapply (other_idle base log w).
  - intros pi _. by destruct Hph as [-> | ->].
  - intros j h Hj Hh'. split; [intros pi _; by destruct Hph as [-> | ->]|].
    destruct (other_idle base log w base log w gs g j h Hl Hi Hwr Hex Hj Hh' (Hst j h Hh')) as (_ & _ & E).
    intros pi _. by rewrite E.
Qed.

Definition restart_action (rand : Z) (_ : bool) (s : WalFileShared) : result (res LimboError WalSnapshot * WalFileShared) :=
  s ← restart_wal_header rand s; Ok (Ok (snapshot_of s), s).

(** A writer whose log is backfilled restarts it: its view stays. *)
Lemma up_restart_writer g pi rand :
  st_wr g = true -> st_ver g = true -> st_ph g = PhNone -> st_rd g = None -> st_new g = [] ->
  (forall k, 0 <= k < 5 -> k ∈ st_ex g) -> st_pin g = Some pi -> pn_min pi = pn_max pi + 1 ->
  up g (shared (action (restart_action rand)))
    (fun r h => exists sn, r = Ok sn /\ sn_max_frame sn = 0 /\
       h = with_ini HdUnknown (with_pin (Some (mkPin 0 0 0 (pn_count pi) (pn_from pi) (pn_view pi))) g)).
Proof.
  intros Hwr Hver Hph Hrd Hnew Hex Hpi Hmin. apply up_shared. intros b C gs w base log Hi Hl Hd.
  destruct (writer_info g pi Hver Hpi C base log w gs Hd Hi) as (Hr & _ & _ & _ & _ & _ & Hcnt & Hfrom & [P1 P2 P3 P4 P5]).
  pose proof (do_committed _ _ _ _ _ (do_global _ _ _ _ _ _ Hd)) as HC.
  assert (forall p, w_db w p = pn_view pi p) as Hdb.
  { intros p. destruct (P4 p) as (k & Hk & E). rewrite E, <- P5. f_equal. lia. }
  assert (nb w <= mx w) as Hnb by apply (do_bounds _ _ _ _ _ (do_global _ _ _ _ _ _ Hd)).
  assert (mx w = pn_max pi) as Emx by (destruct (P4 0) as (k & Hk & _); lia).
  destruct (restart_step C base log w gs g (with_ini HdUnknown (with_pin (Some (mkPin 0 0 0 (pn_count pi) (pn_from pi) (pn_view pi))) g)) rand)
    as (s' & Hf & Hre & HI); try done; [by left|intros p; by rewrite Hdb, <- HC, Emx| |].
  - intros s' Hre. pose proof Hre as [R1 R2 R3 R4 R5 R6 R7]. constructor; st_simpl; try done; [by rewrite Hrd| | |by rewrite Hnew|by apply phase_none].
    + intros ? [= <-]. constructor; st_simpl; simpl; rewrite ?R1, ?R2; try done; try lia.
      * right. st_simpl. split_and!; auto. apply Hex. lia.
      * intros p. exists 0. simpl. rewrite R2. split; [lia|done].
    + intros _. split; [done|]. eexists. split; [done|]. st_simpl. simpl. rewrite R1, R4. split_and!; try done; [intros m Hm; lia| |].
      * right. st_simpl. split_and!; auto. apply Hex. lia.
      * intros p. change (w_db w p = pn_from pi p). by rewrite Hdb, <- Hfrom, <- P5, Emx.
  - exists (Ok (snapshot_of s')), s', C, (with_ini HdUnknown (with_pin (Some (mkPin 0 0 0 (pn_count pi) (pn_from pi) (pn_view pi))) g)).
    unfold restart_action. rewrite Hf. split; [done|]. split; [apply rtc_once, allowed_quiet; unfold txn_of; st_simpl; by rewrite Hpi|].
    split; [done|]. exists (snapshot_of s'). split; [done|]. split; [|done]. apply Hre.
Qed.

(** A checkpointer that copied everything restarts the log. *)
Lemma up_restart_all g rand :
  st_ph g = PhAll -> st_new g = [] -> (forall k, 0 <= k < 5 -> k ∈ st_ex g) -> 
  up g (shared (action (restart_action rand)))
    (fun r h => exists sn, r = Ok sn /\ h = with_ini HdMissing g /\ st_pin g = None /\ st_rd g = None).
Proof.
  intros Hph Hnew Hex. apply up_shared. intros b C gs w base log Hi Hl Hd.
  destruct (do_status _ _ _ _ _ _ Hd i g Hi) as [S1 S2 S3 S4 S5 S6].
  pose proof S6 as S6'. unfold phase_ok in S6'. rewrite Hph in S6'. destruct S6' as (Hck & H0 & Hwr & Hver & Hdb).
  assert (st_rd g = None) as Hrd.
  { destruct (st_rd g) as [[k v]|] eqn:E; [|done]. destruct (S1 k v eq_refl) as [Hk _].
    destruct (other_no_slot gs _ i g g k Hl Hi Hi Hk (Hex k Hk)) as [Hn _]. by rewrite E in Hn. }
  assert (st_pin g = None) as Hpin.
  { destruct (st_pin g) as [pi|] eqn:E; [|done].
    destruct (po_protected _ _ _ _ (S2 pi eq_refl)) as [(k & v & Hk & _)|(_ & _ & _ & ?)]; congruence. }
  pose proof (do_committed _ _ _ _ _ (do_global _ _ _ _ _ _ Hd)) as HC.
  destruct (restart_step C base log w gs g (with_ini HdMissing g) rand) as (s' & Hf & Hre & HI); try done;
    [by right|intros p; by rewrite Hdb, HC| |].
  - intros s' Hre. pose proof Hre as [R1 R2 R3 R4 R5 R6 R7]. constructor; st_simpl; rewrite ?Hrd, ?Hpin; try done.
    + by rewrite Hver.
    + unfold phase_ok. st_simpl. rewrite Hph. split_and!; try done. intros p. simpl. rewrite R1. done.
  - exists (Ok (snapshot_of s')), s', C, (with_ini HdMissing g). unfold restart_action. rewrite Hf. split; [done|].
    split; [by apply rtc_once, allowed_quiet|]. split; [done|]. by exists (snapshot_of s').
Qed.
End Actions.
