(* ===== verification/WalPrograms.v ===== *)
(** * The programs of a connection keep the invariant

    Read and write transactions, commit, spill, rollback and checkpoint, each
    from a connection that rests in a state matching its ghost status to such a
    state again.  None of them fails an assertion in any interleaving. *)
From stdpp Require Import gmap relations sorting.
From S2P Require Import Prelude Errors OnDisk WalFormat WalLock WalShared WalRecovery WalIndex.
From S2P Require Import Threads WalCoordination WalConnection WalInvariant WalSteps WalActions.

Section Programs.
Context {Data : Type} (page_sz : Z) (i : nat).
#[local] Abbreviation status := (status (Data := Data)).
#[local] Abbreviation world := (world (Data := Data)).
#[local] Abbreviation wal_inv := (wal_inv (Data := Data) page_sz).
#[local] Abbreviation data_ok := (data_ok (Data := Data) page_sz).
Context {M : Moves (Data := Data)}.
#[local] Abbreviation up := (upholds wal_inv allowed i).
#[local] Abbreviation mx w := (md_max_frame (metadata (w_shared w))).
#[local] Abbreviation nb w := (md_nbackfills (metadata (w_shared w))).
Implicit Types (C : Z -> Data) (g h : status) (w : world) (gs : list status) (base : Z -> Data).


#[local] Arguments upholds : simpl never.

Lemma up_ret {A} (a : A) g (Q : A -> status -> Prop) : Q a g -> up g (Ret a) Q.
Proof. done. Qed.
Lemma up_shared_ret {A} (a : A) g (Q : A -> status -> Prop) : Q a g -> up g (shared (Ret a)) Q.
Proof. done. Qed.

(** ** Read transactions *)

(** The slot a guard holds. *)
Definition guard_slot (k : ReadGuardKind) : option Z :=
  match k with GuardNone => None | DbFile => Some 0 | ReadMark slot => Some slot end.

Definition slots_ok (slots : list Z) : Prop := Forall (fun k => 1 <= k < 5) slots.

Definition mark_ok (max : Z) (r : Z * Z) : Prop := r.1 = -1 \/ 1 <= r.1 < 5 /\ r.2 <= max.

Lemma mark_slots_ok : slots_ok mark_slots.
Proof. repeat constructor; lia. Qed.

(** A read of a mark that changes no status. *)
Lemma up_mark_read k g :
  0 <= k < 5 -> up g (shared (read_mark_value k)) (fun v h => h = g /\ 0 <= v < 2 ^ 32).
Proof.
  intros Hk. apply up_mark_value; [done|]. intros C gs w base log v Hi Hl Hd _ Hv. exists g.
  split_and!; [done| |done|lia|lia]. rewrite list_insert_id by done. split; [done|eauto].
Qed.

Lemma up_best_read_mark max slots g : forall best_idx best_mark,
  0 <= max < 2 ^ 32 -> slots_ok slots -> mark_ok max (best_idx, best_mark) ->
  up g (shared (best_read_mark max slots best_idx best_mark)) (fun r h => h = g /\ mark_ok max r).
Proof.
  intros best_idx best_mark Hmax Hs. revert best_idx best_mark.
  induction Hs as [|k slots Hk _ IH]; intros best_idx best_mark Hb; [done|].
  shared_with ltac:(apply (up_mark_read k); lia). intros v h [-> Hv].
  rewrite (wrap_small 32 max) by done.
  destruct (negb _ && _ && _) eqn:E; [|by apply IH]. apply IH. right. simpl.
  apply andb_true_iff in E as [E _]. apply andb_true_iff in E as [_ E%Z.leb_le]. lia.
Qed.

Lemma up_claim_read_mark max slots g : forall best_idx best_mark,
  0 <= max < 2 ^ 32 -> slots_ok slots -> mark_ok max (best_idx, best_mark) ->
  up g (shared (claim_read_mark max slots best_idx best_mark)) (fun r h => h = g /\ mark_ok max r).
Proof.
  intros best_idx best_mark Hmax Hs Hb. induction Hs as [|k slots Hk _ IH]; [done|].
  shared_with ltac:(apply (up_try_ex_slot page_sz i k); lia). intros [] h Hh; [|subst h; exact IH].
  destruct Hh as (-> & Hne & Hex). rewrite (wrap_small 32 max) by done. cbn [negb].
  shared_with ltac:(apply up_set_mark; [lia|set_solver|lia]). intros _ h ->.
  shared_with ltac:(apply up_unlock_ex_slot; [lia|set_solver]). intros _ h ->. apply up_shared_ret. split; [|right; simpl; lia].
  destruct g. unfold with_ex. st_simpl. f_equal. set_solver.
Qed.

Definition snap_ok (sn : WalSnapshot) : Prop :=
  0 <= sn_nbackfills sn <= sn_max_frame sn /\ sn_max_frame sn < 2 ^ 32 - 1.

Lemma snapshot_ok C base log w gs : data_ok base log w C gs -> snap_ok (snapshot_of (w_shared w)).
Proof. intros Hd. pose proof (do_bounds _ _ _ _ _ (do_global _ _ _ _ _ _ Hd)). unfold snap_ok. simpl. lia. Qed.

Lemma up_snapshot g : up g (shared load_snapshot) (fun sn h => h = g /\ snap_ok sn).
Proof. apply up_loads_only. intros. by eapply snapshot_ok. Qed.

(** A status without transaction, lock or checkpoint of its own. *)
Definition at_rest (g : status) : Prop :=
  st_rd g = None /\ st_pin g = None /\ st_ver g = false /\ st_new g = [] /\ st_ph g = PhNone.

(** [g] with slot [k] and a pin at the snapshot. *)
Definition pinned (sn : WalSnapshot) (k : Z) (g h : status) : Prop :=
  0 <= k < 5 /\ exists v view,
    h = with_pin (Some (mkPin (sn_nbackfills sn + 1) (sn_max_frame sn) (sn_max_frame sn) (sn_transaction_count sn) view view))
          (with_rd (Some (k, v)) g).

(** The check that the snapshot is still current pins it. *)
Lemma up_recheck sn k v g (b : bool) :
  may_begin -> at_rest g -> 0 <= k < 5 -> (b = true -> k = 0 \/ v <= sn_max_frame sn) ->
  up (with_rd (Some (k, v)) g) (shared load_snapshot)
    (fun cur h => if bool_decide (cur = sn) && b then cur = sn /\ pinned sn k g h
       /\ st_rd h = Some (k, v) else h = with_rd (Some (k, v)) g).
Proof.
  intros Hmay (Hrd & Hpin & Hver & Hnew & Hph) Hk Hv. apply up_loads. intros C gs w base log Hi Hl Hd.
  destruct (bool_decide _ && b) eqn:E.
  - apply andb_true_iff in E as [E%bool_decide_eq_true ->]. rewrite <- E in *. eexists.
    destruct (pin_step page_sz i C base log w gs (with_rd (Some (k, v)) g) Hl Hd Hi Hph k v) as [Ha HI]; auto.
    split_and!; [done..| |done]. split; [done|]. by eexists _, _.
  - eexists. split_and!; [done| |done]. rewrite list_insert_id by done. split; [done|eauto].
Qed.

Lemma up_read_own k v g :
  st_rd g = Some (k, v) -> 0 <= k < 5 -> up g (shared (read_mark_value k)) (fun x h => h = g /\ x = v).
Proof.
  intros Hrd Hk. apply up_mark_value; [done|]. intros C gs w base log x Hi Hl Hd Hx _. exists g.
  split_and!; [done| |done|].
  - rewrite list_insert_id by done. split; [done|eauto].
  - pose proof (so_rd _ _ _ _ (do_status _ _ _ _ _ _ Hd i g Hi) k v Hrd) as [_ E]. congruence.
Qed.

Lemma up_pin_read_mark sn g :
  may_begin -> at_rest g -> snap_ok sn ->
  up g (shared (pin_read_mark sn))
    (fun r h => match r with
                | Some guard => exists k, guard_slot guard = Some k /\ pinned sn k g h
                | None => h = g
                end).
Proof.
  intros Hmay Hg Hsn. pose proof Hg as (Hrd & Hpin & Hver & Hnew & Hph).
  assert (0 <= sn_max_frame sn < 2 ^ 32) as Hmax by (destruct Hsn; lia). unfold pin_read_mark.
  shared_with ltac:(apply up_best_read_mark; [done|apply mark_slots_ok|by left]). intros [idx mark] h [-> Hm].
  shared_with ltac:(idtac).
  { instantiate (1 := fun r h => h = g /\ mark_ok (sn_max_frame sn) r).
    destruct (_ || _); [|done]. apply up_claim_read_mark; [done|apply mark_slots_ok|done]. }
  clear idx mark Hm. intros [idx mark] h [-> [Hm|Hm]]; simpl in Hm; [subst idx; done|].
  rewrite (proj2 (Z.eqb_neq idx (-1))) by lia.
  shared_with ltac:(apply up_try_slot; [lia|done|done]). intros [] h Hh; [|by subst h].
  destruct Hh as (v & -> & Hv). cbn [negb].
  shared_with ltac:(apply (up_recheck sn idx v g (v =? mark)); [done|done|lia|]).
  { intros ->%Z.eqb_eq. right. lia. }
  intros cur h Hh. shared_with ltac:(apply (up_read_own idx v); [|lia]).
  { destruct (_ && _); [apply Hh|by subst h]. }
  intros x h' [-> ->]. rewrite orb_comm. destruct (bool_decide_reflect (cur = sn)) as [->|Hne]; cbn [andb] in Hh.
  - rewrite bool_decide_eq_false_2 by tauto. cbn [orb]. destruct (Z.eqb_spec v mark) as [->|Hne]; cbn [negb].
    + destruct Hh as (_ & Hp & _). apply up_bind_shared, up_shared_checks.
      { by rewrite (proj2 (Z.eqb_neq idx 0)) by lia. }
      apply up_shared_ret. by exists idx.
    + subst h. shared_with ltac:(apply (up_unlock_slot page_sz i idx v); [lia|done|done|by left]). intros _ h ->.
      apply up_shared_ret. destruct g. unfold with_rd, with_pin in *. st_simpl. by subst.
  - rewrite bool_decide_eq_true_2 by done. cbn [orb]. subst h.
    shared_with ltac:(apply (up_unlock_slot page_sz i idx v); [lia|done|done|by left]). intros _ h ->.
    apply up_shared_ret. destruct g. unfold with_rd, with_pin in *. st_simpl. by subst.
Qed.

Lemma up_try_begin_read_tx sn g :
  may_begin -> at_rest g -> snap_ok sn ->
  up g (shared (try_begin_read_tx sn))
    (fun r h => match r with
                | Some guard => exists k, guard_slot guard = Some k /\ pinned sn k g h
                | None => h = g
                end).
Proof.
  intros Hmay Hg Hsn. pose proof Hg as (Hrd & Hpin & Hver & Hnew & Hph). unfold try_begin_read_tx.
  apply up_bind_shared, up_shared_checks; [destruct Hsn; apply Z.leb_le; unfold U32_MAX; lia|].
  shared_with ltac:(idtac).
  { instantiate (1 := fun r h => if r : bool then exists v, h = with_rd (Some (0, v)) g else h = g).
    destruct (_ =? _); [|done]. eapply upholds_mono; [apply up_try_slot; [lia|done|done]|].
    intros [] h Hh; [|done]. destruct Hh as (v & -> & _). by exists v. }
  intros [] h Hh; [|subst h; by apply up_pin_read_mark]. destruct Hh as (v & ->).
  shared_with ltac:(apply (up_recheck sn 0 v g true); [done|done|lia|auto]). intros cur h Hh.
  rewrite andb_true_r in Hh. destruct (bool_decide_reflect (cur = sn)) as [->|Hne].
  - rewrite bool_decide_eq_false_2 by tauto. apply up_shared_ret. exists 0. split; [done|apply Hh].
  - rewrite bool_decide_eq_true_2 by done. subst h.
    shared_with ltac:(apply (up_unlock_slot page_sz i 0 v); [lia|done|done|by left]). intros _ h ->.
    apply up_shared_ret. destruct g. unfold with_rd, with_pin in *. st_simpl. by subst.
Qed.

(** ** Connections at rest *)
Definition idle : status := mkStatus false None ∅ false false None false HdUnknown [] PhNone.

Definition in_tx (wr : bool) (k v : Z) (p : pin) (ini : header_state) : status :=
  mkStatus true (Some (k, v)) ∅ wr false (Some p) wr ini [] PhNone.

(** The fields of a connection in a transaction pinned by [p] in slot [k]. *)
Record conn_ok (l : WalFile) (k : Z) (p : pin (Data := Data)) : Prop := mkConnOk {
  co_guard : guard_slot (wc_read_guard l) = Some k;
  co_slot : 0 <= k < 5;
  co_vacuum : wc_vacuum_read_guard l = true;
  co_checkpoint : wc_checkpoint_guard l = None;
  co_max : wc_max_frame l = pn_max p;
  co_min : wc_min_frame l <= pn_min p;
  co_count : wc_transaction_count l = pn_count p
}.

Inductive matches (l : WalFile) : status -> Prop :=
| matches_idle :
    wc_read_guard l = GuardNone -> wc_vacuum_read_guard l = false -> wc_write_lock_held l = false ->
    wc_checkpoint_guard l = None -> matches l idle
| matches_tx wr k v p ini :
    conn_ok l k p -> wc_write_lock_held l = wr -> (wr = false -> ini = HdUnknown) -> matches l (in_tx wr k v p ini).

Lemma up_wal_try_begin_read_tx l :
  may_begin -> matches l idle ->
  up idle (wal_try_begin_read_tx l)
    (fun r h => match r.1 with TryOk _ => matches r.2 h /\ txn_of h <> Idle | _ => r.2 = l /\ h = idle end).
Proof.
  intros Hmay Hm. inversion Hm as [Hgd Hvac Hwr Hck|]; subst. unfold wal_try_begin_read_tx.
  apply upholds_bind, up_checks; [by apply bool_decide_eq_true_2|].
  apply upholds_bind, up_checks; [by rewrite Hvac|].
  bind_with ltac:(by apply up_try_vacuum). intros [] h ->; [|by apply up_ret]. cbn [negb].
  bind_with ltac:(apply up_snapshot). intros sn h [-> Hsn].
  apply upholds_bind, up_checks; [destruct Hsn; apply Z.leb_le; lia|].
  bind_with ltac:(apply up_try_begin_read_tx; [done|done|exact Hsn]). intros [guard|] h Hh.
  - apply up_ret. cbn [fst snd]. destruct Hh as (k & Hk & Hk5 & v & view & ->).
    split; [|done]. refine (matches_tx _ false k v _ _ _ _ _); [|exact Hwr|done]. by constructor.
  - subst h. bind_with ltac:(by apply up_unlock_vacuum). intros _ h ->. by apply up_ret.
Qed.

Lemma up_begin_read_attempts n l :
  may_begin -> matches l idle ->
  up idle (begin_read_attempts n l)
    (fun r h => matches r.2 h /\ match r.1 with Ok _ => txn_of h <> Idle | Err _ => h = idle | Panic => False end).
Proof.
  intros Hmay Hm. induction n as [|n IH]; [done|].
  apply upholds_bind. eapply upholds_mono; [by apply up_wal_try_begin_read_tx|].
  intros [[changed| |] l'] h Hh; simpl in Hh; [by apply up_ret|destruct Hh as [-> ->]; exact IH|].
  destruct Hh as [-> ->]. by apply up_ret.
Qed.

Lemma up_end_read_tx l g :
  may_turn -> matches l g -> wc_write_lock_held l = false ->
  up g (wal_end_read_tx l) (fun l' h => matches l' h /\ h = idle).
Proof.
  intros Hmay Hm Hw. unfold wal_end_read_tx. inversion Hm as [Hgd Hvac Hwr Hck|wr k v p ini Hc Hwr Hini Eg]; subst.
  - rewrite bool_decide_eq_true_2 by done. apply upholds_bind, up_checks; [by rewrite Hvac|]. by apply up_ret.
  - destruct Hc as [C1 C2 C3 C4 C5 C6 C7]. rewrite Hw in *. specialize (Hini eq_refl). subst ini.
    rewrite bool_decide_eq_false_2 by (intros E; by rewrite E in C1).
    apply upholds_bind. eapply (upholds_mono _ _ _ _ (fun _ h => h = with_rd None (with_pin None (in_tx false k v p HdUnknown)))).
    { destruct (wc_read_guard l) as [| |slot]; [done|injection C1 as <-|injection C1 as <-];
        (apply (up_unlock_slot page_sz i _ v); [done..|by right]). }
    intros _ h ->. apply upholds_bind, up_checks; [done|].
    bind_with ltac:(by apply up_unlock_vacuum). intros _ h ->. apply up_ret. split; [by apply matches_idle|done].
Qed.

(** ** Restarts *)
Lemma with_ex_twice (a b : gset Z) g : with_ex a (with_ex b g) = with_ex a g.
Proof. done. Qed.
Lemma with_ex_same (a : gset Z) g : a = st_ex g -> with_ex a g = g.
Proof. intros ->. by destruct g. Qed.

Lemma up_unlock_marks slots g :
  slots_ok slots -> NoDup slots -> (forall k, k ∈ slots -> k ∈ st_ex g) ->
  up g (shared (unlock_marks slots)) (fun _ h => h = with_ex (st_ex g ∖ list_to_set slots) g).
Proof.
  intros Hs. revert g. induction Hs as [|k slots Hk _ IH]; intros g Hnd Hin.
  - apply up_shared_ret. symmetry. apply with_ex_same. set_solver.
  - apply list.NoDup_cons in Hnd as [Hnk Hnd].
    shared_with ltac:(apply (up_unlock_ex_slot page_sz i k); [lia|apply Hin; set_solver]). intros _ h ->.
    eapply upholds_mono; [apply IH; [done|]|].
    + intros k' Hk'. st_simpl. apply elem_of_difference. split; [apply Hin; set_solver|set_solver].
    + intros _ h ->. rewrite with_ex_twice. f_equal. st_simpl. set_solver.
Qed.

Lemma up_lock_marks slots held g :
  slots_ok slots -> slots_ok held -> NoDup held -> (forall k, k ∈ held -> k ∈ st_ex g) ->
  up g (shared (lock_marks slots held))
    (fun r h => h = with_ex (if r : bool then st_ex g ∪ list_to_set slots else st_ex g ∖ list_to_set held) g).
Proof.
  intros Hs. revert held g. induction Hs as [|k slots Hk _ IH]; intros held g Hh Hnd Hin.
  - apply up_shared_ret. symmetry. apply with_ex_same. set_solver.
  - shared_with ltac:(apply (up_try_ex_slot page_sz i k); lia). intros [] h Hh'; cbn [negb].
    + destruct Hh' as (-> & _ & Hex).
      shared_with ltac:(apply up_set_mark; [lia|set_solver|unfold READMARK_NOT_USED; lia]). intros _ h ->.
      eapply upholds_mono; [apply (IH (held ++ [k]))|].
      * apply Forall_app. split; [done|by apply Forall_singleton].
      * apply list.NoDup_app. split_and!; [done| |apply list.NoDup_singleton]. set_solver.
      * st_simpl. intros k' Hk'. apply elem_of_app in Hk' as [Hk'|Hk']; [apply Hin in Hk'; set_solver|set_solver].
      * intros r h ->. rewrite with_ex_twice. f_equal. st_simpl. rewrite list_to_set_app_L.
        destruct r; set_solver.
    + subst h. shared_with ltac:(by apply up_unlock_marks). intros _ h ->. by apply up_shared_ret.
Qed.

Definition all_slots : gset Z := {[0; 1; 2; 3; 4]}.

Lemma all_slots_elem k : 0 <= k < 5 -> k ∈ all_slots.
Proof. intros Hk. unfold all_slots. assert (k = 0 \/ k = 1 \/ k = 2 \/ k = 3 \/ k = 4) by lia. set_solver. Qed.

(** [begin_restart] around the action that restarts the log. *)
Lemma up_begin_restart rand g (Q : WalSnapshot -> status -> Prop) :
  st_ex g = {[0]} ->
  up (with_ex all_slots g) (shared (action (restart_action rand))) (fun r h => exists sn, r = Ok sn /\ Q sn h) ->
  up g (shared (begin_restart rand))
    (fun r h => r = Err Busy /\ h = g \/ exists sn, r = Ok sn /\ Q sn h).
Proof.
  intros Hex Hr. unfold begin_restart.
  shared_with ltac:(apply up_lock_marks; [apply mark_slots_ok|constructor|constructor|set_solver]). intros [] h ->; cbn [negb].
  - replace (st_ex g ∪ list_to_set mark_slots) with all_slots by (rewrite Hex; unfold all_slots; set_solver).
    eapply upholds_mono; [exact Hr|]. intros r h Hh. by right.
  - apply up_shared_ret. left. split; [done|]. apply with_ex_same. rewrite Hex. set_solver.
Qed.

Lemma up_end_restart g (ex : gset Z) :
  (forall k, k ∈ mark_slots -> k ∈ st_ex g) -> ex = st_ex g ∖ list_to_set mark_slots ->
  up g (shared end_restart) (fun _ h => h = with_ex ex g).
Proof.
  intros Hex ->. apply up_unlock_marks; [apply mark_slots_ok| |done]. by apply (bool_decide_unpack _).
Qed.

Lemma up_bump g : up g (shared bump_checkpoint_epoch) (fun _ h => h = g).
Proof.
  apply up_shared. intros b C gs w base log Hi Hl Hd. eexists _, _, C, g. split; [reflexivity|]. split; [done|].
  split; [|done]. eapply lock_step; try done; [by eapply locks_same|by apply status_ok_locks|split; [by left|by right]].
Qed.

Section Restart.
Context (v : Z) (p : pin (Data := Data)) (ini : header_state).

(** What the attempt to restart the log leaves. *)
Definition restart_post (r : res LimboError (option WalSnapshot)) (h : status) : Prop :=
  (r = Ok None \/ r = Err Busy) /\ (exists v', h = in_tx true 0 v' p ini) \/
  exists sn v', r = Ok (Some sn) /\ sn_max_frame sn = 0 /\
    h = in_tx true 0 v' (mkPin 0 0 0 (pn_count p) (pn_from p) (pn_view p)) HdUnknown.

Lemma up_try_restart_log_for_write rand :
  pn_min p = pn_max p + 1 ->
  up (in_tx true 0 v p ini) (shared (try_restart_log_for_write rand)) restart_post.
Proof.
  intros Hmin. unfold try_restart_log_for_write.
  shared_with ltac:(by apply (up_upgrade_0 page_sz i v)). intros [] h ->; cbn [negb];
    [|apply up_shared_ret; left; split; [by left|by exists v]].
  set (g1 := with_rd None (with_ex ({[0]} ∪ st_ex (in_tx true 0 v p ini)) (in_tx true 0 v p ini))).
  shared_with ltac:(apply (up_begin_restart rand g1 (fun sn h => sn_max_frame sn = 0 /\
    h = with_ini HdUnknown (with_pin (Some (mkPin 0 0 0 (pn_count p) (pn_from p) (pn_view p))) (with_ex all_slots g1))));
    [set_solver|apply up_restart_writer; try done; apply all_slots_elem]).
  intros r h [[-> ->]|(sn & -> & Hsn & ->)].
  - shared_with ltac:(apply up_downgrade_0; [done|set_solver|done]). intros _ h (v' & ->). apply up_shared_ret.
    left. split; [by right|]. exists v'. unfold in_tx, g1, with_rd, with_ex. st_simpl. done.
  - shared_with ltac:(apply up_downgrade_0; [done|st_simpl; by apply all_slots_elem|done]). intros _ h (v' & ->).
    shared_with ltac:(apply (up_end_restart _ ∅); st_simpl).
    + intros k Hk. unfold all_slots, mark_slots in *. set_solver.
    + unfold all_slots, mark_slots. set_solver.
    + intros _ h ->. apply up_shared_ret. right. by exists sn, v'.
Qed.
End Restart.

Section Writer.
Context (l : WalFile) (v : Z) (p : pin (Data := Data)) (ini : header_state).

Lemma conn_ok_pin l' k (q : pin (Data := Data)) :
  conn_ok l' k p -> pn_max q = pn_max p -> pn_min p <= pn_min q -> pn_count q = pn_count p -> conn_ok l' k q.
Proof. intros [C1 C2 C3 C4 C5 C6 C7] E1 E2 E3. constructor; try done; [congruence|lia|congruence]. Qed.

Lemma up_try_restart_log_before_write rand k :
  conn_ok l k p -> wc_write_lock_held l = true -> pn_max p = pn_base p ->
  up (in_tx true k v p ini) (try_restart_log_before_write rand l)
    (fun r h => (r.1 = Ok () \/ r.1 = Err Busy) /\ (matches r.2 h /\ txn_of h = Writing (pn_from p) (pn_view p)) /\
       wc_write_lock_held r.2 = true).
Proof.
  intros Hc Hw Hbase. unfold try_restart_log_before_write.
  set (same := fun h : status => txn_of h = Writing (pn_from p) (pn_view p)).
  assert (forall v', matches l (in_tx true k v' p ini) /\ same (in_tx true k v' p ini)) as Hml by (intros v'; split; [by apply matches_tx|done]).
  destruct (bool_decide_reflect (wc_read_guard l <> DbFile)) as [|Hg]; [by apply up_ret; split; [left|]|].
  apply dec_stable in Hg. pose proof (co_guard _ _ _ Hc) as E. rewrite Hg in E. injection E as <-.
  set (q := mkPin (pn_max p + 1) (pn_max p) (pn_base p) (pn_count p) (pn_from p) (pn_view p)).
  apply upholds_bind. eapply (upholds_mono _ _ _ _ (fun sn h => snap_ok sn /\
    if sn_max_frame sn =? sn_nbackfills sn then h = in_tx true 0 v q ini /\ pn_min p <= pn_max p + 1 else h = in_tx true 0 v p ini)).
  { apply up_loads. intros C gs w base log Hi Hl Hd.
    destruct (writer_info page_sz i (in_tx true 0 v p ini) p eq_refl eq_refl C base log w gs Hd Hi)
      as (Hr & _ & _ & _ & _ & Hmx & _ & _ & [P1 P2 P3 P4 P5]).
    simpl. destruct (Z.eqb_spec (mx w) (nb w)) as [E|E].
    - destruct (min_step page_sz i C base log w gs (in_tx true 0 v p ini) Hl Hd Hi eq_refl p (pn_max p + 1)) as [Ha HI]; [done|lia|].
      eexists. split_and!; [exact Ha|exact HI|by eapply snapshot_ok|done|lia].
    - exists (in_tx true 0 v p ini). split_and!; [done| |by eapply snapshot_ok|done].
      rewrite list_insert_id by done. split; [done|eauto]. }
  intros sn h [Hsn Hh].
  assert ((matches l h /\ same h) /\ wc_write_lock_held l = true) as Hmh.
  { split; [|done]. destruct (_ =? _); [destruct Hh as [-> Hmin]|subst h; apply Hml].
    split; [apply matches_tx; [by eapply conn_ok_pin; simpl|done..]|done]. }
  destruct (sn_nbackfills sn =? 0); [by apply up_ret; split; [left|]|].
  apply upholds_bind, up_checks; [destruct Hsn; apply Z.leb_le; lia|].
  destruct (sn_max_frame sn =? sn_nbackfills sn); cbn [negb]; [destruct Hh as [-> Hmin]|by apply up_ret; split; [left|]].
  bind_with ltac:(by apply up_try_restart_log_for_write).
  intros r h [[Hr (v' & ->)]|(sn' & v' & -> & Hmax & ->)].
  - assert (matches l (in_tx true 0 v' q ini)) as Hmv by (apply matches_tx; [by eapply conn_ok_pin; simpl|done..]).
    destruct Hr as [-> | ->]; apply up_ret; (split; [|split; [split; [exact Hmv|done]|done]]); [by left|by right].
  - bind_with ltac:(apply up_bump). intros _ h ->. apply up_ret. split; [by left|]. split; [|done]. split; [|done].
    apply matches_tx; [|done..]. destruct Hc as [C1 C2 C3 C4 C5 C6 C7]. by constructor.
Qed.
End Writer.

Lemma matches_reading l g :
  matches l g -> wc_read_guard l <> GuardNone ->
  exists wr k v p ini, g = in_tx wr k v p ini /\ conn_ok l k p /\ wc_write_lock_held l = wr /\ (wr = false -> ini = HdUnknown).
Proof. intros [Hg|wr k v p ini] Hn; [done|]. by exists wr, k, v, p, ini. Qed.

Lemma up_begin_write_tx restart_allowed rand l g :
  may_change -> matches l g -> wc_read_guard l <> GuardNone -> wc_write_lock_held l = false ->
  up g (begin_write_tx restart_allowed rand l)
    (fun r h => matches r.2 h /\ exists v, txn_of g = Reading v /\
       match r.1 with Ok _ => txn_of h = Writing v v | Err _ => txn_of h = Reading v | Panic => False end).
Proof.
  intros Hmay Hm Hg Hw. destruct (matches_reading l g Hm Hg) as (wr & k & v & p & ini & -> & Hc & Hwr & Hini).
  rewrite Hw in Hwr. subst wr. specialize (Hini eq_refl). subst ini. unfold begin_write_tx.
  apply upholds_bind, up_checks; [by apply bool_decide_eq_true_2|]. apply upholds_bind, up_checks; [by rewrite Hw|].
  bind_with ltac:(apply up_try_write). intros [] h Hh; cbn [negb]; [|subst h; apply up_ret; split; [done|by exists (pn_view p)]].
  destruct Hh as [-> _]. set (g1 := with_wr true (in_tx false k v p HdUnknown)).
  apply upholds_bind. eapply (upholds_mono _ _ _ _ (fun sn h =>
    if bool_decide (sn = connection_snapshot l)
    then h = in_tx true k v (mkPin (pn_min p) (pn_max p) (pn_max p) (pn_count p) (pn_view p) (pn_view p)) HdUnknown
    else h = g1)).
  { apply up_loads. intros C gs w base log Hi Hl Hd. destruct (bool_decide_reflect (snapshot_of (w_shared w) = connection_snapshot l)) as [E|E].
    - pose proof (f_equal sn_max_frame E) as E1. pose proof (f_equal sn_transaction_count E) as E2. simpl in E1, E2.
      rewrite (co_max _ _ _ Hc) in E1. rewrite (co_count _ _ _ Hc) in E2.
      destruct (verify_step page_sz i C base log w gs g1 Hl Hd Hi eq_refl p Hmay) as [Ha HI]; try done.
      rewrite E1 in Ha, HI. eexists. split_and!; [exact Ha|exact HI|done].
    - exists g1. split_and!; [done| |done]. rewrite list_insert_id by done. split; [done|eauto]. }
  intros sn h Hh. destruct (bool_decide_reflect (sn = connection_snapshot l)) as [->|Hne].
  - rewrite bool_decide_eq_false_2 by tauto. subst h.
    set (q := mkPin (pn_min p) (pn_max p) (pn_max p) (pn_count p) (pn_view p) (pn_view p)).
    assert (conn_ok (set_write_held true l) k q) as Hc'.
    { destruct Hc as [C1 C2 C3 C4 C5 C6 C7]. by constructor. }
    destruct restart_allowed; cbn [negb]; [|apply up_ret; split; [by apply matches_tx|by exists (pn_view p)]].
    apply upholds_bind. eapply upholds_mono; [by apply up_try_restart_log_before_write|].
    intros [r l'] h ([Hr|Hr] & [Hm' Ht] & Hw'); simpl in Hr, Hm'; subst r; apply up_ret; (split; [done|]); by exists (pn_view p).
  - rewrite bool_decide_eq_true_2 by done. subst h.
    bind_with ltac:(apply up_unlock_write; [done|right; by eexists|done]). intros _ h ->. apply up_ret.
    split; [done|by exists (pn_view p)].
Qed.
End Programs.
