(* ===== verification/WalCommit.v ===== *)
(** * Writers: header, append, commit, rollback and spill keep the invariant *)
From stdpp Require Import gmap relations sorting.
From S2P Require Import Prelude Errors OnDisk WalFormat WalLock WalShared WalRecovery WalIndex.
From S2P Require Import Threads WalCoordination WalConnection WalInvariant WalSteps WalActions WalPrograms.

Section Commit.
Context {Data : Type} (frame_sum : WalHeader -> Z * Z -> Z -> Z -> Data -> Z * Z) (page_len : Data -> Z) (host_big : bool).
Context (page_sz : Z) (Hsz : page_sz <> 0) (Hps : PageSize_new page_sz <> None) (i : nat).
#[local] Abbreviation status := (status (Data := Data)).
#[local] Abbreviation pin := (pin (Data := Data)).
#[local] Abbreviation wal_inv := (wal_inv (Data := Data) page_sz).
Context {M : Moves (Data := Data)}.
#[local] Abbreviation up := (upholds wal_inv allowed i).
Implicit Types (g h : status) (p q : pin).

#[local] Arguments upholds : simpl never.

(** A writer whose header state is [ini], with frames [new] written after its pin. *)
Definition writing (k v : Z) (p : pin) (ini : header_state) (new : list (Z * Data)) : status :=
  with_new new (in_tx true k v p ini).

Lemma writer_pins k v p ini new (pi : pin) :
  st_pin (writing k v p ini new) = Some pi -> st_ver (writing k v p ini new) = true.
Proof. done. Qed.

Lemma up_prepare_wal rand_1 rand_2 l k v p ini :
  conn_ok l k p -> wc_write_lock_held l = true ->
  up (in_tx true k v p ini) (prepare_wal host_big page_sz rand_1 rand_2 l)
    (fun r h => conn_ok r.2 k p /\ wc_write_lock_held r.2 = true /\
       (r.1 = Ok () /\ h = in_tx true k v p HdWritten \/ (exists e, r.1 = Err e) /\ exists ini', h = in_tx true k v p ini')).
Proof.
  intros Hc Hw. unfold prepare_wal.
  bind_with ltac:(by apply up_load_initialized; [|left|]). intros b h [-> Hmax].
  destruct b; [apply up_ret; split_and!; [done..|by left]|].
  bind_with ltac:(by apply up_header; [|left| | |]). intros r h (x & -> & ->).
  specialize (Hmax p eq_refl eq_refl).
  assert (conn_ok (set_position 0 (wh_checksum_1 x, wh_checksum_2 x) l) k p) as Hc'.
  { destruct Hc as [C1 C2 C3 C4 C5 C6 C7]. by constructor. }
  apply upholds_bind, up_chooses. intros kept. set (g := with_ini HdPrepared _).
  apply upholds_bind. eapply (upholds_mono _ _ _ _ (fun _ h => h = g)).
  { destruct kept; [by apply up_ret|]. apply up_truncate_frames; try done; [by left|by right]. }
  intros _ h ->. apply upholds_bind, up_chooses. intros [].
  - apply up_ret. split_and!; [done..|]. right. split; eexists; reflexivity.
  - bind_with ltac:(by apply up_mark_initialized; [|left| |]). intros _ h ->. apply up_ret.
    split_and!; [done..|]. by left.
Qed.

(** ** Frames *)
Definition page_ok (x : Z * Data) : Prop := 0 < x.1 /\ page_len x.2 = page_sz.

Lemma number_frames_ok hdr db_size pages : forall c next,
  wh_page_size hdr = page_sz -> Forall page_ok pages ->
  match number_frames frame_sum page_len hdr db_size c next pages with
  | Ok frames => (fun f => (pf_page f, pf_data f)) <$> frames = pages /\
      forall j f, frames !! j = Some f -> pf_frame f = next + Z.of_nat j
  | Err _ => True
  | Panic => False
  end.
Proof.
  intros c next Hh Hp. revert c next. induction Hp as [|[page d] pages [Hp0 Hl] Hp IH]; intros c next; [done|].
  cbn [number_frames]. destruct (_ <=? page); [done|]. simpl in Hp0, Hl.
  rewrite (proj2 (Z.ltb_lt 0 page)), Hh, bool_decide_eq_true_2, Hl, Z.eqb_refl by done. cbn [assert_that mbind res_bind].
  set (c' := frame_sum _ _ _ _ _). specialize (IH c' (next + 1)).
  destruct (number_frames _ _ _ _ _ _ pages) as [frames| |]; cbn [mbind res_bind]; [|done|done].
  destruct IH as [IH1 IH2]. split; [cbn; by rewrite IH1|]. intros [|j] f Hj.
  - injection Hj as <-. simpl. lia.
  - apply IH2 in Hj. lia.
Qed.

Lemma up_settles {E A} (r : res E A) g (Q : res E A -> status -> Prop) : r <> Panic -> Q r g -> up g (settles r) Q.
Proof.
  intros Hr HQ b C gs w Hi HI. left. exists r, w, C, g. rewrite list_insert_id by done. by destruct r.
Qed.

Definition frame_pages (frames : list prepared_frame) : list (Z * Data) :=
  (fun f => (pf_page f, pf_data f)) <$> frames.

(** Frames of a failed write are forgotten. *)
Lemma up_drop_new {A} k v p ini new (a : A) Q :
  Q a (writing k v p ini []) -> ghost wal_inv allowed i (writing k v p ini new) (fun h => up h (Ret a) Q).
Proof.
  intros HQ. eapply (ghost_mono _ _ _ _ (fun h => h = writing k v p ini []));
    [by apply (drop_new page_sz i (writing k v p ini new))|]. intros h ->. by apply up_ret.
Qed.

Lemma up_write_frames k v p ini frames : forall new,
  (forall j f, frames !! j = Some f -> pf_frame f = pn_max p + 1 + zlen new + Z.of_nat j) ->
  up (writing k v p ini new) (write_frames frames)
    (fun r h => h = if r : bool then writing k v p ini (new ++ frame_pages frames) else writing k v p ini []).
Proof.
  induction frames as [|f frames IH]; intros new Hn.
  - unfold frame_pages. rewrite app_nil_r. apply upholds_bind, upholds_ghost, up_chooses. intros [].
    + by apply up_drop_new.
    + apply ghost_same. by apply up_ret.
  - apply upholds_bind, upholds_ghost, up_chooses. intros [].
    + by apply up_drop_new.
    + apply ghost_same.
      bind_with ltac:(apply (up_write_frame page_sz i _ p); [done..|rewrite (Hn 0%nat f) by done; simpl; lia]). intros _ h ->.
      eapply upholds_mono; [apply (IH (new ++ [(pf_page f, pf_data f)]))|].
      * intros j f' Hj. rewrite (Hn (S j) f' Hj), zlen_app. change (zlen [_]) with 1. lia.
      * intros r h ->. unfold frame_pages. cbn [fmap list_fmap]. by rewrite <- app_assoc.
Qed.

Lemma up_commit_prepared_frames k v frames : forall l p,
  may_turn -> conn_ok l k p -> wc_write_lock_held l = true -> pn_max p + zlen frames < 2 ^ 32 - 1 ->
  (forall j f, frames !! j = Some f -> pf_frame f = pn_max p + 1 + Z.of_nat j) ->
  up (writing k v p HdWritten (frame_pages frames)) (commit_prepared_frames frames l)
    (fun l' h => wc_write_lock_held l' = true /\ wc_transaction_count l' = wc_transaction_count l /\
       exists q, h = in_tx true k v q HdWritten /\ conn_ok l' k q /\
         pn_from q = pn_from p /\ pn_view q = overlay (pn_view p) (frame_pages frames)).
Proof.
  induction frames as [|f frames IH]; intros l p Hmay Hc Hw Hcap Hn.
  - apply up_ret. split_and!; [done..|]. by exists p.
  - rewrite zlen_cons in Hcap. pose proof (zlen_nonneg frames). pose proof (Hn 0%nat f eq_refl) as Hf. unfold commit_prepared_frames. fold (commit_prepared_frames (Data := Data)).
    apply upholds_bind. unfold complete_append_frame.
    bind_with ltac:(apply (up_cache_frame page_sz i _ p) with (d := pf_data f) (new := frame_pages frames); try done; lia).
    intros _ h ->. apply up_ret.
    set (l' := set_position (pf_frame f) (pf_checksum f) l).
    eapply upholds_mono; [apply (IH l' (pin_append (pf_page f) (pf_data f) p))|].
    + done.
    + destruct Hc as [C1 C2 C3 C4 C5 C6 C7]. constructor; try done. simpl. lia.
    + done.
    + simpl. lia.
    + intros j f' Hj. rewrite (Hn (S j) f' Hj). simpl. lia.
    + done.
Qed.

(** The write transaction is over, the write lock still held. *)
Definition finished (k v : Z) (p : pin) : status :=
  mkStatus true (Some (k, v)) ∅ true false (Some p) false HdUnknown [] PhNone.

Lemma up_finish_append_frames_commit k v l p :
  may_commit (pn_from p) (pn_view p) -> conn_ok l k p -> wc_write_lock_held l = true -> wc_transaction_count l < 2 ^ 64 - 1 ->
  up (in_tx true k v p HdWritten) (finish_append_frames_commit l)
    (fun l' h => wc_write_lock_held l' = true /\ exists q, h = finished k v q /\ conn_ok l' k q).
Proof.
  intros Hmay Hc Hw Hcnt. unfold finish_append_frames_commit. apply upholds_bind, up_checks; [apply Z.ltb_lt; lia|].
  destruct Hc as [C1 C2 C3 C4 C5 C6 C7]. rewrite C5.
  bind_with ltac:(apply (up_publish page_sz i _ p); try done; intros C HC; by apply Hmay). intros _ h ->. apply up_ret. split; [done|].
  eexists. split; [reflexivity|]. by constructor.
Qed.

Lemma up_rollback k v p ini l :
  may_change -> conn_ok l k p -> wc_write_lock_held l = true ->
  up (in_tx true k v p ini) (rollback None l)
    (fun l' h => wc_write_lock_held l' = true /\ exists q, h = finished k v q /\ conn_ok l' k q).
Proof.
  intros Hmay Hc Hw. unfold rollback.
  apply upholds_bind. eapply upholds_mono; [apply (up_loads_only _ _ _ _ (fun sn => sn_max_frame sn = pn_base p))|].
  { intros C gs w base log Hi Hl Hd. by apply (writer_info page_sz i (in_tx true k v p ini) p eq_refl eq_refl C base log w gs Hd Hi). }
  intros sn h [-> Hmax]. apply upholds_bind, up_checks; [done|]. apply upholds_bind, up_checks; [done|].
  bind_with ltac:(apply (up_rollback_cache page_sz i _ p); done). intros _ h (view & ->). apply up_ret. split; [done|].
  eexists. split; [reflexivity|]. destruct Hc as [C1 C2 C3 C4 C5 C6 C7]. by constructor.
Qed.

Lemma up_end_write_tx k v l p :
  conn_ok l k p -> wc_write_lock_held l = true -> up (finished k v p) (wal_end_write_tx l)
    (fun l' h => matches l' h /\ wc_write_lock_held l' = false).
Proof.
  intros Hc Hw. unfold wal_end_write_tx. apply upholds_bind, up_checks; [done|].
  bind_with ltac:(apply up_unlock_write; [done|right; by eexists|done]). intros _ h ->. apply up_ret. split; [|done].
  apply (matches_tx _ false k v p HdUnknown); [|done..]. destruct Hc as [C1 C2 C3 C4 C5 C6 C7]. by constructor.
Qed.

Lemma up_rollback_tx l g :
  may_change -> matches l g -> up g (rollback_tx l) (fun l' h => matches l' h /\ h = idle).
Proof.
  intros Hmay Hm. pose proof (change_turn Hmay). unfold rollback_tx.
  destruct (wc_write_lock_held l) eqn:Hw; [|by apply up_end_read_tx].
  inversion Hm as [|wr k v p ini Hc Hwr Hini]; [congruence|]. rewrite Hw in Hwr. subst wr g.
  apply upholds_bind. bind_with ltac:(by apply up_rollback). intros l' h (Hw' & q & -> & Hc').
  eapply upholds_mono; [by apply up_end_write_tx|]. intros l'' h [Hm' Hw'']. by apply up_end_read_tx.
Qed.

(** ** Commit *)
Lemma up_load_written k v p (Q : bool -> Prop) :
  Q true -> up (in_tx true k v p HdWritten) (shared (loads (fun s => md_initialized (metadata s))))
    (fun b h => h = in_tx true k v p HdWritten /\ Q b).
Proof.
  intros HQ. apply up_loads_only. intros C gs w base log Hi Hl Hd.
  destruct (so_ini _ _ _ _ (do_status _ _ _ _ _ _ Hd i _ Hi)) as [_ E]; [done|]. simpl in E. by rewrite E.
Qed.

Lemma up_load_header k v p :
  up (in_tx true k v p HdWritten) (shared (loads (fun s => md_wal_header (metadata s))))
    (fun x h => h = in_tx true k v p HdWritten /\ wh_page_size x = page_sz).
Proof.
  apply up_loads_only. intros C gs w base log Hi Hl Hd.
  destruct (so_ini _ _ _ _ (do_status _ _ _ _ _ _ Hd i _ Hi)) as [_ E]; [done|]. simpl in E.
  by apply (do_page_size_init _ _ _ _ _ (do_global _ _ _ _ _ _ Hd)).
Qed.

(** The transaction reads from the frame after the backfill, as a fresh snapshot would. *)
Definition repinned (sn : WalSnapshot) (p : pin) : pin :=
  mkPin (sn_nbackfills sn + 1) (pn_max p) (pn_base p) (pn_count p) (pn_from p) (pn_view p).

Lemma up_load_writer_snapshot k v p ini :
  up (in_tx true k v p ini) (shared load_snapshot)
    (fun sn h => h = in_tx true k v (repinned sn p) ini /\ pn_min p <= sn_nbackfills sn + 1 /\
       sn_max_frame sn <= pn_max p /\ sn_transaction_count sn = pn_count p).
Proof.
  apply up_loads. intros C gs w base log Hi Hl Hd.
  destruct (writer_info page_sz i (in_tx true k v p ini) p eq_refl eq_refl C base log w gs Hd Hi)
    as (Hr & _ & _ & _ & _ & _ & Hcnt & _ & [_ P2 _ _ _]).
  destruct (min_step page_sz i C base log w gs _ Hl Hd Hi eq_refl p (md_nbackfills (metadata (w_shared w)) + 1)) as [Ha HI];
    [done|lia|].
  eexists. split_and!; [exact Ha|exact HI|done|simpl; lia|simpl; lia|done].
Qed.

Definition numbered (next : Z) (frames : list (prepared_frame (Data := Data))) : Prop :=
  forall j f, frames !! j = Some f -> pf_frame f = next + Z.of_nat j.

Lemma numbered_app next a b : numbered next a -> numbered (next + zlen a) b -> numbered next (a ++ b).
Proof.
  intros Ha Hb j f Hj. apply lookup_app_Some in Hj as [Hj|[Hl Hj]]; [by apply Ha|].
  rewrite (Hb _ _ Hj). unfold zlen. lia.
Qed.

(** The number that the frame after [frames] gets. *)
Lemma numbered_last next frames f :
  numbered next frames -> head (reverse frames) = Some f -> pf_frame f + 1 = next + zlen frames.
Proof.
  intros Hn Hf. destruct (reverse frames) as [|f' r] eqn:E; [done|]. injection Hf as ->.
  assert (frames = reverse r ++ [f]) as -> by (rewrite <- (reverse_involutive frames), E; apply reverse_cons).
  rewrite zlen_app. change (zlen [f]) with 1. rewrite (Hn (length (reverse r)) f); [unfold zlen; lia|].
  by apply list_lookup_middle.
Qed.

(** What a new snapshot leaves of a pin. *)
Definition same_pin (p q : pin) : Prop := pn_max q = pn_max p /\ pn_from q = pn_from p /\ pn_view q = pn_view p.

(** Where a batch starts. *)
Lemma up_batch_start k v p prev next l :
  conn_ok l k p -> wc_write_lock_held l = true ->
  match prev with Some f => pf_frame f + 1 = next | None => next = pn_max p + 1 end ->
  up (in_tx true k v p HdWritten)
    (match prev with
    | Some f => Ret (pf_checksum f, pf_frame (Data := Data) f + 1, l)
    | None =>
        snapshot ← shared load_snapshot;
        if sn_max_frame snapshot <? wc_max_frame l
        then Ret (wc_last_checksum l, wc_max_frame l + 1, l)
        else
          checks (wc_max_frame l =? sn_max_frame snapshot);;
          let l := if bool_decide (snapshot <> connection_snapshot l)
                   then install_connection_state snapshot (wc_read_guard l) l else l in
          Ret (sn_last_checksum snapshot, sn_max_frame snapshot + 1, l)
    end)
    (fun r h => wc_write_lock_held r.2 = true /\ wc_transaction_count r.2 = wc_transaction_count l /\
       r.1.2 = next /\ exists q, h = in_tx true k v q HdWritten /\ conn_ok r.2 k q /\ same_pin p q).
Proof.
  intros Hc Hw Hprev. destruct prev as [f|]; [apply up_ret; split_and!; [done..|by exists p]|]. subst next.
  bind_with ltac:(apply up_load_writer_snapshot). intros sn h (-> & Hmin & Hmax & Hcnt).
  destruct Hc as [C1 C2 C3 C4 C5 C6 C7]. rewrite C5. destruct (Z.ltb_spec (sn_max_frame sn) (pn_max p)).
  - apply up_ret. split_and!; try done. exists (repinned sn p). split_and!; try done. constructor; try done. simpl. lia.
  - apply upholds_bind, up_checks; [apply Z.eqb_eq; lia|]. apply up_ret. cbn [fst snd]. split_and!; [| |lia|].
    + by destruct (bool_decide _).
    + destruct (bool_decide _); simpl; congruence.
    + exists (repinned sn p). split_and!; try done. destruct (bool_decide _); constructor; simpl; try done; try lia.
Qed.

Lemma up_prepare_frames db_size pages prev next l k v p :
  conn_ok l k p -> wc_write_lock_held l = true -> 0 < zlen pages <= IOV_MAX -> Forall page_ok pages ->
  match prev with Some f => pf_frame f + 1 = next | None => next = pn_max p + 1 end ->
  up (in_tx true k v p HdWritten) (prepare_frames frame_sum page_len page_sz db_size pages prev l)
    (fun r h => wc_write_lock_held r.2 = true /\ wc_transaction_count r.2 = wc_transaction_count l /\
       exists q, h = in_tx true k v q HdWritten /\ conn_ok r.2 k q /\ same_pin p q /\
         match r.1 with
         | Ok frames => frame_pages frames = pages /\ numbered next frames
         | Err _ => True
         | Panic => False
         end).
Proof.
  intros Hc Hw Hlen Hpos Hprev. unfold prepare_frames.
  apply upholds_bind, up_checks; [rewrite bool_decide_eq_false_2; [done|lia]|].
  apply upholds_bind, up_checks; [apply Z.leb_le; lia|].
  apply upholds_bind. eapply upholds_mono; [by apply (up_load_written k v p (fun b => b = true))|]. intros b h [-> ->].
  apply upholds_bind, up_checks; [done|].
  bind_with ltac:(apply up_load_header). intros hdr h [-> Hhdr]. apply upholds_bind, up_checks; [by apply Z.eqb_eq|].
  apply upholds_bind. eapply upholds_mono; [by apply (up_batch_start k v p prev next)|].
  intros [[c n] l'] h (Hw' & Hcnt' & Hn & q & -> & Hc' & Hq). cbn [fst snd] in *. subst n.
  set (c' := if next =? 1 then _ else _). pose proof (number_frames_ok hdr db_size pages c' next Hhdr Hpos) as H.
  destruct (number_frames _ _ _ _ _ _ _) as [frames|e|]; [| |done]; (apply upholds_bind, up_settles; [done|]);
    apply up_ret; (split_and!; [done..|]); by exists q.
Qed.

Lemma up_prepare_batches db_size k v pages : forall collected prepared l p,
  conn_ok l k p -> wc_write_lock_held l = true -> zlen collected < IOV_MAX -> (pages = [] -> collected = []) ->
  Forall page_ok (collected ++ pages) -> numbered (pn_max p + 1) prepared ->
  up (in_tx true k v p HdWritten) (prepare_batches frame_sum page_len page_sz db_size pages collected prepared l)
    (fun r h => wc_write_lock_held r.2 = true /\ wc_transaction_count r.2 = wc_transaction_count l /\
       exists q, h = in_tx true k v q HdWritten /\ conn_ok r.2 k q /\ same_pin p q /\
         match r.1 with
         | Ok frames => frame_pages frames = frame_pages prepared ++ collected ++ pages /\ numbered (pn_max p + 1) frames
         | Err _ => True
         | Panic => False
         end).
Proof.
  induction pages as [|x pages IH]; intros collected prepared l p Hc Hw Hlen Hnil Hpos Hnum; cbn [prepare_batches].
  { rewrite (Hnil eq_refl). apply up_ret. split_and!; [done..|]. exists p. split_and!; try done. cbn [fst].
    by rewrite app_nil_r. }
  replace (collected ++ x :: pages) with ((collected ++ [x]) ++ pages) in * by (by rewrite <- app_assoc).
  assert (zlen (collected ++ [x]) = zlen collected + 1) as El by (rewrite zlen_app; done).
  pose proof (zlen_nonneg collected). destruct ((_ =? _) || _) eqn:Efull.
  - apply Forall_app in Hpos as [Hp1 Hp2]. apply upholds_bind. eapply upholds_mono.
    { apply (up_prepare_frames _ _ _ (pn_max p + 1 + zlen prepared)); try done; [lia|].
      destruct (head (reverse prepared)) as [f|] eqn:Ef; [by apply numbered_last|].
      destruct prepared as [|f prepared]; [change (zlen []) with 0; lia|]. rewrite reverse_cons in Ef.
      by destruct (reverse prepared). }
    intros [[frames|e|] l'] h (Hw' & Hcnt & q & -> & Hc' & Hq & Hr); cbn [fst snd] in *; [|apply up_ret; eauto 10|done].
    destruct Hr as [Hfr Hn]. destruct Hq as (Hmx & Hfm & Hvw). rewrite <- Hmx in *.
    eapply upholds_mono; [apply (IH [] (prepared ++ frames)); try done; by apply numbered_app|].
    intros r h (Hw2 & Hcnt2 & q2 & -> & Hc2 & Hq2 & Hr2). split_and!; [done|congruence|]. exists q2. unfold same_pin in *. destruct_and!. split_and!; try done; try congruence.
    destruct (r.1); [|done..]. destruct Hr2 as [E En]. split; [|done]. rewrite E. unfold frame_pages in *.
    by rewrite fmap_app, Hfr, <- !app_assoc.
  - apply orb_false_iff in Efull as [E1%Z.eqb_neq E2%bool_decide_eq_false]. apply IH; try done; lia.
Qed.

Lemma up_commit_tx rand_1 rand_2 db_size pages l k v p ini :
  may_turn -> may_commit (pn_from p) (overlay (pn_view p) pages) -> conn_ok l k p -> wc_write_lock_held l = true -> pages <> [] -> Forall page_ok pages ->
  wc_max_frame l + zlen pages < 2 ^ 32 - 1 -> wc_transaction_count l < 2 ^ 64 - 1 ->
  up (in_tx true k v p ini) (commit_tx frame_sum page_len host_big page_sz rand_1 rand_2 db_size pages l)
    (fun r h => wc_write_lock_held r.2 = true /\ 
       match r.1 with
       | Ok _ => exists q, h = finished k v q /\ conn_ok r.2 k q
       | Err _ => matches r.2 h /\ txn_of h = Writing (pn_from p) (pn_view p)
       | Panic => False
       end).
Proof.
  intros Hmay Hcom Hc Hw Hlen Hpos Hcap Hcnt. unfold commit_tx.
  pose proof (co_max _ _ _ Hc) as Emax. pose proof (co_count _ _ _ Hc) as Ecnt.
  apply upholds_bind. eapply upholds_mono; [by apply up_prepare_wal|].
  intros [r l1] h (Hc1 & Hw1 & [[Hr ->]|[[e Hr] [ini' ->]]]); simpl in Hc1, Hw1, Hr; subst r;
    [|apply up_ret; split; [done|]; split; [by apply matches_tx|done]].
  rewrite bool_decide_eq_false_2 by done. apply upholds_bind. eapply upholds_mono; [by apply up_prepare_batches|].
  intros [r l2] h (Hw2 & Hcnt2 & q & -> & Hc2 & (Hmax2 & Hfrom2 & Hview2) & Hr). simpl in Hw2, Hcnt2, Hc2, Hr.
  assert (txn_of (in_tx true k v q HdWritten) = Writing (pn_from p) (pn_view p)) as Ht by (unfold txn_of; simpl; by rewrite Hfrom2, Hview2).
  destruct r as [frames|e|]; [|apply up_ret; split; [done|]; split; [by apply matches_tx|done]|done]. destruct Hr as [Hpg Hfr].
  apply upholds_bind. eapply upholds_mono; [apply (up_write_frames k v q HdWritten frames [])|].
  { intros j f Hj. rewrite (Hfr j f Hj), Hmax2. change (zlen []) with 0. lia. }
  intros [] h ->; cbn [negb]; [|apply up_ret; split; [done|]; split; [by apply matches_tx|done]].
  assert (zlen frames = zlen pages) as Hzl by (rewrite <- Hpg; unfold zlen, frame_pages; by rewrite length_fmap).
  apply upholds_bind. eapply upholds_mono; [apply (up_commit_prepared_frames k v frames l2 q); try done; [lia|]; intros j f Hj; rewrite (Hfr j f Hj); lia|].
  intros l3 h (Hw3 & Hcnt3 & q' & -> & Hc3 & Hfrom3 & Hview3). rewrite Hview2 in Hview3. rewrite Hfrom2 in Hfrom3. change (frame_pages frames = pages) in Hpg. rewrite Hpg in Hview3.
  assert (wc_transaction_count l1 = wc_transaction_count l) as Hcnt1 by (rewrite (co_count _ _ _ Hc1); congruence).
  apply upholds_bind. eapply upholds_mono; [apply up_finish_append_frames_commit; try done; [by rewrite Hview3, Hfrom3|lia]|].
  intros l4 h (Hw4 & q'' & -> & Hc4). apply up_ret. split; [done|]. by exists q''.
Qed.

Lemma up_commit_and_end rand_1 rand_2 db_size pages l k v p ini :
  may_turn -> may_commit (pn_from p) (overlay (pn_view p) pages) -> conn_ok l k p -> wc_write_lock_held l = true -> pages <> [] -> Forall page_ok pages ->
  wc_max_frame l + zlen pages < 2 ^ 32 - 1 -> wc_transaction_count l < 2 ^ 64 - 1 ->
  up (in_tx true k v p ini) (commit_and_end frame_sum page_len host_big page_sz rand_1 rand_2 db_size pages l)
    (fun r h => matches r.2 h /\ match r.1 with
       | Ok _ => h = idle
       | Err _ => txn_of h = Writing (pn_from p) (pn_view p)
       | Panic => False
       end).
Proof.
  intros Hmay Hcom Hc Hw Hlen Hpos Hcap Hcnt. unfold commit_and_end.
  apply upholds_bind. eapply upholds_mono; [by apply up_commit_tx|]. intros [[[]|e|] l'] h [Hw' Hh]; simpl in Hw', Hh;
    [|by apply up_ret|done]. destruct Hh as (q & -> & Hc').
  apply upholds_bind. eapply upholds_mono; [by apply up_end_write_tx|]. intros l1 h [Hm1 Hw1].
  apply upholds_bind. eapply upholds_mono; [by apply up_end_read_tx|]. intros l2 h' Hm2. by apply up_ret.
Qed.

(** ** Spills *)
Lemma up_append_frames_vectored pages l k v p :
  may_turn -> conn_ok l k p -> wc_write_lock_held l = true -> zlen pages <= IOV_MAX -> Forall page_ok pages ->
  wc_max_frame l + zlen pages < 2 ^ 32 - 1 ->
  up (in_tx true k v p HdWritten) (append_frames_vectored frame_sum page_len page_sz pages l)
    (fun r h => wc_write_lock_held r.2 = true /\
       exists q, h = in_tx true k v q HdWritten /\
         conn_ok (set_position (pn_max q) (wc_last_checksum r.2) r.2) k q /\
         match r.1 with
         | Ok _ => conn_ok r.2 k q /\ pn_from q = pn_from p /\ pn_view q = overlay (pn_view p) pages
         | Err _ => True
         | Panic => False
         end).
Proof.
  intros Hmay Hc Hw Hlen Hpos Hcap. unfold append_frames_vectored. pose proof (co_max _ _ _ Hc) as Emax.
  assert (forall m c, exists q, in_tx true k v p HdWritten = in_tx true k v q HdWritten /\
    conn_ok (set_position (pn_max q) c (set_position m c l)) k q) as Hfail.
  { intros m c. exists p. split; [done|]. destruct Hc as [C1 C2 C3 C4 C5 C6 C7]. by constructor. }
  apply upholds_bind, up_checks; [by apply Z.leb_le|].
  apply upholds_bind. eapply upholds_mono; [by apply (up_load_written k v p (fun b => b = true))|]. intros b h [-> ->].
  apply upholds_bind, up_checks; [done|].
  bind_with ltac:(apply up_load_header). intros hdr h [-> Hhdr]. apply upholds_bind, up_checks; [by apply Z.eqb_eq|].
  set (c := if _ =? 1 then _ else _). pose proof (number_frames_ok hdr None pages c (wc_max_frame l + 1) Hhdr Hpos) as H.
  assert (conn_ok (set_position (pn_max p) (wc_last_checksum l) l) k p) as Hpos'.
  { destruct Hc as [C1 C2 C3 C4 C5 C6 C7]. by constructor. }
  destruct (number_frames _ _ _ _ _ _ _) as [frames|e|]; [| |done]; (apply upholds_bind, up_settles; [done|]);
    [|apply up_ret; split; [done|]; by exists p].
  destruct H as [Hpg Hfr].
  apply upholds_bind. eapply upholds_mono; [apply (up_write_frames k v p HdWritten frames [])|].
  { intros j f Hj. rewrite (Hfr j f Hj). change (zlen []) with 0. lia. }
  intros [] h ->; cbn [negb].
  - assert (zlen frames = zlen pages) as Hzl by (rewrite <- Hpg; unfold zlen; by rewrite length_fmap).
    apply upholds_bind. eapply upholds_mono; [apply (up_commit_prepared_frames k v frames l p); try done; [lia|]|].
    { intros j f Hj. rewrite (Hfr j f Hj). lia. }
    intros l3 h (Hw3 & Hcnt3 & q' & -> & Hc3 & Hf3 & Hv3). apply up_ret. split; [done|]. exists q'. cbn [fst snd].
    change (frame_pages frames = pages) in Hpg. rewrite Hpg in Hv3. split_and!; try done.
    destruct Hc3 as [C1 C2 C3 C4 C5 C6 C7]. by constructor.
  - apply up_ret. cbn [fst snd]. destruct (head (reverse frames)) as [f|].
    + split; [done|]. destruct (Hfail (pf_frame f) (pf_checksum f)) as (q & E & Hq). exists q. by split_and!.
    + split; [done|]. by exists p.
Qed.

Lemma set_position_twice m c m' c' l : set_position m c (set_position m' c' l) = set_position m c l.
Proof. done. Qed.

(** A rollback sets the position: it may start from any. *)
Lemma up_rollback_tx_position k v q ini l :
  may_change -> conn_ok (set_position (pn_max q) (wc_last_checksum l) l) k q -> wc_write_lock_held l = true ->
  up (in_tx true k v q ini) (rollback_tx l) (fun l' h => matches l' h /\ h = idle).
Proof.
  intros Hmay Hc Hw. pose proof (up_rollback_tx (set_position (pn_max q) (wc_last_checksum l) l) (in_tx true k v q ini)) as H.
  unfold rollback_tx in *. change (wc_write_lock_held (set_position _ _ l)) with (wc_write_lock_held l) in H.
  rewrite Hw in *. apply H; [done|]. by apply matches_tx.
Qed.

Lemma up_spill rand_1 rand_2 pages l k v p ini :
  may_change -> conn_ok l k p -> wc_write_lock_held l = true -> zlen pages <= IOV_MAX -> Forall page_ok pages ->
  wc_max_frame l + zlen pages < 2 ^ 32 - 1 ->
  up (in_tx true k v p ini) (spill frame_sum page_len host_big page_sz rand_1 rand_2 pages l)
    (fun r h => matches r.2 h /\ match r.1 with
       | Ok _ => txn_of h = Writing (pn_from p) (overlay (pn_view p) pages)
       | Err _ => h = idle
       | Panic => False
       end).
Proof.
  intros Hmay Hc Hw Hlen Hpos Hcap. unfold spill. pose proof (co_max _ _ _ Hc) as Emax.
  apply upholds_bind. eapply upholds_mono; [by apply up_prepare_wal|].
  intros [r l1] h (Hc1 & Hw1 & Hr); simpl in Hc1, Hw1, Hr. pose proof (co_max _ _ _ Hc1) as Emax1.
  apply upholds_bind. eapply (upholds_mono _ _ _ _ (fun r h => wc_write_lock_held r.2 = true /\
       exists q ini, h = in_tx true k v q ini /\
         conn_ok (set_position (pn_max q) (wc_last_checksum r.2) r.2) k q /\
         match r.1 with
         | Ok _ => conn_ok r.2 k q /\ pn_from q = pn_from p /\ pn_view q = overlay (pn_view p) pages
         | Err _ => True
         | Panic => False
         end)).
  { destruct Hr as [[-> ->]|[[e ->] [ini' ->]]].
    - eapply upholds_mono; [apply up_append_frames_vectored; try done; [by apply change_turn|lia]|].
      intros r h (Hw2 & q & -> & H1 & H2). split; [done|]. by exists q, HdWritten.
    - apply up_ret. split; [done|]. exists p, ini'. split_and!; try done. destruct Hc1 as [C1 C2 C3 C4 C5 C6 C7]. by constructor. }
  intros [r2 l2] h2 (Hw2 & q & ini2 & -> & Hq & Hok). simpl in Hw2, Hq, Hok. destruct r2 as [[]|e|].
  - destruct Hok as (H1 & H2 & H3). apply up_ret. split; [by apply matches_tx|]. unfold txn_of. simpl. by rewrite H2, H3.
  - bind_with ltac:(by apply up_rollback_tx_position). intros l3 h3 [Hm ->]. by apply up_ret.
  - done.
Qed.
End Commit.
