(* ===== verification/WalCheckpoint.v ===== *)
(** * Checkpoints keep the invariant

    The programs of [WalConnection] from [acquire_proper_checkpoint_guard] to
    [checkpoint], in every phase and on every error path. *)
From stdpp Require Import gmap relations sorting.
From S2P Require Import Prelude Errors OnDisk WalFormat WalLock WalShared WalRecovery WalIndex.
From S2P Require Import Threads WalCoordination WalConnection WalInvariant WalSteps WalActions WalPrograms.

Section Checkpoint.
Context {Data : Type} (page_sz : Z) (i : nat).
#[local] Abbreviation status := (status (Data := Data)).
#[local] Abbreviation wal_inv := (wal_inv (Data := Data) page_sz).
Context {M : Moves (Data := Data)}.
#[local] Abbreviation up := (upholds wal_inv allowed i).
#[local] Abbreviation mx w := (md_max_frame (metadata (w_shared w))).
#[local] Abbreviation nb w := (md_nbackfills (metadata (w_shared w))).
Implicit Types (g h : status).

#[local] Arguments upholds : simpl never.

(** ** Guards *)
#[local] Abbreviation guard := CoordinationCheckpointGuardKind.

(** The status of a connection at rest, before its checkpoint. *)
Record plain (g : status) : Prop := mkPlain {
  pl_ex : st_ex g = ∅;
  pl_ck : st_ck g = false;
  pl_ph : st_ph g = PhNone;
  pl_new : st_new g = [];
  pl_pin : pin_by_slot g;
  pl_wr : st_wr g = false -> st_ver g = false /\ st_ini g = HdUnknown
}.

(** [g] with the locks of guard [k], the header state [ini] and the phase [ph]. *)
Definition held (k : guard) (ph : phase) (ini : header_state) (g : status) : status :=
  with_ph ph (with_ini ini (with_ck true (with_ex {[0]}
    (match k with GuardWriter => with_wr true g | GuardRead0 => g end)))).

(** The write lock of the guard is not the connection's own. *)
Definition guard_fits (k : guard) (ini : header_state) (g : status) : Prop :=
  match k with GuardWriter => st_wr g = false | GuardRead0 => ini = st_ini g end.

Lemma only_slot_0 : {[0]} ∖ {[0]} = (∅ : gset Z).
Proof. set_solver. Qed.
Lemma slot_0_elem : (0 : Z) ∈ ({[0]} : gset Z).
Proof. set_solver. Qed.

Section Plain.
Context (g : status) (Hg : plain g).

Ltac solve_status :=
  destruct Hg as [Pex Pck Pph Pnew _ _], g; simpl in Pex, Pck, Pph; subst; unfold held; st_simpl;
  rewrite ?(right_id_L ∅ (∪)), ?only_slot_0; reflexivity.

Lemma plain_ckpt : with_ph PhNone (with_ck false (with_ck true g)) = g.
Proof. solve_status. Qed.
Lemma held_read0 : with_ex ({[0]} ∪ st_ex (with_ck true g)) (with_ck true g) = held GuardRead0 PhNone (st_ini g) g.
Proof. solve_status. Qed.
Lemma held_write : with_wr true (held GuardRead0 PhNone (st_ini g) g) = held GuardWriter PhNone (st_ini g) g.
Proof. solve_status. Qed.
Lemma unheld_read0 ph (g' := held GuardRead0 ph (st_ini g) g) :
  with_ph PhNone (with_ck false (with_ph PhNone (with_ex (st_ex g' ∖ {[0]}) g'))) = g.
Proof. unfold g'. solve_status. Qed.
Lemma unheld_ckpt ph (g' := with_ph PhNone (with_ck false (held GuardRead0 ph (st_ini g) g))) :
  with_ph PhNone (with_ex (st_ex g' ∖ {[0]}) g') = g.
Proof. unfold g'. solve_status. Qed.
End Plain.

Lemma up_acquire_checkpoint_guard mode g :
  plain g ->
  up g (shared (acquire_checkpoint_guard mode))
    (fun r h => match r with
                | Ok k => h = held k PhNone (st_ini g) g /\ guard_fits k (st_ini g) g /\
                    (require_all_backfilled mode = true -> k = GuardWriter)
                | Err e => h = g
                | Panic => False
                end).
Proof.
  intros Hg. assert (pin_by_slot g) as Hpin by apply Hg. unfold acquire_checkpoint_guard.
  shared_with ltac:(apply up_try_ckpt). intros [] h Hh; cbn [negb]; [|subst h; by apply up_shared_ret].
  destruct Hh as [-> _]. shared_with ltac:(apply (up_try_ex_slot page_sz i 0); lia). intros [] h Hh.
  2: { subst h. destruct mode; cbn [negb]; (shared_with ltac:(apply up_unlock_ckpt; [reflexivity|exact Hpin])); intros _ h ->;
       apply up_shared_ret, plain_ckpt, Hg. }
  destruct Hh as (-> & _). rewrite (held_read0 g Hg).
  assert (0 ∈ st_ex (held GuardRead0 PhNone (st_ini g) g)) as H0 by apply slot_0_elem.
  destruct mode; cbn [negb]; [apply up_shared_ret; split_and!; [reflexivity..|discriminate]|..];
    (shared_with ltac:(apply up_try_write)); intros [] h Hh; cbn [negb];
    try (apply up_shared_ret; destruct Hh as [-> Hw]; rewrite (held_write g Hg); split_and!; [reflexivity|exact Hw|reflexivity]);
    subst h.
  - shared_with ltac:(apply up_unlock_ex_0; [exact H0|exact Hpin]). intros _ h ->.
    shared_with ltac:(apply up_unlock_ckpt; [reflexivity|exact Hpin]). intros _ h ->. apply up_shared_ret, unheld_read0, Hg.
  - shared_with ltac:(apply up_unlock_ckpt; [reflexivity|exact Hpin]). intros _ h ->.
    shared_with ltac:(apply up_unlock_ex_0; [exact H0|exact Hpin]). intros _ h ->. apply up_shared_ret, unheld_ckpt, Hg.
  - shared_with ltac:(apply up_unlock_ckpt; [reflexivity|exact Hpin]). intros _ h ->.
    shared_with ltac:(apply up_unlock_ex_0; [exact H0|exact Hpin]). intros _ h ->. apply up_shared_ret, unheld_ckpt, Hg.
Qed.

Lemma up_release_checkpoint_guard k ph ini g :
  plain g -> guard_fits k ini g ->
  up (held k ph ini g) (shared (release_checkpoint_guard k)) (fun _ h => h = g).
Proof.
  intros Hg Hk. assert (pin_by_slot g) as Hpin by apply Hg.
  assert (0 ∈ st_ex (held k ph ini g)) as H0 by (destruct k; apply slot_0_elem).
  destruct k; unfold release_checkpoint_guard; simpl in Hk.
  - subst ini. shared_with ltac:(apply up_unlock_ex_0; [exact H0|exact Hpin]). intros _ h ->.
    eapply upholds_mono; [apply up_unlock_ckpt; [reflexivity|exact Hpin]|]. intros _ h ->.
    destruct Hg as [Pex Pck Pph Pnew _ _], g. simpl in Pex, Pck, Pph. subst. unfold held. st_simpl. by rewrite only_slot_0.
  - pose proof (pl_wr _ Hg Hk) as [Hv Hi].
    shared_with ltac:(apply up_unlock_write; [reflexivity|exact Hpin|exact Hv]). intros _ h ->.
    shared_with ltac:(apply up_unlock_ex_0; [exact H0|exact Hpin]). intros _ h ->.
    eapply upholds_mono; [apply up_unlock_ckpt; [reflexivity|exact Hpin]|]. intros _ h ->.
    destruct Hg as [Pex Pck Pph Pnew _ _], g. simpl in Pex, Pck, Pph, Hk, Hi. subst. unfold held. st_simpl.
    by rewrite only_slot_0.
Qed.

Lemma held_pin k ph ini g : pin_by_slot g -> pin_by_slot (held k ph ini g).
Proof. by destruct k. Qed.
Lemma held_txn C k ph ph' ini g : rtc allowed (C, held k ph ini g) (C, held k ph' ini g).
Proof. destruct k; by apply rtc_once, allowed_quiet. Qed.

(** ** The safe frame *)
Section Scan.
Context (k : guard) (ini : header_state) (g : status) (Hpin : pin_by_slot g).
#[local] Abbreviation at_phase ph := (held k ph ini g).

(** One slot of the scan. *)
Lemma up_max_safe_step b slot slots safe (Q : Z -> status -> Prop) :
  1 <= slot < 5 -> 0 <= safe < 2 ^ 32 - 1 ->
  (forall safe', 0 <= safe' <= safe -> up (at_phase (PhScan b (slot + 1) safe')) (shared (max_safe_frame slots safe')) Q) ->
  up (at_phase (PhScan b slot safe)) (shared (max_safe_frame (slot :: slots) safe)) Q.
Proof.
  intros Hslot Hsafe HQ. cbn [max_safe_frame].
  apply up_bind_shared. eapply (upholds_mono _ _ _ _ (fun mark h => 0 <= mark /\
    h = at_phase (if mark <? safe then PhSeen b slot safe mark else PhScan b (slot + 1) safe))).
  { apply up_mark_value; [lia|]. intros C gs w base log v Hi Hl Hd Hv Hv0.
    exists (at_phase (if v <? safe then PhSeen b slot safe v else PhScan b (slot + 1) safe)).
    split_and!; [apply held_txn| |lia|reflexivity].
    apply (scan_mark page_sz i C base log w gs (at_phase (PhScan b slot safe)) b slot safe v); try done; [by apply held_pin|lia|lia]. }
  intros mark h [Hm ->]. rewrite wrap_small by (unfold in_u; lia).
  destruct (Z.ltb_spec mark safe) as [Hlt|Hge]; [|apply HQ; lia].
  apply up_bind_shared. apply upholds_ghost. eapply upholds_mono; [apply (up_try_ex_slot page_sz i slot); lia|].
  intros [] h Hh.
  - destruct Hh as (-> & _ & Hex). set (g1 := with_ex _ _).
    eapply ghost_mono; [apply (scan_free page_sz i b slot safe mark); [lia|reflexivity|unfold g1; set_solver|by destruct k]|].
    intros h ->.
    shared_with ltac:(apply up_set_mark; [lia|unfold g1; set_solver|unfold READMARK_NOT_USED; destruct (slot =? 1); [rewrite ?wrap_small by (unfold in_u; lia)|]; lia]).
    intros _ h ->. shared_with ltac:(apply up_unlock_ex_slot; [lia|unfold g1; set_solver]). intros _ h ->.
    assert (with_ex (st_ex (with_ph (PhScan b (slot + 1) safe) g1) ∖ {[slot]}) (with_ph (PhScan b (slot + 1) safe) g1) =
      at_phase (PhScan b (slot + 1) safe)) as ->; [|apply HQ; lia].
    assert (({[slot]} ∪ {[0]}) ∖ {[slot]} = ({[0]} : gset Z)) as E by (assert (slot <> 0) by lia; set_solver).
    unfold g1, held. st_simpl. by rewrite E.
  - subst h. eapply ghost_mono; [apply (scan_held page_sz i b slot safe mark); [done|by apply held_pin]|]. intros h ->. apply HQ. lia.
Qed.

Lemma up_max_safe_frame b safe :
  0 <= safe < 2 ^ 32 - 1 ->
  up (at_phase (PhScan b 1 safe)) (shared (max_safe_frame mark_slots safe))
    (fun safe' h => h = at_phase (PhScan b 5 safe')).
Proof.
  intros H. unfold mark_slots. do 4 (apply up_max_safe_step; [lia|lia|]; intros ? ?). by apply up_shared_ret.
Qed.

Lemma up_determine :
  up (at_phase PhNone) (shared (sn ← load_snapshot; determine_max_safe_checkpoint_frame (sn_max_frame sn)))
    (fun safe h => exists b, h = at_phase (PhScan b 5 safe)).
Proof.
  apply up_bind_shared. eapply (upholds_mono _ _ _ _ (fun sn h => snap_ok sn /\
    h = at_phase (PhScan (sn_nbackfills sn) 1 (sn_max_frame sn)))).
  { apply up_loads. intros C gs w base log Hi Hl Hd. eexists. split_and!; [apply held_txn| |by eapply snapshot_ok|reflexivity].
    apply (scan_start page_sz i C base log w gs (at_phase PhNone)); try done. by apply held_pin. }
  intros sn h [Hsn ->]. apply up_bind_shared, up_shared_checks; [destruct Hsn; apply Z.leb_le; unfold U32_MAX; lia|].
  eapply upholds_mono; [apply up_max_safe_frame; destruct Hsn; lia|]. intros safe h ->. by eexists.
Qed.

Lemma up_load_backfilled b slot safe :
  up (at_phase (PhScan b slot safe)) (shared (loads (fun s => sn_nbackfills (snapshot_of s))))
    (fun x h => h = at_phase (PhScan b slot safe) /\ x = b).
Proof.
  apply up_loads_only. intros C gs w base log Hi Hl Hd.
  pose proof (so_ph _ _ _ _ (do_status _ _ _ _ _ _ Hd i _ Hi)) as H. unfold phase_ok in H. simpl in H. simpl. tauto.
Qed.

Lemma up_load_pages b safe safe' :
  safe' <= safe ->
  up (at_phase (PhScan b 5 safe)) (shared (loads (iter_latest_frames (b + 1) safe')))
    (fun x h => h = at_phase (PhCopy b safe' (merge_sort by_frame x))).
Proof.
  intros Hs. apply up_loads. intros C gs w base log Hi Hl Hd. eexists. split_and!; [apply held_txn| |reflexivity].
  apply (copy_start page_sz i C base log w gs (at_phase (PhScan b 5 safe)) b safe); try done; [by apply held_pin|].
  apply merge_sort_Permutation.
Qed.

Lemma up_copy_frames b safe frames :
  up (at_phase (PhCopy b safe frames)) (copy_frames frames)
    (fun r h => exists todo, h = at_phase (PhCopy b safe todo) /\ (r = true -> todo = [])).
Proof.
  induction frames as [|[page n] frames IH]; [apply up_ret; by exists []|]. cbn [copy_frames].
  apply upholds_bind, up_chooses. intros []; [apply up_ret; by eexists|].
  bind_with ltac:(apply (up_copy_frame page_sz i (at_phase (PhCopy b safe ((page, n) :: frames))) b safe); [reflexivity|by apply held_pin]).
  intros _ h ->. exact IH.
Qed.
End Scan.

(** ** The states of a checkpoint *)
Lemma set_guard_none l : wc_checkpoint_guard l = None -> set_checkpoint_guard None l = l.
Proof. destruct l. simpl. by intros ->. Qed.

Section Run.
Context (l : WalFile) (g : status) (Hg : plain g) (Hm : matches l g) (Hl : wc_checkpoint_guard l = None).

(** The connection with its guard, and the status that goes with it. *)
Definition guarding (ko : option guard) (l' : WalFile) (h : status) : Prop :=
  l' = set_checkpoint_guard ko l /\
  match ko with
  | None => h = g
  | Some k => exists ph ini, h = held k ph ini g /\ guard_fits k ini g
  end.

Lemma up_release_guard ko l' h (Q : () -> status -> Prop) :
  guarding ko l' h -> Q () g -> up h (release_guard ko) Q.
Proof.
  intros [_ Hh] HQ. destruct ko as [k|]; [|subst h; by apply up_ret]. destruct Hh as (ph & ini & -> & Hk).
  eapply upholds_mono; [by apply up_release_checkpoint_guard|]. intros [] h E. by rewrite E.
Qed.

Lemma up_checkpoint_start mode :
  up g (checkpoint_start mode l)
    (fun r h => match r.1 with
                | Ok (None, sn) => r.2 = l /\ h = g /\ should_restart_log mode = false
                | Ok (Some (b, safe, pages), sn) => exists k, r.2 = set_checkpoint_guard (Some k) l /\
                    h = held k (PhCopy b safe pages) (st_ini g) g /\ guard_fits k (st_ini g) g /\
                    (require_all_backfilled mode = true -> k = GuardWriter)
                | Err _ => exists ko, guarding ko r.2 h
                | Panic => False
                end).
Proof.
  unfold checkpoint_start. assert (pin_by_slot g) as Hpin by apply Hg.
  bind_with ltac:(apply up_snapshot). intros sn h [-> _].
  destruct (negb _ && negb _) eqn:Eearly; [apply up_ret; split_and!; [done..|]; by apply andb_true_iff in Eearly as [_ E%negb_true_iff]|].
  unfold acquire_proper_checkpoint_guard. rewrite Hl. cbn [guard_serves].
  apply upholds_bind. cbn [release_guard]. apply upholds_bind, up_ret. rewrite (set_guard_none l Hl).
  bind_with ltac:(by apply up_acquire_checkpoint_guard). intros [k|e|] h Hh; [|subst h|done].
  2: { apply up_ret. apply up_ret. exists None. split; [by rewrite (set_guard_none l Hl)|done]. }
  destruct Hh as (-> & Hk & Hreq). apply up_ret.
  apply upholds_bind. eapply upholds_mono; [by apply up_determine|]. intros safe h (b & ->).
  bind_with ltac:(by apply up_load_backfilled). intros x h [-> ->].
  destruct (match mode with Truncate (Some ub) => ub <? safe | _ => false end).
  { apply up_ret. exists (Some k). split; [done|]. by eexists _, _. }
  set (safe' := match mode with Passive (Some ub) => Z.min safe ub | _ => safe end).
  apply upholds_bind. eapply upholds_mono; [apply (up_load_pages k (st_ini g) g Hpin b safe safe')|].
  { unfold safe'. destruct mode as [[]| | |]; lia. }
  intros pages h ->. apply up_ret. by exists k.
Qed.

(** What a finished checkpoint leaves. *)
Inductive checkpointed (mode : CheckpointMode) (r : CheckpointResult) (h : status) : Prop :=
| ckpt_released :
    cr_maybe_guard r = None -> h = g -> cr_wal_checkpoint_backfilled r = 0 -> 
    match mode with Truncate _ => should_truncate r = false | _ => True end -> checkpointed mode r h
| ckpt_copied k b :
    should_restart_log mode = false -> cr_maybe_guard r = Some k -> guard_fits k (st_ini g) g ->
    h = held k (PhCopy b (cr_wal_total_backfilled r) []) (st_ini g) g ->
    cr_wal_checkpoint_backfilled r = saturating_sub (cr_wal_total_backfilled r) b ->
    cr_wal_total_backfilled r <= cr_wal_max_frame r -> checkpointed mode r h
| ckpt_restarted :
    should_restart_log mode = true -> cr_maybe_guard r = Some GuardWriter -> st_wr g = false -> st_pin g = None ->
    h = held GuardWriter PhAll HdMissing g -> checkpointed mode r h.

Lemma matches_guard ko : matches (set_checkpoint_guard None (set_checkpoint_guard ko l)) g.
Proof. change (set_checkpoint_guard None _) with (set_checkpoint_guard None l). by rewrite (set_guard_none l Hl). Qed.

Lemma matches_restart sn ko : st_pin g = None -> matches (set_checkpoint_guard None (apply_restart_snapshot sn (set_checkpoint_guard ko l))) g.
Proof. intros Hp. destruct Hm; [by apply matches_idle|done]. Qed.

Lemma up_load_end k b safe (restart : bool) :
  (restart = true -> k = GuardWriter) -> guard_fits k (st_ini g) g ->
  up (held k (PhCopy b safe []) (st_ini g) g) (shared (loads (fun s => sn_max_frame (snapshot_of s))))
    (fun x h => safe <= x /\
       h = held k (if restart && (x =? safe) then PhAll else PhCopy b safe []) (st_ini g) g).
Proof.
  intros Hr Hk. apply up_loads. intros C gs w base log Hi Hlk Hd.
  pose proof (so_ph _ _ _ _ (do_status _ _ _ _ _ _ Hd i _ Hi)) as H. unfold phase_ok in H. simpl in H.
  eexists. split; [apply held_txn|]. split; [|split; [|reflexivity]]; [|simpl; tauto].
  simpl. destruct (restart && (mx w =? safe)) eqn:E.
  - apply andb_true_iff in E as [E1 E2%Z.eqb_eq]. specialize (Hr E1). subst k.
    apply (all_step page_sz i (held GuardWriter (PhCopy b safe []) (st_ini g) g) b safe C base log w gs); try done.
    + apply held_pin, Hg.
    + by apply (pl_wr _ Hg).
  - rewrite list_insert_id by done. split; [done|eauto].
Qed.

Lemma up_checkpoint_finish mode rand b safe k :
  guard_fits k (st_ini g) g -> (require_all_backfilled mode = true -> k = GuardWriter) ->
  up (held k (PhCopy b safe []) (st_ini g) g) (checkpoint_finish mode rand b safe (set_checkpoint_guard (Some k) l))
    (fun r h => match r.1 with
                | Ok res => matches r.2 g /\ checkpointed mode res h
                | Err _ => guarding (Some k) r.2 h
                | Panic => False
                end).
Proof.
  intros Hk Hreq. unfold checkpoint_finish. assert (pin_by_slot g) as Hpin by apply Hg.
  assert (should_restart_log mode = true -> k = GuardWriter) as Hrs by (intros E; apply Hreq; by destruct mode).
  apply upholds_bind. eapply upholds_mono; [apply (up_load_end k b safe (should_restart_log mode)); done|].
  intros x h [Hx ->]. cbn [cr_wal_checkpoint_backfilled cr_maybe_guard]. unfold everything_backfilled. cbn [cr_wal_max_frame cr_wal_total_backfilled].
  destruct (require_all_backfilled mode && negb (x =? safe)) eqn:Ereq.
  { apply up_ret. split; [done|]. by eexists _, _. }
  destruct (should_restart_log mode) eqn:Ers.
  - specialize (Hrs eq_refl). subst k.
    assert (x = safe) as -> by (destruct mode; try done; cbn [require_all_backfilled andb] in Ereq; by destruct (Z.eqb_spec x safe)).
    rewrite Z.eqb_refl. cbn [andb]. apply upholds_bind.
    apply upholds_bind, up_checks; [done|]. apply upholds_bind.
    set (g1 := held GuardWriter PhAll (st_ini g) g).
    eapply upholds_mono; [apply (up_begin_restart page_sz i rand g1 (fun sn h => h = with_ini HdMissing (with_ex all_slots g1) /\ st_pin g = None)); [reflexivity|]|].
    { eapply upholds_mono; [apply up_restart_all; [reflexivity|apply Hg|apply all_slots_elem]|].
      intros r h (sn & -> & -> & Hp & _). exists sn. done. }
    intros r h [[-> ->]|(sn & -> & -> & Hp)].
    { apply up_ret. apply up_ret. split; [done|]. by eexists _, _. }
    apply upholds_bind. eapply upholds_mono; [apply (up_end_restart page_sz i _ {[0]})|].
    { intros j Hj. unfold mark_slots, all_slots in *. st_simpl. set_solver. }
    { unfold all_slots, mark_slots. st_simpl. set_solver. }
    intros [] h ->. apply up_ret. bind_with ltac:(apply up_bump). intros _ h ->.
    destruct (_ || _) eqn:Eret; [|unfold should_truncate, everything_backfilled in Eret; cbn [cr_wal_max_frame cr_wal_total_backfilled] in Eret; by rewrite Z.eqb_refl in Eret].
    apply up_ret. split; [by apply matches_restart|]. by apply ckpt_restarted.
  - cbn [andb]. apply upholds_bind, up_ret. bind_with ltac:(apply up_bump). intros _ h ->.
    destruct (_ || _) eqn:Eret.
    + apply up_ret. split; [apply matches_guard|]. by apply (ckpt_copied _ _ _ k b).
    + apply upholds_bind. eapply up_release_guard; [split; [reflexivity|]; by eexists _, _|].
      apply up_ret. split; [apply matches_guard|]. apply orb_false_iff in Eret as [Et Eb%Z.ltb_ge].
      apply ckpt_released; try done; [|by destruct mode]. cbn [cr_wal_checkpoint_backfilled] in *. unfold saturating_sub in *. lia.
Qed.

Lemma up_sync_wal sync_off pages h (Q : status -> Prop) :
  Q h -> up h (sync_wal sync_off pages) (fun _ h => Q h).
Proof. intros HQ. unfold sync_wal. destruct (_ && _); [by apply up_chooses|by apply up_ret]. Qed.

Lemma up_wal_checkpoint mode sync_off rand :
  up g (wal_checkpoint mode sync_off rand l)
    (fun r h => match r.1 with
                | Ok res => matches r.2 g /\ checkpointed mode res h
                | Err _ => matches r.2 g /\ h = g
                | Panic => False
                end).
Proof.
  unfold wal_checkpoint. apply upholds_bind.
  eapply (upholds_mono _ _ _ _ (fun r h => match r.1 with
                | Ok res => matches r.2 g /\ checkpointed mode res h
                | Err _ => exists ko, guarding ko r.2 h
                | Panic => False
                end)).
  - apply upholds_bind. eapply upholds_mono; [apply up_checkpoint_start|].
    intros [[[[[[b safe] pages]|] sn]|e|] l'] h Hh; cbn [fst snd] in Hh; [| |by apply up_ret|done].
    + destruct Hh as (k & -> & -> & Hk & Hreq). apply upholds_bind.
      eapply upholds_mono; [apply (up_sync_wal _ _ _ (fun h => h = held k (PhCopy b safe pages) (st_ini g) g)); done|].
      intros [] h ->; [apply up_ret; exists (Some k); split; [done|]; by eexists _, _|].
      apply upholds_bind. eapply upholds_mono; [apply up_copy_frames, Hg|]. intros r h (todo & -> & Hr). destruct r; cbn [negb].
      * rewrite (Hr eq_refl). eapply upholds_mono; [by apply up_checkpoint_finish|].
        intros [[res|e|] l'] h Hh; cbn [fst snd] in *; [done|by exists (Some k)|done].
      * apply up_ret. exists (Some k). split; [done|]. by eexists _, _.
    + destruct Hh as (-> & -> & Hr). apply up_ret. split; [done|]. apply ckpt_released; try done. by destruct mode.
  - intros [[res|e|] l'] h Hh; cbn [fst snd] in Hh; [by apply up_ret| |done].
    destruct Hh as (ko & Hko). pose proof Hko as [El _]. apply upholds_bind.
    assert (wc_checkpoint_guard l' = ko) as Eko by (by rewrite El). rewrite Eko.
    eapply up_release_guard; [exact Hko|]. apply up_ret. split; [|done]. rewrite El. apply matches_guard.
Qed.

Lemma up_wal_publish_backfill k b safe ini :
  b <= safe ->
  up (held k (PhCopy b safe []) ini g) (wal_publish_backfill safe) (fun _ h => h = held k PhNone ini g).
Proof.
  intros Hb. unfold wal_publish_backfill. apply upholds_bind.
  eapply upholds_mono; [apply (up_loads_only _ _ _ _ (fun sn => sn_nbackfills sn <= safe <= sn_max_frame sn))|].
  { intros C gs w base log Hi Hlk Hd.
    pose proof (so_ph _ _ _ _ (do_status _ _ _ _ _ _ Hd i _ Hi)) as H. unfold phase_ok in H. simpl in H. simpl. lia. }
  intros sn h [-> Hsn]. apply upholds_bind, up_checks; [apply andb_true_iff; split; apply Z.leb_le; lia|].
  eapply upholds_mono; [apply (up_publish_backfill page_sz i (held k (PhCopy b safe []) ini g) b safe); [reflexivity|lia|apply held_pin, Hg]|].
  by intros _ h ->.
Qed.

Lemma up_release_held ko ph ini (Q : () -> status -> Prop) k :
  ko = Some k -> guard_fits k ini g -> Q () g -> up (held k ph ini g) (release_guard ko) Q.
Proof.
  intros -> Hk HQ. eapply upholds_mono; [by apply up_release_checkpoint_guard|]. intros [] h E. by rewrite E.
Qed.

(** [Pager::checkpoint] *)
Lemma up_checkpoint mode sync_off rand :
  up g (checkpoint mode sync_off rand l) (fun r h => matches r.2 h /\ h = g /\ r.1 <> Panic).
Proof.
  unfold checkpoint. apply upholds_bind. eapply upholds_mono; [apply up_wal_checkpoint|].
  intros [[res|e|] l'] h Hh; cbn [fst snd] in Hh; [|destruct Hh as [Hm' ->]; by apply up_ret|done]. destruct Hh as [Hm' Hh].
  set (truncates := match mode with Truncate _ => should_truncate res | _ => false end).
  set (synced := truncates || _). apply upholds_bind.
  eapply (upholds_mono _ _ _ _ (fun _ h' => h' = h)).
  { destruct (negb synced); [by apply up_ret|]. by apply up_chooses. }
  intros failed h' ->. destruct failed; cbn [negb].
  { apply upholds_bind. inversion Hh as [R1 R2 R3 R4|k b R1 R2 R3 R4 R5 R6|R1 R2 R3 R4 R5]; subst h.
    - rewrite R1. by apply up_ret, up_ret.
    - eapply up_release_held; [done..|]. by apply up_ret.
    - eapply up_release_held; [done..|]. by apply up_ret. }
  apply upholds_bind.
  inversion Hh as [R1 R2 R3 R4|k b R1 R2 R3 R4 R5 R6|R1 R2 R3 R4 R5].
  - assert (synced = false) as ->.
    { unfold synced, truncates. rewrite R3. cbn [Z.eqb orb negb]. rewrite orb_false_r. by destruct mode. }
    cbn [negb]. apply up_ret. apply upholds_bind. rewrite R1. apply up_ret, up_ret. by rewrite R2.
  - eapply (upholds_mono _ _ _ _ (fun _ h => exists ph, h = held k ph (st_ini g) g)).
    + destruct (negb synced); [apply up_ret; by eexists|]. rewrite R1. cbn [negb]. rewrite andb_true_r.
      destruct (negb sync_off && (0 <? _)) eqn:E.
      * apply upholds_bind, up_checks; [by apply Z.leb_le|]. rewrite R4. apply upholds_bind. eapply upholds_mono; [apply up_wal_publish_backfill|].
        -- apply andb_true_iff in E as [_ E%Z.ltb_lt]. rewrite R5 in E. unfold saturating_sub in E. lia.
        -- intros [] h1 ->. apply up_ret. by eexists.
      * destruct mode; try done; apply up_ret; by eexists.
    + intros f h1 (ph & ->). apply upholds_bind. eapply up_release_held; [done..|]. apply up_ret. by destruct f.
  - eapply (upholds_mono _ _ _ _ (fun _ h => h = held GuardWriter PhAll HdMissing g)).
    + destruct (negb synced); [by apply up_ret|]. rewrite R1. cbn [negb]. rewrite andb_false_r.
      assert (forall pi, st_pin (held GuardWriter PhAll HdMissing g) = Some pi -> st_ver (held GuardWriter PhAll HdMissing g) = true) as Hp.
      { intros pi E. simpl in E. congruence. }
      destruct mode; try (by apply up_ret). rewrite R5. unfold truncate_log.
      apply upholds_bind. eapply upholds_mono; [apply up_prepare_truncate; try done; by right|]. intros [] h1 ->.
      apply upholds_bind, up_chooses. intros [|]; [by apply up_ret|]. apply upholds_bind.
      eapply upholds_mono; [apply up_truncate_frames; try done; [by right|by left|apply Hg]|]. intros [] h1 ->.
      by apply up_chooses.
    + intros f h1 ->. apply upholds_bind. eapply up_release_held; [done..|]. apply up_ret. by destruct f.
Qed.
End Run.
End Checkpoint.
