(* ===== verification/WalIsolation.v ===== *)
(** * Snapshot isolation of the write-ahead log

    Any number of connections run transactions and checkpoints on one log, their
    atomic actions interleaved by a scheduler that also decides which lock races
    are lost and which I/O requests fail.  The log refines a database that serves
    the same requests one at a time ([effect]): the traces of requests, with the
    pages they carry, and of replies are the same. *)
From stdpp Require Import gmap relations sorting.
From S2P Require Import Prelude Errors OnDisk WalFormat WalLock WalShared WalRecovery WalIndex.
From S2P Require Import Threads WalCoordination WalConnection WalInvariant WalSteps WalActions.
From S2P Require Import WalPrograms WalCommit WalCheckpoint.

(** What the caller of an operation learns: success or the error. *)
Abbreviation reply := (res LimboError ()).
(** A connection at rest: the last reply and its fields. *)
Abbreviation conn := (reply * WalFile)%type.

Section Isolation.
Context {Data : Type} (frame_sum : WalHeader -> Z * Z -> Z -> Z -> Data -> Z * Z) (page_len : Data -> Z) (host_big : bool) (page_sz : Z).
#[local] Abbreviation world := (world (Data := Data)).
#[local] Abbreviation status := (status (Data := Data)).
#[local] Abbreviation mx w := (md_max_frame (metadata (w_shared w))).
#[local] Abbreviation nb w := (md_nbackfills (metadata (w_shared w))).

(** ** What a connection may run *)
Inductive wal_op :=
| BeginRead
| EndRead
| BeginWrite (restart_allowed : bool) (rand : Z)
| Commit (rand_1 rand_2 db_size : Z) (pages : list (Z * Data))
| Spill (rand_1 rand_2 : Z) (pages : list (Z * Data))
| Rollback
| Checkpoint (mode : CheckpointMode) (sync_off : bool) (rand : Z).

Definition answer {A} (r : res LimboError A) : reply :=
  match r with Ok _ => Ok () | Err e => Err e | Panic => Panic end.

Definition serve (o : wal_op) (l : WalFile) : prog world conn :=
  match o with
  | BeginRead => '(r, l) ← begin_read_tx l; Ret (answer r, l)
  | EndRead => l ← wal_end_read_tx l; Ret (Ok (), l)
  | BeginWrite restart_allowed rand => begin_write_tx restart_allowed rand l
  | Commit rand_1 rand_2 db_size pages => commit_and_end frame_sum page_len host_big page_sz rand_1 rand_2 db_size pages l
  | Spill rand_1 rand_2 pages => spill frame_sum page_len host_big page_sz rand_1 rand_2 pages l
  | Rollback => l ← rollback_tx l; Ret (Ok (), l)
  | Checkpoint mode sync_off rand => '(r, l) ← checkpoint mode sync_off rand l; Ret (answer r, l)
  end.
Definition run_op (o : wal_op) (c : conn) : prog world conn := serve o c.2.

(** Pages are numbered from one and have the size of the database's pages. *)
Definition good_page (x : Z * Data) : bool := (0 <? x.1) && (page_len x.2 =? page_sz).

(** Frame numbers and the transaction count stay in their types. *)
Definition pages_fit (pages : list (Z * Data)) (l : WalFile) : bool :=
  bool_decide (PageSize_new page_sz <> None) && forallb good_page pages &&
  (wc_max_frame l + zlen pages <? 2 ^ 32 - 1).

Definition op_ok (o : wal_op) (c : conn) : bool :=
  let l := c.2 in
  let reading := bool_decide (wc_read_guard l <> GuardNone) in
  let writing := wc_write_lock_held l in
  match o with
  | BeginRead => negb reading
  | EndRead => negb writing
  | BeginWrite _ _ => reading && negb writing
  | Commit _ _ _ pages => writing && bool_decide (pages <> []) && pages_fit pages l && (wc_transaction_count l <? 2 ^ 64 - 1)
  | Spill _ _ pages => writing && (zlen pages <=? IOV_MAX) && pages_fit pages l
  | Rollback | Checkpoint _ _ _ => true
  end.

Definition starts : conn -> prog world conn -> Prop := op_starts op_ok run_op.

(** ** The specification: a database that serves one request at a time *)

(** What a request does to the committed contents and to the transaction of the connection.
    Readers see the contents at their beginning.  A writer starts from the current contents
    and commits only where they are still what it started from; its commit and its spills
    write the pages of the request over its view.  Requests that fail leave the committed
    contents alone. *)
Inductive effect : wal_op -> reply -> (Z -> Data) * txn -> (Z -> Data) * txn -> Prop :=
| effect_begin C v : (forall p, v p = C p) -> effect BeginRead (Ok ()) (C, Idle) (C, Reading v)
| effect_begin_fails C e : effect BeginRead (Err e) (C, Idle) (C, Idle)
| effect_end C t : writes t = false -> effect EndRead (Ok ()) (C, t) (C, Idle)
| effect_upgrade C v b rand :
    (forall p, v p = C p) -> effect (BeginWrite b rand) (Ok ()) (C, Reading v) (C, Writing v v)
| effect_upgrade_fails C v b rand e : effect (BeginWrite b rand) (Err e) (C, Reading v) (C, Reading v)
| effect_commit C from v r1 r2 size pages :
    (forall p, from p = C p) ->
    effect (Commit r1 r2 size pages) (Ok ()) (C, Writing from v) (overlay v pages, Idle)
| effect_commit_fails C from v r1 r2 size pages e :
    effect (Commit r1 r2 size pages) (Err e) (C, Writing from v) (C, Writing from v)
| effect_spill C from v r1 r2 pages :
    effect (Spill r1 r2 pages) (Ok ()) (C, Writing from v) (C, Writing from (overlay v pages))
| effect_spill_fails C from v r1 r2 pages e :
    effect (Spill r1 r2 pages) (Err e) (C, Writing from v) (C, Idle)
| effect_rollback C t : effect Rollback (Ok ()) (C, t) (C, Idle)
| effect_checkpoint C t mode sync_off rand r :
    r <> Panic -> effect (Checkpoint mode sync_off rand) r (C, t) (C, t).

(** Runs of the database and of the log with their requests and replies. *)
Definition db_trace : (Z -> Data) * list (client wal_op reply txn) -> list label -> _ -> Prop := trace (serve_step effect).
Definition log_trace : config -> list label -> config -> Prop := trace (label_step op_ok run_op fst).

(** ** The moves of an operation *)
#[local] Abbreviation client := (client wal_op reply (txn (Data := Data))).

(** A reader sees its contents from the moment it pins them. *)
Program Definition begin_moves : Moves (Data := Data) :=
  {| allowed a b := b.1 = a.1 /\ (txn_of b.2 = txn_of a.2 \/
       txn_of a.2 = Idle /\ exists v, txn_of b.2 = Reading v /\ forall p, v p = a.1 p) |}.
Next Obligation. intros. split; [done|by left]. Qed.
Definition begin_seen (g : status) : client :=
  match txn_of g with Idle => Asked Idle BeginRead | t => Answered t BeginRead (Ok ()) end.

(** A commit takes effect when its frames are published. *)
Program Definition commit_moves (from v : Z -> Data) : Moves (Data := Data) :=
  {| allowed a b := b.1 = a.1 /\ writes (txn_of b.2) = writes (txn_of a.2) \/
       writes (txn_of a.2) = true /\ writes (txn_of b.2) = false /\ b.1 = v /\ forall p, from p = a.1 p |}.
Next Obligation. simpl. intros from v C g g' E. left. by rewrite E. Qed.
Definition commit_seen (o : wal_op) (t : txn) (g : status) : client :=
  if writes (txn_of g) then Asked t o else Answered Idle o (Ok ()).

(** The other operations take effect when they reply. *)
Program Definition free_moves : Moves (Data := Data) := {| allowed a b := b.1 = a.1 |}.
Next Obligation. done. Qed.

Lemma begin_once : effect_once effect BeginRead begin_seen (@allowed _ begin_moves).
Proof.
  intros C g C' g' [E H]. simpl in E, H. subst C'. unfold begin_seen.
  destruct H as [->|(-> & v & -> & Hv)]; [by left|]. right. eexists _, _, _. split_and!; [done..|]. by constructor.
Qed.

Lemma commit_once r1 r2 size pages from v (o := Commit r1 r2 size pages) :
  effect_once effect o (commit_seen o (Writing from v)) (@allowed _ (commit_moves from (overlay v pages))).
Proof.
  intros C g C' g' [[E H]|(H1 & H2 & E & Hf)]; simpl in *; unfold commit_seen.
  - left. by rewrite H.
  - right. rewrite H1, H2, E. eexists _, _, _. split_and!; [done..|]. by constructor.
Qed.

Lemma free_once o t : effect_once effect o (fun _ => Asked t o) (@allowed _ free_moves).
Proof. intros C g C' g' H. by left. Qed.

Lemma pages_fit_ok pages l :
  pages_fit pages l = true ->
  PageSize_new page_sz <> None /\ Forall (page_ok page_len page_sz) pages /\ wc_max_frame l + zlen pages < 2 ^ 32 - 1.
Proof.
  unfold pages_fit. rewrite !andb_true_iff, Z.ltb_lt, bool_decide_eq_true. intros [[H1 H2] H3]. split_and!; [done| |done].
  apply Forall_forall. intros x Hx. rewrite forallb_forall in H2. apply H2 in Hx.
  apply andb_true_iff in Hx as [Hx1%Z.ltb_lt Hx2%Z.eqb_eq]. done.
Qed.

Lemma matches_plain l (g : status) : matches l g -> plain g /\ wc_checkpoint_guard l = None.
Proof.
  intros [H1 H2 H3 H4|wr k v p ini Hc Hw Hi].
  - split; [|done]. constructor; try done. by left.
  - split; [|apply Hc]. constructor; try done; [right; by eexists|]. simpl. intros ->. auto.
Qed.

(** The contents a writer started from are the committed ones. *)
Lemma writer_committed C gs w i (g : status) from v :
  wal_inv page_sz C gs w -> gs !! i = Some g -> txn_of g = Writing from v -> forall p, from p = C p.
Proof.
  intros [Hl (base & log & Hd)] Hi Ht p. unfold txn_of in Ht. destruct (st_pin g) as [pi|] eqn:Ep; [|done].
  destruct (st_ver g) eqn:Ev; [|done]. injection Ht as <- _.
  destruct (so_ver _ _ _ _ (do_status _ _ _ _ _ _ Hd i g Hi) Ev) as (_ & pi' & Ep' & _ & _ & _ & _ & _ & _ & Hf & _).
  rewrite Ep in Ep'. injection Ep' as <-. rewrite <- Hf. apply (do_committed _ _ _ _ _ (do_global _ _ _ _ _ _ Hd)).
Qed.

#[local] Abbreviation matches_conn := (fun (c : conn) (g : status) => matches c.2 g).
#[local] Abbreviation serving := (serving fst (wal_inv page_sz) matches_conn txn_of effect).
#[local] Abbreviation upf := (upholds (wal_inv page_sz) (@allowed _ free_moves)).

(** An operation that takes effect with its reply. *)
Lemma free_serving i o (g : status) (m : prog world conn) :
  upf i g m (fun r h => matches r.2 h /\
    forall C, (forall from v, txn_of h = Writing from v -> forall p, from p = C p) -> effect o r.1 (C, txn_of g) (C, txn_of h)) ->
  serving i (Asked (txn_of g) o) g m.
Proof.
  intros Hu. exists o, (fun _ => Asked (txn_of g) o), (@allowed _ free_moves). split_and!; [done|apply free_once|].
  eapply upholds_mono; [exact Hu|]. intros r h [Hm He]. split; [done|]. intros C gs w HI Hi. right. eexists. split; [done|].
  apply He. intros from v. by eapply writer_committed.
Qed.

Lemma may_change_free : may_change (M := free_moves).
Proof. by intros C g g'. Qed.

Lemma begin_serving i l :
  matches l (idle (Data := Data)) -> serving i (Asked Idle BeginRead) idle (serve BeginRead l).
Proof.
  intros Hm. exists BeginRead, begin_seen, (@allowed _ begin_moves). split_and!; [done|apply begin_once|].
  apply upholds_bind. eapply upholds_mono; [apply (up_begin_read_attempts page_sz i 101 l); [|done]|].
  - intros C g g' v H1 H2 H3. split; [done|]. right. split; [done|]. by exists v.
  - intros [r l'] h [Hm' Hr]. split; [done|]. intros C gs w _ _. unfold begin_seen. simpl in *. destruct r as [b|e|].
    + left. by destruct (txn_of h).
    + right. subst h. exists Idle. split; [done|]. constructor.
    + done.
Qed.

Lemma commit_serving (Hsz : page_sz <> 0) i l r1 r2 size pages k v p ini (o := Commit r1 r2 size pages) (g := in_tx true k v p ini) :
  conn_ok l k p -> wc_write_lock_held l = true -> pages <> [] -> pages_fit pages l = true ->
  wc_transaction_count l < 2 ^ 64 - 1 -> serving i (Asked (txn_of g) o) g (serve o l).
Proof.
  intros Hc Hw Hne Hfit Hcnt. apply pages_fit_ok in Hfit as (Hps & Hpg & Hcap).
  exists o, (commit_seen o (txn_of g)), (@allowed _ (commit_moves (pn_from p) (overlay (pn_view p) pages))).
  split_and!; [done|apply commit_once|]. eapply upholds_mono; [apply up_commit_and_end; try done|].
  - intros C h h' E. by left.
  - intros C h h' E1 E2 E3. right. simpl. by rewrite E1.
  - intros [r l'] h [Hm Hr]. split; [done|]. intros C gs w _ _. simpl in *. unfold commit_seen. destruct r as [[]|e|]; [| |done].
    + left. by rewrite Hr.
    + right. rewrite Hr. eexists. split; [done|]. constructor.
Qed.

Lemma starts_serving (Hsz : page_sz <> 0) i (c : conn) o (g : status) :
  matches c.2 g -> op_ok o c = true -> serving i (Asked (txn_of g) o) g (run_op o c).
Proof.
  destruct c as [r0 l]. unfold run_op, op_ok. cbn [snd]. intros Hm Ho.
  assert (wc_write_lock_held l = true -> exists k v q ini, g = in_tx true k v q ini /\ conn_ok l k q) as Hwr.
  { intros Hw. destruct Hm as [|wr k v q ini Hc Hw' Hi]; [congruence|]. exists k, v, q, ini. split; [|done]. congruence. }
  assert (wc_write_lock_held l = false -> writes (txn_of g) = false) as Hrd.
  { intros Hw. destruct Hm as [|wr k v q ini Hc Hw' Hi]; [done|]. rewrite Hw in Hw'. by subst wr. }
  pose proof may_change_free as Hch. pose proof (change_turn Hch) as Htu. destruct o.
  - apply negb_true_iff, bool_decide_eq_false in Ho. destruct Hm as [? ? ? ?|wr k v q ini Hc].
    + apply begin_serving. by apply matches_idle.
    + exfalso. apply Ho. intros E. pose proof (co_guard _ _ _ Hc) as E'. by rewrite E in E'.
  - apply negb_true_iff in Ho. apply free_serving, upholds_bind. eapply upholds_mono; [by apply up_end_read_tx|].
    intros l' h [Hm' ->]. split; [done|]. intros C _. constructor. auto.
  - apply andb_true_iff in Ho as [H1%bool_decide_eq_true H2%negb_true_iff]. apply free_serving.
    eapply upholds_mono; [by apply up_begin_write_tx|]. intros [r l'] h (Hm' & v & Hg & Hr). split; [done|].
    intros C HC. simpl in *. rewrite Hg. destruct r as [[]|e|]; [| |done]; rewrite Hr; constructor. by eapply HC.
  - rewrite !andb_true_iff, !Z.ltb_lt, bool_decide_eq_true in Ho. destruct Ho as [[[Hw Hne] Hfit] Hcnt].
    destruct (Hwr Hw) as (k & v & q & ini & -> & Hc). by apply commit_serving.
  - rewrite !andb_true_iff, Z.leb_le in Ho. destruct Ho as [[Hw Hlen] Hfit]. destruct (Hwr Hw) as (k & v & q & ini & -> & Hc).
    apply pages_fit_ok in Hfit as (H0 & H1 & H2). apply free_serving. eapply upholds_mono; [by apply up_spill|].
    intros [r l'] h [Hm' Hr]. split; [done|]. intros C _. simpl in *. destruct r as [[]|e|]; [| |done]; rewrite Hr; constructor.
  - apply free_serving, upholds_bind. eapply upholds_mono; [by apply up_rollback_tx|].
    intros l' h [Hm' ->]. split; [done|]. intros C _. constructor.
  - destruct (matches_plain l g Hm) as [Hp Hn]. apply free_serving, upholds_bind. eapply upholds_mono; [by apply up_checkpoint|].
    intros [r l'] h (Hm' & -> & Hr). split; [done|]. intros C _. constructor. simpl in *. by destruct r.
Qed.

(** Whatever the effects, the invariant holds. *)
Lemma starts_ok (Hsz : page_sz <> 0) i c p (g : status) :
  matches c.2 g -> starts c p -> upholds (wal_inv page_sz) (fun _ _ => True) i g p matches_conn.
Proof.
  intros Hm (o & Ho & ->). destruct (starts_serving Hsz i c o g Hm Ho) as (o' & seen & al & _ & _ & Hu).
  eapply upholds_weaken; [|eapply upholds_mono; [exact Hu|]]; [done|]. by intros c' h [? _].
Qed.

(** ** Reading *)

(** What a pinned range of frames shows. *)
Lemma read_range base log C (w : world) gs (lo hi : Z) (v : Z -> Data) l p :
  data_ok page_sz base log w C gs -> wc_max_frame l = hi -> wc_min_frame l <= nb w + 1 ->
  frames_agree log w hi -> db_within base w hi -> (forall p, asof base (w_frames w) hi p = v p) ->
  read_page p l w = Some (v p).
Proof.
  intros Hd Emax Hmin Hag Hdb Hv. pose proof (do_global _ _ _ _ _ _ Hd) as Hgl.
  pose proof (do_bounds _ _ _ _ _ Hgl) as Hb. destruct (Hdb p) as (k & Hk & E).
  assert (Hnone : (forall m, wc_min_frame l <= m <= hi -> zget log (m - 1) <> Some p) -> Some (w_db w p) = Some (v p)).
  { intros H. rewrite E, <- Hv. f_equal. symmetry. apply (content_gap base log w hi); [done|lia|lia|].
    intros m Hm. apply H. lia. }
  unfold read_page, wal_find_frame. rewrite Emax. destruct (Z.ltb_spec hi (wc_min_frame l)); [apply Hnone; lia|].
  rewrite (find_frame_rfind _ _ _ None log) by apply Hgl.
  pose proof (rfind_latest p log (wc_min_frame l) hi) as H'. destruct (rfind _ _) as [n|] eqn:Er; [|by apply Hnone].
  assert (latest_frame log p (Z.max 1 (wc_min_frame l)) hi n) as Hn.
  { destruct H' as (H1 & H2 & H3). split_and!; try done; [|lia]. apply zget_Some_range in H2. lia. }
  destruct (content_latest base log w hi (Z.max 1 (wc_min_frame l)) hi p n Hag ltac:(lia) ltac:(lia) Hn) as (d & Hf & Hc).
  rewrite Hf. simpl. by rewrite <- Hv, Hc.
Qed.

(** The connection sees what its transaction sees. *)
Definition sees (l : WalFile) (t : txn) (w : world) : Prop :=
  match t with
  | Idle => wc_read_guard l = GuardNone
  | Reading v => wc_read_guard l <> GuardNone /\ wc_write_lock_held l = false /\ forall p, read_page p l w = Some (v p)
  | Writing _ v => wc_write_lock_held l = true /\ forall p, read_page p l w = Some (v p)
  end.

Lemma matches_sees C gs w i l (g : status) :
  wal_inv page_sz C gs w -> gs !! i = Some g -> matches l g -> sees l (txn_of g) w.
Proof.
  intros [Hl (base & log & Hd)] Hi Hm. destruct Hm as [H1 H2 H3 H4|wr k v p ini Hc Hw Hini]; [done|].
  pose proof (do_status _ _ _ _ _ _ Hd i _ Hi) as Hst.
  destruct (so_pin _ _ _ _ Hst p eq_refl) as [P1 P2 P3 P4 P5]. pose proof Hc as [C1 C2 C3 C4 C5 C6 C7].
  assert (forall q, read_page q l w = Some (pn_view p q)) as Hr.
  { intros q. apply (read_range base log C w gs 0 (pn_max p)); try done; [lia|]. destruct wr.
    - by apply (writer_info page_sz i (in_tx true k v p ini) p eq_refl eq_refl C base log w gs Hd Hi).
    - eapply frames_agree_le; [apply (do_frames _ _ _ _ _ (do_global _ _ _ _ _ _ Hd))|by apply P3]. }
  assert (wc_read_guard l <> GuardNone) as Hg by (intros E; by rewrite E in C1).
  destruct wr; simpl; auto.
Qed.

(** A reader that pins the current snapshot. *)
Definition newest (l : WalFile) (w : world) : WalFile :=
  install_connection_state (snapshot_of (w_shared w)) DbFile l.

Lemma newest_reads C gs w l p : wal_inv page_sz C gs w -> read_page p (newest l w) w = Some (C p).
Proof.
  intros [Hl (base & log & Hd)]. pose proof (do_global _ _ _ _ _ _ Hd) as Hgl.
  apply (read_range base log C w gs 0 (mx w)); try done; try apply Hgl.
Qed.

(** ** Opening *)
Definition fresh (l : WalFile) : Prop :=
  wc_read_guard l = GuardNone /\ wc_vacuum_read_guard l = false /\ wc_write_lock_held l = false /\
  wc_checkpoint_guard l = None.

(** The state of the log when it is opened: no locks, an index of the frames up to the last
    commit, which are in the file. *)
Record opened (log : list Z) (w : world) : Prop := mkOpened {
  on_locks : locks_free (w_shared w);
  on_index : indexes log (w_shared w);
  on_max : mx w = zlen log;
  on_range : zlen log < 2 ^ 32 - 1;
  on_backfilled : nb w = 0;
  on_frames : frames_agree log w (zlen log);
  on_enabled : md_enabled (metadata (w_shared w)) = true;
  on_header : md_initialized (metadata (w_shared w)) = true /\ wh_page_size (md_wal_header (metadata (w_shared w))) = page_sz \/
    md_initialized (metadata (w_shared w)) = false /\ log = [] /\ wh_page_size (md_wal_header (metadata (w_shared w))) = 0
}.

Lemma tally_idle f n : f (idle (Data := Data)) = false -> tally f (replicate n (idle (Data := Data))) = 0.
Proof. intros Hf. induction n as [|n IH]; [done|]. simpl. by rewrite Hf, IH. Qed.

Lemma opened_locks s n : Z.of_nat n < 2 ^ 31 -> locks_free s -> locks_ok (replicate n (idle (Data := Data))) s.
Proof.
  intros Hn (H5 & Hr & Hv & Hw & Hc). split_and!; [|done|].
  - unfold zlen. by rewrite length_replicate.
  - intros k Hk. unfold lock_ok. rewrite !tally_idle by (by destruct k).
    destruct k as [j| | |]; simpl in Hk |- *; [|destruct Hv as [x Hx]|destruct Hw as [x Hx]|destruct Hc as [x Hx]];
      [|by do 2 eexists..].
    destruct (zget_range (rt_read_locks (runtime s)) j) as [x Hx]; [lia|]. rewrite Hx.
    unfold zget in Hx. destruct (j <? 0); [done|]. rewrite Forall_lookup in Hr. destruct (Hr _ _ Hx) as [v Hxv]. by exists x, v.
Qed.

Lemma opened_ok log w n :
  Z.of_nat n < 2 ^ 31 -> opened log w ->
  wal_inv page_sz (asof (w_db w) (w_frames w) (mx w)) (replicate n idle) w.
Proof.
  intros Hn [O1 O2 O3 O4 O5 O6 O7 O8]. pose proof (zlen_nonneg log).
  split; [by apply opened_locks|]. exists (w_db w), log. constructor.
  - constructor; rewrite ?O3, ?O5; try done.
    + intros p. exists 0. rewrite O5. split; [lia|done].
    + intros E. destruct O8 as [[? _]|(_ & -> & _)]; [congruence|done].
    + destruct O8 as [[_ ?]|(_ & _ & ?)]; auto.
    + intros E. destruct O8 as [[_ ?]|(? & _ & _)]; [auto|congruence].
  - intros i g Hi. apply lookup_replicate in Hi as [-> _]. by constructor.
  - intros i j g h Hi Hj. apply lookup_replicate in Hi as [-> _]. by intros pi _.
Qed.

Definition initial (ls : list WalFile) (w : world) : config :=
  mkConfig w ((fun l => Resting (Ok () : reply, l)) <$> ls).

Lemma initial_rests ls w i t : cf_threads (initial ls w) !! i = Some t -> exists l, ls !! i = Some l /\ t = Resting (Ok (), l).
Proof. simpl. rewrite list_lookup_fmap. destruct (ls !! i) as [l|]; [|done]. intros [= <-]. by exists l. Qed.

Lemma fresh_matches l : fresh l -> matches l (idle (Data := Data)).
Proof. intros (H1 & H2 & H3 & H4). by apply matches_idle. Qed.

Lemma initial_ok ls log w :
  zlen ls < 2 ^ 31 -> Forall fresh ls -> opened log w ->
  config_ok (wal_inv page_sz) (fun _ _ => True) matches_conn (asof (w_db w) (w_frames w) (mx w)) (replicate (length ls) idle)
    (initial ls w).
Proof.
  intros Hn Hf Ho. split_and!; [by apply (opened_ok log)|simpl; by rewrite length_replicate, length_fmap|].
  intros i t g Ht Hg. apply lookup_replicate in Hg as [-> _]. apply initial_rests in Ht as (l & Hl & ->).
  rewrite Forall_lookup in Hf. by apply fresh_matches, (Hf i).
Qed.

#[local] Abbreviation config_serves := (config_serves fst (wal_inv page_sz) matches_conn txn_of effect).

Lemma initial_serves ls log w :
  zlen ls < 2 ^ 31 -> Forall fresh ls -> opened log w ->
  config_serves (asof (w_db w) (w_frames w) (mx w)) (replicate (length ls) idle) (replicate (length ls) (Free Idle)) (initial ls w).
Proof.
  intros Hn Hf Ho. constructor; [by apply (opened_ok log)|simpl; by rewrite length_replicate, length_fmap..|].
  intros i t g q Ht Hg Hq. apply lookup_replicate in Hg as [-> _]. apply lookup_replicate in Hq as [-> _].
  apply initial_rests in Ht as (l & Hl & ->). rewrite Forall_lookup in Hf. split; [by apply fresh_matches, (Hf i)|done].
Qed.

Section Claims.
Context (ls : list WalFile) (log : list Z) (w : world).
Context (Hsz : page_sz <> 0) (Hn : zlen ls < 2 ^ 31) (Hf : Forall fresh ls) (Ho : opened log w).

Lemma reachable_ok c :
  rtc (any_step starts) (initial ls w) c ->
  exists C gs, config_ok (wal_inv page_sz) (fun _ _ => True) matches_conn C gs c.
Proof using Hsz Hn Hf Ho.
  intros Hr. destruct (config_ok_reachable starts (wal_inv page_sz) (fun _ _ => True) matches_conn
    (fun i l p g => starts_ok Hsz i l p g) _ _ _ c (initial_ok ls log w Hn Hf Ho) Hr) as (C & gs & Hok & _). by exists C, gs.
Qed.

(** The log serves every trace as the database does. *)
Lemma traced_serves tr c :
  log_trace (initial ls w) tr c ->
  exists C gs qs, db_trace (asof (w_db w) (w_frames w) (mx w), replicate (length ls) (Free Idle)) tr (C, qs) /\
    config_serves C gs qs c.
Proof using Hsz Hn Hf Ho.
  intros Ht. eapply config_serves_trace; [by intros ? []| |by apply (initial_serves ls log)|exact Ht].
  intros i l o g. by apply starts_serving.
Qed.

Lemma serves_sees C gs qs c i r l :
  config_serves C gs qs c -> cf_threads c !! i = Some (Resting (r, l)) ->
  exists t, qs !! i = Some (Free t) /\ sees l t (cf_state c).
Proof using.
  intros [HI Hl Hl' Hok] Hi. pose proof (lookup_lt_Some _ _ _ Hi).
  destruct (lookup_lt_is_Some_2 gs i) as [g Hg]; [lia|]. destruct (lookup_lt_is_Some_2 qs i) as [q Hq]; [lia|].
  destruct (Hok i _ g q Hi Hg Hq) as [Hm ->]. exists (txn_of g). split; [done|]. by eapply matches_sees.
Qed.

Lemma traced_sees tr c :
  log_trace (initial ls w) tr c ->
  exists C qs,
    db_trace (asof (w_db w) (w_frames w) (mx w), replicate (length ls) (Free Idle)) tr (C, qs) /\
    (forall l p, read_page p (newest l (cf_state c)) (cf_state c) = Some (C p)) /\
    forall i r l, cf_threads c !! i = Some (Resting (r, l)) -> exists t, qs !! i = Some (Free t) /\ sees l t (cf_state c).
Proof using Hsz Hn Hf Ho.
  intros Ht. destruct (traced_serves tr c Ht) as (C & gs & qs & Hs & Hc). exists C, qs. split_and!; [done|..].
  - intros l p. eapply newest_reads, (cs_inv _ _ _ _ _ _ _ _ _ Hc).
  - intros i r l. by apply (serves_sees C gs).
Qed.
End Claims.

Lemma config_sees C gs c i r l :
  config_ok (wal_inv page_sz) (fun _ _ => True) matches_conn C gs c -> cf_threads c !! i = Some (Resting (r, l)) ->
  exists g, gs !! i = Some g /\ matches l g /\ sees l (txn_of g) (cf_state c).
Proof.
  intros (HI & Hlen & Hok) Hi. destruct (lookup_lt_is_Some_2 gs i) as [g Hg].
  { rewrite Hlen. by eapply lookup_lt_Some. }
  exists g. pose proof (Hok i _ g Hi Hg) as Hm. split_and!; [done..|]. by eapply matches_sees.
Qed.

(** C2: The write-ahead log gives snapshot isolation.  Take any interleaving of the
    transactions, spills, rollbacks and checkpoints of any number of connections, with lost
    races and failed I/O, and the trace of its requests (with the pages of each commit and
    spill) and replies.  The database that serves one request at a time has the same trace,
    each request taking effect between its call and its reply, and ends in the same state: a
    connection at rest reads, page by page, the view of its transaction, which is the contents
    committed when it began plus the pages it wrote itself; and a connection that pins the
    current snapshot reads the committed contents, which are those at the start overlaid with
    the pages of the commits that took effect. *)
Theorem wal_refines_transactions ls log w tr c :
  page_sz <> 0 -> zlen ls < 2 ^ 31 -> Forall fresh ls -> opened log w ->
  log_trace (initial ls w) tr c ->
  exists C qs,
    db_trace (asof (w_db w) (w_frames w) (mx w), replicate (length ls) (Free Idle)) tr (C, qs) /\
    (forall l p, read_page p (newest l (cf_state c)) (cf_state c) = Some (C p)) /\
    forall i r l, cf_threads c !! i = Some (Resting (r, l)) -> exists t, qs !! i = Some (Free t) /\ sees l t (cf_state c).
Proof. intros Hsz Hn Hf Ho. exact (traced_sees ls log w Hsz Hn Hf Ho tr c). Qed.

(** C3: Reads are repeatable.  While a connection rests in a transaction, every page it reads
    is there, and no step of the other connections (commits, spills, rollbacks,
    checkpoints that copy pages into the database file, restart or truncate the log)
    changes what it reads. *)
Theorem reads_are_repeatable ls log w c c' i r l :
  page_sz <> 0 -> zlen ls < 2 ^ 31 -> Forall fresh ls -> opened log w ->
  rtc (any_step starts) (initial ls w) c ->
  cf_threads c !! i = Some (Resting (r, l)) -> wc_read_guard l <> GuardNone ->
  rtc (other_step starts i) c c' ->
  forall p, exists d, read_page p l (cf_state c) = Some d /\ read_page p l (cf_state c') = Some d.
Proof.
  intros Hsz Hn Hf Ho Hr Hi Hg Hr' p. destruct (reachable_ok ls log w Hsz Hn Hf Ho c Hr) as (C & gs & Hok).
  destruct (config_sees C gs c i r l Hok Hi) as (g & Hgi & Hm & Hsee).
  destruct (config_ok_others starts (wal_inv page_sz) (fun _ _ => True) matches_conn (fun i l p g => starts_ok Hsz i l p g)
    C gs c c' i g Hok Hgi Hr') as (C' & gs' & (HI' & _) & Hgi').
  pose proof (matches_sees C' gs' _ i l g HI' Hgi' Hm) as Hsee'.
  destruct (txn_of g) as [|v|from v]; simpl in Hsee, Hsee'; [congruence|exists (v p)..]; naive_solver.
Qed.

(** C6: No assertion of the write-ahead log fails: in no interleaving does a connection panic. *)
Theorem wal_never_panics ls log w c i :
  page_sz <> 0 -> zlen ls < 2 ^ 31 -> Forall fresh ls -> opened log w ->
  rtc (any_step starts) (initial ls w) c -> cf_threads c !! i <> Some Panicked.
Proof.
  intros Hsz Hn Hf Ho Hr. eapply (no_panic starts); [|by intros ? []|by apply (initial_ok ls log)|exact Hr].
  intros j l p g. by apply starts_ok.
Qed.
End Isolation.

(** ** A schedule *)

(** Three connections open an empty log over a database of zero pages. *)
Definition example_world : world (Data := Z) :=
  mkWorld (default (mkShared (mkMetadata false (WalHeader_new false) 0 0 0 0 (0, 0) false false false)
    (mkRuntime ∅ 0 [] 0 0 0 0 coverage_default)) (match shared_new false with Ok s => Some s | _ => None end))
    ∅ (fun _ => 0).
Definition example_connections : list WalFile := replicate 3 (WalFile_new (0, 0) 0).
Definition example_sum (h : WalHeader) (c : Z * Z) (page db_size : Z) (d : Z) : Z * Z := (c.1 + page, c.2 + d).

(** Connection 1 commits, connection 0 begins to read, connection 1 commits again, connection 2
    checkpoints and reads. *)
Definition example_writes (pages : list (Z * Z)) : list (event (Op := wal_op (Data := Z))) :=
  [Start 1 BeginRead; Run 1 200; Start 1 (BeginWrite true 5); Run 1 200; Start 1 (Commit 1 2 2 pages); Run 1 200].
Definition example_reader : list (event (Op := wal_op (Data := Z))) :=
  example_writes [(1, 7); (2, 8)] ++ [Start 0 BeginRead; Run 0 200].
Definition example_others : list (event (Op := wal_op (Data := Z))) :=
  example_writes [(1, 9)] ++ [Start 2 (Checkpoint (Passive None) false 9); Run 2 200; Start 2 BeginRead; Run 2 200].

Definition example_ok : wal_op -> conn -> bool := op_ok (Data := Z) (fun _ => 512) 512.
Definition example_op : wal_op -> conn -> prog world conn := run_op (Data := Z) example_sum (fun _ => 512) false 512.
Definition example_run (es : list event) : config -> config := replayed example_ok example_op es.
Definition example_start : config := initial example_connections example_world.
Definition example_middle : config := example_run example_reader example_start.
Definition example_end : config := example_run example_others example_middle.

Definition example_view (i : nat) (p : Z) : option Z :=
  match cf_threads example_end !! i with Some (Resting (_, l)) => read_page p l (cf_state example_end) | _ => None end.

(** The requests and replies of the schedule. *)
Definition example_trace : list (label (Op := wal_op (Data := Z)) (R := reply)) :=
  [Request 1 BeginRead; Reply 1 (Ok ()); Request 1 (BeginWrite true 5); Reply 1 (Ok ());
   Request 1 (Commit 1 2 2 [(1, 7); (2, 8)]); Reply 1 (Ok ());
   Request 0 BeginRead; Reply 0 (Ok ());
   Request 1 BeginRead; Reply 1 (Ok ()); Request 1 (BeginWrite true 5); Reply 1 (Ok ());
   Request 1 (Commit 1 2 2 [(1, 9)]); Reply 1 (Ok ());
   Request 2 (Checkpoint (Passive None) false 9); Reply 2 (Ok ());
   Request 2 BeginRead; Reply 2 (Ok ())].

Lemma example_traced :
  log_trace example_sum (fun _ => 512) false 512 (initial example_connections example_world) example_trace example_end.
Proof.
  assert (replay example_ok example_op (example_reader ++ example_others) example_start = Some example_end) as E
    by (vm_compute; reflexivity).
  apply (replay_trace example_ok example_op fst) in E.
  assert (replay_labels example_ok example_op fst (example_reader ++ example_others) example_start = example_trace) as Et
    by (vm_compute; reflexivity).
  rewrite Et in E. exact E.
Qed.

Lemma example_opened : opened 512 [] example_world.
Proof.
  destruct (shared_new_ok false) as (s & Hs & H1 & H2 & H3 & H4 & H5).
  assert (w_shared example_world = s) as E by (unfold example_world; by rewrite Hs).
  constructor; rewrite ?E; try done; [|by rewrite <- E|intros m Hm; change (zlen []) with 0 in Hm; lia|right; by rewrite <- E].
  split; [|done]. intros p. by rewrite H2.
Qed.

Lemma example_fresh : Forall fresh example_connections.
Proof. by repeat constructor. Qed.

Lemma example_middle_reachable :
  rtc (any_step (starts example_sum (fun _ => 512) false 512)) (initial example_connections example_world) example_middle.
Proof. apply replayed_reachable. Qed.

Lemma example_end_others : rtc (other_step (starts example_sum (fun _ => 512) false 512) 0) example_middle example_end.
Proof. apply replayed_others. repeat (constructor; [done|]). constructor. Qed.

Lemma example_end_reachable :
  rtc (any_step (starts example_sum (fun _ => 512) false 512)) (initial example_connections example_world) example_end.
Proof. etrans; [apply example_middle_reachable|apply replayed_reachable]. Qed.

(** After the schedule the old reader sees the first commit and the new one both, as the
    transactions of the specification do. *)
Lemma wal_refines_transactions_witness :
  map (example_view 0) [1; 2; 3] = [Some 7; Some 8; Some 0] /\
  map (example_view 2) [1; 2; 3] = [Some 9; Some 8; Some 0] /\
  exists C qs, db_trace (fun _ => 0, replicate 3 (Free Idle)) example_trace (C, qs) /\
    (forall l p, read_page p (newest l (cf_state example_end)) (cf_state example_end) = Some (C p)) /\
    forall i r l, cf_threads example_end !! i = Some (Resting (r, l)) ->
      exists t, qs !! i = Some (Free t) /\ sees l t (cf_state example_end).
Proof.
  split; [vm_compute; reflexivity|]. split; [vm_compute; reflexivity|].
  exact (wal_refines_transactions example_sum (fun _ => 512) false 512 example_connections [] example_world example_trace example_end
    ltac:(lia) ltac:(done) example_fresh example_opened example_traced).
Defined.

(** The first connection while it reads. *)
Definition example_reading : WalFile :=
  match cf_threads example_middle !! 0%nat with Some (Resting (_, l)) => l | _ => WalFile_new (0, 0) 0 end.

Lemma reads_are_repeatable_witness :
  cf_threads example_middle !! 0%nat = Some (Resting (Ok (), example_reading)) /\
  forall p, exists d, read_page p example_reading (cf_state example_middle) = Some d /\
    read_page p example_reading (cf_state example_end) = Some d.
Proof.
  split; [vm_compute; reflexivity|].
  apply (reads_are_repeatable example_sum (fun _ => 512) false 512 example_connections [] example_world example_middle example_end 0
    (Ok ()) example_reading ltac:(lia) ltac:(done) example_fresh example_opened example_middle_reachable);
    [vm_compute; reflexivity|by vm_compute|apply example_end_others].
Defined.

Lemma wal_never_panics_witness : cf_threads example_end !! 1%nat <> Some Panicked.
Proof.
  exact (wal_never_panics example_sum (fun _ => 512) false 512 example_connections [] example_world example_end 1
    ltac:(lia) ltac:(done) example_fresh example_opened example_end_reachable).
Defined.
