(* ===== verification/WalDurability.v ===== *)
(** * Durability of the write-ahead log

    Joins recovery with the interleavings of the connections: what opening a log
    file gives is a state the connections may start from, and at any moment of a
    run the log and the database file still hold the committed contents. *)
From stdpp Require Import gmap relations.
From S2P Require Import Prelude Errors OnDisk WalFormat WalLock WalShared WalRecovery WalIndex.
From S2P Require Import Threads WalCoordination WalConnection WalInvariant WalSteps WalIsolation.

(** ** Replaying a log over a file that holds some of it *)
Section Replaying.
Context {Data : Type} (frames : gmap Z (Z * Data)).

Lemma asof_nat_base (b b' : Z -> Data) n p : b p = b' p -> asof_nat b frames n p = asof_nat b' frames n p.
Proof.
  intros E. induction n as [|n IH]; [done|]. cbn [asof_nat]. destruct (frames !! _) as [[q d]|]; [|done].
  by destruct (q =? p).
Qed.

Lemma asof_nat_again (b : Z -> Data) p n : forall k, (k <= n)%nat ->
  asof_nat (asof_nat b frames k) frames n p = asof_nat b frames n p.
Proof.
  induction n as [|n IH]; intros k Hk; [by destruct k; [|lia]|].
  destruct (decide (k = S n)) as [->|Hne].
  - pose proof (IH n ltac:(lia)) as H. cbn [asof_nat]. destruct (frames !! _) as [[q d]|] eqn:Ef.
    + destruct (q =? p) eqn:Eq; [done|]. rewrite <- H. apply asof_nat_base. by rewrite Eq.
    + rewrite <- H. by apply asof_nat_base.
  - cbn [asof_nat]. rewrite IH by lia. done.
Qed.

Lemma asof_again (b : Z -> Data) k n p : k <= n -> asof (asof b frames k) frames n p = asof b frames n p.
Proof. intros H. apply asof_nat_again. lia. Qed.

Lemma asof_base (b b' : Z -> Data) n p : b p = b' p -> asof b frames n p = asof b' frames n p.
Proof. apply asof_nat_base. Qed.
End Replaying.

(** The committed contents are in the log and the database file: replaying all frames up to
    the last commit over the file as it is gives them. *)
Lemma wal_inv_replay {Data} page_sz (C : Z -> Data) gs w p :
  wal_inv page_sz C gs w ->
  asof (w_db w) (w_frames w) (md_max_frame (metadata (w_shared w))) p = C p.
Proof.
  intros [_ (base & log & Hd)]. pose proof (do_global _ _ _ _ _ _ Hd) as Hgl.
  destruct (do_db _ _ _ _ _ Hgl p) as (k & Hk & E). rewrite <- (do_committed _ _ _ _ _ Hgl).
  rewrite (asof_base _ _ _ _ _ E). apply asof_again. lia.
Qed.

(** ** What recovery leaves *)

(** The frames of a log file by number. *)
Definition file_frames (fs : list wal_frame) : gmap Z (Z * list Z) :=
  list_to_map (imap (fun i f => (Z.of_nat i + 1, (wf_page f, wf_data f))) fs).

Definition recovered_world (fs : list wal_frame) (s : WalFileShared) (db : Z -> list Z) : world :=
  mkWorld s (file_frames fs) db.

(** The database after the transactions that committed in the log: the frames up to the last
    commit, in order, each replacing its page. *)
Definition apply_frame (C : Z -> list Z) (f : wal_frame) : Z -> list Z :=
  fun p => if wf_page f =? p then wf_data f else C p.
Definition committed_contents (fs : list wal_frame) (db : Z -> list Z) : Z -> list Z :=
  foldl apply_frame db (ztake (last_commit fs) fs).

Lemma file_frames_lookup fs m : 1 <= m -> file_frames fs !! m = (fun f => (wf_page f, wf_data f)) <$> zget fs (m - 1).
Proof.
  intros Hm. unfold file_frames, zget. rewrite (proj2 (Z.ltb_ge (m - 1) 0)) by lia.
  replace m with (Z.of_nat (Z.to_nat (m - 1)) + 1) at 1 by lia. generalize (Z.to_nat (m - 1)). clear Hm. intros n.
  assert (forall n k, list_to_map (M := gmap Z (Z * list Z)) (imap (fun i f => (Z.of_nat (k + i) + 1, (wf_page f, wf_data f))) fs) !! (Z.of_nat (k + n) + 1) =
    (fun f => (wf_page f, wf_data f)) <$> fs !! n) as H; [|apply (H n 0%nat)].
  clear n. induction fs as [|f fs IH]; intros n k; [done|]. rewrite imap_cons. cbn [list_to_map foldr]. simpl.
  destruct n as [|n].
  - rewrite Nat.add_0_r. by rewrite lookup_insert_eq.
  - rewrite lookup_insert_ne by lia. etrans; [|apply (IH n (S k))]. replace (S k + n)%nat with (k + S n)%nat by lia.
    f_equal. f_equal. apply imap_ext. intros i x _. simpl. repeat f_equal. lia.
Qed.

Lemma positions_pages p fs : forall i, positions p i fs = page_frames p i (wf_page <$> fs).
Proof. induction fs as [|f fs IH]; intros i; [done|]. simpl. by rewrite IH. Qed.

Lemma retain_page_frames p log m :
  0 <= m <= zlen log -> retain_upto m (page_frames p 1 log) = page_frames p 1 (ztake m log).
Proof.
  intros Hm. assert (zlen (ztake m log) = m) as Hl by (rewrite zlen_ztake; lia).
  rewrite <- (ztake_zdrop log m) at 1. rewrite page_frames_app, retain_upto_app, Hl.
  rewrite retain_upto_all, retain_upto_none; [apply app_nil_r|..].
  - eapply Forall_impl; [|apply page_frames_range]. simpl. lia.
  - eapply Forall_impl; [|apply page_frames_range]. simpl. lia.
Qed.

Lemma ztake_succ {A} (l : list A) n x : zget l n = Some x -> ztake (n + 1) l = ztake n l ++ [x].
Proof.
  unfold zget, ztake. intros H. destruct (Z.ltb_spec n 0); [done|].
  replace (Z.to_nat (n + 1)) with (S (Z.to_nat n)) by lia. by apply take_S_r.
Qed.

Lemma asof_file_frames fs db p n :
  0 <= n -> n <= zlen fs -> asof db (file_frames fs) n p = foldl apply_frame db (ztake n fs) p.
Proof.
  revert n. refine (natlike_ind _ _ _); [done|]. intros n Hn IH Hl. unfold Z.succ in *.
  destruct (zget_range fs n ltac:(lia)) as [f Hf].
  rewrite asof_succ, file_frames_lookup by lia. replace (n + 1 - 1) with n by lia. rewrite Hf, (ztake_succ _ _ _ Hf), foldl_app.
  simpl. unfold apply_frame at 1. by rewrite IH by lia.
Qed.

(** The state recovery leaves is one that connections may start from. *)
Lemma recovered_opened hb h fs s db :
  recovered_log hb h fs s -> zlen fs < 2 ^ 32 - 1 ->
  opened (wh_page_size h) (wf_page <$> ztake (last_commit fs) fs) (recovered_world fs s db).
Proof.
  intros (H1 & H2 & H3 & H4 & H5 & H6 & H7 & H8 & H9 & H10) Hl. pose proof (last_commit_range fs) as Hr.
  assert (zlen (wf_page <$> ztake (last_commit fs) fs) = last_commit fs) as E.
  { unfold zlen at 1. rewrite length_fmap. fold (zlen (ztake (last_commit fs) fs)). rewrite zlen_ztake. lia. }
  constructor; simpl; rewrite ?E; try done; [|lia| |left; by rewrite H1].
  - split; [|by rewrite E]. intros p. rewrite H10, positions_pages, retain_page_frames.
    + unfold ztake. by rewrite fmap_take.
    + unfold zlen. rewrite length_fmap. exact Hr.
  - intros m Hm. destruct (zget_range fs (m - 1) ltac:(lia)) as [f Hf]. exists (wf_page f), (wf_data f). split.
    + unfold zget in *. destruct (m - 1 <? 0); [done|]. rewrite list_lookup_fmap. unfold ztake.
      by rewrite lookup_take_lt, Hf by lia.
    + simpl. by rewrite file_frames_lookup, Hf by lia.
Qed.

(** C5: A crash at any moment of any interleaving loses no committed transaction and keeps
    no other.  In every reachable state (writers between two frames, checkpoints that have
    copied some of their pages, a log that is being restarted or truncated) replaying the log
    up to its last commit over the database file as it is then gives the committed contents of
    the database that served the same requests with the same replies: the contents at the
    start overlaid, in order, with the pages of the commits that took effect, those that
    replied success among them. *)
Theorem commits_survive_interruption {Data} frame_sum page_len host_big page_sz ls log (w : world (Data := Data)) tr c :
  page_sz <> 0 -> zlen ls < 2 ^ 31 -> Forall fresh ls -> opened page_sz log w ->
  log_trace frame_sum page_len host_big page_sz (initial ls w) tr c ->
  exists C qs,
    db_trace (asof (w_db w) (w_frames w) (md_max_frame (metadata (w_shared w))), replicate (length ls) (Free Idle)) tr (C, qs) /\
    forall p, asof (w_db (cf_state c)) (w_frames (cf_state c)) (md_max_frame (metadata (w_shared (cf_state c)))) p = C p.
Proof.
  intros Hsz Hn Hf Ho Ht.
  destruct (traced_serves frame_sum page_len host_big page_sz ls log w Hsz Hn Hf Ho tr c Ht) as (C & gs & qs & Hs & Hc).
  exists C, qs. split; [done|]. intros p. apply (wal_inv_replay page_sz C gs), Hc.
Qed.

(** C4: Opening a log after a crash leads to the database of its committed transactions: on a
    file of valid frames followed by anything that does not continue them, recovery
    terminates, and connections that run from there, in any interleaving, are served as by a
    database that starts from the database file with the committed frames applied in order
    and serves the same requests with the same replies. *)
Theorem recovery_starts_transactions hb h fs tail pread fuel db ls :
  let file := wal_header_bytes h ++
    log_bytes hb h (wh_checksum_1 h, wh_checksum_2 h) fs ++ tail in
  header_ok hb h -> Forall (frame_ok (wh_page_size h)) fs ->
  log_stops hb h (wh_page_size h) (log_checksum hb h (wh_checksum_1 h, wh_checksum_2 h) fs) tail ->
  reads_file pread file -> (2 * length fs + 6 <= fuel)%nat -> zlen fs < 2 ^ 32 - 1 ->
  zlen ls < 2 ^ 31 -> Forall fresh ls ->
  exists s C0, build_shared_wal hb pread fuel (zlen file) = Ok (Some s) /\
    (forall p, C0 p = committed_contents fs db p) /\
    forall tr c, log_trace (frame_checksum hb) zlen hb (wh_page_size h) (initial ls (recovered_world fs s db)) tr c ->
    exists C qs, db_trace (C0, replicate (length ls) (Free Idle)) tr (C, qs) /\
      (forall l p, read_page p (newest l (cf_state c)) (cf_state c) = Some (C p)) /\
      forall i r l, cf_threads c !! i = Some (Resting (r, l)) -> exists t, qs !! i = Some (Free t) /\ sees l t (cf_state c).
Proof.
  intros file Hh Hfs Hst Hread Hfuel Hlen Hn Hf.
  destruct (build_shared_wal_recovers hb h fs tail pread fuel Hh Hfs Hst Hread Hfuel) as (s & Hb & Hrec).
  pose proof (recovered_opened hb h fs s db Hrec Hlen) as Ho. pose proof (header_page_size hb h Hh) as [Hps _].
  eexists s, _. split_and!; [exact Hb| |intros tr c Ht; apply (traced_sees (frame_checksum hb) zlen hb (wh_page_size h) ls _ _ ltac:(lia) Hn Hf Ho tr c Ht)].
  intros p. simpl. destruct Hrec as (_ & -> & _). pose proof (last_commit_range fs). apply asof_file_frames; lia.
Qed.

Lemma commits_survive_interruption_witness :
  exists C qs, db_trace (fun _ => 0, replicate 3 (Free Idle)) example_trace (C, qs) /\
    forall p, asof (w_db (cf_state example_end)) (w_frames (cf_state example_end)) 3 p = C p.
Proof.
  exact (commits_survive_interruption example_sum (fun _ => 512) false 512 example_connections [] example_world example_trace
    example_end ltac:(lia) ltac:(done) example_fresh example_opened example_traced).
Defined.

(** The log of a commit of page 2 and an unfinished write of page 1. *)
Lemma recovery_starts_transactions_witness :
  exists s C0, build_shared_wal false (fun o n => Some (ztake n (zdrop o example_file))) 10 (zlen example_file) = Ok (Some s) /\
    C0 2 = replicate 512 7 /\ C0 1 = [] /\
    forall tr c, log_trace (frame_checksum false) zlen false 512
        (initial example_connections (recovered_world example_frames s (fun _ => []))) tr c ->
    exists C qs, db_trace (C0, replicate 3 (Free Idle)) tr (C, qs) /\
      (forall l p, read_page p (newest l (cf_state c)) (cf_state c) = Some (C p)) /\
      forall i r l, cf_threads c !! i = Some (Resting (r, l)) -> exists t, qs !! i = Some (Free t) /\ sees l t (cf_state c).
Proof.
  destruct (recovery_starts_transactions false example_header example_frames (replicate 600 0)
    (fun o n => Some (ztake n (zdrop o example_file))) 10 (fun _ => []) example_connections) as (s & C0 & Hs & HC & Hrun).
  - vm_compute. repeat split; discriminate.
  - exact example_frames_ok.
  - right. left. reflexivity.
  - intros o n. reflexivity.
  - vm_compute. repeat constructor.
  - reflexivity.
  - reflexivity.
  - exact example_fresh.
  - exists s, C0. split; [exact Hs|]. split; [exact (HC 2)|]. split; [exact (HC 1)|]. exact Hrun.
Defined.
