(* ===== verification/Morton.v ===== *)
(** * Spatial keys and covers ([src/fastdb/frontend/src/spatial/morton.rs])

    Positions are quantized to a grid of [2^31] by [2^31] cells and keyed by the
    interleaved bits of their coordinates.  A query area is covered by ranges of
    keys: the quadtree is descended level by level until the budget of ranges is
    used up.  The quantization of floating-point coordinates and the geometry of
    regions are not modelled: a region is the function that classifies a quadtree
    cell against it. *)
From stdpp Require Import sorting.
From S2P Require Import Prelude Errors.

Definition BITS : Z := 31.
Definition CELLS : Z := shl 64 1 BITS.

(** ** Keys *)
Definition spread (value : Z) : Z :=
  let v := value in
  let v := Z.land (Z.lor v (shl 64 v 16)) 0x0000FFFF0000FFFF in
  let v := Z.land (Z.lor v (shl 64 v 8)) 0x00FF00FF00FF00FF in
  let v := Z.land (Z.lor v (shl 64 v 4)) 0x0F0F0F0F0F0F0F0F in
  let v := Z.land (Z.lor v (shl 64 v 2)) 0x3333333333333333 in
  let v := Z.land (Z.lor v (shl 64 v 1)) 0x5555555555555555 in
  v.

Definition interleave (x y : Z) : Z := Z.lor (spread x) (shl 64 (spread y) 1).

(** ** Quadtree cells *)

(** Inclusive rectangle of quantized cells. *)
Record Window := mkWindow { x0 : Z; x1 : Z; y0 : Z; y1 : Z }.

(** Level 0 is the whole grid, level 31 one quantized cell. *)
Record Cell := mkCell { level : Z; cell_x : Z; cell_y : Z }.

Definition size (c : Cell) : Z := shl 64 1 (BITS - level c).
Definition range (c : Cell) : Z * Z :=
  let first := interleave (cell_x c) (cell_y c) in
  let span := size c * size c in
  (first, first + span - 1).
Definition children (c : Cell) : list Cell :=
  let half := wrap 32 (size c / 2) in
  let level := level c + 1 in
  [mkCell level (cell_x c) (cell_y c); mkCell level (cell_x c + half) (cell_y c);
   mkCell level (cell_x c) (cell_y c + half); mkCell level (cell_x c + half) (cell_y c + half)].
Definition last_x (c : Cell) : Z := wrap 32 (cell_x c + size c - 1).
Definition last_y (c : Cell) : Z := wrap 32 (cell_y c + size c - 1).

Inductive Overlap := Outside | Partial | Inside.

Definition overlap_window (c : Cell) (w : Window) : Overlap :=
  if (last_x c <? x0 w) || (x1 w <? cell_x c) || (last_y c <? y0 w) || (y1 w <? cell_y c) then Outside
  else if (x0 w <=? cell_x c) && (last_x c <=? x1 w) && (y0 w <=? cell_y c) && (last_y c <=? y1 w) then Inside
  else Partial.

(** ** Ranges *)

(** The order of [sort_unstable] on pairs. *)
Definition range_le (a b : Z * Z) : Prop := a.1 < b.1 \/ a.1 = b.1 /\ a.2 <= b.2.
#[export] Instance range_le_dec : RelDecision range_le.
Proof. intros a b. unfold range_le. apply _. Defined.

(** Sort ranges and merge those that touch or overlap.  [merged] is the list built so far,
    its last range first. *)
Definition merge_step (merged : list (Z * Z)) (r : Z * Z) : list (Z * Z) :=
  match merged with
  | previous :: merged' =>
      if r.1 <=? previous.2 + 1 then (previous.1, Z.max previous.2 r.2) :: merged' else r :: merged
  | [] => [r]
  end.
Definition merge (ranges : list (Z * Z)) : list (Z * Z) :=
  reverse (foldl merge_step [] (merge_sort range_le ranges)).

(** The position of the smallest gap between neighbours, the first such. *)
Fixpoint min_gap (ranges : list (Z * Z)) : option (nat * Z) :=
  match ranges with
  | a :: ((b :: _) as rest) =>
      let gap := b.1 - a.2 in
      match min_gap rest with
      | Some (i, g) => if g <? gap then Some (S i, g) else Some (0%nat, gap)
      | None => Some (0%nat, gap)
      end
  | _ => None
  end.
(** [ranges[i].1 = ranges[i + 1].1; ranges.remove(i + 1)] *)
Fixpoint join_at (i : nat) (ranges : list (Z * Z)) : list (Z * Z) :=
  match i, ranges with
  | O, a :: b :: rest => (a.1, b.2) :: rest
  | S i, a :: rest => a :: join_at i rest
  | _, _ => ranges
  end.
Fixpoint coalesce_loop (fuel : nat) (ranges : list (Z * Z)) (arms : Z) : option (list (Z * Z)) :=
  match fuel with
  | O => None
  | S fuel =>
      if Z.max arms 1 <? zlen ranges then
        match min_gap ranges with
        | Some (i, _) => coalesce_loop fuel (join_at i ranges) arms
        | None => None
        end
      else Some ranges
  end.
(** Each round removes a range. *)
Definition coalesce (ranges : list (Z * Z)) (arms : Z) : option (list (Z * Z)) :=
  coalesce_loop (S (length ranges)) ranges arms.

(** ** Covers *)
Section Cover.
Context {St : Type} (classify : Cell -> St -> Overlap * St).

(** The children of the partial cells: the cells inside, and the partial ones with their state. *)
Definition expand (partial : list (Cell * St)) : list Cell * list (Cell * St) :=
  foldl (fun acc '(parent, state) =>
    foldl (fun '(inside, next) cell =>
      match classify cell state with
      | (Outside, _) => (inside, next)
      | (Inside, _) => (inside ++ [cell], next)
      | (Partial, child) => (inside, next ++ [(cell, child)])
      end) acc (children parent)) ([], []) partial.

(** The loop of [cover] and [region_cells]; [emit] turns a cell into an output. *)
Fixpoint descend {Out} (emit : Cell -> Out) (fuel : nat) (budget : Z) (out : list Out) (partial : list (Cell * St))
    : option (list Out) :=
  match fuel with
  | O => None
  | S fuel =>
      match partial with
      | [] => Some out
      | (first, _) :: _ =>
          if (level first =? BITS) || (Z.max budget 1 <? zlen out + 4 * zlen partial)
          then Some (out ++ ((fun p => emit p.1) <$> partial))
          else
            let '(inside, next) := expand partial in
            descend emit fuel budget (out ++ (emit <$> inside)) next
      end
  end.

(** A level per round, and the round that ends the loop. *)
Definition rounds : nat := 33.

Definition cover (budget : Z) (root : St) : option (list (Z * Z)) :=
  merge <$> descend range rounds budget [] [(mkCell 0 0 0, root)].

(** Level-tagged code of a quadtree cell. *)
Definition cell_code (c : Cell) : Z :=
  let prefix := Z.shiftr (interleave (cell_x c) (cell_y c)) (2 * (BITS - level c)) in
  shl 64 1 (2 * level c) + prefix.

Definition region_cells (budget : Z) (root : St) : option (list Z) :=
  merge_sort Z.le <$> descend cell_code rounds budget [] [(mkCell 0 0 0, root)].
End Cover.

(** Codes of the 32 cells, one per level, that contain the point with the key. *)
Definition ancestor_codes (key : Z) : list Z :=
  (fun level => shl 64 1 (2 * level) + Z.shiftr key (2 * (BITS - level))) <$> (Z.of_nat <$> seq 0 32).

(** [max_by_key]: the last of the largest. *)
Definition overlap_rank (o : Overlap) : Z := match o with Outside => 0 | Partial => 1 | Inside => 2 end.
Definition max_overlap (os : list Overlap) : Overlap :=
  foldl (fun m o => if overlap_rank m <=? overlap_rank o then o else m) Outside os.

Definition cover_windows (windows : list Window) (budget : Z) : option (list (Z * Z)) :=
  cover (fun cell (_ : ()) => (max_overlap (overlap_window cell <$> windows), ())) budget ().

(** ** Bits of a key *)
Lemma shl_bit w x s n : 0 <= n < w -> 0 <= s -> Z.testbit (shl w x s) n = Z.testbit x (n - s).
Proof. intros Hn Hs. unfold shl, wrap. rewrite Z.mod_pow2_bits_low by lia. apply Z.shiftl_spec. lia. Qed.

Lemma bits_above w x n : in_u w x -> 0 <= w <= n -> Z.testbit x n = false.
Proof.
  intros [Hx Hw] Hn. rewrite <- (Z.mod_small x (2 ^ w)) by lia. apply Z.mod_pow2_bits_high. lia.
Qed.

(** One step of [spread] on the bits. *)
Definition spread_step (f : Z -> bool) (s m n : Z) : bool := Z.testbit m n && (f n || f (n - s)).

Lemma spread_step_bit v f s m n :
  0 <= s -> (forall n, n < 64 -> Z.testbit v n = f n) -> n < 64 ->
  Z.testbit (Z.land (Z.lor v (shl 64 v s)) m) n = spread_step f s m n.
Proof.
  intros Hs Hf Hn. unfold spread_step. destruct (Z.ltb_spec n 0).
  - by rewrite !(Z.testbit_neg_r _ n) by lia.
  - rewrite Z.land_spec, Z.lor_spec, shl_bit, !Hf by lia. apply andb_comm.
Qed.

Lemma spread_steps (f : Z -> bool) k :
  (forall n, n < 0 -> f n = false) -> (forall n, 32 <= n -> f n = false) -> (k < 64)%nat ->
  spread_step (spread_step (spread_step (spread_step (spread_step f 16 0x0000FFFF0000FFFF) 8 0x00FF00FF00FF00FF)
    4 0x0F0F0F0F0F0F0F0F) 2 0x3333333333333333) 1 0x5555555555555555 (Z.of_nat k) =
  Z.even (Z.of_nat k) && f (Z.of_nat k / 2).
Proof.
  intros Hneg Hhi Hk.
  do 64 (destruct k as [|k];
    [clear Hk; vm_compute; repeat match goal with |- context [f ?n] => first [rewrite (Hneg n) by done | rewrite (Hhi n) by done | destruct (f n)] end; reflexivity|]).
  lia.
Qed.

Lemma spread_bit v n :
  in_u 32 v -> 0 <= n < 64 -> Z.testbit (spread v) n = Z.even n && Z.testbit v (n / 2).
Proof.
  intros Hv Hn. rewrite <- (Z2Nat.id n) by lia. rewrite <- spread_steps; [|apply Z.testbit_neg_r| |lia].
  - unfold spread. repeat (apply spread_step_bit; [lia|intros|lia]). done.
  - intros k Hk. by apply (bits_above 32).
Qed.

Lemma spread_u64 v : in_u 64 (spread v).
Proof.
  unfold spread. cbv zeta. set (u := Z.lor _ _). assert (Z.land u 0x5555555555555555 = Z.land u 0x5555555555555555 mod 2 ^ 64) as ->.
  - apply Z.bits_inj'. intros n Hn. destruct (Z.ltb_spec n 64); [by rewrite Z.mod_pow2_bits_low by lia|].
    rewrite Z.mod_pow2_bits_high, Z.land_spec by lia.
    rewrite (bits_above 64 0x5555555555555555) by (unfold in_u; lia). apply andb_false_r.
  - unfold in_u. apply Z.mod_pos_bound. lia.
Qed.

Lemma interleave_u64 x y : in_u 64 (interleave x y).
Proof.
  pose proof (spread_u64 x) as Hx. unfold interleave, shl, wrap. set (b := _ mod _).
  assert (in_u 64 b) as Hb by (unfold in_u, b; apply Z.mod_pos_bound; lia). unfold in_u in *.
  assert (Z.lor (spread x) b = Z.lor (spread x) b mod 2 ^ 64) as ->; [|apply Z.mod_pos_bound; lia].
  apply Z.bits_inj'. intros n Hn. destruct (Z.ltb_spec n 64); [by rewrite Z.mod_pow2_bits_low by lia|].
  rewrite Z.mod_pow2_bits_high, Z.lor_spec, !(bits_above 64) by (unfold in_u; lia). done.
Qed.

(** The bits of the coordinates alternate in the key. *)
Lemma interleave_bit x y n :
  in_u 32 x -> in_u 32 y -> 0 <= n ->
  Z.testbit (interleave x y) n = if Z.even n then Z.testbit x (n / 2) else Z.testbit y (n / 2).
Proof.
  intros Hx Hy Hn. destruct (Z.ltb_spec n 64) as [Hlt|Hge].
  - unfold interleave. rewrite Z.lor_spec, shl_bit, spread_bit by (done || lia). destruct (Z.eq_dec n 0) as [->|Hn0].
    + rewrite (Z.testbit_neg_r (spread y)) by lia. by rewrite orb_false_r.
    + rewrite spread_bit by (done || lia). rewrite Z.even_sub. destruct (Z.even n) eqn:E; simpl; [by rewrite orb_false_r|].
      f_equal. rewrite <- Z.negb_odd in E. apply negb_false_iff in E. apply Z.odd_spec in E as [k ->].
      replace (2 * k + 1 - 1) with (k * 2) by lia. rewrite Z.div_mul by lia.
      replace (2 * k + 1) with (1 + k * 2) by lia. rewrite Z.div_add by lia. done.
  - rewrite (bits_above 64) by (apply interleave_u64 || lia).
    assert (32 <= n / 2) by (apply Z.div_le_lower_bound; lia).
    rewrite !(bits_above 32) by (done || lia). by destruct (Z.even n).
Qed.

Lemma in_u_shiftr w x m : in_u w x -> 0 <= m -> in_u w (Z.shiftr x m).
Proof.
  intros [H1 H2] Hm. rewrite Z.shiftr_div_pow2 by done. split; [apply Z.div_pos; lia|].
  apply Z.le_lt_trans with x; [|done]. apply Z.div_le_upper_bound; [lia|]. nia.
Qed.

Lemma interleave_shiftr x y m :
  in_u 32 x -> in_u 32 y -> 0 <= m ->
  Z.shiftr (interleave x y) (2 * m) = interleave (Z.shiftr x m) (Z.shiftr y m).
Proof.
  intros Hx Hy Hm. apply Z.bits_inj'. intros n Hn.
  rewrite Z.shiftr_spec, !interleave_bit by (done || lia || by apply in_u_shiftr).
  assert (0 <= n / 2) by (apply Z.div_pos; lia). rewrite !Z.shiftr_spec by done.
  rewrite Z.even_add, Z.even_mul. simpl. replace (n + 2 * m) with (n + m * 2) by lia. rewrite Z.div_add by lia.
  by destruct (Z.even n).
Qed.

Lemma interleave_inj x y x' y' :
  in_u 32 x -> in_u 32 y -> in_u 32 x' -> in_u 32 y' ->
  interleave x y = interleave x' y' -> x = x' /\ y = y'.
Proof.
  intros Hx Hy Hx' Hy' E. split; apply Z.bits_inj'; intros n Hn.
  - pose proof (f_equal (fun k => Z.testbit k (2 * n)) E) as H. simpl in H. rewrite !interleave_bit in H by (done || lia).
    rewrite Z.even_mul in H. simpl in H. rewrite Z.mul_comm, Z.div_mul in H by lia. exact H.
  - pose proof (f_equal (fun k => Z.testbit k (2 * n + 1)) E) as H. simpl in H. rewrite !interleave_bit in H by (done || lia).
    rewrite Z.even_add, Z.even_mul in H. simpl in H.
    replace (2 * n + 1) with (1 + n * 2) in H by lia. rewrite Z.div_add in H by lia. exact H.
Qed.

(** ** Cells of the quadtree *)
Definition cell_ok (c : Cell) : Prop :=
  0 <= level c <= BITS /\ in_u 31 (cell_x c) /\ in_u 31 (cell_y c) /\
  cell_x c mod 2 ^ (BITS - level c) = 0 /\ cell_y c mod 2 ^ (BITS - level c) = 0.

Definition contains (c : Cell) (px py : Z) : Prop :=
  cell_x c <= px <= last_x c /\ cell_y c <= py <= last_y c.

Lemma shl_1 k : 0 <= k < 64 -> shl 64 1 k = 2 ^ k.
Proof.
  intros Hk. unfold shl, wrap. rewrite Z.shiftl_mul_pow2, Z.mul_1_l by lia. apply Z.mod_small.
  split; [lia|]. apply Z.pow_lt_mono_r; lia.
Qed.

Lemma size_eq c : 0 <= level c <= BITS -> size c = 2 ^ (BITS - level c).
Proof. unfold size, BITS. intros H. apply shl_1. lia. Qed.

Lemma aligned_last x k : 0 <= k <= 31 -> in_u 31 x -> x mod 2 ^ k = 0 -> x + 2 ^ k <= 2 ^ 31.
Proof.
  intros Hk [H0 H1] Hm. apply Z.mod_divide in Hm as [a ->]; [|lia].
  replace 31 with (31 - k + k) in * by lia. rewrite Z.pow_add_r in * by lia.
  assert (0 < 2 ^ k) as Hp by lia. apply Z.mul_lt_mono_pos_r in H1; [|done].
  replace (a * 2 ^ k + 2 ^ k) with ((a + 1) * 2 ^ k) by lia. apply Z.mul_le_mono_nonneg_r; lia.
Qed.

Lemma last_x_eq c : cell_ok c -> last_x c = cell_x c + 2 ^ (BITS - level c) - 1.
Proof.
  intros (Hl & Hx & Hy & Hmx & Hmy). unfold last_x. rewrite size_eq by done. unfold BITS in *.
  pose proof (aligned_last _ (31 - level c) ltac:(lia) Hx Hmx). destruct Hx. assert (0 < 2 ^ (31 - level c)) by lia.
  apply Z.mod_small. lia.
Qed.

Lemma last_y_eq c : cell_ok c -> last_y c = cell_y c + 2 ^ (BITS - level c) - 1.
Proof.
  intros (Hl & Hx & Hy & Hmx & Hmy). unfold last_y. rewrite size_eq by done. unfold BITS in *.
  pose proof (aligned_last _ (31 - level c) ltac:(lia) Hy Hmy). destruct Hy. assert (0 < 2 ^ (31 - level c)) by lia.
  apply Z.mod_small. lia.
Qed.

Lemma root_ok : cell_ok (mkCell 0 0 0).
Proof. by repeat split. Qed.

Lemma root_contains px py : in_u 31 px -> in_u 31 py -> contains (mkCell 0 0 0) px py.
Proof. intros Hx Hy. unfold contains. rewrite last_x_eq, last_y_eq by apply root_ok. unfold in_u, BITS in *. simpl. lia. Qed.

Lemma in_u_31_32 x : in_u 31 x -> in_u 32 x.
Proof. unfold in_u. lia. Qed.

(** An aligned block of numbers: the ones with the same high bits. *)
Lemma same_block a b k : 0 <= k -> a mod 2 ^ k = 0 -> (a <= b <= a + 2 ^ k - 1 <-> Z.shiftr b k = Z.shiftr a k).
Proof.
  intros Hk Ha. rewrite !Z.shiftr_div_pow2 by done. assert (0 < 2 ^ k) by lia.
  pose proof (Z.div_mod a (2 ^ k) ltac:(lia)) as Ea. pose proof (Z.div_mod b (2 ^ k) ltac:(lia)) as Eb.
  pose proof (Z.mod_pos_bound b (2 ^ k) ltac:(lia)). split; [|intros E; rewrite E in Eb; nia].
  intros Hb. assert (2 ^ k * (b / 2 ^ k - a / 2 ^ k) < 2 ^ k) by lia.
  assert (- 2 ^ k < 2 ^ k * (b / 2 ^ k - a / 2 ^ k)) by lia. nia.
Qed.

Lemma interleave_aligned x y k :
  in_u 32 x -> in_u 32 y -> 0 <= k -> x mod 2 ^ k = 0 -> y mod 2 ^ k = 0 -> interleave x y mod 2 ^ (2 * k) = 0.
Proof.
  intros Hx Hy Hk Hmx Hmy. apply Z.bits_inj'. intros n Hn. rewrite Z.bits_0.
  destruct (Z.ltb_spec n (2 * k)) as [Hlt|Hge]; [|apply Z.mod_pow2_bits_high; lia].
  rewrite Z.mod_pow2_bits_low, interleave_bit by done.
  assert (0 <= n / 2 < k) by (split; [apply Z.div_pos|apply Z.div_lt_upper_bound]; lia).
  rewrite <- (Z.mod_pow2_bits_low x k), <- (Z.mod_pow2_bits_low y k), Hmx, Hmy, Z.bits_0 by lia. by destruct (Z.even n).
Qed.

(** The keys of the positions in a cell are those of its range. *)
Lemma range_contains c px py :
  cell_ok c -> in_u 31 px -> in_u 31 py ->
  (contains c px py <-> (range c).1 <= interleave px py <= (range c).2).
Proof.
  intros Hc Hpx Hpy. pose proof Hc as (Hl & Hx & Hy & Hmx & Hmy). unfold contains, range. simpl.
  rewrite last_x_eq, last_y_eq, size_eq by done. set (k := BITS - level c) in *.
  assert (0 <= k) as Hk by (unfold k; lia). rewrite <- Z.pow_add_r, Z.add_diag by done.
  pose proof (in_u_31_32 _ Hx). pose proof (in_u_31_32 _ Hy). pose proof (in_u_31_32 _ Hpx). pose proof (in_u_31_32 _ Hpy).
  rewrite !same_block by (done || lia || by apply interleave_aligned). rewrite !interleave_shiftr by done. split.
  - by intros [-> ->].
  - intros E. apply interleave_inj in E; try (by apply in_u_shiftr). naive_solver.
Qed.

(** ** Children *)
Lemma half_eq c : 0 <= level c < BITS -> wrap 32 (size c / 2) = 2 ^ (BITS - (level c + 1)).
Proof.
  intros Hl. rewrite size_eq by lia. unfold BITS in *. replace (31 - level c) with (31 - (level c + 1) + 1) by lia.
  rewrite Z.pow_add_r, Z.pow_1_r, Z.div_mul by lia. apply Z.mod_small. split; [lia|]. apply Z.pow_lt_mono_r; lia.
Qed.

Lemma aligned_half x k : 0 <= k -> x mod 2 ^ (k + 1) = 0 -> x mod 2 ^ k = 0 /\ (x + 2 ^ k) mod 2 ^ k = 0.
Proof.
  intros Hk Hm. apply Z.mod_divide in Hm as [a ->]; [|lia]. rewrite Z.pow_add_r, Z.pow_1_r by lia. split.
  - replace (a * (2 ^ k * 2)) with (a * 2 * 2 ^ k) by lia. apply Z.mod_mul. lia.
  - replace (a * (2 ^ k * 2) + 2 ^ k) with ((a * 2 + 1) * 2 ^ k) by lia. apply Z.mod_mul. lia.
Qed.

Lemma half_in x k : 0 <= k < 31 -> in_u 31 x -> x mod 2 ^ (k + 1) = 0 -> in_u 31 (x + 2 ^ k).
Proof.
  intros Hk Hx Hm. pose proof (aligned_last x (k + 1) ltac:(lia) Hx Hm) as H. rewrite Z.pow_add_r, Z.pow_1_r in H by lia.
  assert (0 < 2 ^ k) by lia. unfold in_u in *. lia.
Qed.

Lemma children_ok c d : cell_ok c -> level c < BITS -> d ∈ children c -> cell_ok d /\ level d = level c + 1.
Proof.
  intros (Hl & Hx & Hy & Hmx & Hmy) Hlt Hd. unfold children in Hd. rewrite half_eq in Hd by lia.
  set (k := BITS - (level c + 1)) in *. assert (BITS - level c = k + 1) as Ek by (unfold k; lia). rewrite Ek in *.
  assert (0 <= k < 31) as Hk by (unfold k, BITS in *; lia).
  destruct (aligned_half _ k ltac:(lia) Hmx) as [A1 A2], (aligned_half _ k ltac:(lia) Hmy) as [B1 B2].
  pose proof (half_in _ k Hk Hx Hmx). pose proof (half_in _ k Hk Hy Hmy).
  unfold cell_ok. rewrite !elem_of_cons in Hd. destruct Hd as [->|[->|[->|[->|Hd]]]]; [..|by apply not_elem_of_nil in Hd];
    simpl; fold k; (split; [split_and!; (done || lia)|done]).
Qed.

Lemma children_contain c px py :
  cell_ok c -> level c < BITS -> contains c px py -> exists d, d ∈ children c /\ contains d px py.
Proof.
  intros Hc Hlt Hp. pose proof Hc as (Hl & Hx & Hy & Hmx & Hmy). unfold contains in Hp. rewrite last_x_eq, last_y_eq in Hp by done.
  set (k := BITS - (level c + 1)). assert (BITS - level c = k + 1) as Ek by (unfold k; lia).
  rewrite Ek, Z.pow_add_r, Z.pow_1_r in Hp by (unfold k, BITS in *; lia). assert (0 < 2 ^ k) by (unfold k, BITS in *; lia).
  set (dx := if px <? cell_x c + 2 ^ k then cell_x c else cell_x c + 2 ^ k).
  set (dy := if py <? cell_y c + 2 ^ k then cell_y c else cell_y c + 2 ^ k).
  exists (mkCell (level c + 1) dx dy). assert (mkCell (level c + 1) dx dy ∈ children c) as Hd.
  { unfold children. rewrite half_eq by lia. fold k. unfold dx, dy.
    destruct (px <? _), (py <? _); rewrite !elem_of_cons; auto. }
  split; [done|]. destruct (children_ok c _ Hc Hlt Hd) as [Hdk _]. unfold contains. rewrite last_x_eq, last_y_eq by done.
  simpl. fold k. unfold dx, dy. destruct (Z.ltb_spec px (cell_x c + 2 ^ k)), (Z.ltb_spec py (cell_y c + 2 ^ k)); lia.
Qed.

(** ** The descent *)
Section Descent.
Context {St : Type} (classify : Cell -> St -> Overlap * St).

(** The classified children of the partial cells, in order. *)
Definition classified (partial : list (Cell * St)) : list (Cell * (Overlap * St)) :=
  partial ≫= fun '(parent, state) => (fun cell => (cell, classify cell state)) <$> children parent.
Definition inside_cell (x : Cell * (Overlap * St)) : option Cell :=
  match x.2.1 with Inside => Some x.1 | _ => None end.
Definition partial_cell (x : Cell * (Overlap * St)) : option (Cell * St) :=
  match x.2.1 with Partial => Some (x.1, x.2.2) | _ => None end.

Lemma expand_children state cells : forall acc,
  foldl (fun '(inside, next) cell =>
      match classify cell state with
      | (Outside, _) => (inside, next)
      | (Inside, _) => (inside ++ [cell], next)
      | (Partial, child) => (inside, next ++ [(cell, child)])
      end) acc cells =
  (acc.1 ++ omap inside_cell ((fun cell => (cell, classify cell state)) <$> cells),
   acc.2 ++ omap partial_cell ((fun cell => (cell, classify cell state)) <$> cells)).
Proof.
  induction cells as [|c cells IH]; intros [a b]; simpl; [by rewrite !app_nil_r|].
  rewrite IH. unfold inside_cell, partial_cell. simpl. destruct (classify c state) as [[] s]; simpl; try done;
    by rewrite <- !app_assoc.
Qed.

Lemma expand_classified partial :
  expand classify partial = (omap inside_cell (classified partial), omap partial_cell (classified partial)).
Proof.
  unfold expand. assert (forall acc, foldl (fun acc '(parent, state) => foldl (fun '(inside, next) cell =>
      match classify cell state with
      | (Outside, _) => (inside, next)
      | (Inside, _) => (inside ++ [cell], next)
      | (Partial, child) => (inside, next ++ [(cell, child)])
      end) acc (children parent)) acc partial =
    (acc.1 ++ omap inside_cell (classified partial), acc.2 ++ omap partial_cell (classified partial))) as H;
    [|by rewrite H].
  induction partial as [|[p s] partial IH]; intros acc; [destruct acc; simpl; by rewrite !app_nil_r|].
  cbn [foldl]. rewrite expand_children, IH. unfold classified. cbn [mbind list_bind fst snd]. by rewrite !omap_app, <- !app_assoc.
Qed.

Lemma classified_length partial : zlen (classified partial) = 4 * zlen partial.
Proof.
  induction partial as [|[p s] partial IH]; [done|]. unfold classified in *. cbn [mbind list_bind].
  rewrite zlen_app, IH, zlen_cons. change (zlen (_ <$> children p)) with 4. lia.
Qed.

Lemma expand_length partial inside next :
  expand classify partial = (inside, next) -> zlen inside + zlen next <= 4 * zlen partial.
Proof.
  rewrite expand_classified, <- classified_length. intros E. injection E as <- <-.
  induction (classified partial) as [|x l IH]; [done|]. rewrite zlen_cons. simpl.
  unfold inside_cell at 1, partial_cell at 1. destruct (x.2.1); simpl; rewrite ?zlen_cons; unfold omap in IH; lia.
Qed.

Lemma expand_next partial inside next c s :
  expand classify partial = (inside, next) -> (c, s) ∈ next ->
  exists p s', (p, s') ∈ partial /\ c ∈ children p /\ classify c s' = (Partial, s).
Proof.
  rewrite expand_classified. intros E. injection E as <- <-. intros H. apply list_elem_of_omap in H as ([d [o t]] & Hd & Hp).
  unfold partial_cell in Hp. simpl in Hp. destruct o; try done. injection Hp as <- <-.
  apply list_elem_of_bind in Hd as ([p s'] & Hd & Hp). apply list_elem_of_fmap in Hd as (x & Ex & Hx).
  injection Ex as -> Ex. exists p, s'. auto.
Qed.

Lemma expand_child partial inside next p s' c :
  expand classify partial = (inside, next) -> (p, s') ∈ partial -> c ∈ children p ->
  match classify c s' with
  | (Outside, _) => True
  | (Inside, _) => c ∈ inside
  | (Partial, s) => (c, s) ∈ next
  end.
Proof.
  rewrite expand_classified. intros E. injection E as <- <-. intros Hp Hc.
  assert ((c, classify c s') ∈ classified partial) as H.
  { apply list_elem_of_bind. exists (p, s'). split; [|done]. apply list_elem_of_fmap. by exists c. }
  destruct (classify c s') as [[] s] eqn:Ec; [done|..]; apply list_elem_of_omap; by eexists.
Qed.

Context {Out : Type} (emit : Cell -> Out).

(** All partial cells are on the same level. *)
Definition on_level (l : Z) (partial : list (Cell * St)) : Prop :=
  forall c s, (c, s) ∈ partial -> cell_ok c /\ level c = l.

Lemma expand_level l partial inside next :
  l < BITS -> on_level l partial -> expand classify partial = (inside, next) -> on_level (l + 1) next.
Proof.
  intros Hl Hp E c s Hc. destruct (expand_next _ _ _ _ _ E Hc) as (p & s' & Hps & Hcp & _).
  destruct (Hp p s' Hps) as [Hok <-]. by apply (children_ok p).
Qed.

(** A round per level is enough, and the budget is kept. *)
Lemma descend_total fuel budget : forall l out partial,
  on_level l partial -> l <= BITS -> BITS - l + 1 < Z.of_nat fuel ->
  zlen out + zlen partial <= Z.max budget 1 ->
  exists res, descend classify emit fuel budget out partial = Some res /\ zlen res <= Z.max budget 1.
Proof.
  induction fuel as [|fuel IH]; intros l out partial Hp Hl Hf Hb; [lia|]. cbn [descend].
  destruct partial as [|[c s] partial]; [exists out; split; [done|]; change (zlen []) with 0 in Hb; lia|].
  destruct ((_ =? _) || _) eqn:E.
  - eexists. split; [done|]. rewrite zlen_app. unfold zlen at 2. rewrite length_fmap. done.
  - apply orb_false_iff in E as [E1%Z.eqb_neq E2%Z.ltb_ge]. destruct (Hp c s ltac:(left)) as [_ Hlc].
    destruct (expand classify ((c, s) :: partial)) as [inside next] eqn:Ex.
    apply (IH (l + 1)); [by eapply expand_level; [lia|exact Hp|]|lia|lia|].
    apply expand_length in Ex. rewrite zlen_app. unfold zlen at 2. rewrite length_fmap. fold (zlen inside). lia.
Qed.

Lemma expand_inside partial inside next c :
  expand classify partial = (inside, next) -> c ∈ inside -> exists p s', (p, s') ∈ partial /\ c ∈ children p.
Proof.
  rewrite expand_classified. intros E. injection E as <- <-. intros H. apply list_elem_of_omap in H as ([d [o t]] & Hd & Hp).
  unfold inside_cell in Hp. simpl in Hp. destruct o; try done. injection Hp as <-.
  apply list_elem_of_bind in Hd as ([p s'] & Hd & Hp). apply list_elem_of_fmap in Hd as (x & Ex & Hx).
  injection Ex as -> Ex. by exists p, s'.
Qed.

(** What holds of the output of every cell. *)
Lemma descend_forall (P : Out -> Prop) fuel budget : (forall c, cell_ok c -> P (emit c)) -> forall l out partial res,
  on_level l partial -> l <= BITS -> (forall o, o ∈ out -> P o) ->
  descend classify emit fuel budget out partial = Some res -> forall o, o ∈ res -> P o.
Proof.
  intros HP. induction fuel as [|fuel IH]; intros l out partial res Hp Hl Hout Hd; [done|]. cbn [descend] in Hd.
  destruct partial as [|[c0 s0] partial]; [injection Hd as <-; done|]. destruct ((_ =? _) || _) eqn:E.
  - injection Hd as <-. intros o Ho. apply elem_of_app in Ho as [Ho|Ho]; [by apply Hout|].
    change (o ∈ (fun p : Cell * St => emit p.1) <$> (c0, s0) :: partial) in Ho.
    apply list_elem_of_fmap in Ho as ([c s] & -> & Hc). by apply HP, (Hp c s).
  - apply orb_false_iff in E as [E1%Z.eqb_neq E2]. destruct (Hp c0 s0 ltac:(left)) as [_ Hlc].
    destruct (expand classify ((c0, s0) :: partial)) as [inside next] eqn:Ex.
    assert (on_level (l + 1) next) as Hn by (eapply expand_level; [|exact Hp|exact Ex]; lia).
    apply (IH (l + 1) (out ++ (emit <$> inside)) next res Hn); [lia| |exact Hd]. intros o Ho. apply elem_of_app in Ho as [Ho|Ho]; [by apply Hout|].
    apply list_elem_of_fmap in Ho as (c & -> & Hc). destruct (expand_inside _ _ _ _ Ex Hc) as (p & s' & Hps & Hcp).
    destruct (Hp p s' Hps) as [Hok Hlv]. apply HP. by destruct (children_ok p c Hok ltac:(lia) Hcp).
Qed.

(** A position is not lost when the classification never loses it: [fits] is what a partial
    cell and its state satisfy. *)
Section Position.
Context (px py : Z) (fits : Cell -> St -> Prop) (hit : Out -> Prop).
Context (Hemit : forall c, cell_ok c -> contains c px py -> hit (emit c)).
Context (Hfits : forall p s c, fits p s -> cell_ok c -> c ∈ children p -> contains c px py ->
  match classify c s with (Outside, _) => False | (Inside, _) => True | (Partial, s') => fits c s' end).

Lemma descend_hits fuel budget : forall l out partial res,
  on_level l partial -> l <= BITS ->
  (exists o, o ∈ out /\ hit o) \/ (exists c s, (c, s) ∈ partial /\ contains c px py /\ fits c s) ->
  descend classify emit fuel budget out partial = Some res -> exists o, o ∈ res /\ hit o.
Proof.
  induction fuel as [|fuel IH]; intros l out partial res Hp Hl Hinv Hd; [done|]. cbn [descend] in Hd.
  destruct partial as [|[c0 s0] partial].
  { injection Hd as <-. destruct Hinv as [?|(c & s & Hc & _)]; [done|]. by apply not_elem_of_nil in Hc. }
  destruct ((_ =? _) || _) eqn:E.
  - injection Hd as <-. destruct Hinv as [(o & Ho & Hh)|(c & s & Hc & Hcp & _)].
    + exists o. rewrite elem_of_app. auto.
    + exists (emit c). split; [|apply Hemit; [by eapply Hp|done]]. rewrite elem_of_app. right.
      by apply (list_elem_of_fmap_2' (fun p : Cell * St => emit p.1) ((c0, s0) :: partial) (c, s)).
  - apply orb_false_iff in E as [E1%Z.eqb_neq E2]. destruct (Hp c0 s0 ltac:(left)) as [_ Hlc].
    destruct (expand classify ((c0, s0) :: partial)) as [inside next] eqn:Ex.
    assert (on_level (l + 1) next) as Hn by (eapply expand_level; [|exact Hp|exact Ex]; lia).
    apply (IH (l + 1) _ _ _ Hn ltac:(lia)) in Hd; [done|]. destruct Hinv as [(o & Ho & Hh)|(c & s & Hc & Hcp & Hfit)].
    + left. exists o. rewrite elem_of_app. auto.
    + destruct (Hp c s Hc) as [Hok Hlv]. destruct (children_contain c px py Hok ltac:(lia) Hcp) as (d & Hdc & Hdp).
      destruct (children_ok c d Hok ltac:(lia) Hdc) as [Hdok _].
      pose proof (expand_child _ _ _ _ _ _ Ex Hc Hdc) as H. pose proof (Hfits c s d Hfit Hdok Hdc Hdp) as H'.
      destruct (classify d s) as [[] s'] eqn:Ecl; [done|right; by exists d, s'|left].
      exists (emit d). split; [|by apply Hemit]. rewrite elem_of_app. right. apply list_elem_of_fmap. by exists d.
Qed.
End Position.
End Descent.

(** ** Merging *)
Definition in_ranges (k : Z) (ranges : list (Z * Z)) : Prop := exists r, r ∈ ranges /\ r.1 <= k <= r.2.
Definition ranges_ok (ranges : list (Z * Z)) : Prop := Forall (fun r => r.1 <= r.2) ranges.

(** Ascending, and neighbours do not touch. *)
Definition apart (a b : Z * Z) : Prop := a.2 + 1 < b.1.
Definition separated (ranges : list (Z * Z)) : Prop := StronglySorted apart ranges.

#[export] Instance range_le_total : Total range_le.
Proof. intros a b. unfold range_le. lia. Qed.
#[export] Instance range_le_trans : Transitive range_le.
Proof. intros a b c. unfold range_le. lia. Qed.

Lemma in_ranges_cons k r rs : in_ranges k (r :: rs) <-> r.1 <= k <= r.2 \/ in_ranges k rs.
Proof. unfold in_ranges. setoid_rewrite elem_of_cons. naive_solver. Qed.

Lemma in_ranges_perm k rs rs' : rs ≡ₚ rs' -> in_ranges k rs <-> in_ranges k rs'.
Proof. intros H. unfold in_ranges. by setoid_rewrite H. Qed.

(** The merged ranges so far, the last one first, and the least first key of the rest. *)
Definition merged_ok (acc : list (Z * Z)) (from : Z) : Prop :=
  ranges_ok acc /\ StronglySorted (flip apart) acc /\ match acc with a :: _ => a.1 <= from | [] => True end.

Lemma merge_step_ok acc r :
  merged_ok acc r.1 -> r.1 <= r.2 ->
  merged_ok (merge_step acc r) r.1 /\ zlen (merge_step acc r) <= 1 + zlen acc /\
  forall k, in_ranges k (merge_step acc r) <-> r.1 <= k <= r.2 \/ in_ranges k acc.
Proof.
  intros (Hok & Hs & Hf) Hr. unfold merge_step. destruct acc as [|p acc].
  { split; [split_and!; by repeat constructor|]. split; [done|]. intros k. by rewrite in_ranges_cons. }
  apply Forall_cons_iff in Hok as [Hp Hok]. apply StronglySorted_inv in Hs as [Hs Hpa].
  destruct (Z.leb_spec r.1 (p.2 + 1)).
  - split; [split_and!; [constructor; [simpl; lia|done]|constructor; done|done]|].
    split; [rewrite !zlen_cons; lia|]. intros k. rewrite !in_ranges_cons. simpl.
    assert (p.1 <= k <= Z.max p.2 r.2 <-> r.1 <= k <= r.2 \/ p.1 <= k <= p.2) by lia. tauto.
  - split; [|split; [rewrite !zlen_cons; lia|intros k; by rewrite in_ranges_cons]].
    split_and!; [by repeat constructor| |lia]. constructor; [by constructor|].
    constructor; [unfold flip, apart in *; lia|]. eapply Forall_impl; [|exact Hpa]. unfold flip, apart. lia.
Qed.

Lemma merge_fold rs : forall acc from,
  merged_ok acc from -> Forall (fun r => from <= r.1) rs -> StronglySorted range_le rs -> ranges_ok rs ->
  let res := foldl merge_step acc rs in
  (exists from', merged_ok res from') /\ zlen res <= zlen acc + zlen rs /\
  forall k, in_ranges k res <-> in_ranges k rs \/ in_ranges k acc.
Proof.
  induction rs as [|r rs IH]; intros acc from Hacc Hfrom Hs Hok res.
  { split; [by exists from|]. split; [unfold res; simpl; change (zlen []) with 0; lia|].
    intros k. unfold res. simpl. unfold in_ranges at 2. setoid_rewrite elem_of_nil. naive_solver. }
  apply Forall_cons_iff in Hfrom as [Hr Hfrom]. apply StronglySorted_inv in Hs as [Hs Hle].
  apply Forall_cons_iff in Hok as [Hr' Hok].
  assert (merged_ok acc r.1) as Hacc' by (destruct Hacc as (H1 & H2 & H3); split_and!; try done; destruct acc; [done|lia]).
  destruct (merge_step_ok acc r Hacc' Hr') as (H1 & H2 & H3).
  destruct (IH (merge_step acc r) r.1 H1) as (K1 & K2 & K3); [|done..|].
  { eapply Forall_impl; [|exact Hle]. unfold range_le. lia. }
  unfold res. cbn [foldl]. split; [done|]. split; [rewrite zlen_cons; lia|]. intros k. rewrite K3, H3, in_ranges_cons. tauto.
Qed.

Lemma StronglySorted_reverse (l : list (Z * Z)) : StronglySorted (flip apart) l -> StronglySorted apart (reverse l).
Proof.
  induction 1 as [|a l Hs IH Ha]; [constructor|]. rewrite reverse_cons. apply StronglySorted_app_2; [|done|by repeat constructor].
  intros x y Hx Hy. apply list_elem_of_singleton in Hy as ->. rewrite elem_of_reverse in Hx.
  rewrite Forall_forall in Ha. by apply Ha, list_elem_of_In.
Qed.

(** [merge] keeps the keys, sorts the ranges and leaves a gap between any two. *)
Lemma merge_spec ranges :
  ranges_ok ranges ->
  separated (merge ranges) /\ zlen (merge ranges) <= zlen ranges /\ ranges_ok (merge ranges) /\
  forall k, in_ranges k (merge ranges) <-> in_ranges k ranges.
Proof.
  intros Hok. unfold merge. set (rs := merge_sort range_le ranges).
  pose proof (merge_sort_Permutation range_le ranges) as Hperm. fold rs in Hperm.
  assert (exists from, Forall (fun r => from <= r.1) rs) as [from Hfrom].
  { clear. induction rs as [|r rs [from IH]]; [by exists 0|]. exists (Z.min from r.1). constructor; [lia|].
    eapply Forall_impl; [|exact IH]. simpl. lia. }
  destruct (merge_fold rs [] from) as ([from' (H1 & H2 & _)] & H3 & H4).
  - by repeat constructor.
  - done.
  - apply StronglySorted_merge_sort; apply _.
  - unfold ranges_ok. by rewrite Hperm.
  - split_and!.
    + by apply StronglySorted_reverse.
    + unfold zlen at 1. rewrite length_reverse. fold (zlen (foldl merge_step [] rs)). change (zlen []) with 0 in H3.
      unfold zlen in *. rewrite <- (Permutation_length Hperm). lia.
    + unfold ranges_ok. by rewrite reverse_Permutation.
    + intros k. rewrite (in_ranges_perm k _ _ (reverse_Permutation _)), H4, (in_ranges_perm k _ _ Hperm).
      unfold in_ranges at 2. setoid_rewrite elem_of_nil. naive_solver.
Qed.

(** ** Coalescing *)
Lemma min_gap_cons a b rest :
  min_gap (a :: b :: rest) =
    match min_gap (b :: rest) with
    | Some (i, g) => if g <? b.1 - a.2 then Some (S i, g) else Some (0%nat, b.1 - a.2)
    | None => Some (0%nat, b.1 - a.2)
    end.
Proof. done. Qed.

Lemma min_gap_Some ranges : (2 <= length ranges)%nat -> exists i g, min_gap ranges = Some (i, g) /\ (S i < length ranges)%nat.
Proof.
  induction ranges as [|a [|b rest] IH]; cbn [length]; intros H; [lia..|]. rewrite min_gap_cons.
  destruct rest as [|c rest]; [exists 0%nat; eexists; split; [done|simpl; lia]|].
  destruct IH as (i & g & E & Hi); [simpl; lia|]. rewrite E.
  destruct (_ <? _); [exists (S i)|exists 0%nat]; eexists; (split; [done|simpl in *; lia]).
Qed.

Lemma join_at_spec i : forall ranges,
  (S i < length ranges)%nat -> separated ranges -> ranges_ok ranges ->
  S (length (join_at i ranges)) = length ranges /\ separated (join_at i ranges) /\ ranges_ok (join_at i ranges) /\
  (forall k, in_ranges k ranges -> in_ranges k (join_at i ranges)) /\
  (forall r, r ∈ join_at i ranges -> exists r', r' ∈ ranges /\ r'.1 = r.1).
Proof.
  induction i as [|i IH]; intros [|a rest] Hi Hs Hok; cbn [length] in Hi; try lia.
  - destruct rest as [|b rest]; cbn [length] in Hi; [lia|]. cbn [join_at length].
    apply StronglySorted_inv in Hs as [Hs Ha]. apply StronglySorted_inv in Hs as [Hs Hb].
    apply Forall_cons_iff in Ha as [Hab Ha]. apply Forall_cons_iff in Hok as [Ha' Hok]. apply Forall_cons_iff in Hok as [Hb' Hok].
    unfold apart in Hab. split_and!; [done|by constructor|by constructor; [simpl; lia|]|..].
    + intros k. rewrite !in_ranges_cons. simpl. intros [?|[?|?]]; [left; lia..|by right].
    + intros r Hr. apply elem_of_cons in Hr as [->|Hr]; [exists a|exists r]; rewrite !elem_of_cons; auto.
  - cbn [join_at length]. apply StronglySorted_inv in Hs as [Hs Ha]. apply Forall_cons_iff in Hok as [Ha' Hok].
    destruct (IH rest ltac:(lia) Hs Hok) as (H1 & H2 & H3 & H4 & H5). split_and!; [lia| |by constructor|..].
    + constructor; [done|]. apply Forall_forall. intros r Hr. apply list_elem_of_In, H5 in Hr as (r' & Hr' & E).
      rewrite Forall_forall in Ha. apply list_elem_of_In, Ha in Hr'. unfold apart in *. lia.
    + intros k. rewrite !in_ranges_cons. intros [?|?]; auto.
    + intros r Hr. apply elem_of_cons in Hr as [->|Hr]; [exists a; by rewrite elem_of_cons; auto|].
      destruct (H5 r Hr) as (r' & Hr' & E). exists r'. rewrite elem_of_cons. auto.
Qed.

Lemma coalesce_loop_spec arms fuel : forall ranges,
  (length ranges < fuel)%nat -> separated ranges -> ranges_ok ranges ->
  exists res, coalesce_loop fuel ranges arms = Some res /\ zlen res <= Z.max arms 1 /\ separated res /\
    forall k, in_ranges k ranges -> in_ranges k res.
Proof.
  induction fuel as [|fuel IH]; intros ranges Hf Hs Hok; [lia|]. cbn [coalesce_loop].
  destruct (Z.ltb_spec (Z.max arms 1) (zlen ranges)) as [Hlt|Hge]; [|by exists ranges].
  destruct (min_gap_Some ranges) as (i & g & -> & Hi); [unfold zlen in Hlt; lia|].
  destruct (join_at_spec i ranges Hi Hs Hok) as (H1 & H2 & H3 & H4 & _).
  destruct (IH (join_at i ranges) ltac:(lia) H2 H3) as (res & E & K1 & K2 & K3). exists res. split_and!; auto.
Qed.

(** ** Covers are complete *)
Lemma root_level {St} (root : St) : on_level 0 [(mkCell 0 0 0, root)].
Proof. intros c s Hc. apply list_elem_of_singleton in Hc. injection Hc as -> ->. split; [apply root_ok|done]. Qed.

Lemma cover_spec {St} (classify : Cell -> St -> Overlap * St) budget root :
  exists res, cover classify budget root = Some res /\ separated res /\ ranges_ok res /\ zlen res <= Z.max budget 1 /\
    forall px py (fits : Cell -> St -> Prop), in_u 31 px -> in_u 31 py -> fits (mkCell 0 0 0) root ->
      (forall p s c, fits p s -> cell_ok c -> c ∈ children p -> contains c px py ->
        match classify c s with (Outside, _) => False | (Inside, _) => True | (Partial, s') => fits c s' end) ->
      in_ranges (interleave px py) res.
Proof.
  destruct (descend_total classify range rounds budget 0 [] _ (root_level root)) as (out & Hd & Hl);
    [unfold BITS, rounds; lia..|change (zlen [(mkCell 0 0 0, root)]) with 1; change (zlen []) with 0; lia|].
  assert (ranges_ok out) as Hok.
  { apply Forall_forall. intros r Hr. revert r Hr.
    assert (forall r, r ∈ out -> r.1 <= r.2) as H; [|by intros r Hr%list_elem_of_In; apply H].
    eapply (descend_forall classify range _ rounds budget); [|apply root_level|unfold BITS; lia| |exact Hd].
    - intros c (Hlv & _). unfold range. simpl. rewrite size_eq by done. assert (0 < 2 ^ (BITS - level c)) by (unfold BITS in *; lia). nia.
    - intros o Ho. by apply not_elem_of_nil in Ho. }
  destruct (merge_spec out Hok) as (M1 & M2 & M3 & M4). unfold cover. rewrite Hd. exists (merge out).
  split_and!; try done; [lia|]. intros px py fits Hx Hy Hroot Hfits. apply M4.
  destruct (descend_hits classify range px py fits (fun r => r.1 <= interleave px py <= r.2)) with (fuel := rounds)
    (budget := budget) (l := 0) (out := @nil (Z * Z)) (partial := [(mkCell 0 0 0, root)]) (res := out) as (r & Hr & Hk); try done.
  - intros c Hc Hcp. by apply range_contains.
  - apply root_level.
  - right. exists (mkCell 0 0 0), root. split_and!; [by left|by apply root_contains|done].
  - by exists r.
Qed.

Lemma max_overlap_ge os : forall m,
  overlap_rank m <= overlap_rank (foldl (fun m o => if overlap_rank m <=? overlap_rank o then o else m) m os) /\
  forall o, o ∈ os -> overlap_rank o <= overlap_rank (foldl (fun m o => if overlap_rank m <=? overlap_rank o then o else m) m os).
Proof.
  induction os as [|o os IH]; intros m; simpl; [split; [lia|]; intros o Ho; by apply not_elem_of_nil in Ho|].
  destruct (IH (if overlap_rank m <=? overlap_rank o then o else m)) as [H1 H2].
  destruct (Z.leb_spec (overlap_rank m) (overlap_rank o)); (split; [lia|]);
    intros o' Ho; apply elem_of_cons in Ho as [->|Ho]; auto; lia.
Qed.

Lemma overlap_meets c w px py :
  contains c px py -> x0 w <= px <= x1 w -> y0 w <= py <= y1 w -> overlap_window c w <> Outside.
Proof.
  unfold contains, overlap_window. intros [Hx Hy] Wx Wy. rewrite !(proj2 (Z.ltb_ge _ _)) by lia. simpl.
  by destruct (_ && _).
Qed.

(** C34: A quadtree cell and its range of keys hold the same positions: a position is in
    the rectangle of an aligned cell exactly when its interleaved key is between the
    ends of the cell's range, which is what lets one range scan stand for a square. *)
Theorem cell_range_exact c px py :
  cell_ok c -> in_u 31 px -> in_u 31 py ->
  (contains c px py <-> (range c).1 <= interleave px py <= (range c).2).
Proof. exact (range_contains c px py). Qed.

Lemma cell_range_exact_witness :
  contains (mkCell 30 6 4) 7 4 <-> (range (mkCell 30 6 4)).1 <= interleave 7 4 <= (range (mkCell 30 6 4)).2.
Proof. apply (cell_range_exact (mkCell 30 6 4) 7 4); repeat split; done. Defined.

Definition in_window (w : Window) (px py : Z) : Prop := x0 w <= px <= x1 w /\ y0 w <= py <= y1 w.

Lemma cover_windows_spec windows budget :
  exists res, cover_windows windows budget = Some res /\ separated res /\ ranges_ok res /\ zlen res <= Z.max budget 1 /\
    forall w px py, w ∈ windows -> in_window w px py -> in_u 31 px -> in_u 31 py -> in_ranges (interleave px py) res.
Proof.
  unfold cover_windows. set (classify := fun cell (_ : ()) => _).
  destruct (cover_spec classify budget ()) as (res & E & H1 & H2 & H3 & H4). exists res. split_and!; try done.
  intros w px py Hw [Hx Hy] Hpx Hpy. apply (H4 px py (fun _ _ => True)); try done. intros p s c _ Hc _ Hcp. unfold classify.
  destruct (max_overlap_ge (overlap_window c <$> windows) Outside) as [_ Hge].
  specialize (Hge (overlap_window c w) (list_elem_of_fmap_2 _ _ _ Hw)). pose proof (overlap_meets c w px py Hcp Hx Hy) as Hne.
  fold (max_overlap (overlap_window c <$> windows)) in Hge.
  destruct (overlap_window c w), (max_overlap _); simpl in Hge; try done; lia.
Qed.

(** C32: A spatial query misses no position.  For any windows and budgets [cover_windows]
    returns ranges, at most as many as budgeted, in order and with gaps between
    them, and [coalesce] then joins them to at most [arms] ranges; the key of every
    position in one of the windows is in both. *)
Theorem cover_windows_complete windows budget arms :
  exists res res', cover_windows windows budget = Some res /\ coalesce res arms = Some res' /\
    separated res /\ separated res' /\ zlen res <= Z.max budget 1 /\ zlen res' <= Z.max arms 1 /\
    forall w px py, w ∈ windows -> in_window w px py -> in_u 31 px -> in_u 31 py ->
      in_ranges (interleave px py) res /\ in_ranges (interleave px py) res'.
Proof.
  destruct (cover_windows_spec windows budget) as (res & E & H1 & H2 & H3 & H4).
  destruct (coalesce_loop_spec arms (S (length res)) res ltac:(lia) H1 H2) as (res' & E' & K1 & K2 & K3).
  exists res, res'. split_and!; try done. intros w px py Hw Hp Hx Hy. specialize (H4 w px py Hw Hp Hx Hy). auto.
Qed.

Lemma contains_prefix c px py :
  cell_ok c -> contains c px py -> in_u 31 px -> in_u 31 py ->
  Z.shiftr (interleave px py) (2 * (BITS - level c)) = Z.shiftr (interleave (cell_x c) (cell_y c)) (2 * (BITS - level c)).
Proof.
  intros Hc Hp Hpx Hpy. pose proof Hc as (Hl & Hx & Hy & Hmx & Hmy).
  unfold contains in Hp. rewrite last_x_eq, last_y_eq in Hp by done. destruct Hp as [Ha Hb].
  apply same_block in Ha; [|lia|done]. apply same_block in Hb; [|lia|done].
  rewrite !interleave_shiftr by (unfold in_u in *; lia). by rewrite Ha, Hb.
Qed.

(** C33: A region stored by its cells is found from every position it covers: when the
    classification never reports a cell outside that contains the position, one of
    the codes [ancestor_codes] gives for the position is among the codes
    [region_cells] gives for the region, which are at most as many as budgeted. *)
Theorem region_cells_find_position {St} (classify : Cell -> St -> Overlap * St) budget root
    (fits : Cell -> St -> Prop) px py :
  in_u 31 px -> in_u 31 py -> fits (mkCell 0 0 0) root ->
  (forall p s c, fits p s -> cell_ok c -> c ∈ children p -> contains c px py ->
     match classify c s with (Outside, _) => False | (Inside, _) => True | (Partial, s') => fits c s' end) ->
  exists codes code, region_cells classify budget root = Some codes /\ zlen codes <= Z.max budget 1 /\
    code ∈ codes /\ code ∈ ancestor_codes (interleave px py).
Proof.
  intros Hx Hy Hroot Hfits.
  destruct (descend_total classify cell_code rounds budget 0 [] _ (root_level root)) as (out & Hd & Hl);
    [unfold BITS, rounds; lia..|change (zlen [(mkCell 0 0 0, root)]) with 1; change (zlen []) with 0; lia|].
  unfold region_cells. rewrite Hd. pose proof (merge_sort_Permutation Z.le out) as Hperm.
  destruct (descend_hits classify cell_code px py fits (fun code => code ∈ ancestor_codes (interleave px py)))
    with (fuel := rounds) (budget := budget) (l := 0) (out := @nil Z) (partial := [(mkCell 0 0 0, root)]) (res := out)
    as (code & Hc & Ha); try done.
  - intros c Hok Hcp. unfold ancestor_codes, cell_code. rewrite <- (contains_prefix c px py) by done.
    apply list_elem_of_fmap. exists (level c). split; [done|]. apply list_elem_of_fmap. exists (Z.to_nat (level c)).
    destruct Hok as (Hlv & _). unfold BITS in Hlv. split; [lia|]. apply elem_of_seq. lia.
  - apply root_level.
  - right. exists (mkCell 0 0 0), root. split_and!; [by left|by apply root_contains|done].
  - exists (merge_sort Z.le out), code. split_and!; try done; [|by rewrite Hperm].
    unfold zlen in *. by rewrite (Permutation_length Hperm).
Qed.

(** A region that is the left half of the grid. *)
Lemma region_cells_find_position_witness :
  exists codes code, region_cells (fun c (_ : ()) => (overlap_window c (mkWindow 0 (2 ^ 30 - 1) 0 (2 ^ 31 - 1)), ())) 8 () = Some codes /\
    zlen codes <= 8 /\ code ∈ codes /\ code ∈ ancestor_codes (interleave 5 9).
Proof.
  apply (region_cells_find_position (fun c (_ : ()) => (overlap_window c (mkWindow 0 (2 ^ 30 - 1) 0 (2 ^ 31 - 1)), ())) 8 ()
    (fun _ _ => True) 5 9).
  - done.
  - done.
  - done.
  - intros p s c _ Hc _ Hcp. pose proof (overlap_meets c (mkWindow 0 (2 ^ 30 - 1) 0 (2 ^ 31 - 1)) 5 9 Hcp) as H.
    destruct (overlap_window _ _); [|done|done]. apply H; [cbn; lia..|done].
Defined.
