(* ===== verification/Numeric.v ===== *)
(** * Numbers and their order ([src/core/numeric])

    A 64-bit float is its bit pattern.  Its value is an integer number of units of 2^-1074, the
    least positive float; the infinities are more units than any finite float has.  The order of
    [Numeric] compares integers with floats by casts; the theorems show it is that of the exact
    values. *)
From S2P Require Import Prelude Errors.

(** ** Comparisons

    A total preorder: comparing the other way round gives the opposite, and "not greater" is
    transitive, strictly so when one of the steps is. *)
Class Order {A} (cmp : A -> A -> comparison) : Prop := {
  ord_opp : forall x y, cmp y x = CompOpp (cmp x y);
  ord_trans : forall x y z, cmp x y <> Gt -> cmp y z <> Gt ->
    cmp x z <> Gt /\ (cmp x z = Eq -> cmp x y = Eq /\ cmp y z = Eq)
}.

Lemma ord_refl {A} (cmp : A -> A -> comparison) {Hc : Order cmp} x : cmp x x = Eq.
Proof. pose proof (ord_opp x x) as H. by destruct (cmp x x). Qed.

Lemma ord_eq_r {A} (cmp : A -> A -> comparison) {Hc : Order cmp} x y z : cmp y z = Eq -> cmp x y = cmp x z.
Proof.
  intros H. assert (cmp z y = Eq) as H' by (by rewrite ord_opp, H). pose proof (ord_opp x y) as O1. pose proof (ord_opp x z) as O2.
  destruct (cmp x y) eqn:E1; simpl in O1.
  - destruct (ord_trans x y z) as [T1 _]; [congruence..|]. destruct (ord_trans z y x) as [T2 _]; [congruence..|]. by destruct (cmp x z).
  - destruct (ord_trans x y z) as [T1 T2]; [congruence..|]. destruct (cmp x z); try done. destruct T2; congruence.
  - destruct (ord_trans z y x) as [T1 T2]; [congruence..|]. destruct (cmp x z); simpl in O2; try congruence. destruct T2; congruence.
Qed.

#[export] Instance Z_order : Order Z.compare.
Proof.
  split.
  - intros x y. apply Z.compare_antisym.
  - intros x y z. rewrite !Z.compare_eq_iff, !Z.compare_ngt_iff. lia.
Qed.

Lemma pull_order {A B} (f : A -> B) cmp : Order cmp -> Order (fun x y => cmp (f x) (f y)).
Proof. intros []. split; auto. Qed.

Lemma opp_order {A} (cmp : A -> A -> comparison) : Order cmp -> Order (fun x y => CompOpp (cmp x y)).
Proof.
  intros Hc. pose proof Hc as [Ho Ht]. split.
  - intros x y. by rewrite Ho.
  - intros x y z H1 H2. rewrite <- !Ho in *. destruct (Ht z y x) as [T1 T2]; [done..|]. split; [done|].
    intros H. destruct (T2 H). done.
Qed.

(** The lexicographic order of lists, as of slices. *)
Fixpoint list_cmp {A} (cmp : A -> A -> comparison) (l k : list A) : comparison :=
  match l, k with
  | [], [] => Eq
  | [], _ :: _ => Lt
  | _ :: _, [] => Gt
  | x :: l, y :: k => match cmp x y with Eq => list_cmp cmp l k | c => c end
  end.

#[export] Instance list_order {A} (cmp : A -> A -> comparison) : Order cmp -> Order (list_cmp cmp).
Proof.
  intros Hc. split.
  - induction x as [|a x IH]; intros [|b y]; simpl; try done. rewrite ord_opp. by destruct (cmp a b); simpl.
  - induction x as [|a x IH]; intros [|b y] [|c z]; simpl; try done. intros H1 H2.
    destruct (cmp a b) eqn:E1, (cmp b c) eqn:E2; try done;
      destruct (ord_trans a b c) as [T1 T2]; try (by rewrite ?E1, ?E2);
      destruct (cmp a c) eqn:E3; try done; try (destruct T2; congruence); by apply (IH y z).
Qed.

(** ** Floats *)
Definition f64_sign (f : Z) : bool := 2 ^ 63 <=? f.
Definition f64_exponent (f : Z) : Z := shr f 52 mod 2 ^ 11.
Definition f64_fraction (f : Z) : Z := f mod 2 ^ 52.
Definition is_nan (f : Z) : bool := (f64_exponent f =? 2047) && negb (f64_fraction f =? 0).

(** The value in units of 2^-1074. *)
Definition f64_magnitude (f : Z) : Z :=
  if f64_exponent f =? 0 then f64_fraction f else (2 ^ 52 + f64_fraction f) * 2 ^ (f64_exponent f - 1).
Definition f64_units (f : Z) : Z := if f64_sign f then - f64_magnitude f else f64_magnitude f.
Definition UNITS : Z := 2 ^ 1074.

(** [f64::partial_cmp] and the operators [<] and [>=] *)
Definition f64_partial_cmp (a b : Z) : option comparison :=
  if is_nan a || is_nan b then None else Some (f64_units a ?= f64_units b).
Definition f64_lt (a b : Z) : bool := bool_decide (f64_partial_cmp a b = Some Lt).
Definition f64_ge (a b : Z) : bool :=
  match f64_partial_cmp a b with Some Eq | Some Gt => true | _ => false end.

(** [f as i64]: towards zero, saturating *)
Definition f64_as_i64 (f : Z) : Z :=
  if is_nan f then 0
  else Z.max (- 2 ^ 63) (Z.min (2 ^ 63 - 1) (Z.quot (f64_units f) UNITS)).

(** [i as f64]: to the nearest float, of two the one with the even fraction *)
Definition round_half_even (n s : Z) : Z :=
  let q := n / 2 ^ s in
  let r := n mod 2 ^ s in
  if (2 ^ (s - 1) <? r) || ((r =? 2 ^ (s - 1)) && Z.odd q) then q + 1 else q.
Definition i64_as_f64 (i : Z) : Z :=
  let n := Z.abs i in
  if n =? 0 then 0
  else
    let e := Z.log2 n in
    let m := if e <=? 52 then n * 2 ^ (52 - e) else round_half_even n (e - 52) in
    (if i <? 0 then 2 ^ 63 else 0) + (e + 1023) * 2 ^ 52 + (m - 2 ^ 52).

(** ** [Numeric] *)
Inductive Numeric :=
| Integer (i : Z)
| Float (f : Z).

(** [9_223_372_036_854_775_808.0] and its opposite *)
Definition F64_2_63 : Z := 0x43E0000000000000.
Definition F64_MINUS_2_63 : Z := 0xC3E0000000000000.

Definition sqlite_int_float_cmp (int_val float_val : Z) : comparison :=
  if is_nan float_val then Gt
  else if f64_lt float_val F64_MINUS_2_63 then Gt
  else if f64_ge float_val F64_2_63 then Lt
  else
    let float_as_int := f64_as_i64 float_val in
    match int_val ?= float_as_int with
    | Eq =>
        let int_as_float := i64_as_f64 int_val in
        default Eq (f64_partial_cmp int_as_float float_val)
    | other => other
    end.

Definition Numeric_cmp (a b : Numeric) : comparison :=
  match a, b with
  | Integer a, Integer b => a ?= b
  | Float fa, Float fb => default Eq (f64_partial_cmp fa fb)
  | Integer int, Float float => sqlite_int_float_cmp int float
  | Float float, Integer int => CompOpp (sqlite_int_float_cmp int float)
  end.

Definition Numeric_ok (n : Numeric) : Prop :=
  match n with
  | Integer i => in_i 64 i
  | Float f => in_u 64 f /\ is_nan f = false
  end.

(** The exact value. *)
Definition Numeric_units (n : Numeric) : Z :=
  match n with
  | Integer i => i * UNITS
  | Float f => f64_units f
  end.

(** ** Casts *)
Lemma f64_fields s e m : 0 <= e < 2 ^ 11 -> 0 <= m < 2 ^ 52 -> (s = 0 \/ s = 1) ->
  let f := s * 2 ^ 63 + e * 2 ^ 52 + m in
  f64_sign f = (s =? 1) /\ f64_exponent f = e /\ f64_fraction f = m /\ in_u 64 f.
Proof.
  intros He Hm Hs f. unfold f64_sign, f64_exponent, f64_fraction, in_u.
  assert (f = (s * 2 ^ 11 + e) * 2 ^ 52 + m) as Hf by (unfold f; lia).
  assert (f / 2 ^ 52 = s * 2 ^ 11 + e) as Hd by (rewrite Hf; symmetry; apply Z.div_unique with m; lia).
  split_and!.
  - destruct Hs as [-> | ->]; unfold f; simpl (_ =? 1); [apply Z.leb_gt|apply Z.leb_le]; lia.
  - rewrite shr_div, Hd by lia. symmetry. apply Z.mod_unique with s; lia.
  - rewrite Hf. symmetry. apply Z.mod_unique with (s * 2 ^ 11 + e); lia.
  - unfold f. lia.
  - unfold f. lia.
Qed.

Lemma UNITS_pos : 0 < UNITS.
Proof. unfold UNITS. apply Z.pow_pos_nonneg; lia. Qed.

Lemma round_exact m s : 1 <= s -> round_half_even (m * 2 ^ s) s = m.
Proof.
  intros Hs. unfold round_half_even. assert (0 < 2 ^ s) by (apply Z.pow_pos_nonneg; lia). assert (0 < 2 ^ (s - 1)) by (apply Z.pow_pos_nonneg; lia).
  rewrite Z.div_mul, Z.mod_mul by lia. rewrite (proj2 (Z.ltb_ge _ _)) by lia. by rewrite (proj2 (Z.eqb_neq 0 _)) by lia.
Qed.

(** An integer with at most 53 significant bits. *)
Lemma i64_as_f64_exact i m : in_i 64 i -> i <> 0 -> 2 ^ 52 <= m < 2 ^ 53 -> Z.abs i * 2 ^ 52 = m * 2 ^ Z.log2 (Z.abs i) ->
  f64_units (i64_as_f64 i) = i * UNITS /\ is_nan (i64_as_f64 i) = false.
Proof.
  intros Hi H0 Hm Hn. unfold in_i in Hi. set (n := Z.abs i) in *. set (e := Z.log2 n) in *. assert (0 < n) by lia.
  assert (0 <= e <= 63) as He.
  { split; [apply Z.log2_nonneg|]. change 63 with (Z.log2 (2 ^ 63)). apply Z.log2_le_mono. lia. }
  assert (i64_as_f64 i = (if i <? 0 then 1 else 0) * 2 ^ 63 + (e + 1023) * 2 ^ 52 + (m - 2 ^ 52)) as ->.
  { unfold i64_as_f64. fold n e. rewrite (proj2 (Z.eqb_neq n 0)) by lia. destruct (Z.leb_spec e 52) as [Hle|Hgt].
    - replace (n * 2 ^ (52 - e)) with m; [by destruct (i <? 0)|]. apply (Z.mul_reg_r _ _ (2 ^ e)); [apply Z.pow_nonzero; lia|].
      rewrite <- Hn, <- Z.mul_assoc, <- Z.pow_add_r by lia. do 2 f_equal. lia.
    - replace n with (m * 2 ^ (e - 52)) at 1; [rewrite round_exact by lia; by destruct (i <? 0)|].
      apply (Z.mul_reg_r _ _ (2 ^ 52)); [lia|]. rewrite Hn, <- Z.mul_assoc, <- Z.pow_add_r by lia. do 2 f_equal. lia. }
  destruct (f64_fields (if i <? 0 then 1 else 0) (e + 1023) (m - 2 ^ 52)) as (Hs & He' & Hf & _);
    [lia|lia|destruct (i <? 0); auto|].
  unfold is_nan, f64_units, f64_magnitude. rewrite Hs, He', Hf. rewrite (proj2 (Z.eqb_neq _ 2047)), (proj2 (Z.eqb_neq _ 0)) by lia.
  split; [|done].
  assert ((2 ^ 52 + (m - 2 ^ 52)) * 2 ^ (e + 1023 - 1) = n * UNITS) as ->.
  { replace (2 ^ 52 + (m - 2 ^ 52)) with m by lia. replace (e + 1023 - 1) with (e + 1022) by lia. rewrite Z.pow_add_r, Z.mul_assoc, <- Hn by lia.
    unfold UNITS. change 1074 with (52 + 1022). rewrite (Z.pow_add_r 2 52 1022) by lia. apply Z.mul_shuffle0 || by rewrite Z.mul_assoc. }
  destruct (Z.ltb_spec i 0); simpl; [rewrite <- Z.mul_opp_l|]; f_equal; lia.
Qed.

Lemma log2_mantissa n e : 0 < n -> e = Z.log2 n -> e <= 52 -> 2 ^ 52 <= n * 2 ^ (52 - e) < 2 ^ 53.
Proof.
  intros Hn -> He. pose proof (Z.log2_spec n Hn) as [H1 H2]. pose proof (Z.log2_nonneg n). rewrite Z.pow_succ_r in H2 by lia.
  assert (2 ^ 52 = 2 ^ Z.log2 n * 2 ^ (52 - Z.log2 n)) as Hp by (rewrite <- Z.pow_add_r by lia; f_equal; lia).
  assert (0 < 2 ^ (52 - Z.log2 n)) by (apply Z.pow_pos_nonneg; lia). change (2 ^ 53) with (2 * 2 ^ 52). rewrite Hp. nia.
Qed.

Lemma i64_as_f64_in_u i : in_i 64 i -> in_u 64 (i64_as_f64 i).
Proof.
  intros Hi. unfold i64_as_f64, in_i, in_u in *. change (64 - 1) with 63 in Hi. set (n := Z.abs i). destruct (Z.eqb_spec n 0); [lia|].
  assert (0 < n <= 2 ^ 63) as Hn by lia. clearbody n. set (e := Z.log2 n). assert (0 <= e <= 63) as He.
  { split; [apply Z.log2_nonneg|]. change 63 with (Z.log2 (2 ^ 63)). apply Z.log2_le_mono. lia. }
  assert (2 ^ 52 <= (if e <=? 52 then n * 2 ^ (52 - e) else round_half_even n (e - 52)) <= 2 ^ 53) as Hm.
  { destruct (Z.leb_spec e 52); [pose proof (log2_mantissa n e ltac:(lia) eq_refl); lia|].
    assert (2 ^ 52 <= n / 2 ^ (e - 52) < 2 ^ 53) as Hq.
    { pose proof (Z.log2_spec n ltac:(lia)) as [H1 H2]. fold e in H1, H2. assert (0 < 2 ^ (e - 52)) by (apply Z.pow_pos_nonneg; lia). split.
      - apply Z.div_le_lower_bound; [lia|]. rewrite <- Z.pow_add_r by lia. by replace (e - 52 + 52) with e by lia.
      - apply Z.div_lt_upper_bound; [lia|]. rewrite <- Z.pow_add_r by lia. by replace (e - 52 + 53) with (Z.succ e) by lia. }
    unfold round_half_even. destruct (_ || _); lia. }
  destruct (i <? 0); lia.
Qed.

Lemma i64_as_f64_small i : Z.abs i < 2 ^ 53 -> f64_units (i64_as_f64 i) = i * UNITS /\ is_nan (i64_as_f64 i) = false.
Proof.
  intros Hi. destruct (decide (i = 0)) as [->|H0]; [done|]. set (e := Z.log2 (Z.abs i)). pose proof (Z.log2_nonneg (Z.abs i)) as He0. fold e in He0.
  assert (e <= 52) as He by (apply (Z.log2_le_mono _ (2 ^ 53 - 1)); lia).
  apply (i64_as_f64_exact i (Z.abs i * 2 ^ (52 - e))); [unfold in_i; lia|done|by apply log2_mantissa; [lia|..]|].
  fold e. rewrite <- Z.mul_assoc, <- Z.pow_add_r by lia. do 2 f_equal. lia.
Qed.

Lemma f64_abs_units f : Z.abs (f64_units f) = f64_magnitude f.
Proof.
  assert (0 <= f64_magnitude f).
  { unfold f64_magnitude, f64_fraction. pose proof (Z.mod_pos_bound f (2 ^ 52) ltac:(lia)).
    destruct (f64_exponent f =? 0); [lia|]. apply Z.mul_nonneg_nonneg; [lia|]. apply Z.pow_nonneg. lia. }
  unfold f64_units. destruct (f64_sign f); lia.
Qed.

(** A large float is an integer with 53 significant bits. *)
Lemma f64_large f : 2 ^ 53 * UNITS <= f64_magnitude f ->
  exists m s, 2 ^ 52 <= m < 2 ^ 53 /\ 0 <= s /\ f64_magnitude f = m * 2 ^ s * UNITS.
Proof.
  unfold f64_magnitude, f64_fraction. pose proof (Z.mod_pos_bound f (2 ^ 52) ltac:(lia)) as Hm. set (m := f mod 2 ^ 52) in *.
  pose proof (Z.mod_pos_bound (shr f 52) (2 ^ 11) ltac:(lia)) as He. unfold f64_exponent. set (e := shr f 52 mod 2 ^ 11) in *.
  pose proof UNITS_pos as HU. destruct (Z.eqb_spec e 0) as [|H0]; [nia|]. intros Hl.
  assert (1076 <= e) as He'.
  { destruct (Z.le_gt_cases 1076 e) as [|Hlt]; [done|exfalso]. assert (2 ^ (e - 1) <= UNITS) by (apply Z.pow_le_mono_r; lia). nia. }
  exists (2 ^ 52 + m), (e - 1075). split; [lia|]. split; [lia|]. rewrite <- Z.mul_assoc. f_equal. unfold UNITS. rewrite <- Z.pow_add_r by lia. f_equal. lia.
Qed.

Lemma log2_significant m s : 2 ^ 52 <= m < 2 ^ 53 -> 0 <= s -> Z.log2 (m * 2 ^ s) = 52 + s.
Proof. intros Hm Hs. rewrite Z.log2_mul_pow2 by lia. rewrite (Z.log2_unique m 52) by (simpl; lia). lia. Qed.

Lemma quot_units u : Z.abs (Z.quot u UNITS) = Z.abs u / UNITS.
Proof.
  pose proof UNITS_pos. rewrite <- (Z.quot_div_nonneg (Z.abs u) UNITS) by lia. rewrite <- (Z.abs_eq UNITS) at 2 by lia.
  by rewrite Z.quot_abs by lia.
Qed.

(** The integer part of a float, cast back. *)
Lemma cast_back f i : in_i 64 i -> i = Z.quot (f64_units f) UNITS ->
  f64_units (i64_as_f64 i) = i * UNITS /\ is_nan (i64_as_f64 i) = false.
Proof.
  intros Hi ->. pose proof UNITS_pos as HU. pose proof (quot_units (f64_units f)) as Hq. rewrite f64_abs_units in Hq.
  destruct (Z.lt_ge_cases (f64_magnitude f) (2 ^ 53 * UNITS)) as [Hlt|Hge].
  - apply i64_as_f64_small. rewrite Hq. apply Z.div_lt_upper_bound; lia.
  - destruct (f64_large f Hge) as (m & s & Hm & Hs & Hf). rewrite Hf, Z.div_mul in Hq by lia. assert (0 < 2 ^ s) by (apply Z.pow_pos_nonneg; lia).
    apply (i64_as_f64_exact _ m); [done|nia|done|]. rewrite Hq, log2_significant, Z.pow_add_r by lia. lia.
Qed.

(** The truncated value is within one unit of the exact one, on the side of zero. *)
Lemma trunc_bounds u : let t := Z.quot u UNITS in (0 <= u -> t * UNITS <= u < (t + 1) * UNITS) /\ (u <= 0 -> (t - 1) * UNITS < u <= t * UNITS).
Proof.
  pose proof UNITS_pos as HU. intros t. pose proof (Z.quot_rem' u UNITS) as Hqr. fold t in Hqr. split; intros Hu.
  - pose proof (Z.rem_bound_pos_pos u UNITS HU Hu). lia.
  - pose proof (Z.rem_bound_pos_neg u UNITS HU Hu). lia.
Qed.

Lemma trunc_cmp i u : i <> Z.quot u UNITS -> (i ?= Z.quot u UNITS) = (i * UNITS ?= u).
Proof.
  pose proof UNITS_pos as HU. intros Hne. destruct (trunc_bounds u) as [Hp Hm]. set (t := Z.quot u UNITS) in *.
  destruct (Z.compare_spec i t) as [|Hlt|Hgt]; [done|symmetry; apply Z.compare_lt_iff|symmetry; apply Z.compare_gt_iff].
  - assert (i * UNITS <= (t - 1) * UNITS) by (apply Z.mul_le_mono_nonneg_r; lia). destruct (Z.le_ge_cases 0 u); [|lia]. specialize (Hp H0). lia.
  - assert ((t + 1) * UNITS <= i * UNITS) by (apply Z.mul_le_mono_nonneg_r; lia). destruct (Z.le_ge_cases 0 u); [lia|]. specialize (Hm H0). lia.
Qed.

(** The comparison of an integer and a float is exact. *)
Lemma sqlite_int_float_cmp_exact i f : in_i 64 i -> is_nan f = false -> sqlite_int_float_cmp i f = (i * UNITS ?= f64_units f).
Proof.
  intros Hi Hn. pose proof UNITS_pos as HU. unfold sqlite_int_float_cmp, f64_lt, f64_ge, f64_partial_cmp, f64_as_i64. rewrite Hn.
  change (is_nan F64_MINUS_2_63) with false. change (is_nan F64_2_63) with false. cbn [orb].
  assert (f64_units F64_MINUS_2_63 = - 2 ^ 63 * UNITS) as -> by (vm_compute; reflexivity).
  assert (f64_units F64_2_63 = 2 ^ 63 * UNITS) as -> by (vm_compute; reflexivity). unfold in_i in Hi. change (64 - 1) with 63 in Hi.
  case_bool_decide as H1.
  { injection H1 as H1. rewrite Z.compare_lt_iff in H1. symmetry. apply Z.compare_gt_iff. nia. }
  assert (- 2 ^ 63 * UNITS <= f64_units f) as Hl.
  { destruct (Z.le_gt_cases (- 2 ^ 63 * UNITS) (f64_units f)) as [|Hlt]; [done|]. rewrite (proj2 (Z.compare_lt_iff _ _) Hlt) in H1. done. }
  destruct (f64_units f ?= 2 ^ 63 * UNITS) eqn:H2.
  { apply Z.compare_eq_iff in H2. symmetry. apply Z.compare_lt_iff. nia. }
  2:{ rewrite Z.compare_gt_iff in H2. symmetry. apply Z.compare_lt_iff. nia. }
  rewrite Z.compare_lt_iff in H2. set (t := Z.quot (f64_units f) UNITS).
  assert (- 2 ^ 63 <= t < 2 ^ 63) as Ht.
  { destruct (trunc_bounds (f64_units f)) as [Hp Hm]. fold t in Hp, Hm. destruct (Z.le_ge_cases 0 (f64_units f)) as [Hu|Hu].
    - specialize (Hp Hu). assert (0 < t + 1) by (apply (Z.mul_lt_mono_pos_r UNITS); lia). split; [lia|]. apply (Z.mul_lt_mono_pos_r UNITS); lia.
    - specialize (Hm Hu). assert (t - 1 < 0) by (apply (Z.mul_lt_mono_pos_r UNITS); lia). split; [|lia]. apply (Z.mul_le_mono_pos_r _ _ UNITS); lia. }
  rewrite Z.min_r, Z.max_r by lia. destruct (i ?= t) eqn:Hit.
  - apply Z.compare_eq_iff in Hit. destruct (cast_back f i) as [-> ->]; [done|done|]. done.
  - rewrite <- Hit. apply trunc_cmp. rewrite Z.compare_lt_iff in Hit. fold t. lia.
  - rewrite <- Hit. apply trunc_cmp. rewrite Z.compare_gt_iff in Hit. fold t. lia.
Qed.

Lemma Numeric_cmp_exact a b : Numeric_ok a -> Numeric_ok b -> Numeric_cmp a b = (Numeric_units a ?= Numeric_units b).
Proof.
  pose proof UNITS_pos. destruct a as [i|f], b as [j|g]; cbn [Numeric_ok Numeric_cmp Numeric_units].
  - intros _ _. apply Zmult_compare_compat_r. lia.
  - intros Hi [_ Hg]. by apply sqlite_int_float_cmp_exact.
  - intros [_ Hf] Hj. rewrite sqlite_int_float_cmp_exact by done. by rewrite <- Z.compare_antisym.
  - intros [_ Hf] [_ Hg]. unfold f64_partial_cmp. by rewrite Hf, Hg.
Qed.

(** ** Floats with the same value *)
Lemma f64_recompose f : in_u 64 f -> f = (if f64_sign f then 1 else 0) * 2 ^ 63 + f64_exponent f * 2 ^ 52 + f64_fraction f.
Proof.
  unfold in_u, f64_sign, f64_exponent, f64_fraction. intros Hf. rewrite shr_div by lia.
  pose proof (Z.div_mod f (2 ^ 52) ltac:(lia)). pose proof (Z.div_mod (f / 2 ^ 52) (2 ^ 11) ltac:(lia)).
  pose proof (Z.mod_pos_bound (f / 2 ^ 52) (2 ^ 11) ltac:(lia)). pose proof (Z.mod_pos_bound f (2 ^ 52) ltac:(lia)).
  assert (f / 2 ^ 52 / 2 ^ 11 = if 2 ^ 63 <=? f then 1 else 0) as Hq.
  { rewrite Z.div_div by lia. change (2 ^ 52 * 2 ^ 11) with (2 ^ 63). destruct (Z.leb_spec (2 ^ 63) f).
    - symmetry. apply Z.div_unique with (f - 2 ^ 63); lia.
    - apply Z.div_small. lia. }
  destruct (2 ^ 63 <=? f); lia.
Qed.

Lemma f64_magnitude_cases f : (f64_exponent f = 0 /\ f64_magnitude f = f64_fraction f /\ f64_magnitude f < 2 ^ 52) \/
  (1 <= f64_exponent f /\ f64_magnitude f = (2 ^ 52 + f64_fraction f) * 2 ^ (f64_exponent f - 1) /\ 2 ^ 52 <= f64_magnitude f).
Proof.
  unfold f64_magnitude, f64_fraction. pose proof (Z.mod_pos_bound f (2 ^ 52) ltac:(lia)) as Hm.
  pose proof (Z.mod_pos_bound (shr f 52) (2 ^ 11) ltac:(lia)) as He. fold (f64_exponent f) in He.
  destruct (Z.eqb_spec (f64_exponent f) 0); [left; lia|right]. split; [lia|]. split; [done|].
  assert (0 < 2 ^ (f64_exponent f - 1)) by (apply Z.pow_pos_nonneg; lia). nia.
Qed.

Lemma f64_magnitude_inj f g : f64_magnitude f = f64_magnitude g -> f64_exponent f = f64_exponent g /\ f64_fraction f = f64_fraction g.
Proof.
  intros H. destruct (f64_magnitude_cases f) as [(E1 & M1 & L1)|(E1 & M1 & L1)], (f64_magnitude_cases g) as [(E2 & M2 & L2)|(E2 & M2 & L2)]; try lia.
  pose proof (Z.mod_pos_bound f (2 ^ 52) ltac:(lia)) as B1. fold (f64_fraction f) in B1.
  pose proof (Z.mod_pos_bound g (2 ^ 52) ltac:(lia)) as B2. fold (f64_fraction g) in B2.
  pose proof (log2_significant (2 ^ 52 + f64_fraction f) (f64_exponent f - 1) ltac:(lia) ltac:(lia)) as G1.
  pose proof (log2_significant (2 ^ 52 + f64_fraction g) (f64_exponent g - 1) ltac:(lia) ltac:(lia)) as G2.
  rewrite <- M1, H in G1. rewrite <- M2 in G2. assert (f64_exponent f = f64_exponent g) as He by lia. split; [done|].
  rewrite M1, M2, He in H. apply Z.mul_reg_r in H; [lia|]. apply Z.pow_nonzero; lia.
Qed.

Lemma f64_units_inj f g : in_u 64 f -> in_u 64 g -> f64_units f = f64_units g -> f64_units f <> 0 -> f = g.
Proof.
  intros Hf Hg Hu H0. assert (f64_magnitude f = f64_magnitude g) as Hm by (rewrite <- !f64_abs_units; congruence).
  destruct (f64_magnitude_inj f g Hm) as [He Hr]. pose proof (f64_abs_units f). pose proof (f64_abs_units g).
  assert (f64_sign f = f64_sign g) as Hs by (unfold f64_units in *; destruct (f64_sign f), (f64_sign g); lia || done).
  by rewrite (f64_recompose f), (f64_recompose g), Hs, He, Hr by done.
Qed.

(** An integer and a float of the same value. *)
Lemma same_int_float i f : in_i 64 i -> in_u 64 f -> i * UNITS = f64_units f ->
  f64_units (i64_as_f64 i) = f64_units f /\ is_nan (i64_as_f64 i) = false /\ f64_as_i64 (i64_as_f64 i) = i /\ f64_exponent (i64_as_f64 i) <> 2047.
Proof.
  intros Hi Hf Hu. pose proof UNITS_pos as HU. destruct (cast_back f i Hi) as [Hg Hn]; [rewrite <- Hu, Z.quot_mul; lia|].
  split; [congruence|]. split; [done|]. split.
  - unfold f64_as_i64. rewrite Hn, Hg, Z.quot_mul by lia. unfold in_i in Hi. change (64 - 1) with 63 in Hi. lia.
  - intros He. destruct (f64_magnitude_cases (i64_as_f64 i)) as [(E & _)|(_ & M & _)]; [lia|]. rewrite He, <- f64_abs_units, Hg in M.
    pose proof (Z.mod_pos_bound (i64_as_f64 i) (2 ^ 52) ltac:(lia)) as B. fold (f64_fraction (i64_as_f64 i)) in B.
    unfold in_i in Hi. change (64 - 1) with 63 in Hi. assert (2 ^ (2047 - 1) = 2 ^ 972 * UNITS) as Hp by (unfold UNITS; by rewrite <- Z.pow_add_r by lia).
    rewrite Hp in M. assert (2 ^ 63 <= 2 ^ 972) by (apply Z.pow_le_mono_r; lia). rewrite Z.abs_mul, (Z.abs_eq UNITS), Z.mul_assoc in M by lia.
    apply Z.mul_reg_r in M; [|lia]. nia.
Qed.
#[global] Opaque UNITS.
