(* ===== verification/Values.v ===== *)
(** * Values, collations and the order of keys

    SQL values ([src/core/types.rs]), the collating functions
    ([src/core/translate/collate.rs]), the comparison of index keys with sort orders and null
    orders, and the hash of join keys ([src/core/vdbe/hash_table.rs]).  The subtype of a text is
    left out: no comparison and no record looks at it.  The collations of locales are those of a
    library and enter as [Locales]. *)
From S2P Require Import Prelude Errors Numeric.

Inductive ValueRef :=
| Null
| VNumeric (n : Numeric)
| Text (t : list Z)
| Blob (b : list Z).

(** [slice::cmp] and [str::cmp] *)
Definition bytes_cmp : list Z -> list Z -> comparison := list_cmp Z.compare.

Definition ValueRef_cmp (a b : ValueRef) : comparison :=
  match a, b with
  | Null, Null => Eq
  | Null, _ => Lt
  | _, Null => Gt
  | VNumeric a, VNumeric b => Numeric_cmp a b
  | VNumeric _, _ => Lt
  | _, VNumeric _ => Gt
  | Text a, Text b => bytes_cmp a b
  | Text _, Blob _ => Lt
  | Blob _, Text _ => Gt
  | Blob a, Blob b => bytes_cmp a b
  end.

(** [PartialEq for ValueRef] *)
Definition ValueRef_eq (a b : ValueRef) : bool :=
  match a, b with
  | Null, Null => true
  | VNumeric a, VNumeric b => bool_decide (Numeric_cmp a b = Eq)
  | Text a, Text b => bool_decide (a = b)
  | Blob a, Blob b => bool_decide (a = b)
  | _, _ => false
  end.

(** ** Collations *)
Inductive CollationSeq :=
| Unset
| Binary
| NoCase
| Rtrim
| Locale (id : Z)
| Custom (id : Z).
#[export] Instance CollationSeq_eq_dec : EqDecision CollationSeq.
Proof. solve_decision. Defined.

(** [Collator::compare] and [Collator::write_sort_key_to] of a registered locale *)
Record Locales := mkLocales {
  locale_compare : Z -> list Z -> list Z -> comparison;
  locale_sort_key : Z -> list Z -> list Z
}.

(** Collation is a total preorder, and texts that compare equal have the same sort key. *)
Class LocaleLaws (loc : Locales) : Prop := {
  locale_order : forall id, Order (locale_compare loc id);
  locale_key : forall id s t, locale_compare loc id s t = Eq -> locale_sort_key loc id s = locale_sort_key loc id t
}.

Definition to_ascii_lowercase (b : Z) : Z := if (65 <=? b) && (b <=? 90) then b + 32 else b.

(** The loop over the bytes of both texts; [llen] and [rlen] are their lengths. *)
Fixpoint nocase_loop (lhs rhs : list Z) (llen rlen : Z) : comparison :=
  match lhs, rhs with
  | l :: lhs, r :: rhs =>
      let l := to_ascii_lowercase l in
      let r := to_ascii_lowercase r in
      if negb (l =? r) then l ?= r
      else if l =? 0 then llen ?= rlen
      else nocase_loop lhs rhs llen rlen
  | _, _ => llen ?= rlen
  end.
Definition nocase_cmp (lhs rhs : list Z) : comparison := nocase_loop lhs rhs (zlen lhs) (zlen rhs).

(** [trim_end_matches(' ')] *)
Fixpoint trim_end (t : list Z) : list Z :=
  match t with
  | [] => []
  | b :: t =>
      match trim_end t with
      | [] => if b =? 32 then [] else [b]
      | t => b :: t
      end
  end.
Definition rtrim_cmp (lhs rhs : list Z) : comparison := bytes_cmp (trim_end lhs) (trim_end rhs).

Section Collations.
Context (loc : Locales).

Definition compare_strings (c : CollationSeq) (lhs rhs : list Z) : comparison :=
  match c with
  | Unset | Binary => bytes_cmp lhs rhs
  | NoCase => nocase_cmp lhs rhs
  | Rtrim => rtrim_cmp lhs rhs
  | Locale id => locale_compare loc id lhs rhs
  | Custom _ => bytes_cmp lhs rhs
  end.

Definition hash_key (c : CollationSeq) (text : list Z) : list Z :=
  match c with
  | Unset | Binary => text
  | NoCase => map to_ascii_lowercase text
  | Rtrim => trim_end text
  | Locale id => locale_sort_key loc id text
  | Custom _ => text
  end.

(** ** Keys *)
Definition compare_immutable_single (l r : ValueRef) (collation : CollationSeq) : comparison :=
  match l, r with
  | Text s, Text t => compare_strings collation s t
  | _, _ => ValueRef_cmp l r
  end.
End Collations.

Inductive SortOrder := Asc | Desc.
Inductive NullsOrder := First | Last.
Record KeyInfo := mkKeyInfo { sort_order : SortOrder; collation : CollationSeq; nulls_order : option NullsOrder }.

Definition is_null (v : ValueRef) : bool := match v with Null => true | _ => false end.

Definition cmp_with_sort (cmp : comparison) (a b : ValueRef) (key : KeyInfo) : comparison :=
  if negb (bool_decide (cmp = Eq)) then
    let by_sort_order := match sort_order key with Asc => cmp | Desc => CompOpp cmp end in
    if is_null a || is_null b then
      match nulls_order key with
      | Some First => cmp
      | Some Last => CompOpp cmp
      | None => by_sort_order
      end
    else by_sort_order
  else Eq.

Definition cmp_in_column (loc : Locales) (a b : ValueRef) (key : KeyInfo) : comparison :=
  cmp_with_sort (compare_immutable_single loc a b (collation key)) a b key.

Fixpoint compare_columns (loc : Locales) (l r : list ValueRef) (column_info : list KeyInfo) : comparison :=
  match column_info, l, r with
  | key :: column_info, a :: l, b :: r =>
      match cmp_in_column loc a b key with
      | Eq => compare_columns loc l r column_info
      | cmp => cmp
      end
  | _, _, _ => Eq
  end.

Definition compare_immutable (loc : Locales) (l r : list ValueRef) (column_info : list KeyInfo) : result comparison :=
  assert_that (zlen column_info <=? zlen l);;
  assert_that (zlen column_info <=? zlen r);;
  Ok (compare_columns loc l r column_info).

(** ** Hashing

    What a key writes to the hasher; the hash is a function of it. *)
Inductive HashWrite :=
| write_u8 (b : Z)
| write_bytes (bs : list Z)
| write_usize (n : Z)
| write_i64 (i : Z).

Definition NULL_HASH : Z := 0.
Definition INT_HASH : Z := 1.
Definition FLOAT_HASH : Z := 2.
Definition TEXT_HASH : Z := 3.
Definition BLOB_HASH : Z := 4.

Definition le_bytes (n : nat) (v : Z) : list Z := reverse (be_encode n v).

Fixpoint nocase_bytes (t : list Z) : list HashWrite :=
  match t with
  | [] => []
  | byte :: t => write_u8 (to_ascii_lowercase byte) :: if byte =? 0 then [] else nocase_bytes t
  end.
Definition hash_text_nocase (t : list Z) : list HashWrite := write_usize (zlen t) :: nocase_bytes t.

Definition normalized_f64_bits (f : Z) : Z :=
  if bool_decide (f64_partial_cmp f 0 = Some Eq) then 0 else f.

Definition is_finite (f : Z) : bool := negb (f64_exponent f =? 2047).

Definition hash_value (loc : Locales) (value : ValueRef) (collation : CollationSeq) : result (list HashWrite) :=
  match value with
  | Null => Ok [write_u8 NULL_HASH]
  | VNumeric (Integer i) =>
      let f := i64_as_f64 i in
      if (f64_as_i64 f =? i) && is_finite f
      then Ok [write_u8 FLOAT_HASH; write_bytes (le_bytes 8 (normalized_f64_bits f))]
      else Ok [write_u8 INT_HASH; write_i64 i]
  | VNumeric (Float f) => Ok [write_u8 FLOAT_HASH; write_bytes (le_bytes 8 (normalized_f64_bits f))]
  | Text text =>
      match collation with
      | NoCase => Ok (write_u8 TEXT_HASH :: hash_text_nocase text)
      | Rtrim => Ok [write_u8 TEXT_HASH; write_bytes (trim_end text)]
      | Binary | Unset => Ok [write_u8 TEXT_HASH; write_bytes text]
      | Locale _ => Ok [write_u8 TEXT_HASH; write_bytes (hash_key loc collation text)]
      | Custom _ => Panic
      end
  | Blob blob => Ok [write_u8 BLOB_HASH; write_bytes blob]
  end.

Fixpoint hash_values (loc : Locales) (key_values : list ValueRef) (collations : list CollationSeq) : result (list HashWrite) :=
  match key_values with
  | [] => Ok []
  | value :: key_values =>
      ws ← hash_value loc value (default Binary (head collations));
      rest ← hash_values loc key_values (tail collations);
      Ok (ws ++ rest)
  end.

(** [finish] is the hash function of the library. *)
Definition hash_join_key (loc : Locales) (finish : list HashWrite -> Z) (key_values : list ValueRef) (collations : list CollationSeq) : result Z :=
  finish <$> hash_values loc key_values collations.

Definition values_equal (loc : Locales) (v1 v2 : ValueRef) (collation : CollationSeq) : bool :=
  match v1, v2 with
  | Null, _ | _, Null => false
  | VNumeric n1, VNumeric n2 => ValueRef_eq (VNumeric n1) (VNumeric n2)
  | Blob b1, Blob b2 => bool_decide (b1 = b2)
  | Text t1, Text t2 => bool_decide (compare_strings loc collation t1 t2 = Eq)
  | _, _ => false
  end.

Definition values_equal_distinct (loc : Locales) (v1 v2 : ValueRef) (collation : CollationSeq) : bool :=
  match v1, v2 with
  | Null, Null => true
  | Null, _ | _, Null => false
  | _, _ => values_equal loc v1 v2 collation
  end.

Fixpoint all_equal (equal : ValueRef -> ValueRef -> CollationSeq -> bool) (key1 key2 : list ValueRef) (collations : list CollationSeq) : bool :=
  match key1, key2 with
  | v1 :: key1, v2 :: key2 =>
      if negb (equal v1 v2 (default Binary (head collations))) then false else all_equal equal key1 key2 (tail collations)
  | _, _ => true
  end.

Definition keys_equal (loc : Locales) (key1 key2 : list ValueRef) (collations : list CollationSeq) : bool :=
  if negb (zlen key1 =? zlen key2) then false else all_equal (values_equal loc) key1 key2 collations.
Definition keys_equal_distinct (loc : Locales) (key1 key2 : list ValueRef) (collations : list CollationSeq) : bool :=
  if negb (zlen key1 =? zlen key2) then false else all_equal (values_equal_distinct loc) key1 key2 collations.
