(* ===== verification/ValueOrder.v ===== *)
(** * The order of keys, and hashes of equal keys

    Every collation orders texts, values are ordered whatever their types, and so are columns and
    keys for every choice of sort orders and null orders.  Join keys that are equal write the same
    to the hasher. *)
From S2P Require Import Prelude Errors Numeric Values.

(** ** Texts *)
Lemma lex_order {A} (c d : A -> A -> comparison) : Order c -> Order d -> Order (fun x y => match c x y with Eq => d x y | r => r end).
Proof.
  intros Hc Hd. split.
  - intros x y. rewrite (ord_opp (cmp := c)). destruct (c x y); simpl; try done. apply ord_opp.
  - intros x y z H1 H2. destruct (c x y) eqn:E1, (c y z) eqn:E2; try done; destruct (ord_trans (cmp := c) x y z) as [T1 T2]; try (by rewrite ?E1, ?E2);
      destruct (c x z) eqn:E3; try done; try (destruct T2; congruence). by apply ord_trans.
Qed.

Lemma bytes_cmp_eq a b : bytes_cmp a b = Eq <-> a = b.
Proof.
  unfold bytes_cmp. split; [|intros ->; apply ord_refl, list_order, Z_order]. revert b. induction a as [|x a IH]; intros [|y b]; simpl; try done.
  destruct (Z.compare_spec x y) as [->| |]; try done. intros H. f_equal. by apply IH.
Qed.

(** The bytes that [nocase_cmp] looks at. *)
Fixpoint nocase_prefix (t : list Z) : list Z :=
  match t with
  | [] => []
  | b :: t => to_ascii_lowercase b :: if b =? 0 then [] else nocase_prefix t
  end.

Lemma lowercase_0 b : (to_ascii_lowercase b =? 0) = (b =? 0).
Proof. unfold to_ascii_lowercase. destruct (Z.leb_spec 65 b), (Z.leb_spec b 90); simpl; try done. rewrite !(proj2 (Z.eqb_neq _ 0)) by lia. done. Qed.

Lemma nocase_loop_spec l : forall r a b, a - zlen l = b - zlen r ->
  nocase_loop l r a b = match bytes_cmp (nocase_prefix l) (nocase_prefix r) with Eq => a ?= b | c => c end.
Proof.
  induction l as [|x l IH]; intros [|y r] a b Hab; rewrite ?zlen_cons, ?zlen_nil in Hab; cbn [nocase_loop nocase_prefix]; [done|..].
  - cbn. pose proof (zlen_nonneg r). apply Z.compare_lt_iff. lia.
  - cbn. pose proof (zlen_nonneg l). apply Z.compare_gt_iff. lia.
  - unfold bytes_cmp in *. cbn [list_cmp]. rewrite <- (lowercase_0 x), <- (lowercase_0 y).
    destruct (Z.compare_spec (to_ascii_lowercase x) (to_ascii_lowercase y)) as [->|Hlt|Hgt].
    + rewrite Z.eqb_refl. simpl. destruct (to_ascii_lowercase y =? 0); [done|]. apply IH. lia.
    + rewrite (proj2 (Z.eqb_neq _ _)) by lia. done.
    + rewrite (proj2 (Z.eqb_neq _ _)) by lia. done.
Qed.

Lemma nocase_cmp_spec l r : nocase_cmp l r =
  match bytes_cmp (nocase_prefix l) (nocase_prefix r) with Eq => zlen l ?= zlen r | c => c end.
Proof. apply nocase_loop_spec. lia. Qed.

Lemma order_ext {A} (c d : A -> A -> comparison) : (forall x y, c x y = d x y) -> Order d -> Order c.
Proof. intros H Hd. split; intros *; rewrite !H; apply Hd. Qed.

Section Order.
Context (loc : Locales) {laws : LocaleLaws loc}.

#[export] Instance compare_strings_order c : Order (compare_strings loc c).
Proof.
  destruct c; try apply list_order, Z_order.
  - apply (order_ext _ _ nocase_cmp_spec), lex_order; [apply (pull_order nocase_prefix), list_order, Z_order|apply (pull_order zlen), Z_order].
  - apply (pull_order trim_end), list_order, Z_order.
  - apply locale_order.
Qed.

(** ** Values *)
Definition value_ok (v : ValueRef) : Prop :=
  match v with
  | VNumeric n => Numeric_ok n
  | _ => True
  end.

(** The comparison with exact numbers. *)
Definition exact_cmp (c : CollationSeq) (a b : ValueRef) : comparison :=
  match a, b with
  | Null, Null => Eq
  | Null, _ => Lt
  | _, Null => Gt
  | VNumeric a, VNumeric b => Numeric_units a ?= Numeric_units b
  | VNumeric _, _ => Lt
  | _, VNumeric _ => Gt
  | Text a, Text b => compare_strings loc c a b
  | Text _, Blob _ => Lt
  | Blob _, Text _ => Gt
  | Blob a, Blob b => bytes_cmp a b
  end.

Lemma compare_single_exact c a b : value_ok a -> value_ok b -> compare_immutable_single loc a b c = exact_cmp c a b.
Proof. destruct a, b; simpl; try done. apply Numeric_cmp_exact. Qed.

Lemma exact_order c : Order (exact_cmp c).
Proof.
  split.
  - intros [|m|s|s] [|n|t|t]; simpl; try done; [apply Z.compare_antisym|apply ord_opp|apply (ord_opp (cmp := list_cmp Z.compare))].
  - intros [|m|s|s] [|n|t|t] [|o|u|u]; simpl; try done; [apply (ord_trans (cmp := Z.compare))|apply ord_trans|apply (ord_trans (cmp := list_cmp Z.compare))].
Qed.

(** ** Columns *)
Definition exact_column (key : KeyInfo) (a b : ValueRef) : comparison := cmp_with_sort (exact_cmp (collation key) a b) a b key.

Lemma cmp_in_column_exact key a b : value_ok a -> value_ok b -> cmp_in_column loc a b key = exact_column key a b.
Proof. intros Ha Hb. unfold cmp_in_column. by rewrite compare_single_exact. Qed.

(** With [NULLS FIRST] or [NULLS LAST] the nulls come before or after the rest. *)
Definition null_rank (o : NullsOrder) (v : ValueRef) : Z :=
  match o with First => if is_null v then 0 else 1 | Last => if is_null v then 1 else 0 end.
Definition by_sort (key : KeyInfo) (a b : ValueRef) : comparison :=
  match sort_order key with Asc => exact_cmp (collation key) a b | Desc => CompOpp (exact_cmp (collation key) a b) end.

Lemma exact_column_spec key a b : exact_column key a b =
  match nulls_order key with
  | Some o => match null_rank o a ?= null_rank o b with Eq => by_sort key a b | c => c end
  | None => by_sort key a b
  end.
Proof.
  unfold exact_column, cmp_with_sort, by_sort. destruct key as [so c no]; simpl. destruct no as [[]|], so, a, b; simpl; try done;
    case_bool_decide as H; simpl; rewrite ?H; done.
Qed.

Lemma by_sort_order key : Order (by_sort key).
Proof. unfold by_sort. destruct (sort_order key); [apply exact_order|apply opp_order, exact_order]. Qed.

Lemma exact_column_order key : Order (exact_column key).
Proof.
  destruct (nulls_order key) as [o|] eqn:E.
  - apply (order_ext _ (fun a b => match null_rank o a ?= null_rank o b with Eq => by_sort key a b | c => c end)).
    + intros a b. by rewrite exact_column_spec, E.
    + apply lex_order; [apply (pull_order (null_rank o)), Z_order|apply by_sort_order].
  - apply (order_ext _ (by_sort key)); [|apply by_sort_order]. intros a b. by rewrite exact_column_spec, E.
Qed.

(** ** Keys *)
Fixpoint exact_keys (infos : list KeyInfo) (a b : list ValueRef) : comparison :=
  match infos with
  | [] => Eq
  | key :: infos =>
      match exact_column key (default Null (head a)) (default Null (head b)) with
      | Eq => exact_keys infos (tail a) (tail b)
      | c => c
      end
  end.

Lemma exact_keys_order infos : Order (exact_keys infos).
Proof.
  induction infos as [|key infos IH]; [by split|]. apply lex_order.
  - apply (pull_order (fun l => default Null (head l))), exact_column_order.
  - apply (pull_order tail), IH.
Qed.

Definition key_ok (infos : list KeyInfo) (key : list ValueRef) : Prop := zlen infos <= zlen key /\ Forall value_ok key.

Lemma compare_columns_exact infos : forall a b, key_ok infos a -> key_ok infos b -> compare_columns loc a b infos = exact_keys infos a b.
Proof.
  induction infos as [|key infos IH]; intros [|x a] [|y b] [La Ha] [Lb Hb]; try done;
    rewrite ?zlen_cons, ?zlen_nil in *; try (pose proof (zlen_nonneg infos); lia).
  apply Forall_cons_iff in Ha as [Hx Ha], Hb as [Hy Hb]. cbn [compare_columns exact_keys head tail default].
  rewrite cmp_in_column_exact by done. destruct (exact_column key x y) eqn:E; simpl; rewrite E; try done. apply IH; (split; [lia|done]).
Qed.

Lemma compare_immutable_exact infos a b : key_ok infos a -> key_ok infos b -> compare_immutable loc a b infos = Ok (exact_keys infos a b).
Proof.
  intros Ha Hb. unfold compare_immutable. pose proof Ha as [La _]. pose proof Hb as [Lb _].
  rewrite !(proj2 (Z.leb_le _ _)) by done. simpl. by rewrite compare_columns_exact.
Qed.

(** C12: the comparison of index keys is a total preorder, whatever the types of the values, the
    collations, the sort orders and the places of the nulls: comparing in the other direction gives
    the opposite, and it is transitive, also across integers and floats. *)
Theorem key_order_total infos a b c : key_ok infos a -> key_ok infos b -> key_ok infos c ->
  exists ab bc ac, compare_immutable loc a b infos = Ok ab /\ compare_immutable loc b c infos = Ok bc /\
    compare_immutable loc a c infos = Ok ac /\ compare_immutable loc b a infos = Ok (CompOpp ab) /\
    (ab <> Gt -> bc <> Gt -> ac <> Gt /\ (ac = Eq -> ab = Eq /\ bc = Eq)).
Proof.
  intros Ha Hb Hc. exists (exact_keys infos a b), (exact_keys infos b c), (exact_keys infos a c). rewrite !compare_immutable_exact by done.
  pose proof (exact_keys_order infos). split_and!; try done; [f_equal; apply ord_opp|apply ord_trans].
Qed.
End Order.

(** ** Hashes *)
Lemma nocase_prefix_hash s : forall t, nocase_prefix s = nocase_prefix t -> nocase_bytes s = nocase_bytes t.
Proof.
  induction s as [|a s IH]; intros [|b t]; simpl; try done. intros [= Hab H]. rewrite Hab. f_equal.
  assert ((a =? 0) = (b =? 0)) as E by (by rewrite <- (lowercase_0 a), <- (lowercase_0 b), Hab). rewrite E in *. destruct (b =? 0); [done|]. by apply IH.
Qed.

Lemma same_text_hash loc {laws : LocaleLaws loc} c s t : compare_strings loc c s t = Eq -> hash_value loc (Text s) c = hash_value loc (Text t) c.
Proof.
  destruct c; simpl; try (by intros ->%bytes_cmp_eq).
  - rewrite nocase_cmp_spec. destruct (bytes_cmp _ _) eqn:E; try done. intros Hl%Z.compare_eq_iff. apply bytes_cmp_eq in E.
    unfold hash_text_nocase. by rewrite Hl, (nocase_prefix_hash s t E).
  - intros H. by rewrite (locale_key id s t H).
Qed.

Lemma normalized_bits_eq f g : in_u 64 f -> in_u 64 g -> is_nan f = false -> is_nan g = false -> f64_units f = f64_units g ->
  normalized_f64_bits f = normalized_f64_bits g.
Proof.
  intros Hf Hg Nf Ng Hu. unfold normalized_f64_bits, f64_partial_cmp. rewrite Nf, Ng. change (is_nan 0) with false. change (f64_units 0) with 0. cbn [orb].
  rewrite Hu. case_bool_decide as H; [done|]. apply f64_units_inj; try done. intros H0. by rewrite <- Hu, H0 in H.
Qed.

Lemma same_int_hash loc i f c : in_i 64 i -> in_u 64 f -> is_nan f = false -> i * UNITS = f64_units f ->
  hash_value loc (VNumeric (Integer i)) c = hash_value loc (VNumeric (Float f)) c.
Proof.
  intros Hi Hf Nf Hu. destruct (same_int_float i f Hi Hf Hu) as (Hg & Ng & Hc & He). cbn [hash_value]. rewrite Hc, Z.eqb_refl.
  unfold is_finite. rewrite (proj2 (Z.eqb_neq _ _) He). cbn [negb andb].
  by rewrite (normalized_bits_eq (i64_as_f64 i) f (i64_as_f64_in_u i Hi) Hf Ng Nf Hg).
Qed.

Lemma same_numeric_hash loc m n c : Numeric_ok m -> Numeric_ok n -> Numeric_cmp m n = Eq ->
  hash_value loc (VNumeric m) c = hash_value loc (VNumeric n) c.
Proof.
  intros Hm Hn H. rewrite Numeric_cmp_exact in H by done. apply Z.compare_eq_iff in H.
  destruct m as [i|f], n as [j|g]; cbn [Numeric_ok Numeric_units] in *.
  - pose proof UNITS_pos. apply Z.mul_reg_r in H; [by subst|lia].
  - destruct Hn. by apply same_int_hash.
  - destruct Hm. symmetry. by apply same_int_hash.
  - destruct Hm, Hn. cbn [hash_value]. by rewrite (normalized_bits_eq f g).
Qed.

Definition not_custom (c : CollationSeq) : Prop := match c with Custom _ => False | _ => True end.

Lemma hash_value_ok loc v c : not_custom c -> exists ws, hash_value loc v c = Ok ws.
Proof. intros Hc. destruct v as [|[]|t|b]; cbn [hash_value]; eauto; [destruct (_ && _); eauto|]. destruct c; try done; eauto. Qed.

Section Hash.
Context (loc : Locales) {laws : LocaleLaws loc}.

Lemma equal_value_hash v w c : value_ok v -> value_ok w -> values_equal_distinct loc v w c = true -> hash_value loc v c = hash_value loc w c.
Proof.
  destruct v as [|m|s|s], w as [|n|t|t]; cbn [value_ok values_equal_distinct values_equal ValueRef_eq]; try discriminate; [reflexivity|..].
  - intros Hm Hn H%bool_decide_eq_true. by apply same_numeric_hash.
  - intros _ _ H%bool_decide_eq_true. by apply same_text_hash.
  - intros _ _ H%bool_decide_eq_true. by subst.
Qed.

Lemma all_equal_hash key1 : forall key2 cs, Forall value_ok key1 -> Forall value_ok key2 -> Forall not_custom cs -> length key1 = length key2 ->
  all_equal (values_equal_distinct loc) key1 key2 cs = true -> exists ws, hash_values loc key1 cs = Ok ws /\ hash_values loc key2 cs = Ok ws.
Proof.
  induction key1 as [|v key1 IH]; intros [|w key2] cs H1 H2 Hc Hl He; try done; [by exists []|]. cbn [all_equal hash_values] in *.
  apply Forall_cons_iff in H1 as [Hv H1], H2 as [Hw H2]. destruct (values_equal_distinct loc v w _) eqn:E; [|done]. cbn [negb] in He.
  assert (not_custom (default Binary (head cs)) /\ Forall not_custom (tail cs)) as [Hc1 Hc2] by (by destruct Hc).
  destruct (hash_value_ok loc w _ Hc1) as [a Ha]. destruct (IH key2 (tail cs) H1 H2 Hc2 ltac:(simpl in Hl; lia) He) as (r & Hr1 & Hr2).
  exists (a ++ r). rewrite (equal_value_hash v w _ Hv Hw E), Ha, Hr1, Hr2. done.
Qed.

Lemma values_equal_distinct_true v w c : values_equal loc v w c = true -> values_equal_distinct loc v w c = true.
Proof. destruct v, w; cbn [values_equal_distinct values_equal]; discriminate || trivial. Qed.

Lemma all_equal_mono (e e' : ValueRef -> ValueRef -> CollationSeq -> bool) key1 : (forall v w c, e v w c = true -> e' v w c = true) ->
  forall key2 cs, all_equal e key1 key2 cs = true -> all_equal e' key1 key2 cs = true.
Proof.
  intros He. induction key1 as [|v key1 IH]; intros [|w key2] cs; simpl; try done. destruct (e v w _) eqn:E; [|done]. rewrite (He _ _ _ E). simpl. apply IH.
Qed.

(** C13: keys that a hash join or a DISTINCT takes for equal have the same hash, whatever the hash
    function: an integer and a float of the same value, the two zeros, texts that differ in the case
    of their letters or in spaces at the end under such a collation. *)
Theorem equal_keys_hash_alike finish key1 key2 collations :
  Forall value_ok key1 -> Forall value_ok key2 -> Forall not_custom collations ->
  keys_equal loc key1 key2 collations = true \/ keys_equal_distinct loc key1 key2 collations = true ->
  exists h, hash_join_key loc finish key1 collations = Ok h /\ hash_join_key loc finish key2 collations = Ok h.
Proof.
  intros H1 H2 Hc He. assert (zlen key1 = zlen key2 /\ all_equal (values_equal_distinct loc) key1 key2 collations = true) as [Hl Hd].
  { unfold keys_equal, keys_equal_distinct in He. destruct (Z.eqb_spec (zlen key1) (zlen key2)); [|by destruct He]. split; [done|].
    destruct He as [He|He]; [|done]. by apply (all_equal_mono (values_equal loc)); [apply values_equal_distinct_true|]. }
  destruct (all_equal_hash key1 key2 collations H1 H2 Hc) as (ws & W1 & W2); [unfold zlen in Hl; lia|done|].
  exists (finish ws). unfold hash_join_key. by rewrite W1, W2.
Qed.
End Hash.

(** ** Numbers *)

(** C14: integers and floats are ordered, and equal, by their exact values; no comparison is led
    astray by the rounding of an integer beyond 2^53 to a float or by the truncation of a float. *)
Theorem numeric_order_exact a b : Numeric_ok a -> Numeric_ok b ->
  Numeric_cmp a b = (Numeric_units a ?= Numeric_units b) /\
  ValueRef_eq (VNumeric a) (VNumeric b) = bool_decide (Numeric_units a = Numeric_units b).
Proof.
  intros Ha Hb. cbn [ValueRef_eq]. rewrite Numeric_cmp_exact by done. split; [done|]. apply bool_decide_ext, Z.compare_eq_iff.
Qed.

(** ** Examples *)

(** Locales that order texts by their bytes. *)
Definition byte_locales : Locales := mkLocales (fun _ => bytes_cmp) (fun _ t => t).
#[export] Instance byte_locales_laws : LocaleLaws byte_locales.
Proof. split; [intros id; apply list_order, Z_order|]. intros id s t. apply bytes_cmp_eq. Qed.

(** 2^53 as a float, and the integer after it, which no float has. *)
Definition float_2_53 : Numeric := Float 0x4340000000000000.
Definition after_2_53 : Numeric := Integer 9007199254740993.

Lemma numbers_ok : Numeric_ok float_2_53 /\ Numeric_ok after_2_53 /\ Numeric_ok (Integer 9007199254740992).
Proof. unfold float_2_53, after_2_53. cbn [Numeric_ok]. unfold in_u, in_i. split_and!; (lia || (vm_compute; reflexivity)). Qed.

Lemma numeric_order_exact_witness :
  Numeric_cmp after_2_53 float_2_53 = Gt /\
  Numeric_cmp after_2_53 float_2_53 = (Numeric_units after_2_53 ?= Numeric_units float_2_53) /\
  ValueRef_eq (VNumeric after_2_53) (VNumeric float_2_53) = bool_decide (Numeric_units after_2_53 = Numeric_units float_2_53).
Proof. split; [vm_compute; reflexivity|]. apply numeric_order_exact; apply numbers_ok. Defined.

(** A text without regard to case, then a number in descending order with the nulls at the end. *)
Definition example_infos : list KeyInfo := [mkKeyInfo Asc NoCase None; mkKeyInfo Desc Binary (Some Last)].
Definition example_key (n : ValueRef) : list ValueRef := [Text [97; 66]; n].

Lemma example_key_ok n : value_ok n -> key_ok example_infos (example_key n).
Proof. intros Hn. split; [done|]. repeat (constructor; [done|]). constructor. Qed.

Lemma key_order_total_witness :
  compare_immutable byte_locales (example_key (VNumeric after_2_53)) (example_key (VNumeric float_2_53)) example_infos = Ok Lt /\
  exists ab bc ac,
    compare_immutable byte_locales (example_key (VNumeric after_2_53)) (example_key (VNumeric float_2_53)) example_infos = Ok ab /\
    compare_immutable byte_locales (example_key (VNumeric float_2_53)) (example_key Null) example_infos = Ok bc /\
    compare_immutable byte_locales (example_key (VNumeric after_2_53)) (example_key Null) example_infos = Ok ac /\
    compare_immutable byte_locales (example_key (VNumeric float_2_53)) (example_key (VNumeric after_2_53)) example_infos = Ok (CompOpp ab) /\
    (ab <> Gt -> bc <> Gt -> ac <> Gt /\ (ac = Eq -> ab = Eq /\ bc = Eq)).
Proof.
  split; [vm_compute; reflexivity|]. apply (key_order_total byte_locales); apply example_key_ok; [apply numbers_ok..|exact I].
Defined.

(** An integer and a float, and texts in different case. *)
Definition probe_key : list ValueRef := [VNumeric float_2_53; Text [97; 66]].
Definition build_key : list ValueRef := [VNumeric (Integer 9007199254740992); Text [65; 98]].

Lemma equal_keys_hash_alike_witness :
  keys_equal byte_locales build_key probe_key [Binary; NoCase] = true /\
  exists h, hash_join_key byte_locales zlen build_key [Binary; NoCase] = Ok h /\ hash_join_key byte_locales zlen probe_key [Binary; NoCase] = Ok h.
Proof.
  assert (keys_equal byte_locales build_key probe_key [Binary; NoCase] = true) as He by (vm_compute; reflexivity). split; [exact He|].
  apply (equal_keys_hash_alike byte_locales); [..|by left].
  - constructor; [apply numbers_ok|]. constructor; [exact I|constructor].
  - constructor; [apply numbers_ok|]. constructor; [exact I|constructor].
  - repeat constructor.
Defined.
