(* ===== verification/Mvcc.v ===== *)
(** * Row versions and transactions ([src/core/mvcc/database/mod.rs])

    [MvStore] keeps, for each row, a chain of versions; a version has the transaction or the
    commit timestamp that created it and the one that ended it.  A transaction sees the rows
    committed before its begin timestamp.  A transaction that prepares its commit is already
    seen by later ones, which then depend on it.  The functions here are what runs under one
    lock: that of a version chain, of the clock, or of a set of dependents.  Rows are table
    rows; their keys are a table and an integer. *)
From stdpp Require Import gmap.
From S2P Require Import Prelude Errors Effects.

(** ** Rows and versions *)
Record RowID := mkRowID { table_id : Z; row_id : Z }.
#[export] Instance RowID_eq_dec : EqDecision RowID.
Proof. solve_decision. Defined.
#[export] Program Instance RowID_countable : Countable RowID :=
  inj_countable' (fun k => (table_id k, row_id k)) (fun p => mkRowID p.1 p.2) _.
Next Obligation. by intros []. Qed.

Record Row := mkRow { r_id : RowID; r_data : list Z; r_column_count : Z }.
#[export] Instance Row_eq_dec : EqDecision Row.
Proof. solve_decision. Defined.

Inductive TxTimestampOrID := Timestamp (ts : Z) | TxID (id : Z).
#[export] Instance TxTimestampOrID_eq_dec : EqDecision TxTimestampOrID.
Proof. solve_decision. Defined.

(** *** [PackedTs] *)
Definition TIMESTAMP_TAG : Z := Z.shiftl 1 62.
Definition TXID_TAG : Z := Z.shiftl 1 63.
Definition VALUE_MASK : Z := Z.shiftl 1 62 - 1.

Definition pack (value : option TxTimestampOrID) : result Z :=
  match value with
  | None => Ok 0
  | Some (Timestamp ts) => if ts <=? VALUE_MASK then Ok (Z.lor TIMESTAMP_TAG ts) else Panic
  | Some (TxID id) => if id <=? VALUE_MASK then Ok (Z.lor TXID_TAG id) else Panic
  end.

Definition unpack (p : Z) : option TxTimestampOrID :=
  if p =? 0 then None
  else if negb (Z.land p TXID_TAG =? 0) then Some (TxID (Z.land p VALUE_MASK))
  else Some (Timestamp (Z.land p VALUE_MASK)).

(** Positions in the write-ahead log, in lexicographic order. *)
Record WalPos := mkWalPos { checkpoint_seq : Z; frame : Z }.
#[export] Instance WalPos_eq_dec : EqDecision WalPos.
Proof. solve_decision. Defined.
Definition ORIGIN : WalPos := mkWalPos 0 0.
Definition wal_pos_le (a b : WalPos) : bool :=
  (checkpoint_seq a <? checkpoint_seq b) || ((checkpoint_seq a =? checkpoint_seq b) && (frame a <=? frame b)).

(** The times are kept unpacked: [unpack] undoes [pack]. *)
Record RowVersion := mkRowVersion {
  rv_id : Z;
  rv_begin : option TxTimestampOrID;
  rv_end : option TxTimestampOrID;
  rv_row : Row;
  rv_btree_resident : bool;
  rv_materialized_at : WalPos
}.

Definition RowVersion_new (id : Z) (begin end_ : option TxTimestampOrID) (row : Row) (btree_resident : bool) : RowVersion :=
  mkRowVersion id begin end_ row btree_resident ORIGIN.
Definition set_begin (value : option TxTimestampOrID) (rv : RowVersion) : RowVersion :=
  mkRowVersion (rv_id rv) value (rv_end rv) (rv_row rv) (rv_btree_resident rv) ORIGIN.
Definition set_end (value : option TxTimestampOrID) (rv : RowVersion) : RowVersion :=
  mkRowVersion (rv_id rv) (rv_begin rv) value (rv_row rv) (rv_btree_resident rv) ORIGIN.

Definition rewrite_txid_to_timestamp (tx_id end_ts : Z) (rv : RowVersion) : RowVersion :=
  let rv := if bool_decide (rv_begin rv = Some (TxID tx_id)) then set_begin (Some (Timestamp end_ts)) rv else rv in
  if bool_decide (rv_end rv = Some (TxID tx_id)) then set_end (Some (Timestamp end_ts)) rv else rv.

Definition rollback_row_version (tx_id : Z) (rv : RowVersion) : RowVersion :=
  if bool_decide (rv_begin rv = Some (TxID tx_id)) then set_end None (set_begin None rv)
  else if bool_decide (rv_end rv = Some (TxID tx_id)) then set_end None rv
  else rv.

(** ** Transactions *)
Inductive TransactionState :=
| Active
| Preparing (end_ts : Z)
| Aborted
| Terminated
| Committed (end_ts : Z).
#[export] Instance TransactionState_eq_dec : EqDecision TransactionState.
Proof. solve_decision. Defined.

Definition PREPARING_BIT : Z := 0x4000000000000000.
Definition COMMITTED_BIT : Z := 0x8000000000000000.
Definition TIMESTAMP_MASK : Z := 0x3fffffffffffffff.

Definition encode (s : TransactionState) : result Z :=
  match s with
  | Active => Ok 0
  | Preparing ts => if Z.ldiff ts TIMESTAMP_MASK =? 0 then Ok (Z.lor PREPARING_BIT ts) else Panic
  | Aborted => Ok 1
  | Terminated => Ok 2
  | Committed ts => if Z.ldiff ts TIMESTAMP_MASK =? 0 then Ok (Z.lor COMMITTED_BIT ts) else Panic
  end.

Definition decode (v : Z) : result TransactionState :=
  if v =? 0 then Ok Active
  else if v =? 1 then Ok Aborted
  else if v =? 2 then Ok Terminated
  else if negb (Z.land v COMMITTED_BIT =? 0) then Ok (Committed (Z.land v TIMESTAMP_MASK))
  else if negb (Z.land v PREPARING_BIT =? 0) then Ok (Preparing (Z.land v TIMESTAMP_MASK))
  else Panic.

(** [write_set] has each row once, in the order of the first write to it. *)
Record Transaction := mkTransaction {
  tx_state : TransactionState;
  tx_id : Z;
  tx_begin_ts : Z;
  tx_write_set : list RowID;
  tx_log_appended : bool;
  tx_commit_dep_counter : Z;
  tx_abort_now : bool;
  tx_commit_dep_set : gset Z;
  tx_read_mark : WalPos
}.

Definition Transaction_new (id begin_ts : Z) (read_mark : WalPos) : Transaction :=
  mkTransaction Active id begin_ts [] false 0 false ∅ read_mark.

Definition set_tx_state s t := mkTransaction s (tx_id t) (tx_begin_ts t) (tx_write_set t) (tx_log_appended t)
  (tx_commit_dep_counter t) (tx_abort_now t) (tx_commit_dep_set t) (tx_read_mark t).
Definition set_tx_write_set ws t := mkTransaction (tx_state t) (tx_id t) (tx_begin_ts t) ws (tx_log_appended t)
  (tx_commit_dep_counter t) (tx_abort_now t) (tx_commit_dep_set t) (tx_read_mark t).
Definition set_tx_log_appended b t := mkTransaction (tx_state t) (tx_id t) (tx_begin_ts t) (tx_write_set t) b
  (tx_commit_dep_counter t) (tx_abort_now t) (tx_commit_dep_set t) (tx_read_mark t).
Definition set_tx_counter c t := mkTransaction (tx_state t) (tx_id t) (tx_begin_ts t) (tx_write_set t) (tx_log_appended t)
  c (tx_abort_now t) (tx_commit_dep_set t) (tx_read_mark t).
Definition set_tx_abort_now b t := mkTransaction (tx_state t) (tx_id t) (tx_begin_ts t) (tx_write_set t) (tx_log_appended t)
  (tx_commit_dep_counter t) b (tx_commit_dep_set t) (tx_read_mark t).
Definition set_tx_dep_set d t := mkTransaction (tx_state t) (tx_id t) (tx_begin_ts t) (tx_write_set t) (tx_log_appended t)
  (tx_commit_dep_counter t) (tx_abort_now t) d (tx_read_mark t).

(** [WriteSet::insert] *)
Definition write_set_insert (id : RowID) (ws : list RowID) : list RowID := if bool_decide (id ∈ ws) then ws else ws ++ [id].

(** ** The store *)
Record MvStore := mkMvStore {
  rows : gmap RowID (list RowVersion);
  txs : gmap Z Transaction;
  finalized_tx_states : gmap Z TransactionState;
  clock : Z;
  tx_ids : Z;
  version_id_counter : Z;
  durable_txid_max : Z;
  passive_checkpoint : bool;
  checkpoint_in_progress : bool
}.

Abbreviation MvM := (SM MvStore).

Definition with_rows f w := mkMvStore (f (rows w)) (txs w) (finalized_tx_states w) (clock w) (tx_ids w)
  (version_id_counter w) (durable_txid_max w) (passive_checkpoint w) (checkpoint_in_progress w).
Definition with_txs f w := mkMvStore (rows w) (f (txs w)) (finalized_tx_states w) (clock w) (tx_ids w)
  (version_id_counter w) (durable_txid_max w) (passive_checkpoint w) (checkpoint_in_progress w).
Definition with_finalized f w := mkMvStore (rows w) (txs w) (f (finalized_tx_states w)) (clock w) (tx_ids w)
  (version_id_counter w) (durable_txid_max w) (passive_checkpoint w) (checkpoint_in_progress w).
Definition with_clock c w := mkMvStore (rows w) (txs w) (finalized_tx_states w) c (tx_ids w)
  (version_id_counter w) (durable_txid_max w) (passive_checkpoint w) (checkpoint_in_progress w).
Definition with_tx_ids c w := mkMvStore (rows w) (txs w) (finalized_tx_states w) (clock w) c
  (version_id_counter w) (durable_txid_max w) (passive_checkpoint w) (checkpoint_in_progress w).
Definition with_version_ids c w := mkMvStore (rows w) (txs w) (finalized_tx_states w) (clock w) (tx_ids w)
  c (durable_txid_max w) (passive_checkpoint w) (checkpoint_in_progress w).

Definition on_tx (id : Z) (f : Transaction -> Transaction) : MvM () := modifies (with_txs (alter f id)).
Definition set_chain (id : RowID) (vs : list RowVersion) : MvM () := modifies (with_rows <[id := vs]>).
Definition find_tx (id : Z) : MvM (option Transaction) := gets (fun w => txs w !! id).

(** The words of versions and of states are written only when they hold the number: [PackedTs::pack]
    in [RowVersion::new], [set_begin] and [set_end], and [TransactionState::encode] in
    [AtomicTransactionState::store], have an assertion. *)
Definition packed (value : option TxTimestampOrID) : MvM () :=
  match pack value with
  | Ok _ => mret ()
  | _ => crashes
  end.
Definition store_state (id : Z) (s : TransactionState) : MvM () :=
  match encode s with
  | Ok _ => on_tx id (set_tx_state s)
  | _ => crashes
  end.

(** [MvccClock::get_timestamp]: the closure runs under the lock of the clock. *)
Definition get_timestamp {T} (f : Z -> MvM T) : MvM T :=
  ts ← gets clock;
  modifies (with_clock (ts + 1));;
  f ts.
Definition get_tx_id : MvM Z := n ← gets tx_ids; modifies (with_tx_ids (n + 1));; mret n.
Definition get_version_id : MvM Z := n ← gets version_id_counter; modifies (with_version_ids (n + 1));; mret n.

(** ** Visibility *)
Definition lookup_tx_state (w : MvStore) (id : Z) : option TransactionState :=
  match txs w !! id with
  | Some t => Some (tx_state t)
  | None => finalized_tx_states w !! id
  end.

Definition lookup_finalized_tx_state (id : Z) : MvM (option TransactionState) :=
  s ← gets (fun w => finalized_tx_states w !! id);
  match s with
  | Some Active | Some (Preparing _) => crashes
  | _ => mret s
  end.

Definition register_commit_dependency (dependent_tx : Transaction) (depended_on_tx_id : Z) : MvM () :=
  turso_assert (negb (tx_id dependent_tx =? depended_on_tx_id));;
  depended_on ← find_tx depended_on_tx_id;
  match depended_on with
  | None => mret ()
  | Some depended_on =>
      match tx_state depended_on with
      | Preparing _ =>
          if bool_decide (tx_id dependent_tx ∈ tx_commit_dep_set depended_on) then mret ()
          else
            on_tx (tx_id dependent_tx) (fun t => set_tx_counter (wrap 64 (tx_commit_dep_counter t + 1)) t);;
            on_tx depended_on_tx_id (fun t => set_tx_dep_set (tx_commit_dep_set t ∪ {[ tx_id dependent_tx ]}) t)
      | Active => crashes
      | Committed _ => mret ()
      | Aborted | Terminated => on_tx (tx_id dependent_tx) (set_tx_abort_now true)
      end
  end.

Definition is_begin_visible (tx : Transaction) (rv : RowVersion) : MvM bool :=
  match rv_begin rv with
  | Some (Timestamp rv_begin_ts) =>
      turso_assert (negb (tx_begin_ts tx =? rv_begin_ts));;
      mret (rv_begin_ts <? tx_begin_ts tx)
  | Some (TxID rv_begin) =>
      tb ← find_tx rv_begin;
      match tb with
      | Some tb =>
          match tx_state tb with
          | Active => mret ((tx_id tx =? tx_id tb) && bool_decide (rv_end rv = None))
          | Preparing end_ts =>
              turso_assert (negb (tx_id tx =? tx_id tb));;
              turso_assert (negb (tx_begin_ts tx =? end_ts));;
              if end_ts <? tx_begin_ts tx then register_commit_dependency tx rv_begin;; mret true else mret false
          | Committed committed_ts =>
              turso_assert (negb (tx_begin_ts tx =? committed_ts));;
              mret (committed_ts <? tx_begin_ts tx)
          | Aborted => mret false
          | Terminated => mret false
          end
      | None =>
          s ← lookup_finalized_tx_state rv_begin;
          match s with
          | Some (Committed committed_ts) =>
              turso_assert (negb (tx_begin_ts tx =? committed_ts));;
              mret (committed_ts <? tx_begin_ts tx)
          | Some Aborted | Some Terminated => mret false
          | Some _ => crashes
          | None => mret false
          end
      end
  | None => mret false
  end.

Definition is_end_visible (current_tx : Transaction) (row_version : RowVersion) : MvM bool :=
  match rv_end row_version with
  | Some (Timestamp rv_end_ts) => mret (tx_begin_ts current_tx <? rv_end_ts)
  | Some (TxID rv_end) =>
      other_tx ← find_tx rv_end;
      match other_tx with
      | Some other_tx =>
          match tx_state other_tx with
          | Active => mret (negb (tx_id current_tx =? tx_id other_tx))
          | Preparing end_ts =>
              turso_assert (negb (tx_id current_tx =? tx_id other_tx));;
              let visible := tx_begin_ts current_tx <? end_ts in
              (if negb visible then register_commit_dependency current_tx rv_end else mret ());;
              mret visible
          | Committed committed_ts => mret (tx_begin_ts current_tx <? committed_ts)
          | Aborted => mret true
          | Terminated => mret true
          end
      | None =>
          s ← lookup_finalized_tx_state rv_end;
          match s with
          | Some (Committed committed_ts) => mret (tx_begin_ts current_tx <? committed_ts)
          | Some Aborted | Some Terminated => mret true
          | Some _ => crashes
          | None => mret true
          end
      end
  | None => mret true
  end.

Definition is_visible_to (tx : Transaction) (rv : RowVersion) : MvM bool :=
  b ← is_begin_visible tx rv;
  if b : bool then is_end_visible tx rv else mret false.

(** Whether a row of the B-tree is replaced or deleted by this version. *)
Definition is_btree_invalidating_version (tx : Transaction) (rv : RowVersion) : MvM bool :=
  visible ← is_visible_to tx rv;
  if visible : bool then mret true
  else
    match rv_end rv with
    | Some (Timestamp end_ts) =>
        turso_assert (negb (tx_begin_ts tx =? end_ts));;
        mret (end_ts <? tx_begin_ts tx)
    | Some (TxID end_tx_id) =>
        if end_tx_id =? tx_id tx then mret true
        else
          s ← gets (fun w => lookup_tx_state w end_tx_id);
          match s with
          | Some (Committed committed_ts) => mret (committed_ts <? tx_begin_ts tx)
          | Some (Preparing end_ts) =>
              let speculatively_invalidated := end_ts <? tx_begin_ts tx in
              (if speculatively_invalidated then register_commit_dependency tx end_tx_id else mret ());;
              mret speculatively_invalidated
          | Some Active => mret false
          | Some Aborted | Some Terminated => mret false
          | None => mret false
          end
    | None => mret false
    end.

Definition is_write_write_conflict (tx : Transaction) (rv : RowVersion) : MvM bool :=
  match rv_end rv with
  | Some (TxID rv_end) =>
      if rv_end =? tx_id tx then mret false
      else
        s ← gets (fun w => lookup_tx_state w rv_end);
        match s with
        | Some Aborted | Some Terminated => mret false
        | Some Active | Some (Preparing _) | Some (Committed _) => mret true
        | None => mret true
        end
  | Some (Timestamp end_ts) => mret (tx_begin_ts tx <? end_ts)
  | None => mret false
  end.

(** [iter().rev().find(..)] and [iter().rev().any(..)] *)
Fixpoint find_visible (tx : Transaction) (reversed : list RowVersion) : MvM (option RowVersion) :=
  match reversed with
  | [] => mret None
  | rv :: rest =>
      visible ← is_visible_to tx rv;
      if visible : bool then mret (Some rv) else find_visible tx rest
  end.

Fixpoint any_invalidating (tx : Transaction) (reversed : list RowVersion) : MvM bool :=
  match reversed with
  | [] => mret false
  | rv :: rest =>
      b ← is_btree_invalidating_version tx rv;
      if b : bool then mret true else any_invalidating tx rest
  end.

Section Covers.
(** Whether the B-tree of a table can be read at a begin timestamp and a read mark. *)
Context (is_btree_readable_at : Z -> Z -> WalPos -> bool).

Definition chain_is_write_buffer_for (tx : Transaction) (versions : list RowVersion) (ckpt_max : Z) (reader_mark : WalPos)
    : MvM bool :=
  match versions with
  | [] => mret false
  | [rv] =>
      match rv_begin rv with
      | Some (Timestamp begin_ts) =>
          if bool_decide (rv_end rv <> None) then mret true
          else
            visible ← is_visible_to tx rv;
            if negb visible then mret true
            else if ckpt_max <? begin_ts then mret true
            else
              let mat := rv_materialized_at rv in
              mret (bool_decide (mat = ORIGIN) || negb (wal_pos_le mat reader_mark))
      | _ => mret true
      end
  | _ => mret true
  end.

Definition btree_covers_chain_for_tx (tx : Transaction) (table : Z) (versions : list RowVersion) : MvM bool :=
  w ← gets id;
  if passive_checkpoint w then mret false
  else if checkpoint_in_progress w then mret false
  else if negb (is_btree_readable_at table (tx_begin_ts tx) (tx_read_mark tx)) then mret false
  else
    b ← chain_is_write_buffer_for tx versions (durable_txid_max w) (tx_read_mark tx);
    mret (negb b).

(** ** Operations of a transaction *)
Definition active_tx (id : Z) : MvM Transaction :=
  t ← find_tx id;
  match t with
  | None => fails NoSuchTransactionID
  | Some t => turso_assert (bool_decide (tx_state t = Active));; mret t
  end.

Definition skipmap_row_while_uncovered (tx : Transaction) (versions : list RowVersion) : MvM (option Row) :=
  match versions with
  | [] => mret None
  | rv :: _ =>
      covers ← btree_covers_chain_for_tx tx (table_id (r_id (rv_row rv))) versions;
      if covers : bool then mret None
      else
        found ← find_visible tx (reverse versions);
        mret (rv_row <$> found)
  end.

Definition read_from_table (id : Z) (key : RowID) : MvM (option Row) :=
  tx ← active_tx id;
  versions ← gets (fun w => rows w !! key);
  match versions with
  | None => mret None
  | Some versions => skipmap_row_while_uncovered tx versions
  end.

(** [seek_rowid] for one row, as [exists] calls it *)
Definition find_last_visible_version (id : Z) (key : RowID) : MvM (option Row) :=
  t ← find_tx id;
  tx ← unwrap t;
  versions ← gets (fun w => rows w !! key);
  match versions with
  | None => mret None
  | Some versions =>
      covers ← btree_covers_chain_for_tx tx (table_id key) versions;
      if covers : bool then mret None
      else
        found ← find_visible tx (reverse versions);
        mret (rv_row <$> found)
  end.

Definition query_btree_version_is_valid (key : RowID) (id : Z) : MvM bool :=
  t ← find_tx id;
  tx ← unwrap t;
  versions ← gets (fun w => rows w !! key);
  match versions with
  | None => mret true
  | Some versions =>
      covers ← btree_covers_chain_for_tx tx (table_id key) versions;
      if covers : bool then mret true
      else
        invalid ← any_invalidating tx (reverse versions);
        mret (negb invalid)
  end.
End Covers.

Definition resolve_begin_timestamp (ts_or_id : option TxTimestampOrID) : MvM Z :=
  match ts_or_id with
  | Some (Timestamp ts) => mret ts
  | Some (TxID id) => t ← find_tx id; t ← unwrap t; mret (tx_begin_ts t)
  | None => mret 0
  end.

(** The place behind the last version that does not begin later; a version with the same commit
    timestamp is replaced.  [reversed] has the last version first. *)
Fixpoint insert_position (row_version : RowVersion) (reversed : list RowVersion) : MvM (list RowVersion) :=
  match reversed with
  | [] => mret [row_version]
  | v :: rest =>
      existing_begin ← resolve_begin_timestamp (rv_begin v);
      new_begin ← resolve_begin_timestamp (rv_begin row_version);
      if existing_begin <=? new_begin then
        let replaces :=
          match rv_begin v, rv_begin row_version with
          | Some (Timestamp existing), Some (Timestamp new) =>
              bool_decide (r_id (rv_row v) = r_id (rv_row row_version)) && (existing =? new)
          | _, _ => false
          end in
        mret (if replaces then row_version :: rest else row_version :: v :: rest)
      else
        rest ← insert_position row_version rest;
        mret (v :: rest)
  end.

Definition insert_version_raw (versions : list RowVersion) (row_version : RowVersion) : MvM (list RowVersion) :=
  reversed ← insert_position row_version (reverse versions);
  mret (reverse reversed).

Definition insert_to_write_set (id : Z) (key : RowID) : MvM () :=
  t ← active_tx id;
  on_tx id (fun t => set_tx_write_set (write_set_insert key (tx_write_set t)) t).

Definition insert_version (key : RowID) (row_version : RowVersion) : MvM () :=
  versions ← gets (fun w => default [] (rows w !! key));
  versions ← insert_version_raw versions row_version;
  set_chain key versions.

Definition insert_row (btree_resident : bool) (id : Z) (row : Row) : MvM () :=
  tx ← active_tx id;
  version_id ← get_version_id;
  packed (Some (TxID (tx_id tx)));;
  insert_version (r_id row) (RowVersion_new version_id (Some (TxID (tx_id tx))) None row btree_resident);;
  insert_to_write_set id (r_id row).

Definition insert_to_table : Z -> Row -> MvM () := insert_row false.
Definition insert_btree_resident_to_table : Z -> Row -> MvM () := insert_row true.

(** The loop of [delete_from_table_or_index]: the chain, last version first, with the version the
    transaction sees ended by it. *)
Fixpoint delete_visible (tx : Transaction) (reversed : list RowVersion) : MvM (option (list RowVersion)) :=
  match reversed with
  | [] => mret None
  | rv :: rest =>
      visible ← is_visible_to tx rv;
      conflict ← (if visible || bool_decide (rv_begin rv = None) then is_write_write_conflict tx rv else mret false);
      if conflict : bool then fails WriteWriteConflict
      else if negb visible then
        r ← delete_visible tx rest;
        mret (cons rv <$> r)
      else
        packed (Some (TxID (tx_id tx)));;
        mret (Some (set_end (Some (TxID (tx_id tx))) rv :: rest))
  end.

Definition insert_tombstone (id : Z) (row : Row) (versions : list RowVersion) : MvM (list RowVersion) :=
  version_id ← get_version_id;
  packed (Some (TxID id));;
  insert_version_raw versions (RowVersion_new version_id None (Some (TxID id)) row true).

(** [btree_record] is the row when the cursor is at a row of the B-tree. *)
Definition delete_from_table (id : Z) (key : RowID) (btree_record : option Row) : MvM bool :=
  tx ← active_tx id;
  entry ← gets (fun w => rows w !! key);
  match entry, btree_record with
  | None, None => mret false
  | _, _ =>
      let versions := default [] entry in
      (* [get_or_create_table_row_versions] *)
      set_chain key versions;;
      deleted ← delete_visible tx (reverse versions);
      match deleted with
      | Some reversed =>
          set_chain key (reverse reversed);;
          insert_to_write_set id key;;
          mret true
      | None =>
          match btree_record with
          | None => mret false
          | Some row =>
              versions ← insert_tombstone id row versions;
              set_chain key versions;;
              insert_to_write_set id key;;
              mret true
          end
      end
  end.

(** ** Commit *)

(** The transaction is published under the lock of the clock, unless the schema has changed. *)
Definition begin_tx (schema_stale : bool) (id : Z) (read_mark : WalPos) : MvM () :=
  get_timestamp (fun ts =>
    if schema_stale then fails SchemaUpdated else modifies (with_txs <[id := Transaction_new id ts read_mark]>)).

(** [CommitState::Initial] up to the validation: the timestamp is taken and published under the
    lock of the clock. *)
Definition prepare_tx (exclusive_conflict schema_conflict : bool) (id : Z) : MvM Z :=
  t ← find_tx id;
  match t with
  | None => fails TxTerminated
  | Some tx =>
      match tx_state tx with
      | Terminated => fails TxTerminated
      | s =>
          turso_assert (bool_decide (s = Active));;
          let read_only := bool_decide (tx_write_set tx = []) in
          get_timestamp (fun ts =>
            turso_assert (tx_begin_ts tx <? ts);;
            (if negb (exclusive_conflict || schema_conflict) || read_only then store_state id (Preparing ts)
             else mret ());;
            if exclusive_conflict && negb read_only then fails WriteWriteConflict
            else if schema_conflict && negb read_only then fails SchemaConflict
            else mret ts)
      end
  end.

(** A transaction that has marked a version: one that has committed, or that ends before, wins. *)
Definition state_conflict (end_ts id : Z) : MvM () :=
  s ← gets (fun w => lookup_tx_state w id);
  match s with
  | Some (Committed _) => fails WriteWriteConflict
  | Some (Preparing other_end_ts) => if other_end_ts <? end_ts then fails WriteWriteConflict else mret ()
  | Some Active | Some Aborted | Some Terminated => mret ()
  | None => mret ()
  end.

Definition check_begin (end_ts : Z) (tx : Transaction) (version : RowVersion) : MvM () :=
  match rv_begin version with
  | Some (TxID other_tx_id) =>
      if other_tx_id =? tx_id tx then mret ()
      else
        s ← gets (fun w => lookup_tx_state w other_tx_id);
        match s with
        | None => fails WriteWriteConflict
        | Some _ => state_conflict end_ts other_tx_id
        end
  | Some (Timestamp _) => fails WriteWriteConflict
  | None => mret ()
  end.

(** One version of [check_version_conflicts]. *)
Definition check_version_conflict (end_ts : Z) (tx : Transaction) (version : RowVersion) : MvM () :=
  (match rv_end version with
   | Some (Timestamp end_ts) =>
       turso_assert (negb (end_ts =? tx_begin_ts tx));;
       if tx_begin_ts tx <? end_ts then fails WriteWriteConflict else mret ()
   | _ => mret ()
   end);;
  if bool_decide (rv_begin version = None) then
    match rv_end version with
    | Some (TxID other_tx_id) => if negb (other_tx_id =? tx_id tx) then state_conflict end_ts other_tx_id else mret ()
    | _ => mret ()
    end
  else
    match rv_end version with
    | Some (Timestamp end_ts) => turso_assert (end_ts <? tx_begin_ts tx)
    | Some (TxID end_tx_id) =>
        if end_tx_id =? tx_id tx then mret ()
        else
          s ← gets (fun w => lookup_tx_state w end_tx_id);
          match s with
          | Some (Committed committed_end_ts) =>
              turso_assert (negb (committed_end_ts =? tx_begin_ts tx));;
              if tx_begin_ts tx <? committed_end_ts then fails WriteWriteConflict else mret ()
          | _ => check_begin end_ts tx version
          end
    | None => check_begin end_ts tx version
    end.

Fixpoint check_version_conflicts (end_ts : Z) (tx : Transaction) (reversed : list RowVersion) : MvM () :=
  match reversed with
  | [] => mret ()
  | version :: rest => check_version_conflict end_ts tx version;; check_version_conflicts end_ts tx rest
  end.

Definition check_rowid_for_conflicts (key : RowID) (end_ts id : Z) : MvM () :=
  t ← find_tx id;
  match t with
  | None => fails TxTerminated
  | Some tx =>
      versions ← gets (fun w => rows w !! key);
      match versions with
      | None => mret ()
      | Some versions => check_version_conflicts end_ts tx (reverse versions)
      end
  end.

(** What [CommitState::Initial] and [CommitState::WaitForDependencies] read of the transaction. *)
Definition committing_tx (id : Z) : MvM Transaction :=
  t ← find_tx id;
  match t with
  | None => fails TxTerminated
  | Some t => mret t
  end.
Definition load_write_set (id : Z) : MvM (list RowID) := t ← committing_tx id; mret (tx_write_set t).
Definition check_no_dependents (id : Z) : MvM () :=
  t ← committing_tx id;
  turso_assert (bool_decide (tx_commit_dep_set t = ∅)).
Definition check_abort_now (id : Z) : MvM () :=
  t ← committing_tx id;
  if tx_abort_now t then fails CommitDependencyAborted else mret ().
Definition has_dependencies (id : Z) : MvM bool :=
  t ← committing_tx id;
  mret (0 <? tx_commit_dep_counter t).

(** The store in [own_logical_log_record] *)
Definition own_logical_log_record (id : Z) : MvM () := on_tx id (set_tx_log_appended true).

(** [CommitState::CommitEnd] *)
Definition commit_end (id end_ts : Z) : MvM () :=
  t ← find_tx id;
  match t with
  | None => fails NoSuchTransactionID
  | Some _ => store_state id (Committed end_ts)
  end.

(** The assertion at the start of the rewrite *)
Definition check_committed (id end_ts : Z) : MvM () :=
  t ← find_tx id;
  match t with
  | None => fails NoSuchTransactionID
  | Some tx => turso_assert (bool_decide (tx_state tx = Committed end_ts))
  end.

(** One row of [step_rewrite_live_versions] *)
Definition names_tx (id : Z) (rv : RowVersion) : bool :=
  bool_decide (rv_begin rv = Some (TxID id)) || bool_decide (rv_end rv = Some (TxID id)).
Definition rewrite_live_versions (id end_ts : Z) (key : RowID) : MvM () :=
  versions ← gets (fun w => default [] (rows w !! key));
  (if existsb (names_tx id) versions then packed (Some (Timestamp end_ts)) else mret ());;
  modifies (with_rows (alter (map (rewrite_txid_to_timestamp id end_ts)) key)).

(** [std::mem::take(&mut *tx.commit_dep_set.lock())] *)
Definition take_dependents (id : Z) : MvM (list Z) :=
  t ← find_tx id;
  t ← unwrap t;
  on_tx id (set_tx_dep_set ∅);;
  mret (elements (tx_commit_dep_set t)).

(** [commit_dep_counter.fetch_sub(1)] on a dependent that still exists *)
Definition decrement_dependent (dep_tx_id : Z) : MvM () :=
  on_tx dep_tx_id (fun t => set_tx_counter (wrap 64 (tx_commit_dep_counter t - 1)) t).
Definition abort_dependent (dep_tx_id : Z) : MvM () := on_tx dep_tx_id (set_tx_abort_now true).

(** [remove_tx] publishes the final state before the transaction leaves the table. *)
Definition finalize_tx (id : Z) : MvM () :=
  t ← find_tx id;
  match t with
  | None => mret ()
  | Some tx =>
      (match tx_state tx with
       | Committed commit_ts =>
           if bool_decide (tx_write_set tx <> []) then modifies (with_finalized <[id := Committed commit_ts]>) else mret ()
       | _ => mret ()
       end);;
      turso_assert (bool_decide (tx_commit_dep_set tx = ∅));;
      match tx_state tx with
      | Committed _ =>
          if bool_decide (tx_write_set tx <> []) then
            finalized ← lookup_finalized_tx_state id; turso_assert (bool_decide (is_Some finalized))
          else mret ()
      | _ => mret ()
      end
  end.
Definition leave_txs (id : Z) : MvM () := modifies (with_txs (delete id)).
Definition remove_tx (id : Z) : MvM () := finalize_tx id;; leave_txs id.

(** [rollback_tx_inner] up to the dependents, and for one row of the write set *)
Definition abort_tx (id : Z) : MvM () :=
  t ← find_tx id;
  tx ← unwrap t;
  turso_assert (match tx_state tx with Active | Preparing _ => true | _ => false end);;
  store_state id Aborted.
Definition rollback_row (id : Z) (key : RowID) : MvM () :=
  modifies (with_rows (alter (map (rollback_row_version id)) key)).
Definition take_write_set (id : Z) : MvM (list RowID) :=
  t ← find_tx id;
  tx ← unwrap t;
  on_tx id (set_tx_write_set []);;
  mret (tx_write_set tx).
Definition terminate_tx (id : Z) : MvM () := store_state id Terminated.

(** ** Garbage collection *)
Definition U64_MAX : Z := 2 ^ 64 - 1.

Definition compute_lwm (w : MvStore) : Z :=
  map_fold (fun _ t lwm =>
    match tx_state t with
    | Active | Preparing _ => Z.min lwm (tx_begin_ts t)
    | _ => lwm
    end) U64_MAX (txs w).

Definition sample_gc_lwm : MvM Z := get_timestamp (fun _ => gets compute_lwm).

Definition gc_version_chain (versions : list RowVersion) (lwm ckpt_max : Z) (passive : bool) (min_reader_mark : WalPos)
    (drop_current_if_in_btree : bool) : list RowVersion :=
  let versions := filter (fun rv => ~ (rv_begin rv = None /\ rv_end rv = None)) versions in
  let committed_by ts := match ts with Some (Timestamp _) => true | _ => false end in
  let has_current := existsb (fun rv => committed_by (rv_begin rv) && bool_decide (rv_end rv = None)) versions in
  let materialized_for_readers rv :=
    bool_decide (rv_materialized_at rv <> ORIGIN) && wal_pos_le (rv_materialized_at rv) min_reader_mark in
  let keeps rv :=
    match rv_end rv with
    | Some (Timestamp e) =>
        if e <=? lwm then
          if passive then negb (materialized_for_readers rv)
          else
            let in_btree := rv_btree_resident rv || match rv_begin rv with Some (Timestamp b) => b <=? ckpt_max | _ => false end in
            (ckpt_max <? e) && (in_btree || negb has_current)
        else true
    | _ => true
    end in
  let versions := filter (fun rv => keeps rv = true) versions in
  match versions with
  | [rv] =>
      match rv_begin rv, rv_end rv with
      | Some (Timestamp b), None =>
          if drop_current_if_in_btree && ((lwm =? U64_MAX) && materialized_for_readers rv && (passive || (b <=? ckpt_max)))
          then [] else versions
      | _, _ => versions
      end
  | _ => versions
  end.

(** The low-water mark is sampled again when no transaction was open. *)
Definition gc_chain_now (versions : list RowVersion) (lwm ckpt_max : Z) (min_reader_mark : WalPos)
    (drop_current_if_in_btree : bool) : MvM (list RowVersion) :=
  w ← gets id;
  let lwm := if lwm =? U64_MAX then compute_lwm w else lwm in
  mret (gc_version_chain versions lwm ckpt_max (passive_checkpoint w) min_reader_mark drop_current_if_in_btree).

(** One row of [gc_incremental]: an empty chain leaves the map. *)
Definition gc_row (key : RowID) (lwm : Z) (min_reader_mark : WalPos) : MvM () :=
  w ← gets id;
  match rows w !! key with
  | None => mret ()
  | Some versions =>
      versions ← gc_chain_now versions lwm (durable_txid_max w) min_reader_mark true;
      if negb (passive_checkpoint w) && bool_decide (versions = []) then modifies (with_rows (delete key))
      else set_chain key versions
  end.

(** ** Commits whose statement is gone *)

(** [cleanup_dropped_commit]: what is left to do for the transaction *)
Inductive cleanup := Finish (end_ts : Z) | RollBack | Nothing.

Definition cleanup_dropped_commit (id : Z) : MvM cleanup :=
  t ← find_tx id;
  match t with
  | None => mret Nothing
  | Some tx =>
      match tx_state tx with
      | Preparing end_ts =>
          if tx_log_appended tx then store_state id (Committed end_ts);; mret (Finish end_ts) else mret RollBack
      | Active => mret RollBack
      | Committed end_ts => mret (Finish end_ts)
      | Aborted | Terminated => mret Nothing
      end
  end.

Fixpoint rewrite_rows (id end_ts : Z) (keys : list RowID) : MvM () :=
  match keys with
  | [] => mret ()
  | key :: keys => rewrite_live_versions id end_ts key;; rewrite_rows id end_ts keys
  end.

Definition finish_abandoned_group_waiter (owner_tx : Z) : MvM () :=
  t ← find_tx owner_tx;
  match t with
  | None => mret ()
  | Some tx =>
      match tx_state tx with
      | Preparing end_ts | Committed end_ts =>
          store_state owner_tx (Committed end_ts);;
          check_committed owner_tx end_ts;;
          rewrite_rows owner_tx end_ts (tx_write_set tx);;
          remove_tx owner_tx
      | _ => fails InternalError
      end
  end.
