(* ===== verification/MvccWords.v ===== *)
(** * The words of row versions and transaction states

    [PackedTs] and [AtomicTransactionState] keep a tag and a 62-bit number in one word. *)
From stdpp Require Import base.
From S2P Require Import Prelude Errors Effects Mvcc.

Lemma testbit_small n i : 0 <= n < 2 ^ 62 -> 62 <= i -> Z.testbit n i = false.
Proof. intros Hn Hi. rewrite Z.testbit_false by lia. rewrite Z.div_small; [done|]. pose proof (Z.pow_le_mono_r 2 62 i). lia. Qed.

Section Tag.
Context (m n : Z) (Hm : 62 <= m) (Hn : 0 <= n < 2 ^ 62).

Lemma tag_value : Z.land (Z.lor (2 ^ m) n) (2 ^ 62 - 1) = n.
Proof.
  replace (2 ^ 62 - 1) with (Z.ones 62) by done. rewrite Z.land_lor_distr_l, !Z.land_ones by lia. rewrite (Z.mod_small n) by lia.
  replace (2 ^ m) with (2 ^ (m - 62) * 2 ^ 62) by (rewrite <- Z.pow_add_r by lia; f_equal; lia). by rewrite Z_mod_mult, Z.lor_0_l.
Qed.

Lemma tag_testbit j : 62 <= j -> Z.testbit (Z.lor (2 ^ m) n) j = (j =? m).
Proof. intros Hj. rewrite Z.lor_spec, (testbit_small n), orb_false_r by lia. rewrite Z.pow2_bits_eqb by lia. apply Z.eqb_sym. Qed.

Lemma tag_test j : 62 <= j -> Z.land (Z.lor (2 ^ m) n) (2 ^ j) = if j =? m then 2 ^ j else 0.
Proof.
  intros Hj. apply Z.bits_inj'. intros i Hi. rewrite Z.land_spec, Z.pow2_bits_eqb by lia. destruct (j =? i) eqn:E.
  - apply Z.eqb_eq in E as <-. rewrite andb_true_r, tag_testbit by lia. destruct (j =? m); [by rewrite Z.pow2_bits_true by lia|by rewrite Z.bits_0].
  - rewrite andb_false_r. destruct (j =? m); [by rewrite Z.pow2_bits_eqb, E by lia|by rewrite Z.bits_0].
Qed.

Lemma tag_bounds : m < 64 -> 2 ^ 62 <= Z.lor (2 ^ m) n < 2 ^ 64.
Proof.
  intros H64. replace (2 ^ m) with (2 ^ (m - 62) * 2 ^ 62) by (rewrite <- Z.pow_add_r by lia; f_equal; lia). rewrite lor_disjoint_add by lia.
  pose proof (Z.pow_le_mono_r 2 0 (m - 62)). pose proof (Z.pow_le_mono_r 2 (m - 62) 1). lia.
Qed.
End Tag.

Definition ts_fits (x : option TxTimestampOrID) : Prop :=
  match x with
  | Some (Timestamp n) | Some (TxID n) => 0 <= n <= VALUE_MASK
  | None => True
  end.
Definition state_fits (s : TransactionState) : Prop :=
  match s with
  | Preparing n | Committed n => 0 <= n <= TIMESTAMP_MASK
  | _ => True
  end.

Lemma pack_unpack x : ts_fits x -> exists p, pack x = Ok p /\ 0 <= p < 2 ^ 64 /\ unpack p = x.
Proof.
  destruct x as [[n|n]|]; simpl; intros Hn; [..|by exists 0].
  all: assert (0 <= n < 2 ^ 62) as Hn' by (change VALUE_MASK with (2 ^ 62 - 1) in Hn; lia).
  all: rewrite (proj2 (Z.leb_le n VALUE_MASK)) by lia; eexists; split; [done|]; unfold unpack.
  all: change TIMESTAMP_TAG with (2 ^ 62); change TXID_TAG with (2 ^ 63); change VALUE_MASK with (2 ^ 62 - 1).
  - pose proof (tag_bounds 62 n ltac:(lia) Hn' ltac:(lia)). split; [lia|]. rewrite (proj2 (Z.eqb_neq _ 0)), tag_test by lia. simpl negb.
    by rewrite tag_value.
  - pose proof (tag_bounds 63 n ltac:(lia) Hn' ltac:(lia)). split; [lia|]. rewrite (proj2 (Z.eqb_neq _ 0)), tag_test by lia. simpl negb.
    by rewrite tag_value.
Qed.

Lemma ldiff_small n : 0 <= n < 2 ^ 62 -> Z.ldiff n TIMESTAMP_MASK = 0.
Proof.
  intros Hn. change TIMESTAMP_MASK with (Z.ones 62). rewrite Z.ldiff_ones_r by lia. rewrite Z.shiftr_div_pow2, Z.div_small by lia. done.
Qed.

Lemma encode_decode s : state_fits s -> exists v, encode s = Ok v /\ 0 <= v < 2 ^ 64 /\ decode v = Ok s.
Proof.
  destruct s as [|n| | |n]; simpl; intros Hn; [by exists 0| |by exists 1|by exists 2|].
  all: assert (0 <= n < 2 ^ 62) as Hn' by (change TIMESTAMP_MASK with (2 ^ 62 - 1) in Hn; lia).
  all: rewrite ldiff_small by done; eexists; split; [done|]; unfold decode.
  - change PREPARING_BIT with (2 ^ 62). change COMMITTED_BIT with (2 ^ 63). pose proof (tag_bounds 62 n ltac:(lia) Hn' ltac:(lia)). split; [lia|].
    rewrite !(proj2 (Z.eqb_neq _ _)) by lia. rewrite !tag_test by lia. simpl negb. change TIMESTAMP_MASK with (2 ^ 62 - 1). by rewrite tag_value.
  - change COMMITTED_BIT with (2 ^ 63). pose proof (tag_bounds 63 n ltac:(lia) Hn' ltac:(lia)). split; [lia|].
    rewrite !(proj2 (Z.eqb_neq _ _)) by lia. rewrite !tag_test by lia. simpl negb. change TIMESTAMP_MASK with (2 ^ 62 - 1). by rewrite tag_value.
Qed.

(** The assertions hold for numbers that fit. *)
Lemma packed_fits x : ts_fits x -> packed x = mret ().
Proof. intros Hx. destruct (pack_unpack x Hx) as (p & Hp & _). unfold packed. by rewrite Hp. Qed.
Lemma store_state_fits id s : state_fits s -> store_state id s = on_tx id (set_tx_state s).
Proof. intros Hs. destruct (encode_decode s Hs) as (v & Hv & _). unfold store_state. by rewrite Hv. Qed.

Lemma store_state_large id ts : VALUE_MASK < ts -> store_state id (Preparing ts) = crashes.
Proof.
  intros Hts. unfold store_state, encode. change TIMESTAMP_MASK with (Z.ones 62). rewrite Z.ldiff_ones_r by lia.
  rewrite Z.shiftr_div_pow2, Z.shiftl_mul_pow2 by lia. replace VALUE_MASK with (2 ^ 62 - 1) in Hts by done.
  assert (0 < ts / 2 ^ 62) by (apply Z.div_str_pos; lia). by rewrite (proj2 (Z.eqb_neq _ _)) by lia.
Qed.

Lemma packed_large id : VALUE_MASK < id -> packed (Some (TxID id)) = crashes.
Proof. intros Hid. unfold packed, pack. by rewrite (proj2 (Z.leb_gt id VALUE_MASK)). Qed.

(** C39: the words of a row version's times and of a transaction's state lose nothing: for every
    number below 2^62, [PackedTs::pack] and [TransactionState::encode] succeed with a 64-bit word
    from which [unpack] and [decode] give back the value, timestamp 0 included; and [pack] fails its
    assertion for every larger number. *)
Theorem mvcc_words_roundtrip x s n : ts_fits x -> state_fits s -> VALUE_MASK < n ->
  (exists p, pack x = Ok p /\ 0 <= p < 2 ^ 64 /\ unpack p = x) /\
  (exists v, encode s = Ok v /\ 0 <= v < 2 ^ 64 /\ decode v = Ok s) /\
  pack (Some (Timestamp n)) = Panic /\ pack (Some (TxID n)) = Panic.
Proof.
  intros Hx Hs Hn. split; [by apply pack_unpack|]. split; [by apply encode_decode|]. simpl. by rewrite (proj2 (Z.leb_gt n VALUE_MASK)).
Qed.

Lemma mvcc_words_roundtrip_witness :
  (exists p, pack (Some (Timestamp 0)) = Ok p /\ 0 <= p < 2 ^ 64 /\ unpack p = Some (Timestamp 0)) /\
  (exists v, encode (Preparing 7) = Ok v /\ 0 <= v < 2 ^ 64 /\ decode v = Ok (Preparing 7)) /\
  pack (Some (Timestamp (2 ^ 62))) = Panic /\ pack (Some (TxID (2 ^ 62))) = Panic.
Proof. apply (mvcc_words_roundtrip (Some (Timestamp 0)) (Preparing 7) (2 ^ 62)); [vm_compute; split; congruence|vm_compute; split; congruence|reflexivity]. Defined.
