(* ===== verification/MvccSession.v ===== *)
(** * Connections and their transactions

    A thread is a connection.  Its statements and its commits are programs over the actions of
    [Mvcc]: [cursor.rs] for point lookups, inserts and deletes, [CommitStateMachine::step] and
    [rollback_tx_inner] of [mod.rs] for the ends of a transaction.  Another thread may run
    between any two actions.  [btree] is the content of the B-trees, which no checkpoint changes
    here.  [journal] is not part of the source: it has, for each transaction whose state became
    [Committed], the rows it has read and written, and [snapshot_isolated] is about it. *)
From stdpp Require Import gmap.
From S2P Require Import Prelude Errors Effects Mvcc Threads.

(** ** What transactions have done *)

(** A read and its result, or a write; [None] is no row. *)
Inductive op := Read (key : RowID) (value : option Row) | Write (key : RowID) (value : option Row).

Record committed_tx := mkCommittedTx { ct_id : Z; ct_begin : Z; ct_end : Z; ct_ops : list op }.

Definition apply_op (own : gmap RowID (option Row)) (o : op) : gmap RowID (option Row) :=
  match o with
  | Read _ _ => own
  | Write key value => <[key := value]> own
  end.
Definition own_writes (ops : list op) : gmap RowID (option Row) := fold_left apply_op ops ∅.
Definition ct_writes (c : committed_tx) : gmap RowID (option Row) := own_writes (ct_ops c).

Record world := mkWorld { mv : MvStore; journal : list committed_tx }.

Section Isolation.
Context (base : RowID -> option Row).

(** The row at a time: written by the last transaction that committed before, or in the B-tree. *)
Fixpoint last_writer (key : RowID) (time : Z) (log : list committed_tx) : option committed_tx :=
  match log with
  | [] => None
  | c :: log =>
      let r := last_writer key time log in
      if bool_decide (is_Some (ct_writes c !! key)) && (ct_end c <? time) then
        match r with
        | Some c' => if ct_end c' <? ct_end c then Some c else r
        | None => Some c
        end
      else r
  end.

Definition snapshot (log : list committed_tx) (time : Z) (key : RowID) : option Row :=
  match last_writer key time log with
  | Some c => default None (ct_writes c !! key)
  | None => base key
  end.

(** Each read gives the transaction's own last write, or else the row of its snapshot. *)
Fixpoint reads_ok (snap : RowID -> option Row) (own : gmap RowID (option Row)) (ops : list op) : Prop :=
  match ops with
  | [] => True
  | o :: ops =>
      match o with
      | Read key value => value = default (snap key) (own !! key)
      | Write _ _ => True
      end /\ reads_ok snap (apply_op own o) ops
  end.

Definition snapshot_isolated (log : list committed_tx) : Prop :=
  (forall c, c ∈ log -> reads_ok (snapshot log (ct_begin c)) ∅ (ct_ops c)) /\
  (forall c c' key, c ∈ log -> c' ∈ log -> ct_id c <> ct_id c' ->
     is_Some (ct_writes c !! key) -> is_Some (ct_writes c' !! key) ->
     ct_end c < ct_begin c' \/ ct_end c' < ct_begin c).
End Isolation.

(** ** Programs *)
Section Session.
Context (is_btree_readable_at : Z -> Z -> WalPos -> bool).
(** The rows of a table's B-tree, when it has one. *)
Context (btree : Z -> option (Z -> option Row)).

Definition base_row (key : RowID) : option Row := rows ← btree (table_id key); rows (row_id key).

(** A transaction whose state becomes [Committed] is put in the journal. *)
Definition committed_now (id : Z) (ops : list op) (s s' : MvStore) : list committed_tx :=
  match txs s !! id, txs s' !! id with
  | Some t, Some t' =>
      match tx_state t, tx_state t' with
      | Committed _, _ => []
      | _, Committed end_ts => [mkCommittedTx id (tx_begin_ts t) end_ts ops]
      | _, _ => []
      end
  | _, _ => []
  end.

Definition act_as {T} (id : Z) (ops : list op) (m : MvM T) : prog world (poll T) :=
  action (fun _ w =>
    match m (mv w) with
    | (Crashes, _) => Panic
    | (r, s) => Ok (r, mkWorld s (journal w ++ committed_now id ops (mv w) s))
    end).

Definition act {T} (m : MvM T) : prog world (poll T) :=
  action (fun _ w =>
    match m (mv w) with
    | (Crashes, _) => Panic
    | (r, s) => Ok (r, mkWorld s (journal w))
    end).

(** The next step unless the first has failed. *)
Definition then_ {A B} (m : prog world (poll A)) (k : A -> prog world (poll B)) : prog world (poll B) :=
  r ← m;
  match r with
  | Ready x => k x
  | Waits => mret Waits
  | Fails e => mret (Fails e)
  | Crashes => mret Crashes
  end.
#[local] Notation "x <- m ;; k" := (then_ m (fun x => k)) (at level 100, m at next level, right associativity).
#[local] Notation "m ;;; k" := (then_ m (fun _ => k)) (at level 100, right associativity).
Definition done {A} (x : A) : prog world (poll A) := mret (Ready x).

(** *** Cursors *)

(** [exists]: whether there is the row, and whether it is that of the B-tree *)
Definition exists_ (id : Z) (key : RowID) : prog world (poll (option bool)) :=
  found <- act (find_last_visible_version is_btree_readable_at id key);;
  match found with
  | Some _ => done (Some false)
  | None =>
      match btree (table_id key) with
      | None => done None
      | Some rows =>
          btree_is_valid <- act (query_btree_version_is_valid is_btree_readable_at key id);;
          if negb btree_is_valid then done None
          else
            match rows (row_id key) with
            | None => done None
            | Some _ =>
                is_valid <- act (query_btree_version_is_valid is_btree_readable_at key id);;
                done (if is_valid : bool then Some true else None)
            end
      end
  end.

(** [current_row] of a cursor without a cached chain *)
Definition current_row (id : Z) (key : RowID) (in_btree : bool) : prog world (poll (option Row)) :=
  if in_btree then done (base_row key) else act (read_from_table is_btree_readable_at id key).

Definition update_to_table (id : Z) (row : Row) : prog world (poll bool) :=
  deleted <- act (delete_from_table id (r_id row) None);;
  if negb deleted then done false
  else act (insert_to_table id row);;; done true.

(** [insert]: whether the assertion after the update holds *)
Definition cursor_insert (id : Z) (row : Row) (was_btree_resident : bool) : prog world (poll bool) :=
  found <- act (read_from_table is_btree_readable_at id (r_id row));;
  match found with
  | Some _ => update_to_table id row
  | None =>
      if was_btree_resident then act (insert_btree_resident_to_table id row);;; done true
      else act (insert_to_table id row);;; done true
  end.

Definition cursor_delete (id : Z) (key : RowID) (in_btree : bool) : prog world (poll bool) :=
  if in_btree then
    match base_row key with
    | Some record => act (delete_from_table id key (Some record))
    | None => mret (Fails Corrupt)
    end
  else act (delete_from_table id key None).

(** *** Ends of transactions *)
Fixpoint rewrite_each (id end_ts : Z) (keys : list RowID) : prog world (poll ()) :=
  match keys with
  | [] => done ()
  | key :: keys => act (rewrite_live_versions id end_ts key);;; rewrite_each id end_ts keys
  end.

Fixpoint notify_each (dependents : list Z) : prog world (poll ()) :=
  match dependents with
  | [] => done ()
  | dep :: dependents => act (decrement_dependent dep);;; notify_each dependents
  end.

Definition removes (id : Z) : prog world (poll ()) := act (finalize_tx id);;; act (leave_txs id).

Definition notify_and_remove (id : Z) : prog world (poll ()) :=
  dependents <- act (take_dependents id);;
  notify_each dependents;;;
  removes id.

(** [cleanup_dropped_commit] for a committed transaction *)
Definition finish_committed (id end_ts : Z) : prog world (poll ()) :=
  act (check_committed id end_ts);;;
  keys <- act (load_write_set id);;
  rewrite_each id end_ts keys;;;
  notify_and_remove id.

Fixpoint abort_each (dependents : list Z) : prog world (poll ()) :=
  match dependents with
  | [] => done ()
  | dep :: dependents => act (abort_dependent dep);;; act (decrement_dependent dep);;; abort_each dependents
  end.

Fixpoint rollback_each (id : Z) (keys : list RowID) : prog world (poll ()) :=
  match keys with
  | [] => done ()
  | key :: keys => act (rollback_row id key);;; rollback_each id keys
  end.

Definition rollback_tx_inner (id : Z) : prog world (poll ()) :=
  act (abort_tx id);;;
  dependents <- act (take_dependents id);;
  act (turso_assert (negb (bool_decide (id ∈ dependents))));;;
  abort_each dependents;;;
  keys <- act (take_write_set id);;
  rollback_each id keys;;;
  act (terminate_tx id);;;
  removes id.

Definition drop_commit (id : Z) (ops : list op) : prog world (poll ()) :=
  c <- act_as id ops (cleanup_dropped_commit id);;
  match c with
  | Finish end_ts => finish_committed id end_ts
  | RollBack => rollback_tx_inner id
  | Nothing => done ()
  end.

(** *** Commit *)

(** The statement may be dropped where the commit yields, and I/O may fail. *)
Definition yields : prog world (poll ()) :=
  dropped ← chooses;
  mret (if dropped : bool then Fails Interrupt else Ready ()).

Fixpoint validate_each (id end_ts : Z) (keys : list RowID) : prog world (poll ()) :=
  match keys with
  | [] => done ()
  | key :: keys => act (check_rowid_for_conflicts key end_ts id);;; validate_each id end_ts keys
  end.

Fixpoint step_rewrite_live_versions (id end_ts : Z) (keys : list RowID) : prog world (poll ()) :=
  match keys with
  | [] => done ()
  | key :: keys => act (rewrite_live_versions id end_ts key);;; yields;;; step_rewrite_live_versions id end_ts keys
  end.

Definition log_and_finish (id end_ts : Z) (ops : list op) : prog world (poll ()) :=
  yields;;;
  act (own_logical_log_record id);;;
  yields;;;
  act_as id ops (commit_end id end_ts);;;
  act (check_committed id end_ts);;;
  keys <- act (load_write_set id);;
  step_rewrite_live_versions id end_ts keys;;;
  notify_and_remove id.

Definition commit_read_only (id end_ts : Z) (ops : list op) : prog world (poll ()) :=
  act_as id ops (commit_end id end_ts);;;
  removes id.

Definition wait_for_dependencies (id end_ts : Z) (ops : list op) : prog world (poll ()) :=
  act (check_abort_now id);;;
  waits <- act (has_dependencies id);;
  if waits : bool then mret Waits
  else
    act (check_abort_now id);;;
    keys <- act (load_write_set id);;
    if bool_decide (keys = []) then act (check_no_dependents id);;; commit_read_only id end_ts ops
    else log_and_finish id end_ts ops.

Definition validate (id end_ts : Z) (ops : list op) : prog world (poll ()) :=
  keys <- act (load_write_set id);;
  if bool_decide (keys = []) then
    act (check_no_dependents id);;;
    act (check_abort_now id);;;
    waits <- act (has_dependencies id);;
    if waits : bool then wait_for_dependencies id end_ts ops
    else act (check_abort_now id);;; commit_read_only id end_ts ops
  else
    yields;;;
    validate_each id end_ts keys;;;
    yields;;;
    wait_for_dependencies id end_ts ops.

(** *** Threads *)

(** A connection without a transaction, in one, or waiting for others in its commit; [InsertPanicked] after
    the assertion in [insert] has failed. *)
Inductive conn :=
| Idle
| InTx (id : Z) (ops : list op)
| Waiting (id end_ts : Z) (ops : list op)
| InsertPanicked.

Inductive request :=
| Begin (schema_stale : bool) (read_mark : WalPos)
| Get (key : RowID)
| Put (row : Row) (positioned : bool)
| Del (key : RowID)
| Commit (exclusive_conflict schema_conflict : bool)
| Resume
| Drop
| Rollback
| Gc (keys : list RowID) (min_reader_mark : WalPos).

(** After a statement: the transaction goes on, with the statement's operation when it succeeded. *)
Definition in_tx {A} (id : Z) (ops : list op) (m : prog world (poll A)) (k : A -> conn) : prog world conn :=
  r ← m;
  mret match r with
       | Ready x => k x
       | _ => InTx id ops
       end.

Definition ends {A} (m : prog world (poll A)) : prog world conn := r ← m; mret Idle.

(** After a step of a commit. *)
Definition commits (id end_ts : Z) (ops : list op) (m : prog world (poll ())) : prog world conn :=
  r ← m;
  match r with
  | Ready _ => mret Idle
  | Waits => mret (Waiting id end_ts ops)
  | _ => ends (drop_commit id ops)
  end.

Definition get_row (id : Z) (key : RowID) : prog world (poll (option Row)) :=
  at_ <- exists_ id key;;
  match at_ with
  | None => done None
  | Some in_btree => current_row id key in_btree
  end.

(** A lookup that finds nothing leaves the cursor where it was: [positioned] tells whether this is at
    the row of the B-tree. *)
Definition put_row (id : Z) (row : Row) (positioned : bool) : prog world (poll bool) :=
  at_ <- exists_ id (r_id row);;
  cursor_insert id row (default positioned at_).

(** Whether there was a row to delete *)
Definition delete_row (id : Z) (key : RowID) : prog world (poll bool) :=
  at_ <- exists_ id key;;
  match at_ with
  | None => done false
  | Some in_btree => cursor_delete id key in_btree;;; done true
  end.

Fixpoint gc_each (keys : list RowID) (lwm : Z) (min_reader_mark : WalPos) : prog world (poll ()) :=
  match keys with
  | [] => done ()
  | key :: keys => act (gc_row key lwm min_reader_mark);;; gc_each keys lwm min_reader_mark
  end.

(** The assertion of [PackedTs::pack] on the id, which the source makes with each version the
    transaction writes, is made when the id is drawn. *)
Definition draw_tx_id : MvM Z := id ← get_tx_id; packed (Some (TxID id));; mret id.
Definition begin_ (schema_stale : bool) (read_mark : WalPos) : prog world conn :=
  id ← act draw_tx_id;
  match id with
  | Ready id =>
      r ← act (begin_tx schema_stale id read_mark);
      mret match r with Ready _ => InTx id [] | _ => Idle end
  | _ => mret Idle
  end.

Definition request_ok (r : request) (c : conn) : bool :=
  match r, c with
  | Begin _ _, Idle | Gc _ _, Idle => true
  | Get _, InTx _ _ | Put _ _, InTx _ _ | Del _, InTx _ _ | Commit _ _, InTx _ _ | Rollback, InTx _ _ => true
  | Resume, Waiting _ _ _ | Drop, Waiting _ _ _ => true
  | _, _ => false
  end.

Definition serve (r : request) (c : conn) : prog world conn :=
  match c, r with
  | Idle, Begin schema_stale read_mark => begin_ schema_stale read_mark
  | Idle, Gc keys min_reader_mark => ends (lwm <- act sample_gc_lwm;; gc_each keys lwm min_reader_mark)
  | InTx id ops, Get key => in_tx id ops (get_row id key) (fun value => InTx id (ops ++ [Read key value]))
  | InTx id ops, Put row positioned =>
      in_tx id ops (put_row id row positioned) (fun updated : bool =>
        if updated then InTx id (ops ++ [Write (r_id row) (Some row)]) else InsertPanicked)
  | InTx id ops, Del key =>
      in_tx id ops (delete_row id key) (fun found : bool =>
        InTx id (ops ++ [if found then Write key None else Read key None]))
  | InTx id ops, Commit exclusive_conflict schema_conflict =>
      r ← act (prepare_tx exclusive_conflict schema_conflict id);
      match r with
      | Ready end_ts => commits id end_ts ops (validate id end_ts ops)
      | _ => ends (drop_commit id ops)
      end
  | InTx id _, Rollback => ends (rollback_tx_inner id)
  | Waiting id end_ts ops, Resume => commits id end_ts ops (wait_for_dependencies id end_ts ops)
  | Waiting id _ ops, Drop => ends (drop_commit id ops)
  | c, _ => mret c
  end.

Definition init_store (first_ts : Z) (passive checkpointing : bool) : MvStore :=
  mkMvStore ∅ ∅ ∅ first_ts 1 1 0 passive checkpointing.
Definition init (first_ts : Z) (passive checkpointing : bool) (connections : nat) : config :=
  mkConfig (mkWorld (init_store first_ts passive checkpointing) []) (replicate connections (Resting Idle)).
End Session.
