(* ===== verification/MvccCounters.v ===== *)
(** * The counters of the store

    No action sets back the clock or the counter of transaction ids; so once a number no longer fits
    the word that is to hold it, this stays so. *)
From stdpp Require Import gmap relations.
From S2P Require Import Prelude Errors Effects Mvcc Threads MvccSession.

Definition ahead (w w' : MvStore) : Prop := clock w <= clock w' /\ tx_ids w <= tx_ids w'.

#[export] Instance ahead_preorder : PreOrder ahead.
Proof. split; [by split|]. intros w1 w2 w3 [? ?] [? ?]. split; lia. Qed.

Definition grows {A} (m : MvM A) : Prop := forall w, ahead w (m w).2.

Create HintDb mvcc_grows.

(** ** Actions *)
Lemma grows_bind {A B} (m : MvM A) (k : A -> MvM B) : grows m -> (forall x, grows (k x)) -> grows (m ≫= k).
Proof.
  intros Hm Hk w. specialize (Hm w). unfold mbind, sm_bind. destruct (m w) as [[x| |e|] w']; simpl in *; [|done..].
  etrans; [exact Hm|apply Hk].
Qed.
Lemma grows_still {A} (m : MvM A) : (forall w, (m w).2 = w) -> grows m.
Proof. intros Hm w. by rewrite Hm. Qed.
Lemma grows_modifies (f : MvStore -> MvStore) : (forall w, ahead w (f w)) -> grows (modifies f).
Proof. intros Hf w. apply Hf. Qed.

Lemma grows_ret {A} (x : A) : grows (mret x).
Proof. by apply grows_still. Qed.
Lemma grows_gets {A} (f : MvStore -> A) : grows (gets f).
Proof. by apply grows_still. Qed.
Lemma grows_fails {A} e : grows (fails e : MvM A).
Proof. by apply grows_still. Qed.
Lemma grows_crashes {A} : grows (crashes : MvM A).
Proof. by apply grows_still. Qed.
Lemma grows_on_tx id f : grows (on_tx id f).
Proof. by apply grows_modifies. Qed.
Lemma grows_timestamp {A} (f : Z -> MvM A) : (forall ts, grows (f ts)) -> grows (get_timestamp f).
Proof.
  intros Hf w. unfold get_timestamp, mbind, sm_bind. simpl. etrans; [|apply Hf]. split; simpl; lia.
Qed.
#[export] Hint Resolve grows_ret grows_gets grows_fails grows_crashes grows_on_tx : mvcc_grows.

(** One action after the other, and every branch. *)
Ltac grow :=
  repeat first
    [ progress intros
    | solve [auto with mvcc_grows]
    | match goal with |- grows (get_timestamp _) => apply grows_timestamp end
    | apply grows_bind
    | apply grows_modifies; split; simpl; lia
    | match goal with |- grows (match ?x with _ => _ end) => destruct x end
    | match goal with |- grows (let _ := _ in _) => cbv zeta end ].

Lemma grows_assert b : grows (turso_assert b).
Proof. unfold turso_assert. grow. Qed.
Lemma grows_unwrap {A} (o : option A) : grows (unwrap o).
Proof. unfold unwrap. grow. Qed.
Lemma grows_packed x : grows (packed x).
Proof. unfold packed. grow. Qed.
Lemma grows_store_state id s : grows (store_state id s).
Proof. unfold store_state. grow. Qed.
Lemma grows_find_tx id : grows (find_tx id).
Proof. unfold find_tx. grow. Qed.
#[export] Hint Resolve grows_assert grows_unwrap grows_packed grows_store_state grows_find_tx : mvcc_grows.

Lemma grows_tx_id : grows get_tx_id.
Proof. unfold get_tx_id. intros w. split; simpl; lia. Qed.
Lemma grows_draw : grows draw_tx_id.
Proof. unfold draw_tx_id. apply grows_bind; [apply grows_tx_id|grow]. Qed.
Lemma grows_version_id : grows get_version_id.
Proof. unfold get_version_id. grow. Qed.
Lemma grows_set_chain key vs : grows (set_chain key vs).
Proof. unfold set_chain. grow. Qed.
Lemma grows_active_tx id : grows (active_tx id).
Proof. unfold active_tx. grow. Qed.
Lemma grows_committing_tx id : grows (committing_tx id).
Proof. unfold committing_tx. grow. Qed.
#[export] Hint Resolve grows_tx_id grows_draw grows_version_id grows_set_chain grows_active_tx grows_committing_tx : mvcc_grows.

Lemma grows_finalized id : grows (lookup_finalized_tx_state id).
Proof. unfold lookup_finalized_tx_state. grow. Qed.
Lemma grows_register t id : grows (register_commit_dependency t id).
Proof. unfold register_commit_dependency. grow. Qed.
#[export] Hint Resolve grows_finalized grows_register : mvcc_grows.

Lemma grows_visible t v : grows (is_visible_to t v).
Proof. unfold is_visible_to, is_begin_visible, is_end_visible. grow. Qed.
#[export] Hint Resolve grows_visible : mvcc_grows.
Lemma grows_invalidating t v : grows (is_btree_invalidating_version t v).
Proof. unfold is_btree_invalidating_version. grow. Qed.
Lemma grows_conflict t v : grows (is_write_write_conflict t v).
Proof. unfold is_write_write_conflict. grow. Qed.
#[export] Hint Resolve grows_invalidating grows_conflict : mvcc_grows.

Lemma grows_find_visible t vs : grows (find_visible t vs).
Proof. induction vs; simpl; grow. Qed.
Lemma grows_any_invalidating t vs : grows (any_invalidating t vs).
Proof. induction vs; simpl; grow. Qed.
Lemma grows_covers readable t table vs : grows (btree_covers_chain_for_tx readable t table vs).
Proof. unfold btree_covers_chain_for_tx, chain_is_write_buffer_for. grow. Qed.
#[export] Hint Resolve grows_find_visible grows_any_invalidating grows_covers : mvcc_grows.

Lemma grows_read readable id key : grows (read_from_table readable id key).
Proof. unfold read_from_table, skipmap_row_while_uncovered. grow. Qed.
Lemma grows_find_last readable id key : grows (find_last_visible_version readable id key).
Proof. unfold find_last_visible_version. grow. Qed.
Lemma grows_valid readable key id : grows (query_btree_version_is_valid readable key id).
Proof. unfold query_btree_version_is_valid. grow. Qed.
#[export] Hint Resolve grows_read grows_find_last grows_valid : mvcc_grows.

Lemma grows_resolve x : grows (resolve_begin_timestamp x).
Proof. unfold resolve_begin_timestamp. grow. Qed.
#[export] Hint Resolve grows_resolve : mvcc_grows.
Lemma grows_insert_raw vs v : grows (insert_version_raw vs v).
Proof. unfold insert_version_raw. generalize (reverse vs). intros l. apply grows_bind; [|grow]. induction l; simpl; grow. Qed.
Lemma grows_write_set id key : grows (insert_to_write_set id key).
Proof. unfold insert_to_write_set. grow. Qed.
#[export] Hint Resolve grows_insert_raw grows_write_set : mvcc_grows.
Lemma grows_insert resident id row : grows (insert_row resident id row).
Proof. unfold insert_row, insert_version. grow. Qed.
Lemma grows_delete_visible t vs : grows (delete_visible t vs).
Proof. induction vs; simpl; grow. Qed.
#[export] Hint Resolve grows_insert grows_delete_visible : mvcc_grows.
Lemma grows_delete id key record : grows (delete_from_table id key record).
Proof. unfold delete_from_table, insert_tombstone. grow. Qed.
#[export] Hint Resolve grows_delete : mvcc_grows.

Lemma grows_begin stale id mark : grows (begin_tx stale id mark).
Proof. unfold begin_tx. grow. Qed.
Lemma grows_prepare ec sc id : grows (prepare_tx ec sc id).
Proof. unfold prepare_tx. grow. Qed.
Lemma grows_sample : grows sample_gc_lwm.
Proof. unfold sample_gc_lwm. grow. Qed.
#[export] Hint Resolve grows_begin grows_prepare grows_sample : mvcc_grows.

Lemma grows_check_begin end_ts t v : grows (check_begin end_ts t v).
Proof. unfold check_begin, state_conflict. grow. Qed.
#[export] Hint Resolve grows_check_begin : mvcc_grows.
Lemma grows_check_conflict end_ts t v : grows (check_version_conflict end_ts t v).
Proof. unfold check_version_conflict, state_conflict. grow. Qed.
#[export] Hint Resolve grows_check_conflict : mvcc_grows.
Lemma grows_check_conflicts key end_ts id : grows (check_rowid_for_conflicts key end_ts id).
Proof.
  assert (forall t vs, grows (check_version_conflicts end_ts t vs)) as H by (intros t vs; induction vs; simpl; grow).
  unfold check_rowid_for_conflicts. grow.
Qed.
#[export] Hint Resolve grows_check_conflicts : mvcc_grows.

Lemma grows_load id : grows (load_write_set id).
Proof. unfold load_write_set. grow. Qed.
Lemma grows_no_dependents id : grows (check_no_dependents id).
Proof. unfold check_no_dependents. grow. Qed.
Lemma grows_abort_now id : grows (check_abort_now id).
Proof. unfold check_abort_now. grow. Qed.
Lemma grows_has_dependencies id : grows (has_dependencies id).
Proof. unfold has_dependencies. grow. Qed.
Lemma grows_commit_end id end_ts : grows (commit_end id end_ts).
Proof. unfold commit_end. grow. Qed.
Lemma grows_check_committed id end_ts : grows (check_committed id end_ts).
Proof. unfold check_committed. grow. Qed.
Lemma grows_rewrite id end_ts key : grows (rewrite_live_versions id end_ts key).
Proof. unfold rewrite_live_versions. grow. Qed.
Lemma grows_take_dependents id : grows (take_dependents id).
Proof. unfold take_dependents. grow. Qed.
Lemma grows_decrement id : grows (decrement_dependent id).
Proof. apply grows_on_tx. Qed.
Lemma grows_abort_dependent id : grows (abort_dependent id).
Proof. apply grows_on_tx. Qed.
Lemma grows_log_record id : grows (own_logical_log_record id).
Proof. apply grows_on_tx. Qed.
Lemma grows_terminate id : grows (terminate_tx id).
Proof. apply grows_store_state. Qed.
Lemma grows_finalize id : grows (finalize_tx id).
Proof. unfold finalize_tx. grow. Qed.
Lemma grows_leave id : grows (leave_txs id).
Proof. unfold leave_txs. grow. Qed.
Lemma grows_abort id : grows (abort_tx id).
Proof. unfold abort_tx. grow. Qed.
Lemma grows_rollback_row id key : grows (rollback_row id key).
Proof. unfold rollback_row. grow. Qed.
Lemma grows_take_write_set id : grows (take_write_set id).
Proof. unfold take_write_set. grow. Qed.
Lemma grows_gc_row key lwm mark : grows (gc_row key lwm mark).
Proof. unfold gc_row, gc_chain_now. grow. Qed.
Lemma grows_cleanup id : grows (cleanup_dropped_commit id).
Proof. unfold cleanup_dropped_commit. grow. Qed.
#[export] Hint Resolve grows_load grows_no_dependents grows_abort_now grows_has_dependencies grows_commit_end grows_check_committed
  grows_rewrite grows_take_dependents grows_decrement grows_abort_dependent grows_log_record grows_terminate grows_finalize grows_leave grows_abort grows_rollback_row grows_take_write_set grows_gc_row
  grows_cleanup : mvcc_grows.

(** ** Programs *)
Fixpoint climbs {A} (p : prog world A) : Prop :=
  match p with
  | Ret _ => True
  | Atomic f k => (forall b s x s', f b s = Ok (x, s') -> ahead (mv s) (mv s')) /\ forall x, climbs (k x)
  end.

Lemma climbs_ret {A} (a : A) : climbs (mret a).
Proof. done. Qed.
Lemma climbs_bind {A B} (m : prog world A) (k : A -> prog world B) : climbs m -> (forall x, climbs (k x)) -> climbs (m ≫= k).
Proof. induction m as [a|X f j IH]; [by intros _ Hk; apply Hk|]. intros [Hf Hj] Hk. split; [exact Hf|]. intros x. by apply IH. Qed.
Lemma climbs_then {A B} (m : prog world (poll A)) (k : A -> prog world (poll B)) : climbs m -> (forall x, climbs (k x)) -> climbs (then_ m k).
Proof. intros Hm Hk. apply climbs_bind; [done|]. by intros []. Qed.
Lemma climbs_act {A} (m : MvM A) : grows m -> climbs (act m).
Proof.
  intros Hm. split; [|done]. intros _ s x s'. specialize (Hm (mv s)). by destruct (m (mv s)) as [[] w]; intros [= <- <-].
Qed.
Lemma climbs_act_as {A} id ops (m : MvM A) : grows m -> climbs (act_as id ops m).
Proof.
  intros Hm. split; [|done]. intros _ s x s'. specialize (Hm (mv s)). by destruct (m (mv s)) as [[] w]; intros [= <- <-].
Qed.
Lemma climbs_yields : climbs yields.
Proof. split; [|done]. by intros b s x s' [= <- <-]. Qed.

Lemma climbs_done {A} (x : A) : climbs (MvccSession.done x).
Proof. done. Qed.

Create HintDb mvcc_climbs.
#[export] Hint Resolve climbs_ret climbs_done climbs_yields : mvcc_climbs.
Ltac climb :=
  repeat first
    [ progress intros
    | solve [auto with mvcc_climbs]
    | apply climbs_act; solve [grow]
    | apply climbs_act_as; solve [grow]
    | apply climbs_then
    | apply climbs_bind
    | match goal with |- climbs (match ?x with _ => _ end) => destruct x end ].

Lemma climbs_rewrite_each id end_ts keys : climbs (rewrite_each id end_ts keys).
Proof. induction keys; cbn [rewrite_each]; climb. Qed.
Lemma climbs_notify_each ds : climbs (notify_each ds).
Proof. induction ds; cbn [notify_each]; climb. Qed.
Lemma climbs_abort_each ds : climbs (abort_each ds).
Proof. induction ds; cbn [abort_each]; climb. Qed.
Lemma climbs_rollback_each id keys : climbs (rollback_each id keys).
Proof. induction keys; cbn [rollback_each]; climb. Qed.
Lemma climbs_validate_each id end_ts keys : climbs (validate_each id end_ts keys).
Proof. induction keys; cbn [validate_each]; climb. Qed.
Lemma climbs_step_rewrite id end_ts keys : climbs (step_rewrite_live_versions id end_ts keys).
Proof. induction keys; cbn [step_rewrite_live_versions]; climb. Qed.
Lemma climbs_gc_each keys lwm mark : climbs (gc_each keys lwm mark).
Proof. induction keys; cbn [gc_each]; climb. Qed.
#[export] Hint Resolve climbs_rewrite_each climbs_notify_each climbs_abort_each climbs_rollback_each climbs_validate_each
  climbs_step_rewrite climbs_gc_each : mvcc_climbs.

Lemma climbs_removes id : climbs (removes id).
Proof. unfold removes. climb. Qed.
#[export] Hint Resolve climbs_removes : mvcc_climbs.
Lemma climbs_notify_remove id : climbs (notify_and_remove id).
Proof. unfold notify_and_remove. climb. Qed.
#[export] Hint Resolve climbs_notify_remove : mvcc_climbs.
Lemma climbs_rollback id : climbs (rollback_tx_inner id).
Proof. unfold rollback_tx_inner. climb. Qed.
#[export] Hint Resolve climbs_rollback : mvcc_climbs.
Lemma climbs_drop id ops : climbs (drop_commit id ops).
Proof. unfold drop_commit, finish_committed. climb. Qed.
Lemma climbs_log id end_ts ops : climbs (log_and_finish id end_ts ops).
Proof. unfold log_and_finish. climb. Qed.
Lemma climbs_read_only id end_ts ops : climbs (commit_read_only id end_ts ops).
Proof. unfold commit_read_only. climb. Qed.
#[export] Hint Resolve climbs_drop climbs_log climbs_read_only : mvcc_climbs.
Lemma climbs_wait id end_ts ops : climbs (wait_for_dependencies id end_ts ops).
Proof. unfold wait_for_dependencies. climb. Qed.
#[export] Hint Resolve climbs_wait : mvcc_climbs.
Lemma climbs_validate id end_ts ops : climbs (validate id end_ts ops).
Proof. unfold validate. climb. Qed.
#[export] Hint Resolve climbs_validate : mvcc_climbs.

Section Requests.
Context (is_btree_readable_at : Z -> Z -> WalPos -> bool) (btree : Z -> option (Z -> option Row)).

Lemma climbs_exists id key : climbs (exists_ is_btree_readable_at btree id key).
Proof. unfold exists_. climb. Qed.
#[local] Hint Resolve climbs_exists : mvcc_climbs.
Lemma climbs_get id key : climbs (get_row is_btree_readable_at btree id key).
Proof. unfold get_row, current_row. climb. Qed.
Lemma climbs_put id row positioned : climbs (put_row is_btree_readable_at btree id row positioned).
Proof. unfold put_row, cursor_insert, update_to_table, insert_to_table, insert_btree_resident_to_table. climb. Qed.
Lemma climbs_delete id key : climbs (delete_row is_btree_readable_at btree id key).
Proof. unfold delete_row, cursor_delete. climb. Qed.
#[local] Hint Resolve climbs_get climbs_put climbs_delete : mvcc_climbs.

Lemma climbs_serve r c : climbs (serve is_btree_readable_at btree r c).
Proof. destruct c, r; unfold serve, begin_, in_tx, ends, commits; climb. Qed.

(** ** Runs *)
#[local] Abbreviation starts := (op_starts request_ok (serve is_btree_readable_at btree)).

Definition climbing (t : thread (S := world) (L := conn)) : Prop :=
  match t with
  | Running p => climbs p
  | _ => True
  end.

Lemma step_ahead c c' : any_step starts c c' -> Forall climbing (cf_threads c) ->
  ahead (mv (cf_state c)) (mv (cf_state c')) /\ Forall climbing (cf_threads c').
Proof.
  intros [i Hi] Hc. destruct Hi as [s ts l p Ht (o & _ & ->)|s ts l Ht|s ts X f k b x s' Ht Hf|s ts X f k b Ht Hf]; simpl in *.
  - split; [done|]. apply Forall_insert; [done|]. apply climbs_serve.
  - split; [done|]. by apply Forall_insert.
  - destruct (proj1 (Forall_lookup _ _) Hc i _ Ht) as [Hs Hk]. split; [by eapply Hs|]. apply Forall_insert; [done|]. apply Hk.
  - split; [done|]. by apply Forall_insert.
Qed.

Lemma steps_climbing c c' : rtc (any_step starts) c c' -> Forall climbing (cf_threads c) -> Forall climbing (cf_threads c').
Proof. induction 1 as [|c1 c2 c3 Hst _ IH]; intros Hc; [done|]. by apply IH, (step_ahead c1 c2). Qed.
End Requests.
