(* ===== verification/MvccGhost.v ===== *)
(** * The invariant of the version store

    The history [hist] remembers of each transaction its times, its fate and what it has written.
    Which of the open transactions will commit is not known: the invariant speaks of every set
    [S] of transactions that may still turn out to be the committed ones.  Such a set is
    [plausible] when it has the committed transactions, none that is to abort, and with each
    transaction those it depends on; it is [consistent] when besides no two of its
    transactions have written a row concurrently.  Steps of the store only make sets implausible,
    so what was read holds for all the sets that remain, and at the end for the one of the
    committed transactions. *)
From stdpp Require Import gmap functions.
From S2P Require Import Prelude Errors Effects Mvcc Threads MvccSession.

(** ** The history *)
Inductive fate := Undecided | Kept | Undone.
#[export] Instance fate_eq_dec : EqDecision fate.
Proof. solve_decision. Defined.

(** What a lookup has shown, until the transaction's next write. *)
Inductive know := KRow (key : RowID) (found : option Row) | KValid (key : RowID) (valid : bool).

(** [g_pending] has the writes of the statement under way; [g_checked] the rows validated;
    [g_settled] and [g_safe] that no dependency is left and that none has aborted; [g_refs] the
    rows whose chains may name the transaction by its id; [g_notify] the dependents that were
    taken and not yet notified; [g_listed] that the write set still lists the rows; [g_gone] that
    the transaction has left the table; [g_told] the dependents that were told to abort. *)
Record gtx := mkG {
  g_begin : Z;
  g_end : option Z;
  g_fate : fate;
  g_writes : gmap RowID (option Row);
  g_ops : list op;
  g_pending : gmap RowID (option Row);
  g_know : list know;
  g_checked : gset RowID;
  g_settled : bool;
  g_safe : bool;
  g_refs : gset RowID;
  g_taken : bool;
  g_notify : gset Z;
  g_listed : bool;
  g_gone : bool;
  g_told : gset Z
}.

Definition unborn : gtx := mkG (-1) None Undecided ∅ [] ∅ [] ∅ false false ∅ false ∅ true false ∅.
Definition born (ts : Z) : gtx := mkG ts None Undecided ∅ [] ∅ [] ∅ false false ∅ false ∅ true false ∅.

Definition g_write (k : RowID) (v : option Row) (g : gtx) : gtx :=
  mkG (g_begin g) (g_end g) (g_fate g) (<[k := v]> (g_writes g)) (g_ops g) (<[k := v]> (g_pending g)) []
    (g_checked g) (g_settled g) (g_safe g) ({[ k ]} ∪ g_refs g) (g_taken g) (g_notify g) (g_listed g) (g_gone g) (g_told g).
Definition g_learn (f : know) (g : gtx) : gtx :=
  mkG (g_begin g) (g_end g) (g_fate g) (g_writes g) (g_ops g) (g_pending g) (f :: g_know g)
    (g_checked g) (g_settled g) (g_safe g) (g_refs g) (g_taken g) (g_notify g) (g_listed g) (g_gone g) (g_told g).
Definition g_did (o : op) (g : gtx) : gtx :=
  mkG (g_begin g) (g_end g) (g_fate g) (g_writes g) (g_ops g ++ [o]) ∅ []
    (g_checked g) (g_settled g) (g_safe g) (g_refs g) (g_taken g) (g_notify g) (g_listed g) (g_gone g) (g_told g).
Definition g_prepare (e : Z) (g : gtx) : gtx :=
  mkG (g_begin g) (Some e) (g_fate g) (g_writes g) (g_ops g) (g_pending g) (g_know g)
    (g_checked g) (g_settled g) (g_safe g) (g_refs g) (g_taken g) (g_notify g) (g_listed g) (g_gone g) (g_told g).
Definition g_check (k : RowID) (g : gtx) : gtx :=
  mkG (g_begin g) (g_end g) (g_fate g) (g_writes g) (g_ops g) (g_pending g) (g_know g)
    ({[ k ]} ∪ g_checked g) (g_settled g) (g_safe g) (g_refs g) (g_taken g) (g_notify g) (g_listed g) (g_gone g) (g_told g).
Definition g_settle (safe : bool) (g : gtx) : gtx :=
  mkG (g_begin g) (g_end g) (g_fate g) (g_writes g) (g_ops g) (g_pending g) (g_know g)
    (g_checked g) true (safe || g_safe g) (g_refs g) (g_taken g) (g_notify g) (g_listed g) (g_gone g) (g_told g).
Definition g_decide (f : fate) (g : gtx) : gtx :=
  mkG (g_begin g) (g_end g) f (g_writes g) (g_ops g) (g_pending g) (g_know g)
    (g_checked g) (g_settled g) (g_safe g) (g_refs g) (g_taken g) (g_notify g) (g_listed g) (g_gone g) (g_told g).
Definition g_unref (k : RowID) (g : gtx) : gtx :=
  mkG (g_begin g) (g_end g) (g_fate g) (g_writes g) (g_ops g) (g_pending g) (g_know g)
    (g_checked g) (g_settled g) (g_safe g) (g_refs g ∖ {[ k ]}) (g_taken g) (g_notify g) (g_listed g) (g_gone g) (g_told g).
Definition g_tell (taken : bool) (notify : gset Z) (g : gtx) : gtx :=
  mkG (g_begin g) (g_end g) (g_fate g) (g_writes g) (g_ops g) (g_pending g) (g_know g)
    (g_checked g) (g_settled g) (g_safe g) (g_refs g) taken notify (g_listed g) (g_gone g) (g_told g).

Definition g_unlist (g : gtx) : gtx :=
  mkG (g_begin g) (g_end g) (g_fate g) (g_writes g) (g_ops g) (g_pending g) (g_know g)
    (g_checked g) (g_settled g) (g_safe g) (g_refs g) (g_taken g) (g_notify g) false (g_gone g) (g_told g).

Definition g_leave (g : gtx) : gtx :=
  mkG (g_begin g) (g_end g) (g_fate g) (g_writes g) (g_ops g) (g_pending g) (g_know g)
    (g_checked g) (g_settled g) (g_safe g) (g_refs g) (g_taken g) (g_notify g) (g_listed g) true (g_told g).

Definition g_dooms (d : Z) (g : gtx) : gtx :=
  mkG (g_begin g) (g_end g) (g_fate g) (g_writes g) (g_ops g) (g_pending g) (g_know g)
    (g_checked g) (g_settled g) (g_safe g) (g_refs g) (g_taken g) (g_notify g) (g_listed g) (g_gone g) ({[ d ]} ∪ g_told g).

Record hist := mkHist { hx : Z -> gtx; floor : Z }.
Definition upd (h : hist) (T : Z) (g : gtx) : hist := mkHist (<[T := g]> (hx h)) (floor h).

Definition begun (g : gtx) : Prop := 0 <= g_begin g.
Definition wrote (h : hist) (W : Z) (k : RowID) : Prop := is_Some (g_writes (hx h W) !! k).

(** [W] ends before [T] begins. *)
Definition prec (h : hist) (W T : Z) : Prop := exists e, g_end (hx h W) = Some e /\ e < g_begin (hx h T).

Definition names (h : hist) (x : option TxTimestampOrID) (T : Z) : Prop :=
  x = Some (TxID T) \/ exists e, x = Some (Timestamp e) /\ g_end (hx h T) = Some e.
Definition live (h : hist) (W : Z) (v : RowVersion) : Prop := names h (rv_begin v) W /\ ~ names h (rv_end v) W.

#[export] Instance names_dec h x T : Decision (names h x T).
Proof.
  unfold names. destruct x as [[e|X]|].
  - destruct (decide (g_end (hx h T) = Some e)); [left; eauto|right; by intros [?|(? & ? & ?)]; simplify_eq].
  - destruct (decide (X = T)) as [->|]; [by left; left|right; by intros [?|(? & ? & ?)]; simplify_eq].
  - right. by intros [?|(? & ? & ?)].
Defined.
#[export] Instance live_dec h W v : Decision (live h W v).
Proof. unfold live. apply _. Defined.

Definition chain (w : MvStore) (k : RowID) : list RowVersion := default [] (rows w !! k).

(** ** The transactions that may commit *)
Definition deps (h : hist) (w : MvStore) (X : Z) : gset Z :=
  default ∅ (tx_commit_dep_set <$> txs w !! X) ∪ g_notify (hx h X).
Definition doomed (h : hist) (w : MvStore) (T : Z) : Prop :=
  g_fate (hx h T) = Undone \/ exists t, txs w !! T = Some t /\ tx_abort_now t = true.

Record plausible (h : hist) (w : MvStore) (S : gset Z) : Prop := {
  pl_kept : forall T, g_fate (hx h T) = Kept -> T ∈ S;
  pl_doomed : forall T, doomed h w T -> T ∉ S;
  pl_deps : forall T X, T ∈ S -> T ∈ deps h w X -> X ∈ S
}.

Record consistent (h : hist) (w : MvStore) (S : gset Z) : Prop := {
  co_plausible : plausible h w S;
  co_apart : forall T W k, T ∈ S -> W ∈ S -> T <> W -> wrote h T k -> wrote h W k -> prec h T W \/ prec h W T
}.

(** The last writer of a row in [S] before [T] begins. *)
Definition before (h : hist) (S : gset Z) (T : Z) (k : RowID) (W : Z) : Prop := W ∈ S /\ wrote h W k /\ prec h W T.
Definition last (h : hist) (S : gset Z) (T : Z) (k : RowID) (W : Z) : Prop :=
  before h S T k W /\ forall W', before h S T k W' -> W' = W \/ prec h W' W.

Section Facts.
Context (base : RowID -> option Row).

(** The row in the snapshot of [T]. *)
Definition snap_is (h : hist) (S : gset Z) (T : Z) (k : RowID) (v : option Row) : Prop :=
  (exists W, last h S T k W /\ g_writes (hx h W) !! k = Some v) \/ ((forall W, ~ before h S T k W) /\ v = base k).

Fixpoint reads_are (P : RowID -> option Row -> Prop) (own : gmap RowID (option Row)) (ops : list op) : Prop :=
  match ops with
  | [] => True
  | o :: ops =>
      match o with
      | Read k v => match own !! k with Some v' => v = v' | None => P k v end
      | Write _ _ => True
      end /\ reads_are P (apply_op own o) ops
  end.

Definition know_ok (h : hist) (S : gset Z) (T : Z) (f : know) : Prop :=
  match f with
  | KRow k o =>
      match g_writes (hx h T) !! k with
      | Some v => o = v
      | None =>
          match o with
          | Some r => exists W, last h S T k W /\ g_writes (hx h W) !! k = Some (Some r)
          | None => forall W, last h S T k W -> g_writes (hx h W) !! k = Some None
          end
      end
  | KValid k b => base k <> None -> (b = false <-> wrote h T k \/ exists W, before h S T k W)
  end.

Record tx_facts (h : hist) (S : gset Z) (T : Z) : Prop := {
  tf_writes : g_writes (hx h T) = g_pending (hx h T) ∪ own_writes (g_ops (hx h T));
  tf_reads : reads_are (snap_is h S T) ∅ (g_ops (hx h T));
  tf_know : Forall (know_ok h S T) (g_know (hx h T))
}.

(** ** Chains *)
Record ref_ok (h : hist) (w : MvStore) (k : RowID) (v : RowVersion) : Prop := {
  ro_id : forall T, rv_begin v = Some (TxID T) \/ rv_end v = Some (TxID T) -> is_Some (txs w !! T) /\ k ∈ g_refs (hx h T);
  ro_ts : forall e, rv_begin v = Some (Timestamp e) \/ rv_end v = Some (Timestamp e) ->
    exists T, g_end (hx h T) = Some e /\ g_fate (hx h T) = Kept;
  ro_wrote : forall T, names h (rv_begin v) T \/ names h (rv_end v) T -> wrote h T k;
  ro_own : forall T, rv_begin v = Some (TxID T) -> g_end (hx h T) = None -> rv_end v = None \/ rv_end v = Some (TxID T);
  ro_mat : rv_materialized_at v = ORIGIN
}.

(** Who has ended a version was able to see it; who has written a row has left a trace in its
    chain, unless all that are still open begin later. *)
Record facts_p (h : hist) (k : RowID) (vs : list RowVersion) (S : gset Z) : Prop := {
  fp_ended : forall v C X, v ∈ vs -> names h (rv_begin v) C -> names h (rv_end v) X -> X ∈ S -> X <> C -> C ∈ S /\ prec h C X;
  fp_trace : forall W, W ∈ S -> wrote h W k ->
    (exists v, v ∈ vs /\ (names h (rv_begin v) W \/ names h (rv_end v) W)) \/
    (exists e, g_end (hx h W) = Some e /\ e <= floor h)
}.

Record facts_c (h : hist) (k : RowID) (vs : list RowVersion) (S : gset Z) : Prop := {
  fc_live : forall W r, W ∈ S -> g_writes (hx h W) !! k = Some (Some r) ->
    (exists v, v ∈ vs /\ live h W v /\ rv_row v = r) \/
    (exists Y e, Y ∈ S /\ wrote h Y k /\ g_end (hx h Y) = Some e /\ e <= floor h /\ prec h W Y);
  fc_row : forall W v, W ∈ S -> v ∈ vs -> live h W v -> g_writes (hx h W) !! k = Some (Some (rv_row v));
  fc_one : forall W, W ∈ S -> (length (filter (live h W) vs) <= 1)%nat;
  fc_over : forall W X v, W ∈ S -> X ∈ S -> v ∈ vs -> live h W v -> wrote h X k -> prec h W X ->
    exists Y, Y ∈ S /\ names h (rv_end v) Y /\ (Y = X \/ prec h Y X);
  fc_first : forall W, base k <> None -> W ∈ S -> wrote h W k ->
    exists v W', v ∈ vs /\ rv_btree_resident v = true /\ W' ∈ S /\
      (names h (rv_begin v) W' \/ rv_begin v = None /\ names h (rv_end v) W') /\ (W' = W \/ prec h W' W)
}.

(** ** The store *)
Record times_ok (h : hist) (w : MvStore) : Prop := {
  ti_clock : 0 <= clock w;
  ti_unborn : forall T, ~ begun (hx h T) -> hx h T = unborn;
  ti_begin : forall T, begun (hx h T) -> g_begin (hx h T) < clock w /\ 0 <= T < tx_ids w /\ T <= VALUE_MASK;
  ti_end : forall T e, g_end (hx h T) = Some e -> begun (hx h T) /\ g_begin (hx h T) < e < clock w;
  ti_end_inj : forall T W e, g_end (hx h T) = Some e -> g_end (hx h W) = Some e -> T = W;
  ti_apart : forall T W, begun (hx h T) -> g_end (hx h W) <> Some (g_begin (hx h T));
  ti_floor : floor h < clock w;
  ti_open : forall T, begun (hx h T) -> g_fate (hx h T) = Undecided -> floor h <= g_begin (hx h T)
}.

Definition state_ok (g : gtx) (s : TransactionState) : Prop :=
  match s with
  | Active => g_fate g = Undecided /\ g_end g = None
  | Preparing e => g_fate g = Undecided /\ g_end g = Some e
  | Committed e => g_fate g = Kept /\ g_end g = Some e
  | Aborted | Terminated => g_fate g = Undone
  end.

(** Nothing is left to do before the transaction may commit. *)
Definition cleared (g : gtx) : Prop := g_safe g = true /\ dom (g_writes g) ⊆ g_checked g /\ g_pending g = ∅.

Record entry_ok (g : gtx) (T : Z) (t : Transaction) : Prop := {
  en_begun : begun g;
  en_here : g_gone g = false;
  en_id : tx_id t = T;
  en_begin : tx_begin_ts t = g_begin g;
  en_state : state_ok g (tx_state t);
  en_writes : g_listed g = true -> (list_to_set (tx_write_set t) : gset RowID) = dom (g_writes g);
  en_taken : g_taken g = true -> tx_commit_dep_set t = ∅;
  en_deps : tx_commit_dep_set t <> ∅ -> g_writes g <> ∅;
  en_logged : tx_log_appended t = true -> cleared g;
  en_abort : g_safe g = true -> tx_abort_now t = false
}.

Definition tx_ok (g : gtx) (T : Z) (t : option Transaction) : Prop :=
  match t with
  | Some t => entry_ok g T t
  | None => (begun g -> g_gone g = true) /\ g_refs g = ∅ /\ g_notify g = ∅
  end.

Record ghost_ok (g : gtx) : Prop := {
  gh_refs : g_refs g ⊆ dom (g_writes g);
  gh_taken : g_taken g = true -> g_fate g <> Undecided;
  gh_notify : g_notify g <> ∅ -> g_taken g = true;
  gh_kept : g_fate g = Kept -> cleared g /\ is_Some (g_end g);
  gh_settled : g_settled g = true -> is_Some (g_end g);
  gh_safe : g_safe g = true -> g_settled g = true;
  gh_checked : g_checked g <> ∅ -> is_Some (g_end g);
  gh_listed : g_listed g = false -> g_fate g = Undone;
  gh_gone : g_gone g = true -> g_fate g <> Undecided;
  gh_word : forall e, g_end g = Some e -> 0 <= e <= VALUE_MASK
}.

Record deps_ok (h : hist) (w : MvStore) : Prop := {
  de_count : forall T t, txs w !! T = Some t ->
    exists D : gset Z, (forall X, X ∈ D <-> T ∈ deps h w X) /\ tx_commit_dep_counter t = Z.of_nat (size D);
  de_edge : forall T X, T ∈ deps h w X -> begun (hx h T) /\ prec h X T /\ g_settled (hx h T) = false;
  de_told : forall T d, d ∈ g_told (hx h T) -> doomed h w d
}.

Record store_ok (h : hist) (w : MvStore) : Prop := {
  so_times : times_ok h w;
  so_ghost : forall T, ghost_ok (hx h T);
  so_tx : forall T, tx_ok (hx h T) T (txs w !! T);
  so_deps : deps_ok h w;
  so_fin : forall T s, finalized_tx_states w !! T = Some s -> exists e, s = Committed e;
  so_refs : forall k v, v ∈ chain w k -> ref_ok h w k v;
  so_p : forall S k, plausible h w S -> facts_p h k (chain w k) S;
  so_c : forall S k, consistent h w S -> facts_c h k (chain w k) S;
  so_t : forall S T, consistent h w S -> T ∈ S -> tx_facts h S T;
  so_v : forall S T W k e e', plausible h w S -> T ∈ S -> W ∈ S -> k ∈ g_checked (hx h T) -> wrote h W k ->
    g_end (hx h W) = Some e -> g_end (hx h T) = Some e' -> e < e' -> prec h W T;
  so_ckpt : durable_txid_max w = 0
}.

(** ** The threads *)

(** A connection owns the history of its transaction. *)
Inductive owned := Free | Owns (T : Z) (g : gtx) | Collects (lwm : Z).

Record journal_ok (h : hist) (log : list committed_tx) : Prop := {
  jo_kept : forall T, g_fate (hx h T) = Kept <-> exists c, c ∈ log /\ ct_id c = T;
  jo_same : forall c, c ∈ log -> g_begin (hx h (ct_id c)) = ct_begin c /\ g_end (hx h (ct_id c)) = Some (ct_end c) /\
    g_ops (hx h (ct_id c)) = ct_ops c;
  jo_once : forall c c', c ∈ log -> c' ∈ log -> ct_id c = ct_id c' -> c = c'
}.

Definition owned_ok (h : hist) (w : MvStore) (o : owned) : Prop :=
  match o with
  | Free => True
  | Owns T g => hx h T = g /\ 0 <= T < tx_ids w /\ T <= VALUE_MASK
  | Collects lwm => lwm = U64_MAX \/ lwm <= floor h
  end.

Definition world_ok (h : hist) (gs : list owned) (s : world) : Prop :=
  store_ok h (mv s) /\ journal_ok h (journal s) /\ Forall (owned_ok h (mv s)) gs /\ 0 <= tx_ids (mv s) /\
  (forall i j T g g', gs !! i = Some (Owns T g) -> gs !! j = Some (Owns T g') -> i = j) /\
  (forall T, begun (hx h T) -> g_gone (hx h T) = false -> exists i g, gs !! i = Some (Owns T g)).
End Facts.
