(* ===== verification/MvccEvolve.v ===== *)
(** * What steps of the version store keep

    Between two states of the store [evolves] says that times stay, that new times are later than
    all others, and that the plausible sets become fewer.  What the invariant says of a chain
    that did not change, and of a transaction that did not act, is kept. *)
From stdpp Require Import gmap functions.
From S2P Require Import Prelude Errors Effects Mvcc Threads MvccSession MvccGhost.

Lemma filter_same {A} (P Q : A -> Prop) `{!forall x, Decision (P x), !forall x, Decision (Q x)} (l : list A) :
  (forall x, x ∈ l -> P x <-> Q x) -> filter P l = filter Q l.
Proof.
  induction l as [|x l IH]; intros HPQ; [done|]. rewrite !filter_cons, IH by (intros; apply HPQ; by right).
  pose proof (HPQ x ltac:(left)). destruct (decide (P x)), (decide (Q x)); tauto.
Qed.

Section Evolve.
Lemma hx_upd h T g : hx (upd h T g) T = g.
Proof. unfold upd. simpl. apply fn_lookup_insert. Qed.
Lemma hx_upd_ne h T g W : W <> T -> hx (upd h T g) W = hx h W.
Proof. intros H. unfold upd. simpl. by rewrite fn_lookup_insert_ne. Qed.

(** ** The order of transactions *)
Section Order.
Context {h : hist} {w : MvStore} (Ht : times_ok h w).

Lemma names_inj x T W : names h x T -> names h x W -> T = W.
Proof. intros [->|(e & -> & He)] [H|(e' & H & He')]; simplify_eq; try done. by eapply ti_end_inj. Qed.

Lemma prec_begun W T : prec h W T -> begun (hx h W) /\ begun (hx h T).
Proof. intros (e & He & Hl). pose proof (ti_end _ _ Ht _ _ He) as [? ?]. unfold begun in *. split; [done|lia]. Qed.

Lemma prec_trans A B C : prec h A B -> prec h B C -> prec h A C.
Proof. intros (e & He & Hl) (e' & He' & Hl'). pose proof (ti_end _ _ Ht _ _ He') as [? ?]. exists e. split; [done|lia]. Qed.

Lemma prec_irrefl A : ~ prec h A A.
Proof. intros (e & He & Hl). pose proof (ti_end _ _ Ht _ _ He) as [? ?]. lia. Qed.

Lemma prec_asym A B : prec h A B -> ~ prec h B A.
Proof. intros H1 H2. apply (prec_irrefl A). by eapply prec_trans. Qed.

Lemma wrote_begun W k : wrote h W k -> begun (hx h W).
Proof.
  intros [v Hv]. destruct (decide (0 <= g_begin (hx h W))) as [|Hn]; [done|].
  rewrite (ti_unborn _ _ Ht W Hn) in Hv. simpl in Hv. by rewrite lookup_empty in Hv.
Qed.

Lemma last_before S T k W : last h S T k W -> before h S T k W.
Proof. by intros [? _]. Qed.

Lemma last_unique S T k W W' : last h S T k W -> last h S T k W' -> W = W'.
Proof.
  intros [H1 H2] [H1' H2']. destruct (H2 W' H1') as [->|?]; [done|]. destruct (H2' W H1) as [->|?]; [done|].
  by destruct (prec_asym W W').
Qed.
End Order.

#[export] Instance wrote_dec h W k : Decision (wrote h W k).
Proof. unfold wrote. apply _. Defined.
#[export] Instance prec_dec h W T : Decision (prec h W T).
Proof.
  unfold prec. destruct (g_end (hx h W)) as [e|]; [|right; by intros (e & ? & ?)].
  destruct (decide (e < g_begin (hx h T))) as [|Hn]; [left; eauto|]. right. intros (e' & ? & ?). simplify_eq. lia.
Defined.
#[export] Instance before_dec h S T k W : Decision (before h S T k W).
Proof. unfold before. apply _. Defined.

(** If the row was written before, someone was the last to. *)
Lemma exists_last h w S T k W : times_ok h w -> consistent h w S -> before h S T k W -> exists L, last h S T k L.
Proof.
  intros Ht HS. cut (forall l, (forall W, W ∈ l -> before h S T k W) -> l <> [] ->
    exists L, L ∈ l /\ forall W', W' ∈ l -> W' = L \/ prec h W' L).
  { intros Hcut HW. destruct (Hcut (elements (filter (before h S T k) S))) as (L & HL & Hmax).
    - intros W'. rewrite elem_of_elements. set_solver.
    - intros Hnil. apply (elem_of_nil W). rewrite <- Hnil. rewrite elem_of_elements, elem_of_filter. by destruct HW.
    - rewrite elem_of_elements, elem_of_filter in HL. exists L. split; [tauto|]. intros W' HW'. apply Hmax.
      rewrite elem_of_elements, elem_of_filter. split; [done|]. by destruct HW'. }
  induction l as [|A l IH]; intros Hl Hne; [done|]. destruct (decide (l = [])) as [->|Hl'].
  { exists A. split; [left|]. intros W' HW'. left. set_solver. }
  destruct IH as (L & HL & Hmax); [set_solver|done|]. destruct (decide (A = L)) as [->|HAL].
  { exists L. split; [left|]. intros W' [->|HW']%elem_of_cons; auto. }
  destruct (Hl A) as (HA & HwA & _); [left|]. destruct (Hl L) as (HLS & HwL & _); [by right|].
  destruct (co_apart _ _ _ HS A L k) as [H|H]; [done..| |].
  - exists L. split; [by right|]. intros W' [->|HW']%elem_of_cons; auto.
  - exists A. split; [left|]. intros W' [->|HW']%elem_of_cons; [by left|]. right.
    destruct (Hmax W' HW') as [->|?]; [done|]. by eapply (prec_trans Ht).
Qed.

Context (base : RowID -> option Row).
#[local] Abbreviation snap_is := (snap_is base).
#[local] Abbreviation know_ok := (know_ok base).
#[local] Abbreviation tx_facts := (tx_facts base).
#[local] Abbreviation facts_c := (facts_c base).
#[local] Abbreviation store_ok := (store_ok base).

(** ** Steps *)
Record evolves (h : hist) (w : MvStore) (h' : hist) (w' : MvStore) : Prop := {
  ev_begin : forall T, begun (hx h T) -> g_begin (hx h' T) = g_begin (hx h T);
  ev_end : forall W e, g_end (hx h W) = Some e -> g_end (hx h' W) = Some e /\ g_writes (hx h' W) = g_writes (hx h W);
  ev_later : forall W e, g_end (hx h W) = None -> g_end (hx h' W) = Some e -> clock w <= e;
  ev_wrote : forall W k, wrote h W k -> wrote h' W k;
  ev_floor : floor h <= floor h';
  ev_kept : forall T, g_fate (hx h T) = Kept -> g_fate (hx h' T) = Kept;
  ev_plausible : forall S, plausible h' w' S -> plausible h w S
}.

Section Transport.
Context {h h' : hist} {w w' : MvStore}.
Context (Ht : times_ok h w) (Ht' : times_ok h' w') (Hev : evolves h w h' w').

Lemma prec_kept W T : begun (hx h T) -> prec h' W T <-> prec h W T.
Proof.
  intros HT. pose proof (ev_begin _ _ _ _ Hev T HT) as Hb. pose proof (ti_begin _ _ Ht T HT) as [Hc _].
  unfold prec. rewrite Hb. split; intros (e & He & Hl); exists e.
  - destruct (g_end (hx h W)) as [e0|] eqn:E.
    + destruct (ev_end _ _ _ _ Hev W e0 E) as [E' _]. rewrite E' in He. by simplify_eq.
    + pose proof (ev_later _ _ _ _ Hev W e E He). lia.
  - by destruct (ev_end _ _ _ _ Hev W e He) as [-> _].
Qed.

Lemma prec_writes W T : prec h W T -> g_writes (hx h' W) = g_writes (hx h W).
Proof. intros (e & He & _). by apply (ev_end _ _ _ _ Hev W e He). Qed.

Lemma before_kept S T k W : begun (hx h T) -> before h' S T k W <-> before h S T k W.
Proof.
  intros HT. unfold before. rewrite prec_kept by done.
  split; intros (? & Hw & Hp); (split; [done|]); (split; [|done]).
  - unfold wrote in *. by rewrite (prec_writes W T Hp) in Hw.
  - by apply (ev_wrote _ _ _ _ Hev).
Qed.

Lemma last_kept S T k W : begun (hx h T) -> last h' S T k W <-> last h S T k W.
Proof.
  intros HT. unfold last. rewrite before_kept by done.
  split; intros [HW H]; (split; [done|]); intros W' HW'.
  - apply (before_kept S T k W' HT) in HW'. destruct (H W' HW') as [->|Hp]; [by left|right].
    apply prec_kept; [|done]. by destruct HW as (_ & ?%(wrote_begun Ht) & _).
  - apply (before_kept S T k W' HT) in HW'. destruct (H W' HW') as [->|Hp]; [by left|right].
    apply prec_kept; [|done]. by destruct HW as (_ & ?%(wrote_begun Ht) & _).
Qed.

Lemma last_writes S T k W : last h S T k W -> g_writes (hx h' W) = g_writes (hx h W).
Proof. intros [(_ & _ & Hp) _]. by eapply prec_writes. Qed.

Lemma snap_kept S T k v : begun (hx h T) -> snap_is h S T k v -> snap_is h' S T k v.
Proof.
  intros HT [(W & HW & Hv)|[Hn Hv]].
  - left. exists W. rewrite last_kept by done. split; [done|]. by rewrite (last_writes S T k W HW).
  - right. split; [|done]. intros W. by rewrite before_kept by done.
Qed.

Lemma reads_are_mono (P Q : RowID -> option Row -> Prop) ops : (forall k v, P k v -> Q k v) ->
  forall own, reads_are P own ops -> reads_are Q own ops.
Proof.
  intros HPQ. induction ops as [|o ops IH]; intros own; simpl; [done|]. intros [Ho Hops]. split; [|by apply IH].
  destruct o as [k v|k v]; [|done]. destruct (own !! k); auto.
Qed.

Lemma know_kept S T f : begun (hx h T) -> g_writes (hx h' T) = g_writes (hx h T) -> know_ok h S T f -> know_ok h' S T f.
Proof.
  intros HT HwT. destruct f as [k o|k b]; simpl; rewrite ?HwT.
  - destruct (g_writes (hx h T) !! k) as [v|]; [done|]. destruct o as [r|].
    + intros (W & HW & Hr). exists W. rewrite last_kept by done. by rewrite (last_writes S T k W HW).
    + intros H W HW. rewrite last_kept in HW by done. rewrite (last_writes S T k W HW). by apply H.
  - intros H Hb. rewrite (H Hb). unfold wrote. rewrite HwT. setoid_rewrite before_kept; done.
Qed.

Lemma facts_kept S T : begun (hx h T) ->
  g_writes (hx h' T) = g_writes (hx h T) -> g_pending (hx h' T) = g_pending (hx h T) -> g_ops (hx h' T) = g_ops (hx h T) ->
  Forall (fun f => f ∈ g_know (hx h T) \/ know_ok h' S T f) (g_know (hx h' T)) -> tx_facts h S T -> tx_facts h' S T.
Proof.
  intros HT Hw Hpe Ho Hk [H1 H2 H3]. split.
  - congruence.
  - rewrite Ho. eapply reads_are_mono; [|exact H2]. intros k v. by apply snap_kept.
  - eapply list.Forall_impl; [exact Hk|]. intros f [Hf|Hf]; [|done]. apply know_kept; [done..|].
    rewrite list.Forall_forall in H3. by apply H3.
Qed.

Lemma consistent_kept S : consistent h' w' S -> consistent h w S.
Proof.
  intros [HS Hc]. split; [by apply (ev_plausible _ _ _ _ Hev)|]. intros T W k HT HW Hne HwT HwW.
  rewrite <- (prec_kept T W) by (by eapply (wrote_begun Ht)). rewrite <- (prec_kept W T) by (by eapply (wrote_begun Ht)).
  eapply Hc; [done..| |]; by apply (ev_wrote _ _ _ _ Hev).
Qed.

(** *** Chains *)
Lemma names_kept k v x T : ref_ok h w k v -> x = rv_begin v \/ x = rv_end v -> names h' x T <-> names h x T.
Proof.
  intros Hr Hx. unfold names. split; (intros [?|(e & -> & He)]; [by left|right]).
  - exists e. split; [done|]. destruct (ro_ts _ _ _ _ Hr e) as (T0 & H0 & _); [destruct Hx as [<-|<-]; auto|].
    destruct (ev_end _ _ _ _ Hev T0 e H0) as [H0' _]. by rewrite (ti_end_inj _ _ Ht' T T0 e).
  - exists e. split; [done|]. by apply (ev_end _ _ _ _ Hev).
Qed.

Lemma live_kept k v T : ref_ok h w k v -> live h' T v <-> live h T v.
Proof. intros Hr. unfold live. rewrite !(names_kept k v) by eauto. done. Qed.

Lemma ref_kept k v : ref_ok h w k v ->
  (forall T, is_Some (txs w !! T) -> k ∈ g_refs (hx h T) -> is_Some (txs w' !! T) /\ k ∈ g_refs (hx h' T)) -> ref_ok h' w' k v.
Proof.
  intros Hr Hid. split.
  - intros T HT. destruct (ro_id _ _ _ _ Hr T HT) as [??]. auto.
  - intros e He. destruct (ro_ts _ _ _ _ Hr e He) as (T & HT & Hf). exists T.
    split; [by apply (ev_end _ _ _ _ Hev)|by apply (ev_kept _ _ _ _ Hev)].
  - intros T HT. rewrite !(names_kept k v) in HT by eauto. by apply (ev_wrote _ _ _ _ Hev), (ro_wrote _ _ _ _ Hr).
  - intros T HT He. apply (ro_own _ _ _ _ Hr); [done|]. destruct (g_end (hx h T)) as [e|] eqn:E; [|done].
    destruct (ev_end _ _ _ _ Hev T e E) as [E' _]. congruence.
  - apply (ro_mat _ _ _ _ Hr).
Qed.

Context (k : RowID) (vs : list RowVersion).
Context (Hr : forall v, v ∈ vs -> ref_ok h w k v).
Context (Hsame : forall W, g_writes (hx h' W) !! k = g_writes (hx h W) !! k).

Lemma wrote_same W : wrote h' W k <-> wrote h W k.
Proof. unfold wrote. by rewrite Hsame. Qed.

Lemma facts_p_kept S : facts_p h k vs S -> facts_p h' k vs S.
Proof.
  intros [H1 H2]. split.
  - intros v C X Hv HC HX HXS Hne. rewrite (names_kept k v) in HC, HX by eauto.
    destruct (H1 v C X Hv HC HX HXS Hne) as [? Hp]. split; [done|]. apply prec_kept; [|done]. by apply (prec_begun Ht) in Hp as [_ ?].
  - intros W HW Hw. rewrite wrote_same in Hw. destruct (H2 W HW Hw) as [(v & Hv & Hn)|(e & He & Hl)].
    + left. exists v. rewrite !(names_kept k v) by eauto. done.
    + right. exists e. split; [by apply (ev_end _ _ _ _ Hev)|]. pose proof (ev_floor _ _ _ _ Hev). lia.
Qed.

Lemma facts_c_kept S : facts_c h k vs S -> facts_c h' k vs S.
Proof.
  intros [H1 H2 H3 H4 H5]. split.
  - intros W r HW Hwr. rewrite Hsame in Hwr. destruct (H1 W r HW Hwr) as [(v & Hv & Hl & Hrow)|(Y & e & HY & Hw & He & Hl & Hp)].
    + left. exists v. rewrite (live_kept k v) by eauto. done.
    + right. exists Y, e. rewrite wrote_same. split; [done|]. split; [done|]. split; [by apply (ev_end _ _ _ _ Hev)|].
      split; [pose proof (ev_floor _ _ _ _ Hev); lia|]. apply prec_kept; [by eapply (wrote_begun Ht)|done].
  - intros W v HW Hv Hl. rewrite (live_kept k v) in Hl by eauto. rewrite Hsame. by apply H2.
  - intros W HW. rewrite <- (filter_same (live h W) (live h' W)); [by apply H3|]. intros v Hv. by rewrite (live_kept k v) by eauto.
  - intros W X v HW HX Hv Hl Hwr Hp. rewrite (live_kept k v) in Hl by eauto. rewrite wrote_same in Hwr.
    pose proof (wrote_begun Ht _ _ Hwr) as HbX. rewrite prec_kept in Hp by done.
    destruct (H4 W X v) as (Y & HY & Hn & HYX); [done..|]. exists Y. rewrite (names_kept k v) by eauto.
    split; [done|]. split; [done|]. destruct HYX as [->|?]; [by left|right]. by apply prec_kept.
  - intros W Hb HW Hwr. rewrite wrote_same in Hwr. destruct (H5 W Hb HW Hwr) as (v & W' & Hv & Hres & HW' & Hn & HWW).
    exists v, W'. rewrite !(names_kept k v) by eauto. repeat (split; [done|]). destruct HWW as [->|?]; [by left|right].
    apply prec_kept; [by eapply (wrote_begun Ht)|done].
Qed.
End Transport.

(** ** The invariant after a step *)
Lemma checked_kept h w h' w' T : store_ok h w -> times_ok h' w' -> evolves h w h' w' ->
  g_checked (hx h' T) = g_checked (hx h T) ->
  forall S W k e e', plausible h' w' S -> T ∈ S -> W ∈ S -> k ∈ g_checked (hx h' T) -> wrote h' W k ->
    g_end (hx h' W) = Some e -> g_end (hx h' T) = Some e' -> e < e' -> prec h' W T.
Proof.
  intros Hs Ht' Hev Hc S W k e e' HS HTS HWS Hk Hw HeW HeT Hl. pose proof (so_times _ _ _ Hs) as Ht. rewrite Hc in Hk.
  destruct (gh_checked _ (so_ghost _ _ _ Hs T)) as [e0 He0]; [set_solver|].
  destruct (ev_end _ _ _ _ Hev T e0 He0) as [He0' _]. rewrite He0' in HeT. simplify_eq.
  pose proof (ti_end _ _ Ht T e' He0) as [HbT Hlt]. destruct (g_end (hx h W)) as [e1|] eqn:E1.
  - destruct (ev_end _ _ _ _ Hev W e1 E1) as [He1 HwW]. rewrite He1 in HeW. simplify_eq.
    apply (prec_kept Ht Hev); [done|]. apply (so_v _ _ _ Hs S T W k e e'); try done.
    + by apply (ev_plausible _ _ _ _ Hev).
    + unfold wrote in *. by rewrite HwW in Hw.
  - pose proof (ev_later _ _ _ _ Hev W e E1 HeW). lia.
Qed.

Lemma store_step h w h' w' : store_ok h w -> times_ok h' w' -> evolves h w h' w' ->
  (forall T, ghost_ok (hx h' T)) -> (forall T, tx_ok (hx h' T) T (txs w' !! T)) -> deps_ok h' w' ->
  (forall T s, finalized_tx_states w' !! T = Some s -> exists e, s = Committed e) -> durable_txid_max w' = 0 ->
  (forall k v, v ∈ chain w' k -> ref_ok h' w' k v) ->
  (forall k, chain w' k = chain w k /\ (forall W, g_writes (hx h' W) !! k = g_writes (hx h W) !! k) \/
    (forall S, plausible h' w' S -> facts_p h' k (chain w' k) S) /\
    (forall S, consistent h' w' S -> facts_c h' k (chain w' k) S)) ->
  (forall S T, consistent h' w' S -> T ∈ S -> begun (hx h T) /\ g_writes (hx h' T) = g_writes (hx h T) /\
      g_pending (hx h' T) = g_pending (hx h T) /\ g_ops (hx h' T) = g_ops (hx h T) /\
      Forall (fun f => f ∈ g_know (hx h T) \/ know_ok h' S T f) (g_know (hx h' T)) \/ tx_facts h' S T) ->
  (forall T, g_checked (hx h' T) = g_checked (hx h T) \/
    forall S W k e e', plausible h' w' S -> T ∈ S -> W ∈ S -> k ∈ g_checked (hx h' T) -> wrote h' W k ->
    g_end (hx h' W) = Some e -> g_end (hx h' T) = Some e' -> e < e' -> prec h' W T) ->
  store_ok h' w'.
Proof.
  intros Hs Ht' Hev Hg Htx Hd Hf Hm Hr Hk HT Hv. pose proof (so_times _ _ _ Hs) as Ht. split; try done.
  - intros S k HS. destruct (Hk k) as [[Hc Hw]|[H _]]; [|by apply H]. rewrite Hc.
    eapply (facts_p_kept Ht Ht' Hev); [apply (so_refs _ _ _ Hs)|done|].
    apply (so_p _ _ _ Hs). by apply (ev_plausible _ _ _ _ Hev).
  - intros S k HS. destruct (Hk k) as [[Hc Hw]|[_ H]]; [|by apply H]. rewrite Hc.
    eapply (facts_c_kept Ht Ht' Hev); [apply (so_refs _ _ _ Hs)|done|].
    apply (so_c _ _ _ Hs). by apply (consistent_kept Ht Hev).
  - intros S T HS HTS. destruct (HT S T HS HTS) as [(? & ? & ? & ? & ?)|H]; [|done].
    eapply (facts_kept Ht Hev); [done..|]. apply (so_t _ _ _ Hs); [|done]. by apply (consistent_kept Ht Hev).
  - intros S T W k e e' HS HTS. destruct (Hv T) as [Hc|H]; [|by apply H].
    by apply (checked_kept h w h' w' T Hs Ht' Hev Hc S W k e e').
Qed.

Lemma plausible_fewer h w h' w' S :
  (forall T, g_fate (hx h T) = Kept -> g_fate (hx h' T) = Kept) -> (forall T, doomed h w T -> doomed h' w' T) ->
  (forall T X, T ∈ deps h w X -> T ∈ deps h' w' X \/ g_fate (hx h' X) = Kept \/ doomed h' w' T) ->
  plausible h' w' S -> plausible h w S.
Proof.
  intros HK HD HX [H1 H2 H3]. split.
  - auto.
  - auto.
  - intros T X HT Hd. destruct (HX T X Hd) as [?|[?|?]]; [by eapply H3|by apply H1|]. by destruct (H2 T).
Qed.

(** Steps that leave the chains, the times and what was written alone. *)
Record same_core (g g' : gtx) : Prop := {
  sc_begin : g_begin g' = g_begin g;
  sc_end : g_end g' = g_end g;
  sc_writes : g_writes g' = g_writes g;
  sc_pending : g_pending g' = g_pending g;
  sc_ops : g_ops g' = g_ops g;
  sc_know : g_know g' = g_know g;
  sc_checked : g_checked g' = g_checked g;
  sc_refs : g_refs g' = g_refs g;
  sc_open : g_fate g' = Undecided -> g_fate g = Undecided;
  sc_kept : g_fate g = Kept -> g_fate g' = Kept
}.
Lemma same_core_refl g : same_core g g.
Proof. by split. Qed.

Lemma facts_unborn h S T : hx h T = unborn -> tx_facts h S T.
Proof. intros H. split; rewrite H; simpl; [|done|by constructor]. by rewrite (left_id_L ∅ (∪)). Qed.

Lemma times_same h w h' w' : times_ok h w ->
  (forall T, g_begin (hx h' T) = g_begin (hx h T) /\ g_end (hx h' T) = g_end (hx h T) /\
    (g_fate (hx h' T) = Undecided -> g_fate (hx h T) = Undecided)) ->
  (forall T, ~ begun (hx h T) -> hx h' T = unborn) -> floor h' = floor h ->
  clock w <= clock w' -> tx_ids w <= tx_ids w' -> times_ok h' w'.
Proof.
  intros [Ha Hb Hc1 Hd He1 Hf1 Hg Ho] Hsame Hu Hfl Hc Hi.
  assert (forall T, begun (hx h' T) <-> begun (hx h T)) as Hbe by (intros T; unfold begun; destruct (Hsame T) as (-> & _); done). split.
  - lia.
  - intros T HT. apply Hu. by rewrite <- Hbe.
  - intros T. rewrite Hbe. destruct (Hsame T) as (-> & _). intros HT. specialize (Hc1 T HT). lia.
  - intros T e. rewrite Hbe. destruct (Hsame T) as (-> & -> & _). intros He. destruct (Hd T e He). split; [done|lia].
  - intros T W e. destruct (Hsame T) as (_ & -> & _), (Hsame W) as (_ & -> & _). apply He1.
  - intros T W. rewrite Hbe. destruct (Hsame T) as (-> & _), (Hsame W) as (_ & -> & _). apply Hf1.
  - rewrite Hfl. lia.
  - intros T. rewrite Hbe, Hfl. destruct (Hsame T) as (-> & _ & Hf). auto.
Qed.

Lemma evolves_same h w h' w' :
  (forall T, g_begin (hx h' T) = g_begin (hx h T) /\ g_end (hx h' T) = g_end (hx h T) /\ g_writes (hx h' T) = g_writes (hx h T) /\
    (g_fate (hx h T) = Kept -> g_fate (hx h' T) = Kept)) ->
  floor h <= floor h' -> (forall S, plausible h' w' S -> plausible h w S) -> evolves h w h' w'.
Proof.
  intros Hsame Hfl Hp. split; try done.
  - intros T _. apply Hsame.
  - intros W e He. destruct (Hsame W) as (_ & -> & -> & _). done.
  - intros W e. destruct (Hsame W) as (_ & -> & _). congruence.
  - intros W k. unfold wrote. by destruct (Hsame W) as (_ & _ & -> & _).
  - intros T. apply Hsame.
Qed.

Section Quiet.
Context {h h' : hist} {w w' : MvStore}.
Context (Ht : times_ok h w) (Hsame : forall T, same_core (hx h T) (hx h' T)) (Hfl : floor h' = floor h).

Lemma times_quiet : (forall T, ~ begun (hx h T) -> hx h' T = unborn) -> clock w <= clock w' -> tx_ids w <= tx_ids w' -> times_ok h' w'.
Proof. intros. apply (times_same h w); try done. intros T. by destruct (Hsame T). Qed.

Lemma evolves_quiet : (forall S, plausible h' w' S -> plausible h w S) -> evolves h w h' w'.
Proof. intros Hp. apply evolves_same; [|lia|done]. intros T. by destruct (Hsame T). Qed.
End Quiet.

Lemma store_quiet h w h' w' : store_ok h w ->
  (forall T, same_core (hx h T) (hx h' T)) -> (forall T, ~ begun (hx h T) -> hx h' T = unborn) -> floor h' = floor h ->
  rows w' = rows w -> clock w <= clock w' -> tx_ids w <= tx_ids w' -> durable_txid_max w' = durable_txid_max w ->
  (forall T s, finalized_tx_states w' !! T = Some s -> exists e, s = Committed e) ->
  (forall T, is_Some (txs w !! T) -> g_refs (hx h T) <> ∅ -> is_Some (txs w' !! T)) ->
  (forall T, ghost_ok (hx h' T)) -> (forall T, tx_ok (hx h' T) T (txs w' !! T)) -> deps_ok h' w' ->
  (forall S, plausible h' w' S -> plausible h w S) -> store_ok h' w'.
Proof.
  intros Hs Hsame Hu Hfl Hrows Hc Hi Hdur Hfin Hdom Hg Htx Hd Hp. pose proof (so_times _ _ _ Hs) as Ht.
  assert (times_ok h' w') as Ht' by (by apply (times_quiet Ht Hsame Hfl)).
  assert (evolves h w h' w') as Hev by (by apply (evolves_quiet Hsame Hfl)).
  assert (forall k, chain w' k = chain w k) as Hch by (intros k; unfold chain; by rewrite Hrows).
  apply (store_step h w h' w'); try done.
  - rewrite Hdur. apply (so_ckpt _ _ _ Hs).
  - intros k v. rewrite Hch. intros Hv. eapply (ref_kept Ht' Hev); [by apply (so_refs _ _ _ Hs)|].
    intros T HT Hk. rewrite (sc_refs _ _ (Hsame T)). split; [|done]. apply Hdom; [done|set_solver].
  - intros k. left. split; [done|]. intros W. by rewrite (sc_writes _ _ (Hsame W)).
  - intros S T HS HT. destruct (decide (0 <= g_begin (hx h T))) as [Hb|Hb]; [left|right; by apply facts_unborn, Hu].
    split; [done|]. rewrite (sc_writes _ _ (Hsame T)), (sc_pending _ _ (Hsame T)), (sc_ops _ _ (Hsame T)), (sc_know _ _ (Hsame T)).
    repeat (split; [done|]). apply list.Forall_forall. by left.
  - intros T. left. by rewrite (sc_checked _ _ (Hsame T)).
Qed.

(** Steps that change entries of transactions only. *)
Lemma store_txs h w w' : store_ok h w -> w' = with_txs (fun _ => txs w') w ->
  (forall T, is_Some (txs w !! T) -> g_refs (hx h T) <> ∅ -> is_Some (txs w' !! T)) ->
  (forall T, tx_ok (hx h T) T (txs w' !! T)) -> deps_ok h w' ->
  (forall S, plausible h w' S -> plausible h w S) -> store_ok h w'.
Proof.
  intros Hs Hw Hdom Htx Hd Hp. apply (store_quiet h w h w'); try done; try (rewrite Hw; simpl; done || lia).
  - apply (ti_unborn _ _ (so_times _ _ _ Hs)).
  - rewrite Hw. apply (so_fin _ _ _ Hs).
  - apply (so_ghost _ _ _ Hs).
Qed.
End Evolve.
