(* ===== verification/MvccScan.v ===== *)
(** * Reading a chain

    A transaction that reads a chain registers with the transactions in preparation whose end it
    takes for granted ([register_commit_dependency]).  What it then sees is what any plausible
    set that has it makes visible. *)
From stdpp Require Import gmap functions.
From S2P Require Import Prelude Errors Effects Mvcc Threads MvccSession MvccGhost MvccEvolve.

Section Scan.
Context (base : RowID -> option Row).
#[local] Abbreviation store_ok := (store_ok base).

(** Two transactions that differ in their dependencies only. *)
Record like (t t' : Transaction) : Prop := {
  li_state : tx_state t' = tx_state t;
  li_id : tx_id t' = tx_id t;
  li_begin : tx_begin_ts t' = tx_begin_ts t;
  li_writes : tx_write_set t' = tx_write_set t;
  li_logged : tx_log_appended t' = tx_log_appended t;
  li_abort : tx_abort_now t' = tx_abort_now t
}.

Record scanned (h : hist) (w w' : MvStore) : Prop := {
  sn_txs : forall T, option_Forall2 like (txs w !! T) (txs w' !! T);
  sn_rest : w' = with_txs (fun _ => txs w') w;
  sn_plausible : forall S, plausible h w' S -> plausible h w S
}.

Lemma scanned_refl h w : scanned h w w.
Proof. split; [|by destruct w|done]. intros T. destruct (txs w !! T); by constructor. Qed.

Lemma scanned_trans h w1 w2 w3 : scanned h w1 w2 -> scanned h w2 w3 -> scanned h w1 w3.
Proof.
  intros [H1 H2 H3] [H1' H2' H3']. split; [|rewrite H2', H2; by destruct w1|auto].
  intros T. specialize (H1 T). specialize (H1' T). destruct H1 as [t t' Hl|]; inversion H1' as [? t'' Hl'|]; subst; [|by constructor].
  constructor. destruct Hl, Hl'. split; congruence.
Qed.

Lemma scanned_chain h w w' k : scanned h w w' -> chain w' k = chain w k.
Proof. intros [_ H _]. unfold chain. by rewrite H. Qed.

Lemma scanned_lookup h w w' T t : scanned h w w' -> txs w !! T = Some t -> exists t', txs w' !! T = Some t' /\ like t t'.
Proof. intros [H _ _] Ht. specialize (H T). rewrite Ht in H. inversion H as [? t' Hl|]. eauto. Qed.

(** ** Registering *)
Lemma size_ids (D : gset Z) n : (forall X, X ∈ D -> 0 <= X < n) -> Z.of_nat (size D) <= Z.max 0 n.
Proof.
  intros H. assert (D ⊆ list_to_set (seqZ 0 n)) as Hs.
  { intros X HX. apply elem_of_list_to_set, elem_of_seqZ. specialize (H X HX). lia. }
  apply subseteq_size in Hs. rewrite size_list_to_set in Hs by apply NoDup_seqZ. rewrite length_seqZ in Hs. lia.
Qed.

Section Register.
Context {h : hist} {w : MvStore} (Hs : store_ok h w).
Context (r X e : Z) (tr tX : Transaction).
Context (Hr : txs w !! r = Some tr) (Hact : tx_state tr = Active).
Context (HX : txs w !! X = Some tX) (Hprep : tx_state tX = Preparing e) (Hlt : e < g_begin (hx h r)).
Context (Hwr : g_writes (hx h X) <> ∅).

Let w1 := with_txs (alter (fun t => set_tx_dep_set (tx_commit_dep_set t ∪ {[ r ]}) t) X)
  (with_txs (alter (fun t => set_tx_counter (wrap 64 (tx_commit_dep_counter t + 1)) t) r) w).

Lemma register_ids : r <> X.
Proof. intros ->. congruence. Qed.

Lemma register_txs T : txs w1 !! T =
  if decide (T = X) then Some (set_tx_dep_set (tx_commit_dep_set tX ∪ {[ r ]}) tX)
  else if decide (T = r) then Some (set_tx_counter (wrap 64 (tx_commit_dep_counter tr + 1)) tr) else txs w !! T.
Proof.
  pose proof register_ids. unfold w1. simpl. destruct (decide (T = X)) as [->|H1].
  - rewrite lookup_alter_eq, lookup_alter_ne by done. by rewrite HX.
  - rewrite lookup_alter_ne by done. destruct (decide (T = r)) as [->|H2]; [by rewrite lookup_alter_eq, Hr|by rewrite lookup_alter_ne].
Qed.

Lemma register_deps Y : deps h w1 Y = if decide (Y = X) then deps h w X ∪ {[ r ]} else deps h w Y.
Proof.
  unfold deps. rewrite register_txs. destruct (decide (Y = X)) as [->|H1].
  - rewrite HX. simpl. set_solver.
  - destruct (decide (Y = r)) as [->|H2]; [by rewrite Hr|done].
Qed.

Lemma register_doomed T : doomed h w T -> doomed h w1 T.
Proof.
  intros [?|(t & Ht & Ha)]; [by left|right]. rewrite register_txs. destruct (decide (T = X)) as [->|H1].
  { eexists. split; [done|]. simpl. congruence. }
  destruct (decide (T = r)) as [->|H2]; [|eauto]. eexists. split; [done|]. simpl. congruence.
Qed.

Lemma register_like : scanned h w w1.
Proof.
  split; [|done|].
  - intros T. rewrite register_txs. destruct (decide (T = X)) as [->|H1]; [rewrite HX; by constructor|].
    destruct (decide (T = r)) as [->|H2]; [rewrite Hr; by constructor|]. destruct (txs w !! T); by constructor.
  - intros S. apply plausible_fewer; [done|apply register_doomed|].
    + intros T Y HT. left. rewrite register_deps. destruct (decide (Y = X)) as [->|]; [set_solver|done].
Qed.

Lemma reader_ghost : g_fate (hx h r) = Undecided /\ g_end (hx h r) = None /\ g_settled (hx h r) = false /\ begun (hx h r).
Proof.
  pose proof (so_tx _ _ _ Hs r) as Ht. rewrite Hr in Ht. pose proof (en_state _ _ _ Ht) as Hst. rewrite Hact in Hst.
  destruct Hst as [Hf He]. split; [done|]. split; [done|]. split; [|apply (en_begun _ _ _ Ht)].
  destruct (g_settled (hx h r)) eqn:E; [|done]. apply (gh_settled _ (so_ghost _ _ _ Hs r)) in E as [? ?]. congruence.
Qed.

Lemma preparing_ghost : g_fate (hx h X) = Undecided /\ g_end (hx h X) = Some e /\ g_taken (hx h X) = false /\ g_notify (hx h X) = ∅.
Proof.
  pose proof (so_tx _ _ _ Hs X) as Ht. rewrite HX in Ht. pose proof (en_state _ _ _ Ht) as Hst. rewrite Hprep in Hst.
  destruct Hst as [Hf He]. assert (g_taken (hx h X) = false) as Hn.
  { destruct (g_taken (hx h X)) eqn:E; [|done]. by destruct (gh_taken _ (so_ghost _ _ _ Hs X) E). }
  repeat (split; [done|]). destruct (decide (g_notify (hx h X) = ∅)) as [|Hne]; [done|].
  apply (gh_notify _ (so_ghost _ _ _ Hs X)) in Hne. congruence.
Qed.

Lemma register_deps_ok : r ∉ tx_commit_dep_set tX -> deps_ok h w1.
Proof.
  intros Hnew. destruct reader_ghost as (Hf & He & Hset & Hb). destruct preparing_ghost as (Hf' & He' & Htk & Hnt).
  pose proof (so_deps _ _ _ Hs) as [Hc Hed Hto]. pose proof register_ids as Hne.
  assert (r ∉ deps h w X) as Hnd by (unfold deps; rewrite HX, Hnt; simpl; set_solver). split.
  - intros T t. rewrite register_txs. setoid_rewrite register_deps.
    destruct (decide (T = r)) as [->|HTr].
    + rewrite decide_False by done. intros [= <-]. destruct (Hc r tr Hr) as (D & HD & Hcnt). exists ({[ X ]} ∪ D). split.
      { intros Y. specialize (HD Y). destruct (decide (Y = X)) as [->|]; set_solver. }
      rewrite size_union by (specialize (HD X); set_solver). rewrite size_singleton. simpl. rewrite Hcnt.
      unfold wrap. rewrite Z.mod_small; [lia|]. split; [lia|].
      enough (Z.of_nat (size D) <= Z.max 0 (VALUE_MASK + 1)) by (replace VALUE_MASK with (2 ^ 62 - 1) in * by done; lia).
      apply size_ids. intros Y HY. apply HD in HY. destruct (Hed r Y HY) as (_ & Hp & _).
      apply (prec_begun (so_times _ _ _ Hs)) in Hp as [HbY _]. pose proof (ti_begin _ _ (so_times _ _ _ Hs) Y HbY). lia.
    + intros Ht. assert (exists t0, txs w !! T = Some t0 /\ tx_commit_dep_counter t = tx_commit_dep_counter t0) as (t0 & Ht0 & Hc0).
      { destruct (decide (T = X)) as [->|]; [|eauto]. injection Ht as <-. eauto. }
      destruct (Hc T t0 Ht0) as (D & HD & Hcnt). exists D. split; [|congruence].
      intros Y. rewrite (HD Y). destruct (decide (Y = X)) as [->|]; set_solver.
  - intros T Y. rewrite register_deps. intros HT. destruct (decide (Y = X)) as [->|]; [|by apply Hed].
    apply elem_of_union in HT as [HT|HT]; [by apply Hed|]. apply elem_of_singleton in HT as ->.
    split; [done|]. split; [by exists e|done].
  - intros T d Hd. by apply register_doomed, (Hto T).
Qed.

Lemma register_new : r ∉ tx_commit_dep_set tX -> store_ok h w1.
Proof.
  intros Hnew. pose proof preparing_ghost as (Hf' & He' & Htk & Hnt). pose proof register_ids as Hne.
  apply (store_txs base h w w1); [done|done| | | |].
  - intros T [t Ht] _. destruct (scanned_lookup h w w1 T t register_like Ht) as (t' & -> & _). done.
  - intros T. pose proof (so_tx _ _ _ Hs T) as Ht. rewrite register_txs. destruct (decide (T = X)) as [->|HTX].
    { rewrite HX in Ht. simpl in Ht |- *. destruct Ht. split; simpl; try done. congruence. }
    destruct (decide (T = r)) as [->|HTr]; [|done]. rewrite Hr in Ht. simpl in Ht |- *. destruct Ht. by split.
  - by apply register_deps_ok.
  - apply (sn_plausible _ _ _ register_like).
Qed.

Lemma register_ok tx : tx_id tx = r ->
  does (register_commit_dependency tx X) (fun _ w' => store_ok h w' /\ scanned h w w' /\ r ∈ deps h w' X) w.
Proof.
  intros Hid. unfold register_commit_dependency. rewrite Hid. apply wpg_bind, wpg_assert.
  { pose proof register_ids. by rewrite (proj2 (Z.eqb_neq r X)). }
  apply wpg_bind, wpg_gets. rewrite HX, Hprep. destruct (bool_decide _) eqn:E.
  - apply bool_decide_eq_true in E. apply wpg_ret. split; [done|]. split; [apply scanned_refl|]. unfold deps. rewrite HX. set_solver.
  - apply bool_decide_eq_false in E. apply wpg_bind, wpg_modifies, wpg_modifies. fold w1.
    split; [by apply register_new|]. split; [apply register_like|]. rewrite register_deps, decide_True by done. set_solver.
Qed.
End Register.

(** ** Visibility *)
Lemma names_txid h C T : names h (Some (TxID C)) T <-> T = C.
Proof. split; [intros [?|(e & ? & _)]; by simplify_eq|intros ->; by left]. Qed.
Lemma names_ts h e T : names h (Some (Timestamp e)) T <-> g_end (hx h T) = Some e.
Proof. split; [intros [?|(e' & ? & ?)]; by simplify_eq|intros ?; right; eauto]. Qed.
Lemma names_none h T : names h None T <-> False.
Proof. split; [intros [?|(e & ? & _)]; by simplify_eq|done]. Qed.

Definition reader (w : MvStore) (r : Z) : Prop := exists tr, txs w !! r = Some tr /\ tx_state tr = Active.
Definition acts_as (h : hist) (r : Z) (tx : Transaction) : Prop := tx_id tx = r /\ tx_begin_ts tx = g_begin (hx h r).

Lemma reader_scanned h w w' r : scanned h w w' -> reader w r -> reader w' r.
Proof.
  intros Hsc (tr & Hr & Ha). destruct (scanned_lookup h w w' r tr Hsc Hr) as (t' & Ht' & Hl). exists t'. split; [done|].
  by rewrite (li_state _ _ Hl).
Qed.

(** What [S] makes visible to the reader. *)
Definition starts_for (h : hist) (S : gset Z) (r : Z) (v : RowVersion) : Prop :=
  rv_begin v = Some (TxID r) /\ rv_end v = None \/ exists C, names h (rv_begin v) C /\ C ∈ S /\ prec h C r.
Definition ends_for (h : hist) (S : gset Z) (r : Z) (v : RowVersion) : Prop :=
  exists X, names h (rv_end v) X /\ (X = r \/ X ∈ S /\ prec h X r).

Section Cases.
Context (h : hist) (S : gset Z) (r : Z) (v : RowVersion).

Lemma starts_txid C : rv_begin v = Some (TxID C) -> starts_for h S r v <-> C = r /\ rv_end v = None \/ C ∈ S /\ prec h C r.
Proof.
  intros E. unfold starts_for. rewrite E. setoid_rewrite names_txid. split.
  - intros [[[= ->] ?]|(? & -> & ?)]; auto.
  - intros [[-> ?]|?]; [by left|right; eauto].
Qed.

Lemma starts_ts w e T : times_ok h w -> rv_begin v = Some (Timestamp e) -> g_end (hx h T) = Some e ->
  starts_for h S r v <-> T ∈ S /\ prec h T r.
Proof.
  intros Ht E HT. unfold starts_for. rewrite E. setoid_rewrite names_ts. split.
  - intros [[? _]|(C & HC & ?)]; [done|]. by rewrite (ti_end_inj _ _ Ht T C e).
  - intros ?. right. eauto.
Qed.

Lemma starts_none : rv_begin v = None -> starts_for h S r v <-> False.
Proof. intros E. unfold starts_for. rewrite E. split; [|done]. by intros [[? _]|(? & ?%names_none & _)]. Qed.

Lemma ends_txid X : rv_end v = Some (TxID X) -> ends_for h S r v <-> X = r \/ X ∈ S /\ prec h X r.
Proof. intros E. unfold ends_for. rewrite E. setoid_rewrite names_txid. split; [by intros (? & -> & ?)|eauto]. Qed.

Lemma ends_ts w e T : times_ok h w -> rv_end v = Some (Timestamp e) -> g_end (hx h T) = Some e ->
  ends_for h S r v <-> T = r \/ T ∈ S /\ prec h T r.
Proof.
  intros Ht E HT. unfold ends_for. rewrite E. setoid_rewrite names_ts. split; [|eauto].
  intros (X & HX & ?). by rewrite (ti_end_inj _ _ Ht T X e).
Qed.

Lemma ends_none : rv_end v = None -> ends_for h S r v <-> False.
Proof. intros E. unfold ends_for. rewrite E. split; [|done]. by intros (? & ?%names_none & _). Qed.
End Cases.

Section Learns.
Context {h : hist} (r : Z).

(** The reader has registered with what it relies on and knows [P] of the sets that have it. *)
Definition learns {A} (w : MvStore) (P : A -> gset Z -> Prop) (x : A) (w' : MvStore) : Prop :=
  store_ok h w' /\ scanned h w w' /\ forall S, plausible h w' S -> r ∈ S -> P x S.

Lemma learns_same {A} w (P : A -> gset Z -> Prop) x :
  store_ok h w -> (forall S, plausible h w S -> r ∈ S -> P x S) -> learns w P x w.
Proof. intros Hs HP. split; [done|]. split; [apply scanned_refl|done]. Qed.

Lemma learns_after {A B} w w1 (P : A -> gset Z -> Prop) (P' : B -> gset Z -> Prop) x y w2 :
  learns w P x w1 -> learns w1 P' y w2 -> learns w (fun _ S => P x S /\ P' y S) y w2.
Proof.
  intros (Hs1 & Hsc1 & H1) (Hs2 & Hsc2 & H2). split; [done|]. split; [by eapply scanned_trans|].
  intros S HS HrS. split; [apply H1; [|done]; by apply (sn_plausible _ _ _ Hsc2)|by apply H2].
Qed.

Lemma learns_mono {A} w (P P' : A -> gset Z -> Prop) x w' :
  learns w P x w' -> (forall S, plausible h w' S -> r ∈ S -> P x S -> P' x S) -> learns w P' x w'.
Proof. intros (Hs & Hsc & H) HP. split; [done|]. split; [done|]. auto. Qed.

(** One test and then the rest. *)
Lemma learns_bind {A B} w (P : A -> gset Z -> Prop) (P' : A -> B -> gset Z -> Prop) (P'' : B -> gset Z -> Prop)
    (m : MvM A) (k : A -> MvM B) :
  reader w r -> does m (learns w P) w ->
  (forall x w', store_ok h w' -> scanned h w w' -> reader w' r -> does (k x) (learns w' (P' x)) w') ->
  (forall x y S, P x S -> P' x y S -> P'' y S) -> does (m ≫= k) (learns w P'') w.
Proof.
  intros Hr Hm Hk HP. apply wpg_bind. eapply wpg_mono; [exact Hm|]. intros x w1 H1. destruct H1 as (Hs1 & Hsc1 & Hx).
  eapply wpg_mono; [apply Hk; [done..|by eapply reader_scanned]|]. intros y w2 (Hs2 & Hsc2 & Hy).
  split; [done|]. split; [by eapply scanned_trans|]. intros S HS HrS. apply (HP x y); [|by apply Hy].
  apply Hx; [|done]. by apply (sn_plausible _ _ _ Hsc2).
Qed.
End Learns.

Section Visible.
Context {h : hist} (r : Z) (tx : Transaction) (k : RowID) (v : RowVersion) (Htx : acts_as h r tx).
#[local] Abbreviation learns := (learns (h := h) r).

(** A transaction in preparation that ends before the reader begins. *)
Lemma learns_register {T} w X tX e (m : MvM T) (Q : T -> MvStore -> Prop) :
  store_ok h w -> reader w r -> txs w !! X = Some tX -> tx_state tX = Preparing e -> e < g_begin (hx h r) ->
  wrote h X k -> (forall w', store_ok h w' -> scanned h w w' -> (forall S, plausible h w' S -> r ∈ S -> X ∈ S) -> does m Q w') ->
  does (register_commit_dependency tx X;; m) Q w.
Proof.
  intros Hs (tr & Hr & Ha) HX Hp Hlt [o Hw] Hk. apply wpg_bind. destruct Htx as [Hid _].
  eapply wpg_mono; [eapply (register_ok Hs r X e tr tX); try done|].
  - intros He. rewrite He in Hw. done.
  - intros [] w' (Hs' & Hsc & Hd). apply Hk; [done..|]. intros S HS HrS. by apply (pl_deps _ _ _ HS r X).
Qed.

Lemma entry_of w T : store_ok h w -> is_Some (txs w !! T) -> exists t, txs w !! T = Some t /\ entry_ok (hx h T) T t.
Proof. intros Hs [t Ht]. exists t. split; [done|]. pose proof (so_tx _ _ _ Hs T) as H. by rewrite Ht in H. Qed.

(** Which of its states make [C] a transaction of [S] that ends before the reader begins. *)
Lemma prec_end C e : g_end (hx h C) = Some e -> prec h C r <-> e < g_begin (hx h r).
Proof. intros He. split; [intros (e' & ? & ?); by simplify_eq|]. intros. by exists e. Qed.

Lemma active_not_before w (S : gset Z) C tC : store_ok h w -> txs w !! C = Some tC -> tx_state tC = Active -> ~ (C ∈ S /\ prec h C r).
Proof.
  intros Hs HC Hst [_ (e & He & _)]. pose proof (so_tx _ _ _ Hs C) as H. rewrite HC in H.
  pose proof (en_state _ _ _ H) as Hst'. rewrite Hst in Hst'. destruct Hst'. congruence.
Qed.

Lemma undone_not_before w S C : plausible h w S -> g_fate (hx h C) = Undone -> ~ (C ∈ S /\ prec h C r).
Proof. intros HS Hf [HC _]. destruct (pl_doomed _ _ _ HS C); [by left|done]. Qed.

Lemma begin_visible_ok w : store_ok h w -> reader w r -> v ∈ chain w k ->
  does (is_begin_visible tx v) (learns w (fun b S => b = true <-> starts_for h S r v)) w.
Proof.
  intros Hs Hr Hv. pose proof (so_refs _ _ _ Hs k v Hv) as Hro. pose proof (so_times _ _ _ Hs) as Ht. destruct Htx as [Hid Hb].
  destruct (entry_of w r Hs) as (tr & Htr & Her); [by destruct Hr as (? & -> & _)|].
  assert (tx_state tr = Active) as Hact by (destruct Hr as (? & ? & ?); congruence).
  pose proof (en_begun _ _ _ Her) as Hbr.
  assert (forall e T, g_end (hx h T) = Some e -> negb (g_begin (hx h r) =? e) = true) as Hne.
  { intros e T HT. destruct (Z.eqb_spec (g_begin (hx h r)) e) as [<-|]; [|done]. by destruct (ti_apart _ _ Ht r T Hbr). }
  unfold is_begin_visible. rewrite Hid, Hb. destruct (rv_begin v) as [[e|C]|] eqn:Eb.
  - destruct (ro_ts _ _ _ _ Hro e) as (T & HT & Hf); [by left|]. apply wpg_bind, wpg_assert; [eauto|].
    apply wpg_ret, (learns_same r); [done|]. intros S HS HrS. rewrite (starts_ts h S r v w e T Ht Eb HT), (prec_end T e HT), Z.ltb_lt.
    pose proof (pl_kept _ _ _ HS T Hf). tauto.
  - destruct (ro_id _ _ _ _ Hro C) as [Hin _]; [by left|]. destruct (entry_of w C Hs Hin) as (tC & HtC & HeC).
    apply wpg_bind, wpg_gets. rewrite HtC, (en_id _ _ _ HeC). pose proof (en_state _ _ _ HeC) as Hst.
    assert (wrote h C k) as HwC by (apply (ro_wrote _ _ _ _ Hro); left; rewrite Eb; by apply names_txid).
    assert (forall b w', store_ok h w' -> scanned h w w' -> (forall S, plausible h w' S -> r ∈ S ->
      b = true <-> C = r /\ rv_end v = None \/ C ∈ S /\ prec h C r) -> learns w (fun b S => b = true <-> starts_for h S r v) b w') as Hlearn.
    { intros b w' Hs' Hsc H. split; [done|]. split; [done|]. intros S HS HrS. rewrite (starts_txid h S r v C Eb). by apply H. }
    pose proof (scanned_refl h w) as Hre. destruct (tx_state tC) as [|e| | |e] eqn:Est; simpl in Hst.
    + apply wpg_ret, Hlearn; [done..|]. intros S HS _. pose proof (active_not_before w S C tC Hs HtC Est).
      rewrite andb_true_iff, bool_decide_eq_true, Z.eqb_eq. intuition congruence.
    + destruct Hst as [_ He]. assert (r <> C) as HrC by congruence. apply wpg_bind, wpg_assert; [by rewrite (proj2 (Z.eqb_neq r C))|].
      apply wpg_bind, wpg_assert; [eauto|]. destruct (Z.ltb_spec e (g_begin (hx h r))) as [Hl|Hl].
      * eapply learns_register; [done..|]. intros w' Hs' Hsc HC. apply wpg_ret, Hlearn; [done..|].
        intros S HS HrS. rewrite (prec_end C e He). naive_solver.
      * apply wpg_ret, Hlearn; [done..|]. intros S HS HrS. rewrite (prec_end C e He). split; [done|]. intros [[? _]|[_ ?]]; [congruence|lia].
    + apply wpg_ret, Hlearn; [done..|]. intros S HS _. pose proof (undone_not_before w S C HS Hst). intuition congruence.
    + apply wpg_ret, Hlearn; [done..|]. intros S HS _. pose proof (undone_not_before w S C HS Hst). intuition congruence.
    + destruct Hst as [Hf He]. apply wpg_bind, wpg_assert; [eauto|]. apply wpg_ret, Hlearn; [done..|]. intros S HS HrS.
      rewrite (prec_end C e He), Z.ltb_lt. pose proof (pl_kept _ _ _ HS C Hf). intuition congruence.
  - apply wpg_ret, (learns_same r); [done|]. intros S HS HrS. by rewrite (starts_none h S r v Eb).
Qed.

(** The parts that the next tests share. *)
Lemma reader_entry w : store_ok h w -> reader w r ->
  exists tr, txs w !! r = Some tr /\ tx_state tr = Active /\ begun (hx h r) /\ g_end (hx h r) = None /\
    (forall e T, g_end (hx h T) = Some e -> g_begin (hx h r) <> e).
Proof.
  intros Hs (tr & Htr & Hact). exists tr. destruct (reader_ghost Hs r tr Htr Hact) as (_ & He & _ & Hb).
  repeat (split; [done|]). intros e T HT <-. by destruct (ti_apart _ _ (so_times _ _ _ Hs) r T Hb).
Qed.

Lemma end_visible_ok w : store_ok h w -> reader w r -> v ∈ chain w k ->
  does (is_end_visible tx v) (learns w (fun b S => b = true <-> ~ ends_for h S r v)) w.
Proof.
  intros Hs Hr Hv. pose proof (so_refs _ _ _ Hs k v Hv) as Hro. pose proof (so_times _ _ _ Hs) as Ht. destruct Htx as [Hid Hb].
  destruct (reader_entry w Hs Hr) as (tr & Htr & Hact & Hbr & Hnone & Hne).
  unfold is_end_visible. rewrite Hid, Hb. destruct (rv_end v) as [[e|X]|] eqn:Eb.
  - destruct (ro_ts _ _ _ _ Hro e) as (T & HT & Hf); [by right|].
    apply wpg_ret, (learns_same r); [done|]. intros S HS HrS. rewrite (ends_ts h S r v w e T Ht Eb HT), (prec_end T e HT), Z.ltb_lt.
    pose proof (pl_kept _ _ _ HS T Hf). specialize (Hne e T HT). assert (T <> r) by congruence. destruct (decide (e < g_begin (hx h r))); intuition lia.
  - destruct (ro_id _ _ _ _ Hro X) as [Hin _]; [by right|]. destruct (entry_of w X Hs Hin) as (tX & HtX & HeX).
    apply wpg_bind, wpg_gets. rewrite HtX, (en_id _ _ _ HeX). pose proof (en_state _ _ _ HeX) as Hst.
    assert (wrote h X k) as HwX by (apply (ro_wrote _ _ _ _ Hro); right; rewrite Eb; by apply names_txid).
    assert (forall b w', store_ok h w' -> scanned h w w' -> (forall S, plausible h w' S -> r ∈ S ->
      b = true <-> ~ (X = r \/ X ∈ S /\ prec h X r)) -> learns w (fun b S => b = true <-> ~ ends_for h S r v) b w') as Hlearn.
    { intros b w' Hs' Hsc H. split; [done|]. split; [done|]. intros S HS HrS. rewrite (ends_txid h S r v X Eb). by apply H. }
    pose proof (scanned_refl h w) as Hre. destruct (tx_state tX) as [|e| | |e] eqn:Est; simpl in Hst.
    + apply wpg_ret, Hlearn; [done..|]. intros S HS _. pose proof (active_not_before w S X tX Hs HtX Est).
      rewrite negb_true_iff, Z.eqb_neq. intuition congruence.
    + destruct Hst as [_ He]. assert (r <> X) as HrX by congruence. specialize (Hne e X He).
      apply wpg_bind, wpg_assert; [by rewrite (proj2 (Z.eqb_neq r X))|]. destruct (Z.ltb_spec (g_begin (hx h r)) e) as [Hl|Hl]; simpl.
      * apply wpg_bind, wpg_ret, wpg_ret, Hlearn; [done..|]. intros S HS HrS. rewrite (prec_end X e He). split; [|done].
        intros _ [?|[_ ?]]; [congruence|lia].
      * eapply learns_register; [done..|lia|done|]. intros w' Hs' Hsc HX. apply wpg_ret, Hlearn; [done..|].
        intros S HS HrS. rewrite (prec_end X e He). split; [done|]. intros H. destruct H. right. split; [auto|lia].
    + apply wpg_ret, Hlearn; [done..|]. intros S HS _. pose proof (undone_not_before w S X HS Hst). intuition congruence.
    + apply wpg_ret, Hlearn; [done..|]. intros S HS _. pose proof (undone_not_before w S X HS Hst). intuition congruence.
    + destruct Hst as [Hf He]. specialize (Hne e X He). apply wpg_ret, Hlearn; [done..|]. intros S HS HrS.
      rewrite (prec_end X e He), Z.ltb_lt. pose proof (pl_kept _ _ _ HS X Hf). assert (X <> r) by congruence.
      destruct (decide (e < g_begin (hx h r))); intuition lia.
  - apply wpg_ret, (learns_same r); [done|]. intros S HS HrS. rewrite (ends_none h S r v Eb). tauto.
Qed.

Definition sees (h : hist) (S : gset Z) (r : Z) (v : RowVersion) : Prop := starts_for h S r v /\ ~ ends_for h S r v.

Lemma visible_ok w : store_ok h w -> reader w r -> v ∈ chain w k ->
  does (is_visible_to tx v) (learns w (fun b S => b = true <-> sees h S r v)) w.
Proof.
  intros Hs Hr Hv. unfold is_visible_to. eapply learns_bind with (P' := fun (b b' : bool) S => if b then b' = true <-> ~ ends_for h S r v else b' = false).
  - done.
  - by apply begin_visible_ok.
  - intros [] w' Hs' Hsc Hr'; [|by apply wpg_ret, (learns_same r)]. apply end_visible_ok; [done..|]. by rewrite (scanned_chain h w w').
  - intros [] b S; unfold sees; [tauto|]. intros Hb ->. split; [done|]. intros [Hst _]. by apply Hb.
Qed.

(** Also versions the reader does not see may stand for the row of the B-tree. *)
Lemma invalidating_ok w : store_ok h w -> reader w r -> v ∈ chain w k ->
  does (is_btree_invalidating_version tx v) (learns w (fun b S => b = true <-> starts_for h S r v \/ ends_for h S r v)) w.
Proof.
  intros Hs Hr Hv. unfold is_btree_invalidating_version. destruct Htx as [Hid Hb].
  eapply learns_bind with (P' := fun (b b' : bool) S => if b then b' = true else b' = true <-> ends_for h S r v);
    [done|by apply visible_ok| |].
  - intros [] w' Hs' Hsc Hr'; [by apply wpg_ret, (learns_same r)|]. rewrite <- (scanned_chain h w w' k Hsc) in Hv.
    clear w Hs Hr Hsc. rename w' into w, Hs' into Hs, Hr' into Hr. rewrite Hid, Hb.
    pose proof (so_refs _ _ _ Hs k v Hv) as Hro. destruct (reader_entry w Hs Hr) as (tr & Htr & Hact & Hbr & Hnone & Hne).
    destruct (rv_end v) as [[e|X]|] eqn:Eb.
    + destruct (ro_ts _ _ _ _ Hro e) as (T & HT & Hf); [by right|]. specialize (Hne e T HT).
      apply wpg_bind, wpg_assert; [by rewrite (proj2 (Z.eqb_neq _ _))|]. apply wpg_ret, (learns_same r); [done|]. intros S HS HrS.
      rewrite (ends_ts h S r v w e T (so_times _ _ _ Hs) Eb HT), (prec_end T e HT), Z.ltb_lt.
      pose proof (pl_kept _ _ _ HS T Hf). assert (T <> r) by congruence. tauto.
    + destruct (Z.eqb_spec X r) as [->|HXr].
      { apply wpg_ret, (learns_same r); [done|]. intros S HS HrS. rewrite (ends_txid h S r v r Eb). tauto. }
      destruct (ro_id _ _ _ _ Hro X) as [Hin _]; [by right|]. destruct (entry_of w X Hs Hin) as (tX & HtX & HeX).
      apply wpg_bind, wpg_gets. unfold lookup_tx_state. rewrite HtX. pose proof (en_state _ _ _ HeX) as Hst.
      assert (wrote h X k) as HwX by (apply (ro_wrote _ _ _ _ Hro); right; rewrite Eb; by apply names_txid).
      assert (forall b w', store_ok h w' -> scanned h w w' -> (forall S, plausible h w' S -> r ∈ S ->
        b = true <-> X ∈ S /\ prec h X r) -> learns w (fun b S => b = true <-> ends_for h S r v) b w') as Hlearn.
      { intros b w' Hs' Hsc H. split; [done|]. split; [done|]. intros S HS HrS. rewrite (ends_txid h S r v X Eb), (H S); tauto. }
      pose proof (scanned_refl h w) as Hre. destruct (tx_state tX) as [|e| | |e] eqn:Est; simpl in Hst.
      * apply wpg_ret, Hlearn; [done..|]. intros S HS _. pose proof (active_not_before w S X tX Hs HtX Est). intuition congruence.
      * destruct Hst as [_ He]. destruct (Z.ltb_spec e (g_begin (hx h r))) as [Hl|Hl].
        -- eapply learns_register; [done..|]. intros w' Hs' Hsc HX. apply wpg_ret, Hlearn; [done..|].
           intros S HS HrS. rewrite (prec_end X e He). naive_solver.
        -- apply wpg_bind, wpg_ret, wpg_ret, Hlearn; [done..|]. intros S HS HrS. rewrite (prec_end X e He). split; [done|lia].
      * apply wpg_ret, Hlearn; [done..|]. intros S HS _. pose proof (undone_not_before w S X HS Hst). intuition congruence.
      * apply wpg_ret, Hlearn; [done..|]. intros S HS _. pose proof (undone_not_before w S X HS Hst). intuition congruence.
      * destruct Hst as [Hf He]. apply wpg_ret, Hlearn; [done..|]. intros S HS HrS.
        rewrite (prec_end X e He), Z.ltb_lt. pose proof (pl_kept _ _ _ HS X Hf). tauto.
    + apply wpg_ret, (learns_same r); [done|]. intros S HS HrS. by rewrite (ends_none h S r v Eb).
  - intros b b' S Hb1 Hb2. unfold sees in Hb1. destruct b; [tauto|]. destruct b'; intuition congruence.
Qed.
End Visible.

Section Chain.
Context {h : hist} (r : Z) (tx : Transaction) (k : RowID) (Htx : acts_as h r tx).
#[local] Abbreviation learns := (learns (h := h) r).

Lemma find_visible_ok vs : forall w, store_ok h w -> reader w r -> (forall v, v ∈ vs -> v ∈ chain w k) ->
  does (find_visible tx vs) (learns w (fun o S =>
    match o with Some v => v ∈ vs /\ sees h S r v | None => forall v, v ∈ vs -> ~ sees h S r v end)) w.
Proof.
  induction vs as [|v vs IH]; intros w Hs Hr Hvs; simpl.
  { apply wpg_ret, (learns_same r); [done|]. intros S _ _ v ?. set_solver. }
  eapply learns_bind with (P' := fun (b : bool) o S => if b then o = Some v else
    match o with Some v => v ∈ vs /\ sees h S r v | None => forall v, v ∈ vs -> ~ sees h S r v end).
  - done.
  - apply visible_ok with (k := k); try done. apply Hvs. set_solver.
  - intros [] w' Hs' Hsc Hr'; [by apply wpg_ret, (learns_same r)|]. apply IH; [done..|]. intros v' Hv'.
    rewrite (scanned_chain h w w' k Hsc). apply Hvs. set_solver.
  - intros [] o S Hb Ho; [subst o; split; [set_solver|tauto]|].
    destruct o as [v'|]; [set_solver|]. intros v' [->|Hv']%elem_of_cons; [|by apply Ho]. intros Hv'. by apply Hb in Hv'.
Qed.

Lemma any_invalidating_ok vs : forall w, store_ok h w -> reader w r -> (forall v, v ∈ vs -> v ∈ chain w k) ->
  does (any_invalidating tx vs) (learns w (fun b S =>
    b = true <-> exists v, v ∈ vs /\ (starts_for h S r v \/ ends_for h S r v))) w.
Proof.
  induction vs as [|v vs IH]; intros w Hs Hr Hvs; simpl.
  { apply wpg_ret, (learns_same r); [done|]. intros S _ _. split; [done|]. intros (v & ? & _). set_solver. }
  eapply learns_bind with (P' := fun (b : bool) b' S => if b then b' = true else
    b' = true <-> exists v, v ∈ vs /\ (starts_for h S r v \/ ends_for h S r v)).
  - done.
  - apply invalidating_ok with (k := k); try done. apply Hvs. set_solver.
  - intros [] w' Hs' Hsc Hr'; [by apply wpg_ret, (learns_same r)|]. apply IH; [done..|]. intros v' Hv'.
    rewrite (scanned_chain h w w' k Hsc). apply Hvs. set_solver.
  - intros [] b' S Hb Hb'.
    + split; [|done]. intros _. exists v. split; [set_solver|tauto].
    + rewrite Hb'. split; intros (v' & Hv' & H); [exists v'; set_solver|]. apply elem_of_cons in Hv' as [->|?]; [|eauto].
      by apply Hb in H.
Qed.
End Chain.
End Scan.
