(* ===== verification/MvccRead.v ===== *)
(** * Lookups return the row of the snapshot

    What a lookup shows, in terms of the writers of the row: the row of the last of them, and
    whether the row of the B-tree still stands. *)
From stdpp Require Import gmap functions.
From S2P Require Import Prelude Errors Effects Mvcc MvccWords Threads MvccSession MvccGhost MvccEvolve MvccScan.

Section Read.
Context (base : RowID -> option Row).
#[local] Abbreviation store_ok := (store_ok base).
#[local] Abbreviation know_ok := (know_ok base).
#[local] Abbreviation facts_c := (facts_c base).

Definition seen (h : hist) (r : Z) (vs : list RowVersion) (o : option Row) (S : gset Z) : Prop :=
  match o with
  | Some row => exists v, v ∈ vs /\ sees h S r v /\ rv_row v = row
  | None => forall v, v ∈ vs -> ~ sees h S r v
  end.

Lemma entry_acts {h : hist} r w t : store_ok h w -> txs w !! r = Some t -> acts_as h r t.
Proof. intros Hs Ht. pose proof (so_tx _ _ _ Hs r) as H. rewrite Ht in H. split; [apply (en_id _ _ _ H)|apply (en_begin _ _ _ H)]. Qed.

Lemma reader_fits {h : hist} r w : store_ok h w -> reader w r -> ts_fits (Some (TxID r)).
Proof.
  intros Hs (tr & Htr & _). pose proof (so_tx _ _ _ Hs r) as He. rewrite Htr in He.
  destruct (ti_begin _ _ (so_times _ _ _ Hs) r (en_begun _ _ _ He)) as (_ & ? & ?). simpl. lia.
Qed.

Section Lookup.
Context (is_btree_readable_at : Z -> Z -> WalPos -> bool) {h : hist} (r : Z) (k : RowID).
#[local] Abbreviation learns := (learns base (h := h) r).

Lemma covers_ok w tx table : store_ok h w -> reader w r -> acts_as h r tx ->
  does (btree_covers_chain_for_tx is_btree_readable_at tx table (chain w k)) (fun b w' => w' = w /\ (chain w k <> [] -> b = false)) w.
Proof.
  intros Hs Hr [Hid Hb]. unfold btree_covers_chain_for_tx. apply wpg_bind, wpg_gets. change (id w) with w.
  destruct (passive_checkpoint w); [by apply wpg_ret|]. destruct (checkpoint_in_progress w); [by apply wpg_ret|].
  destruct (is_btree_readable_at _ _ _); [|by apply wpg_ret]. simpl. rewrite (so_ckpt _ _ _ Hs).
  pose proof (so_refs _ _ _ Hs k) as Hrefs. destruct (reader_entry base r w Hs Hr) as (tr & Htr & Hact & Hbr & Hnone & Hne).
  destruct (chain w k) as [|v [|v' vs]]; simpl; [by apply wpg_bind, wpg_ret, wpg_ret| |by apply wpg_bind, wpg_ret, wpg_ret].
  destruct (rv_begin v) as [[e|C]|] eqn:Eb; [|by apply wpg_bind, wpg_ret, wpg_ret..].
  destruct (rv_end v) as [x|] eqn:Ee; rewrite ?bool_decide_true, ?bool_decide_false by naive_solver; [by apply wpg_bind, wpg_ret, wpg_ret|].
  destruct (ro_ts _ _ _ _ (Hrefs v ltac:(set_solver)) e) as (T & HT & Hf); [by left|].
  apply wpg_bind, wpg_bind. unfold is_visible_to, is_begin_visible, is_end_visible. rewrite Eb, Ee. apply wpg_bind, wpg_bind, wpg_assert.
  { rewrite Hb. by rewrite (proj2 (Z.eqb_neq _ _) (Hne e T HT)). }
  apply wpg_ret. rewrite Hb. destruct (Z.ltb_spec e (g_begin (hx h r))); apply wpg_ret; simpl; [|by apply wpg_ret, wpg_ret].
  pose proof (ti_end _ _ (so_times _ _ _ Hs) T e HT) as [H1 H2]. unfold begun in H1. rewrite (proj2 (Z.ltb_lt 0 e)) by lia.
  by apply wpg_ret, wpg_ret.
Qed.

Lemma scan_ok w tx table : store_ok h w -> reader w r -> acts_as h r tx ->
  does (covers ← btree_covers_chain_for_tx is_btree_readable_at tx table (chain w k);
        if covers : bool then mret None
        else found ← find_visible tx (reverse (chain w k)); mret (rv_row <$> found)) (learns w (seen h r (chain w k))) w.
Proof.
  intros Hs Hr Htx. apply wpg_bind. eapply wpg_mono; [by apply covers_ok|]. intros b w' [-> Hb]. destruct b.
  { apply wpg_ret, (learns_same base r); [done|]. intros S HS HrS v Hv. destruct (chain w k); [set_solver|by specialize (Hb ltac:(done))]. }
  apply wpg_bind. eapply wpg_mono; [apply (find_visible_ok base r tx k Htx (reverse (chain w k)) w Hs Hr); set_solver|].
  intros o w' (Hs' & Hsc & Ho). apply wpg_ret. split; [done|]. split; [done|]. intros S HS HrS. specialize (Ho S HS HrS).
  destruct o as [v|]; simpl; [exists v; set_solver|set_solver].
Qed.

Lemma read_ok w : store_ok h w -> reader w r -> does (read_from_table is_btree_readable_at r k) (learns w (seen h r (chain w k))) w.
Proof.
  intros Hs Hr. pose proof Hr as (tr & Htr & Hact). unfold read_from_table, active_tx. apply wpg_bind, wpg_bind, wpg_gets.
  rewrite Htr, Hact. apply wpg_bind, wpg_assert; [done|]. apply wpg_ret, wpg_bind, wpg_gets.
  destruct (rows w !! k) as [vs|] eqn:Ek.
  - assert (chain w k = vs) as Hvs by (unfold chain; by rewrite Ek). rewrite <- Hvs. unfold skipmap_row_while_uncovered.
    destruct (chain w k) as [|v vs'] eqn:Ec.
    { apply wpg_ret, (learns_same base r); [done|]. intros S _ _ v ?. set_solver. }
    rewrite <- Ec. apply scan_ok; [done..|]. by eapply entry_acts.
  - apply wpg_ret, (learns_same base r); [done|]. intros S _ _ v. unfold chain. rewrite Ek. set_solver.
Qed.

Lemma find_last_ok w : store_ok h w -> reader w r ->
  does (find_last_visible_version is_btree_readable_at r k) (learns w (seen h r (chain w k))) w.
Proof.
  intros Hs Hr. pose proof Hr as (tr & Htr & Hact). unfold find_last_visible_version. apply wpg_bind, wpg_gets.
  rewrite Htr. apply wpg_bind, wpg_ret, wpg_bind, wpg_gets. destruct (rows w !! k) as [vs|] eqn:Ek.
  - assert (chain w k = vs) as <- by (unfold chain; by rewrite Ek). apply scan_ok; [done..|]. by eapply entry_acts.
  - apply wpg_ret, (learns_same base r); [done|]. intros S _ _ v. unfold chain. rewrite Ek. set_solver.
Qed.

Lemma valid_ok w : store_ok h w -> reader w r ->
  does (query_btree_version_is_valid is_btree_readable_at k r) (learns w (fun b S =>
    b = false <-> exists v, v ∈ chain w k /\ (starts_for h S r v \/ ends_for h S r v))) w.
Proof.
  intros Hs Hr. pose proof Hr as (tr & Htr & Hact). unfold query_btree_version_is_valid. apply wpg_bind, wpg_gets.
  rewrite Htr. apply wpg_bind, wpg_ret, wpg_bind, wpg_gets. destruct (rows w !! k) as [vs|] eqn:Ek.
  - assert (chain w k = vs) as <- by (unfold chain; by rewrite Ek). pose proof (entry_acts r w tr Hs Htr) as Htx.
    apply wpg_bind. eapply wpg_mono; [by apply covers_ok|]. intros b w' [-> Hb]. destruct b.
    { apply wpg_ret, (learns_same base r); [done|]. intros S _ _. split; [done|]. intros (v & Hv & _).
      destruct (chain w k); [set_solver|by specialize (Hb ltac:(done))]. }
    apply wpg_bind. eapply wpg_mono; [apply (any_invalidating_ok base r tr k Htx (reverse (chain w k)) w Hs Hr); set_solver|].
    intros b w' (Hs' & Hsc & Hbb). apply wpg_ret. split; [done|]. split; [done|]. intros S HS HrS.
    rewrite negb_false_iff, (Hbb S HS HrS). set_solver.
  - apply wpg_ret, (learns_same base r); [done|]. intros S _ _. unfold chain. rewrite Ek. set_solver.
Qed.
End Lookup.

(** ** What it shows of the writers *)
Section Shows.
Context {h : hist} {w : MvStore} (Hs : store_ok h w) (r : Z) (Hr : reader w r) (k : RowID) (S : gset Z).
Context (HS : consistent h w S) (HrS : r ∈ S).
Let Ht := so_times _ _ _ Hs.
Let Hp := so_p _ _ _ Hs S k (co_plausible _ _ _ HS).
Let Hc := so_c _ _ _ Hs S k HS.

Lemma reader_end : g_end (hx h r) = None.
Proof. by destruct (reader_entry base r w Hs Hr) as (? & ? & ? & ? & ? & ?). Qed.

Lemma reader_names x : names h x r -> x = Some (TxID r).
Proof. intros [?|(e & _ & He)]; [done|]. pose proof reader_end. congruence. Qed.

(** A version of another transaction that the reader sees is live, and the last writer's. *)
Lemma sees_live v C : ~ ends_for h S r v -> names h (rv_begin v) C -> C ∈ S -> prec h C r -> live h C v.
Proof. intros He Hn HC Hpr. split; [done|]. intros Hn'. apply He. exists C. auto. Qed.

Lemma sees_not_over v C X : v ∈ chain w k -> ~ ends_for h S r v -> live h C v -> C ∈ S ->
  X ∈ S -> wrote h X k -> X = r \/ prec h X r -> ~ prec h C X.
Proof.
  intros Hv He Hl HC HX HwX HXr HCX. destruct (fc_over _ _ _ _ _ Hc C X v) as (Y & HY & HnY & HYX); [done..|].
  apply He. exists Y. split; [done|]. destruct HYX as [->|HYX]; [naive_solver|]. right. split; [done|].
  destruct HXr as [->|HXr]; [done|]. by eapply (prec_trans Ht).
Qed.

Lemma sees_last v C : v ∈ chain w k -> ~ ends_for h S r v -> names h (rv_begin v) C -> C ∈ S -> prec h C r ->
  last h S r k C /\ g_writes (hx h C) !! k = Some (Some (rv_row v)).
Proof.
  intros Hv He Hn HC Hpr. pose proof (sees_live v C He Hn HC Hpr) as Hl. pose proof (so_refs _ _ _ Hs k v Hv) as Hro.
  assert (wrote h C k) as HwC by (apply (ro_wrote _ _ _ _ Hro); by left). split; [|by apply (fc_row _ _ _ _ _ Hc)].
  split; [done|]. intros W (HW & HwW & HWr). destruct (decide (W = C)) as [|Hne]; [by left|right].
  destruct (co_apart _ _ _ HS W C k) as [?|HCW]; [done..|]. by destruct (sees_not_over v C W Hv He Hl HC HW HwW (or_intror HWr)).
Qed.

(** A live version of the last writer, or of the reader itself, is seen. *)
Lemma own_live_seen v : v ∈ chain w k -> live h r v -> sees h S r v.
Proof.
  intros Hv [Hn Hne]. pose proof (so_refs _ _ _ Hs k v Hv) as Hro. apply reader_names in Hn.
  destruct (ro_own _ _ _ _ Hro r Hn reader_end) as [He|He]; [|by destruct Hne; left].
  split; [by left|]. rewrite (ends_none h S r v He). tauto.
Qed.

Lemma last_live_seen v W : v ∈ chain w k -> ~ wrote h r k -> last h S r k W -> live h W v -> sees h S r v.
Proof.
  intros Hv Hnw [(HW & HwW & HWr) Hmax] [Hn Hne]. pose proof (so_refs _ _ _ Hs k v Hv) as Hro.
  split; [right; eauto|]. intros (X & HnX & HX). assert (wrote h X k) as HwX by (apply (ro_wrote _ _ _ _ Hro); by right).
  destruct HX as [->|[HXS HXr]]; [done|]. destruct (decide (X = W)) as [->|HXW]; [done|].
  destruct (fp_ended _ _ _ _ Hp v W X Hv Hn HnX HXS HXW) as [_ HWX].
  destruct (Hmax X) as [?|?]; [done|done|]. by destruct (prec_asym Ht W X).
Qed.

Lemma floor_before Y e : g_end (hx h Y) = Some e -> e <= floor h -> prec h Y r.
Proof.
  intros He Hl. destruct Hr as (tr & Htr & Hact). destruct (reader_ghost base Hs r tr Htr Hact) as (Hf & _ & _ & Hb).
  exists e. split; [done|]. pose proof (ti_open _ _ Ht r Hb Hf). pose proof (ti_apart _ _ Ht r Y Hb). rewrite He in *.
  assert (e <> g_begin (hx h r)) by congruence. lia.
Qed.

Lemma row_known o : seen h r (chain w k) o S -> know_ok h S r (KRow k o).
Proof.
  intros Hseen. simpl. destruct (g_writes (hx h r) !! k) as [own|] eqn:Eown.
  - assert (wrote h r k) as Hwr by (by exists own). destruct o as [row|]; simpl in Hseen.
    + destruct Hseen as (v & Hv & [Hst He] & <-). destruct Hst as [[Hb Hn]|(C & HnC & HC & HCr)].
      * assert (live h r v) as Hl by (split; [by left|rewrite Hn; by intros ?%names_none]).
        pose proof (fc_row _ _ _ _ _ Hc r v HrS Hv Hl). congruence.
      * destruct (sees_not_over v C r Hv He (sees_live v C He HnC HC HCr) HC HrS Hwr (or_introl eq_refl) HCr).
    + destruct own as [row|]; [|done]. exfalso. destruct (fc_live _ _ _ _ _ Hc r row HrS Eown) as [(v & Hv & Hl & _)|(Y & e & _ & _ & _ & _ & (e' & He' & _))].
      * by apply (Hseen v Hv), own_live_seen.
      * pose proof reader_end. congruence.
  - assert (~ wrote h r k) as Hnw by (intros [??]; congruence). destruct o as [row|]; simpl in Hseen.
    + destruct Hseen as (v & Hv & [Hst He] & <-). pose proof (so_refs _ _ _ Hs k v Hv) as Hro. destruct Hst as [[Hb Hn]|(C & HnC & HC & HCr)].
      * destruct Hnw. apply (ro_wrote _ _ _ _ Hro). left. by left.
      * exists C. by apply sees_last.
    + intros W HW. pose proof HW as [(HWS & [x HwW] & HWr) Hmax]. rewrite HwW. destruct x as [row|]; [|done]. exfalso.
      destruct (fc_live _ _ _ _ _ Hc W row HWS HwW) as [(v & Hv & Hl & _)|(Y & e & HY & HwY & HeY & HlY & HWY)].
      * by apply (Hseen v Hv), (last_live_seen v W).
      * destruct (Hmax Y) as [->|HYW]; [split; [done|]; split; [done|by eapply floor_before]|by destruct (prec_irrefl Ht W)|].
        by destruct (prec_asym Ht W Y).
Qed.

Lemma valid_known b : (b = false <-> exists v, v ∈ chain w k /\ (starts_for h S r v \/ ends_for h S r v)) ->
  know_ok h S r (KValid k b).
Proof.
  intros Hb Hbase. rewrite Hb. clear Hb b. split.
  - intros (v & Hv & H). pose proof (so_refs _ _ _ Hs k v Hv) as Hro. pose proof (ro_wrote _ _ _ _ Hro) as Hwr.
    destruct H as [[[Hb _]|(C & HnC & HC & HCr)]|(X & HnX & [->|[HX HXr]])].
    + left. apply Hwr. left. by left.
    + right. exists C. split; [done|]. split; [|done]. apply Hwr. by left.
    + left. apply Hwr. by right.
    + right. exists X. split; [done|]. split; [|done]. apply Hwr. by right.
  - intros HW. assert (exists W, W ∈ S /\ wrote h W k /\ (W = r \/ prec h W r)) as (W & HWS & HwW & HWr).
    { destruct HW as [?|(W & ? & ? & ?)]; [exists r|exists W]; auto. }
    destruct (fc_first _ _ _ _ _ Hc W Hbase HWS HwW) as (v & W' & Hv & _ & HW' & Hn & HWW). exists v. split; [done|].
    assert (W' = r \/ prec h W' r) as HW'r.
    { destruct HWW as [->|?]; [done|right]. destruct HWr as [->|?]; [done|]. by eapply (prec_trans Ht). }
    pose proof (so_refs _ _ _ Hs k v Hv) as Hro. destruct Hn as [Hn|[_ Hn]].
    + destruct HW'r as [->|?]; [|left; right; eauto]. apply reader_names in Hn.
      destruct (ro_own _ _ _ _ Hro r Hn reader_end) as [He|He]; [left; by left|right]. exists r. split; [by left|by left].
    + right. exists W'. split; [done|]. destruct HW'r; auto.
Qed.
End Shows.
End Read.
