(* ===== verification/MvccWrite.v ===== *)
(** * Writes to a chain

    A new version at its place in the chain, and the end of the version the transaction sees. *)
From stdpp Require Import gmap functions.
From S2P Require Import Prelude Errors Effects Mvcc MvccWords Threads MvccSession MvccGhost MvccEvolve MvccScan MvccRead.

Section Write.
Context (base : RowID -> option Row).
#[local] Abbreviation store_ok := (store_ok base).
#[local] Abbreviation know_ok := (know_ok base).
#[local] Abbreviation facts_c := (facts_c base).

(** ** Places *)
Lemma resolve_ok x w : (forall T, x = Some (TxID T) -> is_Some (txs w !! T)) ->
  does (resolve_begin_timestamp x) (fun _ w' => w' = w) w.
Proof.
  intros Hx. destruct x as [[e|T]|]; simpl; [by apply wpg_ret| |by apply wpg_ret].
  destruct (Hx T eq_refl) as [t Ht]. apply wpg_bind, wpg_gets. rewrite Ht. apply wpg_bind, wpg_ret. by apply wpg_ret.
Qed.

Lemma insert_position_ok v vs w :
  (forall e, rv_begin v <> Some (Timestamp e)) ->
  (forall v' T, v' ∈ v :: vs -> rv_begin v' = Some (TxID T) -> is_Some (txs w !! T)) ->
  does (insert_position v vs) (fun vs' w' => w' = w /\ vs' ≡ₚ v :: vs) w.
Proof.
  intros Hv. induction vs as [|v' vs IH]; intros Hvs; simpl; [by apply wpg_ret|].
  apply wpg_bind. eapply wpg_mono; [apply resolve_ok; intros T; apply Hvs; set_solver|]. intros b ? ->.
  apply wpg_bind. eapply wpg_mono; [apply resolve_ok; intros T; apply Hvs; set_solver|]. intros b' ? ->.
  destruct (b <=? b').
  - apply wpg_ret. split; [done|]. destruct (rv_begin v') as [[?|?]|]; destruct (rv_begin v) as [[?|?]|] eqn:E; try done.
    by destruct (Hv ts0).
  - apply wpg_bind. eapply wpg_mono; [apply IH; set_solver|]. intros vs' ? [-> Hp]. apply wpg_ret. split; [done|].
    rewrite Hp. apply Permutation_swap.
Qed.

Lemma insert_version_raw_ok v vs w :
  (forall e, rv_begin v <> Some (Timestamp e)) ->
  (forall v' T, v' ∈ v :: vs -> rv_begin v' = Some (TxID T) -> is_Some (txs w !! T)) ->
  does (insert_version_raw vs v) (fun vs' w' => w' = w /\ vs' ≡ₚ v :: vs) w.
Proof.
  intros Hv Hvs. unfold insert_version_raw. apply wpg_bind. eapply wpg_mono.
  - apply insert_position_ok; [done|]. intros v' T Hv'. apply Hvs. set_solver.
  - intros vs' w' [-> Hp]. apply wpg_ret. split; [done|]. rewrite reverse_Permutation, Hp. by rewrite reverse_Permutation.
Qed.

(** ** The version that a deletion ends *)
Section Deletion.
Context {h : hist} (r : Z) (tx : Transaction) (k : RowID) (Htx : acts_as h r tx).

(** Nobody that may commit has ended it; an uncommitted one is the transaction's own. *)
Definition free_end (v : RowVersion) : Prop :=
  rv_end v = None \/ exists Z, rv_end v = Some (TxID Z) /\ g_fate (hx h Z) = Undone.
Definition own_if_open (v : RowVersion) : Prop :=
  forall T, rv_begin v = Some (TxID T) -> g_end (hx h T) = None -> T = r.

Lemma visible_own_if_open v w w' : store_ok h w -> v ∈ chain w k ->
  is_begin_visible tx v w = (Ready true, w') -> own_if_open v.
Proof.
  intros Hs Hv Hb T HT He. unfold is_begin_visible in Hb. rewrite HT in Hb. destruct Htx as [Hid _].
  destruct (ro_id _ _ _ _ (so_refs _ _ _ Hs k v Hv) T) as [Hin _]; [by left|].
  destruct (entry_of base w T Hs Hin) as (t & Ht & Hen). pose proof (en_state _ _ _ Hen) as Hst.
  unfold mbind, sm_bind, find_tx, gets in Hb. rewrite Ht, Hid, (en_id _ _ _ Hen) in Hb.
  destruct (tx_state t); simpl in Hst; try (destruct Hst; congruence); [|done..].
  injection Hb as Hb _. apply andb_true_iff in Hb as [Hb _]. by apply Z.eqb_eq in Hb.
Qed.

Lemma visible_not_ended v w w' : store_ok h w -> reader w r -> is_end_visible tx v w = (Ready true, w') ->
  (forall e, rv_end v = Some (Timestamp e) -> g_begin (hx h r) < e) /\ rv_end v <> Some (TxID r).
Proof.
  intros Hs (tr & Htr & Hact) He. unfold is_end_visible in He. destruct Htx as [Hid Hb]. split.
  - intros e Ee. rewrite Ee in He. injection He as He _. rewrite Hb in He. by apply Z.ltb_lt.
  - intros Ee. rewrite Ee in He. unfold mbind, sm_bind, find_tx, gets in He. rewrite Htr, Hact in He.
    destruct (entry_acts base r w tr Hs Htr) as [Hid' _]. rewrite Hid, Hid', Z.eqb_refl in He. done.
Qed.

Lemma no_conflict_free v w w' : store_ok h w -> v ∈ chain w k -> is_write_write_conflict tx v w = (Ready false, w') ->
  (forall e, rv_end v = Some (Timestamp e) -> g_begin (hx h r) < e) -> rv_end v <> Some (TxID r) -> free_end v.
Proof.
  intros Hs Hv Hc He Hr. unfold is_write_write_conflict in Hc. destruct Htx as [Hid Hb]. unfold free_end.
  destruct (rv_end v) as [[e|X]|] eqn:Ee; [| |by left].
  - injection Hc as Hc _. rewrite Hb in Hc. apply Z.ltb_ge in Hc. specialize (He e eq_refl). lia.
  - right. exists X. split; [done|]. rewrite Hid in Hc. destruct (Z.eqb_spec X r) as [->|_]; [done|].
    destruct (ro_id _ _ _ _ (so_refs _ _ _ Hs k v Hv) X) as [Hin _]; [by right|].
    destruct (entry_of base w X Hs Hin) as (t & Ht & Hen). pose proof (en_state _ _ _ Hen) as Hst.
    unfold mbind, sm_bind, gets, lookup_tx_state in Hc. rewrite Ht in Hc. by destruct (tx_state t).
Qed.

Lemma conflict_same v w : does (is_write_write_conflict tx v) (fun _ w' => w' = w) w.
Proof.
  unfold is_write_write_conflict. destruct (rv_end v) as [[e|X]|]; [by apply wpg_ret| |by apply wpg_ret].
  destruct (_ =? _); [by apply wpg_ret|]. apply wpg_bind, wpg_gets. by destruct (lookup_tx_state w X) as [[]|]; apply wpg_ret.
Qed.

(** What the scan of [delete_from_table_or_index] has found. *)
Definition deletes (vs : list RowVersion) (w : MvStore) (o : poll (option (list RowVersion))) (w' : MvStore) : Prop :=
  store_ok h w' /\ scanned h w w' /\
  match o with
  | Ready None => forall S v, plausible h w' S -> r ∈ S -> v ∈ vs -> ~ sees h S r v
  | Ready (Some vs') => exists l1 v l2, vs = l1 ++ v :: l2 /\ vs' = l1 ++ set_end (Some (TxID r)) v :: l2 /\
      free_end v /\ own_if_open v /\ forall S, plausible h w' S -> r ∈ S -> sees h S r v
  | Fails _ => True
  | Waits | Crashes => False
  end.

Lemma test_ok v w : store_ok h w -> reader w r -> v ∈ chain w k ->
  does (is_visible_to tx v) (fun b w' => store_ok h w' /\ scanned h w w' /\
    (forall S, plausible h w' S -> r ∈ S -> b = true <-> sees h S r v) /\
    (b = true -> own_if_open v /\ (forall e, rv_end v = Some (Timestamp e) -> g_begin (hx h r) < e) /\ rv_end v <> Some (TxID r))) w.
Proof.
  intros Hs Hr Hv. pose proof (wpg_eq _ _ _ _ _ (visible_ok base r tx k v Htx w Hs Hr Hv)) as H.
  eapply wpg_mono; [exact H|]. intros b w' [(Hs' & Hsc & Hb) Heq]. split; [done|]. split; [done|]. split; [done|]. intros ->.
  pose proof (wpg_eq _ _ _ _ _ (begin_visible_ok base r tx k v Htx w Hs Hr Hv)) as H1. unfold is_visible_to, mbind, sm_bind in Heq.
  unfold wpg in H1. destruct (is_begin_visible tx v w) as [[[]| | |] w1] eqn:E1; try done. destruct H1 as [(Hs1 & Hsc1 & _) _].
  split; [by apply (visible_own_if_open v w w1)|]. apply (visible_not_ended v w1 w' Hs1); [by eapply reader_scanned|done].
Qed.

Lemma delete_visible_ok vs : forall w, store_ok h w -> reader w r -> (forall v, v ∈ vs -> v ∈ chain w k) ->
  wpp (delete_visible tx vs) (deletes vs w) w.
Proof.
  induction vs as [|v vs IH]; intros w Hs Hr Hvs; simpl.
  { split; [done|]. split; [apply scanned_refl|]. set_solver. }
  apply wpp_bind, wpp_does. eapply wpg_mono; [apply test_ok; [done..|apply Hvs; set_solver]|]. intros b w1 (Hs1 & Hsc1 & Hb & Hfree).
  assert (v ∈ chain w1 k) as Hv1 by (rewrite (scanned_chain h w w1 k Hsc1); apply Hvs; set_solver).
  pose proof (reader_scanned h w w1 r Hsc1 Hr) as Hr1. simpl. apply wpp_bind, wpp_does. eapply wpg_mono with (Q' := fun c w' => w' = w1 /\
    (b = true -> c = false -> free_end v)).
  { destruct (b || bool_decide (rv_begin v = None)) eqn:Eb.
    - eapply wpg_mono; [apply wpg_eq, conflict_same|]. intros c w2 [-> Hc]. split; [done|]. intros -> ->.
      destruct Hfree as (_ & ? & ?); [done|]. by apply (no_conflict_free v w1 w1).
    - apply wpg_ret. split; [done|]. by intros ->. }
  intros c w2 [-> Hc]. simpl. destruct c; [done|]. destruct b; simpl.
  - pose proof Htx as [-> _]. rewrite (packed_fits _ (reader_fits base r w1 Hs1 Hr1)).
    split; [done|]. split; [done|]. exists [], v, vs. destruct Hfree as (? & _ & _); [done|].
    repeat (split; [by auto|]). intros S HS HrS. by apply Hb.
  - apply wpp_bind. eapply wpp_mono; [apply IH; [done..|]|].
    { intros v' Hv'. rewrite (scanned_chain h w w1 k Hsc1). apply Hvs. set_solver. }
    intros o w3 (Hs3 & Hsc3 & Ho). pose proof (scanned_trans h w w1 w3 Hsc1 Hsc3) as Hsc. destruct o as [[vs'|]| |e|]; simpl; try done.
    + split; [done|]. split; [done|]. destruct Ho as (l1 & v0 & l2 & -> & -> & Ho). by exists (v :: l1), v0, l2.
    + split; [done|]. split; [done|]. intros S v' HS HrS [->|Hv']%elem_of_cons; [|by apply Ho].
      intros Hsee. apply (Hb S) in Hsee; [done| |done]. by apply (sn_plausible _ _ _ Hsc3).
Qed.
End Deletion.

(** ** The invariant after a write *)
Section Step.
Context {h : hist} {w : MvStore} (Hs : store_ok h w) (r : Z) (Hr : reader w r) (k : RowID) (value : option Row).
Context {vs' : list RowVersion} {w' : MvStore}.
Context (Hrows : rows w' = <[k := vs']> (rows w)).
Context (Htxs : txs w' = alter (fun t => set_tx_write_set (write_set_insert k (tx_write_set t)) t) r (txs w)).
Context (Hrest : clock w' = clock w /\ tx_ids w' = tx_ids w /\ finalized_tx_states w' = finalized_tx_states w /\
  durable_txid_max w' = durable_txid_max w).
Let h' := upd h r (g_write k value (hx h r)).
Let Ht := so_times _ _ _ Hs.

Lemma write_hx T : T <> r -> hx h' T = hx h T.
Proof. apply hx_upd_ne. Qed.
Lemma write_hx_r : hx h' r = g_write k value (hx h r).
Proof. apply hx_upd. Qed.

Lemma write_chain : chain w' k = vs'.
Proof. unfold chain. by rewrite Hrows, lookup_insert_eq. Qed.
Lemma write_chain_ne k' : k' <> k -> chain w' k' = chain w k'.
Proof. intros H. unfold chain. by rewrite Hrows, lookup_insert_ne. Qed.

Lemma write_txs T : txs w' !! T = (if decide (T = r) then fun t => set_tx_write_set (write_set_insert k (tx_write_set t)) t else id) <$> txs w !! T.
Proof.
  rewrite Htxs. destruct (decide (T = r)) as [->|Hne]; [by rewrite lookup_alter_eq|]. rewrite lookup_alter_ne by done.
  by rewrite option_fmap_id.
Qed.

Lemma write_field {A} (f : gtx -> A) T : (forall g, f (g_write k value g) = f g) -> f (hx h' T) = f (hx h T).
Proof. intros Hf. destruct (decide (T = r)) as [->|]; [by rewrite write_hx_r|by rewrite write_hx]. Qed.

Lemma write_deps X : deps h' w' X = deps h w X.
Proof. unfold deps. rewrite write_txs, (write_field g_notify) by done. by destruct (txs w !! X), (decide (X = r)). Qed.

Lemma write_doomed T : doomed h' w' T <-> doomed h w T.
Proof.
  unfold doomed. rewrite write_txs, (write_field g_fate) by done.
  destruct (txs w !! T) as [t|]; simpl; [|done]. destruct (decide (T = r)); naive_solver.
Qed.

Lemma write_plausible S : plausible h' w' S -> plausible h w S.
Proof.
  apply plausible_fewer.
  - intros T. by rewrite (write_field g_fate).
  - intros T. by rewrite write_doomed.
  - intros T X. rewrite write_deps. auto.
Qed.

Lemma write_wrote W k' : wrote h' W k' <-> wrote h W k' \/ W = r /\ k' = k.
Proof.
  unfold wrote. destruct (decide (W = r)) as [->|Hne]; [rewrite write_hx_r|rewrite write_hx by done; naive_solver].
  simpl. destruct (decide (k' = k)) as [->|]; [rewrite lookup_insert_eq; naive_solver|rewrite lookup_insert_ne by done; naive_solver].
Qed.

Lemma write_none : g_end (hx h r) = None.
Proof. by apply (reader_end base Hs r). Qed.

Lemma write_begun : begun (hx h r).
Proof. by destruct (reader_entry base r w Hs Hr) as (? & ? & ? & ? & ?). Qed.

Lemma write_evolves : evolves h w h' w'.
Proof.
  split.
  - intros T _. by rewrite (write_field g_begin).
  - intros W e He. rewrite (write_field g_end) by done. split; [done|]. rewrite write_hx; [done|]. intros ->. pose proof write_none. congruence.
  - intros W e. rewrite (write_field g_end) by done. congruence.
  - intros W k'. rewrite write_wrote. auto.
  - done.
  - intros T. by rewrite (write_field g_fate).
  - apply write_plausible.
Qed.

Lemma write_times : times_ok h' w'.
Proof.
  destruct Hrest as (Hc & Hi & _ & _). apply (times_same h w); [done| | |done|lia|lia].
  - intros T. by rewrite (write_field g_begin), (write_field g_end), (write_field g_fate).
  - intros T HT. rewrite write_hx; [by apply (ti_unborn _ _ Ht)|]. intros ->. by apply HT, write_begun.
Qed.

Lemma write_own_writes T : g_writes (hx h' T) = if decide (T = r) then <[k := value]> (g_writes (hx h r)) else g_writes (hx h T).
Proof. destruct (decide (T = r)) as [->|]; [by rewrite write_hx_r|by rewrite write_hx]. Qed.

Lemma write_entry T : tx_ok (hx h' T) T (txs w' !! T).
Proof.
  pose proof (so_tx _ _ _ Hs T) as H. rewrite write_txs. destruct (decide (T = r)) as [->|Hne].
  - destruct Hr as (tr & Htr & Hact). rewrite write_hx_r, Htr. rewrite Htr in H. simpl in H |- *.
    destruct H as [H1 H0 H2 H3 H4 H5 H6 H7 H8 H9]. split; simpl; try done.
    + intros Hf. specialize (H5 Hf). rewrite dom_insert_L, <- H5. unfold write_set_insert.
      destruct (bool_decide _) eqn:E; [apply bool_decide_eq_true in E; set_solver|rewrite list_to_set_app_L; set_solver].
    + intros _ Hem. by apply insert_non_empty in Hem.
    + intros Hl. destruct (H8 Hl) as [Hsafe _]. apply (gh_safe _ (so_ghost _ _ _ Hs r)) in Hsafe.
      apply (gh_settled _ (so_ghost _ _ _ Hs r)) in Hsafe as [??]. pose proof write_none. congruence.
  - rewrite write_hx by done. rewrite option_fmap_id. exact H.
Qed.

Lemma write_ghost T : ghost_ok (hx h' T).
Proof.
  pose proof (so_ghost _ _ _ Hs T) as H. destruct (decide (T = r)) as [->|Hne]; [|by rewrite write_hx].
  rewrite write_hx_r. destruct H as [H1 H2 H3 H4 H5 H6 H7 H8 H9]. split; simpl; try done.
  - rewrite dom_insert_L. set_solver.
  - intros Hf. destruct (H4 Hf) as [_ [??]]. pose proof write_none. congruence.
Qed.

Lemma write_deps_ok : deps_ok h' w'.
Proof.
  destruct (so_deps _ _ _ Hs) as [Hc He Hto]. split.
  - intros T t. rewrite write_txs. intros (t0 & Ht0 & ->)%fmap_Some. destruct (Hc T t0 Ht0) as (D & HD & Hn). exists D.
    setoid_rewrite write_deps. split; [done|]. by destruct (decide (T = r)).
  - intros T X. rewrite write_deps. intros HT. destruct (He T X HT) as (Hb & (e & He' & Hl) & Hst).
    unfold begun, prec. rewrite (write_field g_settled), (write_field g_begin), (write_field g_end) by done. eauto.
  - intros T d. rewrite (write_field g_told), write_doomed by done. apply Hto.
Qed.

Lemma write_facts S T : consistent h' w' S -> T ∈ S -> tx_facts base h' S T.
Proof.
  intros HS HT. pose proof (consistent_kept Ht write_evolves S HS) as HS0. pose proof (so_t _ _ _ Hs S T HS0 HT) as Hf.
  destruct (decide (0 <= g_begin (hx h T))) as [Hb|Hb].
  2: { apply facts_unborn. rewrite write_hx; [by apply (ti_unborn _ _ Ht)|]. intros ->. by apply Hb, write_begun. }
  destruct (decide (T = r)) as [->|Hne].
  - destruct Hf as [H1 H2 H3]. split; rewrite write_hx_r; simpl.
    + rewrite H1. by rewrite insert_union_l.
    + eapply reads_are_mono; [|exact H2]. intros k' v. by apply (snap_kept base Ht write_evolves).
    + constructor.
  - eapply (facts_kept base Ht write_evolves); [done|by rewrite write_hx..| |done]. rewrite write_hx by done.
    apply list.Forall_forall. auto.
Qed.

Lemma write_store : (forall v, v ∈ vs' -> ref_ok h' w' k v) -> (forall S, plausible h' w' S -> facts_p h' k vs' S) ->
  (forall S, consistent h' w' S -> facts_c h' k vs' S) -> store_ok h' w'.
Proof.
  intros H1 H2 H3. destruct Hrest as (Hc & Hi & Hf & Hd).
  apply (store_step base h w h' w'); try done.
  - apply write_times.
  - apply write_evolves.
  - apply write_ghost.
  - apply write_entry.
  - apply write_deps_ok.
  - rewrite Hf. apply (so_fin _ _ _ Hs).
  - rewrite Hd. apply (so_ckpt _ _ _ Hs).
  - intros k' v. destruct (decide (k' = k)) as [->|Hne]; [rewrite write_chain; apply H1|]. rewrite write_chain_ne by done. intros Hv.
    eapply (ref_kept write_times write_evolves); [by apply (so_refs _ _ _ Hs)|]. intros T [t HT] Hk. rewrite write_txs, HT. split; [done|].
    destruct (decide (T = r)) as [->|]; [rewrite write_hx_r; simpl; set_solver|by rewrite write_hx].
  - intros k'. destruct (decide (k' = k)) as [->|Hne]; [right; rewrite write_chain; eauto|left]. rewrite write_chain_ne by done.
    split; [done|]. intros W. rewrite write_own_writes. destruct (decide (W = r)) as [->|]; [by rewrite lookup_insert_ne|done].
  - intros S T HS HT. right. by apply write_facts.
  - intros T. left. by apply (write_field g_checked).
Qed.

Lemma write_prec W T : prec h' W T <-> prec h W T.
Proof. unfold prec. by rewrite (write_field g_end), (write_field g_begin). Qed.
Lemma write_names x T : names h' x T <-> names h x T.
Proof. unfold names. by rewrite (write_field g_end). Qed.
Lemma write_live v T : live h' T v <-> live h T v.
Proof. unfold live. by rewrite !write_names. Qed.
Lemma write_keeps T : T <> r -> g_writes (hx h' T) !! k = g_writes (hx h T) !! k.
Proof. intros. by rewrite write_hx. Qed.

Lemma old_ref v : v ∈ chain w k -> ref_ok h' w' k v.
Proof.
  intros Hv. eapply (ref_kept write_times write_evolves); [by apply (so_refs _ _ _ Hs)|]. intros T [t HT] Hk. rewrite write_txs, HT. split; [done|].
  destruct (decide (T = r)) as [->|]; [rewrite write_hx_r; simpl; set_solver|by rewrite write_hx].
Qed.

Lemma own_tx : is_Some (txs w' !! r) /\ k ∈ g_refs (hx h' r).
Proof. destruct Hr as (tr & Htr & _). rewrite write_txs, Htr, write_hx_r. simpl. split; [done|set_solver]. Qed.

(** The writers before are ended by now, when the row is not there for the transaction. *)
Lemma absent_over S W v : consistent h w S -> r ∈ S -> know_ok h S r (KRow k None) ->
  W ∈ S -> v ∈ chain w k -> live h W v -> prec h W r -> exists Y, Y ∈ S /\ names h (rv_end v) Y /\ (Y = r \/ prec h Y r).
Proof.
  intros HS HrS Hk HW Hv Hl Hp. pose proof (so_c _ _ _ Hs S k HS) as Hc.
  assert (wrote h W k) as HwW by (apply (ro_wrote _ _ _ _ (so_refs _ _ _ Hs k v Hv)); left; by destruct Hl).
  destruct (g_writes (hx h r) !! k) as [x|] eqn:Er.
  { apply (fc_over _ _ _ _ _ Hc W r v); try done. by exists x. }
  simpl in Hk. rewrite Er in Hk. destruct (exists_last h w S r k W Ht HS) as [L HL]; [done|]. specialize (Hk L HL).
  destruct HL as [(HLS & HwL & HLr) Hmax]. destruct (Hmax W) as [->|HWL]; [done| |].
  { rewrite (fc_row _ _ _ _ _ Hc L v) in Hk by done. done. }
  destruct (fc_over _ _ _ _ _ Hc W L v) as (Y & HY & HnY & HYL); [done..|]. exists Y. split; [done|]. split; [done|]. right.
  destruct HYL as [->|?]; [done|]. by eapply (prec_trans Ht).
Qed.

Lemma absent_not_live S v : consistent h w S -> r ∈ S -> know_ok h S r (KRow k None) -> v ∈ chain w k -> ~ live h r v.
Proof.
  intros HS HrS Hk Hv Hl. pose proof (fc_row _ _ _ _ _ (so_c _ _ _ Hs S k HS) r v HrS Hv Hl) as Hw. simpl in Hk.
  rewrite Hw in Hk. done.
Qed.

(** *** A new version *)
Section Add.
Context (nv : RowVersion) (Hperm : vs' ≡ₚ nv :: chain w k).
Context (Hnv : match value with
               | Some row => rv_begin nv = Some (TxID r) /\ rv_end nv = None /\ rv_row nv = row
               | None => rv_begin nv = None /\ rv_end nv = Some (TxID r) /\ rv_btree_resident nv = true
               end).
Context (Hmat : rv_materialized_at nv = ORIGIN).

Lemma add_elem v : v ∈ vs' <-> v = nv \/ v ∈ chain w k.
Proof. rewrite Hperm. set_solver. Qed.

Lemma add_names T : names h (rv_begin nv) T \/ names h (rv_end nv) T <-> T = r.
Proof.
  destruct value as [row|]; destruct Hnv as (Hb & He & _); rewrite Hb, He, names_txid, names_none; tauto.
Qed.

Lemma add_live T : live h T nv <-> T = r /\ is_Some value.
Proof.
  unfold live. destruct value as [row|]; destruct Hnv as (Hb & He & _); rewrite Hb, He, names_txid, names_none.
  - split; [intros [-> _]; by split|intros [-> _]; tauto].
  - split; [tauto|]. by intros [_ [??]].
Qed.

Lemma add_ref v : v ∈ vs' -> ref_ok h' w' k v.
Proof.
  intros [->|Hv]%add_elem; [|by apply old_ref]. split; try done.
  - intros T HT. assert (T = r) as -> by (apply add_names; unfold names; tauto). apply own_tx.
  - intros e He. destruct value; destruct Hnv as (Hb & He' & _); rewrite Hb, He' in He; by destruct He.
  - intros T. rewrite !write_names, add_names. intros ->. apply write_wrote. auto.
  - intros T HT _. destruct value; destruct Hnv as (Hb & He' & _); rewrite ?He'; [by left|congruence].
Qed.

Lemma add_facts_p S : plausible h' w' S -> facts_p h' k vs' S.
Proof.
  intros HS. destruct (so_p _ _ _ Hs S k (write_plausible S HS)) as [H1 H2]. split.
  - intros v C X Hv. rewrite !write_names, write_prec. apply add_elem in Hv as [->|Hv]; [|by apply H1]. intros HC HX.
    assert (C = r /\ X = r) as [-> ->] by (split; apply add_names; auto). done.
  - intros W HW HwW. apply write_wrote in HwW as [HwW|[-> _]].
    + destruct (H2 W HW HwW) as [(v & Hv & Hn)|(e & He & Hl)]; [left; exists v|right; exists e].
      * rewrite !write_names, add_elem. auto.
      * by rewrite (write_field g_end).
    + left. exists nv. rewrite !write_names, add_elem. split; [auto|]. by apply add_names.
Qed.

Context (Habs : forall S, consistent h w S -> r ∈ S -> know_ok h S r (KRow k None)).
Context (Hres : forall S, consistent h w S -> r ∈ S -> rv_btree_resident nv = true \/
  (base k <> None -> wrote h r k \/ exists W, before h S r k W)).

Lemma add_one S W : consistent h w S -> W ∈ S -> (length (filter (live h' W) vs') <= 1)%nat.
Proof.
  intros HS HW. rewrite Hperm, (filter_same (live h' W) (live h W)) by (intros; apply write_live).
  rewrite filter_cons. pose proof (fc_one _ _ _ _ _ (so_c _ _ _ Hs S k HS) W HW) as Ho.
  destruct (decide (live h W nv)) as [Hl|]; [|done]. apply add_live in Hl as [-> _].
  enough (filter (live h r) (chain w k) = []) as -> by (simpl; lia). apply elem_of_nil_inv.
  intros v [Hl Hv]%list_elem_of_filter. by apply (absent_not_live S v); auto.
Qed.

Lemma add_facts_c S : consistent h' w' S -> facts_c h' k vs' S.
Proof.
  intros HS'. pose proof (consistent_kept Ht write_evolves S HS') as HS. pose proof (so_c _ _ _ Hs S k HS) as [H1 H2 H3 H4 H5]. split.
  - intros W row HW. destruct (decide (W = r)) as [->|Hne].
    + rewrite write_hx_r. simpl. rewrite lookup_insert_eq. intros [= Hval]. left. exists nv. rewrite add_elem, write_live, add_live, Hval.
      split; [by left|]. split; [by split|]. rewrite Hval in Hnv. tauto.
    + rewrite write_keeps by done. intros Hw. destruct (H1 W row HW Hw) as [(v & Hv & Hl & Hrow)|(Y & e & HY & HwY & He & Hle & Hp)].
      * left. exists v. rewrite add_elem, write_live. auto.
      * right. exists Y, e. rewrite write_wrote, write_prec, (write_field g_end) by done. auto 10.
  - intros W v HW Hv. rewrite write_live. apply add_elem in Hv as [->|Hv].
    + rewrite add_live. intros [-> [row Hrow]]. rewrite write_hx_r. simpl. rewrite lookup_insert_eq, Hrow.
      rewrite Hrow in Hnv. by destruct Hnv as (_ & _ & ->).
    + intros Hl. destruct (decide (W = r)) as [->|Hne]; [by destruct (absent_not_live S v HS HW (Habs S HS HW) Hv)|].
      rewrite write_keeps by done. auto.
  - intros W HW. by apply (add_one S).
  - intros W X v HW HX Hv. rewrite write_live, write_wrote, write_prec. setoid_rewrite write_names. setoid_rewrite write_prec.
    apply add_elem in Hv as [->|Hv].
    + rewrite add_live. intros [-> _] _ (e & He & _). pose proof write_none. congruence.
    + intros Hl [HwX|[-> _]] Hp; [by apply (H4 W X v)|]. by apply (absent_over S W v); auto.
  - intros W Hb HW. rewrite write_wrote. setoid_rewrite add_elem. setoid_rewrite write_names. setoid_rewrite write_prec.
    assert (forall W0, W0 ∈ S -> wrote h W0 k -> W0 = W \/ prec h W0 W -> exists v W', (v = nv \/ v ∈ chain w k) /\ rv_btree_resident v = true /\
      W' ∈ S /\ (names h (rv_begin v) W' \/ rv_begin v = None /\ names h (rv_end v) W') /\ (W' = W \/ prec h W' W)) as Hold.
    { intros W0 HW0 Hw0 HW0W. destruct (H5 W0 Hb HW0 Hw0) as (v & W' & Hv & Hr' & HW' & Hn & HWW). exists v, W'.
      repeat (split; [by auto|]). destruct HWW as [->|HWW]; [done|]. destruct HW0W as [->|?]; [by right|right]. by eapply (prec_trans Ht). }
    intros [HwW|[-> _]]; [by apply (Hold W); auto|]. destruct (Hres S HS HW) as [Hr'|Hr'].
    + exists nv, r. repeat (split; [by auto|]). split; [|auto]. pose proof (proj2 (add_names r) eq_refl) as Hn.
      destruct value; destruct Hnv as (Hnb & Hne & _); rewrite ?Hnb, ?Hne, ?names_txid, ?names_none in *; tauto.
    + destruct (Hr' Hb) as [?|(W & HWS & HwW & HWr)]; [by apply (Hold r); auto|by apply (Hold W); auto].
Qed.

Lemma add_store : store_ok h' w'.
Proof. apply write_store; [apply add_ref|apply add_facts_p|apply add_facts_c]. Qed.
End Add.

(** *** The end of a version *)
Section Over.
Context (Hval : value = None) (l1 l2 : list RowVersion) (v0 : RowVersion).
Let v1 := set_end (Some (TxID r)) v0.
Context (Hold : chain w k = l1 ++ v0 :: l2) (Hnew : vs' = l1 ++ v1 :: l2).
Context (Hfree : free_end (h := h) v0) (Hown : own_if_open (h := h) r v0).
Context (Hsee : forall S, plausible h w S -> r ∈ S -> sees h S r v0).

Lemma over_new v : v ∈ vs' <-> v = v1 \/ v ∈ l1 ++ l2.
Proof. rewrite Hnew, !elem_of_app, elem_of_cons. clear. tauto. Qed.
Lemma over_old v : v ∈ chain w k <-> v = v0 \/ v ∈ l1 ++ l2.
Proof. rewrite Hold, !elem_of_app, elem_of_cons. clear. tauto. Qed.
Lemma over_in : v0 ∈ chain w k.
Proof. apply over_old. by left. Qed.

Lemma over_free S T : plausible h w S -> T ∈ S -> ~ names h (rv_end v0) T.
Proof.
  intros HS HT. destruct Hfree as [->|(Z & -> & HZ)]; [by intros ?%names_none|]. rewrite names_txid. intros ->.
  destruct (pl_doomed _ _ _ HS Z); [by left|done].
Qed.

Lemma over_end T : names h (rv_end v1) T <-> T = r.
Proof. apply names_txid. Qed.

Lemma over_live S T : plausible h w S -> T ∈ S -> T <> r -> live h T v1 <-> live h T v0.
Proof.
  intros HS HT Hne. unfold live. rewrite over_end. pose proof (over_free S T HS HT). simpl. tauto.
Qed.

(** Who wrote the version the transaction sees. *)
Lemma over_creator S : plausible h w S -> r ∈ S ->
  rv_begin v0 = Some (TxID r) /\ rv_end v0 = None \/ exists C, names h (rv_begin v0) C /\ C ∈ S /\ prec h C r.
Proof. intros HS HrS. by destruct (Hsee S HS HrS) as [? _]. Qed.

Lemma over_ref v : v ∈ vs' -> ref_ok h' w' k v.
Proof.
  intros [->|Hv]%over_new; [|apply old_ref, over_old; by right]. pose proof (old_ref v0 over_in) as [H1 H2 H3 H4 H5].
  split; unfold v1, set_end; cbn [rv_begin rv_end rv_materialized_at]; try done.
  - intros T [HT|[= <-]]; [apply H1; by left|apply own_tx].
  - intros e [He|?]; [|done]. apply H2. by left.
  - intros T [HT|HT]; [apply H3; by left|]. rewrite write_names, names_txid in HT. subst T. apply write_wrote. auto.
  - intros T HT. rewrite (write_field g_end) by done. intros He. right. by rewrite (Hown T HT He).
Qed.

Lemma over_facts_p S : plausible h' w' S -> facts_p h' k vs' S.
Proof.
  intros HS'. pose proof (write_plausible S HS') as HS. destruct (so_p _ _ _ Hs S k HS) as [H1 H2]. split.
  - intros v C X Hv. rewrite !write_names, write_prec. apply over_new in Hv as [->|Hv]; [|apply H1, over_old; by right].
    rewrite over_end. intros HC -> HrS Hne. simpl in HC. destruct (over_creator S HS HrS) as [[Hb _]|(C' & HC' & ? & ?)].
    + rewrite Hb, names_txid in HC. congruence.
    + by rewrite (names_inj Ht _ C C' HC HC').
  - intros W HW HwW. apply write_wrote in HwW as [HwW|[-> _]].
    + destruct (H2 W HW HwW) as [(v & Hv & Hn)|(e & He & Hl)]; [|right; exists e; by rewrite (write_field g_end)].
      left. apply over_old in Hv as [->|Hv]; [exists v1|exists v]; rewrite !write_names, over_new; [|auto].
      split; [by left|]. destruct Hn as [Hn|Hn]; [by left|]. by destruct (over_free S W HS HW).
    + left. exists v1. rewrite !write_names, over_new, over_end. auto.
Qed.

Lemma over_alone S v : consistent h w S -> v ∈ l1 ++ l2 -> forall W, W ∈ S -> live h W v0 -> ~ live h W v.
Proof.
  intros HS Hv W HW Hl0 Hl. pose proof (fc_one _ _ _ _ _ (so_c _ _ _ Hs S k HS) W HW) as Ho. rewrite Hold in Ho.
  rewrite list.filter_app, filter_cons, length_app, decide_True in Ho by done. simpl in Ho.
  assert (forall l, v ∈ l -> (0 < length (filter (live h W) l))%nat) as Hlen.
  { intros l Hvl. destruct (filter (live h W) l) as [|x l'] eqn:E; [|simpl; lia]. exfalso. apply (elem_of_nil v). rewrite <- E.
    by apply list_elem_of_filter. }
  apply elem_of_app in Hv as [Hv|Hv]; specialize (Hlen _ Hv); lia.
Qed.

Lemma over_gone S v : consistent h w S -> r ∈ S -> v ∈ l1 ++ l2 -> ~ live h r v.
Proof.
  intros HS HrS Hv Hl. pose proof (co_plausible _ _ _ HS) as HP. destruct (over_creator S HP HrS) as [[Hb He]|(C & HnC & HC & HCr)].
  - apply (over_alone S v HS Hv r HrS); [|done]. split; [by left|]. rewrite He. by intros ?%names_none.
  - pose proof (Hsee S HP HrS) as [_ Hne]. assert (v ∈ chain w k) as Hvc by (apply over_old; by right).
    apply (sees_not_over base Hs r k S HS v0 C r over_in Hne); try done; [by apply (sees_live r S)| |by left].
    apply (ro_wrote _ _ _ _ (so_refs _ _ _ Hs k v Hvc)). left. by destruct Hl.
Qed.

Lemma over_one S W : consistent h w S -> W ∈ S -> (length (filter (live h' W) vs') <= 1)%nat.
Proof.
  intros HS HW. rewrite (filter_same (live h' W) (live h W)) by (intros; apply write_live).
  pose proof (fc_one _ _ _ _ _ (so_c _ _ _ Hs S k HS) W HW) as Ho. rewrite Hnew. rewrite Hold in Ho.
  rewrite !list.filter_app, !filter_cons in *. destruct (decide (live h W v1)) as [Hl|]; destruct (decide (live h W v0)) as [Hl'|Hl']; try done.
  - rewrite length_app in *. simpl in *. lia.
  - destruct Hl'. destruct (decide (W = r)) as [->|]; [|by apply (over_live S W (co_plausible _ _ _ HS))].
    destruct Hl as [_ Hl]. destruct Hl. by apply over_end.
  - rewrite length_app in *. simpl in Ho. lia.
Qed.

Lemma over_over S W X v : consistent h w S -> W ∈ S -> X ∈ S -> v ∈ vs' -> live h W v -> wrote h X k \/ X = r -> prec h W X ->
  exists Y, Y ∈ S /\ names h (rv_end v) Y /\ (Y = X \/ prec h Y X).
Proof.
  intros HS HW HX Hv Hl HwX Hp. pose proof (so_c _ _ _ Hs S k HS) as Hc. pose proof (co_plausible _ _ _ HS) as HP.
  assert (W <> r) as HWr by (intros ->; destruct Hp as (e & He & _); pose proof write_none; congruence).
  apply over_new in Hv as [->|Hv].
  - destruct (decide (X = r)) as [->|HXr]; [exists r; rewrite over_end; auto|]. destruct HwX as [HwX|?]; [|done].
    apply (over_live S) in Hl; [|done..]. destruct (fc_over _ _ _ _ _ Hc W X v0) as (Y & HY & HnY & _); [done..|apply over_in|done|done|done|].
    by destruct (over_free S Y HP HY).
  - assert (v ∈ chain w k) as Hvc by (apply over_old; by right). destruct (decide (wrote h X k)) as [?|Hnw]; [by apply (fc_over _ _ _ _ _ Hc W X v)|].
    destruct HwX as [? | ->]; [done|]. destruct (over_creator S HP HX) as [[Hb _]|(C & HnC & HC & HCr)].
    { destruct Hnw. apply (ro_wrote _ _ _ _ (so_refs _ _ _ Hs k v0 over_in)). left. by left. }
    pose proof (Hsee S HP HX) as [_ Hne]. destruct (sees_last base Hs r k S HS v0 C over_in Hne HnC HC HCr) as [[_ Hmax] _].
    assert (live h C v0) as HlC by (by apply (sees_live r S)).
    assert (wrote h W k) as HwW by (apply (ro_wrote _ _ _ _ (so_refs _ _ _ Hs k v Hvc)); left; by destruct Hl).
    destruct (Hmax W) as [->|HWC]; [done|by destruct (over_alone S v HS Hv C HC HlC)|].
    destruct (fc_over _ _ _ _ _ Hc W C v) as (Y & HY & HnY & HYC); [done..| |done|].
    { apply (ro_wrote _ _ _ _ (so_refs _ _ _ Hs k v0 over_in)). by left. }
    exists Y. split; [done|]. split; [done|]. right. destruct HYC as [->|?]; [done|]. by eapply (prec_trans Ht).
Qed.

Lemma over_first S W : consistent h w S -> base k <> None -> W ∈ S -> wrote h W k ->
  exists v W', v ∈ vs' /\ rv_btree_resident v = true /\ W' ∈ S /\
    (names h (rv_begin v) W' \/ rv_begin v = None /\ names h (rv_end v) W') /\ (W' = W \/ prec h W' W).
Proof.
  intros HS Hb HW HwW. destruct (fc_first _ _ _ _ _ (so_c _ _ _ Hs S k HS) W Hb HW HwW) as (v & W' & Hv & Hres & HW' & Hn & HWW).
  apply over_old in Hv as [->|Hv]; [exists v1, W'|exists v, W'; rewrite over_new; auto 10]. rewrite over_new.
  split; [by left|]. repeat (split; [done|]). split; [|done]. destruct Hn as [?|[_ Hn]]; [by left|].
  by destruct (over_free S W' (co_plausible _ _ _ HS) HW').
Qed.

Lemma over_facts_c S : consistent h' w' S -> facts_c h' k vs' S.
Proof.
  intros HS'. pose proof (consistent_kept Ht write_evolves S HS') as HS. pose proof (so_c _ _ _ Hs S k HS) as [H1 H2 H3 H4 H5].
  pose proof (co_plausible _ _ _ HS) as HP. split.
  - intros W row HW. destruct (decide (W = r)) as [->|Hne].
    { rewrite write_hx_r. simpl. by rewrite lookup_insert_eq, Hval. }
    rewrite write_keeps by done. intros Hw. destruct (H1 W row HW Hw) as [(v & Hv & Hl & Hrow)|(Y & e & HY & HwY & He & Hle & Hp)].
    + left. apply over_old in Hv as [->|Hv]; [exists v1|exists v]; rewrite over_new, write_live; [|auto].
      split; [by left|]. split; [|done]. by apply (over_live S).
    + right. exists Y, e. rewrite write_wrote, write_prec, (write_field g_end) by done. auto 10.
  - intros W v HW Hv. rewrite write_live. intros Hl. destruct (decide (W = r)) as [->|Hne].
    + exfalso. apply over_new in Hv as [->|Hv]; [|by apply (over_gone S v)]. destruct Hl as [_ Hl]. apply Hl. by apply over_end.
    + rewrite write_keeps by done. apply over_new in Hv as [->|Hv]; [|apply H2; [done| |done]; apply over_old; by right].
      apply (H2 W v0); [done|apply over_in|]. by apply (over_live S).
  - intros W HW. by apply (over_one S).
  - intros W X v HW HX Hv. rewrite write_live, write_wrote, write_prec. setoid_rewrite write_names. setoid_rewrite write_prec.
    intros Hl HwX Hp. apply (over_over S W X v); try done. tauto.
  - intros W Hb HW. rewrite write_wrote. setoid_rewrite write_names. setoid_rewrite write_prec.
    intros [HwW|[-> _]]; [by apply over_first|]. destruct (decide (wrote h r k)) as [|Hnw]; [by apply over_first|].
    destruct (over_creator S HP HW) as [[Hbr _]|(C & HnC & HC & HCr)].
    { destruct Hnw. apply (ro_wrote _ _ _ _ (so_refs _ _ _ Hs k v0 over_in)). left. by left. }
    destruct (over_first S C HS Hb HC) as (v & W' & Hv & Hres & HW' & Hn & HWC).
    { apply (ro_wrote _ _ _ _ (so_refs _ _ _ Hs k v0 over_in)). by left. }
    exists v, W'. repeat (split; [done|]). right. destruct HWC as [->|?]; [done|]. by eapply (prec_trans Ht).
Qed.

Lemma over_store : store_ok h' w'.
Proof. apply write_store; [apply over_ref|apply over_facts_p|apply over_facts_c]. Qed.
End Over.
End Step.
End Write.
