(* ===== verification/MvccStatements.v ===== *)
(** * Actions of statements

    The invariant after each action of a statement, and what the transaction has learned. *)
From stdpp Require Import gmap functions.
From S2P Require Import Prelude Errors Effects Mvcc MvccWords Threads MvccSession MvccGhost MvccEvolve MvccScan MvccRead MvccWrite.

Section Statements.
Context (base : RowID -> option Row).
#[local] Abbreviation store_ok := (store_ok base).
#[local] Abbreviation know_ok := (know_ok base).
#[local] Abbreviation tx_facts := (tx_facts base).

(** ** Knowledge *)
Section Learn.
Context {h : hist} {w : MvStore} (Hs : store_ok h w) (r : Z) (Hr : reader w r) (g : gtx).

(** Only what the transaction has done and knows differs. *)
Record same_store (g g' : gtx) : Prop := {
  ss_begin : g_begin g' = g_begin g;
  ss_end : g_end g' = g_end g;
  ss_fate : g_fate g' = g_fate g;
  ss_writes : g_writes g' = g_writes g;
  ss_checked : g_checked g' = g_checked g;
  ss_settled : g_settled g' = g_settled g;
  ss_safe : g_safe g' = g_safe g;
  ss_refs : g_refs g' = g_refs g;
  ss_taken : g_taken g' = g_taken g;
  ss_notify : g_notify g' = g_notify g;
  ss_listed : g_listed g' = g_listed g;
  ss_gone : g_gone g' = g_gone g;
  ss_told : g_told g' = g_told g
}.
Context (Hg : same_store (hx h r) g).
Let h' := upd h r g.
Let Ht := so_times _ _ _ Hs.

Lemma learn_field {A} (f : gtx -> A) T : f g = f (hx h r) -> f (hx h' T) = f (hx h T).
Proof. intros Hf. unfold h'. destruct (decide (T = r)) as [->|]; [by rewrite hx_upd|by rewrite hx_upd_ne]. Qed.

Lemma learn_deps X : deps h' w X = deps h w X.
Proof. unfold deps. by rewrite (learn_field g_notify) by apply Hg. Qed.

Lemma learn_plausible S : plausible h' w S -> plausible h w S.
Proof.
  apply plausible_fewer.
  - intros T. by rewrite (learn_field g_fate) by apply Hg.
  - intros T. unfold doomed. by rewrite (learn_field g_fate) by apply Hg.
  - intros T X. rewrite learn_deps. auto.
Qed.

Lemma learn_evolves : evolves h w h' w.
Proof.
  apply evolves_same; [|done|apply learn_plausible]. intros T.
  by rewrite (learn_field g_begin), (learn_field g_end), (learn_field g_writes), (learn_field g_fate) by apply Hg.
Qed.

Lemma learn_begun : begun (hx h r).
Proof. by destruct (reader_entry base r w Hs Hr) as (? & ? & ? & ? & ?). Qed.

Lemma learn_times : times_ok h' w.
Proof.
  apply (times_same h w); [done| | |done|lia|lia].
  - intros T. by rewrite (learn_field g_begin), (learn_field g_end), (learn_field g_fate) by apply Hg.
  - intros T HT. unfold h'. rewrite hx_upd_ne; [by apply (ti_unborn _ _ Ht)|]. intros ->. by apply HT, learn_begun.
Qed.

Lemma learn_store : (forall S, consistent h' w S -> consistent h w S -> r ∈ S -> tx_facts h S r -> tx_facts h' S r) -> store_ok h' w.
Proof.
  intros Hf. pose proof Hr as (tr & Htr & Hact). destruct (reader_ghost base Hs r tr Htr Hact) as (Hun & He & Hset & _).
  assert (g_safe (hx h r) = false) as Hsafe.
  { destruct (g_safe (hx h r)) eqn:E; [|done]. apply (gh_safe _ (so_ghost _ _ _ Hs r)) in E. congruence. }
  apply (store_step base h w h' w); try done.
  - apply learn_times.
  - apply learn_evolves.
  - intros T. unfold h'. destruct (decide (T = r)) as [->|]; [|rewrite hx_upd_ne by done; apply (so_ghost _ _ _ Hs)]. rewrite hx_upd.
    destruct (so_ghost _ _ _ Hs r) as [H1 H2 H3 H4 H5 H6 H7 H0 H9], Hg as [G1 G2 G3 G4 G5 G6 G7 G8 G9 G10 G11 G12 G13].
    split; rewrite ?G1, ?G2, ?G3, ?G4, ?G5, ?G6, ?G7, ?G8, ?G9, ?G10, ?G11, ?G12; try done. by rewrite Hun.
  - intros T. unfold h'. destruct (decide (T = r)) as [->|]; [|rewrite hx_upd_ne by done; apply (so_tx _ _ _ Hs)]. rewrite hx_upd.
    pose proof (so_tx _ _ _ Hs r) as H. rewrite Htr in *. simpl in *.
    destruct H as [H1 H0 H2 H3 H4 H5 H6 H7 H8 H9], Hg as [G1 G2 G3 G4 G5 G6 G7 G8 G9 G10 G11 G12 G13].
    split; unfold begun in *; rewrite ?G1, ?G2, ?G3, ?G4, ?G5, ?G6, ?G7, ?G8, ?G9, ?G10, ?G11, ?G12; try done.
    + rewrite Hact in *. simpl in *. by rewrite G2, G3.
    + intros Hl. destruct (H8 Hl) as [? _]. congruence.
  - destruct (so_deps _ _ _ Hs) as [Hc Hed Hto]. split.
    + intros T t HT. setoid_rewrite learn_deps. by apply Hc.
    + intros T X. rewrite learn_deps. intros HT. destruct (Hed T X HT) as (Hb & (e & He' & Hl) & Hst). unfold begun, prec.
      rewrite (learn_field g_settled), (learn_field g_begin), (learn_field g_end) by apply Hg. eauto.
    + intros T d. unfold doomed. rewrite (learn_field g_told), (learn_field g_fate) by apply Hg. apply Hto.
  - apply (so_fin _ _ _ Hs).
  - apply (so_ckpt _ _ _ Hs).
  - intros k v Hv. eapply (ref_kept learn_times learn_evolves); [by apply (so_refs _ _ _ Hs)|]. intros T HT Hk.
    by rewrite (learn_field g_refs) by apply Hg.
  - intros k. left. split; [done|]. intros W. by rewrite (learn_field g_writes) by apply Hg.
  - intros S T HS HT. pose proof (consistent_kept Ht learn_evolves S HS) as HS0. right. pose proof (so_t _ _ _ Hs S T HS0 HT) as Hft.
    destruct (decide (T = r)) as [->|Hne]; [by apply Hf|]. destruct (decide (0 <= g_begin (hx h T))) as [Hb|Hb].
    + eapply (facts_kept base Ht learn_evolves); [done| | | | |done]; unfold h'; rewrite hx_upd_ne by done; try done. apply list.Forall_forall. auto.
    + apply facts_unborn. unfold h'. rewrite hx_upd_ne by done. by apply (ti_unborn _ _ Ht).
  - intros T. left. apply (learn_field g_checked), Hg.
Qed.
End Learn.

Lemma learns_know h w r f : store_ok h w -> reader w r ->
  (forall S, consistent h w S -> r ∈ S -> know_ok h S r f) -> store_ok (upd h r (g_learn f (hx h r))) w.
Proof.
  intros Hs Hr Hf. assert (same_store (hx h r) (g_learn f (hx h r))) as Hg by (by split).
  apply (learn_store Hs r Hr _ Hg). intros S HS' HS HrS Hfa. pose proof (learn_begun Hs r Hr) as Hb.
  eapply (facts_kept base (so_times _ _ _ Hs) (learn_evolves (w := w) r _ Hg)); try done; rewrite ?hx_upd; try done. constructor.
  - right. apply (know_kept base (so_times _ _ _ Hs) (learn_evolves (w := w) r _ Hg)); [done|by rewrite hx_upd|by apply Hf].
  - apply list.Forall_forall. auto.
Qed.

Lemma reads_are_snoc P o ops : forall own,
  reads_are P own ops -> match o with
                         | Read k v => match fold_left apply_op ops own !! k with Some v' => v = v' | None => P k v end
                         | Write _ _ => True
                         end -> reads_are P own (ops ++ [o]).
Proof. induction ops as [|o' ops IH]; intros own; simpl; [done|]. intros [Ho Hops] H. split; [done|]. by apply IH. Qed.

(** The end of a statement. *)
Lemma did_store h w r o : store_ok h w -> reader w r ->
  (forall S, consistent h w S -> r ∈ S -> g_writes (hx h r) = g_pending (hx h r) ∪ own_writes (g_ops (hx h r)) ->
    apply_op (own_writes (g_ops (hx h r))) o = g_writes (hx h r) /\
    match o with
    | Read k v => match own_writes (g_ops (hx h r)) !! k with Some v' => v = v' | None => snap_is base h S r k v end
    | Write _ _ => True
    end) ->
  store_ok (upd h r (g_did o (hx h r))) w.
Proof.
  intros Hs Hr Ho. assert (same_store (hx h r) (g_did o (hx h r))) as Hg by (by split).
  apply (learn_store Hs r Hr _ Hg). intros S HS' HS HrS [H1 H2 H3]. pose proof (learn_begun Hs r Hr) as Hb.
  destruct (Ho S HS HrS H1) as [Hw Hrd].
  split; rewrite hx_upd; simpl.
  - unfold own_writes. rewrite fold_left_app. simpl. fold (own_writes (g_ops (hx h r))). by rewrite Hw, (left_id_L ∅ (∪)).
  - eapply reads_are_mono; [|by apply reads_are_snoc]. intros k v.
    by apply (snap_kept base (so_times _ _ _ Hs) (learn_evolves (w := w) r _ Hg)).
  - constructor.
Qed.

(** ** Writes *)
Lemma active_tx_ok h w r : store_ok h w -> reader w r -> does (active_tx r) (fun t w' => w' = w /\ acts_as h r t) w.
Proof.
  intros Hs (tr & Htr & Hact). unfold active_tx. apply wpg_bind, wpg_gets. rewrite Htr. apply wpg_bind, wpg_assert.
  { by rewrite Hact. }
  apply wpg_ret. split; [done|]. by apply (entry_acts base r w).
Qed.

Lemma insert_row_ok h w r row resident : store_ok h w -> reader w r ->
  (forall S, consistent h w S -> r ∈ S -> know_ok h S r (KRow (r_id row) None)) ->
  (forall S, consistent h w S -> r ∈ S -> resident = true \/
    (base (r_id row) <> None -> wrote h r (r_id row) \/ exists W, before h S r (r_id row) W)) ->
  does (insert_row resident r row) (fun _ w' =>
    store_ok (upd h r (g_write (r_id row) (Some row) (hx h r))) w' /\ tx_ids w' = tx_ids w) w.
Proof.
  intros Hs Hr Habs Hres. unfold insert_row. apply wpg_bind. eapply wpg_mono; [by apply active_tx_ok|]. intros tx ? [-> [Hid Hb]].
  apply wpg_bind. unfold get_version_id. apply wpg_bind, wpg_gets, wpg_bind, wpg_modifies, wpg_ret.
  set (vid := version_id_counter w). set (w1 := with_version_ids (vid + 1) w). rewrite Hid.
  rewrite (packed_fits _ (reader_fits base r w Hs Hr)). apply wpg_bind, wpg_ret. set (nv := RowVersion_new _ _ _ _ _).
  unfold insert_version. apply wpg_bind, wpg_bind, wpg_gets, wpg_bind. eapply wpg_mono.
  { apply (insert_version_raw_ok nv (chain w (r_id row)) w1); [done|]. intros v T [->|Hv]%elem_of_cons HT.
    - simpl in HT. injection HT as <-. destruct Hr as (tr & Htr & _). by exists tr.
    - by apply (ro_id _ _ _ _ (so_refs _ _ _ Hs _ v Hv)); left. }
  intros vs' w2 [-> Hperm]. unfold set_chain. apply wpg_modifies.
  unfold insert_to_write_set, active_tx. apply wpg_bind, wpg_bind, wpg_gets. simpl. pose proof Hr as (tr & Htr & Hact).
  rewrite Htr, Hact. apply wpg_bind, wpg_assert; [done|]. apply wpg_ret, wpg_modifies. split; [|done].
  by apply (add_store base Hs r Hr (r_id row) (Some row) (vs' := vs')) with (nv := nv).
Qed.

(** The map of chains may have empty ones. *)
Lemma store_rows h w f : store_ok h w -> (forall k, chain (with_rows f w) k = chain w k) -> store_ok h (with_rows f w).
Proof.
  intros Hs Hc. destruct Hs as [H1 H2 H3 H4 H5 H6 H7 H8 H9 H10 H11]. split; try done.
  - destruct H1. by split.
  - destruct H4. by split.
  - intros k v. rewrite Hc. intros Hv. destruct (H6 k v Hv). by split.
  - intros S k HS. rewrite Hc. apply H7. destruct HS. by split.
  - intros S k HS. rewrite Hc. apply H8. destruct HS as [[] ?]. by split.
  - intros S T HS. apply H9. destruct HS as [[] ?]. by split.
  - intros S T W k e e' HS. apply H10. destruct HS. by split.
Qed.

(** What [delete_from_table] leaves. *)
Definition deleted_ok (h : hist) (r : Z) (k : RowID) (record : option Row) (n : Z) (o : poll bool) (w : MvStore) : Prop :=
  tx_ids w = n /\
  match o with
  | Ready true => store_ok (upd h r (g_write k None (hx h r))) w
  | Ready false => store_ok h w /\ reader w r /\ record = None /\ forall S, consistent h w S -> r ∈ S -> know_ok h S r (KRow k None)
  | Fails _ => store_ok h w
  | _ => False
  end.

Lemma scanned_ids h w w' : scanned h w w' -> tx_ids w' = tx_ids w.
Proof. intros [_ -> _]. done. Qed.

Lemma insert_to_write_set_ok w r k (Q : () -> MvStore -> Prop) : reader w r ->
  Q () (with_txs (alter (fun t => set_tx_write_set (write_set_insert k (tx_write_set t)) t) r) w) -> does (insert_to_write_set r k) Q w.
Proof.
  intros (tr & Htr & Hact) HQ. unfold insert_to_write_set, active_tx. apply wpg_bind, wpg_bind, wpg_gets. rewrite Htr, Hact.
  apply wpg_bind, wpg_assert; [done|]. by apply wpg_ret, wpg_modifies.
Qed.

(** The scan found the version [v] or nothing. *)
Lemma delete_found h w r k l1 v l2 : store_ok h w -> reader w r -> reverse (chain w k) = l1 ++ v :: l2 ->
  free_end (h := h) v -> own_if_open (h := h) r v -> (forall S, plausible h w S -> r ∈ S -> sees h S r v) ->
  does (set_chain k (reverse (l1 ++ set_end (Some (TxID r)) v :: l2));; insert_to_write_set r k;; mret true)
    (fun b w' => b = true /\ tx_ids w' = tx_ids w /\ store_ok (upd h r (g_write k None (hx h r))) w') w.
Proof.
  intros Hs Hr Hl Hf Ho Hsee. apply wpg_bind, wpg_modifies, wpg_bind, insert_to_write_set_ok; [done|]. apply wpg_ret. do 2 (split; [done|]).
  apply (over_store base Hs r Hr k None (vs' := reverse (l1 ++ set_end (Some (TxID r)) v :: l2))) with (l1 := reverse l2) (l2 := reverse l1) (v0 := v); try done.
  - rewrite <- (reverse_involutive (chain w k)), Hl. by rewrite reverse_app, reverse_cons, <- (assoc_L (++)).
  - by rewrite reverse_app, reverse_cons, <- (assoc_L (++)).
Qed.

Lemma delete_tombstone h w r k row : store_ok h w -> reader w r -> (forall S, consistent h w S -> r ∈ S -> know_ok h S r (KRow k None)) ->
  does (versions ← insert_tombstone r row (chain w k); set_chain k versions;; insert_to_write_set r k;; mret true)
    (fun b => deleted_ok h r k (Some row) (tx_ids w) (Ready b)) w.
Proof.
  intros Hs Hr Habs. apply wpg_bind. unfold insert_tombstone, get_version_id.
  apply wpg_bind, wpg_bind, wpg_gets, wpg_bind, wpg_modifies, wpg_ret.
  rewrite (packed_fits _ (reader_fits base r w Hs Hr)). apply wpg_bind, wpg_ret. set (nv := RowVersion_new _ _ _ _ _). eapply wpg_mono.
  { apply (insert_version_raw_ok nv (chain w k)); [done|]. intros v T [->|Hv]%elem_of_cons HT; [done|].
    by apply (ro_id _ _ _ _ (so_refs _ _ _ Hs _ v Hv)); left. }
  intros vs' w2 [-> Hperm]. apply wpg_bind, wpg_modifies, wpg_bind, insert_to_write_set_ok; [done|]. apply wpg_ret. split; [done|].
  apply (add_store base Hs r Hr k None (vs' := vs')) with (nv := nv); try done. by left.
Qed.

Lemma delete_ok h w r k record : store_ok h w -> reader w r ->
  wpp (delete_from_table r k record) (deleted_ok h r k record (tx_ids w)) w.
Proof.
  intros Hs Hr. unfold delete_from_table. apply wpp_bind, wpp_does. eapply wpg_mono; [by apply active_tx_ok|]. intros tx ? [-> Htx].
  simpl. apply wpp_bind, wpp_does, wpg_gets. simpl. destruct (decide (rows w !! k = None /\ record = None)) as [[Hk ->]|Hne].
  { rewrite Hk. split; [done|]. split; [done|]. split; [done|]. split; [done|]. intros S HS HrS.
    apply (row_known base Hs r Hr k S HS HrS None). intros v. unfold chain. rewrite Hk. set_solver. }
  set (w0 := with_rows <[k := chain w k]> w).
  assert (store_ok h w0) as Hs0.
  { apply store_rows; [done|]. intros k'. unfold chain at 1. simpl. destruct (decide (k' = k)) as [->|]; [by rewrite lookup_insert_eq|].
    by rewrite lookup_insert_ne. }
  assert (chain w0 k = chain w k) as Hc0 by (unfold chain at 1; simpl; by rewrite lookup_insert_eq).
  enough (wpp (set_chain k (chain w k);; deleted ← delete_visible tx (reverse (chain w k));
    match deleted with
    | Some reversed => set_chain k (reverse reversed);; insert_to_write_set r k;; mret true
    | None => match record with
              | Some row => versions ← insert_tombstone r row (chain w k); set_chain k versions;; insert_to_write_set r k;; mret true
              | None => mret false
              end
    end) (deleted_ok h r k record (tx_ids w)) w) as H.
  { unfold chain in H. destruct (rows w !! k), record; try done. by destruct Hne. }
  clear Hne. apply wpp_bind, wpp_does, wpg_modifies. fold w0. rewrite <- Hc0. apply wpp_bind. eapply wpp_mono.
  { apply (delete_visible_ok base r tx k Htx (reverse (chain w0 k)) w0 Hs0 Hr). set_solver. }
  intros o w1 (Hs1 & Hsc & Ho). pose proof (reader_scanned h w0 w1 r Hsc Hr) as Hr1. pose proof (scanned_chain h w0 w1 k Hsc) as Hc1.
  pose proof (scanned_ids h w0 w1 Hsc) as Hids. change (tx_ids w) with (tx_ids w0). rewrite <- Hids. destruct o as [[vs'|]| |e|]; try done.
  - destruct Ho as (l1 & v & l2 & Hl & -> & Hf & Hown & Hsee). rewrite <- Hc1 in Hl. simpl.
    apply wpp_does. eapply wpg_mono; [by apply (delete_found h w1 r k l1 v l2)|]. by intros b w2 (-> & ? & ?).
  - simpl. assert (forall S, consistent h w1 S -> r ∈ S -> know_ok h S r (KRow k None)) as Habs.
    { intros S HS HrS. apply (row_known base Hs1 r Hr1 k S HS HrS None). intros v. rewrite Hc1. intros Hv. apply Ho; [apply HS|done|set_solver]. }
    destruct record as [row|]; [|done]. rewrite <- Hc1. by apply wpp_does, delete_tombstone.
Qed.
End Statements.
