(* ===== verification/MvccFinish.v ===== *)
(** * Actions at the end of a transaction

    The invariant after the actions of commits and rollbacks that leave the chains alone. *)
From stdpp Require Import gmap functions.
From S2P Require Import Prelude Errors Effects Mvcc MvccWords Threads MvccSession MvccGhost MvccEvolve MvccScan MvccRead MvccWrite MvccStatements.

Section Finish.
Context (base : RowID -> option Row).
#[local] Abbreviation store_ok := (store_ok base).

Lemma upd_field {A} (f : gtx -> A) h T g W : f g = f (hx h T) -> f (hx (upd h T g) W) = f (hx h W).
Proof. intros Hf. destruct (decide (W = T)) as [->|]; [by rewrite hx_upd|by rewrite hx_upd_ne]. Qed.

(** ** Entries *)
Section Owner.
Context {h : hist} {w : MvStore} (Hs : store_ok h w) (T : Z) (t t' : Transaction) (g : gtx).
Context (Ht : txs w !! T = Some t) (Hcore : same_core (hx h T) g).
Let h' := upd h T g.
Let w' := with_txs <[T := t']> w.
Context (Hcnt : tx_commit_dep_counter t' = tx_commit_dep_counter t) (Hab : tx_abort_now t' = tx_abort_now t).
Context (Hdep : tx_commit_dep_set t' ∪ g_notify g = tx_commit_dep_set t ∪ g_notify (hx h T)).
Context (Hset : g_settled g = true -> g_settled (hx h T) = true \/ tx_commit_dep_counter t = 0).
Context (Htold : g_told g ⊆ g_told (hx h T)).
Context (Hundone : g_fate (hx h T) = Undone -> g_fate g = Undone).

Lemma owner_core W : same_core (hx h W) (hx h' W).
Proof. unfold h'. destruct (decide (W = T)) as [->|]; [by rewrite hx_upd|rewrite hx_upd_ne by done; apply same_core_refl]. Qed.

Lemma owner_txs W : txs w' !! W = if decide (W = T) then Some t' else txs w !! W.
Proof. unfold w'. simpl. destruct (decide (W = T)) as [->|]; [by rewrite lookup_insert_eq|by rewrite lookup_insert_ne]. Qed.

Lemma owner_deps X : deps h' w' X = deps h w X.
Proof.
  unfold deps, h'. rewrite owner_txs. destruct (decide (X = T)) as [->|]; [|by rewrite hx_upd_ne]. rewrite hx_upd, Ht. exact Hdep.
Qed.

Lemma owner_doomed W : doomed h w W -> doomed h' w' W.
Proof.
  unfold doomed, h'. rewrite owner_txs. destruct (decide (W = T)) as [->|]; [|by rewrite hx_upd_ne]. rewrite hx_upd.
  intros [?|(t0 & ? & ?)]; [by left; apply Hundone|right]. exists t'. split; [done|]. congruence.
Qed.

Lemma owner_deps_ok : deps_ok h' w'.
Proof.
  destruct (so_deps _ _ _ Hs) as [Hc Hed Hto]. split.
  - intros W t0. rewrite owner_txs. setoid_rewrite owner_deps. destruct (decide (W = T)) as [->|]; [|by apply Hc].
    intros [= <-]. rewrite Hcnt. by apply Hc.
  - intros W X. rewrite owner_deps. intros HW. destruct (Hed W X HW) as (Hb & (e & He & Hl) & Hst). unfold begun, prec.
    rewrite (sc_begin _ _ (owner_core W)), (sc_end _ _ (owner_core X)). split; [done|]. split; [eauto|].
    unfold h'. destruct (decide (W = T)) as [->|]; [|by rewrite hx_upd_ne]. rewrite hx_upd. destruct (g_settled g) eqn:E; [|done].
    destruct (Hset eq_refl) as [|H0]; [congruence|]. destruct (Hc T t Ht) as (D & HD & Hn). rewrite H0 in Hn.
    assert (D = ∅) as -> by (apply leibniz_equiv, size_empty_inv; lia). apply HD in HW. set_solver.
  - intros W d Hd. apply owner_doomed, (Hto W). unfold h' in Hd. destruct (decide (W = T)) as [->|]; [|by rewrite hx_upd_ne in Hd].
    rewrite hx_upd in Hd. by apply Htold.
Qed.

Lemma owner_plausible S : plausible h' w' S -> plausible h w S.
Proof.
  apply plausible_fewer.
  - intros W. apply (sc_kept _ _ (owner_core W)).
  - apply owner_doomed.
  - intros W X. rewrite owner_deps. auto.
Qed.

Lemma owner_store : ghost_ok g -> entry_ok g T t' -> store_ok h' w'.
Proof.
  intros Hg He. apply (store_quiet base h w h' w'); try done; try (unfold w'; simpl; lia).
  - apply owner_core.
  - intros W HW. unfold h'. destruct (decide (W = T)) as [->|]; [|rewrite hx_upd_ne by done; by apply (ti_unborn _ _ (so_times _ _ _ Hs))].
    pose proof (so_tx _ _ _ Hs T) as H. rewrite Ht in H. by destruct (HW (en_begun _ _ _ H)).
  - apply (so_fin _ _ _ Hs).
  - intros W HW _. rewrite owner_txs. by destruct (decide (W = T)).
  - intros W. unfold h'. destruct (decide (W = T)) as [->|]; [by rewrite hx_upd|rewrite hx_upd_ne by done; apply (so_ghost _ _ _ Hs)].
  - intros W. unfold h'. rewrite owner_txs. destruct (decide (W = T)) as [->|]; [by rewrite hx_upd|].
    rewrite hx_upd_ne by done. apply (so_tx _ _ _ Hs).
  - apply owner_deps_ok.
  - apply owner_plausible.
Qed.
End Owner.

Lemma alter_insert_Some (m : gmap Z Transaction) T t f : m !! T = Some t -> alter f T m = <[T := f t]> m.
Proof.
  intros Ht. apply map_eq. intros W. destruct (decide (W = T)) as [->|]; [by rewrite lookup_alter_eq, Ht, lookup_insert_eq|].
  by rewrite lookup_alter_ne, lookup_insert_ne.
Qed.

Lemma on_tx_ok w T t f (Q : () -> MvStore -> Prop) : txs w !! T = Some t -> Q () (with_txs <[T := f t]> w) -> does (on_tx T f) Q w.
Proof. intros Ht HQ. apply wpg_modifies. unfold with_txs. by rewrite (alter_insert_Some _ T t). Qed.

Lemma owner_here h w T : store_ok h w -> begun (hx h T) -> g_gone (hx h T) = false ->
  exists t, txs w !! T = Some t /\ entry_ok (hx h T) T t.
Proof.
  intros Hs Hb Hg. pose proof (so_tx _ _ _ Hs T) as H. destruct (txs w !! T) as [t|]; [eauto|]. destruct H as [H _]. specialize (H Hb). congruence.
Qed.

(** The actions of the owner of [T], which knows its history. *)
(** The counters may advance at any time, and final states may be published. *)
Lemma tick_store h w w' : store_ok h w -> rows w' = rows w -> txs w' = txs w -> (forall T s, finalized_tx_states w' !! T = Some s -> exists e, s = Committed e) ->
  durable_txid_max w' = durable_txid_max w -> clock w <= clock w' -> tx_ids w <= tx_ids w' -> store_ok h w'.
Proof.
  intros Hs Hr Hx Hf Hd Hc Hi.
  assert (forall X, deps h w' X = deps h w X) as Hdeps by (intros X; unfold deps; by rewrite Hx).
  assert (forall T, doomed h w' T <-> doomed h w T) as Hdoom by (intros T; unfold doomed; by rewrite Hx).
  apply (store_quiet base h w h w'); try done.
  - apply (ti_unborn _ _ (so_times _ _ _ Hs)).
  - intros T. by rewrite Hx.
  - apply (so_ghost _ _ _ Hs).
  - rewrite Hx. apply (so_tx _ _ _ Hs).
  - destruct (so_deps _ _ _ Hs) as [H1 H2 H3]. split; [rewrite Hx|..].
    + setoid_rewrite Hdeps. apply H1.
    + setoid_rewrite Hdeps. apply H2.
    + setoid_rewrite Hdoom. apply H3.
  - intros S. apply plausible_fewer; [done|by setoid_rewrite Hdoom|]. setoid_rewrite Hdeps. auto.
Qed.

Lemma clock_store h w c : store_ok h w -> clock w <= c -> store_ok h (with_clock c w).
Proof. intros Hs Hc. by apply (tick_store h w); try apply (so_fin _ _ _ Hs). Qed.

Section Actions.
Context {h : hist} {w : MvStore} (Hs : store_ok h w) (T : Z) (Hb : begun (hx h T)) (Hhere : g_gone (hx h T) = false).
Let g := hx h T.

Lemma committing_ok : does (committing_tx T) (fun t w' => w' = w /\ txs w !! T = Some t /\ entry_ok g T t) w.
Proof.
  destruct (owner_here h w T Hs Hb Hhere) as (t & Ht & He). unfold committing_tx. apply wpg_bind, wpg_gets. rewrite Ht. by apply wpg_ret.
Qed.

Lemma load_write_set_ok : g_listed g = true -> does (load_write_set T) (fun keys w' => w' = w /\ (list_to_set keys : gset RowID) = dom (g_writes g)) w.
Proof.
  intros Hl. unfold load_write_set. apply wpg_bind. eapply wpg_mono; [apply committing_ok|]. intros t w' (-> & Ht & He). apply wpg_ret.
  split; [done|]. by apply (en_writes _ _ _ He).
Qed.

Lemma no_dependents_ok : g_writes g = ∅ -> does (check_no_dependents T) (fun _ w' => w' = w) w.
Proof.
  intros Hw. unfold check_no_dependents. apply wpg_bind. eapply wpg_mono; [apply committing_ok|]. intros t w' (-> & Ht & He).
  apply wpg_assert; [|done]. apply bool_decide_eq_true. destruct (decide (tx_commit_dep_set t = ∅)) as [|Hn]; [done|].
  by destruct (en_deps _ _ _ He Hn).
Qed.

(** [g_settled] and [g_safe] record what the loads have shown. *)
Lemma settle_store b t : txs w !! T = Some t -> is_Some (g_end g) ->
  g_settled g = true \/ tx_commit_dep_counter t = 0 -> (b = true -> tx_abort_now t = false) ->
  store_ok (upd h T (g_settle b g)) (with_txs <[T := t]> w).
Proof.
  intros Ht Hend Hset Hab. pose proof (so_tx _ _ _ Hs T) as He. rewrite Ht in He. destruct He as [E1 E2 E3 E4 E5 E6 E7 E8 E9 E10].
  destruct (so_ghost _ _ _ Hs T) as [G1 G2 G3 G4 G5 G6 G7 G8 G9]. subst g.
  apply (owner_store Hs T t t); try done.
  - split; simpl; try done. intros Hf. destruct (G4 Hf) as [[H1 [H2 H3]] ?]. split; [|done]. split; [simpl; by rewrite H1, orb_true_r|done].
  - split; simpl; try done.
    + intros Hl. destruct (E9 Hl) as (H1 & H2 & H3). split; [simpl; by rewrite H1, orb_true_r|done].
    + intros [?|?]%orb_true_iff; auto.
Qed.

Lemma same_txs t : txs w !! T = Some t -> with_txs <[T := t]> w = w.
Proof. intros Ht. destruct w. unfold with_txs. simpl in *. by rewrite insert_id. Qed.

Lemma has_dependencies_ok : is_Some (g_end g) ->
  does (has_dependencies T) (fun b w' => w' = w /\ (b = false -> store_ok (upd h T (g_settle false g)) w)) w.
Proof.
  intros Hend. unfold has_dependencies. apply wpg_bind. eapply wpg_mono; [apply committing_ok|]. intros t w' (-> & Ht & He). apply wpg_ret.
  split; [done|]. intros Hz%Z.ltb_ge. rewrite <- (same_txs t Ht). apply settle_store; try done. right.
  destruct (de_count _ _ (so_deps _ _ _ Hs) T t Ht) as (D & _ & Hn). lia.
Qed.

Lemma check_abort_now_ok : is_Some (g_end g) -> wpp (check_abort_now T) (fun o w' => w' = w /\
  match o with
  | Ready _ => g_settled g = true -> store_ok (upd h T (g_settle true g)) w
  | Fails _ => True
  | _ => False
  end) w.
Proof.
  intros Hend. unfold check_abort_now. apply wpp_bind, wpp_does. eapply wpg_mono; [apply committing_ok|]. intros t w' (-> & Ht & He). simpl.
  destruct (tx_abort_now t) eqn:Ea; [done|]. split; [done|]. intros Hset. rewrite <- (same_txs t Ht). apply settle_store; auto.
Qed.

(** A change of the entry alone. *)
Lemma entry_store t t' : txs w !! T = Some t -> tx_commit_dep_counter t' = tx_commit_dep_counter t ->
  tx_abort_now t' = tx_abort_now t -> tx_commit_dep_set t' = tx_commit_dep_set t -> entry_ok g T t' ->
  store_ok (upd h T g) (with_txs <[T := t']> w).
Proof.
  intros Ht Hc Ha Hd He. apply (owner_store Hs T t t'); try done; [by rewrite Hd|auto|apply (so_ghost _ _ _ Hs)].
Qed.

Lemma own_log_ok : cleared g -> does (own_logical_log_record T) (fun _ w' => store_ok (upd h T g) w' /\ tx_ids w' = tx_ids w) w.
Proof.
  intros Hcl. destruct (owner_here h w T Hs Hb Hhere) as (t & Ht & He). apply (on_tx_ok w T t); [done|]. split; [|done].
  apply (entry_store t); try done. destruct He. by split.
Qed.

Definition decided (f : fate) (e : option Z) (w' : MvStore) : Prop :=
  store_ok (upd h T (g_decide f g)) w' /\ tx_ids w' = tx_ids w /\ exists t, txs w !! T = Some t /\
    txs w' !! T = Some (set_tx_state (match e with Some e => Committed e | None => Aborted end) t).

Lemma commit_store t e : txs w !! T = Some t -> cleared g -> g_end g = Some e -> g_fate g <> Undone ->
  decided Kept (Some e) (with_txs <[T := set_tx_state (Committed e) t]> w).
Proof.
  intros Ht Hcl Hend Hf. pose proof (so_tx _ _ _ Hs T) as He. rewrite Ht in He. split; [|split; [done|]].
  - destruct He as [E1 E2 E3 E4 E5 E6 E7 E8 E9 E10]. destruct (so_ghost _ _ _ Hs T) as [G1 G2 G3 G4 G5 G6 G7 G8 G9]. subst g.
    apply (owner_store Hs T t); try done; simpl; [auto|].
    split; simpl; try done. intros Hl. by destruct Hf; auto.
  - exists t. split; [done|]. simpl. by rewrite lookup_insert_eq.
Qed.

Lemma commit_end_ok e : cleared g -> g_end g = Some e -> g_fate g <> Undone -> does (commit_end T e) (fun _ w' => decided Kept (Some e) w') w.
Proof.
  intros Hcl Hend Hf. destruct (owner_here h w T Hs Hb Hhere) as (t & Ht & _). unfold commit_end. apply wpg_bind, wpg_gets. rewrite Ht.
  rewrite store_state_fits by apply (gh_word _ (so_ghost _ _ _ Hs T) e Hend). apply (on_tx_ok w T t); [done|]. by apply commit_store.
Qed.

Lemma check_committed_ok e : g_fate g = Kept -> g_end g = Some e -> does (check_committed T e) (fun _ w' => w' = w) w.
Proof.
  intros Hf Hend. destruct (owner_here h w T Hs Hb Hhere) as (t & Ht & He). unfold check_committed. apply wpg_bind, wpg_gets. rewrite Ht.
  apply wpg_assert; [|done]. apply bool_decide_eq_true. pose proof (en_state _ _ _ He) as Hst. subst g.
  destruct (tx_state t); simpl in Hst; try (destruct Hst; congruence); congruence.
Qed.

Lemma abort_tx_ok : g_fate g = Undecided -> does (abort_tx T) (fun _ w' => decided Undone None w') w.
Proof.
  intros Hf. destruct (owner_here h w T Hs Hb Hhere) as (t & Ht & He). unfold abort_tx. apply wpg_bind, wpg_gets. rewrite Ht.
  apply wpg_bind, wpg_ret, wpg_bind, wpg_assert.
  { pose proof (en_state _ _ _ He) as Hst. subst g. destruct (tx_state t); simpl in Hst; try done; congruence || (destruct Hst; congruence). }
  apply (on_tx_ok w T t); [done|]. split; [|split; [done|]].
  - destruct He as [E1 E2 E3 E4 E5 E6 E7 E8 E9 E10]. destruct (so_ghost _ _ _ Hs T) as [G1 G2 G3 G4 G5 G6 G7 G8 G9]. subst g.
    apply (owner_store Hs T t); try done; simpl.
    + split; simpl; try done. congruence.
    + auto.
  - exists t. split; [done|]. simpl. by rewrite lookup_insert_eq.
Qed.

Lemma cleanup_ok : g_fate g <> Undone -> does (cleanup_dropped_commit T) (fun c w' =>
  match c with
  | Finish e => g_end g = Some e /\ (g_fate g = Kept /\ w' = w \/ g_fate g = Undecided /\ cleared g /\ decided Kept (Some e) w')
  | RollBack => w' = w /\ g_fate g = Undecided
  | Nothing => False
  end) w.
Proof.
  intros Hf. destruct (owner_here h w T Hs Hb Hhere) as (t & Ht & He). unfold cleanup_dropped_commit. apply wpg_bind, wpg_gets. rewrite Ht.
  pose proof (en_state _ _ _ He) as Hst. destruct (tx_state t) as [|e| | |e]; simpl in Hst; [| |done..|].
  - destruct Hst. by apply wpg_ret.
  - destruct Hst as [Hu Hend]. destruct (tx_log_appended t) eqn:El; [|by apply wpg_ret].
    apply wpg_bind. rewrite store_state_fits by apply (gh_word _ (so_ghost _ _ _ Hs T) e Hend).
    apply (on_tx_ok w T t); [done|]. apply wpg_ret. split; [done|]. right. split; [done|].
    pose proof (en_logged _ _ _ He El) as Hcl. split; [done|]. by apply commit_store.
  - destruct Hst. apply wpg_ret. auto.
Qed.

Lemma take_dependents_ok : g_taken g = false -> g_fate g <> Undecided -> does (take_dependents T) (fun ds w' =>
  store_ok (upd h T (g_tell true (list_to_set ds) g)) w' /\ tx_ids w' = tx_ids w /\ (T ∉ ds) /\ NoDup ds) w.
Proof.
  intros Htk Hf. destruct (owner_here h w T Hs Hb Hhere) as (t & Ht & He). unfold take_dependents. apply wpg_bind, wpg_gets. rewrite Ht.
  apply wpg_bind, wpg_ret, wpg_bind, (on_tx_ok w T t); [done|]. apply wpg_ret. rewrite list_to_set_elements_L.
  assert (g_notify g = ∅) as Hnt.
  { destruct (decide (g_notify g = ∅)) as [|Hn]; [done|]. apply (gh_notify _ (so_ghost _ _ _ Hs T)) in Hn. subst g. congruence. }
  split; [|split; [done|]].
  - destruct He as [E1 E2 E3 E4 E5 E6 E7 E8 E9 E10]. destruct (so_ghost _ _ _ Hs T) as [G1 G2 G3 G4 G5 G6 G7 G8 G9]. subst g.
    apply (owner_store Hs T t); try done; simpl; [rewrite Hnt; set_solver|auto].
  - split; [|apply NoDup_elements]. rewrite elem_of_elements. intros Hin. destruct (de_edge _ _ (so_deps _ _ _ Hs) T T) as (_ & Hp & _).
    { unfold deps. rewrite Ht. set_solver. }
    by apply (prec_irrefl (so_times _ _ _ Hs)) in Hp.
Qed.

Lemma take_write_set_ok : g_listed g = true -> g_fate g = Undone -> does (take_write_set T) (fun keys w' =>
  store_ok (upd h T (g_unlist g)) w' /\ tx_ids w' = tx_ids w /\ (list_to_set keys : gset RowID) = dom (g_writes g)) w.
Proof.
  intros Hl Hf. destruct (owner_here h w T Hs Hb Hhere) as (t & Ht & He). unfold take_write_set. apply wpg_bind, wpg_gets. rewrite Ht.
  apply wpg_bind, wpg_ret, wpg_bind, (on_tx_ok w T t); [done|]. apply wpg_ret. split; [|split; [done|]].
  - destruct He as [E1 E2 E3 E4 E5 E6 E7 E8 E9 E10]. destruct (so_ghost _ _ _ Hs T) as [G1 G2 G3 G4 G5 G6 G7 G8 G9]. subst g.
    apply (owner_store Hs T t); try done; simpl; [auto|..]; by split.
  - by apply (en_writes _ _ _ He).
Qed.

Lemma terminate_ok : g_fate g = Undone -> does (terminate_tx T) (fun _ w' => store_ok (upd h T g) w' /\ tx_ids w' = tx_ids w) w.
Proof.
  intros Hf. destruct (owner_here h w T Hs Hb Hhere) as (t & Ht & He). apply (on_tx_ok w T t); [done|]. split; [|done].
  apply (entry_store t); try done. destruct He. by split.
Qed.

(** *** Dependents *)
Section Dependent.
Context (d : Z) (Hd : d ∈ g_notify g).

Lemma dependent_edge : begun (hx h d) /\ prec h T d /\ g_settled (hx h d) = false.
Proof. apply (de_edge _ _ (so_deps _ _ _ Hs)). unfold deps. subst g. set_solver. Qed.

Lemma dependent_ne : d <> T.
Proof. intros E. destruct dependent_edge as (_ & Hp & _). rewrite E in Hp. by apply (prec_irrefl (so_times _ _ _ Hs)) in Hp. Qed.

Lemma dependent_unsafe : g_safe (hx h d) = false.
Proof.
  destruct dependent_edge as (_ & _ & Hst). destruct (g_safe (hx h d)) eqn:E; [|done].
  apply (gh_safe _ (so_ghost _ _ _ Hs d)) in E. congruence.
Qed.

Lemma dependent_gone : txs w !! d = None -> g_fate (hx h d) = Undone.
Proof.
  intros Hn. pose proof (so_tx _ _ _ Hs d) as H. rewrite Hn in H. destruct H as [H _].
  destruct dependent_edge as (Hbd & _ & _). specialize (H Hbd). pose proof (gh_gone _ (so_ghost _ _ _ Hs d) H).
  destruct (g_fate (hx h d)) eqn:Ef; [done| |done].
  destruct (gh_kept _ (so_ghost _ _ _ Hs d) Ef) as [[? _] _]. pose proof dependent_unsafe. congruence.
Qed.

Let w' f := with_txs (alter f d) w.

Lemma alter_txs f W : txs (w' f) !! W = if decide (W = d) then f <$> txs w !! d else txs w !! W.
Proof. unfold w'. simpl. destruct (decide (W = d)) as [->|]; [by rewrite lookup_alter_eq|by rewrite lookup_alter_ne]. Qed.

Lemma notify_taken : g_taken g = true.
Proof. apply (gh_notify _ (so_ghost _ _ _ Hs T)). subst g. set_solver. Qed.

(** [d] is told to abort. *)
Lemma abort_dependent_ok : does (abort_dependent d) (fun _ w' => store_ok (upd h T (g_dooms d g)) w' /\ tx_ids w' = tx_ids w) w.
Proof.
  apply wpg_modifies. split; [|done]. fold (w' (set_tx_abort_now true)). set (h' := upd h T (g_dooms d g)). pose proof dependent_ne as Hne.
  assert (forall X, deps h' (w' (set_tx_abort_now true)) X = deps h w X) as Hdeps.
  { intros X. unfold deps, h'. rewrite alter_txs, (upd_field g_notify) by done. destruct (decide (X = d)) as [->|]; [|done]. by destruct (txs w !! d). }
  assert (forall W, doomed h w W -> doomed h' (w' (set_tx_abort_now true)) W) as Hdm.
  { intros W. unfold doomed, h'. rewrite alter_txs, (upd_field g_fate) by done. intros [?|(t & Ht & Ha)]; [by left|right].
    destruct (decide (W = d)) as [->|]; [|eauto]. rewrite Ht. eexists. by split. }
  apply (store_quiet base h w); try done.
  - intros W. unfold h'. destruct (decide (W = T)) as [->|]; [by rewrite hx_upd|by rewrite hx_upd_ne].
  - intros W HW. unfold h'. rewrite hx_upd_ne; [by apply (ti_unborn _ _ (so_times _ _ _ Hs))|]. intros ->. done.
  - apply (so_fin _ _ _ Hs).
  - intros W [t Ht] _. rewrite alter_txs. destruct (decide (W = d)) as [->|]; by rewrite Ht.
  - intros W. pose proof (so_ghost _ _ _ Hs W) as Hg. unfold h'. destruct (decide (W = T)) as [->|]; [rewrite hx_upd|by rewrite hx_upd_ne].
    destruct Hg. by split.
  - intros W. pose proof (so_tx _ _ _ Hs W) as Hx. rewrite alter_txs. unfold h'. destruct (decide (W = d)) as [->|].
    + rewrite hx_upd_ne by done. destruct (txs w !! d) as [t|]; [|done]. simpl in *. destruct Hx. split; try done. pose proof dependent_unsafe. congruence.
    + destruct (decide (W = T)) as [->|]; [rewrite hx_upd|by rewrite hx_upd_ne]. destruct (txs w !! T) as [t|]; [|done]. simpl in *. destruct Hx. by split.
  - destruct (so_deps _ _ _ Hs) as [Hc Hed Hto]. split.
    + intros W t. setoid_rewrite Hdeps. rewrite alter_txs. destruct (decide (W = d)) as [->|]; [|by apply Hc].
      intros (t0 & Ht0 & ->)%fmap_Some. exact (Hc d t0 Ht0).
    + intros W X. rewrite Hdeps. intros HW. destruct (Hed W X HW) as (? & (e & ? & ?) & ?). unfold begun, prec, h'.
      rewrite (upd_field g_begin), (upd_field g_settled), (upd_field g_end) by done. eauto.
    + intros W d'. unfold h' at 1. destruct (decide (W = T)) as [->|]; [rewrite hx_upd|rewrite hx_upd_ne by done; intros; by eapply Hdm, Hto].
      simpl. intros [->%elem_of_singleton|Hd']%elem_of_union; [|by eapply Hdm, Hto]. unfold doomed, h'. rewrite alter_txs, decide_True, (upd_field g_fate) by done.
      destruct (txs w !! d) as [t|] eqn:E; [right; by eexists|left; by apply dependent_gone].
  - intros S. apply plausible_fewer; [|done|intros W X; rewrite Hdeps; auto]. intros W. unfold h'. by rewrite (upd_field g_fate).
Qed.

Lemma decrement_ok : g_fate g = Kept \/ d ∈ g_told g ->
  does (decrement_dependent d) (fun _ w' => store_ok (upd h T (g_tell true (g_notify g ∖ {[ d ]}) g)) w' /\ tx_ids w' = tx_ids w) w.
Proof.
  intros Hwhy. apply wpg_modifies. split; [|done]. set (f := fun t => set_tx_counter (wrap 64 (tx_commit_dep_counter t - 1)) t). fold (w' f).
  set (h' := upd h T (g_tell true (g_notify g ∖ {[ d ]}) g)). pose proof dependent_ne as Hne. pose proof notify_taken as Htk.
  destruct (owner_here h w T Hs Hb Hhere) as (t & Ht & He). pose proof (en_taken _ _ _ He Htk) as Hd0.
  assert (forall X, deps h' (w' f) X = if decide (X = T) then deps h w T ∖ {[ d ]} else deps h w X) as Hdeps.
  { intros X. unfold deps, h'. rewrite alter_txs. destruct (decide (X = T)) as [->|].
    - rewrite hx_upd, decide_False by done. rewrite Ht. simpl. rewrite Hd0. set_solver.
    - rewrite hx_upd_ne by done. destruct (decide (X = d)) as [->|]; [|done]. by destruct (txs w !! d). }
  assert (forall W, doomed h w W -> doomed h' (w' f) W) as Hdm.
  { intros W. unfold doomed, h'. rewrite alter_txs, (upd_field g_fate) by done. intros [?|(t0 & Ht0 & Ha)]; [by left|right].
    destruct (decide (W = d)) as [->|]; [|eauto]. rewrite Ht0. eexists. by split. }
  apply (store_quiet base h w); try done.
  - intros W. unfold h'. destruct (decide (W = T)) as [->|]; [by rewrite hx_upd|by rewrite hx_upd_ne].
  - intros W HW. unfold h'. rewrite hx_upd_ne; [by apply (ti_unborn _ _ (so_times _ _ _ Hs))|]. intros ->. done.
  - apply (so_fin _ _ _ Hs).
  - intros W [t0 Ht0] _. rewrite alter_txs. destruct (decide (W = d)) as [->|]; by rewrite Ht0.
  - intros W. pose proof (so_ghost _ _ _ Hs W) as Hg. unfold h'. destruct (decide (W = T)) as [->|]; [rewrite hx_upd|by rewrite hx_upd_ne].
    destruct Hg as [G1 G2 G3 G4 G5 G6 G7 G8 G9]. split; try done. intros _. by apply G2.
  - intros W. pose proof (so_tx _ _ _ Hs W) as Hx. rewrite alter_txs. unfold h'. destruct (decide (W = d)) as [->|].
    + rewrite hx_upd_ne by done. destruct (txs w !! d) as [t0|]; [|done]. simpl in *. destruct Hx. by split.
    + destruct (decide (W = T)) as [->|]; [rewrite hx_upd|by rewrite hx_upd_ne]. rewrite Ht in *. simpl in *. destruct Hx. by split.
  - destruct (so_deps _ _ _ Hs) as [Hc Hed Hto]. assert (d ∈ deps h w T) as HdT by (unfold deps; subst g; set_solver). split.
    + intros W t0. setoid_rewrite Hdeps. rewrite alter_txs. destruct (decide (W = d)) as [->|HWd].
      * intros (t1 & Ht1 & ->)%fmap_Some. destruct (Hc d t1 Ht1) as (D & HD & Hn). exists (D ∖ {[ T ]}). split.
        { intros X. specialize (HD X). destruct (decide (X = T)) as [->|]; set_solver. }
        assert (T ∈ D) as HTD by (by apply HD). rewrite size_difference by set_solver. rewrite size_singleton. simpl. rewrite Hn.
        assert (size D <> 0%nat) as Hz by (intros Hz; apply size_empty_inv in Hz; set_solver). unfold wrap.
        enough (Z.of_nat (size D) <= Z.max 0 (VALUE_MASK + 1)).
        { replace VALUE_MASK with (2 ^ 62 - 1) in * by done. rewrite Z.mod_small; lia. }
        apply size_ids. intros X HX. apply HD in HX. destruct (Hed d X HX) as (_ & Hp & _).
        apply (prec_begun (so_times _ _ _ Hs)) in Hp as [HbX _]. pose proof (ti_begin _ _ (so_times _ _ _ Hs) X HbX). lia.
      * intros Ht0. destruct (Hc W t0 Ht0) as (D & HD & Hn). exists D. split; [|done]. intros X. rewrite (HD X).
        destruct (decide (X = T)) as [->|]; set_solver.
    + intros W X HW. assert (W ∈ deps h w X) as HW0 by (rewrite Hdeps in HW; destruct (decide (X = T)) as [->|]; set_solver).
      destruct (Hed W X HW0) as (? & (e & ? & ?) & ?). unfold begun, prec, h'.
      rewrite (upd_field g_begin), (upd_field g_settled), (upd_field g_end) by done. eauto.
    + intros W d'. unfold h' at 1. rewrite (upd_field g_told) by done. intros Hd'. by eapply Hdm, Hto.
  - intros S. apply plausible_fewer; [|done|].
    + intros W. unfold h'. by rewrite (upd_field g_fate).
    + intros W X HW. rewrite Hdeps. destruct (decide (X = T)) as [->|]; [|by left]. destruct (decide (W = d)) as [->|]; [right|left; set_solver].
      destruct Hwhy as [Hk|Hto]; [left; unfold h'; by rewrite (upd_field g_fate)|right]. by eapply Hdm, (de_told _ _ (so_deps _ _ _ Hs)).
Qed.
End Dependent.

(** *** Leaving the table *)
Section Leave.
Context (Hf : g_fate g <> Undecided) (Hrefs : g_refs g = ∅) (Hnt : g_notify g = ∅) (Hdep : g_taken g = true \/ g_writes g = ∅).

Lemma leave_store t : txs w !! T = Some t -> store_ok (upd h T (g_leave g)) (with_txs (delete T) w).
Proof.
  intros Ht. pose proof (so_tx _ _ _ Hs T) as He. rewrite Ht in He. pose proof (so_fin _ _ _ Hs) as Hfin.
  set (h' := upd h T (g_leave g)). remember (with_txs (delete T) w) as w' eqn:Hw'.
  assert (forall W, txs w' !! W = if decide (W = T) then None else txs w !! W) as Htx.
  { intros W. rewrite Hw'. simpl. destruct (decide (W = T)) as [->|]; [by rewrite lookup_delete_eq|by rewrite lookup_delete_ne]. }
  assert (tx_commit_dep_set t = ∅) as Hd0.
  { destruct Hdep as [Htk|Hw]; [by apply (en_taken _ _ _ He)|]. destruct (decide (tx_commit_dep_set t = ∅)) as [|Hn]; [done|].
    by destruct (en_deps _ _ _ He Hn). }
  assert (forall X, deps h' w' X = deps h w X) as Hdeps.
  { intros X. unfold deps, h'. rewrite Htx, (upd_field g_notify) by done. destruct (decide (X = T)) as [->|]; [|done]. rewrite Ht. simpl. by rewrite Hd0. }
  assert (forall W, doomed h w W -> doomed h' w' W) as Hdm.
  { intros W. unfold doomed, h'. rewrite Htx, (upd_field g_fate) by done. intros [?|(t0 & Ht0 & Ha)]; [by left|].
    destruct (decide (W = T)) as [->|]; [left|right; eauto]. destruct (g_fate (hx h T)) eqn:Ef; [done| |done].
    destruct (gh_kept _ (so_ghost _ _ _ Hs T) Ef) as [[Hsafe _] _]. pose proof (en_abort _ _ _ He Hsafe). congruence. }
  apply (store_quiet base h w); try done; try (rewrite Hw'; simpl; done || lia).
  - intros W. unfold h'. destruct (decide (W = T)) as [->|]; [by rewrite hx_upd|by rewrite hx_upd_ne].
  - intros W HW. unfold h'. rewrite hx_upd_ne; [by apply (ti_unborn _ _ (so_times _ _ _ Hs))|]. by intros ->.
  - intros W HW Hr. rewrite Htx. destruct (decide (W = T)) as [->|]; [done|done].
  - intros W. pose proof (so_ghost _ _ _ Hs W) as Hg. unfold h'. destruct (decide (W = T)) as [->|]; [rewrite hx_upd|by rewrite hx_upd_ne].
    destruct Hg. by split.
  - intros W. pose proof (so_tx _ _ _ Hs W) as Hx. rewrite Htx. unfold h'. destruct (decide (W = T)) as [->|]; [by rewrite hx_upd|by rewrite hx_upd_ne].
  - destruct (so_deps _ _ _ Hs) as [Hc Hed Hto]. split.
    + intros W t0. setoid_rewrite Hdeps. rewrite Htx. destruct (decide (W = T)); [done|by apply Hc].
    + intros W X. rewrite Hdeps. intros HW. destruct (Hed W X HW) as (? & (e & ? & ?) & ?). unfold begun, prec, h'.
      rewrite (upd_field g_begin), (upd_field g_settled), (upd_field g_end) by done. eauto.
    + intros W d. unfold h' at 1. rewrite (upd_field g_told) by done. intros Hd. by eapply Hdm, Hto.
  - intros S. apply plausible_fewer; [|done|intros W X; rewrite Hdeps; auto]. intros W. unfold h'. by rewrite (upd_field g_fate).
Qed.

Lemma leave_txs_ok : does (leave_txs T) (fun _ w' => store_ok (upd h T (g_leave g)) w' /\ tx_ids w' = tx_ids w) w.
Proof.
  destruct (owner_here h w T Hs Hb Hhere) as (t & Ht & He). apply wpg_modifies. split; [by apply (leave_store t)|done].
Qed.

Lemma finalize_tx_ok : does (finalize_tx T) (fun _ w' => store_ok h w' /\ tx_ids w' = tx_ids w) w.
Proof.
  destruct (owner_here h w T Hs Hb Hhere) as (t & Ht & He). unfold finalize_tx. apply wpg_bind, wpg_gets. rewrite Ht.
  assert (bool_decide (tx_commit_dep_set t = ∅) = true) as Hd0.
  { apply bool_decide_eq_true. destruct Hdep as [Htk|Hw]; [by apply (en_taken _ _ _ He)|].
    destruct (decide (tx_commit_dep_set t = ∅)) as [|Hn]; [done|]. by destruct (en_deps _ _ _ He Hn). }
  destruct (tx_state t) as [| | | |e]; try (apply wpg_bind, wpg_ret, wpg_bind, wpg_assert; [done|]; by apply wpg_ret).
  destruct (bool_decide (tx_write_set t <> [])); [|apply wpg_bind, wpg_ret, wpg_bind, wpg_assert; [done|]; by apply wpg_ret].
  apply wpg_bind, wpg_modifies, wpg_bind, wpg_assert; [done|]. apply wpg_bind. unfold lookup_finalized_tx_state.
  apply wpg_bind, wpg_gets. simpl. rewrite lookup_insert_eq. apply wpg_ret, wpg_assert; [done|]. split; [|done].
  apply (tick_store h w); try done. intros W s. simpl. destruct (decide (W = T)) as [->|].
  - rewrite lookup_insert_eq. intros [= <-]. eauto.
  - rewrite lookup_insert_ne by done. apply (so_fin _ _ _ Hs).
Qed.
End Leave.
End Actions.
End Finish.
