(* ===== verification/MvccChains.v ===== *)
(** * Chains after a commit, a rollback and garbage collection *)
From stdpp Require Import gmap functions.
From S2P Require Import Prelude Errors Effects Mvcc MvccWords Threads MvccSession MvccGhost MvccEvolve MvccScan MvccRead MvccWrite MvccStatements MvccFinish.

Section Chains.
Context (base : RowID -> option Row).
#[local] Abbreviation store_ok := (store_ok base).
#[local] Abbreviation facts_c := (facts_c base).

Lemma length_filter_map {A B} (P : B -> Prop) (Q : A -> Prop) `{!forall x, Decision (P x), !forall x, Decision (Q x)} (f : A -> B) l :
  (forall x, x ∈ l -> P (f x) <-> Q x) -> length (filter P (map f l)) = length (filter Q l).
Proof.
  induction l as [|x l IH]; intros HPQ; [done|]. simpl map. rewrite !filter_cons. pose proof (HPQ x ltac:(left)).
  assert (length (filter P (map f l)) = length (filter Q l)) as Hl by (apply IH; intros; apply HPQ; by right).
  destruct (decide (P (f x))), (decide (Q x)); simpl; tauto || lia.
Qed.

(** ** Versions that change in place *)
Section Mapped.
Context {h : hist} {w : MvStore} (Hs : store_ok h w) (T : Z) (Hb : begun (hx h T)) (k : RowID) (f : RowVersion -> RowVersion).
Let h' := upd h T (g_unref k (hx h T)).
Let w' := with_rows (alter (map f) k) w.

(** [f] keeps what [S] says of the version. *)
Record alike (S : gset Z) (v v' : RowVersion) : Prop := {
  al_row : rv_row v' = rv_row v;
  al_resident : rv_btree_resident v' = rv_btree_resident v;
  al_none : rv_begin v = None -> rv_begin v' = None;
  al_less : forall C, names h (rv_begin v') C -> names h (rv_begin v) C;
  al_begin : forall W, W ∈ S -> names h (rv_begin v') W <-> names h (rv_begin v) W;
  al_end : forall W, W ∈ S -> names h (rv_end v') W <-> names h (rv_end v) W
}.
Context (Hal : forall S v, plausible h w S -> v ∈ chain w k -> alike S v (f v)).
Context (Href : forall v, v ∈ chain w k -> ref_ok h' w' k (f v)).

Lemma mapped_chain : chain w' k = map f (chain w k).
Proof. unfold chain, w'. simpl. rewrite lookup_alter_eq. by destruct (rows w !! k). Qed.
Lemma mapped_chain_ne k' : k' <> k -> chain w' k' = chain w k'.
Proof. intros H. unfold chain, w'. simpl. by rewrite lookup_alter_ne. Qed.

Lemma mapped_field {A} (p : gtx -> A) W : (forall g, p (g_unref k g) = p g) -> p (hx h' W) = p (hx h W).
Proof. intros Hp. unfold h'. by apply upd_field. Qed.
Lemma mapped_names x W : names h' x W <-> names h x W.
Proof. unfold names. by rewrite (mapped_field g_end). Qed.
Lemma mapped_prec A B : prec h' A B <-> prec h A B.
Proof. unfold prec. by rewrite (mapped_field g_end), (mapped_field g_begin). Qed.
Lemma mapped_wrote W k' : wrote h' W k' <-> wrote h W k'.
Proof. unfold wrote. by rewrite (mapped_field g_writes). Qed.

Lemma mapped_deps X : deps h' w' X = deps h w X.
Proof. unfold deps. by rewrite (mapped_field g_notify). Qed.

Lemma mapped_plausible S : plausible h' w' S -> plausible h w S.
Proof.
  apply plausible_fewer.
  - intros W. by rewrite (mapped_field g_fate).
  - intros W. unfold doomed. by rewrite (mapped_field g_fate).
  - intros W X. rewrite mapped_deps. auto.
Qed.

Lemma mapped_evolves : evolves h w h' w'.
Proof.
  apply evolves_same; [|done|apply mapped_plausible]. intros W.
  by rewrite (mapped_field g_begin), (mapped_field g_end), (mapped_field g_writes), (mapped_field g_fate).
Qed.

Lemma mapped_times : times_ok h' w'.
Proof.
  apply (times_same h w); [apply (so_times _ _ _ Hs)| | |done|done|done].
  - intros W. by rewrite (mapped_field g_begin), (mapped_field g_end), (mapped_field g_fate).
  - intros W HW. unfold h'. rewrite hx_upd_ne; [by apply (ti_unborn _ _ (so_times _ _ _ Hs))|]. by intros ->.
Qed.

Lemma mapped_elem v' : v' ∈ chain w' k <-> exists v, v' = f v /\ v ∈ chain w k.
Proof. rewrite mapped_chain. apply list_elem_of_fmap. Qed.

Lemma mapped_live S v W : plausible h w S -> v ∈ chain w k -> W ∈ S -> live h W (f v) <-> live h W v.
Proof. intros HS Hv HW. pose proof (Hal S v HS Hv) as Ha. unfold live. by rewrite (al_begin _ _ _ Ha), (al_end _ _ _ Ha). Qed.

Lemma mapped_facts_p S : plausible h' w' S -> facts_p h' k (chain w' k) S.
Proof.
  intros HS'. pose proof (mapped_plausible S HS') as HS. destruct (so_p _ _ _ Hs S k HS) as [H1 H2]. split.
  - intros v' C X (v & -> & Hv)%mapped_elem. rewrite !mapped_names, mapped_prec. pose proof (Hal S v HS Hv) as Ha.
    intros HC HX HXS. apply (H1 v); [done|by apply (al_less _ _ _ Ha)|by apply (al_end _ _ _ Ha)|done].
  - intros W HW. rewrite mapped_wrote. intros HwW. destruct (H2 W HW HwW) as [(v & Hv & Hn)|(e & He & Hl)].
    + left. exists (f v). rewrite mapped_elem, !mapped_names. split; [eauto|]. pose proof (Hal S v HS Hv) as Ha.
      by rewrite (al_begin _ _ _ Ha), (al_end _ _ _ Ha).
    + right. exists e. by rewrite (mapped_field g_end).
Qed.

Lemma mapped_facts_c S : consistent h' w' S -> facts_c h' k (chain w' k) S.
Proof.
  intros HS'. pose proof (consistent_kept (so_times _ _ _ Hs) mapped_evolves S HS') as HS.
  pose proof (co_plausible _ _ _ HS) as HP. destruct (so_c _ _ _ Hs S k HS) as [H1 H2 H3 H4 H5]. split.
  - intros W r HW. rewrite (mapped_field g_writes) by done. intros Hw. destruct (H1 W r HW Hw) as [(v & Hv & Hl & Hr)|(Y & e & HY & HwY & He & Hle & Hp)].
    + left. exists (f v). rewrite mapped_elem. split; [eauto|]. split; [|by rewrite (al_row _ _ _ (Hal S v HP Hv))].
      unfold live. rewrite !mapped_names. by apply (mapped_live S).
    + right. exists Y, e. rewrite mapped_wrote, mapped_prec, (mapped_field g_end) by done. auto.
  - intros W v' HW (v & -> & Hv)%mapped_elem. unfold live. rewrite !mapped_names, (mapped_field g_writes) by done. intros Hl.
    rewrite (al_row _ _ _ (Hal S v HP Hv)). apply H2; [done..|]. by apply (mapped_live S).
  - intros W HW. rewrite mapped_chain. rewrite (length_filter_map (live h' W) (live h W)); [by apply H3|]. intros v Hv. unfold live at 1.
    rewrite !mapped_names. by apply (mapped_live S).
  - intros W X v' HW HX (v & -> & Hv)%mapped_elem. unfold live. rewrite !mapped_names, mapped_wrote, mapped_prec. setoid_rewrite mapped_names.
    setoid_rewrite mapped_prec. intros Hl HwX Hp. destruct (H4 W X v) as (Y & HY & HnY & HYX); try done; [by apply (mapped_live S)|].
    exists Y. split; [done|]. split; [|done]. by apply (al_end _ _ _ (Hal S v HP Hv)).
  - intros W Hbase HW. rewrite mapped_wrote. intros HwW. destruct (H5 W Hbase HW HwW) as (v & W' & Hv & Hres & HW' & Hn & HWW).
    pose proof (Hal S v HP Hv) as Ha. exists (f v), W'. rewrite mapped_elem, !mapped_names, mapped_prec. split; [eauto|].
    split; [by rewrite (al_resident _ _ _ Ha)|]. split; [done|]. split; [|done]. destruct Hn as [?|[Hn ?]]; [left; by apply (al_begin _ _ _ Ha)|right].
    split; [by apply (al_none _ _ _ Ha)|by apply (al_end _ _ _ Ha)].
Qed.

Lemma mapped_store : store_ok h' w'.
Proof.
  apply (store_step base h w); try done.
  - apply mapped_times.
  - apply mapped_evolves.
  - intros W. pose proof (so_ghost _ _ _ Hs W) as Hg. unfold h'. destruct (decide (W = T)) as [->|]; [rewrite hx_upd|by rewrite hx_upd_ne].
    destruct Hg. split; try done. simpl. set_solver.
  - intros W. pose proof (so_tx _ _ _ Hs W) as Hx. unfold h'. destruct (decide (W = T)) as [->|]; [rewrite hx_upd|by rewrite hx_upd_ne].
    simpl. destruct (txs w !! T) as [t|]; simpl in *; [destruct Hx; by split|]. split; [tauto|]. split; [set_solver|tauto].
  - destruct (so_deps _ _ _ Hs) as [Hc Hed Hto]. split.
    + intros W t. setoid_rewrite mapped_deps. apply Hc.
    + intros W X. rewrite mapped_deps. intros HW. destruct (Hed W X HW) as (? & ? & ?). rewrite mapped_prec. unfold begun.
      by rewrite (mapped_field g_begin), (mapped_field g_settled).
    + intros W d. unfold doomed. rewrite (mapped_field g_told), (mapped_field g_fate) by done. apply Hto.
  - apply (so_fin _ _ _ Hs).
  - apply (so_ckpt _ _ _ Hs).
  - intros k' v'. destruct (decide (k' = k)) as [->|Hne]; [intros (v & -> & Hv)%mapped_elem; by apply Href|]. rewrite mapped_chain_ne by done. intros Hv.
    eapply (ref_kept mapped_times mapped_evolves); [by apply (so_refs _ _ _ Hs)|]. intros W HW Hk. split; [done|]. unfold h'.
    destruct (decide (W = T)) as [->|]; [rewrite hx_upd; simpl; set_solver|by rewrite hx_upd_ne].
  - intros k'. destruct (decide (k' = k)) as [->|Hne]; [right; split; [apply mapped_facts_p|apply mapped_facts_c]|left].
    rewrite mapped_chain_ne by done. split; [done|]. intros W. by rewrite (mapped_field g_writes).
  - intros S W HS HW. destruct (decide (0 <= g_begin (hx h W))) as [HbW|HbW].
    + left. rewrite (mapped_field g_writes), (mapped_field g_pending), (mapped_field g_ops), (mapped_field g_know) by done.
      repeat (split; [done|]). apply list.Forall_forall. auto.
    + right. apply facts_unborn. unfold h'. rewrite hx_upd_ne; [by apply (ti_unborn _ _ (so_times _ _ _ Hs))|]. by intros ->.
  - intros W. left. by apply (mapped_field g_checked).
Qed.
End Mapped.

(** *** Timestamps in place of the id *)
Lemma rewrite_begin T e v : rv_begin (rewrite_txid_to_timestamp T e v) =
  if decide (rv_begin v = Some (TxID T)) then Some (Timestamp e) else rv_begin v.
Proof.
  unfold rewrite_txid_to_timestamp. rewrite !bool_decide_decide. destruct (decide (rv_begin v = _)); simpl; by case_decide.
Qed.
Lemma rewrite_end T e v : rv_end (rewrite_txid_to_timestamp T e v) =
  if decide (rv_end v = Some (TxID T)) then Some (Timestamp e) else rv_end v.
Proof.
  unfold rewrite_txid_to_timestamp. rewrite !bool_decide_decide. destruct (decide (rv_begin v = _)); simpl; by case_decide.
Qed.
Lemma rewrite_rest T e v : let v' := rewrite_txid_to_timestamp T e v in
  rv_row v' = rv_row v /\ rv_btree_resident v' = rv_btree_resident v /\ (rv_materialized_at v = ORIGIN -> rv_materialized_at v' = ORIGIN).
Proof.
  unfold rewrite_txid_to_timestamp. rewrite !bool_decide_decide. destruct (decide (rv_begin v = _)); simpl; by case_decide.
Qed.

Lemma rewrite_names h w T e x W : times_ok h w -> g_end (hx h T) = Some e ->
  names h (if decide (x = Some (TxID T)) then Some (Timestamp e) else x) W <-> names h x W.
Proof.
  intros Ht He. case_decide as Hx; [|done]. rewrite Hx, names_ts, names_txid. split; [|by intros ->].
  intros HW. by apply (ti_end_inj _ _ Ht W T e).
Qed.

Lemma rewrite_ok h w T e k : store_ok h w -> begun (hx h T) -> g_fate (hx h T) = Kept -> g_end (hx h T) = Some e ->
  does (rewrite_live_versions T e k) (fun _ w' => store_ok (upd h T (g_unref k (hx h T))) w' /\ tx_ids w' = tx_ids w) w.
Proof.
  intros Hs Hb Hf He. pose proof (so_times _ _ _ Hs) as Ht. apply wpg_bind, wpg_gets, wpg_bind.
  rewrite (packed_fits (Some (Timestamp e))) by apply (gh_word _ (so_ghost _ _ _ Hs T) e He).
  replace (if existsb _ _ then mret () else mret ()) with (mret () : MvM ()) by by destruct (existsb _ _).
  apply wpg_ret, wpg_modifies. split; [|done]. apply mapped_store; [done|done| |].
  - intros S v HS Hv. destruct (rewrite_rest T e v) as (Hrow & Hres & _).
    split; rewrite ?rewrite_begin, ?rewrite_end; try done; try (intros; by rewrite (rewrite_names h w T e)).
    + intros Hn. by rewrite Hn.
    + intros C. by rewrite (rewrite_names h w T e).
  - intros v Hv. pose proof (so_refs _ _ _ Hs k v Hv) as [R1 R2 R3 R4 R5]. set (h' := upd h T (g_unref k (hx h T))).
    assert (forall x W, names h' x W <-> names h x W) as Hnm by (intros x W; unfold names, h'; by rewrite (upd_field g_end)).
    split; rewrite ?rewrite_begin, ?rewrite_end.
    + intros W HW. assert (W <> T /\ (rv_begin v = Some (TxID W) \/ rv_end v = Some (TxID W))) as [Hne HW'].
      { repeat case_decide; destruct HW; simplify_eq; split; auto; congruence. }
      destruct (R1 W HW') as [? ?]. split; [done|]. unfold h'. by rewrite hx_upd_ne.
    + intros e' He'. enough (exists W, g_end (hx h W) = Some e' /\ g_fate (hx h W) = Kept) as (W & ? & ?).
      { exists W. unfold h'. by rewrite (upd_field g_end), (upd_field g_fate). }
      repeat case_decide; destruct He'; simplify_eq; eauto.
    + intros W. rewrite !Hnm, !(rewrite_names h w T e) by done. intros HW. unfold wrote, h'. rewrite (upd_field g_writes) by done. by apply R3.
    + intros W HW. unfold h'. rewrite (upd_field g_end) by done. intros HeW.
      destruct (decide (rv_begin v = Some (TxID T))); [done|]. destruct (R4 W HW HeW) as [HE|HE]; rewrite HE; [by left|].
      right. rewrite decide_False; [done|]. congruence.
    + by apply rewrite_rest.
Qed.

(** *** The versions of an aborted transaction *)
Lemma rollback_cases T v :
  rv_begin v = Some (TxID T) /\ rv_begin (rollback_row_version T v) = None /\ rv_end (rollback_row_version T v) = None \/
  rv_begin v <> Some (TxID T) /\ rv_begin (rollback_row_version T v) = rv_begin v /\
    rv_end (rollback_row_version T v) = if decide (rv_end v = Some (TxID T)) then None else rv_end v.
Proof.
  unfold rollback_row_version. rewrite !bool_decide_decide. destruct (decide (rv_begin v = _)); [by left|right]. split; [done|]. by case_decide.
Qed.
Lemma rollback_rest T v : let v' := rollback_row_version T v in
  rv_row v' = rv_row v /\ rv_btree_resident v' = rv_btree_resident v /\ (rv_materialized_at v = ORIGIN -> rv_materialized_at v' = ORIGIN).
Proof. unfold rollback_row_version. rewrite !bool_decide_decide. repeat case_decide; done. Qed.

Lemma rollback_alike h w T k S v : store_ok h w -> g_fate (hx h T) = Undone -> plausible h w S -> v ∈ chain w k ->
  alike (h := h) S v (rollback_row_version T v).
Proof.
  intros Hs Hf HS Hv. destruct (rollback_rest T v) as (Hrow & Hres & _). pose proof (so_p _ _ _ Hs S k HS) as [H1 _].
  assert (forall W, W ∈ S -> W <> T) as HST by (intros W HW ->; destruct (pl_doomed _ _ _ HS T); [by left|done]).
  destruct (rollback_cases T v) as [(Hb & Hb' & He')|(Hb & Hb' & He')]; split; try done; rewrite ?Hb', ?He'; try done.
  - by intros C ?%names_none.
  - intros W HW. rewrite Hb, names_none, names_txid. specialize (HST W HW). tauto.
  - intros W HW. rewrite names_none. split; [done|]. intros Hn. destruct (H1 v T W) as [HTS _]; try done; [by left|by apply HST|]. by apply (HST T HTS).
  - intros W HW. case_decide as Hd; [|done]. rewrite Hd, names_none, names_txid. specialize (HST W HW). tauto.
Qed.

Lemma rollback_row_ok h w T k : store_ok h w -> begun (hx h T) -> g_fate (hx h T) = Undone ->
  does (rollback_row T k) (fun _ w' => store_ok (upd h T (g_unref k (hx h T))) w' /\ tx_ids w' = tx_ids w) w.
Proof.
  intros Hs Hb Hf. apply wpg_modifies. split; [|done]. apply mapped_store; [done|done| |].
  - intros S v HS Hv. by apply (rollback_alike h w T k).
  - intros v Hv. pose proof (so_refs _ _ _ Hs k v Hv) as [R1 R2 R3 R4 R5]. set (h' := upd h T (g_unref k (hx h T))).
    assert (forall x W, names h' x W <-> names h x W) as Hnm by (intros x W; unfold names, h'; by rewrite (upd_field g_end)).
    destruct (rollback_rest T v) as (_ & _ & Hm). specialize (Hm R5).
    destruct (rollback_cases T v) as [(Hvb & Hb' & He')|(Hvb & Hb' & He')]; split; rewrite ?Hb', ?He'; try done.
    + by intros W [?|?].
    + by intros e [?|?].
    + intros W. rewrite !Hnm, names_none. tauto.
    + intros W HW. assert (W <> T /\ (rv_begin v = Some (TxID W) \/ rv_end v = Some (TxID W))) as [Hne HW'].
      { case_decide; destruct HW; simplify_eq; split; auto; congruence. }
      destruct (R1 W HW') as [? ?]. split; [done|]. unfold h'. by rewrite hx_upd_ne.
    + intros e He. destruct (R2 e) as (W & ? & ?); [case_decide; destruct He; simplify_eq; auto|]. exists W. unfold h'.
      by rewrite (upd_field g_end), (upd_field g_fate).
    + intros W. rewrite !Hnm. intros HW. unfold wrote, h'. rewrite (upd_field g_writes) by done. apply R3.
      case_decide; [|done]. rewrite names_none in HW. tauto.
    + intros W HW. unfold h'. rewrite (upd_field g_end) by done. intros HeW. case_decide; [by left|by apply R4].
Qed.
End Chains.
