(* ===== verification/MvccValidate.v ===== *)
(** * Begin, preparation and validation of a transaction *)
From stdpp Require Import gmap functions.
From S2P Require Import Prelude Errors Effects Mvcc Threads MvccSession MvccGhost MvccEvolve MvccScan MvccRead MvccWrite MvccStatements MvccFinish.

Section Validate.
Context (base : RowID -> option Row).
#[local] Abbreviation store_ok := (store_ok base).

(** ** Validation *)

(** A step that changes nothing, fails, or shows [P]. *)
Definition tests {A} (w : MvStore) (P : Prop) (o : poll A) (w' : MvStore) : Prop :=
  w' = w /\ match o with Ready _ => P | Fails _ => True | _ => False end.

Section Check.
Context {h : hist} {w : MvStore} (Hs : store_ok h w) (T e : Z) (tx : Transaction).
Context (Htx : acts_as h T tx) (HbT : begun (hx h T)) (He : g_end (hx h T) = Some e) (k : RowID).
Let Ht := so_times _ _ _ Hs.

(** If [X] is to commit it ends after [T]. *)
Definition late (X : Z) : Prop := forall S eX, plausible h w S -> X ∈ S -> g_end (hx h X) = Some eX -> e <= eX.

Lemma state_conflict_ok X : is_Some (txs w !! X) -> wpp (state_conflict e X) (tests w (late X)) w.
Proof.
  intros HX. destruct (entry_of base w X Hs HX) as (tX & HtX & HeX). pose proof (en_state _ _ _ HeX) as Hst.
  unfold state_conflict. apply wpp_bind, wpp_does, wpg_gets. unfold lookup_tx_state. rewrite HtX. simpl.
  destruct (tx_state tX) as [|eX| | |eX]; simpl in Hst.
  - split; [done|]. intros S e' _ _ He'. destruct Hst. congruence.
  - destruct Hst as [_ Hend]. destruct (Z.ltb_spec eX e); [done|]. split; [done|]. intros S e' _ _ He'. simplify_eq. lia.
  - split; [done|]. intros S e' HS HXS _. destruct (pl_doomed _ _ _ HS X); [by left|done].
  - split; [done|]. intros S e' HS HXS _. destruct (pl_doomed _ _ _ HS X); [by left|done].
  - done.
Qed.

(** The traces of [W] in the version leave only that [W] precedes [T]. *)
Definition clear (v : RowVersion) : Prop := forall S W eW, plausible h w S -> T ∈ S -> W ∈ S -> W <> T ->
  names h (rv_begin v) W \/ names h (rv_end v) W -> g_end (hx h W) = Some eW -> eW < e -> prec h W T.

Lemma clear_ended v X : v ∈ chain w k -> names h (rv_end v) X -> g_fate (hx h X) = Kept \/ X = T -> X = T \/ prec h X T -> clear v.
Proof.
  intros Hv HX Hk HXT S W eW HS HTS HWS HWT Hn HeW Hl. assert (X ∈ S) as HXS by (destruct Hk as [Hk|Hk]; [by apply (pl_kept _ _ _ HS)|congruence]).
  destruct Hn as [Hn|Hn].
  - destruct (decide (X = W)) as [->|Hne]; [naive_solver|].
    destruct (fp_ended _ _ _ _ (so_p _ _ _ Hs S k HS) v W X) as [_ Hp]; [done..|]. destruct HXT as [->|?]; [done|]. by eapply (prec_trans Ht).
  - rewrite (names_inj Ht _ W X Hn HX). destruct HXT as [->|?]; [|done]. by destruct (HWT (names_inj Ht _ W T Hn HX)).
Qed.

Lemma late_contra S W eW : late W -> plausible h w S -> W ∈ S -> g_end (hx h W) = Some eW -> eW < e -> False.
Proof. intros Hl HS HW HeW Hlt. specialize (Hl S eW HS HW HeW). lia. Qed.

Lemma clear_tombstone v X : rv_begin v = None -> rv_end v = Some (TxID X) -> X = T \/ late X -> clear v.
Proof.
  intros Hb HX HXT S W eW HS HTS HWS HWT Hn HeW Hl. rewrite Hb, HX, names_none, names_txid in Hn. destruct Hn as [[]| ->].
  destruct HXT as [?|HXT]; [done|]. by destruct (late_contra S X eW HXT HS).
Qed.

Lemma clear_begun v C : v ∈ chain w k -> rv_begin v = Some (TxID C) -> C = T \/ late C -> clear v.
Proof.
  intros Hv HC HCT S W eW HS HTS HWS HWT Hn HeW Hl. rewrite HC, names_txid in Hn.
  destruct (decide (W = C)) as [->|HWC]; [destruct HCT as [?|HCT]; [done|]; by destruct (late_contra S C eW HCT HS)|].
  destruct Hn as [?|Hn]; [done|]. destruct (fp_ended _ _ _ _ (so_p _ _ _ Hs S k HS) v C W) as [HCS (eC & HeC & HlC)]; try done; [by left; rewrite HC|].
  pose proof (ti_end _ _ Ht W eW HeW) as [_ [? _]]. destruct HCT as [->|HCT]; [simplify_eq; lia|].
  destruct (late_contra S C eC HCT HS HCS HeC); lia.
Qed.

Lemma check_begin_ok v : v ∈ chain w k -> rv_begin v <> None -> wpp (check_begin e tx v) (tests w (clear v)) w.
Proof.
  intros Hv Hn. destruct Htx as [Hid _]. unfold check_begin. destruct (rv_begin v) as [[eC|C]|] eqn:Eb; [done| |done]. rewrite Hid.
  destruct (Z.eqb_spec C T) as [->|HCT]; [split; [done|]; apply (clear_begun v T); auto|].
  destruct (ro_id _ _ _ _ (so_refs _ _ _ Hs k v Hv) C) as [HC _]; [by left|]. apply wpp_bind, wpp_does, wpg_gets.
  pose proof HC as [tC HtC]. unfold lookup_tx_state. rewrite HtC. simpl. eapply wpp_mono; [by apply state_conflict_ok|].
  intros o w' [-> Ho]. split; [done|]. destruct o; try done. apply (clear_begun v C); auto.
Qed.

Lemma check_version_ok v : v ∈ chain w k -> wpp (check_version_conflict e tx v) (tests w (clear v)) w.
Proof.
  intros Hv. pose proof (so_refs _ _ _ Hs k v Hv) as Hro. destruct Htx as [Hid Hb]. unfold check_version_conflict. rewrite Hid, Hb.
  assert (forall X eX, g_end (hx h X) = Some eX -> negb (eX =? g_begin (hx h T)) = true) as Hne.
  { intros X eX HX. destruct (Z.eqb_spec eX (g_begin (hx h T))) as [->|]; [|done]. by destruct (ti_apart _ _ Ht T X HbT). }
  destruct (rv_end v) as [[eX|X]|] eqn:Ee.
  - destruct (ro_ts _ _ _ _ Hro eX) as (X & HX & Hk); [by right|]. apply wpp_bind, wpp_bind, wpp_does, wpg_assert; [by apply (Hne X)|]. simpl.
    pose proof (Hne X eX HX) as Hne'. apply negb_true_iff, Z.eqb_neq in Hne'. destruct (Z.ltb_spec (g_begin (hx h T)) eX) as [|Hle]; [done|]. simpl.
    assert (clear v) as Hcl.
    { apply (clear_ended v X); [done| |by left|]; [rewrite Ee; by apply names_ts|right; exists eX; split; [done|lia]]. }
    destruct (bool_decide _); [done|]. by rewrite (proj2 (Z.ltb_lt eX (g_begin (hx h T)))) by lia.
  - apply wpp_bind, wpp_does, wpg_ret. simpl. destruct (ro_id _ _ _ _ Hro X) as [HX _]; [by right|].
    destruct (bool_decide (rv_begin v = None)) eqn:Eb.
    + apply bool_decide_eq_true in Eb. destruct (Z.eqb_spec X T) as [->|HXT]; simpl; [split; [done|]; apply (clear_tombstone v T); auto|].
      eapply wpp_mono; [by apply state_conflict_ok|]. intros o w' [-> Ho]. split; [done|]. destruct o; try done. apply (clear_tombstone v X); auto.
    + apply bool_decide_eq_false in Eb. destruct (Z.eqb_spec X T) as [->|HXT].
      { split; [done|]. apply (clear_ended v T); auto. rewrite Ee. by left. }
      destruct (entry_of base w X Hs HX) as (tX & HtX & HeX). pose proof (en_state _ _ _ HeX) as Hst.
      apply wpp_bind, wpp_does, wpg_gets. unfold lookup_tx_state. rewrite HtX. simpl.
      destruct (tx_state tX) as [| | | |eX]; simpl in Hst; try (by apply check_begin_ok). destruct Hst as [Hk Hend].
      pose proof (Hne X eX Hend) as Hne'. apply wpp_bind, wpp_does, wpg_assert; [done|]. simpl. apply negb_true_iff, Z.eqb_neq in Hne'.
      destruct (Z.ltb_spec (g_begin (hx h T)) eX) as [|Hle]; [done|]. split; [done|].
      apply (clear_ended v X); [done| |by left|]; [rewrite Ee; by left|right; exists eX; split; [done|lia]].
  - apply wpp_bind, wpp_does, wpg_ret. simpl. destruct (bool_decide (rv_begin v = None)) eqn:Eb.
    + apply bool_decide_eq_true in Eb. split; [done|]. intros S W eW _ _ _ _ Hn. rewrite Eb, Ee, names_none in Hn. tauto.
    + apply bool_decide_eq_false in Eb. by apply check_begin_ok.
Qed.

Lemma check_versions_ok vs : (forall v, v ∈ vs -> v ∈ chain w k) ->
  wpp (check_version_conflicts e tx vs) (tests w (forall v, v ∈ vs -> clear v)) w.
Proof.
  induction vs as [|v vs IH]; intros Hvs; simpl; [split; [done|]; set_solver|].
  apply wpp_bind. eapply wpp_mono; [apply check_version_ok, Hvs; set_solver|]. intros o w' [-> Ho]. destruct o; try done. simpl.
  eapply wpp_mono; [apply IH; set_solver|]. intros o w' [-> Ho']. split; [done|]. destruct o; try done. set_solver.
Qed.

Lemma check_store : g_fate (hx h T) = Undecided -> (forall v, v ∈ chain w k -> clear v) -> store_ok (upd h T (g_check k (hx h T))) w.
Proof.
  intros Hf Hcl. set (h' := upd h T (g_check k (hx h T))).
  assert (forall {A} (p : gtx -> A) W, (forall g, p (g_check k g) = p g) -> p (hx h' W) = p (hx h W)) as Hfield.
  { intros A p W Hp. unfold h'. by apply upd_field. }
  assert (forall X, deps h' w X = deps h w X) as Hdeps by (intros X; unfold deps; by rewrite (Hfield _ g_notify)).
  assert (forall S, plausible h' w S -> plausible h w S) as Hpl.
  { intros S. apply plausible_fewer.
    - intros W. by rewrite (Hfield _ g_fate).
    - intros W. unfold doomed. by rewrite (Hfield _ g_fate).
    - intros W X. rewrite Hdeps. auto. }
  assert (evolves h w h' w) as Hev.
  { apply evolves_same; [|done|done]. intros W. by rewrite (Hfield _ g_begin), (Hfield _ g_end), (Hfield _ g_writes), (Hfield _ g_fate). }
  assert (times_ok h' w) as Ht'.
  { apply (times_same h w); try done; [|].
    - intros W. by rewrite (Hfield _ g_begin), (Hfield _ g_end), (Hfield _ g_fate).
    - intros W HW. unfold h'. rewrite hx_upd_ne; [by apply (ti_unborn _ _ Ht)|]. by intros ->. }
  apply (store_step base h w); try done.
  - intros W. pose proof (so_ghost _ _ _ Hs W) as Hg. unfold h'. destruct (decide (W = T)) as [->|]; [rewrite hx_upd|by rewrite hx_upd_ne].
    destruct Hg as [G1 G2 G3 G4 G5 G6 G7 G8 G9]. split; try done; simpl; first [by rewrite Hf|by rewrite He].
  - intros W. pose proof (so_tx _ _ _ Hs W) as Hx. unfold h'. destruct (decide (W = T)) as [->|]; [rewrite hx_upd|by rewrite hx_upd_ne].
    destruct (txs w !! T) as [t|]; [|done]. simpl in *. destruct Hx as [E1 E2 E3 E4 E5 E6 E7 E8 E9 E10]. split; try done.
    intros Hl. destruct (E9 Hl) as (? & ? & ?). split; [done|]. split; [simpl; set_solver|done].
  - destruct (so_deps _ _ _ Hs) as [Hc Hed Hto]. split.
    + intros W t. setoid_rewrite Hdeps. apply Hc.
    + intros W X. rewrite Hdeps. intros HW. destruct (Hed W X HW) as (? & (eX & ? & ?) & ?). unfold begun, prec.
      rewrite (Hfield _ g_begin), (Hfield _ g_settled), (Hfield _ g_end) by done. eauto.
    + intros W d. unfold doomed. rewrite (Hfield _ g_told), (Hfield _ g_fate) by done. apply Hto.
  - apply (so_fin _ _ _ Hs).
  - apply (so_ckpt _ _ _ Hs).
  - intros k' v Hv. eapply (ref_kept Ht' Hev); [by apply (so_refs _ _ _ Hs)|]. intros W HW Hk. by rewrite (Hfield _ g_refs).
  - intros k'. left. split; [done|]. intros W. by rewrite (Hfield _ g_writes).
  - intros S W HS HW. destruct (decide (0 <= g_begin (hx h W))) as [HbW|HbW].
    + left. rewrite (Hfield _ g_writes), (Hfield _ g_pending), (Hfield _ g_ops), (Hfield _ g_know) by done.
      repeat (split; [done|]). apply list.Forall_forall. auto.
    + right. apply facts_unborn. unfold h'. rewrite hx_upd_ne; [by apply (ti_unborn _ _ Ht)|]. by intros ->.
  - intros W. destruct (decide (W = T)) as [->|]; [right|left; unfold h'; by rewrite hx_upd_ne]. intros S X k' eX e' HS HTS HXS Hk'.
    unfold wrote. rewrite (Hfield _ g_writes), !(Hfield _ g_end) by done. intros HwX HeX HeT Hl. rewrite He in HeT. injection HeT as <-.
    apply (prec_kept Ht Hev); [done|]. unfold h' in Hk'. rewrite hx_upd in Hk'. simpl in Hk'.
    apply elem_of_union in Hk' as [->%elem_of_singleton|Hk']; [|by apply (so_v _ _ _ Hs S T X k' eX e); auto].
    assert (X <> T) as HXT by (intros ->; simplify_eq; lia).
    destruct (fp_trace _ _ _ _ (so_p _ _ _ Hs S k (Hpl S HS)) X HXS HwX) as [(v & Hv & Hn)|(eX' & HeX' & Hle)].
    + by apply (Hcl v Hv S X eX); auto.
    + exists eX'. split; [done|]. pose proof (ti_open _ _ Ht T HbT Hf). pose proof (ti_apart _ _ Ht T X HbT).
      assert (eX' <> g_begin (hx h T)) by congruence. lia.
Qed.
End Check.

Lemma check_rowid_ok h w T e k : store_ok h w -> begun (hx h T) -> g_gone (hx h T) = false -> g_fate (hx h T) = Undecided ->
  g_end (hx h T) = Some e ->
  wpp (check_rowid_for_conflicts k e T) (tests w (store_ok (upd h T (g_check k (hx h T))) w)) w.
Proof.
  intros Hs Hb Hh Hf He. destruct (owner_here base h w T Hs Hb Hh) as (t & Ht & _). unfold check_rowid_for_conflicts.
  apply wpp_bind, wpp_does, wpg_gets. rewrite Ht. simpl. apply wpp_bind, wpp_does, wpg_gets. simpl.
  assert (chain w k = default [] (rows w !! k)) as Hc by done. pose proof (entry_acts base T w t Hs Ht) as Htx. destruct (rows w !! k) as [vs|].
  - simpl in Hc. rewrite <- Hc. eapply wpp_mono; [apply (check_versions_ok Hs T e t Htx Hb He k); set_solver|]. intros o w' [-> Ho].
    split; [done|]. destruct o; try done. apply (check_store Hs T e t Htx Hb He); [done|set_solver].
  - split; [done|]. apply (check_store Hs T e t Htx Hb He); [done|]. rewrite Hc. set_solver.
Qed.
End Validate.
