(* ===== verification/MvccClock.v ===== *)
(** * Timestamps: the beginning of a transaction and of its commit *)
From stdpp Require Import gmap functions.
From S2P Require Import Prelude Errors Effects Mvcc MvccWords Threads MvccSession MvccGhost MvccEvolve MvccScan MvccRead MvccWrite MvccStatements MvccFinish.

Section Clock.
Context (base : RowID -> option Row).
#[local] Abbreviation store_ok := (store_ok base).

Lemma get_tx_id_ok h w : store_ok h w -> does get_tx_id (fun id w' => store_ok h w' /\ id = tx_ids w /\ tx_ids w' = tx_ids w + 1) w.
Proof.
  intros Hs. apply wpg_bind, wpg_gets, wpg_bind, wpg_modifies, wpg_ret. split; [|done]. by apply (tick_store _ h w); try apply (so_fin _ _ _ Hs); simpl; try lia.
Qed.

(** ** Begin *)
Section Begin.
Context {h : hist} {w : MvStore} (Hs : store_ok h w) (T : Z) (read_mark : WalPos).
Context (Hnew : hx h T = unborn) (Hid : 0 <= T < tx_ids w) (Hmask : T <= VALUE_MASK).
Let h' := upd h T (born (clock w)).
Let w' := with_txs <[T := Transaction_new T (clock w) read_mark]> (with_clock (clock w + 1) w).

Lemma begin_absent : txs w !! T = None.
Proof.
  pose proof (so_tx _ _ _ Hs T) as H. rewrite Hnew in H. destruct (txs w !! T) as [t|]; [|done]. by destruct (en_begun _ _ _ H).
Qed.

Lemma begin_field {A} (p : gtx -> A) W : p unborn = p (born (clock w)) -> p (hx h' W) = p (hx h W).
Proof. intros Hp. unfold h'. apply upd_field. by rewrite Hnew. Qed.

Lemma begin_txs W : txs w' !! W = if decide (W = T) then Some (Transaction_new T (clock w) read_mark) else txs w !! W.
Proof. unfold w'. simpl. destruct (decide (W = T)) as [->|]; [by rewrite lookup_insert_eq|by rewrite lookup_insert_ne]. Qed.

Lemma begin_deps X : deps h' w' X = deps h w X.
Proof.
  unfold deps. rewrite (begin_field g_notify), begin_txs by done. destruct (decide (X = T)) as [->|]; [|done].
  by rewrite begin_absent.
Qed.

Lemma begin_doomed W : doomed h w W -> doomed h' w' W.
Proof.
  unfold doomed. rewrite (begin_field g_fate), begin_txs by done. intros [?|(t & Ht & ?)]; [by left|right].
  exists t. destruct (decide (W = T)) as [->|]; [|done]. by rewrite begin_absent in Ht.
Qed.

Lemma begin_plausible S : plausible h' w' S -> plausible h w S.
Proof.
  apply plausible_fewer; [intros W; by rewrite (begin_field g_fate)|apply begin_doomed|]. intros W X. rewrite begin_deps. auto.
Qed.

Lemma begin_begin W : begun (hx h W) -> g_begin (hx h' W) = g_begin (hx h W).
Proof. intros HW. unfold h'. rewrite hx_upd_ne; [done|]. intros ->. by rewrite Hnew in HW. Qed.

Lemma begin_evolves : evolves h w h' w'.
Proof.
  split; try done.
  - apply begin_begin.
  - intros W e. by rewrite (begin_field g_end), (begin_field g_writes).
  - intros W e. rewrite (begin_field g_end) by done. congruence.
  - intros W k. unfold wrote. by rewrite (begin_field g_writes).
  - intros W. by rewrite (begin_field g_fate).
  - apply begin_plausible.
Qed.

Lemma begin_times : times_ok h' w'.
Proof.
  destruct (so_times _ _ _ Hs) as [H1 H2 H3 H4 H5 H6 H7 H8].
  assert (forall W, begun (hx h' W) -> W = T /\ g_begin (hx h' W) = clock w \/ begun (hx h W) /\ g_begin (hx h' W) = g_begin (hx h W)) as Hb.
  { intros W. unfold h', begun. destruct (decide (W = T)) as [->|]; [rewrite hx_upd; by left|rewrite hx_upd_ne by done; by right]. }
  assert (clock w' = clock w + 1) as Hck by done. assert (tx_ids w' = tx_ids w) as Hti by done. assert (floor h' = floor h) as Hfl by done. split; rewrite ?Hck, ?Hti, ?Hfl; [lia|..].
  - intros W HW. destruct (decide (W = T)) as [->|]; [|unfold h'; rewrite hx_upd_ne by done; apply H2; by unfold h' in HW; rewrite hx_upd_ne in HW].
    destruct HW. unfold h'. rewrite hx_upd. exact H1.
  - intros W HW. destruct (Hb W HW) as [[-> ->]|[HbW ->]]; [lia|]. specialize (H3 W HbW). lia.
  - intros W e. rewrite (begin_field g_end) by done. intros He. destruct (H4 W e He) as [HbW ?]. unfold begun in *.
    rewrite begin_begin by done. split; [done|lia].
  - intros W W' e. rewrite !(begin_field g_end) by done. apply H5.
  - intros W W' HW. rewrite (begin_field g_end) by done. destruct (Hb W HW) as [[-> ->]|[HbW ->]]; [|by apply H6]. intros He.
    destruct (H4 _ _ He). lia.
  - lia.
  - intros W HW. rewrite (begin_field g_fate) by done. destruct (Hb W HW) as [[-> ->]|[HbW ->]]; [lia|by apply H8].
Qed.

Lemma begin_deps_ok : deps_ok h' w'.
Proof.
  destruct (so_deps _ _ _ Hs) as [H1 H2 H3]. split.
  - intros W t. rewrite begin_txs. setoid_rewrite begin_deps. destruct (decide (W = T)) as [->|]; [|by apply H1]. intros [= <-]. exists ∅.
    split; [|done]. intros X. split; [set_solver|]. intros (HbT & _)%H2. by rewrite Hnew in HbT.
  - intros W X. rewrite begin_deps. intros HW. destruct (H2 W X HW) as (HbW & ? & ?). split_and!.
    + unfold begun. by rewrite begin_begin.
    + by apply (prec_kept (so_times _ _ _ Hs) begin_evolves).
    + by rewrite (begin_field g_settled).
  - intros W d. rewrite (begin_field g_told) by done. intros Hd. apply begin_doomed. by eapply H3.
Qed.

Lemma begin_store : store_ok h' w'.
Proof.
  assert (forall W, tx_ok (hx h' W) W (txs w' !! W)) as Htx.
  { intros W. rewrite begin_txs. unfold h'. destruct (decide (W = T)) as [->|]; [rewrite hx_upd|rewrite hx_upd_ne by done; apply (so_tx _ _ _ Hs)].
    split; try done. exact (ti_clock _ _ (so_times _ _ _ Hs)). }
  apply (store_step base h w); try done.
  - apply begin_times.
  - apply begin_evolves.
  - intros W. unfold h'. destruct (decide (W = T)) as [->|]; [rewrite hx_upd|rewrite hx_upd_ne by done; apply (so_ghost _ _ _ Hs)]. by split.
  - apply begin_deps_ok.
  - apply (so_fin _ _ _ Hs).
  - apply (so_ckpt _ _ _ Hs).
  - intros k v Hv. eapply (ref_kept begin_times begin_evolves); [by apply (so_refs _ _ _ Hs)|]. intros W HW Hk.
    rewrite (begin_field g_refs), begin_txs by done. by destruct (decide (W = T)).
  - intros k. left. split; [done|]. intros W. by rewrite (begin_field g_writes).
  - intros S W HS HW. destruct (decide (0 <= g_begin (hx h W))) as [HbW|HbW].
    + left. rewrite (begin_field g_writes), (begin_field g_pending), (begin_field g_ops), (begin_field g_know) by done.
      repeat (split; [done|]). apply list.Forall_forall. auto.
    + right. apply (ti_unborn _ _ (so_times _ _ _ Hs)) in HbW.
      split; rewrite ?(begin_field g_writes), ?(begin_field g_pending), ?(begin_field g_ops), ?(begin_field g_know), HbW by done; simpl;
        [by rewrite (left_id_L ∅ (∪))|done|by constructor].
  - intros W. left. by apply (begin_field g_checked).
Qed.
End Begin.

Lemma begin_tx_ok h w T stale read_mark : store_ok h w -> hx h T = unborn -> 0 <= T < tx_ids w -> T <= VALUE_MASK ->
  wpp (begin_tx stale T read_mark) (fun r w' => tx_ids w' = tx_ids w /\
    match r with Ready _ => store_ok (upd h T (born (clock w))) w' | _ => store_ok h w' end) w.
Proof.
  intros Hs Hn Hi Hm. unfold begin_tx, get_timestamp. apply wpp_bind, wpp_does, wpg_gets. apply wpp_bind, wpp_does, wpg_modifies.
  destruct stale; simpl.
  - split; [done|]. apply clock_store; [done|lia].
  - split; [done|]. by apply begin_store.
Qed.

(** ** Prepare *)
Section Prepare.
Context {h : hist} {w : MvStore} (Hs : store_ok h w) (T : Z) (t : Transaction) (Ht : txs w !! T = Some t).
Context (Hf : g_fate (hx h T) = Undecided) (Hend : g_end (hx h T) = None) (Hword : clock w <= VALUE_MASK).
Let h' := upd h T (g_prepare (clock w) (hx h T)).
Let w' := with_txs <[T := set_tx_state (Preparing (clock w)) t]> (with_clock (clock w + 1) w).

Lemma prepare_entry : entry_ok (hx h T) T t.
Proof. pose proof (so_tx _ _ _ Hs T) as H. by rewrite Ht in H. Qed.

Lemma prepare_field {A} (p : gtx -> A) W : (forall e g, p (g_prepare e g) = p g) -> p (hx h' W) = p (hx h W).
Proof. intros Hp. unfold h'. by apply upd_field. Qed.

Lemma prepare_end W : g_end (hx h' W) = if decide (W = T) then Some (clock w) else g_end (hx h W).
Proof. unfold h'. destruct (decide (W = T)) as [->|]; [by rewrite hx_upd|by rewrite hx_upd_ne]. Qed.

Lemma prepare_txs W : txs w' !! W = if decide (W = T) then Some (set_tx_state (Preparing (clock w)) t) else txs w !! W.
Proof. unfold w'. simpl. destruct (decide (W = T)) as [->|]; [by rewrite lookup_insert_eq|by rewrite lookup_insert_ne]. Qed.

Lemma prepare_deps X : deps h' w' X = deps h w X.
Proof. unfold deps. rewrite (prepare_field g_notify), prepare_txs by done. destruct (decide (X = T)) as [->|]; [by rewrite Ht|done]. Qed.

Lemma prepare_doomed W : doomed h w W -> doomed h' w' W.
Proof.
  unfold doomed. rewrite (prepare_field g_fate), prepare_txs by done. intros [?|(t0 & Ht0 & ?)]; [by left|right].
  destruct (decide (W = T)) as [->|]; [|eauto]. rewrite Ht in Ht0. injection Ht0 as <-. eauto.
Qed.

Lemma prepare_plausible S : plausible h' w' S -> plausible h w S.
Proof.
  apply plausible_fewer; [intros W; by rewrite (prepare_field g_fate)|apply prepare_doomed|]. intros W X. rewrite prepare_deps. auto.
Qed.

Lemma prepare_evolves : evolves h w h' w'.
Proof.
  split; try done.
  - intros W _. by rewrite (prepare_field g_begin).
  - intros W e. rewrite prepare_end, (prepare_field g_writes) by done. destruct (decide (W = T)) as [->|]; [congruence|done].
  - intros W e. rewrite prepare_end. destruct (decide (W = T)) as [->|]; [intros _ [= <-]; lia|congruence].
  - intros W k. unfold wrote. by rewrite (prepare_field g_writes).
  - intros W. by rewrite (prepare_field g_fate).
  - apply prepare_plausible.
Qed.

Lemma prepare_times : times_ok h' w'.
Proof.
  destruct (so_times _ _ _ Hs) as [H1 H2 H3 H4 H5 H6 H7 H8]. pose proof (en_begun _ _ _ prepare_entry) as HbT.
  assert (forall W, g_end (hx h W) <> Some (clock w)) as Hfresh by (intros W He; destruct (H4 _ _ He); lia).
  assert (clock w' = clock w + 1) as Hck by done. assert (tx_ids w' = tx_ids w) as Hti by done. assert (floor h' = floor h) as Hfl by done.
  split; rewrite ?Hck, ?Hti, ?Hfl; unfold begun; try setoid_rewrite (prepare_field g_begin); try done; [lia|..].
  - intros W HW. unfold h'. rewrite hx_upd_ne; [by apply H2|]. by intros ->.
  - intros W HW. specialize (H3 W HW). lia.
  - intros W e. rewrite prepare_end. destruct (decide (W = T)) as [->|].
    + intros [= <-]. split; [done|]. specialize (H3 T HbT). lia.
    + intros He. destruct (H4 W e He). split; [done|lia].
  - intros W W' e. rewrite !prepare_end. destruct (decide (W = T)) as [->|], (decide (W' = T)) as [->|]; try done;
      [intros [= <-] He; by destruct (Hfresh W')|intros He [= <-]; by destruct (Hfresh W)|apply H5].
  - intros W W' HW. rewrite prepare_end. destruct (decide (W' = T)) as [->|]; [|by apply H6]. intros [= He]. specialize (H3 W HW). lia.
  - lia.
  - intros W HW. rewrite (prepare_field g_fate) by done. by apply H8.
Qed.

Lemma prepare_deps_ok : deps_ok h' w'.
Proof.
  destruct (so_deps _ _ _ Hs) as [H1 H2 H3]. split.
  - intros W t0. rewrite prepare_txs. setoid_rewrite prepare_deps. destruct (decide (W = T)) as [->|]; [|by apply H1]. intros [= <-].
    exact (H1 T t Ht).
  - intros W X. rewrite prepare_deps. intros HW. destruct (H2 W X HW) as (HbW & ? & ?). split_and!.
    + unfold begun. by rewrite (prepare_field g_begin).
    + by apply (prec_kept (so_times _ _ _ Hs) prepare_evolves).
    + by rewrite (prepare_field g_settled).
  - intros W d. rewrite (prepare_field g_told) by done. intros Hd. apply prepare_doomed. by eapply H3.
Qed.

Lemma prepare_store : store_ok h' w'.
Proof.
  apply (store_step base h w); try done.
  - apply prepare_times.
  - apply prepare_evolves.
  - intros W. unfold h'. destruct (decide (W = T)) as [->|]; [rewrite hx_upd|rewrite hx_upd_ne by done; apply (so_ghost _ _ _ Hs)].
    destruct (so_ghost _ _ _ Hs T). split; try done; simpl; [by rewrite Hf|eauto..|].
    intros e [= <-]. split; [apply (ti_clock _ _ (so_times _ _ _ Hs))|done].
  - intros W. rewrite prepare_txs. unfold h'. destruct (decide (W = T)) as [->|]; [rewrite hx_upd|rewrite hx_upd_ne by done; apply (so_tx _ _ _ Hs)].
    destruct prepare_entry. by split.
  - apply prepare_deps_ok.
  - apply (so_fin _ _ _ Hs).
  - apply (so_ckpt _ _ _ Hs).
  - intros k v Hv. eapply (ref_kept prepare_times prepare_evolves); [by apply (so_refs _ _ _ Hs)|]. intros W HW Hk.
    rewrite (prepare_field g_refs), prepare_txs by done. by destruct (decide (W = T)).
  - intros k. left. split; [done|]. intros W. by rewrite (prepare_field g_writes).
  - intros S W HS HW. destruct (decide (0 <= g_begin (hx h W))) as [HbW|HbW].
    + left. rewrite (prepare_field g_writes), (prepare_field g_pending), (prepare_field g_ops), (prepare_field g_know) by done.
      repeat (split; [done|]). apply list.Forall_forall. auto.
    + right. apply facts_unborn. unfold h'. rewrite hx_upd_ne; [by apply (ti_unborn _ _ (so_times _ _ _ Hs))|].
      intros ->. by destruct (HbW (en_begun _ _ _ prepare_entry)).
  - intros W. left. by apply (prepare_field g_checked).
Qed.
End Prepare.

(** Without room for the timestamp in the word of the state the assertion of [encode] fails. *)
Lemma prepare_tx_ok h w T ec sc : store_ok h w -> begun (hx h T) -> g_gone (hx h T) = false -> g_fate (hx h T) = Undecided ->
  g_end (hx h T) = None ->
  wpp (prepare_tx ec sc T) (fun r w' => tx_ids w' = tx_ids w /\
    match r with Ready ts => store_ok (upd h T (g_prepare ts (hx h T))) w' | _ => store_ok h w' end) w \/
  VALUE_MASK < clock w /\ (prepare_tx ec sc T w).1 = Crashes.
Proof.
  intros Hs Hb Hh Hf Hend. destruct (owner_here base h w T Hs Hb Hh) as (t & Ht & He). pose proof (en_state _ _ _ He) as Hst.
  assert (tx_state t = Active) as Hact by (destruct (tx_state t); simpl in Hst; [done|destruct_and?; congruence..]).
  assert (store_ok h (with_clock (clock w + 1) w)) as Htick by (apply clock_store; [done|lia]).
  assert ((tx_begin_ts t <? clock w) = true) as Hlt.
  { apply Z.ltb_lt. rewrite (en_begin _ _ _ He). apply (ti_begin _ _ (so_times _ _ _ Hs) T Hb). }
  destruct (decide (clock w <= VALUE_MASK)) as [Hw|Hw].
  - left. assert (store_ok (upd h T (g_prepare (clock w) (hx h T))) (with_txs <[T := set_tx_state (Preparing (clock w)) t]> (with_clock (clock w + 1) w))) as Hp.
    { by apply prepare_store. }
    unfold prepare_tx, find_tx. apply wpp_bind, wpp_does, wpg_gets. rewrite Ht. simpl. rewrite Hact. apply wpp_bind, wpp_does, wpg_ret. simpl.
    unfold get_timestamp. apply wpp_bind, wpp_does, wpg_gets, wpp_bind, wpp_does, wpg_modifies. cbn [passes_on].
    rewrite store_state_fits by (split; [apply (ti_clock _ _ (so_times _ _ _ Hs))|done]).
    apply wpp_bind, wpp_does, wpg_assert; [done|]. simpl.
    apply wpp_bind, wpp_does. destruct ec, sc; simpl; try (destruct (bool_decide (tx_write_set t = [])); simpl);
      first [apply (on_tx_ok _ _ t); [done|]; by split|apply wpg_ret; by split].
  - assert (VALUE_MASK < clock w) as Hlarge by lia. unfold prepare_tx, find_tx, get_timestamp, wpp, mbind, sm_bind, gets, modifies. rewrite Ht, Hact. simpl.
    rewrite Hlt, (store_state_large T _ Hlarge).
    destruct ec, sc; simpl; try (destruct (bool_decide (tx_write_set t = [])); simpl); by (left; split) || by (right; split).
Qed.
End Clock.
