(* ===== verification/MvccCollect.v ===== *)
(** * Garbage collection

    Versions that every open transaction sees superseded leave their chains.  The low-water mark
    bounds the end of what was dropped, and [floor] of the history keeps the highest of them. *)
From stdpp Require Import gmap functions.
From S2P Require Import Prelude Errors Effects Mvcc Threads MvccSession MvccGhost MvccEvolve MvccScan MvccRead MvccWrite MvccStatements MvccFinish MvccClock.

Section Collect.
Context (base : RowID -> option Row).
#[local] Abbreviation store_ok := (store_ok base).
#[local] Abbreviation facts_c := (facts_c base).

Lemma sublist_filter_length {A} (P : A -> Prop) `{!forall x, Decision (P x)} l l' :
  l `sublist_of` l' -> (length (filter P l) <= length (filter P l'))%nat.
Proof.
  induction 1 as [|x l l' _ IH|x l l' _ IH]; [done|..]; rewrite !filter_cons; destruct (decide (P x)); simpl; lia.
Qed.

Lemma filter_sublist {A} (P : A -> Prop) `{!forall x, Decision (P x)} l : filter P l `sublist_of` l.
Proof. induction l as [|x l IH]; [done|]. rewrite filter_cons. destruct (decide (P x)); by constructor. Qed.

(** ** Fewer versions *)

(** A version that may be dropped at the mark [f]. *)
Definition superseded (f : Z) (v : RowVersion) : Prop :=
  rv_begin v = None /\ rv_end v = None \/ exists e, rv_end v = Some (Timestamp e) /\ e <= f /\ rv_btree_resident v = false.

Section Drop.
Context {h : hist} {w : MvStore} (Hs : store_ok h w) (f : Z) (k : RowID) (r : gmap RowID (list RowVersion)).
Let h' := mkHist (hx h) f.
Let w' := with_rows (fun _ => r) w.
Context (Hfloor : floor h <= f < clock w) (Hopen : forall T, begun (hx h T) -> g_fate (hx h T) = Undecided -> f <= g_begin (hx h T)).
Context (Hne : forall k', k' <> k -> chain w' k' = chain w k') (Hsub : chain w' k `sublist_of` chain w k).
Context (Hdrop : forall v, v ∈ chain w k -> v ∈ chain w' k \/ superseded f v).

Lemma drop_elem v : v ∈ chain w' k -> v ∈ chain w k.
Proof. clear -Hsub. intros Hv. by eapply sublist_subseteq. Qed.

Lemma drop_plausible S : plausible h' w' S -> plausible h w S.
Proof. clear. intros [H1 H2 H3]. by split. Qed.

Lemma drop_evolves : evolves h w h' w'.
Proof. clear -Hfloor. apply evolves_same; [done|simpl; lia|apply drop_plausible]. Qed.

Lemma drop_times : times_ok h' w'.
Proof. clear -Hs Hfloor Hopen. destruct (so_times _ _ _ Hs) as [H1 H2 H3 H4 H5 H6 H7 H8]. split; try done. simpl. lia. Qed.

(** Who ended a dropped version is in every plausible set. *)
Lemma drop_ended S v e : plausible h w S -> v ∈ chain w k -> rv_end v = Some (Timestamp e) ->
  exists X, X ∈ S /\ g_end (hx h X) = Some e /\ names h (rv_end v) X /\ wrote h X k.
Proof.
  clear -Hs. intros HS Hv He. pose proof (so_refs _ _ _ Hs k v Hv) as Hr. destruct (ro_ts _ _ _ _ Hr e (or_intror He)) as (X & HX & HK).
  assert (names h (rv_end v) X) as Hn by (right; eauto). exists X. split; [by apply (pl_kept _ _ _ HS)|]. split; [done|]. split; [done|].
  apply (ro_wrote _ _ _ _ Hr). by right.
Qed.

Lemma drop_facts_p S : plausible h' w' S -> facts_p h' k (chain w' k) S.
Proof.
  intros HS%drop_plausible. destruct (so_p _ _ _ Hs S k HS) as [H1 H2]. split.
  - intros v C X Hv. by apply H1, drop_elem.
  - intros W HW HwW. destruct (H2 W HW HwW) as [(v & Hv & Hn)|(e & He & Hl)]; [|right; exists e; simpl; split; [done|lia]].
    destruct (Hdrop v Hv) as [Hv'|[[Hb He]|(e & He & Hle & _)]]; [left; eauto| |].
    + rewrite Hb, He in Hn. by destruct Hn as [?%names_none|?%names_none].
    + right. destruct (drop_ended S v e HS Hv He) as (X & HX & HeX & HnX & _). destruct (decide (X = W)) as [->|HXW]; [eauto|].
      destruct Hn as [Hn|Hn]; [|by destruct HXW; eapply (names_inj (so_times _ _ _ Hs))].
      destruct (H1 v W X) as (_ & eW & HeW & Hlt); try done. exists eW. split; [done|]. pose proof (ti_end _ _ (so_times _ _ _ Hs) _ _ HeX).
      simpl. lia.
Qed.

Lemma drop_facts_c S : consistent h' w' S -> facts_c h' k (chain w' k) S.
Proof.
  intros HS'. pose proof (consistent_kept (so_times _ _ _ Hs) drop_evolves S HS') as HS. pose proof (co_plausible _ _ _ HS) as HP.
  destruct (so_c _ _ _ Hs S k HS) as [H1 H2 H3 H4 H5]. split.
  - intros W x HW Hw. destruct (H1 W x HW Hw) as [(v & Hv & Hl & Hr)|(Y & e & HY & HwY & He & Hle & Hp)].
    + destruct (Hdrop v Hv) as [Hv'|[[Hb He]|(e & He & Hle & _)]]; [left; by exists v| |].
      * destruct Hl as [Hl _]. rewrite Hb in Hl. by apply names_none in Hl.
      * right. destruct (drop_ended S v e HP Hv He) as (X & HX & HeX & HnX & HwX). exists X, e. repeat (split; [done|]).
        destruct Hl as [HlW HnW]. destruct (fp_ended _ _ _ _ (so_p _ _ _ Hs S k HP) v W X) as [_ ?]; try done. by intros ->.
    + right. exists Y, e. repeat (split; [done|]). split; [simpl; lia|done].
  - intros W v HW Hv. by apply H2, drop_elem.
  - intros W HW. etrans; [by apply (sublist_filter_length (live h W))|]. by apply H3.
  - intros W X v HW HX Hv. by apply H4, drop_elem.
  - intros W Hbase HW HwW. destruct (H5 W Hbase HW HwW) as (v & W' & Hv & Hres & HW' & Hn & HWW).
    destruct (Hdrop v Hv) as [Hv'|[[Hb He]|(e & He & Hle & Hnr)]]; [by exists v, W'| |congruence]. rewrite Hb, He in Hn.
    by destruct Hn as [?%names_none|[_ ?%names_none]].
Qed.

Lemma drop_store : store_ok h' w'.
Proof.
  apply (store_step base h w); try done.
  - apply drop_times.
  - apply drop_evolves.
  - apply (so_ghost _ _ _ Hs).
  - apply (so_tx _ _ _ Hs).
  - destruct (so_deps _ _ _ Hs). by split.
  - apply (so_fin _ _ _ Hs).
  - apply (so_ckpt _ _ _ Hs).
  - intros k' v Hv. eapply (ref_kept drop_times drop_evolves); [apply (so_refs _ _ _ Hs)|done].
    destruct (decide (k' = k)) as [->|]; [by apply drop_elem|by rewrite Hne in Hv].
  - intros k'. destruct (decide (k' = k)) as [->|]; [right; split; [apply drop_facts_p|apply drop_facts_c]|left].
    by rewrite Hne.
  - intros S W HS HW. destruct (decide (0 <= g_begin (hx h W))) as [HbW|HbW].
    + left. repeat (split; [done|]). apply list.Forall_forall. auto.
    + right. apply facts_unborn. by apply (ti_unborn _ _ (so_times _ _ _ Hs)).
  - by left.
Qed.
End Drop.

Lemma raise_store h w f : store_ok h w -> floor h <= f < clock w ->
  (forall T, begun (hx h T) -> g_fate (hx h T) = Undecided -> f <= g_begin (hx h T)) -> store_ok (mkHist (hx h) f) w.
Proof.
  intros Hs Hf Ho. replace w with (with_rows (fun _ => rows w) w) by (by destruct w). apply (drop_store Hs f (mkRowID 0 0)); try done. by left.
Qed.

(** ** The low-water mark *)
Lemma compute_lwm_le w T t : txs w !! T = Some t -> (tx_state t = Active \/ exists e, tx_state t = Preparing e) ->
  compute_lwm w <= tx_begin_ts t.
Proof.
  unfold compute_lwm. intros Ht Hst. revert Ht. apply (map_fold_weak_ind (fun lwm (m : gmap Z Transaction) => m !! T = Some t -> lwm <= tx_begin_ts t)).
  - by rewrite lookup_empty.
  - intros W t' m lwm _ IH. destruct (decide (W = T)) as [->|].
    + rewrite lookup_insert_eq. intros [= ->]. destruct Hst as [-> | [e ->]]; lia.
    + rewrite lookup_insert_ne by done. intros Ht. specialize (IH Ht). destruct (tx_state t'); lia.
Qed.

Lemma compute_lwm_in w : compute_lwm w = U64_MAX \/ exists T t, txs w !! T = Some t /\ compute_lwm w = tx_begin_ts t.
Proof.
  unfold compute_lwm.
  apply (map_fold_weak_ind (fun lwm (m : gmap Z Transaction) => lwm = U64_MAX \/ exists T t, m !! T = Some t /\ lwm = tx_begin_ts t)); [by left|].
  intros W t' m lwm Hm IH.
  assert (lwm = U64_MAX \/ exists T t, <[W := t']> m !! T = Some t /\ lwm = tx_begin_ts t) as IH'.
  { destruct IH as [->|(T & t & Ht & ->)]; [by left|right]. exists T, t. split; [|done]. rewrite lookup_insert_ne; [done|congruence]. }
  destruct (tx_state t'); try done; destruct (Z.min_spec lwm (tx_begin_ts t')) as [[_ ->]|[_ ->]]; try done; right;
    exists W, t'; by rewrite lookup_insert_eq.
Qed.

Lemma lwm_open h w T : store_ok h w -> begun (hx h T) -> g_fate (hx h T) = Undecided -> compute_lwm w <= g_begin (hx h T).
Proof.
  intros Hs Hb Hf. assert (g_gone (hx h T) = false) as Hg.
  { destruct (g_gone (hx h T)) eqn:E; [|done]. by destruct (gh_gone _ (so_ghost _ _ _ Hs T) E). }
  destruct (owner_here base h w T Hs Hb Hg) as (t & Ht & He). rewrite <- (en_begin _ _ _ He). apply (compute_lwm_le w T); [done|].
  pose proof (en_state _ _ _ He) as Hst. destruct (tx_state t); simpl in Hst; eauto; destruct_and?; congruence.
Qed.

Lemma lwm_clock h w : store_ok h w -> compute_lwm w = U64_MAX \/ compute_lwm w < clock w.
Proof.
  intros Hs. destruct (compute_lwm_in w) as [?|(T & t & Ht & ->)]; [by left|right]. pose proof (so_tx _ _ _ Hs T) as H. rewrite Ht in H.
  rewrite (en_begin _ _ _ H). apply (ti_begin _ _ (so_times _ _ _ Hs)), (en_begun _ _ _ H).
Qed.

Lemma sample_ok h w : store_ok h w ->
  does sample_gc_lwm (fun lwm w' => tx_ids w' = tx_ids w /\
    exists f, floor h <= f /\ store_ok (mkHist (hx h) f) w' /\ (lwm = U64_MAX \/ lwm <= f)) w.
Proof.
  intros Hs. unfold sample_gc_lwm, get_timestamp. apply wpg_bind, wpg_gets, wpg_bind, wpg_modifies, wpg_gets. split; [done|].
  set (w' := with_clock (clock w + 1) w). assert (store_ok h w') as Hs' by (apply clock_store; [done|lia]).
  pose proof (ti_floor _ _ (so_times _ _ _ Hs')). destruct (lwm_clock h w' Hs') as [Hl|Hl].
  - exists (floor h). split; [done|]. split; [by destruct h|]. by left.
  - exists (Z.max (floor h) (compute_lwm w')). split; [lia|]. split; [|right; lia]. apply raise_store; [done|lia|]. intros T Hb Hf.
    pose proof (ti_open _ _ (so_times _ _ _ Hs') T Hb Hf). pose proof (lwm_open h w' T Hs' Hb Hf). lia.
Qed.

(** ** A chain *)
Lemma gc_chain_sublist vs lwm passive mark d : Forall (fun v => rv_materialized_at v = ORIGIN) vs ->
  exists vs', gc_version_chain vs lwm 0 passive mark d = vs' /\ vs' `sublist_of` vs /\
    forall v, v ∈ vs -> v ∈ vs' \/ rv_begin v = None /\ rv_end v = None \/
      exists e, rv_end v = Some (Timestamp e) /\ e <= lwm /\ (e <= 0 \/ rv_btree_resident v = false).
Proof.
  intros Hm. unfold gc_version_chain. set (nn := filter _ vs). set (cur := existsb _ nn).
  match goal with |- context [filter ?K nn] => set (keep := K); set (l := filter keep nn) end.
  assert (l `sublist_of` vs) as Hsub by (unfold l, nn; etrans; apply filter_sublist).
  exists l. split; [|split; [done|]].
  - destruct l as [|v [|]]; try done. assert (v ∈ vs) as Hv by (eapply sublist_subseteq; [done|set_solver]).
    rewrite list.Forall_forall in Hm. rewrite (Hm v Hv). rewrite bool_decide_eq_false_2 by (intros H; by apply H).
    simpl. rewrite andb_false_r. simpl. rewrite andb_false_r. destruct (rv_begin v) as [[]|], (rv_end v); done.
  - intros v Hv. rewrite list.Forall_forall in Hm. destruct (decide (rv_begin v = None /\ rv_end v = None)) as [?|Hn]; [auto|].
    destruct (decide (keep v)) as [Hk|Hk].
    { left. unfold l, nn. by rewrite !list_elem_of_filter. }
    right. right. unfold keep in Hk. destruct (rv_end v) as [[e|]|]; try done. exists e. split; [done|].
    destruct (e <=? lwm) eqn:Ee; [|done]. split; [lia|]. rewrite (Hm v Hv), bool_decide_eq_false_2 in Hk by (intros H; by apply H).
    destruct passive; [done|]. destruct (0 <? e) eqn:E0; [|left; lia]. right. by destruct (rv_btree_resident v).
Qed.

Lemma gc_row_ok h w k lwm mark : store_ok h w -> (lwm = U64_MAX \/ lwm <= floor h) ->
  does (gc_row k lwm mark) (fun _ w' => tx_ids w' = tx_ids w /\ exists f, floor h <= f /\ store_ok (mkHist (hx h) f) w') w.
Proof.
  intros Hs Hl. pose proof (so_times _ _ _ Hs) as Ht. assert (store_ok (mkHist (hx h) (floor h)) w) as Hs0 by (by destruct h).
  unfold gc_row. apply wpg_bind, wpg_gets. change (id w) with w. destruct (rows w !! k) as [vs|] eqn:Hk; [|apply wpg_ret; split; [done|by exists (floor h)]].
  assert (chain w k = vs) as Hc by (unfold chain; by rewrite Hk).
  unfold gc_chain_now. apply wpg_bind, wpg_bind, wpg_gets, wpg_ret. change (id w) with w. rewrite (so_ckpt _ _ _ Hs).
  set (mk := if lwm =? U64_MAX then compute_lwm w else lwm). set (f := Z.max (floor h) (Z.min mk (clock w - 1))).
  assert (floor h <= f < clock w) as Hf by (pose proof (ti_floor _ _ Ht); lia).
  assert (forall T, begun (hx h T) -> g_fate (hx h T) = Undecided -> f <= g_begin (hx h T)) as Hop.
  { intros T Hb Hu. pose proof (ti_open _ _ Ht T Hb Hu). pose proof (lwm_open h w T Hs Hb Hu). unfold f, mk. destruct (lwm =? U64_MAX) eqn:E; lia. }
  destruct (gc_chain_sublist vs mk (passive_checkpoint w) mark true) as (vs' & -> & Hsub & Hdrop).
  { apply list.Forall_forall. intros v Hv. apply (ro_mat _ _ _ _ (so_refs _ _ _ Hs k v ltac:(by rewrite Hc))). }
  assert (forall r, (forall k', k' <> k -> r !! k' = rows w !! k') -> default [] (r !! k) = vs' -> store_ok (mkHist (hx h) f) (with_rows (fun _ => r) w)) as Hgo.
  { intros r Hr Hrk. assert (chain (with_rows (fun _ => r) w) k = vs') as Hc' by done.
    apply (drop_store Hs f k r Hf Hop); rewrite ?Hc, ?Hc'; [|done|].
    - intros k' Hne. unfold chain. simpl. by rewrite Hr.
    - intros v Hv. destruct (Hdrop v Hv) as [?|[?|(e & He & Hle & Hres)]]; [by left|right; by left|right; right].
      exists e. split; [done|]. destruct (ro_ts _ _ _ _ (so_refs _ _ _ Hs k v ltac:(by rewrite Hc)) e (or_intror He)) as (X & HX & _).
      destruct (ti_end _ _ Ht X e HX) as [HbX ?]. unfold begun in HbX. split; [lia|]. destruct Hres; [lia|done]. }
  destruct (negb (passive_checkpoint w) && bool_decide (vs' = [])) eqn:E; apply wpg_modifies; (split; [done|]); exists f; (split; [lia|]).
  - apply andb_true_iff in E as [_ ->%bool_decide_eq_true]. apply (Hgo (delete k (rows w))); [intros; by rewrite lookup_delete_ne|by rewrite lookup_delete_eq].
  - apply (Hgo (<[k := vs']> (rows w))); [intros; by rewrite lookup_insert_ne|by rewrite lookup_insert_eq].
Qed.
End Collect.
