(* ===== verification/MvccRun.v ===== *)
(** * Rules for the programs of connections

    A thread that owns a transaction moves the history of this transaction and leaves that of the
    others alone; so the threads can be proved one at a time against [world_ok]. *)
From stdpp Require Import gmap functions relations.
From S2P Require Import Prelude Errors Effects Mvcc Threads MvccSession MvccGhost MvccEvolve MvccScan MvccFinish.

Section Run.
Context (base : RowID -> option Row) {halting : Halts world}.
#[local] Abbreviation store_ok := (store_ok base).
#[local] Abbreviation world_ok := (world_ok base).
#[local] Abbreviation upholds := (upholds world_ok (fun _ _ => True)).

(** ** Steps of the world *)
Lemma world_step h gs s i h' o' s' : world_ok h gs s -> store_ok h' (mv s') ->
  (forall j T g, j <> i -> gs !! j = Some (Owns T g) -> hx h' T = hx h T) -> floor h <= floor h' -> tx_ids (mv s) <= tx_ids (mv s') ->
  owned_ok h' (mv s') o' -> (forall T g, o' = Owns T g -> forall j g', j <> i -> gs !! j <> Some (Owns T g')) ->
  (forall T, begun (hx h' T) -> g_gone (hx h' T) = false -> (exists j g, j <> i /\ gs !! j = Some (Owns T g)) \/ exists g, o' = Owns T g) ->
  is_Some (gs !! i) -> journal_ok h' (journal s') -> world_ok h' (<[i := o']> gs) s'.
Proof.
  intros (Hs & Hj & Ho & Hnn & Hu & _) Hs' Hsame Hfl Hids Ho' Hu' Hcov Hi Hj'. split_and!; [done|done|..|lia| |].
  - apply Forall_lookup. intros j o Hj1. apply list_lookup_insert_Some in Hj1 as [(<- & <- & _)|[Hne Hj1]]; [done|].
    pose proof (proj1 (Forall_lookup _ _) Ho j o Hj1) as Hok. destruct o as [|T g|lwm]; [done|..|].
    + destruct Hok as (Hg & ? & ?). split; [by rewrite (Hsame j T g)|]. lia.
    + destruct Hok; [by left|right; lia].
  - intros j j' T g g' H1 H2. apply list_lookup_insert_Some in H1 as [(<- & -> & _)|[Hne H1]];
      apply list_lookup_insert_Some in H2 as [(<- & Heq & _)|[Hne' H2]]; [done|..|by eapply Hu].
    + by destruct (Hu' T g eq_refl j' g').
    + by destruct (Hu' T g' Heq j g).
  - intros T Hb Hg. destruct (Hcov T Hb Hg) as [(j & g & Hne & Hj1)|[g ->]].
    + exists j, g. by rewrite list_lookup_insert_ne.
    + exists i, g. apply list_lookup_insert_eq. by apply lookup_lt_is_Some.
Qed.

(** What a change of an owned history does to the journal. *)
Definition same_log (g g' : gtx) : Prop :=
  (g_fate g' = Kept <-> g_fate g = Kept) /\
  (g_fate g = Kept -> g_begin g' = g_begin g /\ g_end g' = g_end g /\ g_ops g' = g_ops g).
Definition logged (T : Z) (g g' : gtx) (new : list committed_tx) : Prop :=
  new = [] /\ same_log g g' \/
  g_fate g <> Kept /\ g_fate g' = Kept /\ exists e, g_end g' = Some e /\ new = [mkCommittedTx T (g_begin g') e (g_ops g')].

Lemma journal_step h h' T log new : journal_ok h log -> (forall W, W <> T -> hx h' W = hx h W) ->
  logged T (hx h T) (hx h' T) new -> journal_ok h' (log ++ new).
Proof.
  intros [Hk Hs Ho] Hne [[-> [Hf Hkp]]|(Hf & Hf' & e & He & ->)].
  - rewrite app_nil_r. split; [..|done].
    + intros W. destruct (decide (W = T)) as [->|]; [by rewrite Hf|by rewrite Hne].
    + intros c Hc. destruct (decide (ct_id c = T)) as [Hid|]; [|rewrite Hne by done; by apply Hs]. rewrite Hid. destruct (Hs c Hc) as (H1 & H2 & H3).
      rewrite Hid in *. destruct Hkp as (-> & -> & ->); [|done]. apply Hk. eauto.
  - assert (forall c, c ∈ log -> ct_id c <> T) as Hnew by (intros c Hc Hid; apply Hf, Hk; eauto).
    split; setoid_rewrite elem_of_app; setoid_rewrite list_elem_of_singleton.
    + intros W. destruct (decide (W = T)) as [->|HWT].
      * split; [intros _|done]. exists (mkCommittedTx T (g_begin (hx h' T)) e (g_ops (hx h' T))). auto.
      * rewrite Hne, Hk by done. split; intros (c & Hc & Hid); exists c; [by auto|]. destruct Hc as [?| ->]; [done|]. simpl in Hid. congruence.
    + intros c [Hc| ->]; [|done]. rewrite Hne by auto. by apply Hs.
    + intros c c' [Hc| ->] [Hc'| ->] Hid; [by apply Ho|..|done]; simpl in Hid.
      * by destruct (Hnew c Hc).
      * symmetry in Hid. by destruct (Hnew c' Hc').
Qed.

(** ** Owners *)

(** What an action of the owner of [T], whose history was [g], leaves. *)
Definition moves (T : Z) (g : gtx) (new : list committed_tx) (n : Z) (h : hist) (Q : gtx -> Prop) (w' : MvStore) : Prop :=
  tx_ids w' = n /\ exists h', store_ok h' w' /\ (forall W, W <> T -> hx h' W = hx h W) /\ floor h' = floor h /\
    logged T g (hx h' T) new /\ Q (hx h' T).

Lemma same_log_refl g : same_log g g.
Proof. done. Qed.

Lemma moves_upd T g new n h (Q : gtx -> Prop) w' g' : tx_ids w' = n -> store_ok (upd h T g') w' -> logged T g g' new -> Q g' ->
  moves T g new n h Q w'.
Proof.
  intros Hn Hs Hl HQ. split; [done|]. exists (upd h T g'). rewrite hx_upd. repeat (split; [done|]). split; [|done].
  intros W HW. by rewrite hx_upd_ne.
Qed.

Lemma moves_stay T g n h (Q : gtx -> Prop) w' : hx h T = g -> tx_ids w' = n -> store_ok h w' -> Q g -> moves T g [] n h Q w'.
Proof. intros Hg Hn Hs HQ. split; [done|]. exists h. rewrite Hg. repeat (split; [done|]). split; [by left|done]. Qed.

(** A program of the owner. *)
Definition run {A} (i : nat) (T : Z) (g : gtx) (p : prog world A) (Q : A -> gtx -> Prop) : Prop :=
  upholds i (Owns T g) p (fun a o => exists g', o = Owns T g' /\ Q a g').

Lemma run_bind {A B} i T g (m : prog world A) (k : A -> prog world B) (Q : B -> gtx -> Prop) :
  run i T g m (fun a g' => run i T g' (k a) Q) -> run i T g (m ≫= k) Q.
Proof. intros H. apply upholds_bind. eapply upholds_mono; [exact H|]. by intros a o (g' & -> & Hk). Qed.

Lemma run_ret {A} i T g (a : A) (Q : A -> gtx -> Prop) : Q a g -> run i T g (mret a) Q.
Proof. intros HQ. exists g. done. Qed.

Lemma run_mono {A} i T g (m : prog world A) (P Q : A -> gtx -> Prop) :
  run i T g m P -> (forall a g', P a g' -> Q a g') -> run i T g m Q.
Proof. intros H HPQ. eapply upholds_mono; [exact H|]. intros a o (g' & -> & HP). eauto. Qed.

Lemma run_then {A B} i T g (m : prog world (poll A)) (k : A -> prog world (poll B)) (Q : poll B -> gtx -> Prop) :
  run i T g m (fun r g' => match r with
                           | Ready x => run i T g' (k x) Q
                           | Waits => Q Waits g'
                           | Fails e => Q (Fails e) g'
                           | Crashes => Q Crashes g'
                           end) -> run i T g (then_ m k) Q.
Proof. intros H. apply run_bind. eapply run_mono; [exact H|]. intros [x| |e|] g' Hr; [done|by apply run_ret..]. Qed.

(** What the owner knows of the state. *)
Definition owns (T : Z) (g : gtx) (h : hist) (w : MvStore) : Prop :=
  store_ok h w /\ hx h T = g /\ 0 <= T < tx_ids w /\ T <= VALUE_MASK.

Lemma owns_ghost T g h w : owns T g h w -> ghost_ok g.
Proof. intros (Hs & <- & _). apply (so_ghost _ _ _ Hs). Qed.

Lemma world_owns h gs s i T g : world_ok h gs s -> gs !! i = Some (Owns T g) -> owns T g h (mv s).
Proof. intros (Hs & _ & Ho & _) Hi. destruct (proj1 (Forall_lookup _ _) Ho i _ Hi) as (? & ? & ?). done. Qed.

Lemma world_moves h gs s i T g w' new (Q : gtx -> Prop) : world_ok h gs s -> gs !! i = Some (Owns T g) ->
  moves T g new (tx_ids (mv s)) h Q w' ->
  exists h' g', world_ok h' (<[i := Owns T g']> gs) (mkWorld w' (journal s ++ new)) /\ Q g'.
Proof.
  intros HI Hi (Hn & h' & Hs' & Hne & Hfl & Hl & HQ). destruct (world_owns h gs s i T g HI Hi) as (_ & Hg & Hid & Hm).
  exists h', (hx h' T). split; [|done]. destruct HI as (Hs & Hj & Ho & Hnn & Hu & Hcov). rewrite <- Hg in Hl.
  apply (world_step h gs s); try done; simpl; try (rewrite ?Hfl; lia).
  - intros j W g' Hji Hj'. apply Hne. intros ->. by destruct Hji, (Hu j i T g' g).
  - split; [done|]. lia.
  - intros W g' [= <- _] j g'' Hji Hj'. by destruct Hji, (Hu j i T g'' g).
  - intros W HbW HgW. destruct (decide (W = T)) as [->|HWT]; [eauto|left]. rewrite Hne in HbW, HgW by done.
    destruct (Hcov W HbW HgW) as (j & g' & Hj'). exists j, g'. split; [|done]. intros ->. congruence.
  - by eapply journal_step.
Qed.

(** Actions; one may fail an assertion where that is to be reckoned with. *)
Lemma run_act_as {A} i T g ops (m : MvM A) (Q : poll A -> gtx -> Prop) :
  (forall h w, owns T g h w -> wpp m (fun r w' => moves T g (committed_now T ops w w') (tx_ids w) h (Q r) w') w) ->
  run i T g (act_as T ops m) Q.
Proof.
  intros Hm b h gs s Hi HI. specialize (Hm h (mv s) (world_owns _ _ _ _ _ _ HI Hi)). unfold wpp in Hm. left.
  destruct (m (mv s)) as [r w'] eqn:Em. destruct r as [x| |e|]; try done;
    destruct (world_moves h gs s i T g w' _ _ HI Hi Hm) as (h' & g' & HI' & HQ); do 4 eexists; split_and!;
      [done|by apply rtc_once|exact HI'|by exists g'|done|by apply rtc_once|exact HI'|by exists g'|done|by apply rtc_once|exact HI'|by exists g'].
Qed.

Lemma run_act_halts {A} i T g (m : MvM A) (Q : poll A -> gtx -> Prop) :
  (forall h s, owns T g h (mv s) -> wpp m (fun r w' => moves T g [] (tx_ids (mv s)) h (Q r) w') (mv s) \/
    halts s /\ (m (mv s)).1 = Crashes) -> run i T g (act m) Q.
Proof.
  intros Hm b h gs s Hi HI. destruct (Hm h s (world_owns _ _ _ _ _ _ HI Hi)) as [Hw|[Hh Hc]].
  - unfold wpp in Hw. left. destruct (m (mv s)) as [r w'] eqn:Em. destruct r as [x| |e|]; try done;
      destruct (world_moves h gs s i T g w' _ _ HI Hi Hw) as (h' & g' & HI' & HQ); rewrite app_nil_r in HI'; do 4 eexists; split_and!;
        [done|by apply rtc_once|exact HI'|by exists g'|done|by apply rtc_once|exact HI'|by exists g'|done|by apply rtc_once|exact HI'|by exists g'].
  - right. split; [done|]. destruct (m (mv s)) as [r w']. simpl in Hc. by rewrite Hc.
Qed.

Lemma run_act {A} i T g (m : MvM A) (Q : poll A -> gtx -> Prop) :
  (forall h w, owns T g h w -> wpp m (fun r w' => moves T g [] (tx_ids w) h (Q r) w') w) -> run i T g (act m) Q.
Proof. intros Hm. apply run_act_halts. intros h s Ho. left. by apply Hm. Qed.

Lemma run_does {A} i T g (m : MvM A) (Q : poll A -> gtx -> Prop) :
  (forall h w, owns T g h w -> does m (fun x w' => moves T g [] (tx_ids w) h (Q (Ready x)) w') w) -> run i T g (act m) Q.
Proof. intros Hm. apply run_act. intros h w Ho. by apply wpp_does, Hm. Qed.

(** The first action of a sequence that returns. *)
Lemma run_next {A B} i T g (m : MvM A) (k : A -> prog world (poll B)) (Q : poll B -> gtx -> Prop) :
  (forall h w, owns T g h w -> does m (fun x w' => moves T g [] (tx_ids w) h (fun g' => run i T g' (k x) Q) w') w) ->
  run i T g (then_ (act m) k) Q.
Proof. intros Hm. apply run_then, run_does. exact Hm. Qed.

(** A change of the history after the program. *)
Lemma run_end {A} i T g (m : prog world A) (Q : A -> gtx -> Prop) : (forall a, m <> mret a) ->
  run i T g m (fun a g' => forall h w, owns T g' h w -> moves T g' [] (tx_ids w) h (Q a) w) -> run i T g m Q.
Proof.
  intros Hne Hm. apply upholds_end; [done|]. eapply upholds_mono; [exact Hm|]. intros a o (g' & -> & Hg) h gs s Hi HI.
  destruct (world_moves h gs s i T g' (mv s) [] (Q a) HI Hi) as (h' & g'' & HI' & HQ); [by apply Hg, (world_owns h gs s i)|].
  exists h', (Owns T g''). split_and!; [by apply rtc_once| |eauto]. rewrite app_nil_r in HI'. by destruct s.
Qed.

Lemma run_yields i T g (Q : poll () -> gtx -> Prop) : Q (Ready ()) g -> Q (Fails Interrupt) g -> run i T g yields Q.
Proof.
  intros H1 H2 b h gs s Hi HI. left. do 4 eexists. split_and!; [done|by apply rtc_once|by rewrite list_insert_id|].
  exists g. split; [done|]. by destruct b.
Qed.
End Run.
