(* ===== verification/MvccPrograms.v ===== *)
(** * Statements

    The programs of [Get], [Put] and [Del]: what their lookups show holds for every set of
    transactions that may commit with this one, so the operation recorded at the end does. *)
From stdpp Require Import gmap functions relations.
From S2P Require Import Prelude Errors Effects Mvcc Threads MvccSession MvccGhost MvccEvolve MvccScan MvccRead MvccWrite MvccStatements MvccFinish MvccRun.

Section Programs.
Context (is_btree_readable_at : Z -> Z -> WalPos -> bool) (btree : Z -> option (Z -> option Row)) {halting : Halts world}.
#[local] Abbreviation base := (base_row btree).
#[local] Abbreviation store_ok := (store_ok base).
#[local] Abbreviation owns := (owns base).
#[local] Abbreviation moves := (moves base).
#[local] Abbreviation run := (run base).
#[local] Abbreviation know_ok := (know_ok base).

(** In a transaction, between its statements when [g_pending] is empty. *)
Definition active (g : gtx) (ops : list op) : Prop :=
  begun g /\ g_gone g = false /\ g_fate g = Undecided /\ g_end g = None /\ g_ops g = ops.

Lemma active_reader T g ops h w : active g ops -> owns T g h w -> reader w T.
Proof.
  intros (Hb & Hg & Hf & He & _) (Hs & <- & _). destruct (owner_here base h w T Hs Hb Hg) as (t & Ht & Hen). exists t. split; [done|].
  pose proof (en_state _ _ _ Hen) as Hst. destruct (tx_state t); simpl in Hst; [done|destruct_and?; congruence..].
Qed.

Lemma open_log g g' : g_fate g = Undecided -> g_fate g' = Undecided -> same_log g g'.
Proof. intros H1 H2. split; [by rewrite H1, H2|congruence]. Qed.

Lemma active_moves T g ops g' n h (Q : gtx -> Prop) w' : active g ops -> g_fate g' = Undecided -> tx_ids w' = n ->
  store_ok (upd h T g') w' -> Q g' -> moves T g [] n h Q w'.
Proof. intros (_ & _ & Hf & _) Hf' Hn Hs HQ. apply (moves_upd _ _ _ _ _ _ _ _ g'); try done. left. split; [done|]. by apply open_log. Qed.

(** ** Lookups *)
Definition more (K : list know) (ops : list op) (g g' : gtx) : Prop :=
  active g' ops /\ g_pending g' = g_pending g /\ (forall f, f ∈ K \/ f ∈ g_know g -> f ∈ g_know g').

Lemma more_learn f ops g : active g ops -> more [f] ops g (g_learn f g).
Proof. intros Hg. split; [done|]. split; [done|]. simpl. set_solver. Qed.

Lemma run_learn {A} i T g ops (m : MvM A) (fact : A -> know) (Q : poll A -> gtx -> Prop) : active g ops ->
  (forall h w, store_ok h w -> reader w T -> does m (fun x w' => store_ok h w' /\ scanned h w w' /\
    forall S, consistent h w' S -> T ∈ S -> reader w' T -> know_ok h S T (fact x)) w) ->
  (forall x g', more [fact x] ops g g' -> Q (Ready x) g') -> run i T g (act m) Q.
Proof.
  intros Ha Hm HQ. apply run_does. intros h w Ho. pose proof (active_reader T g ops h w Ha Ho) as Hr. destruct Ho as (Hs & Hg & _).
  eapply wpg_mono; [by apply Hm|]. intros x w' (Hs' & Hsc & Hk). pose proof (reader_scanned h w w' T Hsc Hr) as Hr'.
  apply (active_moves T g ops (g_learn (fact x) g)); try done; [apply Ha|by apply (scanned_ids h)| |by apply HQ, more_learn].
  subst g. apply learns_know; auto.
Qed.

Lemma run_find i T g ops key (Q : poll (option Row) -> gtx -> Prop) : active g ops ->
  (forall o g', more [KRow key o] ops g g' -> Q (Ready o) g') ->
  run i T g (act (find_last_visible_version is_btree_readable_at T key)) Q.
Proof.
  intros Ha. apply (run_learn i T g ops _ (KRow key)); [done|]. intros h w Hs Hr. eapply wpg_mono; [by apply (find_last_ok base)|].
  intros o w' (Hs' & Hsc & Hk). do 2 (split; [done|]). intros S HS HT Hr'. apply (row_known base Hs' T); try done.
  rewrite (scanned_chain h w w') by done. by apply Hk; [apply HS|].
Qed.

Lemma run_read i T g ops key (Q : poll (option Row) -> gtx -> Prop) : active g ops ->
  (forall o g', more [KRow key o] ops g g' -> Q (Ready o) g') ->
  run i T g (act (read_from_table is_btree_readable_at T key)) Q.
Proof.
  intros Ha. apply (run_learn i T g ops _ (KRow key)); [done|]. intros h w Hs Hr. eapply wpg_mono; [by apply (read_ok base)|].
  intros o w' (Hs' & Hsc & Hk). do 2 (split; [done|]). intros S HS HT Hr'. apply (row_known base Hs' T); try done.
  rewrite (scanned_chain h w w') by done. by apply Hk; [apply HS|].
Qed.

Lemma run_valid i T g ops key (Q : poll bool -> gtx -> Prop) : active g ops ->
  (forall b g', more [KValid key b] ops g g' -> Q (Ready b) g') ->
  run i T g (act (query_btree_version_is_valid is_btree_readable_at key T)) Q.
Proof.
  intros Ha. apply (run_learn i T g ops _ (KValid key)); [done|]. intros h w Hs Hr. eapply wpg_mono; [by apply (valid_ok base)|].
  intros b w' (Hs' & Hsc & Hk). do 2 (split; [done|]). intros S HS HT Hr'. apply (valid_known base Hs' T); try done.
  rewrite (scanned_chain h w w') by done. by apply Hk; [apply HS|].
Qed.

(** What [exists] has shown. *)
Definition exists_shows (key : RowID) (at_ : option bool) (g : gtx) : Prop :=
  match at_ with
  | Some false => exists row, KRow key (Some row) ∈ g_know g
  | Some true => KRow key None ∈ g_know g /\ KValid key true ∈ g_know g /\ base key <> None
  | None => KRow key None ∈ g_know g /\ (base key = None \/ KValid key false ∈ g_know g)
  end.

Lemma run_exists i T g ops key (Q : poll (option bool) -> gtx -> Prop) : active g ops ->
  (forall at_ g', more [] ops g g' -> exists_shows key at_ g' -> Q (Ready at_) g') ->
  run i T g (exists_ is_btree_readable_at btree T key) Q.
Proof.
  intros Ha HQ. unfold exists_. apply run_then, (run_find i T g ops); [done|]. intros o g1 (Ha1 & Hp1 & Hk1). simpl. destruct o as [row|].
  { apply run_ret, HQ; [split; set_solver|exists row; set_solver]. }
  assert (more [] ops g g1) as Hm1 by (split; set_solver). assert (KRow key None ∈ g_know g1) as Hn by set_solver.
  destruct (btree (table_id key)) as [rows|] eqn:Ebt.
  2: { apply run_ret, HQ; [done|]. split; [done|]. left. unfold base_row. by rewrite Ebt. }
  apply run_then, (run_valid i T g1 ops); [done|]. intros b g2 (Ha2 & Hp2 & Hk2). simpl.
  assert (more [] ops g g2) as Hm2 by (split; [done|]; split; [congruence|set_solver]). destruct b; simpl.
  2: { apply run_ret, HQ; [done|]. split; [set_solver|]. right. set_solver. }
  destruct (rows (row_id key)) as [row|] eqn:Erow.
  2: { apply run_ret, HQ; [done|]. split; [set_solver|]. left. unfold base_row. by rewrite Ebt. }
  apply run_then, (run_valid i T g2 ops); [done|]. intros b g3 (Ha3 & Hp3 & Hk3). simpl. apply run_ret, HQ.
  { split; [done|]. split; [congruence|set_solver]. }
  destruct b; simpl; (split; [set_solver|]); [split; [set_solver|]|right; set_solver]. unfold base_row. rewrite Ebt. simpl. by rewrite Erow.
Qed.

(** ** What was shown *)
Section Shown.
Context {T : Z} {g : gtx} {h : hist} {w : MvStore} (Ho : owns T g h w) (S : gset Z) (HS : consistent h w S) (HTS : T ∈ S).

Lemma shown f : f ∈ g_know g -> know_ok h S T f.
Proof.
  intros Hf. destruct Ho as (Hs & Hg & _). pose proof (tf_know _ _ _ _ (so_t _ _ _ Hs S T HS HTS)) as Hk. rewrite Hg in Hk.
  by apply (proj1 (list.Forall_forall _ _) Hk).
Qed.

(** A row can not be found and be missing. *)
Lemma shown_both key row : KRow key (Some row) ∈ g_know g -> know_ok h S T (KRow key None) -> False.
Proof.
  intros H1%shown H2. simpl in *. destruct (g_writes (hx h T) !! key) as [v|]; [congruence|].
  destruct H1 as (W & Hl & Hw). specialize (H2 W Hl). congruence.
Qed.

Lemma shown_first key : base key = None \/ KValid key false ∈ g_know g -> base key <> None -> wrote h T key \/ exists W, before h S T key W.
Proof. intros [?|Hv] Hb; [done|]. pose proof (shown _ Hv Hb) as H. by apply H. Qed.

Lemma shown_missing key : KRow key None ∈ g_know g -> base key = None \/ KValid key false ∈ g_know g ->
  match g_writes (hx h T) !! key with Some v => None = v | None => snap_is base h S T key None end.
Proof.
  intros Hn Hv. pose proof (shown _ Hn) as Hk. simpl in Hk. destruct (g_writes (hx h T) !! key) as [v|] eqn:Ew; [done|].
  destruct (decide (base key = None)) as [Hb|Hb].
  - destruct (decide (exists W, before h S T key W)) as [[W HW]|Hno].
    + left. destruct (exists_last h w S T key W) as (W' & HW'); [apply Ho|done|done|]. eauto.
    + right. split; [|done]. intros W HW. apply Hno. eauto.
  - destruct (shown_first key Hv Hb) as [[v Hw]|[W HW]]; [congruence|]. left.
    destruct (exists_last h w S T key W) as (W' & HW'); [apply Ho|done|done|]. eauto.
Qed.

Lemma shown_base key : KValid key true ∈ g_know g -> base key <> None ->
  match g_writes (hx h T) !! key with Some v => base key = v | None => snap_is base h S T key (base key) end.
Proof.
  intros Hv Hb. pose proof (shown _ Hv Hb) as H. assert (~ (wrote h T key \/ exists W, before h S T key W)) as Hn by (intros Hw; by apply H in Hw).
  destruct (g_writes (hx h T) !! key) as [v|] eqn:Ew; [destruct Hn; left; by exists v|]. right. split; [|done]. intros W HW. apply Hn. eauto.
Qed.

Lemma shown_row key o : KRow key o ∈ g_know g -> (o = None -> exists row, KRow key (Some row) ∈ g_know g) ->
  match g_writes (hx h T) !! key with Some v => o = v | None => snap_is base h S T key o end.
Proof.
  intros Hk Hn. destruct o as [row|].
  - pose proof (shown _ Hk) as H. simpl in H. destruct (g_writes (hx h T) !! key); [done|]. by left.
  - destruct (Hn eq_refl) as [row Hr]. by destruct (shown_both key row Hr (shown _ Hk)).
Qed.
End Shown.

(** ** Writes *)
Lemma run_delete i T g ops key record (Q : poll bool -> gtx -> Prop) : active g ops ->
  Q (Ready true) (g_write key None g) -> (record = None -> Q (Ready false) (g_learn (KRow key None) g)) -> (forall e, Q (Fails e) g) ->
  run i T g (act (delete_from_table T key record)) Q.
Proof.
  intros Ha Ht Hn Hf. apply run_act. intros h w Ho. pose proof (active_reader T g ops h w Ha Ho) as Hr. destruct Ho as (Hs & Hg & _).
  eapply wpp_mono; [by apply (delete_ok base)|]. intros r w' (Hids & Hr'). destruct r as [[]| |e|]; try done.
  - apply (active_moves T g ops (g_write key None g)); try done; [apply Ha|by subst g].
  - destruct Hr' as (Hs' & Hrd & -> & Hk). apply (active_moves T g ops (g_learn (KRow key None) g)); try done; [apply Ha| |by apply Hn].
    subst g. by apply learns_know.
  - by apply moves_stay.
Qed.

(** What an insert relies on. *)
Definition may_insert (T : Z) (key : RowID) (resident : bool) (g : gtx) : Prop := forall h w S, owns T g h w -> consistent h w S -> T ∈ S ->
  know_ok h S T (KRow key None) /\
  (resident = true \/ (base key <> None -> wrote h T key \/ exists W, before h S T key W)).

Lemma run_insert i T g ops resident row (Q : poll () -> gtx -> Prop) : active g ops -> may_insert T (r_id row) resident g ->
  Q (Ready ()) (g_write (r_id row) (Some row) g) -> run i T g (act (insert_row resident T row)) Q.
Proof.
  intros Ha Hm HQ. apply run_does. intros h w Ho. pose proof (active_reader T g ops h w Ha Ho) as Hr. specialize (fun S => Hm h w S Ho).
  destruct Ho as (Hs & Hg & _). eapply wpg_mono; [apply (insert_row_ok base h w T row resident Hs Hr); intros S HS HT; by apply Hm|].
  intros [] w' [Hs' Hids]. apply (active_moves T g ops (g_write (r_id row) (Some row) g)); try done; [apply Ha|by subst g].
Qed.

(** ** The end of a statement *)
Definition can_do (T : Z) (g : gtx) (o : op) : Prop := forall h w S, owns T g h w -> consistent h w S -> T ∈ S ->
  g_writes g = g_pending g ∪ own_writes (g_ops g) ->
  apply_op (own_writes (g_ops g)) o = g_writes g /\
  match o with
  | Read k v => match own_writes (g_ops g) !! k with Some v' => v = v' | None => snap_is base h S T k v end
  | Write _ _ => True
  end.

Lemma can_read T g k v : g_pending g = ∅ -> (forall h w S, owns T g h w -> consistent h w S -> T ∈ S ->
  match g_writes (hx h T) !! k with Some v' => v = v' | None => snap_is base h S T k v end) -> can_do T g (Read k v).
Proof.
  intros Hp Hr h w S Ho HS HT Hw. rewrite Hp, (left_id_L ∅ (∪)) in Hw. split; [done|]. rewrite <- Hw.
  pose proof (Hr h w S Ho HS HT) as H. destruct Ho as (_ & Hg & _). by rewrite Hg in H.
Qed.

Lemma can_write T g k v : g_pending g = <[k := v]> ∅ \/ (exists v', g_pending g = <[k := v]> (<[k := v']> ∅)) -> can_do T g (Write k v).
Proof.
  intros Hp h w S Ho HS HT Hw. split; [|done]. simpl. assert (g_pending g = <[k := v]> ∅) as Hp'.
  { destruct Hp as [?|[v' ->]]; [done|]. by rewrite insert_insert_eq. }
  rewrite Hw, Hp', <- insert_union_l. by rewrite (left_id_L ∅ (∪)).
Qed.

(** A transaction that can not commit. *)
Lemma can_never T g o : (forall h w S, owns T g h w -> consistent h w S -> T ∈ S -> False) -> can_do T g o.
Proof. intros H h w S Ho HS HT. by destruct (H h w S Ho HS HT). Qed.

Definition statement_post {A} (T : Z) (ops : list op) (k : A -> conn) (r : poll A) (g : gtx) : Prop :=
  match r with
  | Ready x => active g ops /\ (k x = InsertPanicked \/ exists o, k x = InTx T (ops ++ [o]) /\ can_do T g o)
  | Crashes => False
  | _ => active g ops /\ g_pending g = ∅
  end.

Definition resting (c : conn) (g : gtx) (T : Z) : Prop :=
  match c with
  | InTx id ops => id = T /\ active g ops /\ g_pending g = ∅
  | InsertPanicked => g_end g = None
  | _ => False
  end.

Lemma run_statement {A} i T g ops (m : prog world (poll A)) (k : A -> conn) : (forall r, m <> mret r) ->
  run i T g m (statement_post T ops k) -> run i T g (in_tx T ops m k) (fun c g' => resting c g' T).
Proof.
  intros Hne Hm. apply run_end. { intros c. by destruct m as [r|]; [destruct (Hne r)|]. }
  apply run_bind. eapply run_mono; [exact Hm|]. intros r g' Hp. apply run_ret. intros h w Ho.
  assert (active g' ops /\ g_pending g' = ∅ -> moves T g' [] (tx_ids w) h (fun g'' => resting (InTx T ops) g'' T) w) as Hstay.
  { intros [? ?]. apply moves_stay; [apply Ho|done|apply Ho|done]. }
  destruct r as [x| |e|]; [|by apply Hstay..|done]. destruct Hp as (Ha & [-> | (o & -> & Hdo)]).
  - apply moves_stay; [apply Ho|done|apply Ho|apply Ha].
  - pose proof (active_reader T g' ops h w Ha Ho) as Hr.
    apply (active_moves T g' ops (g_did o g')); [done|apply Ha|done|..].
    + pose proof Ho as (Hs & Hg & _). subst g'. apply did_store; [done|done|]. intros S HS HT. by apply (Hdo h w S).
    + split; [done|]. split; [|done]. destruct Ha as (? & ? & ? & ? & Hops). repeat (split; [done|]). simpl. by rewrite Hops.
Qed.

(** ** Requests *)
Lemma more_pending ops K g g' : g_pending g = ∅ -> more K ops g g' -> g_pending g' = ∅.
Proof. intros Hp (_ & ? & _). congruence. Qed.

Lemma get_ok i T g ops key : active g ops -> g_pending g = ∅ ->
  run i T g (get_row is_btree_readable_at btree T key) (statement_post T ops (fun value => InTx T (ops ++ [Read key value]))).
Proof.
  intros Ha Hp. apply run_then, (run_exists i T g ops); [done|]. intros at_ g1 Hm Hx. pose proof (more_pending _ _ _ _ Hp Hm) as Hp1.
  destruct Hm as (Ha1 & _ & _). simpl. destruct at_ as [[]|]; simpl in Hx.
  - destruct Hx as (_ & Hv & Hb). apply run_ret. split; [done|]. right. eexists. split; [done|]. apply can_read; [done|]. intros h w S Ho HS HT.
    by apply (shown_base Ho S HS HT).
  - destruct Hx as [row Hrow]. apply (run_read i T g1 ops); [done|]. intros o g2 (Ha2 & Hp2 & Hk2). split; [done|]. right. eexists. split; [done|].
    apply can_read; [congruence|]. intros h w S Ho HS HT. apply (shown_row Ho S HS HT); [set_solver|]. intros _. exists row. set_solver.
  - destruct Hx as (Hn & Hv). apply run_ret. split; [done|]. right. eexists. split; [done|]. apply can_read; [done|]. intros h w S Ho HS HT.
    by apply (shown_missing Ho S HS HT).
Qed.

Lemma del_ok i T g ops key : active g ops -> g_pending g = ∅ ->
  run i T g (delete_row is_btree_readable_at btree T key)
    (statement_post T ops (fun found : bool => InTx T (ops ++ [if found then Write key None else Read key None]))).
Proof.
  intros Ha Hp. apply run_then, (run_exists i T g ops); [done|]. intros at_ g1 Hm Hx. pose proof (more_pending _ _ _ _ Hp Hm) as Hp1.
  destruct Hm as (Ha1 & _ & _). simpl. assert (forall o, g_pending (g_write key o g1) = <[key := o]> ∅) as Hpw by (intros o; simpl; by rewrite Hp1).
  destruct at_ as [[]|]; simpl in Hx.
  - destruct Hx as (_ & _ & Hb). apply run_then. unfold cursor_delete. destruct (base key) as [record|] eqn:Eb; [|done].
    apply (run_delete i T g1 ops); try done. apply run_ret. split; [done|]. right. eexists. split; [done|]. apply can_write. by left.
  - destruct Hx as [row Hrow]. apply run_then, (run_delete i T g1 ops); try done.
    + apply run_ret. split; [done|]. right. eexists. split; [done|]. apply can_write. by left.
    + intros _. apply run_ret. split; [done|]. right. eexists. split; [done|]. apply can_never. intros h w S Ho HS HT.
      apply (shown_both Ho S HS HT key row); [simpl; set_solver|]. apply (shown Ho S HS HT). simpl. set_solver.
  - destruct Hx as (Hn & Hv). apply run_ret. split; [done|]. right. eexists. split; [done|]. apply can_read; [done|]. intros h w S Ho HS HT.
    by apply (shown_missing Ho S HS HT).
Qed.

Lemma update_ok i T g ops row : active g ops -> g_pending g = ∅ ->
  run i T g (update_to_table T row)
    (statement_post T ops (fun updated : bool => if updated then InTx T (ops ++ [Write (r_id row) (Some row)]) else InsertPanicked)).
Proof.
  intros Ha Hp. apply run_then, (run_delete i T g ops); try done; simpl.
  - apply run_then, (run_insert i T (g_write (r_id row) None g) ops); [done| |].
    + intros h w S (_ & Hg & _) _ _. assert (g_writes (hx h T) !! r_id row = Some None) as Hw by (rewrite Hg; simpl; by rewrite lookup_insert_eq).
      split; [simpl; by rewrite Hw|]. right. intros _. left. by exists None.
    + apply run_ret. split; [done|]. right. eexists. split; [done|]. apply can_write. right. exists None. simpl. by rewrite Hp.
  - intros _. apply run_ret. split; [done|]. by left.
Qed.

Lemma put_ok i T g ops row positioned : active g ops -> g_pending g = ∅ ->
  run i T g (put_row is_btree_readable_at btree T row positioned)
    (statement_post T ops (fun updated : bool => if updated then InTx T (ops ++ [Write (r_id row) (Some row)]) else InsertPanicked)).
Proof.
  intros Ha Hp. apply run_then, (run_exists i T g ops); [done|]. intros at_ g1 Hm Hx. pose proof (more_pending _ _ _ _ Hp Hm) as Hp1.
  destruct Hm as (Ha1 & _ & _). simpl. apply run_then, (run_read i T g1 ops); [done|]. intros o g2 (Ha2 & Hp2 & Hk2). rewrite Hp1 in Hp2. simpl.
  destruct o as [found|]; [by apply update_ok|].
  assert (may_insert T (r_id row) (default positioned at_) g2) as Hmay.
  { intros h w S Ho HS HT. assert (know_ok h S T (KRow (r_id row) None)) as Hk by (apply (shown Ho S HS HT); set_solver). split; [done|].
    destruct at_ as [[]|]; simpl; [by left|right; intros Hb|destruct positioned; [by left|right; intros Hb]]; simpl in Hx.
    - destruct Hx as [row' Hr]. destruct (shown_both Ho S HS HT (r_id row) row'); [set_solver|done].
    - destruct Hx as [_ [?|Hv]]; [done|]. apply (shown_first Ho S HS HT); [right; set_solver|done]. }
  assert (run i T (g_write (r_id row) (Some row) g2) (done true)
    (statement_post T ops (fun updated : bool => if updated then InTx T (ops ++ [Write (r_id row) (Some row)]) else InsertPanicked))) as Hend.
  { apply run_ret. split; [done|]. right. eexists. split; [done|]. apply can_write. left. simpl. by rewrite Hp2. }
  destruct (default positioned at_); apply run_then; by apply (run_insert i T g2 ops).
Qed.
End Programs.
