(* ===== verification/MvccCommit.v ===== *)
(** * The ends of transactions

    The programs of commits, of rollbacks and of commits whose statement was dropped keep the
    invariant and reach the end of the transaction. *)
From stdpp Require Import gmap functions relations.
From S2P Require Import Prelude Errors Effects Mvcc Threads MvccSession MvccGhost MvccEvolve MvccScan MvccFinish MvccChains MvccValidate MvccClock MvccRun MvccPrograms.

Section Commit.
Context (base : RowID -> option Row) {halting : Halts world}.
#[local] Abbreviation store_ok := (store_ok base).
#[local] Abbreviation owns := (owns base).
#[local] Abbreviation moves := (moves base).
#[local] Abbreviation run := (run base).

(** An action whose effect on the history is known, and what follows it. *)
Lemma run_upd {A B} i T g (m : MvM A) (f : A -> gtx) (P : A -> Prop) (k : A -> prog world (poll B)) (Q : poll B -> gtx -> Prop) :
  (forall h w, owns T g h w -> does m (fun x w' => store_ok (upd h T (f x)) w' /\ tx_ids w' = tx_ids w /\ P x) w) ->
  (forall x, same_log g (f x)) -> (forall x, P x -> run i T (f x) (k x) Q) -> run i T g (then_ (act m) k) Q.
Proof.
  intros Hm Hl Hk. apply run_next. intros h w Ho. eapply wpg_mono; [by apply Hm|]. intros x w' (Hs & Hn & HP).
  apply (moves_upd _ _ _ _ _ _ _ _ (f x)); [done|done|by left|by apply Hk].
Qed.

(** An action that leaves the store alone. *)
Lemma run_look {A B} i T g (m : MvM A) (P : A -> Prop) (k : A -> prog world (poll B)) (Q : poll B -> gtx -> Prop) :
  (forall h w, owns T g h w -> does m (fun x w' => w' = w /\ P x) w) -> (forall x, P x -> run i T g (k x) Q) -> run i T g (then_ (act m) k) Q.
Proof.
  intros Hm Hk. apply run_next. intros h w Ho. eapply wpg_mono; [by apply (Hm h)|]. intros x w' [-> HP].
  apply moves_stay; [apply Ho|done|apply Ho|by apply Hk].
Qed.

(** ** Notifications *)
Definition here (f : fate) (g : gtx) : Prop := begun g /\ g_gone g = false /\ g_fate g = f.

Lemma notify_each_ok i T ds (Q : poll () -> gtx -> Prop) : NoDup ds -> forall g, here Kept g -> g_taken g = true -> g_notify g = list_to_set ds ->
  (forall g', here Kept g' -> g_taken g' = true -> g_notify g' = ∅ -> g_refs g' = g_refs g -> Q (Ready ()) g') -> run i T g (notify_each ds) Q.
Proof.
  induction ds as [|d ds IH]; intros Hd g Hg Htk Hn HQ; simpl; [apply run_ret; by apply HQ|]. apply list.NoDup_cons in Hd as [Hnd Hd].
  apply (run_upd _ _ _ _ (fun _ => g_tell true (g_notify g ∖ {[ d ]}) g) (fun _ => True)); [|done|].
  - intros h w (Hs & <- & _). destruct Hg as (Hb & Hh & Hf). eapply wpg_mono; [apply (decrement_ok base Hs T Hb Hh d); [set_solver|by left]|].
    intros _ w' [? ?]. done.
  - intros _ _. apply IH; try done. simpl. rewrite Hn. simpl. set_solver.
Qed.

Lemma remove_ok i T g (Q : poll () -> gtx -> Prop) : begun g -> g_gone g = false -> g_fate g <> Undecided -> g_refs g = ∅ -> g_notify g = ∅ ->
  g_taken g = true \/ g_writes g = ∅ -> Q (Ready ()) (g_leave g) -> run i T g (removes T) Q.
Proof.
  intros Hb Hh Hf Hr Hn Hd HQ. assert (run i T g (act (leave_txs T)) Q) as Hleave.
  { apply run_does. intros h w (Hs & <- & _). eapply wpg_mono; [by apply (leave_txs_ok base Hs T Hb Hh)|].
    intros [] w' [? ?]. apply (moves_upd _ _ _ _ _ _ _ _ (g_leave (hx h T))); [done|done|by left|done]. }
  apply run_next. intros h w (Hs & Hg & _). eapply wpg_mono; [apply (finalize_tx_ok base Hs T); by rewrite Hg|].
  intros [] w' [? ?]. by apply moves_stay.
Qed.

Lemma notify_and_remove_ok i T g (Q : poll () -> gtx -> Prop) : here Kept g -> g_taken g = false -> g_refs g = ∅ ->
  (forall g', g_gone g' = true -> Q (Ready ()) g') -> run i T g (notify_and_remove T) Q.
Proof.
  intros Hg Htk Hr HQ. apply (run_upd _ _ _ _ (fun ds => g_tell true (list_to_set ds) g) (fun ds => NoDup ds)); [|done|].
  - intros h w (Hs & <- & _). destruct Hg as (Hb & Hh & Hf). eapply wpg_mono; [by apply (take_dependents_ok base Hs T Hb Hh); [|rewrite Hf]|].
    intros ds w' (? & ? & _ & ?). done.
  - intros ds Hds. apply run_then, notify_each_ok; try done. intros g' (Hb & Hh & Hf) Htk' Hn' Hr'.
    apply remove_ok; try done; [by rewrite Hf|by rewrite Hr'|by left|by apply HQ].
Qed.

(** ** Committed transactions *)
Definition going (g : gtx) (ops : list op) : Prop :=
  begun g /\ g_gone g = false /\ g_fate g <> Undone /\ g_taken g = false /\ g_ops g = ops.
Definition kept (e : Z) (g : gtx) (ops : list op) : Prop := going g ops /\ g_fate g = Kept /\ g_end g = Some e.

Lemma run_rewrite {B} i T e g ops key (k : () -> prog world (poll B)) (Q : poll B -> gtx -> Prop) : kept e g ops ->
  (kept e (g_unref key g) ops -> run i T (g_unref key g) (k ()) Q) -> run i T g (then_ (act (rewrite_live_versions T e key)) k) Q.
Proof.
  intros Hg Hk. apply (run_upd _ _ _ _ (fun _ => g_unref key g) (fun _ => True)); [|done|by intros [] _; apply Hk].
  intros h w (Hs & <- & _). destruct Hg as ((Hb & Hh & _) & Hf & He). eapply wpg_mono; [by apply (rewrite_ok base)|]. intros _ w' [? ?]. done.
Qed.

Lemma rewrite_each_ok i T e ops keys (Q : poll () -> gtx -> Prop) : forall g, kept e g ops ->
  (forall g', kept e g' ops -> g_refs g' = g_refs g ∖ list_to_set keys -> Q (Ready ()) g') -> run i T g (rewrite_each T e keys) Q.
Proof.
  induction keys as [|key keys IH]; intros g Hg HQ; simpl; [apply run_ret, HQ; [done|set_solver]|].
  apply (run_rewrite i T e g ops); [done|]. intros Hg'. apply IH; [done|]. intros g' Hk Hr. apply HQ; [done|]. rewrite Hr. simpl. set_solver.
Qed.

Lemma step_rewrite_ok i T e ops keys (Q : poll () -> gtx -> Prop) : forall g, kept e g ops ->
  (forall g', kept e g' ops -> g_refs g' = g_refs g ∖ list_to_set keys -> Q (Ready ()) g') ->
  (forall g', kept e g' ops -> Q (Fails Interrupt) g') -> run i T g (step_rewrite_live_versions T e keys) Q.
Proof.
  induction keys as [|key keys IH]; intros g Hg HQ HF; simpl; [apply run_ret, HQ; [done|set_solver]|].
  apply (run_rewrite i T e g ops); [done|]. intros Hg'. apply run_then, run_yields; [|by apply HF].
  apply IH; [done| |done]. intros g' Hk Hr. apply HQ; [done|]. rewrite Hr. simpl. set_solver.
Qed.

(** The write set names every row with versions of the transaction. *)
Lemma run_load {B} i T g ops (k : list RowID -> prog world (poll B)) (Q : poll B -> gtx -> Prop) : going g ops ->
  (forall keys, ghost_ok g -> list_to_set keys = dom (g_writes g) -> run i T g (k keys) Q) -> run i T g (then_ (act (load_write_set T)) k) Q.
Proof.
  intros (Hb & Hh & Hf & _) Hk. apply (run_look _ _ _ _ (fun keys => ghost_ok g /\ list_to_set keys = dom (g_writes g))); [|by intros keys [? ?]; apply Hk].
  intros h w Ho. pose proof (owns_ghost base T g h w Ho) as Hg. destruct Ho as (Hs & <- & _). eapply wpg_mono; [apply (load_write_set_ok base Hs T Hb Hh)|].
  - destruct (g_listed (hx h T)) eqn:El; [done|]. by apply (gh_listed _ Hg) in El.
  - by intros keys w' [-> ?].
Qed.

Lemma run_check_committed {B} i T e g ops (k : () -> prog world (poll B)) (Q : poll B -> gtx -> Prop) : kept e g ops ->
  run i T g (k ()) Q -> run i T g (then_ (act (check_committed T e)) k) Q.
Proof.
  intros ((Hb & Hh & _) & Hf & He) Hk. apply (run_look _ _ _ _ (fun _ => True)); [|by intros [] _].
  intros h w (Hs & <- & _). eapply wpg_mono; [by apply (check_committed_ok base Hs T Hb Hh e)|]. done.
Qed.

Lemma finish_ok i T e g ops (Q : poll () -> gtx -> Prop) : kept e g ops -> (forall g', g_gone g' = true -> Q (Ready ()) g') -> run i T g (finish_committed T e) Q.
Proof.
  intros Hg HQ. apply (run_check_committed i T e g ops); [done|]. apply (run_load i T g ops); [apply Hg|]. intros keys Hok Hkeys.
  apply run_then, (rewrite_each_ok i T e ops); [done|]. intros g' ((Hb & Hh & _ & Htk & _) & Hf & _) Hr. apply notify_and_remove_ok; try done.
  rewrite Hr, Hkeys. pose proof (gh_refs _ Hok). set_solver.
Qed.

(** ** Rollbacks *)
Lemma abort_each_ok i T ds (Q : poll () -> gtx -> Prop) : NoDup ds -> forall g, here Undone g -> g_taken g = true -> g_notify g = list_to_set ds ->
  (forall g', here Undone g' -> g_taken g' = true -> g_notify g' = ∅ -> g_listed g' = g_listed g -> Q (Ready ()) g') -> run i T g (abort_each ds) Q.
Proof.
  induction ds as [|d ds IH]; intros Hd g Hg Htk Hn HQ; simpl; [apply run_ret; by apply HQ|]. apply list.NoDup_cons in Hd as [Hnd Hd].
  apply (run_upd _ _ _ _ (fun _ => g_dooms d g) (fun _ => True)); [|done|intros _ _].
  { intros h w (Hs & <- & _). destruct Hg as (Hb & Hh & Hf). eapply wpg_mono; [apply (abort_dependent_ok base Hs T Hb Hh d); set_solver|].
    intros _ w' [? ?]. done. }
  apply (run_upd _ _ _ _ (fun _ => g_tell true (g_notify g ∖ {[ d ]}) (g_dooms d g)) (fun _ => True)); [|done|].
  - intros h w (Hs & Hgh & _). destruct Hg as (Hb & Hh & Hf). assert (begun (hx h T)) as Hb' by (by rewrite Hgh).
    assert (g_gone (hx h T) = false) as Hh' by (by rewrite Hgh).
    eapply wpg_mono; [apply (decrement_ok base Hs T Hb' Hh' d); rewrite Hgh; simpl; [set_solver|right; set_solver]|]. rewrite Hgh. intros _ w' [? ?]. done.
  - intros _ _. apply IH; try done. simpl. rewrite Hn. simpl. set_solver.
Qed.

Lemma rollback_each_ok i T keys (Q : poll () -> gtx -> Prop) : forall g, here Undone g -> g_taken g = true -> g_notify g = ∅ ->
  (forall g', here Undone g' -> g_taken g' = true -> g_notify g' = ∅ -> g_refs g' = g_refs g ∖ list_to_set keys -> Q (Ready ()) g') ->
  run i T g (rollback_each T keys) Q.
Proof.
  induction keys as [|key keys IH]; intros g Hg Htk Hn HQ; simpl; [apply run_ret, HQ; try done; set_solver|].
  apply (run_upd _ _ _ _ (fun _ => g_unref key g) (fun _ => True)); [|done|].
  - intros h w (Hs & <- & _). destruct Hg as (Hb & Hh & Hf). eapply wpg_mono; [by apply (rollback_row_ok base)|]. intros _ w' [? ?]. done.
  - intros _ _. apply IH; try done. intros g' ? ? ? Hr. apply HQ; try done. rewrite Hr. simpl. set_solver.
Qed.

Lemma rollback_ok i T g ops (Q : poll () -> gtx -> Prop) : going g ops -> g_fate g = Undecided ->
  (forall g', g_gone g' = true -> Q (Ready ()) g') -> run i T g (rollback_tx_inner T) Q.
Proof.
  intros (Hb & Hh & _ & Htk & _) Hf HQ.
  apply (run_upd _ _ _ _ (fun _ => g_decide Undone g) (fun _ => g_listed g = true)); [| |intros _ Hl].
  { intros h w Ho. pose proof (owns_ghost base T g h w Ho) as Hg. destruct Ho as (Hs & <- & _).
    eapply wpg_mono; [by apply (abort_tx_ok base Hs T Hb Hh)|]. intros _ w' (? & ? & _). split; [done|]. split; [done|].
    destruct (g_listed (hx h T)) eqn:El; [done|]. apply (gh_listed _ Hg) in El. congruence. }
  { intros _. split; [simpl; by rewrite Hf|congruence]. }
  apply (run_upd _ _ _ _ (fun ds => g_tell true (list_to_set ds) (g_decide Undone g)) (fun ds => (T ∉ ds) /\ NoDup ds)); [|done|intros ds [Hds Hnd]].
  { intros h w (Hs & Hg & _). eapply wpg_mono; [apply (take_dependents_ok base Hs T); by rewrite Hg|]. rewrite Hg. done. }
  apply (run_look _ _ _ _ (fun _ => True)); [|intros _ _].
  { intros h w _. apply wpg_assert; [|done]. by rewrite bool_decide_eq_false_2. }
  apply run_then, abort_each_ok; try done. intros g1 (Hb1 & Hh1 & Hf1) Htk1 Hn1 Hl1. simpl in Hl1. rewrite <- Hl1 in Hl.
  apply (run_upd _ _ _ _ (fun _ => g_unlist g1) (fun keys => ghost_ok g1 /\ list_to_set keys = dom (g_writes g1))); [|done|intros keys [Hok Hk]].
  { intros h w Ho. pose proof (owns_ghost base T g1 h w Ho) as Hg. destruct Ho as (Hs & <- & _). eapply wpg_mono; [by apply (take_write_set_ok base Hs T)|].
    intros keys w' (? & ? & ?). done. }
  apply run_then, rollback_each_ok; try done. intros g2 (Hb2 & Hh2 & Hf2) Htk2 Hn2 Hr2.
  apply (run_upd _ _ _ _ (fun _ => g2) (fun _ => True)); [|done|intros _ _].
  { intros h w (Hs & <- & _). eapply wpg_mono; [by apply (terminate_ok base Hs T)|]. intros _ w' [? ?]. done. }
  apply remove_ok; try done; [by rewrite Hf2| |by left|by apply HQ]. rewrite Hr2, Hk. simpl. pose proof (gh_refs _ Hok). set_solver.
Qed.

(** ** The decision *)
Lemma committed_now_same T ops w : committed_now T ops w w = [].
Proof. unfold committed_now. destruct (txs w !! T) as [t|]; [|done]. by destruct (tx_state t). Qed.

Lemma decided_moves T g ops h w e (Q : gtx -> Prop) w' : owns T g h w -> begun g -> g_gone g = false -> g_fate g = Undecided -> g_end g = Some e ->
  g_ops g = ops -> @decided base h w T Kept (Some e) w' -> Q (g_decide Kept g) -> moves T g (committed_now T ops w w') (tx_ids w) h Q w'.
Proof.
  intros (Hs & <- & _) Hb Hh Hf He Hops (Hs' & Hn & t & Ht & Ht') HQ. apply (moves_upd _ _ _ _ _ _ _ _ (g_decide Kept (hx h T))); try done.
  right. split; [by rewrite Hf|]. split; [done|]. exists e. split; [done|]. unfold committed_now. rewrite Ht, Ht'. simpl. rewrite <- Hops.
  pose proof (so_tx _ _ _ Hs T) as Hen. rewrite Ht in Hen. rewrite (en_begin _ _ _ Hen). pose proof (en_state _ _ _ Hen) as Hst.
  destruct (tx_state t); simpl in Hst; try done. destruct_and?. congruence.
Qed.

(** Validated, and no dependency left: the transaction may commit. *)
Definition waiting (e : Z) (g : gtx) (ops : list op) : Prop :=
  going g ops /\ g_fate g = Undecided /\ g_end g = Some e /\ g_pending g = ∅ /\ dom (g_writes g) ⊆ g_checked g.

Lemma run_commit_end {B} i T e g ops (k : () -> prog world (poll B)) (Q : poll B -> gtx -> Prop) : waiting e g ops -> g_safe g = true ->
  (kept e (g_decide Kept g) ops -> run i T (g_decide Kept g) (k ()) Q) -> run i T g (then_ (act_as T ops (commit_end T e)) k) Q.
Proof.
  intros ((Hb & Hh & Hu & Htk & Ho) & Hf & He & Hp & Hc) Hsafe Hk. apply run_then, run_act_as. intros h w Hown. apply wpp_does.
  eapply wpg_mono.
  - pose proof Hown as (Hs & Hg & _). apply (commit_end_ok base Hs T); rewrite Hg; try done.
  - intros [] w' Hd. by apply (decided_moves T g ops h w e); [..|apply Hk].
Qed.

Lemma drop_ok i T g ops (Q : poll () -> gtx -> Prop) : going g ops -> (forall g', g_gone g' = true -> Q (Ready ()) g') -> run i T g (drop_commit T ops) Q.
Proof.
  intros Hgo HQ. pose proof Hgo as (Hb & Hh & Hu & Htk & Hops). apply run_then, run_act_as. intros h w Hown. apply wpp_does. eapply wpg_mono.
  { pose proof Hown as (Hs & Hg & _). apply (cleanup_ok base Hs T); by rewrite Hg. }
  pose proof Hown as (Hs & Hg & _). rewrite Hg. intros [e| |] w' Hc; [|destruct Hc as [-> Hf]|done].
  - destruct Hc as [He [[Hf ->]|(Hf & Hcl & Hd)]].
    + rewrite committed_now_same. apply moves_stay; try done. by apply (finish_ok i T e g ops).
    + apply (decided_moves T g ops h w e); try done. by apply (finish_ok i T e _ ops).
  - rewrite committed_now_same. apply moves_stay; try done. by apply (rollback_ok i T g ops).
Qed.

(** ** Commit *)
Definition commit_post (e : Z) (ops : list op) (r : poll ()) (g : gtx) : Prop :=
  match r with
  | Ready _ => g_gone g = true
  | Waits => waiting e g ops
  | Fails _ => going g ops
  | Crashes => False
  end.

(** Past the dependencies a commit no longer waits. *)
Definition ended_post (ops : list op) (r : poll ()) (g : gtx) : Prop :=
  match r with
  | Ready _ => g_gone g = true
  | Fails _ => going g ops
  | _ => False
  end.

Lemma ended_commit e ops r g : ended_post ops r g -> commit_post e ops r g.
Proof. by destruct r. Qed.

Lemma log_and_finish_ok i T e g ops : waiting e g ops -> g_safe g = true -> run i T g (log_and_finish T e ops) (ended_post ops).
Proof.
  intros Hw Hsafe. pose proof Hw as (Hgo & Hf & He & Hp & Hc). apply run_then, run_yields; [|done].
  apply (run_upd _ _ _ _ (fun _ => g) (fun _ => True)); [|done|intros _ _].
  { intros h w (Hs & <- & _). destruct Hgo as (Hb & Hh & _). eapply wpg_mono; [by apply (own_log_ok base Hs T Hb Hh)|]. intros _ w' [? ?]. done. }
  apply run_then, run_yields; [|done]. apply (run_commit_end i T e g ops); [done..|]. intros Hk.
  apply (run_check_committed i T e _ ops); [done|]. apply (run_load i T _ ops); [apply Hk|]. intros keys Hok Hkeys.
  apply run_then, (step_rewrite_ok i T e ops); [done| |by intros g' [? _]].
  intros g' ((Hb & Hh & _ & Htk & _) & Hf' & _) Hr. apply notify_and_remove_ok; try done.
  rewrite Hr, Hkeys. pose proof (gh_refs _ Hok). set_solver.
Qed.

Definition writes_nothing (g : gtx) : Prop := g_writes g = ∅ /\ g_refs g = ∅ /\ g_notify g = ∅.

Lemma no_writes (keys : list RowID) g : list_to_set keys = dom (g_writes g) -> keys = [] -> ghost_ok g -> g_taken g = false -> writes_nothing g.
Proof.
  intros H -> Hok Htk. simpl in H. symmetry in H. apply dom_empty_inv_L in H. split; [done|]. split.
  - pose proof (gh_refs _ Hok) as Hr. rewrite H in Hr. set_solver.
  - destruct (decide (g_notify g = ∅)) as [|Hn]; [done|]. apply (gh_notify _ Hok) in Hn. congruence.
Qed.

Lemma commit_read_only_ok i T e g ops : waiting e g ops -> g_safe g = true -> writes_nothing g ->
  run i T g (commit_read_only T e ops) (ended_post ops).
Proof.
  intros Hw Hsafe (Hwr & Hr & Hn). apply (run_commit_end i T e g ops); [done..|]. intros ((Hb & Hh & Hu & Htk & _) & Hf & _). simpl in *.
  apply remove_ok; try done. by right.
Qed.

Lemma run_abort_now {B} i T g ops (k : () -> prog world (poll B)) (Q : poll B -> gtx -> Prop) : going g ops -> is_Some (g_end g) ->
  (forall err, Q (Fails err) g) -> run i T (if g_settled g then g_settle true g else g) (k ()) Q ->
  run i T g (then_ (act (check_abort_now T)) k) Q.
Proof.
  intros (Hb & Hh & _) He HF Hk. apply run_then, run_act. intros h w (Hs & <- & _). eapply wpp_mono; [by apply (check_abort_now_ok base Hs T Hb Hh)|].
  intros r w' [-> Hr]. destruct r as [[]| |err|]; try done; [|by apply moves_stay]. destruct (g_settled (hx h T)); [|by apply moves_stay].
  by apply (moves_upd _ _ _ _ _ _ _ _ (g_settle true (hx h T))); [| |left|]; auto.
Qed.

Lemma run_dependencies {B} i T g ops (k : bool -> prog world (poll B)) (Q : poll B -> gtx -> Prop) : going g ops -> is_Some (g_end g) ->
  run i T g (k true) Q -> run i T (g_settle false g) (k false) Q -> run i T g (then_ (act (has_dependencies T)) k) Q.
Proof.
  intros (Hb & Hh & _) He Hk Hk'. apply run_next. intros h w (Hs & <- & _). eapply wpg_mono; [by apply (has_dependencies_ok base Hs T Hb Hh)|].
  intros [] w' [-> Hr]; [by apply moves_stay|]. apply (moves_upd _ _ _ _ _ _ _ _ (g_settle false (hx h T))); auto. by left.
Qed.

Lemma run_no_dependents {B} i T g ops (k : () -> prog world (poll B)) (Q : poll B -> gtx -> Prop) : going g ops -> g_writes g = ∅ ->
  run i T g (k ()) Q -> run i T g (then_ (act (check_no_dependents T)) k) Q.
Proof.
  intros (Hb & Hh & _) Hw Hk. apply (run_look _ _ _ _ (fun _ => True)); [|by intros [] _]. intros h w (Hs & <- & _).
  eapply wpg_mono; [by apply (no_dependents_ok base Hs T Hb Hh)|]. done.
Qed.

(** [wait_for_dependencies] once the dependencies are gone. *)
Lemma proceed_ok i T e g ops : waiting e g ops -> run i T (g_settle false g)
  (then_ (act (check_abort_now T)) (fun _ => then_ (act (load_write_set T)) (fun keys => if bool_decide (keys = [])
    then then_ (act (check_no_dependents T)) (fun _ => commit_read_only T e ops) else log_and_finish T e ops))) (ended_post ops).
Proof.
  intros Hw. pose proof Hw as (Hgo & Hf & He & Hp & Hc). apply (run_abort_now i T _ ops); [done|simpl; by rewrite He|done|].
  simpl. set (g2 := g_settle true (g_settle false g)).
  assert (waiting e g2 ops) as Hw2 by done. apply (run_load i T g2 ops); [done|]. intros keys Hok Hkeys. case_bool_decide as Hk.
  - assert (writes_nothing g2) as Hn by (eapply no_writes; try done; apply Hw2). apply (run_no_dependents i T g2 ops); [done|apply Hn|].
    by apply commit_read_only_ok.
  - by apply log_and_finish_ok.
Qed.

Lemma wait_ok i T e g ops : waiting e g ops -> run i T g (wait_for_dependencies T e ops) (commit_post e ops).
Proof.
  intros Hw. pose proof Hw as (Hgo & Hf & He & Hp & Hc). apply (run_abort_now i T g ops); [done|by rewrite He|done|].
  set (g1 := if g_settled g then g_settle true g else g). assert (waiting e g1 ops) as Hw1 by (unfold g1; by destruct (g_settled g)).
  pose proof Hw1 as (Hgo1 & _ & He1 & _). apply (run_dependencies i T g1 ops); [done|by rewrite He1|by apply run_ret|].
  eapply run_mono; [by apply proceed_ok|]. apply ended_commit.
Qed.

Lemma validate_each_ok i T e ops keys (Q : poll () -> gtx -> Prop) : forall g, going g ops -> g_fate g = Undecided -> g_end g = Some e -> g_pending g = ∅ ->
  (forall g', going g' ops -> g_fate g' = Undecided -> g_end g' = Some e -> g_pending g' = ∅ -> g_writes g' = g_writes g ->
    list_to_set keys ∪ g_checked g ⊆ g_checked g' -> Q (Ready ()) g') ->
  (forall err g', going g' ops -> Q (Fails err) g') -> run i T g (validate_each T e keys) Q.
Proof.
  induction keys as [|key keys IH]; intros g Hgo Hf He Hp HQ HF; simpl; [apply run_ret, HQ; try done; set_solver|].
  apply run_then, run_act. intros h w Hown. eapply wpp_mono.
  { pose proof Hown as (Hs & Hg & _). destruct Hgo as (? & ? & _). apply (check_rowid_ok base h w T e key Hs); by rewrite Hg. }
  pose proof Hown as (Hs & Hg & _). rewrite Hg. intros r w' [-> Hr]. destruct r as [[]| |err|]; try done; [|by apply moves_stay; auto].
  apply (moves_upd _ _ _ _ _ _ _ _ (g_check key g)); [done|done|by left|]. apply IH; try done. intros g' ? ? ? ? ? Hsub. apply HQ; try done.
  simpl in Hsub. set_solver.
Qed.

Lemma validate_ok i T e g ops : going g ops -> g_fate g = Undecided -> g_end g = Some e -> g_pending g = ∅ ->
  run i T g (validate T e ops) (commit_post e ops).
Proof.
  intros Hgo Hf He Hp. apply (run_load i T g ops); [done|]. intros keys Hok Hkeys. case_bool_decide as Hk.
  - assert (writes_nothing g) as Hn by (eapply no_writes; try done; apply Hgo). pose proof Hn as (Hn0 & _).
    assert (waiting e g ops) as Hw by (repeat (split; [done|]); rewrite Hn0; set_solver).
    apply (run_no_dependents i T g ops); [done|done|]. apply (run_abort_now i T g ops); [done|by rewrite He|done|].
    set (g1 := if g_settled g then g_settle true g else g). assert (waiting e g1 ops /\ writes_nothing g1) as [Hw1 Hn1] by (unfold g1; by destruct (g_settled g)).
    pose proof Hw1 as (Hgo1 & _ & He1 & _). apply (run_dependencies i T g1 ops); [done|by rewrite He1|by apply wait_ok|].
    apply (run_abort_now i T _ ops); [done|simpl; by rewrite He1|done|]. simpl.
    eapply run_mono; [by apply commit_read_only_ok|]. apply ended_commit.
  - apply run_then, run_yields; [|done]. apply run_then, (validate_each_ok i T e ops); try done. intros g' Hgo' Hf' He' Hp' Hw' Hsub.
    apply run_then, run_yields; [|done]. apply wait_ok. repeat (split; [done|]). rewrite Hw', <- Hkeys. set_solver.
Qed.
End Commit.
