(* ===== verification/MvccIsolation.v ===== *)
(** * Snapshot isolation

    Every interleaving of connections keeps the invariant; so what the committed transactions have
    read is their snapshot, and no assertion of the store fails. *)
From stdpp Require Import gmap functions relations.
From S2P Require Import Prelude Errors Effects Mvcc MvccWords Threads MvccSession MvccCounters MvccGhost MvccEvolve MvccScan MvccFinish MvccClock MvccCollect MvccRun MvccPrograms MvccCommit.

(** ** The journal *)
Lemma last_writer_spec key time log :
  match last_writer key time log with
  | Some c => c ∈ log /\ is_Some (ct_writes c !! key) /\ ct_end c < time /\
      forall c', c' ∈ log -> is_Some (ct_writes c' !! key) -> ct_end c' < time -> ct_end c' <= ct_end c
  | None => forall c, c ∈ log -> is_Some (ct_writes c !! key) -> time <= ct_end c
  end.
Proof.
  induction log as [|c log IH]; simpl; [set_solver|]. case_bool_decide as Hw; simpl.
  2: { destruct (last_writer key time log) as [c'|].
       - destruct IH as (Hc & ? & ? & Hm). split; [by right|]. split; [done|]. split; [done|]. intros c0 [->|Hc0]%elem_of_cons; [done|auto].
       - intros c0 [->|Hc0]%elem_of_cons; [done|auto]. }
  destruct (ct_end c <? time) eqn:Et; destruct (last_writer key time log) as [c'|].
  - destruct IH as (Hc & ? & ? & Hm). destruct (ct_end c' <? ct_end c) eqn:Ec.
    + split; [by left|]. split; [done|]. split; [lia|]. intros c0 [->|Hc0]%elem_of_cons Hw0 Ht0; [done|]. specialize (Hm c0 Hc0 Hw0 Ht0). lia.
    + split; [by right|]. split; [done|]. split; [done|]. intros c0 [->|Hc0]%elem_of_cons ? ?; [lia|auto].
  - split; [by left|]. split; [done|]. split; [lia|]. intros c0 [->|Hc0]%elem_of_cons Hw0 Ht0; [done|]. specialize (IH c0 Hc0 Hw0). lia.
  - destruct IH as (Hc & ? & ? & Hm). split; [by right|]. split; [done|]. split; [done|]. intros c0 [->|Hc0]%elem_of_cons; [lia|auto].
  - intros c0 [->|Hc0]%elem_of_cons; [lia|auto].
Qed.

Section Journal.
Context (base : RowID -> option Row) {h : hist} {w : MvStore} {log : list committed_tx}.
Context (Hs : store_ok base h w) (Hj : journal_ok h log).

(** The transactions that have committed. *)
Definition committed : gset Z := list_to_set (ct_id <$> log).

Lemma committed_kept T : T ∈ committed <-> g_fate (hx h T) = Kept.
Proof.
  unfold committed. rewrite elem_of_list_to_set, list_elem_of_fmap, (jo_kept _ _ Hj). split; intros (c & H1 & H2); exists c; auto.
Qed.

Lemma kept_cleared T : g_fate (hx h T) = Kept -> cleared (hx h T) /\ is_Some (g_end (hx h T)).
Proof. apply (gh_kept _ (so_ghost _ _ _ Hs T)). Qed.

Lemma committed_plausible : plausible h w committed.
Proof.
  split.
  - intros T. by rewrite committed_kept.
  - intros T Hd HT%committed_kept. destruct Hd as [?|(t & Ht & Ha)]; [congruence|]. pose proof (so_tx _ _ _ Hs T) as He. rewrite Ht in He.
    pose proof (en_abort _ _ _ He (proj1 (proj1 (kept_cleared T HT)))). congruence.
  - intros T X HT%committed_kept HX. destruct (de_edge _ _ (so_deps _ _ _ Hs) T X HX) as (_ & _ & Hset).
    pose proof (gh_safe _ (so_ghost _ _ _ Hs T) (proj1 (proj1 (kept_cleared T HT)))). congruence.
Qed.

Lemma committed_consistent : consistent h w committed.
Proof.
  split; [apply committed_plausible|]. intros T W k HT HW Hne HwT HwW. pose proof (proj1 (committed_kept T) HT) as KT.
  pose proof (proj1 (committed_kept W) HW) as KW. destruct (kept_cleared T KT) as ((_ & HcT & _) & eT & HeT). destruct (kept_cleared W KW) as ((_ & HcW & _) & eW & HeW).
  assert (eT <> eW) as Hd by (intros ->; apply Hne, (ti_end_inj _ _ (so_times _ _ _ Hs) T W eW HeT HeW)).
  destruct (Z.lt_total eT eW) as [Hl|[?|Hl]]; [left|done|right].
  - apply (so_v _ _ _ Hs committed W T k eT eW); try done; [apply committed_plausible|]. apply HcW. by apply elem_of_dom.
  - apply (so_v _ _ _ Hs committed T W k eW eT); try done; [apply committed_plausible|]. apply HcT. by apply elem_of_dom.
Qed.

Lemma journal_writes c : c ∈ log -> ct_writes c = g_writes (hx h (ct_id c)).
Proof.
  intros Hc. destruct (jo_same _ _ Hj c Hc) as (_ & _ & Ho). assert (g_fate (hx h (ct_id c)) = Kept) as HK by (apply (jo_kept _ _ Hj); eauto).
  destruct (kept_cleared _ HK) as ((_ & _ & Hp) & _).
  pose proof (tf_writes _ _ _ _ (so_t _ _ _ Hs committed (ct_id c) committed_consistent (proj2 (committed_kept _) HK))) as Hw.
  rewrite Hw, Hp, Ho, (left_id_L ∅ (∪)). done.
Qed.

Lemma journal_wrote c k : c ∈ log -> is_Some (ct_writes c !! k) <-> wrote h (ct_id c) k.
Proof. intros Hc. by rewrite journal_writes. Qed.

Lemma journal_before c c' k : c ∈ log -> c' ∈ log -> is_Some (ct_writes c' !! k) -> ct_end c' < ct_begin c -> before h committed (ct_id c) k (ct_id c').
Proof.
  intros Hc Hc' Hw Hl. destruct (jo_same _ _ Hj c Hc) as (Hb & _). destruct (jo_same _ _ Hj c' Hc') as (_ & He & _). split_and!.
  - apply committed_kept, (jo_kept _ _ Hj). eauto.
  - by apply journal_wrote.
  - exists (ct_end c'). split; [done|]. lia.
Qed.

Lemma before_journal c k W : c ∈ log -> before h committed (ct_id c) k W ->
  exists c', c' ∈ log /\ ct_id c' = W /\ is_Some (ct_writes c' !! k) /\ ct_end c' < ct_begin c.
Proof.
  intros Hc (HW & Hw & e & He & Hl). apply committed_kept, (jo_kept _ _ Hj) in HW as (c' & Hc' & <-). exists c'.
  destruct (jo_same _ _ Hj c Hc) as (Hb & _). destruct (jo_same _ _ Hj c' Hc') as (_ & He' & _). split_and!; try done; [by apply journal_wrote|].
  assert (e = ct_end c') by congruence. lia.
Qed.

Lemma snapshot_snap c k v : c ∈ log -> snap_is base h committed (ct_id c) k v -> v = snapshot base log (ct_begin c) k.
Proof.
  intros Hc Hv. unfold snapshot. pose proof (last_writer_spec k (ct_begin c) log) as Hl. destruct (last_writer k (ct_begin c) log) as [c'|].
  - destruct Hl as (Hc' & Hw' & Hlt & Hmax). pose proof (journal_before c c' k Hc Hc' Hw' Hlt) as Hb'.
    destruct Hv as [(W & [HbW HlW] & HwW)|[Hno _]]; [|by destruct (Hno (ct_id c'))].
    enough (ct_id c' = W) as HE by (rewrite journal_writes, HE, HwW; done).
    destruct (HlW _ Hb') as [|(e & He & Hle)]; [done|]. destruct (before_journal c k W Hc HbW) as (cW & HcW & <- & HwcW & HlcW).
    destruct (jo_same _ _ Hj c' Hc') as (_ & He' & _). destruct (jo_same _ _ Hj cW HcW) as (HbeW & HeW & _).
    pose proof (ti_end _ _ (so_times _ _ _ Hs) _ _ HeW) as [_ ?]. specialize (Hmax cW HcW HwcW HlcW). assert (e = ct_end c') by congruence. lia.
  - destruct Hv as [(W & [HbW _] & _)|[_ ->]]; [|done]. destruct (before_journal c k W Hc HbW) as (cW & HcW & _ & HwcW & HlcW).
    specialize (Hl cW HcW HwcW). lia.
Qed.

Lemma reads_are_ok (P : RowID -> option Row -> Prop) snap ops : (forall k v, P k v -> v = snap k) -> forall own,
  reads_are P own ops -> reads_ok snap own ops.
Proof.
  clear. intros HP. induction ops as [|o ops IH]; intros own; simpl; [done|]. intros [Ho Hops]. split; [|by apply IH]. destruct o as [k v|k v]; [|done].
  destruct (own !! k); simpl; [done|by apply HP].
Qed.

Lemma journal_isolated : snapshot_isolated base log.
Proof.
  split.
  - intros c Hc. assert (ct_id c ∈ committed) as HT by (apply committed_kept, (jo_kept _ _ Hj); eauto). destruct (jo_same _ _ Hj c Hc) as (_ & _ & <-).
    apply (reads_are_ok (snap_is base h committed (ct_id c))); [intros k v; by apply snapshot_snap|].
    apply (so_t _ _ _ Hs committed); [apply committed_consistent|done].
  - intros c c' k Hc Hc' Hne Hw%journal_wrote Hw'%journal_wrote; [|done..].
    assert (forall c, c ∈ log -> ct_id c ∈ committed) as HT by (intros c0 Hc0; apply committed_kept, (jo_kept _ _ Hj); eauto).
    destruct (jo_same _ _ Hj c Hc) as (Hb & He & _). destruct (jo_same _ _ Hj c' Hc') as (Hb' & He' & _).
    destruct (co_apart _ _ _ committed_consistent (ct_id c) (ct_id c') k) as [(e & H1 & H2)|(e & H1 & H2)]; auto; [left|right].
    + assert (e = ct_end c) by congruence. lia.
    + assert (e = ct_end c') by congruence. lia.
Qed.
End Journal.

(** ** Connections *)

(** A counter has left the 62 bits of the words. *)
#[export] Instance exhausted : Halts world := fun s => VALUE_MASK < clock (mv s) \/ VALUE_MASK < tx_ids (mv s).

Section Connections.
Context (is_btree_readable_at : Z -> Z -> WalPos -> bool) (btree : Z -> option (Z -> option Row)).
#[local] Abbreviation base := (base_row btree).
#[local] Abbreviation world_ok := (world_ok base).
#[local] Abbreviation upholds := (upholds world_ok (fun _ _ => True)).
#[local] Abbreviation serve := (serve is_btree_readable_at btree).

Definition conn_ok (c : conn) (o : owned) : Prop :=
  match c with
  | Idle => forall T g, o = Owns T g -> begun g -> g_gone g = true
  | InsertPanicked => forall T g, o = Owns T g -> g_end g = None
  | InTx id ops => exists g, o = Owns id g /\ active g ops /\ g_pending g = ∅
  | Waiting id e ops => exists g, o = Owns id g /\ waiting e g ops
  end.

Lemma active_going T g ops h w : active g ops -> owns base T g h w -> going g ops.
Proof.
  intros (Hb & Hh & Hf & He & Ho) Hown. apply owns_ghost in Hown. split_and!; try done; [by rewrite Hf|].
  destruct (g_taken g) eqn:Et; [|done]. by apply (gh_taken _ Hown) in Et.
Qed.

Lemma ends_ok {A} i T g (m : prog world (poll A)) : run base i T g m (fun _ g' => g_gone g' = true) -> upholds i (Owns T g) (ends m) conn_ok.
Proof. intros H. apply upholds_bind. eapply upholds_mono; [exact H|]. intros r o (g' & -> & Hg) T' g'' [= _ <-] _. done. Qed.

Lemma drop_ends i T g ops : going g ops -> upholds i (Owns T g) (ends (drop_commit T ops)) conn_ok.
Proof. intros Hg. by apply ends_ok, (drop_ok base i T g ops). Qed.

Lemma commits_ok i T e g ops m : run base i T g m (commit_post e ops) -> upholds i (Owns T g) (commits T e ops m) conn_ok.
Proof.
  intros H. apply upholds_bind. eapply upholds_mono; [exact H|]. intros r o (g' & -> & Hr). destruct r as [[]| |err|]; simpl in Hr; try done.
  - by intros T' g'' [= _ <-].
  - exists g'. done.
  - by apply drop_ends.
Qed.

Lemma resting_ok i T g m : run base i T g m (fun c g' => resting c g' T) -> upholds i (Owns T g) m conn_ok.
Proof.
  intros H. eapply upholds_mono; [exact H|]. intros c o (g' & -> & Hr). destruct c as [|id ops|id e ops|]; simpl in *; try done.
  - destruct Hr as (-> & ? & ?). eauto.
  - by intros T' g'' [= _ <-].
Qed.

(** An idle connection owns no open transaction. *)
Lemma idle_owner h gs s i o T g : world_ok h gs s -> gs !! i = Some o -> conn_ok Idle o -> begun (hx h T) -> g_gone (hx h T) = false ->
  gs !! i <> Some (Owns T g).
Proof.
  intros HI Hi Hidle Hb Hg HO. destruct (world_owns base h gs s i T g HI HO) as (_ & <- & _). rewrite Hi in HO. injection HO as ->.
  rewrite (Hidle T _ eq_refl Hb) in Hg. done.
Qed.

(** *** Begin *)
Lemma draw_id_upholds i o (Q : poll Z -> owned -> Prop) : conn_ok Idle o -> (forall id, Q (Ready id) (Owns id unborn)) ->
  upholds i o (act draw_tx_id) Q.
Proof.
  intros Hidle HQ b h gs s Hi HI. pose proof HI as (Hs & Hj & Ho & Hnn & Hu & Hcov). pose proof (get_tx_id_ok base h (mv s) Hs) as Hd. unfold wpg in Hd.
  simpl in Hd. destruct Hd as (Hs' & _ & _).
  assert (draw_tx_id (mv s) = (_ ← packed (Some (TxID (tx_ids (mv s)))); mret (tx_ids (mv s)) : MvM Z) (with_tx_ids (tx_ids (mv s) + 1) (mv s))) as Hdraw by done.
  destruct (decide (tx_ids (mv s) <= VALUE_MASK)) as [Hm|Hm]; [left|right].
  - rewrite packed_fits in Hdraw by (simpl; lia). assert (hx h (tx_ids (mv s)) = unborn) as Hun.
    { apply (ti_unborn _ _ (so_times _ _ _ Hs)). intros Hb. apply (ti_begin _ _ (so_times _ _ _ Hs)) in Hb. lia. }
    eexists _, _, h, (Owns (tx_ids (mv s)) unborn). split; [|split; [by apply rtc_once|split; [|apply HQ]]].
    + cbn beta. rewrite Hdraw. done.
    + apply (world_step base h gs s); try done; simpl; [lia|split; [done|simpl; lia]|..].
      * intros T g [= <- <-] j g' _ Hg. destruct (proj1 (Forall_lookup _ _) Ho j _ Hg) as (_ & ? & _). lia.
      * intros T Hb Hg. destruct (Hcov T Hb Hg) as (j & g & Hj'). left. exists j, g. split; [|done]. intros ->. by apply (idle_owner h gs s i o T g).
  - split; [right; lia|]. rewrite packed_large in Hdraw by lia. cbn beta. by rewrite Hdraw.
Qed.

Lemma begin_upholds i o stale mark : conn_ok Idle o -> upholds i o (begin_ stale mark) conn_ok.
Proof.
  intros Hidle. apply upholds_bind, draw_id_upholds; [done|intros id]. apply upholds_bind.
  eapply (upholds_mono _ _ i _ (fun r o => exists g', o = Owns id g' /\ match r with
    | Ready _ => active g' [] /\ g_pending g' = ∅
    | _ => g_begin g' < 0
    end)).
  - apply (run_act base i id unborn). intros h w (Hs & Hg & Hr & Hm). eapply wpp_mono; [by apply (begin_tx_ok base)|]. intros r w' [Hn Hw].
    assert (forall Q : gtx -> Prop, Q unborn -> store_ok base h w' -> moves base id unborn [] (tx_ids w) h Q w') as Hstay by (intros; by apply moves_stay).
    destruct r as [[]| |err|]; [|apply Hstay; [done|apply Hw]..]. apply (moves_upd _ _ _ _ _ _ _ _ (born (clock w))); try done.
    + left. by split.
    + split; [|done]. split; [exact (ti_clock _ _ (so_times _ _ _ Hs))|done].
  - intros r o' (g' & -> & Hr). destruct r as [[]| |err|]; simpl; [eauto|by intros T g [= _ <-] Hb; unfold begun in Hb; lia..].
Qed.

(** *** Garbage collection *)
Lemma raise_world h gs s i f o0 o w' : world_ok h gs s -> store_ok base (mkHist (hx h) f) w' -> floor h <= f -> tx_ids w' = tx_ids (mv s) ->
  gs !! i = Some o0 -> conn_ok Idle o0 -> (forall T g, o <> Owns T g) -> owned_ok (mkHist (hx h) f) w' o -> world_ok (mkHist (hx h) f) (<[i := o]> gs) (mkWorld w' (journal s)).
Proof.
  intros HI Hs' Hf Hn Hi Hidle Ho Hok. pose proof HI as (Hs & Hj & Hall & _ & _ & Hcov). apply (world_step base h gs s); try done; simpl; [lia| | |].
  - intros T g ->. by destruct (Ho T g).
  - intros T Hb Hg. destruct (Hcov T Hb Hg) as (j & g & Hj'). left. exists j, g. split; [|done]. intros ->. by apply (idle_owner h gs s i o0 T g).
  - destruct HI as (_ & [] & _). by split.
Qed.

Lemma gc_upholds i o keys mark : conn_ok Idle o -> upholds i o (ends (then_ (act sample_gc_lwm) (fun lwm => gc_each keys lwm mark))) conn_ok.
Proof.
  intros Hidle. apply upholds_bind. eapply (upholds_mono _ _ i _ (fun _ o => exists lwm, o = Collects lwm)); [|by intros r o' [lwm ->]].
  apply upholds_bind.
  eapply (upholds_mono _ _ i _ (fun r o => exists lwm, r = Ready lwm /\ o = Collects lwm)).
  - intros b h gs s Hi HI. pose proof HI as (Hs & _). pose proof (sample_ok base h (mv s) Hs) as Hd. unfold wpg in Hd.
    unfold act, action. left. destruct (sample_gc_lwm (mv s)) as [[lwm| | |] w']; try done. destruct Hd as (Hn & f & Hf & Hs' & Hl).
    eexists _, _, (mkHist (hx h) f), (Collects lwm). split; [done|]. split; [by apply rtc_once|]. split; [by apply (raise_world _ _ _ _ _ o)|]. simpl. eauto.
  - intros r o' (lwm & -> & ->). induction keys as [|key keys IH]; [by exists lwm|].
    change (gc_each (key :: keys) lwm mark) with (then_ (act (gc_row key lwm mark)) (fun _ => gc_each keys lwm mark)). apply upholds_bind.
    eapply (upholds_mono _ _ i _ (fun r o => r = Ready () /\ o = Collects lwm)); [|intros r o' [-> ->]; exact IH].
    intros b h gs s Hi HI. pose proof HI as (Hs & _ & Ho & _). pose proof (proj1 (Forall_lookup _ _) Ho i _ Hi) as Hl.
    pose proof (gc_row_ok base h (mv s) key lwm mark Hs Hl) as Hd. unfold wpg in Hd. unfold act, action.
    left. destruct (gc_row key lwm mark (mv s)) as [[[]| | |] w']; try done. destruct Hd as (Hn & f & Hf & Hs').
    eexists _, _, (mkHist (hx h) f), (Collects lwm). split; [done|]. split; [by apply rtc_once|]. split; [|done]. apply (raise_world _ _ _ _ _ (Collects lwm)); try done.
    simpl. destruct Hl; [by left|right; lia].
Qed.

(** *** Requests *)
Lemma going_first i T g ops (p : prog world conn) : active g ops -> (forall c, p <> mret c) ->
  (going g ops -> upholds i (Owns T g) p conn_ok) -> upholds i (Owns T g) p conn_ok.
Proof.
  intros Ha Hne H. destruct p as [c|X f k]; [by destruct (Hne c)|]. intros b h gs s Hi HI.
  apply (H (active_going T g ops h (mv s) Ha (world_owns base h gs s i T g HI Hi))); done.
Qed.

Lemma serve_ok i c o r : conn_ok c o -> request_ok r c = true -> upholds i o (serve r c) conn_ok.
Proof.
  destruct c as [|id ops|id e ops|], r as [stale mark|key|row positioned|key|ec sc| | | |keys mark]; try done; cbn [MvccSession.serve conn_ok]; intros Hc _.
  - by apply begin_upholds.
  - by apply gc_upholds.
  - destruct Hc as (g & -> & Ha & Hp). apply resting_ok, run_statement; [done|by apply get_ok].
  - destruct Hc as (g & -> & Ha & Hp). apply resting_ok, run_statement; [done|by apply put_ok].
  - destruct Hc as (g & -> & Ha & Hp). apply resting_ok, run_statement; [done|by apply del_ok].
  - destruct Hc as (g & -> & Ha & Hp). apply (going_first i id g ops); [done|done|]. intros Hgo. apply upholds_bind.
    pose proof Ha as (Hb & Hh & Hf & He & Hops).
    eapply (upholds_mono _ _ i _ (fun r o => exists g', o = Owns id g' /\ match r with
      | Ready e => going g' ops /\ g_fate g' = Undecided /\ g_end g' = Some e /\ g_pending g' = ∅
      | _ => going g' ops
      end)).
    + apply (run_act_halts base i id g). intros h s (Hs & <- & _).
      destruct (prepare_tx_ok base h (mv s) id ec sc) as [Hok|[Hl Hc']]; [done..| |right; split; [by left|done]]. left.
      eapply wpp_mono; [exact Hok|]. intros r w' [Hn Hw].
      destruct r as [ts| |err|]; [|by apply moves_stay..]. apply (moves_upd _ _ _ _ _ _ _ _ (g_prepare ts (hx h id))); try done.
      left. split; [done|]. by apply open_log.
    + intros r o (g' & -> & Hr). destruct r as [ts| |err|]; [|by apply drop_ends..]. destruct Hr as (? & ? & ? & ?).
      apply commits_ok. by apply validate_ok.
  - destruct Hc as (g & -> & Ha & Hp). apply (going_first i id g ops); [done|done|]. intros Hgo. apply ends_ok. apply (rollback_ok base i id g ops); [done|apply Ha|done].
  - destruct Hc as (g & -> & Hw). by apply commits_ok, wait_ok.
  - destruct Hc as (g & -> & Hw). by apply drop_ends, Hw.
Qed.

(** *** The start *)
Definition no_history (first_ts : Z) : hist := mkHist (fun _ => unborn) (first_ts - 1).

Lemma init_store_ok first_ts passive checkpointing : 0 <= first_ts -> store_ok base (no_history first_ts) (init_store first_ts passive checkpointing).
Proof.
  intros Hts. split; simpl; try done.
  - split; simpl; try done. lia.
  - intros k v Hv. by apply list.not_elem_of_nil in Hv.
  - intros S k _. unfold chain. simpl. split; [set_solver|]. intros W _ [v Hv]. simpl in Hv. by rewrite lookup_empty in Hv.
  - intros S k _. unfold chain. simpl. split; simpl; try set_solver. intros W _ _ [v Hv]. simpl in Hv. by rewrite lookup_empty in Hv.
Qed.

Lemma init_ok first_ts passive checkpointing n : 0 <= first_ts ->
  config_ok world_ok (fun _ _ => True) conn_ok (no_history first_ts) (replicate n Free) (init first_ts passive checkpointing n).
Proof.
  intros Hts. split; [|split].
  - split_and!; [by apply init_store_ok| |by apply Forall_replicate|done| |intros T Hb; unfold begun in Hb; simpl in Hb; lia].
    + split; simpl; [|set_solver..]. intros T. split; [done|]. intros (c & Hc & _). set_solver.
    + intros i j T g g' Hg. apply lookup_replicate in Hg as [? _]. done.
  - simpl. by rewrite !length_replicate.
  - intros i t g Ht Hg. simpl in Ht. apply lookup_replicate in Ht as [-> _]. by apply lookup_replicate in Hg as [-> _].
Qed.

Lemma connections_ok first_ts passive checkpointing n c : 0 <= first_ts ->
  rtc (any_step (op_starts request_ok serve)) (init first_ts passive checkpointing n) c ->
  exists h gs, config_ok world_ok (fun _ _ => True) conn_ok h gs c.
Proof.
  intros Hts Hr. assert (forall i l p g, conn_ok l g -> op_starts request_ok serve l p -> upholds i g p conn_ok) as Hstart.
  { intros i l p g Hl (r & Hr' & ->). by apply serve_ok. }
  destruct (config_ok_reachable _ _ _ _ Hstart _ _ _ _ (init_ok first_ts passive checkpointing n Hts) Hr) as (h & gs & Hc & _). eauto.
Qed.

(** C1: the multi-version store gives snapshot isolation.  In every configuration that any number of
    connections can reach by any interleaving of their transactions, commits, dropped commits,
    rollbacks and garbage collections, speculative reads of preparing transactions included, each
    committed transaction has read its own last write of a row, or else the row as the transactions
    committed before it began have left it; and of two committed transactions that have written the
    same row one has committed before the other began. *)
Theorem mvcc_snapshot_isolation first_ts passive checkpointing n c : 0 <= first_ts ->
  rtc (any_step (op_starts request_ok serve)) (init first_ts passive checkpointing n) c ->
  snapshot_isolated base (journal (cf_state c)).
Proof.
  intros Hts Hr. destruct (connections_ok first_ts passive checkpointing n c Hts Hr) as (h & gs & (Hs & Hj & _) & _).
  by apply (journal_isolated base Hs Hj).
Qed.

Lemma exhausted_stays first_ts passive checkpointing n c c' :
  rtc (any_step (op_starts request_ok serve)) (init first_ts passive checkpointing n) c ->
  any_step (op_starts request_ok serve) c c' -> exhausted (cf_state c) -> exhausted (cf_state c').
Proof.
  intros Hr Hst. destruct (step_ahead is_btree_readable_at btree c c' Hst) as [[? ?] _].
  - apply (steps_climbing is_btree_readable_at btree _ c Hr). by apply Forall_replicate.
  - unfold exhausted. lia.
Qed.

(** C7: no assertion of the store fails, whatever the interleaving, as long as the clock and the
    transaction ids are within the 62 bits of the words that hold them: neither those of
    [PackedTs::pack] and [TransactionState::encode], which every version and every state is written
    with, nor those of [register_commit_dependency], [check_version_conflicts],
    [rollback_tx_inner], [remove_tx] and the states of a commit, nor an unwrapped lookup.  The
    assertion in the cursor's [insert] is apart: there the connection is [InsertPanicked].  Group
    commit, whose abandoned waiter may panic, is not among the requests of a connection. *)
Theorem mvcc_no_assertion_fails first_ts passive checkpointing n c i : 0 <= first_ts ->
  rtc (any_step (op_starts request_ok serve)) (init first_ts passive checkpointing n) c ->
  clock (mv (cf_state c)) <= VALUE_MASK -> tx_ids (mv (cf_state c)) <= VALUE_MASK ->
  cf_threads c !! i <> Some Panicked.
Proof.
  intros Hts Hr Hc Hi Hp. enough (exhausted (cf_state c)) as [|] by lia.
  refine (panic_halts _ world_ok (fun _ _ => True) conn_ok _ _ _ _ c i _ (init_ok first_ts passive checkpointing n Hts) _ Hr Hp).
  - intros j l p g Hl (r & Hr' & ->). by apply serve_ok.
  - intros c1 c2. apply exhausted_stays.
  - intros j Hj. simpl in Hj. by apply lookup_replicate in Hj as [? _].
Qed.
End Connections.

(** ** Schedules *)

(** A transaction reads a row of one that is preparing, waits for it in its commit, and commits. *)
Definition no_btree (table : Z) : option (Z -> option Row) := None.
Definition any_readable (table begin_ts : Z) (mark : WalPos) : bool := true.
Definition row_of (id : Z) (data : list Z) : Row := mkRow (mkRowID 1 id) data 1.

Definition speculative_read : list (event (Op := request)) :=
  [Start 0 (Begin false ORIGIN); Run 0 50; Start 0 (Put (row_of 1 [1]) false); Run 0 50; Start 0 (Commit false false); Run 0 3;
   Start 1 (Begin false ORIGIN); Run 1 50; Start 1 (Get (mkRowID 1 1)); Run 1 50; Start 1 (Commit false false); Run 1 50].
Definition speculative_commit : list (event (Op := request)) := speculative_read ++ [Run 0 50; Start 1 Resume; Run 1 50].

Definition after (es : list (event (Op := request))) (connections : nat) : config (S := world) (L := conn) :=
  replayed request_ok (serve any_readable no_btree) es (init 0 false false connections).

Lemma mvcc_snapshot_isolation_witness :
  journal (cf_state (after speculative_commit 2)) =
    [mkCommittedTx 1 0 1 [Write (mkRowID 1 1) (Some (row_of 1 [1]))]; mkCommittedTx 2 2 3 [Read (mkRowID 1 1) (Some (row_of 1 [1]))]] /\
  snapshot_isolated (base_row no_btree) (journal (cf_state (after speculative_commit 2))).
Proof.
  split; [vm_compute; reflexivity|]. apply (mvcc_snapshot_isolation any_readable no_btree 0 false false 2); [done|]. apply replayed_reachable.
Defined.

Lemma mvcc_no_assertion_fails_witness :
  cf_threads (after speculative_commit 2) = [Resting Idle; Resting Idle] /\ cf_threads (after speculative_commit 2) !! 0%nat <> Some Panicked.
Proof.
  split; [vm_compute; reflexivity|]. apply (mvcc_no_assertion_fails any_readable no_btree 0 false false 2); [done|apply replayed_reachable|..];
    vm_compute; discriminate.
Defined.
