(* ===== verification/MvccProgress.v ===== *)
(** * Waiting commits

    A commit that has read from preparing transactions waits until they have ended.  Waiting can
    not be circular: a transaction depends only on transactions that ended before it began, so the
    waiting commit with the least end timestamp depends on none that waits. *)
From stdpp Require Import relations.
From S2P Require Import Prelude Errors Effects Mvcc Threads MvccSession MvccGhost MvccEvolve MvccScan MvccFinish MvccClock MvccCollect MvccRun MvccPrograms MvccCommit MvccIsolation.

(** ** Programs that run alone *)
Lemma runs_act {A B} (m : MvM A) (k : poll A -> prog world B) s x w : m (mv s) = (x, w) -> x <> Crashes ->
  runs (act m ≫= k) s = runs (k x) (mkWorld w (journal s)).
Proof. intros Hm Hx. simpl. rewrite Hm. by destruct x. Qed.

Lemma then_bind {A B C} (m : prog world (poll A)) (k : A -> prog world (poll B)) (j : poll B -> prog world C) s :
  runs (then_ m k ≫= j) s = runs (m ≫= (fun r =>
    match r with Ready x => k x ≫= j | Waits => j Waits | Fails e => j (Fails e) | Crashes => j Crashes end)) s.
Proof.
  unfold then_. revert s. induction m as [r|X f n IH]; intros s; simpl; [by destruct r|]. destruct (f false s) as [[x s']| |]; simpl; [apply IH|done|done].
Qed.

(** The programs here fail no assertion at all. *)
#[local] Instance never : Halts world := fun _ => False.

Section Progress.
Context (is_btree_readable_at : Z -> Z -> WalPos -> bool) (btree : Z -> option (Z -> option Row)).
#[local] Abbreviation base := (base_row btree).
#[local] Abbreviation world_ok := (world_ok base).
#[local] Abbreviation upholds := (upholds world_ok (fun _ _ => True)).
#[local] Abbreviation serve := (serve is_btree_readable_at btree).

(** The transaction [T] has left the table. *)
Definition left_ok (T : Z) (c : conn) (o : owned) : Prop := c = Idle /\ exists g, o = Owns T g /\ g_gone g = true.

Lemma drop_left i T g ops : going g ops -> upholds i (Owns T g) (ends (drop_commit T ops)) (left_ok T).
Proof.
  intros Hg. apply upholds_bind. eapply upholds_mono; [by apply (drop_ok base i T g ops (fun _ g' => g_gone g' = true) Hg)|].
  intros r o (g' & -> & Hg'). split; eauto.
Qed.

Lemma ended_left i T e g ops m : run base i T g m (ended_post ops) -> upholds i (Owns T g) (commits T e ops m) (left_ok T).
Proof.
  intros H. apply upholds_bind. eapply upholds_mono; [exact H|]. intros r o (g' & -> & Hr). destruct r as [[]| |err|]; simpl in Hr; try done.
  - split; eauto.
  - by apply drop_left.
Qed.

(** ** Dependencies *)
Lemma no_dependencies h w T e g ops : owns base T g h w -> waiting e g ops -> (forall X, T ∉ deps h w X) ->
  has_dependencies T w = (Ready false, w).
Proof.
  intros (Hs & <- & _) ((Hb & Hh & _) & _) HX. destruct (owner_here base h w T Hs Hb Hh) as (t & Ht & _).
  destruct (de_count _ _ (so_deps _ _ _ Hs) T t Ht) as (D & HD & Hn). assert (D = ∅) as -> by set_solver.
  unfold has_dependencies, committing_tx, mbind, sm_bind. simpl. rewrite Ht. simpl. by rewrite Hn.
Qed.

Lemma abort_now_outcome h w T e g ops : owns base T g h w -> waiting e g ops ->
  check_abort_now T w = (Ready (), w) \/ exists err, check_abort_now T w = (Fails err, w).
Proof.
  intros (Hs & <- & _) ((Hb & Hh & _) & _ & He & _). pose proof (check_abort_now_ok base Hs T Hb Hh) as Ha. rewrite He in Ha. specialize (Ha ltac:(done)).
  unfold wpp in Ha. destruct (check_abort_now T w) as [[[]| |err|] w']; [..|done]; destruct Ha as [-> ?]; eauto; done.
Qed.

(** A waiting commit without dependencies ends when it is resumed. *)
Lemma resume_alone h gs s i T e g ops : world_ok h gs s -> gs !! i = Some (Owns T g) -> waiting e g ops -> (forall X, T ∉ deps h (mv s) X) ->
  exists c s' h' o', runs (commits T e ops (wait_for_dependencies T e ops)) s = Ok (c, s') /\ world_ok h' (<[i := o']> gs) s' /\ left_ok T c o'.
Proof.
  intros HI Hi Hw HX. pose proof (world_owns base h gs s i T g HI Hi) as Ho. pose proof Ho as (Hs & Hg & _). destruct s as [w log]. cbn [mv] in *.
  unfold commits, wait_for_dependencies. rewrite then_bind. destruct (abort_now_outcome h w T e g ops Ho Hw) as [Ea|[err Ea]];
    rewrite (runs_act _ _ (mkWorld w log) _ _ Ea) by done; cbn [journal].
  - rewrite then_bind, (runs_act _ _ (mkWorld w log) _ _ (no_dependencies h w T e g ops Ho Hw HX)) by done. cbn [journal].
    destruct (world_moves base h gs (mkWorld w log) i T g w [] (fun g' => g' = g_settle false g) HI Hi) as (h' & g' & HI' & ->).
    { apply (moves_upd _ _ _ _ _ _ _ _ (g_settle false g)); [done| |by left|done]. pose proof Hw as ((Hb & Hh & _) & _ & He & _). subst g.
      pose proof (has_dependencies_ok base Hs T Hb Hh) as Hd. rewrite He in Hd. specialize (Hd ltac:(done)). unfold wpg in Hd.
      rewrite (no_dependencies h w T e _ ops Ho Hw HX) in Hd. by apply Hd. }
    rewrite app_nil_r in HI'. destruct (upholds_runs world_ok (fun _ _ => True) i _ (left_ok T) (fun _ H => H) h' (<[i := Owns T (g_settle false g)]> gs) (mkWorld w log) _
      (ended_left i T e _ ops _ (proceed_ok base i T e g ops Hw))) as (c & s' & h'' & o' & Hr & HI'' & Hl); [|done|].
    + apply list_lookup_insert_eq. by eapply lookup_lt_Some.
    + rewrite list_insert_insert_eq in HI''. by exists c, s', h'', o'.
  - destruct (upholds_runs world_ok (fun _ _ => True) i _ (left_ok T) (fun _ H => H) h gs (mkWorld w log) _ (drop_left i T g ops (proj1 Hw)))
      as (c & s' & h' & o' & Hr & HI' & Hl); [done..|]. by exists c, s', h', o'.
Qed.

(** A dependency of a waiting commit waits itself when no connection runs, and ends before. *)
Lemma dependency_waits h gs c i T e ops X : config_ok (halting := exhausted) world_ok (fun _ _ => True) conn_ok h gs c ->
  (forall j t, cf_threads c !! j = Some t -> exists l, t = Resting l) -> cf_threads c !! i = Some (Resting (Waiting T e ops)) ->
  T ∈ deps h (mv (cf_state c)) X -> exists j e' ops', cf_threads c !! j = Some (Resting (Waiting X e' ops')) /\ e' < e.
Proof.
  intros (HI & Hlen & Hok) Hrest Hi HX. pose proof HI as (Hs & _ & Ho & _ & _ & Hcov).
  assert (exists o, gs !! i = Some o) as [o Hgi] by (apply lookup_lt_is_Some; rewrite Hlen; by eapply lookup_lt_Some).
  destruct (Hok i _ o Hi Hgi) as (g & -> & (_ & _ & He & _)). destruct (proj1 (Forall_lookup _ _) Ho i _ Hgi) as (Hg & _). rewrite <- Hg in He.
  destruct (de_edge _ _ (so_deps _ _ _ Hs) T X HX) as (_ & (ex & Hex & Hlt) & _). pose proof (ti_end _ _ (so_times _ _ _ Hs) T e He).
  assert (begun (hx h X) /\ g_gone (hx h X) = false) as [HbX HgX].
  { pose proof (so_tx _ _ _ Hs X) as HtX. unfold deps in HX. destruct (txs (mv (cf_state c)) !! X) as [t|]; [split; apply HtX|].
    destruct HtX as (_ & _ & Hn). rewrite Hn in HX. set_solver. }
  destruct (Hcov X HbX HgX) as (j & gX & Hj). destruct (proj1 (Forall_lookup _ _) Ho j _ Hj) as (HgX' & _). subst gX.
  assert (exists t, cf_threads c !! j = Some t) as [t Ht] by (apply lookup_lt_is_Some; rewrite <- Hlen; by eapply lookup_lt_Some).
  destruct (Hrest j t Ht) as [l ->]. pose proof (Hok j _ _ Ht Hj) as Hl. destruct l as [|id ops'|id e' ops'|]; simpl in Hl.
  - by rewrite (Hl X _ eq_refl HbX) in HgX.
  - destruct Hl as (g' & [= -> <-] & (_ & _ & _ & Hn & _) & _). congruence.
  - destruct Hl as (g' & [= -> <-] & (_ & _ & He' & _)). exists j, e', ops'. split; [done|]. assert (ex = e') by congruence. lia.
  - specialize (Hl X _ eq_refl). congruence.
Qed.

(** C8: commits do not wait for each other in a circle.  When every connection rests, the waiting
    commit with the least end timestamp, resumed, waits no longer: it commits or, if a transaction
    that it has read from was rolled back, is rolled back itself, and leaves the table of the
    transactions.  So commits never deadlock, however transactions have read from one another. *)
Theorem waiting_commit_ends first_ts passive checkpointing n c i id e ops : 0 <= first_ts ->
  rtc (any_step (op_starts request_ok serve)) (init first_ts passive checkpointing n) c ->
  (forall j t, cf_threads c !! j = Some t -> exists l, t = Resting l) ->
  cf_threads c !! i = Some (Resting (Waiting id e ops)) ->
  (forall j id' e' ops', cf_threads c !! j = Some (Resting (Waiting id' e' ops')) -> e <= e') ->
  exists s, runs (serve Resume (Waiting id e ops)) (cf_state c) = Ok (Idle, s) /\ txs (mv s) !! id = None.
Proof.
  intros Hts Hr Hrest Hi Hmin. destruct (connections_ok is_btree_readable_at btree first_ts passive checkpointing n c Hts Hr) as (h & gs & Hc).
  pose proof Hc as (HI & Hlen & Hok).
  assert (exists o, gs !! i = Some o) as [o Hgi] by (apply lookup_lt_is_Some; rewrite Hlen; by eapply lookup_lt_Some).
  destruct (Hok i _ o Hi Hgi) as (g & -> & Hw). destruct (resume_alone h gs (cf_state c) i id e g ops HI Hgi Hw) as (c' & s & h' & o & Hs & HI' & -> & g' & -> & Hg').
  - intros X HX. destruct (dependency_waits h gs c i id e ops X Hc Hrest Hi HX) as (j & e' & ops' & Hj & He). specialize (Hmin _ _ _ _ Hj). lia.
  - exists s. split; [exact Hs|]. destruct (world_owns base h' _ s i id g' HI') as (Hst & Hg & _).
    { apply list_lookup_insert_eq. by eapply lookup_lt_Some. }
    pose proof (so_tx _ _ _ Hst id) as Ht. destruct (txs (mv s) !! id) as [t|]; [|done]. pose proof (en_here _ _ _ Ht). congruence.
Qed.
End Progress.

(** ** Schedules *)

(** Connection 1 reads a row that connection 0 is committing, and connection 2 one that connection 1
    is committing; then connection 0 comes to its end. *)
Definition waiting_chain : list (event (Op := request)) :=
  [Start 0 (Begin false ORIGIN); Run 0 50; Start 0 (Put (row_of 1 [1]) false); Run 0 50; Start 0 (Commit false false); Run 0 3;
   Start 1 (Begin false ORIGIN); Run 1 50; Start 1 (Get (mkRowID 1 1)); Run 1 50; Start 1 (Put (row_of 2 [2]) false); Run 1 50;
   Start 1 (Commit false false); Run 1 50;
   Start 2 (Begin false ORIGIN); Run 2 50; Start 2 (Get (mkRowID 1 2)); Run 2 50; Start 2 (Commit false false); Run 2 50;
   Run 0 50].

Definition first_waits : list op := [Read (mkRowID 1 1) (Some (row_of 1 [1])); Write (mkRowID 1 2) (Some (row_of 2 [2]))].
Definition second_waits : list op := [Read (mkRowID 1 2) (Some (row_of 2 [2]))].

Lemma waiting_commit_ends_witness :
  cf_threads (after waiting_chain 3) = [Resting Idle; Resting (Waiting 2 3 first_waits); Resting (Waiting 3 5 second_waits)] /\
  exists s, runs (serve any_readable no_btree Resume (Waiting 2 3 first_waits)) (cf_state (after waiting_chain 3)) = Ok (Idle, s) /\
    txs (mv s) !! 2 = None.
Proof.
  assert (cf_threads (after waiting_chain 3) = [Resting Idle; Resting (Waiting 2 3 first_waits); Resting (Waiting 3 5 second_waits)]) as Ht
    by (vm_compute; reflexivity).
  split; [exact Ht|].
  refine (waiting_commit_ends any_readable no_btree 0 false false 3 (after waiting_chain 3) 1 2 3 first_waits _ (replayed_reachable _ _ _ _) _ _ _); [lia|rewrite Ht; clear Ht..].
  - intros [|[|[|j]]] t Hj; simpl in Hj; try done; injection Hj as <-; eauto.
  - done.
  - intros [|[|[|j]]] id' e' ops' Hj; simpl in Hj; try done; injection Hj as _ <- _; lia.
Defined.
