(* ===== verification/MvccSchedules.v ===== *)
(** * Schedules that fail

    Two assertions of the source that can fail: that of the cursor's [insert] and that of [remove_tx]
    for a waiter of a group commit whose statement is gone. *)
From stdpp Require Import gmap relations.
From S2P Require Import Prelude Errors Effects Mvcc Threads MvccSession MvccIsolation.

(** ** A row that was read and is gone *)

(** What visibility depends on: registering a dependency does not change it. *)
Definition seen (t : Transaction) : Z * Z * TransactionState := (tx_id t, tx_begin_ts t, tx_state t).
Definition view (w : MvStore) : gmap Z (Z * Z * TransactionState) * gmap Z TransactionState * gmap RowID (list RowVersion) :=
  (seen <$> txs w, finalized_tx_states w, rows w).

Definition alike {A} (m m' : MvM A) : Prop :=
  forall w w', view w = view w' -> (m w).1 = (m' w').1 /\ view (m w).2 = view w /\ view (m' w').2 = view w.

Lemma alike_bind {A B} (m m' : MvM A) (k k' : A -> MvM B) : alike m m' -> (forall x, alike (k x) (k' x)) -> alike (m ≫= k) (m' ≫= k').
Proof.
  intros Hm Hk w w' Hv. destruct (Hm w w' Hv) as (He & H1 & H2). unfold mbind, sm_bind.
  destruct (m w) as [r w1], (m' w') as [r' w1']. simpl in He, H1, H2. subst r'. destruct r as [x| |e|]; [|done..].
  destruct (Hk x w1 w1') as (? & ? & ?); [congruence|]. split_and!; [done|congruence..].
Qed.
Lemma alike_still {A} (r : poll A) : alike (fun w => (r, w)) (fun w => (r, w)).
Proof. by intros w w' Hv. Qed.
(** Actions whose answer is known. *)
Definition keeps {A} (m : MvM A) (x : A) : Prop := forall w, (m w).1 = Ready x /\ view (m w).2 = view w.
Lemma keeps_ret {A} (x : A) : keeps (mret x) x.
Proof. done. Qed.
Lemma keeps_on_tx id f : (forall t, seen (f t) = seen t) -> keeps (on_tx id f) ().
Proof.
  intros Hf w. split; [done|]. unfold view. simpl. do 2 f_equal. apply map_eq. intros i. rewrite !lookup_fmap.
  destruct (decide (i = id)) as [->|]; [rewrite lookup_alter_eq|by rewrite lookup_alter_ne]. destruct (txs w !! id); simpl; [by rewrite Hf|done].
Qed.
Lemma keeps_seq {A B} (m : MvM A) (k : MvM B) x y : keeps m x -> keeps k y -> keeps (m;; k) y.
Proof.
  intros Hm Hk w. destruct (Hm w) as [H1 H2]. unfold mbind, sm_bind. destruct (m w) as [r w1]. simpl in H1, H2. subst r.
  destruct (Hk w1). split; [done|congruence].
Qed.
Lemma alike_keeps {A} (m m' : MvM A) x : keeps m x -> keeps m' x -> alike m m'.
Proof. intros Hm Hm' w w' Hv. destruct (Hm w), (Hm' w'). split_and!; congruence. Qed.

Lemma alike_find {B} id (k k' : option Transaction -> MvM B) :
  (forall t t', seen t = seen t' -> alike (k (Some t)) (k' (Some t'))) -> alike (k None) (k' None) -> alike (find_tx id ≫= k) (find_tx id ≫= k').
Proof.
  intros Hs Hn w w' Hv. unfold find_tx, mbind, sm_bind, gets. assert (seen <$> txs w !! id = seen <$> txs w' !! id) as Ht.
  { rewrite <- !lookup_fmap. unfold view in Hv. congruence. }
  destruct (txs w !! id) as [t|], (txs w' !! id) as [t'|]; simpl in Ht; try done; [|by apply Hn]. apply Hs; [congruence|done].
Qed.

Lemma register_alike t t' id : tx_id t = tx_id t' -> alike (register_commit_dependency t id) (register_commit_dependency t' id).
Proof.
  intros Ht. unfold register_commit_dependency. rewrite Ht. apply alike_bind; [destruct (negb _); apply alike_still|]. intros _.
  apply alike_find; [|apply alike_still]. intros d d' Hd. assert (tx_state d = tx_state d') as -> by (unfold seen in Hd; congruence).
  destruct (tx_state d'); try apply alike_still; apply (alike_keeps _ _ ()); try by apply keeps_on_tx.
  all: case_bool_decide; [apply keeps_ret|]; eapply keeps_seq; by apply keeps_on_tx.
Qed.

Lemma finalized_alike id : alike (lookup_finalized_tx_state id) (lookup_finalized_tx_state id).
Proof.
  intros w w' Hv. unfold lookup_finalized_tx_state, mbind, sm_bind, gets. assert (finalized_tx_states w = finalized_tx_states w') as -> by (unfold view in Hv; congruence).
  by destruct (finalized_tx_states w' !! id) as [[]|].
Qed.

Ltac alike :=
  repeat first
    [ progress intros
    | match goal with H : seen ?t = seen ?t' |- _ =>
        assert (tx_id t = tx_id t') as -> by (unfold seen in H; congruence);
        assert (tx_state t = tx_state t') as -> by (unfold seen in H; congruence); clear H end
    | match goal with |- alike (register_commit_dependency _ _) _ => by apply register_alike end
    | match goal with |- alike (lookup_finalized_tx_state _) _ => apply finalized_alike end
    | apply alike_find
    | apply alike_bind
    | apply alike_still
    | match goal with |- alike (match ?x with _ => _ end) _ => destruct x end ].

Lemma visible_alike t t' v : tx_id t = tx_id t' -> tx_begin_ts t = tx_begin_ts t' -> alike (is_visible_to t v) (is_visible_to t' v).
Proof.
  intros Hid Hb. unfold is_visible_to, is_begin_visible, is_end_visible, turso_assert. rewrite Hid, Hb.
  alike.
Qed.

Lemma conflict_still t v w : (is_write_write_conflict t v w).2 = w.
Proof.
  unfold is_write_write_conflict. destruct (rv_end v) as [[e|X]|]; try done. destruct (_ =? _); [done|].
  unfold mbind, sm_bind, gets. by destruct (lookup_tx_state w X) as [[]|].
Qed.

(** The deletion meets the version that the read has found. *)
Lemma found_deleted t t' l : tx_id t = tx_id t' -> tx_begin_ts t = tx_begin_ts t' -> forall w w' v, view w = view w' ->
  (find_visible t l w).1 = Ready (Some v) -> (delete_visible t' l w').1 <> Ready None.
Proof.
  intros Hid Hb. induction l as [|rv l IH]; intros w w' v Hv; [done|]. simpl. unfold mbind, sm_bind.
  destruct (visible_alike t t' rv Hid Hb w w' Hv) as (He & H1 & H2).
  destruct (is_visible_to t rv w) as [r w1], (is_visible_to t' rv w') as [r' w1']. simpl in He, H1, H2. subst r'.
  destruct r as [b| | |]; try done. intros Hf.
  assert (forall m : MvM bool, (m w1').2 = w1' -> forall k, (forall c, (k c w1').1 <> Ready None) -> ((m ≫= k) w1').1 <> Ready (None : option (list RowVersion))) as Hstill.
  { clear. intros m Hm k Hk. unfold mbind, sm_bind. destruct (m w1') as [[c| | |] w2]; simpl in *; [subst w2; apply Hk|done..]. }
  apply Hstill; [destruct (_ || _); [apply conflict_still|done]|]. intros c. destruct c; [done|]. destruct b; simpl in *.
  - unfold mbind, sm_bind. destruct (packed _ w1') as [[[]| | |] ?]; done.
  - unfold mbind, sm_bind. pose proof (IH w1 w1' v ltac:(congruence) Hf) as Hn. destruct (delete_visible t' l w1') as [[[l'|]| | |] w2]; done.
Qed.
(** Reading leaves the view as it is. *)
Definition unseen {A} (m : MvM A) : Prop := forall w, view (m w).2 = view w.
Lemma unseen_bind {A B} (m : MvM A) (k : A -> MvM B) : unseen m -> (forall x, unseen (k x)) -> unseen (m ≫= k).
Proof.
  intros Hm Hk w. specialize (Hm w). unfold mbind, sm_bind. destruct (m w) as [[x| | |] w1]; simpl in *; try done. by rewrite Hk.
Qed.
Lemma unseen_visible t v : unseen (is_visible_to t v).
Proof. intros w. by destruct (visible_alike t t v eq_refl eq_refl w w eq_refl) as (_ & ? & _). Qed.
Lemma unseen_find t l : unseen (find_visible t l).
Proof. induction l as [|v l IH]; [done|]. apply unseen_bind; [apply unseen_visible|]. by intros []. Qed.
Lemma unseen_covers readable t table vs : unseen (btree_covers_chain_for_tx readable t table vs).
Proof.
  apply unseen_bind; [done|]. intros w0. destruct (passive_checkpoint w0), (checkpoint_in_progress w0), (readable table (tx_begin_ts t) (tx_read_mark t)); try done.
  apply unseen_bind; [|done]. destruct vs as [|v [|]]; try done. simpl. destruct (rv_begin v) as [[ts|]|]; try done.
  case_bool_decide; [done|]. apply unseen_bind; [apply unseen_visible|]. intros b. by destruct b, (durable_txid_max w0 <? ts).
Qed.

Lemma read_found readable id key row w w' : read_from_table readable id key w = (Ready (Some row), w') ->
  view w' = view w /\ exists t vs w1 v, txs w !! id = Some t /\ rows w !! key = Some vs /\ view w1 = view w /\
    (find_visible t (reverse vs) w1).1 = Ready (Some v).
Proof.
  unfold read_from_table, active_tx, find_tx, mbind, sm_bind, gets. destruct (txs w !! id) as [t|]; [|done]. case_bool_decide; [|done]. simpl.
  destruct (rows w !! key) as [[|v0 vs]|]; try done. cbn [skipmap_row_while_uncovered]. unfold mbind, sm_bind.
  pose proof (unseen_covers readable t (table_id (r_id (rv_row v0))) (v0 :: vs) w) as Hc.
  destruct (btree_covers_chain_for_tx _ _ _ _ w) as [[[]| | |] w1]; try done. simpl in Hc.
  pose proof (unseen_find t (reverse (v0 :: vs)) w1) as Hf. destruct (find_visible t (reverse (v0 :: vs)) w1) as [[[v|]| | |] w2] eqn:E; try done.
  intros [= _ <-]. simpl in Hf. split; [congruence|]. exists t, (v0 :: vs), w1, v. by rewrite E.
Qed.

Lemma delete_finds readable id key row w w' : read_from_table readable id key w = (Ready (Some row), w') ->
  (delete_from_table id key None w').1 <> Ready false.
Proof.
  intros (Hv & t & vs & w1 & v & Ht & Hr & H1 & Hf)%read_found.
  assert (seen <$> txs w' !! id = seen <$> txs w !! id) as Hs by (rewrite <- !lookup_fmap; unfold view in Hv; congruence).
  assert (rows w' !! key = Some vs) as Hr' by (unfold view in Hv; congruence). rewrite Ht in Hs.
  destruct (txs w' !! id) as [t'|] eqn:Ht'; [|done]. simpl in Hs. unfold delete_from_table, active_tx, find_tx, mbind, sm_bind, gets. rewrite Ht'.
  case_bool_decide; [|done]. simpl. rewrite Hr'. simpl.
  pose proof (found_deleted t t' (reverse vs) ltac:(unfold seen in Hs; congruence) ltac:(unfold seen in Hs; congruence) w1 (with_rows <[key := vs]> w') v) as Hd.
  destruct (delete_visible t' (reverse vs) (with_rows <[key := vs]> w')) as [[[l|]| | |] w2]; try done.
  - simpl. destruct (insert_to_write_set id key _) as [[]]; done.
  - destruct Hd; try done. rewrite H1, <- Hv. unfold view. simpl. by rewrite insert_id.
Qed.

(** Connection 1 reads the row of connection 0, which is preparing; connection 0 then fails its
    validation against connection 2 and is rolled back, and the update finds no row. *)
Definition aborted_read : list (event (Op := request)) :=
  [Start 0 (Begin false ORIGIN); Run 0 50; Start 2 (Begin false ORIGIN); Run 2 50;
   Start 0 (Put (row_of 1 [1]) false); Run 0 50; Start 0 (Put (row_of 2 [3]) false); Run 0 50;
   Start 2 (Put (row_of 2 [3]) false); Run 2 50; Start 2 (Commit false false); Run 2 50;
   Start 0 (Commit false false); Run 0 2;
   Start 1 (Begin false ORIGIN); Run 1 50; Start 1 (Put (row_of 1 [2]) false); Run 1 2; Run 0 50; Run 1 50].

(** C37: the assertion of the cursor's [insert], that the update supersedes the version which the
    read before it has found, holds in every state of the store when the insert runs alone, and
    fails in some interleaving: the read may find a version of a preparing transaction; when this
    transaction is rolled back before the update, there is nothing to supersede and the connection
    panics, although its transaction would only have had to abort. *)
Theorem insert_assertion_races :
  (forall readable id row resident s s', runs (cursor_insert readable id row resident) s <> Ok (Ready false, s')) /\
  exists c, rtc (any_step (op_starts request_ok (serve any_readable no_btree))) (init 0 false false 3) c /\
    cf_threads c !! 1%nat = Some (Resting InsertPanicked).
Proof.
  split; [|exists (after aborted_read 3); split; [apply replayed_reachable|vm_compute; reflexivity]].
  intros readable id row resident [w log] s'. unfold cursor_insert, then_. cbn [runs act action mbind prog_mbind prog_bind mv].
  destruct (read_from_table readable id (r_id row) w) as [r w'] eqn:Hr. destruct r as [[row'|]| | |]; try done.
  - cbn. pose proof (delete_finds readable id (r_id row) row' w w' Hr) as Hd.
    destruct (delete_from_table id (r_id row) None w') as [[[]| | |] w2]; try done. cbn.
    by destruct (insert_to_table id row w2) as [[] ?].
  - destruct resident; cbn; [by destruct (insert_btree_resident_to_table id row w') as [[] ?]|by destruct (insert_to_table id row w') as [[] ?]].
Qed.

(** ** A waiter whose statement is gone *)
Lemma rewrite_live_outcome id end_ts key w : (rewrite_live_versions id end_ts key w).1 = Crashes \/
  exists w', rewrite_live_versions id end_ts key w = (Ready (), w') /\ txs w' = txs w.
Proof.
  unfold rewrite_live_versions, packed, mbind, sm_bind, gets. cbn beta iota. destruct (existsb _ _); [|right; by eexists].
  destruct (pack _); [right; by eexists|by left..].
Qed.

Lemma rewrite_rows_outcome id end_ts keys w : (rewrite_rows id end_ts keys w).1 = Crashes \/
  exists w', rewrite_rows id end_ts keys w = (Ready (), w') /\ txs w' = txs w.
Proof.
  revert w. induction keys as [|key keys IH]; intros w; [right; by exists w|]. simpl. unfold mbind, sm_bind.
  destruct (rewrite_live_outcome id end_ts key w) as [Hc|(w1 & -> & Ht)].
  - left. by destruct (rewrite_live_versions id end_ts key w) as [[] ?].
  - destruct (IH w1) as [?|(w2 & -> & Ht2)]; [by left|right]. exists w2. split; [done|congruence].
Qed.

Lemma after_ready {A B} (m : MvM A) (k : A -> MvM B) x w w' : m w = (Ready x, w') -> (k x w').1 = Crashes -> ((m ≫= k) w).1 = Crashes.
Proof. intros Hm Hk. unfold mbind, sm_bind. by rewrite Hm. Qed.
Lemma after_crash {A B} (m : MvM A) (k : A -> MvM B) w : (m w).1 = Crashes -> ((m ≫= k) w).1 = Crashes.
Proof. intros Hm. unfold mbind, sm_bind. destruct (m w) as [r w']. simpl in Hm. by subst r. Qed.

Lemma remove_tx_crashes id t w : txs w !! id = Some t -> tx_commit_dep_set t <> ∅ -> (remove_tx id w).1 = Crashes.
Proof.
  intros Ht Hd. unfold remove_tx. apply after_crash. unfold finalize_tx. eapply after_ready; [done|]. rewrite Ht.
  rewrite (bool_decide_eq_false_2 _ Hd). destruct (tx_state t); try done. by destruct (bool_decide (tx_write_set t <> [])).
Qed.

(** C38: [finish_abandoned_group_waiter] panics when another transaction depends on the waiter.  It
    marks the waiter committed and removes it without notifying its dependents, as the other ends of a
    commit do; so the assertion of [remove_tx] that no dependent is left fails, in the thread of the
    connection that leads the group commit. *)
Theorem abandoned_waiter_panics id t end_ts w : txs w !! id = Some t -> tx_state t = Preparing end_ts \/ tx_state t = Committed end_ts ->
  tx_commit_dep_set t <> ∅ -> (finish_abandoned_group_waiter id w).1 = Crashes.
Proof.
  intros Ht Hst Hd. set (w1 := with_txs (alter (set_tx_state (Committed end_ts)) id) w).
  assert (txs w1 !! id = Some (set_tx_state (Committed end_ts) t)) as H1 by (unfold w1; simpl; by rewrite lookup_alter_eq, Ht).
  assert ((check_committed id end_ts w1) = (Ready (), w1)) as Hcc.
  { unfold check_committed, find_tx, mbind, sm_bind, gets. rewrite H1. simpl. by rewrite bool_decide_eq_true_2. }
  assert (((store_state id (Committed end_ts);; check_committed id end_ts;; rewrite_rows id end_ts (tx_write_set t);; remove_tx id) w).1 = Crashes) as Hrest.
  { unfold store_state. destruct (encode (Committed end_ts)); [|by apply after_crash..]. eapply after_ready; [done|]. eapply after_ready; [exact Hcc|].
    destruct (rewrite_rows_outcome id end_ts (tx_write_set t) w1) as [?|(w2 & Hrw & Ht2)]; [by apply after_crash|].
    eapply after_ready; [exact Hrw|]. apply (remove_tx_crashes id (set_tx_state (Committed end_ts) t)); by rewrite ?Ht2. }
  unfold finish_abandoned_group_waiter. eapply after_ready; [done|]. rewrite Ht. by destruct Hst as [-> | ->].
Qed.

Lemma abandoned_waiter_panics_witness :
  (tx_state <$> txs (mv (cf_state (after speculative_read 2))) !! 1) = Some (Preparing 1) /\
  (finish_abandoned_group_waiter 1 (mv (cf_state (after speculative_read 2)))).1 = Crashes.
Proof.
  split; [vm_compute; reflexivity|].
  set (w := mv (cf_state (after speculative_read 2))).
  destruct (txs w !! 1) as [t|] eqn:E; [|vm_compute in E; discriminate E].
  apply (abandoned_waiter_panics 1 t 1 w); [exact E|left|]; vm_compute in E; injection E as <-; [reflexivity|discriminate].
Defined.
